(* ===== verification/_CoqProject ===== *)
-Q . S2P
Prelude.v
Ordered.v
Validation.v
RuntimeControl.v
RuntimeStore.v
RuntimeKernel.v
KernelFrame.v
KernelSamples.v
KernelSafety.v
KernelDispatch.v
KernelRevision.v
KernelCancel.v
KernelEvents.v
KernelRecovery.v
KernelAdmission.v
Lifecycle.v
Evidence.v
WorkDir.v
WorkDirSafety.v
LifecycleDomain.v
LifecycleStore.v
LifecycleSafety.v
LifecycleSamples.v
LifecycleTheorems.v
LifecycleEvidence.v
LifecycleGuards.v
Manifest.v
ManifestTopology.v
ReleaseLock.v
ManifestOrder.v
ManifestTheorems.v
PreviewModel.v
PreviewMemory.v
PreviewPostgres.v
PreviewSafety.v
PreviewSim.v
PreviewRefinement.v
PreviewTheorems.v
CoordProg.v
CoordStartup.v
CoordService.v
CoordTrace.v
CoordRequests.v
CoordSystem.v
CoordPorts.v
CoordReady.v
CoordCache.v
CoordTheorems.v
OperationLease.v
ComputeControl.v
ComputeStore.v
ComputeAdmission.v
ComputeExecution.v
ComputeRecovery.v
ComputeSpec.v
ComputeRefine.v
ComputeBusiness.v
ComputeMono.v
ComputeInv.v
ComputePolicy.v
ComputeSamples.v
ComputeTheorems.v
ComputeLiveness.v
RuntimeConfiguration.v
ConfigurationInv.v
ConfigurationTheorems.v
LifecycleRecovery.v
RecoveryRestart.v
RecoveryInv.v
RecoverySamples.v
RecoveryTheorems.v
RecoveryConfig.v
