(* ===== verification/Prelude.v ===== *)
(** * RCoder: runtime operations, lifecycles, compute, releases, previews

    RCoder hosts user applications (UserApps).  This development models, from
    the Rust sources under [src/crates], the parts of it that decide what may
    happen to an application: the durable state machines that have to survive
    crashes, retries and competing callers (the owner's kernel, the lifecycle
    store, compute control, the preview stores and their coordinator), and the
    construction of the release an owner runs.  A release lock lists the services an owner starts;
    the kernel decides when they start and stop; the lifecycle store decides what
    the control plane may ask of the kernel; compute control takes an
    application's containers away from ordinary operations; previews run the same
    projects in development.

    ** The owner's operation kernel

    Inside an application's container, [app-cli] runs one owner process.  Its
    [RuntimeKernel] ([app-cli/src/orchestration/runtime_kernel/kernel.rs])
    admits start, restart, deploy and stop requests, hands them to an execution
    loop, commits or cancels them, and recovers after a crash.  It keeps its
    records through [RuntimeStore] ([runtime_kernel/store.rs]), as JSON files.

    - [RuntimeControl.v]: the protocol types of
      [shared_types/src/userapp/runtime_control.rs] and the fields of the
      deployment receipt ([app-cli/src/orchestration/server/journal.rs],
      [shared_types/src/app_cli_deploy.rs]) that recovery reads.  The SHA-256 of
      a canonical request is the parameter [RequestHash].
    - [RuntimeStore.v]: the files (operation records, [desired.json], event logs,
      cancellation receipts, quarantine) as a record of finite maps, one
      definition per method.  The answers the file system will give are part of
      the state: [io] lists the outcomes of the calls to come (success, error,
      transient lock; after an error nothing, the whole or a torn part may have
      landed) and [stat_faults] those of metadata calls, so a theorem about all
      states is a theorem about all schedules of failures.  The order in which
      a directory is listed is the parameter [DirOrder].  Writes retry five
      times, as in the source; there is no other bound, and nothing uses fuel.
    - [RuntimeKernel.v]: the admission state (active slot, stop slot, queue of
      one, protection flag, ...), tombstones and dispatch log; one definition
      per method, each a transition of the whole kernel, since every method
      holds the admission mutex for its body.  [admit_with_auxiliary_hold] is
      split into the phases of the source, in their order.
    - [KernelFrame.v]: the methods as steps ([KOp], [step], [run]), including the
      replacement of the owner process, and what every step preserves.
    - [KernelSafety.v]: terminal records are final; a recorded request
      is replayed; a reused id conflicts.
    - [KernelDispatch.v]: an operation executes at most once, and
      nothing executes without a durable record.
    - [KernelRevision.v]: the revision never goes back; what acceptance
      persists; a Stop fences older executions; what a commit proves.
    - [KernelCancel.v]: a confirmed cancellation is binding.
    - [KernelRecovery.v]: recovery completes and an idle owner
      executes; a Stop of unknown outcome closes the owner for good, and the
      precise recovery of Stops never applies (both flaws of the source).
    - [KernelEvents.v]: event logs are gapless, unless a metadata call
      fails (a flaw of the source).
    - [KernelAdmission.v]: refusals change nothing; the revision does
      not wrap; a failed sync leaves a record without an owner (a flaw of the
      source); the newest request wins.
    - [KernelSamples.v]: a concrete owner for the instances of these theorems.

    ** The control plane's lifecycle store

    Outside the container, the control plane records every application and every
    operation on it: [rcoder-storage/src/userapp_lifecycle] with the contract in
    [shared_types/src/userapp/lifecycle.rs].

    - [Lifecycle.v]: applications, the three scopes (development, production,
      application), operation kinds, commands, records, requests, progress.
    - [Evidence.v]: the checkpoints that destructive operations must record
      ([app_resource_deletion.rs], [userapp/db_password.rs], and the identities
      they refer to), with their checks.
    - [LifecycleDomain.v]: all of [domain.rs]: admission into a scope's slot,
      progress, metadata patches, and the evidence rules of each kind.  The
      decoders that serde derives for the evidence types are the parameter
      [CheckpointCodec].
    - [LifecycleStore.v]: the application row, the operation table and the request
      table, and the transactions over them ([common/ops/application.rs],
      [common/ops/operation.rs], [common/repo.rs]).  The database serialises
      writers by the application row; a failed transaction is rolled back.  The
      verdicts of the guards that read compute and configuration tables are
      inputs here; [ComputeAdmission.v] puts the compute guards in their place,
      and [RuntimeConfiguration.v] that on credentials.
    - [LifecycleSafety.v]: the invariant of the store, kept by every transaction.
    - [LifecycleTheorems.v]: within one life of an application, operations in
      flight never conflict, progress is exclusive, and admission happens once, by
      operation id and by request id.
    - [LifecycleEvidence.v]: deletions and storage operations record
      their evidence in order, on the captured target; a failed deletion has
      touched nothing.
    - [LifecycleGuards.v]: submitted database writes are resolved, never
      written off; metadata writers compete by revision; an admission is decided
      by the operations in flight.
    - [LifecycleSamples.v]: a concrete application and codec.

    ** Compute control

    A stop or restart of an application's containers has priority over ordinary
    operations: it is admitted over them, waits until what it interrupted has
    drained, and only then touches containers.  Its executor may die at any
    point, and another may take over only on evidence.

    - [OperationLease.v]: lease receipts, and the evidence that an operation's
      effects are complete ([userapp/operation_lease.rs],
      [userapp/builder_control.rs]).
    - [ComputeControl.v]: requests, controls, stages, the policy of a progress
      report, stop observations and restart evidence ([userapp/compute_control.rs],
      [compute_control/stop_observation.rs], [compute_recovery.rs]).  The
      decoders serde derives are the class [ComputeCodec].
    - [ComputeStore.v]: the tables of controls, heads (one pointer per
      environment), leases and deadlines beside those of [LifecycleStore.v], what
      counts as drained and settled, and the guards on business transactions
      ([common/compute.rs]).
    - [ComputeAdmission.v]: admission, claims and explicit starts; the business
      transactions with their guards; leases of ordinary operations; recreation.
    - [ComputeExecution.v], [ComputeRecovery.v]: what an executor and the
      recovery observers record ([common/compute_execution.rs],
      [common/compute_recovery.rs], [common/compute_restart_absence.rs]).
    - [ComputeSpec.v]: all these calls as one type [COp] with [cstep] and [crun],
      and the abstract ledger: the few ways in which controls, heads and business
      rows may change, and what each call has the right to.  An interrupted
      operation succeeds only by a call that has observed its success; an
      application changes its life only by deletion and recreation.
      [ComputeRefine.v] and [ComputeBusiness.v] show that every call is a sequence
      of ledger steps.  [fresh_run] says that admissions draw operation ids not in
      use, which are random UUIDs in the program.
    - [ComputeMono.v], [ComputeInv.v]: what the ledger never takes back, and its
      invariant.
    - [ComputeTheorems.v]: the refinement; one live control per scope; physical
      work is exclusive; live controls block business; controls only go forward;
      deadlines; stops last; admissions can be repeated; and that an explicit start
      after a failed stop forgets an executor (where the contract's comment
      promises otherwise).
    - [ComputePolicy.v], [ComputeLiveness.v]: the progress policy as an automaton,
      what a stop checkpoint may describe, what a claim does, and that an accepted
      stop can be carried out.
    - [ComputeSamples.v]: requests and runs for the instances.

    ** Runtime configuration

    Database credentials of an environment, saved as versions, captured by a
    deployment and applied by its executor.

    - [RuntimeConfiguration.v]: versions, heads and receipts beside the tables of
      compute control, every transaction of [common/configuration.rs], admission
      with inline credentials ([common/ops/application.rs]), and runs ([FOp],
      [fstep], [frun]) in which the guard on endings is no longer an input.  The
      hash that names a seeded save is the class [SeedHash].
    - [ConfigurationInv.v]: the invariant, kept by every call; that a call ends
      only what its receipts allow comes from the ledger ([hr_end]).
    - [ConfigurationTheorems.v]: the head names the unresolved write there is; the
      schema's constraints hold; a save can be repeated; a deployment reads the
      credentials it was admitted with.

    ** Recovery of operations

    When an executor is lost, the recovery scanner finishes its operation from
    what can be observed, and a restarted server puts what was running under
    recovery.

    - [LifecycleRecovery.v]: the evidence, and every transaction of
      [common/ops/recovery.rs], [observed.rs], [deletion_recovery.rs],
      [hot_recovery.rs] and [deployment_update.rs], the private inputs and
      deadlines of [operation.rs], and adoption, on the tables of
      [RuntimeConfiguration.v] with those of inputs, deadlines and bindings; runs
      ([ROp], [rstep], [rrun]) of all calls so far.  Serialisers are the class
      [RecoveryCodec].
    - [RecoveryRestart.v]: the paged quarantine of a restart, against a reference
      that maps over the table.  Its loop has a unit of fuel per operation and one
      more, which [quarantine_spec] shows to be enough.
    - [RecoveryInv.v]: what a call may do to the observed record, and that the
      ledger of [ComputeSpec.v] allows it.  The two calls that record an observed
      success do not ask whether a stop has interrupted the operation, and have the
      right to it in the ledger ([hr_observed]).
    - [RecoveryTheorems.v]: recovery refines the ledger; an observation is used
      once; interrupted work succeeds only if its success was observed (and the
      last lemma shows that it then does); a deleted application is only ever
      recreated; submitted password writes need their receipt; recovery never
      deletes; adoptions are permanent; restarts quarantine exactly what ran.
    - [RecoveryConfig.v]: over the same histories, versions and targets only
      advance, and an unresolved credential write holds its environment unless
      its operation was ended by one of the recovery calls that do not ask
      [configuration::validate_terminal] ([unasked]); such a write then blocks
      deployments with credentials for good.
    - [RecoverySamples.v]: histories for the instances.

    A history of [ROp] has every modelled transaction of the store;
    [fresh_recovery_run] is [fresh_run] of such a history.  The theorems
    of [RecoveryTheorems.v] and [RecoveryConfig.v] are of these histories; those
    of the sections above range over the calls of their own section.

    ** Releases

    A workspace is a set of projects with manifests; [workspace-manifest] checks
    them, orders the services and locks a release.

    - [Ordered.v]: a [BTreeMap] with its listing in key order.
    - [Manifest.v]: the manifest types ([types.rs]) and the rules one manifest is
      checked by ([validation/project.rs], [validation/startup.rs],
      [validation/parse.rs], the log rules of [validation/topology.rs]).  Issues
      carry their message, file, service and field; hints are left out.
    - [ManifestTopology.v]: the rules across services and the dependency order
      ([validation/topology.rs]).  The loop of the sort is given one unit of fuel
      per service, which [topo_loop_total] shows to be enough.
    - [ReleaseLock.v]: port allocation, the lock, its checks and its loading
      ([release_lock.rs], [discovery.rs]'s assembly).  The probe for a port has
      one unit of fuel per port of the range ([allocate_loop_total]).  The TOML
      library's readers are the class [TomlReader]; [TomlLaws] says that both of
      them read the same version.
    - [ManifestOrder.v]: the dependency sort, on dependency maps.
    - [ManifestTheorems.v]: the topology check is exact and its order is a
      topological order; ports are allocated for every workspace that fits, all
      different; a lock that was built is sound, copies its projects and is
      refused by no loader; it is a function of the set of projects, unless a
      disabled project shares an id (a flaw of the source).

    ** Previews

    One development server per project, on one of several replicas; a store
    records which, in memory or in PostgreSQL.

    - [PreviewModel.v]: keys, records, the transitions of one record and the
      store's interface, the class [PreviewLifecycleStore]
      ([shared_types/src/preview.rs]); the calls that write, and runs of calls.
    - [PreviewMemory.v]: the instance for [preview-coordinator/src/in_process.rs].
    - [PreviewPostgres.v]: the instance for
      [rcoder-storage/src/preview_lifecycle]: rows, constraints, conversions, one
      transaction per method.  Transactions are taken one at a time, as the
      allocation lock and the row locks make them; the database may abort one or
      lose its answer.  What PostgreSQL and the libraries provide (the hash, the
      collation, timestamps) is the class [PgBackend]; that a collation orders
      its list, losing and inventing nothing, is the one law used.
    - [PreviewSafety.v]: over any calls in memory, ports are distinct, revisions
      grow, and late writers change nothing.
    - [PreviewSim.v], [PreviewRefinement.v], [PreviewTheorems.v]: the relation
      between tables and maps, each method's simulation, and the refinement: the
      tables are always what some of the calls make of the maps.  Two places
      where the stores part are stated at the end.

    ** The preview coordinator

    What replicas do with those records: start and stop development servers, keep
    them alive, route to them ([preview-coordinator/src/service], [tasks.rs],
    [cache.rs], [activity.rs], [identity.rs]).

    - [CoordProg.v]: the contract's types, and programs: a method is a tree of
      the calls it awaits, going on with whatever answer comes ([Prog]); [runs]
      are its histories, [spec] a property of all of them.  A loop that retries
      until it is answered has fuel and is [Pending] when it runs out: what holds
      of every call holds for every fuel, and [startup_reaches_ready] says how
      much is enough to end (one round of the port pool).
    - [CoordStartup.v]: the owner of a startup and its critical sections, the
      table of owners, the startup task and its observer.
    - [CoordService.v]: the identity of the process, the requests, the sweeps, the
      route cache and the activity buffer.
    - [CoordTrace.v], [CoordRequests.v]: what a startup, and what a request or
      sweep, may do after a history.
    - [CoordSystem.v]: tasks, requests and sweeps interleaved call by call over
      the owners and their table, with panics and poisoned locks, and the
      invariant of that.
    - [CoordPorts.v], [CoordReady.v], [CoordCache.v]: the search for a port is
      exact; a startup against [PreviewMemory.v] ends; cached routes are fresh.
    - [CoordTheorems.v]: a startup accounts for its process; requests write with
      evidence; a stop is final; a startup reaches ready.

    ** Validation

    - [Validation.v]: the identifier whitelist of [shared_types/src/validation.rs].
    - [WorkDir.v], [WorkDirSafety.v]: the normalisation of absolute
      directories and the check of working directories: results are safe, and
      normalising is idempotent.

    ** How code is written here

    A method on [&mut self] returning [Result] is a function of type [M]: state
    in, result and state out; an early return keeps the writes made before it.
    [wp] states what a method does on both exits, and [preserves] what it keeps
    on both.  Integers of 64 bits are [Z] with their checked successor written
    out; text is its UTF-8 bytes.  Human-readable messages are kept only where
    the program stores or compares them.  Logging is left out; so are clocks and
    mutex poisoning (which takes a panic inside a critical section), except in
    the preview coordinator.

    ** What is not modelled

    The HTTP, gRPC and proxy layers, container runtimes, file services and
    agents are I/O around these decisions.  Of the runtime store, the endpoint,
    token, identity and legacy-migration files are left out.  Of the manifests,
    TOML parsing and the walk over directories.  Of previews, the
    HTTP between replicas and the execution of processes, which are calls with
    any answer, and the timers of the sweeps.
    Of compute control, the paging of its scan, and the two transactions that
    restore a lost identity ([restore_identity], [restore_unprovisioned_root]):
    they apply to an active application on which nothing has been done but
    attempts to create its builder that were rejected, so the histories here
    begin after them.
    Of recovery, the listing of wake fences and the paged scans, which only read.
    The front-end detector and the supervision of processes are probes of the
    file system and of the operating system, which these theorems do not need. *)
From stdpp Require Export base gmap strings list pretty fin_maps.
From Stdlib Require Export ZArith Lia.

(** ** Results, as in Rust's [Result<T, E>] *)

Inductive result (A E : Type) : Type :=
  | Ok (a : A)
  | Err (e : E).
Arguments Ok {A E} a.
Arguments Err {A E} e.

Definition result_bind {A B E} (r : result A E) (f : A → result B E) : result B E :=
  match r with Ok a => f a | Err e => Err e end.

Definition map_err {A E F} (f : E → F) (r : result A E) : result A F :=
  match r with Ok a => Ok a | Err e => Err (f e) end.

Definition is_ok {A E} (r : result A E) : bool :=
  match r with Ok _ => true | Err _ => false end.

(** [ensure b e]: [anyhow::ensure!] and the [if !b { return Err(e) }] idiom. *)
Definition ensure {E} (b : bool) (e : E) : result unit E :=
  if b then Ok tt else Err e.

Definition ok_or {A E} (o : option A) (e : E) : result A E :=
  match o with Some a => Ok a | None => Err e end.

(** A check or a lookup that was passed. *)
Lemma ensure_Ok {E} (b : bool) (e : E) u : ensure b e = Ok u → b = true.
Proof. by destruct b. Qed.
Lemma ensure_bind {A E} b (e : E) (f : unit → result A E) a :
  result_bind (ensure b e) f = Ok a ↔ b = true ∧ f tt = Ok a.
Proof. destruct b; simpl; naive_solver. Qed.
Lemma ok_or_bind {A B E} (o : option A) (e : E) (f : A → result B E) b :
  result_bind (ok_or o e) f = Ok b ↔ ∃ a, o = Some a ∧ f a = Ok b.
Proof. destruct o; simpl; naive_solver. Qed.

Lemma result_bind_Ok {A B E} (r : result A E) (f : A → result B E) b :
  result_bind r f = Ok b ↔ ∃ a, r = Ok a ∧ f a = Ok b.
Proof. destruct r; simpl; naive_solver. Qed.
Lemma map_err_Ok {A E F} (f : E → F) (r : result A E) a : map_err f r = Ok a ↔ r = Ok a.
Proof. destruct r; simpl; naive_solver. Qed.

Declare Scope rust_scope.
Delimit Scope rust_scope with rust.

Notation "'let?' x ':=' r 'in' k" :=
  (result_bind r (λ x, k))
  (at level 10, x pattern, r at level 100, k at level 200,
   format "'[v' 'let?'  x  ':='  r  'in' '/' k ']'") : rust_scope.

(** ** Stateful, fallible code

    A method on [&mut self] that returns [Result<A, E>] is a function of the
    state that returns the result and the state it leaves behind.  An early
    return with [?] keeps every write made before it, exactly as in Rust. *)

Definition M (S E A : Type) : Type := S → result A E * S.

Definition mret' {S E A} (a : A) : M S E A := λ s, (Ok a, s).
Definition mfail {S E A} (e : E) : M S E A := λ s, (Err e, s).
Definition mbind' {S E A B} (m : M S E A) (f : A → M S E B) : M S E B :=
  λ s, match m s with
       | (Ok a, s') => f a s'
       | (Err e, s') => (Err e, s')
       end.
Definition mget {S E} : M S E S := λ s, (Ok s, s).
Definition mgets {S E A} (f : S → A) : M S E A := λ s, (Ok (f s), s).
Definition mmodify {S E} (f : S → S) : M S E unit := λ s, (Ok tt, f s).
(** [match m { Ok(..) => .., Err(..) => .. }]: run [m], keep its effects and
    look at its outcome. *)
Definition mtry {S E F A} (m : M S E A) : M S F (result A E) :=
  λ s, let '(r, s') := m s in (Ok r, s').
Definition mlift {S E A} (r : result A E) : M S E A := λ s, (r, s).
Definition mmap_err {S E F A} (f : E → F) (m : M S E A) : M S F A :=
  λ s, let '(r, s') := m s in (map_err f r, s').
Definition mwhen {S E} (b : bool) (m : M S E unit) : M S E unit :=
  if b then m else mret' tt.

Notation "'let!' x ':=' m 'in' k" :=
  (mbind' m (λ x, k))
  (at level 10, x pattern, m at level 100, k at level 200,
   format "'[v' 'let!'  x  ':='  m  'in' '/' k ']'") : rust_scope.
Notation "m ';;;' k" :=
  (mbind' m (λ _, k)) (at level 100, k at level 200, right associativity) : rust_scope.

(** [for x in xs { body }] with [?] inside the body. *)
Fixpoint mforeach {S E A} (xs : list A) (body : A → M S E unit) : M S E unit :=
  match xs with
  | [] => mret' tt
  | x :: xs => mbind' (body x) (λ _, mforeach xs body)
  end.

(** ** Weakest preconditions

    [wp m s Q X]: from [s], [m] ends either in a success satisfying [Q] or in
    an error satisfying [X].  All of [m]'s runs end, so nothing is vacuous. *)

Definition wp {S E A} (m : M S E A) (s : S)
    (Q : A → S → Prop) (X : E → S → Prop) : Prop :=
  match m s with
  | (Ok a, s') => Q a s'
  | (Err e, s') => X e s'
  end.

Section wp_rules.
Context {S E A B : Type}.
Implicit Types (s : S).

Lemma wp_ret (a : A) s Q (X : E → S → Prop) : wp (mret' a) s Q X ↔ Q a s.
Proof. done. Qed.
Lemma wp_fail (e : E) s (Q : A → S → Prop) X : wp (mfail e) s Q X ↔ X e s.
Proof. done. Qed.
Lemma wp_get s Q (X : E → S → Prop) : wp mget s Q X ↔ Q s s.
Proof. done. Qed.
Lemma wp_gets (f : S → A) s Q (X : E → S → Prop) : wp (mgets f) s Q X ↔ Q (f s) s.
Proof. done. Qed.
Lemma wp_modify f s Q (X : E → S → Prop) : wp (mmodify f) s Q X ↔ Q tt (f s).
Proof. done. Qed.
Lemma wp_bind (m : M S E A) (f : A → M S E B) s Q X :
  wp (mbind' m f) s Q X ↔ wp m s (λ a s', wp (f a) s' Q X) X.
Proof. unfold wp, mbind'. by destruct (m s) as [[a|e] s']. Qed.
Lemma wp_try {F} (m : M S F A) s Q (X : E → S → Prop) :
  wp (mtry m) s Q X ↔ wp m s (λ a s', Q (Ok a) s') (λ e s', Q (Err e) s').
Proof. unfold wp, mtry. by destruct (m s) as [[a|e] s']. Qed.
Lemma wp_map_err {F} (g : F → E) (m : M S F A) s Q (X : E → S → Prop) :
  wp (mmap_err g m) s Q X ↔ wp m s Q (λ e s', X (g e) s').
Proof. unfold wp, mmap_err. by destruct (m s) as [[a|e] s']. Qed.
Lemma wp_lift (r : result A E) s Q (X : E → S → Prop) :
  wp (mlift r) s Q X ↔ match r with Ok a => Q a s | Err e => X e s end.
Proof. unfold wp, mlift. by destruct r. Qed.

Lemma wp_ensure b (e : E) s Q (X : E → S → Prop) :
  wp (mlift (ensure b e)) s Q X ↔ if b then Q tt s else X e s.
Proof. by destruct b. Qed.
Lemma wp_ok_or (o : option A) (e : E) s Q (X : E → S → Prop) :
  wp (mlift (ok_or o e)) s Q X ↔ match o with Some a => Q a s | None => X e s end.
Proof. by destruct o. Qed.

Lemma wp_mono (m : M S E A) s (Q Q' : A → S → Prop) (X X' : E → S → Prop) :
  wp m s Q X →
  (∀ a s', Q a s' → Q' a s') →
  (∀ e s', X e s' → X' e s') →
  wp m s Q' X'.
Proof. unfold wp. destruct (m s) as [[a|e] s']; auto. Qed.

(** [wp] read back as an equation, to use a specification forwards. *)
Lemma wp_ok (m : M S E A) s Q X a s' :
  wp m s Q X → m s = (Ok a, s') → Q a s'.
Proof. unfold wp. intros H Heq. by rewrite Heq in H. Qed.
Lemma wp_err (m : M S E A) s Q X e s' :
  wp m s Q X → m s = (Err e, s') → X e s'.
Proof. unfold wp. intros H Heq. by rewrite Heq in H. Qed.
End wp_rules.

Lemma wp_foreach {S E A : Type} (I : S → Prop) (xs : list A) (body : A → M S E unit) s Q X :
  I s →
  (∀ x s, x ∈ xs → I s → wp (body x) s (λ _ s', I s') X) →
  (∀ s', I s' → Q tt s') →
  wp (mforeach xs body) s Q X.
Proof.
  intros HI Hbody HQ. revert s HI Hbody.
  induction xs as [|x xs IH]; intros s HI Hbody; simpl.
  { by apply HQ. }
  apply wp_bind. eapply wp_mono; [apply Hbody; [left|done]| |done].
  intros [] s' HI'. apply IH; [done|]. intros y s0 Hy. apply Hbody. by right.
Qed.

(** A method preserves a relation between its first and last state, whatever
    its outcome.  With a preorder, sequences of methods preserve it too. *)
Definition preserves {S E A} (R : S → S → Prop) (m : M S E A) : Prop :=
  ∀ s, wp m s (λ _ s', R s s') (λ _ s', R s s').

Section preserves_rules.
Context {S : Type} (R : S → S → Prop) `{!PreOrder R}.

Lemma preserves_ret {E A} (a : A) : preserves (E := E) R (mret' a).
Proof using Type*. intros s. apply wp_ret. reflexivity. Qed.
Lemma preserves_fail {E A} (e : E) : preserves (A := A) R (mfail e).
Proof using Type*. intros s. apply wp_fail. reflexivity. Qed.
Lemma preserves_get {E} : preserves (E := E) R mget.
Proof using Type*. intros s. apply wp_get. reflexivity. Qed.
Lemma preserves_gets {E A} (f : S → A) : preserves (E := E) R (mgets f).
Proof using Type*. intros s. apply wp_gets. reflexivity. Qed.
Lemma preserves_lift {E A} (r : result A E) : preserves R (mlift r).
Proof using Type*. intros s. apply wp_lift. destruct r; reflexivity. Qed.
Lemma preserves_modify {E} f : (∀ s, R s (f s)) → preserves (E := E) R (mmodify f).
Proof using Type*. intros H s. apply wp_modify. apply H. Qed.
Lemma preserves_bind {E A B} (m : M S E A) (f : A → M S E B) :
  preserves R m → (∀ a, preserves R (f a)) → preserves R (mbind' m f).
Proof using Type*.
  intros Hm Hf s. apply wp_bind. eapply wp_mono; [apply Hm| |done].
  intros a s1 H1. eapply wp_mono; [apply Hf| |]; intros ? s2 H2; (etrans; [exact H1|exact H2]).
Qed.
Lemma preserves_try {E F A} (m : M S E A) : preserves R m → preserves (E := F) R (mtry m).
Proof using Type*. intros Hm s. apply wp_try. exact (Hm s). Qed.
Lemma preserves_map_err {E F A} (g : E → F) (m : M S E A) :
  preserves R m → preserves R (mmap_err g m).
Proof using Type*. intros Hm s. apply wp_map_err. exact (Hm s). Qed.
Lemma preserves_when {E} b (m : M S E unit) : preserves R m → preserves R (mwhen b m).
Proof using Type*. intros Hm. destruct b; [done|apply preserves_ret]. Qed.
Lemma preserves_foreach {E A} (xs : list A) (body : A → M S E unit) :
  (∀ x, preserves R (body x)) → preserves R (mforeach xs body).
Proof using Type*.
  intros Hb. induction xs as [|x xs IH]; simpl; [apply preserves_ret|].
  by apply preserves_bind.
Qed.
End preserves_rules.

Create HintDb rust.
Create HintDb frame.
#[export] Hint Resolve preserves_ret preserves_fail preserves_get preserves_gets
  preserves_lift preserves_bind preserves_try preserves_map_err preserves_when
  preserves_foreach : rust.

(** Symbolic execution of straight-line monadic code; a component adds its own
    primitives by redefining [wp_hook]. *)
Ltac wp_hook := fail.
Ltac wp_step :=
  lazymatch goal with
  | |- wp (mbind' _ _) _ _ _ => apply wp_bind
  | |- wp (mret' _) _ _ _ => apply wp_ret
  | |- wp (mfail _) _ _ _ => apply wp_fail
  | |- wp mget _ _ _ => apply wp_get
  | |- wp (mgets _) _ _ _ => apply wp_gets
  | |- wp (mmodify _) _ _ _ => apply wp_modify
  | |- wp (mtry _) _ _ _ => apply wp_try
  | |- wp (mmap_err _ _) _ _ _ => apply wp_map_err
  | |- wp (mlift (ensure _ _)) _ _ _ => apply wp_ensure
  | |- wp (mlift (ok_or _ _)) _ _ _ => apply wp_ok_or
  | |- wp (mlift _) _ _ _ => apply wp_lift
  | |- wp (mwhen ?b _) _ _ _ => unfold mwhen; destruct b eqn:?
  | |- _ => wp_hook
  end.
Ltac wp_steps := repeat (wp_step; cbv beta).

(** ** Machine integers *)

Definition u64_max : Z := 2 ^ 64 - 1.
Definition i64_max : Z := 2 ^ 63 - 1.

(** [u64::checked_add(self, 1)] and [i64::checked_add(self, 1)]. *)
Definition u64_checked_succ (n : Z) : option Z :=
  if (n + 1 <=? u64_max)%Z then Some (n + 1)%Z else None.
Definition i64_checked_succ (n : Z) : option Z :=
  if (n + 1 <=? i64_max)%Z then Some (n + 1)%Z else None.

Lemma u64_checked_succ_Some n m : u64_checked_succ n = Some m → m = (n + 1)%Z.
Proof. unfold u64_checked_succ. case_match; naive_solver. Qed.
Lemma i64_checked_succ_Some n m : i64_checked_succ n = Some m → m = (n + 1)%Z.
Proof. unfold i64_checked_succ. case_match; naive_solver. Qed.
Lemma i64_checked_succ_bound n m : i64_checked_succ n = Some m → (m ≤ i64_max)%Z.
Proof. unfold i64_checked_succ. destruct (Z.leb_spec (n + 1) i64_max); [by intros [= <-]|done]. Qed.

(** ** Options *)

(** [o.as_deref() == Some(x)]. *)
Definition opt_is {A} `{EqDecision A} (o : option A) (x : A) : bool :=
  bool_decide (o = Some x).
Definition is_some {A} (o : option A) : bool :=
  match o with Some _ => true | None => false end.
Definition is_none {A} (o : option A) : bool := negb (is_some o).
(** [Option::or]: the left operand wins. *)
Definition opt_or {A} (x y : option A) : option A :=
  match x with Some a => Some a | None => y end.

Lemma opt_is_true {A} `{EqDecision A} (o : option A) x : opt_is o x = true ↔ o = Some x.
Proof. unfold opt_is. apply bool_decide_eq_true. Qed.
Lemma opt_is_false {A} `{EqDecision A} (o : option A) x : opt_is o x = false ↔ o ≠ Some x.
Proof. unfold opt_is. apply bool_decide_eq_false. Qed.

Lemma is_some_true {A} (o : option A) : is_some o = true ↔ is_Some o.
Proof. destruct o; simpl; split; try done; by intros []. Qed.
Lemma is_none_true {A} (o : option A) : is_none o = true ↔ o = None.
Proof. by destruct o. Qed.
Lemma is_none_false {A} (o : option A) : is_none o = false ↔ is_Some o.
Proof. destruct o; simpl; split; try done; by intros []. Qed.

(** ** A transaction that has succeeded

    [unbind H] takes the first step off [H : let? x := r in k = Ok b], and
    [bools] turns what guards say into propositions. *)
Ltac unbind H :=
  lazymatch type of H with
  | result_bind (ensure _ _) _ = Ok _ =>
      let Hb := fresh "Hb" in apply ensure_bind in H as [Hb H]
  | result_bind (ok_or _ _) _ = Ok _ =>
      let a := fresh "a" in let Ha := fresh "Ha" in apply ok_or_bind in H as (a & Ha & H)
  | result_bind _ _ = Ok _ =>
      let a := fresh "a" in let Ha := fresh "Ha" in apply result_bind_Ok in H as (a & Ha & H)
  end; cbv beta in H.
(** With names: [peel H as Hb] for a guard, [peel H as a Ha] for a value. *)
Tactic Notation "peel" hyp(H) "as" ident(Hb) :=
  apply ensure_bind in H as [Hb H]; cbv beta in H.
Tactic Notation "peel" hyp(H) "as" ident(a) ident(Ha) :=
  lazymatch type of H with
  | result_bind (ok_or _ _) _ = Ok _ => apply ok_or_bind in H as (a & Ha & H)
  | _ => apply result_bind_Ok in H as (a & Ha & H)
  end; cbv beta in H.
Ltac bools :=
  repeat match goal with
  | H : _ && _ = true |- _ => let H' := fresh H in apply andb_true_iff in H as [H H']
  | H : _ || _ = false |- _ => let H' := fresh H in apply orb_false_iff in H as [H H']
  | H : negb _ = true |- _ => apply negb_true_iff in H
  | H : negb _ = false |- _ => apply negb_false_iff in H
  | H : bool_decide _ = true |- _ => apply bool_decide_eq_true in H
  | H : bool_decide _ = false |- _ => apply bool_decide_eq_false in H
  | H : opt_is _ _ = true |- _ => apply opt_is_true in H
  | H : is_some _ = true |- _ => apply is_some_true in H
  | H : is_none _ = true |- _ => apply is_none_true in H
  | H : is_none _ = false |- _ => apply is_none_false in H
  | H : (_ =? _)%Z = true |- _ => apply Z.eqb_eq in H
  | H : (_ <? _)%Z = false |- _ => apply Z.ltb_ge in H
  | H : (_ <? _)%Z = true |- _ => apply Z.ltb_lt in H
  | H : (_ <=? _)%Z = true |- _ => apply Z.leb_le in H
  end.

(** ** Reflexive-transitive closure of a transition function *)

Section runs.
Context {S : Type} (step : S → S → Prop).

Lemma rtc_invariant (I : S → Prop) :
  (∀ s s', I s → step s s' → I s') → ∀ s s', rtc step s s' → I s → I s'.
Proof. intros Hstep s s' Hr. induction Hr; naive_solver. Qed.

Lemma rtc_preorder (R : S → S → Prop) `{!PreOrder R} :
  (∀ s s', step s s' → R s s') → ∀ s s', rtc step s s' → R s s'.
Proof. intros Hstep s s' Hr. induction Hr; [reflexivity|]. etrans; eauto. Qed.
End runs.
