(* ===== verification/Ordered.v ===== *)
(** * Ordered maps

    A [BTreeMap] is a finite map with the listing of its keys in byte order. *)
From S2P Require Import Prelude.
From stdpp Require Import sorting.

(** [map.keys()] of a [BTreeMap<String, _>]. *)
Definition btree_keys {V} (m : gmap string V) : list string :=
  merge_sort String.le (elements (dom m)).
(** [iter.collect::<BTreeMap<_, _>>()]: a later entry replaces an earlier one. *)
Definition btree_collect {V} (l : list (string * V)) : gmap string V :=
  foldl (λ m kv, <[kv.1 := kv.2]> m) ∅ l.

Lemma NoDup_omap_inj {A B} (f : A → option B) (l : list A) :
  NoDup l → (∀ x y b, x ∈ l → y ∈ l → f x = Some b → f y = Some b → x = y) → NoDup (omap f l).
Proof.
  induction 1 as [|x l Hx Hl IH]; intros Hinj; simpl; [constructor|].
  assert (NoDup (omap f l)) by (apply IH; intros ?????; apply Hinj; by constructor).
  destruct (f x) as [b|] eqn:Hb; [|done]. constructor; [|done].
  intros (y & Hy & Hfy)%list_elem_of_omap. apply Hx.
  erewrite (Hinj x y b); try done; by constructor.
Qed.

(** [map.values()]. *)
Definition btree_values {V} (m : gmap string V) : list V :=
  omap (λ k, m !! k) (btree_keys m).

Lemma elem_of_btree_keys {V} (m : gmap string V) k : k ∈ btree_keys m ↔ is_Some (m !! k).
Proof.
  unfold btree_keys. rewrite (merge_sort_Permutation String.le), elem_of_elements.
  apply elem_of_dom.
Qed.
Lemma NoDup_btree_keys {V} (m : gmap string V) : NoDup (btree_keys m).
Proof. unfold btree_keys. rewrite (merge_sort_Permutation String.le). apply NoDup_elements. Qed.
Lemma btree_keys_nil {V} (m : gmap string V) : btree_keys m = [] ↔ m = ∅.
Proof.
  split; [|intros ->; by vm_compute].
  intros Hk. apply map_empty. intros i. apply eq_None_not_Some. intros Hi.
  apply elem_of_btree_keys in Hi. rewrite Hk in Hi. by apply not_elem_of_nil in Hi.
Qed.

Lemma btree_collect_snoc {V} (l : list (string * V)) k v :
  btree_collect (l ++ [(k, v)]) = <[k := v]> (btree_collect l).
Proof. unfold btree_collect. by rewrite foldl_app. Qed.
Lemma btree_collect_dom {V} (l : list (string * V)) :
  dom (btree_collect l) = list_to_set l.*1.
Proof.
  induction l as [|[k v] l IH] using rev_ind; [unfold btree_collect; set_solver|].
  rewrite btree_collect_snoc, dom_insert_L, IH, fmap_app, list_to_set_app_L. set_solver.
Qed.
(** The last entry of a key is the one that stays. *)
Lemma btree_collect_last {V} (l : list (string * V)) k v :
  btree_collect l !! k = Some v ↔ ∃ before after, l = before ++ (k, v) :: after ∧ k ∉ after.*1.
Proof.
  induction l as [|[k' v'] l IH] using rev_ind.
  { unfold btree_collect. simpl. rewrite lookup_empty. split; [done|]. by intros ([]&?&?&?). }
  rewrite btree_collect_snoc, lookup_insert_Some, IH. split.
  - intros [[-> ->]|(Hk & before & after & -> & Ha)]; [exists l, []; set_solver|].
    exists before, (after ++ [(k', v')]). rewrite <- app_assoc, fmap_app. set_solver.
  - intros (before & after & Heq & Ha). destruct after as [|x after _] using rev_ind.
    + apply app_inj_tail in Heq as [-> [= -> ->]]. by left.
    + rewrite app_comm_cons, app_assoc in Heq. apply app_inj_tail in Heq as [-> <-].
      rewrite fmap_app in Ha. right. split; [set_solver|]. exists before, after. set_solver.
Qed.
(** With distinct keys the order of the entries is irrelevant. *)
Lemma btree_collect_lookup {V} (l : list (string * V)) k v :
  NoDup l.*1 → btree_collect l !! k = Some v ↔ (k, v) ∈ l.
Proof.
  induction l as [|[k' v'] l IH] using rev_ind; intros Hnd.
  { split; [|intros []%not_elem_of_nil]. unfold btree_collect. simpl. by rewrite lookup_empty. }
  rewrite btree_collect_snoc. rewrite fmap_app in Hnd.
  apply NoDup_app in Hnd as (Hnd & Hne & _). rewrite elem_of_app, list_elem_of_singleton.
  destruct (decide (k' = k)) as [->|Hk].
  - rewrite lookup_insert_eq. split; [intros [= ->]; by right|].
    intros [Hin|[= ->]]; [|done]. exfalso. apply (Hne k); [|set_solver].
    apply list_elem_of_fmap. by exists (k, v).
  - rewrite lookup_insert_ne by done. rewrite IH by done. naive_solver.
Qed.
Lemma btree_collect_perm {V} (l l' : list (string * V)) :
  NoDup l.*1 → l ≡ₚ l' → btree_collect l = btree_collect l'.
Proof.
  intros Hnd Hp. apply map_eq. intros k. apply option_eq. intros v.
  rewrite !btree_collect_lookup; [by rewrite Hp| |done]. by rewrite <- Hp.
Qed.

Lemma elem_of_btree_values {V} (m : gmap string V) v :
  v ∈ btree_values m ↔ ∃ k, m !! k = Some v.
Proof.
  unfold btree_values. rewrite list_elem_of_omap. split; [naive_solver|].
  intros [k Hk]. exists k. split; [|done]. apply elem_of_btree_keys. eauto.
Qed.
