(* ===== verification/Validation.v ===== *)
(** * Input validation ([shared_types/src/validation.rs])

    Identifier whitelist shared by every component that turns a caller's
    string into a file name, a resource name or a database key.  Rust's
    [&str] is a byte string in UTF-8; [str::len] counts bytes. *)
From S2P Require Import Prelude.
From Stdlib Require Import Ascii.
Local Open Scope rust_scope.

Module Text.
Definition byte_in (lo hi : N) (c : ascii) : bool :=
  (lo <=? N_of_ascii c)%N && (N_of_ascii c <=? hi)%N.

Definition is_ascii_digit (c : ascii) : bool := byte_in 48 57 c.
Definition is_ascii_uppercase (c : ascii) : bool := byte_in 65 90 c.
Definition is_ascii_lowercase (c : ascii) : bool := byte_in 97 122 c.
Definition is_ascii_alphabetic (c : ascii) : bool :=
  is_ascii_uppercase c || is_ascii_lowercase c.
Definition is_ascii_alphanumeric (c : ascii) : bool :=
  is_ascii_alphabetic c || is_ascii_digit c.
Definition is_ascii_hexdigit (c : ascii) : bool :=
  is_ascii_digit c || byte_in 65 70 c || byte_in 97 102 c.

Fixpoint str_all (p : ascii → bool) (s : string) : bool :=
  match s with
  | EmptyString => true
  | String c s => p c && str_all p s
  end.

Fixpoint starts_with (prefix s : string) : bool :=
  match prefix, s with
  | EmptyString, _ => true
  | String a p, String b s => Ascii.eqb a b && starts_with p s
  | String _ _, EmptyString => false
  end.

Definition str_is_empty (s : string) : bool :=
  match s with EmptyString => true | String _ _ => false end.

(** The UTF-8 encodings of the code points with the Unicode property
    [White_Space], which is what [str::trim] removes. *)
Definition white1 (a : ascii) : bool := byte_in 9 13 a || byte_in 32 32 a.
Definition white2 (a b : ascii) : bool :=
  byte_in 194 194 a && (byte_in 133 133 b || byte_in 160 160 b).
Definition white3 (a b c : ascii) : bool :=
  (byte_in 225 225 a && byte_in 154 154 b && byte_in 128 128 c)
  || (byte_in 226 226 a && byte_in 128 128 b
      && (byte_in 128 138 c || byte_in 168 169 c || byte_in 175 175 c))
  || (byte_in 226 226 a && byte_in 129 129 b && byte_in 159 159 c)
  || (byte_in 227 227 a && byte_in 128 128 b && byte_in 128 128 c).

Fixpoint trim_start (s : string) : string :=
  match s with
  | EmptyString => EmptyString
  | String a r1 =>
      if white1 a then trim_start r1 else
      match r1 with
      | String b r2 =>
          if white2 a b then trim_start r2 else
          match r2 with
          | String c r3 => if white3 a b c then trim_start r3 else s
          | EmptyString => s
          end
      | EmptyString => s
      end
  end.

(** [s.trim().is_empty()]: nothing is left once the leading white space is
    gone. *)
Definition trim_is_empty (s : string) : bool := str_is_empty (trim_start s).
End Text.
Import Text.

Module Identifier.
Inductive IdentifierValidationError := Empty | TooLong | InvalidByte.

#[global] Instance IdentifierValidationError_eq_dec : EqDecision IdentifierValidationError.
Proof. solve_decision. Defined.

Definition validate_identifier_length (length : nat)
    : result unit IdentifierValidationError :=
  if Nat.eqb length 0 then Err Empty
  else if Nat.ltb 64 length then Err TooLong
  else Ok tt.

Definition identifier_byte (b : ascii) : bool :=
  is_ascii_alphanumeric b || byte_in 95 95 b || byte_in 45 45 b.

(** The loop over the bytes: the first byte off the whitelist ends it. *)
Fixpoint validate_bytes_loop (bytes : string) : result unit IdentifierValidationError :=
  match bytes with
  | EmptyString => Ok tt
  | String b rest =>
      if negb (identifier_byte b) then Err InvalidByte else validate_bytes_loop rest
  end.

Definition validate_identifier_bytes (bytes : string)
    : result unit IdentifierValidationError :=
  let? _ := validate_identifier_length (String.length bytes) in
  validate_bytes_loop bytes.

Definition validate_identifier (value field_name : string) : result unit string :=
  match validate_identifier_bytes value with
  | Ok tt => Ok tt
  | Err Empty => Err (field_name +:+ " 不能为空")
  | Err TooLong =>
      Err (field_name +:+ " 长度超过 64 字符: " +:+ pretty (String.length value))
  | Err InvalidByte =>
      Err (field_name +:+ " 包含非法字符: '" +:+ value
           +:+ "'，仅允许字母、数字、下划线和连字符")
  end.

(** What an accepted identifier is: 1 to 64 whitelisted bytes. *)
Definition is_identifier (s : string) : Prop :=
  1 ≤ String.length s ≤ 64 ∧ str_all identifier_byte s = true.

Lemma validate_bytes_loop_ok s :
  validate_bytes_loop s = Ok tt ↔ str_all identifier_byte s = true.
Proof.
  induction s as [|b s IH]; simpl; [done|].
  destruct (identifier_byte b); simpl; [done|]. by split.
Qed.

Lemma validate_identifier_ok s f : validate_identifier s f = Ok tt ↔ is_identifier s.
Proof.
  unfold validate_identifier, validate_identifier_bytes, validate_identifier_length,
    is_identifier.
  rewrite <-validate_bytes_loop_ok.
  destruct (Nat.eqb_spec (String.length s) 0); simpl; [split; [done|lia]|].
  destruct (Nat.ltb_spec 64 (String.length s)); simpl; [split; [done|lia]|].
  destruct (validate_bytes_loop s) as [[]|[]]; simpl; split; intros Hv; simplify_eq;
    solve [done | split; [lia|done] | by destruct Hv].
Qed.

(** Membership test for a byte in a string. *)
Fixpoint str_has (c : ascii) (s : string) : bool :=
  match s with EmptyString => false | String d s => Ascii.eqb c d || str_has c s end.

Lemma str_all_not_has p c s : str_all p s = true → p c = false → str_has c s = false.
Proof.
  intros Hall Hc. induction s as [|d s IH]; simpl in *; [done|].
  apply andb_true_iff in Hall as [Hd Hs]. rewrite IH by done.
  destruct (Ascii.eqb_spec c d) as [->|]; [congruence|done].
Qed.
End Identifier.
