(* ===== verification/RuntimeControl.v ===== *)
(** * Runtime-control contract ([shared_types/src/userapp/runtime_control.rs])

    The wire types between the platform and the application owner ([app-cli
    serve]): operation kinds, run profiles, requests, views, events, and the
    two functions on requests, the idempotency digest and the validator. *)
From S2P Require Import Prelude Validation.
Import Text Identifier.
Local Open Scope rust_scope.

Module Err.
(** Error codes carried by rejections and operation views. *)
Definition ERR_OPERATION_ID_CONFLICT := "ERR_OPERATION_ID_CONFLICT".
Definition ERR_RUNTIME_INSTANCE_MISMATCH := "ERR_RUNTIME_INSTANCE_MISMATCH".
Definition ERR_REVISION_MISMATCH := "ERR_REVISION_MISMATCH".
Definition ERR_WORKSPACE_MISMATCH := "ERR_WORKSPACE_MISMATCH".
Definition ERR_RECOVERY_REQUIRED := "ERR_RECOVERY_REQUIRED".
Definition ERR_INTERRUPTED_OWNER_EXIT := "ERR_INTERRUPTED_OWNER_EXIT".
Definition ERR_PROTOCOL_UNSUPPORTED := "ERR_PROTOCOL_UNSUPPORTED".
Definition ERR_OPERATION_IN_PROGRESS := "ERR_OPERATION_IN_PROGRESS".
Definition ERR_VALIDATION := "ERR_VALIDATION".
Definition ERR_BACKEND_ERROR := "ERR_BACKEND_ERROR".
Definition ERR_SUPERSEDED := "ERR_SUPERSEDED".
End Err.
Import Err.

Inductive RuntimeOperationKind := Start | Restart | Deploy | Stop.
#[global] Instance RuntimeOperationKind_eq_dec : EqDecision RuntimeOperationKind.
Proof. solve_decision. Defined.

Definition kind_as_str (k : RuntimeOperationKind) : string :=
  match k with Start => "start" | Restart => "restart" | Deploy => "deploy" | Stop => "stop" end.

Inductive ArtifactInput :=
  | ArtifactId (artifact_id : string)
  | RetainedWorkspace (release_id : string)
  | Url (url : string) (sha256 : option string).
#[global] Instance ArtifactInput_eq_dec : EqDecision ArtifactInput.
Proof. solve_decision. Defined.

Inductive RunProfileInput :=
  | Source (workspace_id : string)
  | Artifact (artifact : ArtifactInput).
#[global] Instance RunProfileInput_eq_dec : EqDecision RunProfileInput.
Proof. solve_decision. Defined.

Record StartPgCredential := { pg_username : string; pg_password : string }.
#[global] Instance StartPgCredential_eq_dec : EqDecision StartPgCredential.
Proof. solve_decision. Defined.

Record OperationRunConfig := { rc_pg : option StartPgCredential }.
#[global] Instance OperationRunConfig_eq_dec : EqDecision OperationRunConfig.
Proof. solve_decision. Defined.

Record RuntimeOperationRequest := {
  rq_operation_id : string;
  rq_expected_runtime_instance_id : string;
  rq_expected_revision : Z;
  rq_workspace_id : string;
  rq_kind : RuntimeOperationKind;
  rq_profile : RunProfileInput;
  rq_run_config : option OperationRunConfig;
  rq_request_context : option string;
}.
#[global] Instance RuntimeOperationRequest_eq_dec : EqDecision RuntimeOperationRequest.
Proof. solve_decision. Defined.

Record RuntimeIdentityView := {
  id_application_id : string;
  id_service_family : string;
  id_workspace_id : string;
  id_source_root : string;
  id_runtime_instance_id : string;
  id_deployment_generation_id : string;
  id_protocol_version : Z;
  id_capabilities : list string;
}.

Inductive DesiredState := Running | Stopped.
#[global] Instance DesiredState_eq_dec : EqDecision DesiredState.
Proof. solve_decision. Defined.

Inductive ObservedHealth := HealthUnknown | HealthReady | HealthDegraded | HealthStopped.

Inductive RuntimeOperationState :=
  | Accepted | Preparing | Stopping | Activating | Starting
  | Succeeded | Failed | Cancelled | RecoveryRequired.
#[global] Instance RuntimeOperationState_eq_dec : EqDecision RuntimeOperationState.
Proof. solve_decision. Defined.

Definition is_terminal (s : RuntimeOperationState) : bool :=
  match s with Succeeded | Failed | Cancelled => true | _ => false end.

Record RuntimeFailureDetail := {
  fd_stage : string;
  fd_exit_code : option Z;
  fd_stderr_tail : option string;
  fd_cleanup_confirmed : bool;
}.

Record RuntimeOperationView := {
  v_operation_id : string;
  v_kind : RuntimeOperationKind;
  v_state : RuntimeOperationState;
  v_request_digest : string;
  v_revision : Z;
  v_runtime_instance_id : string;
  v_error_code : option string;
  v_error_message : option string;
  v_failure_detail : option RuntimeFailureDetail;
}.

Record RuntimeStatusView := {
  st_desired : DesiredState;
  st_observed : ObservedHealth;
  st_active_target : option string;
  st_revision : Z;
  st_active_operation_id : option string;
  st_recovery_protection : bool;
  st_runtime_instance_id : string;
}.

(** Event payloads: the structured failure the terminal event carries, or
    whatever JSON text the orchestration bridge forwards. *)
Inductive EventPayload :=
  | FailurePayload (code error : string)
  | OpaquePayload (json : string).

Record RuntimeEventRecord := {
  ev_operation_id : string;
  ev_sequence : Z;
  ev_runtime_instance_id : string;
  ev_stage : string;
  ev_service : option string;
  ev_event_name : option string;
  ev_payload : option EventPayload;
}.

(** ** The idempotency digest

    [runtime_request_digest] hashes a canonical JSON object of four request
    fields and a version.  The hash (the [sha2] crate over [serde_json] text)
    is a parameter; which fields reach it is the source's. *)

Record CanonicalRequest := {
  cr_v : Z;
  cr_kind : RuntimeOperationKind;
  cr_profile : RunProfileInput;
  cr_expected_revision : Z;
  cr_workspace_id : string;
}.

Class RequestHash := sha256_hex : CanonicalRequest → string.

Definition runtime_request_digest `{RequestHash} (request : RuntimeOperationRequest) : string :=
  sha256_hex {| cr_v := 1;
                cr_kind := rq_kind request;
                cr_profile := rq_profile request;
                cr_expected_revision := rq_expected_revision request;
                cr_workspace_id := rq_workspace_id request |}.

Definition validate_runtime_operation_request (request : RuntimeOperationRequest)
    : result unit string :=
  let? _ := validate_identifier (rq_operation_id request) "operation_id" in
  let? _ := validate_identifier (rq_workspace_id request) "workspace_id" in
  let? _ := ensure (negb (trim_is_empty (rq_expected_runtime_instance_id request)))
              "expected_runtime_instance_id must not be empty" in
  let? _ := match rq_profile request with
            | Artifact (ArtifactId artifact_id) => validate_identifier artifact_id "artifact_id"
            | _ => Ok tt
            end in
  match rq_profile request with
  | Artifact (RetainedWorkspace release_id) => validate_identifier release_id "release_id"
  | _ => Ok tt
  end.

(** The pair the kernel treats as a source build. *)
Definition is_source (k : RuntimeOperationKind) (p : RunProfileInput) : bool :=
  match k, p with
  | (Start | Restart), Source _ => true
  | _, _ => false
  end.

(** ** Deployment journal receipts read at startup
    ([app-cli/src/orchestration/server/journal.rs],
    [shared_types/src/app_cli_deploy.rs]): the fields recovery inspects. *)

Inductive Boundary :=
  | BPreparing | BSwitching | BActivated | BActive | BRestoredActive | BStartupFailed | BFailed.
#[global] Instance Boundary_eq_dec : EqDecision Boundary.
Proof. solve_decision. Defined.

Inductive AppCliDeployPhase :=
  | PhaseIdle | PhaseDeploying | PhaseOrchestrating | PhaseRunning | PhaseFailed.
#[global] Instance AppCliDeployPhase_eq_dec : EqDecision AppCliDeployPhase.
Proof. solve_decision. Defined.

Inductive AppDeploymentStage := StagePending | StageSucceeded | StageFailed.
#[global] Instance AppDeploymentStage_eq_dec : EqDecision AppDeploymentStage.
Proof. solve_decision. Defined.

Record AppDeploymentRecovery := {
  adr_status : string;
  adr_error : option string;
  adr_database_migrations_reversed : bool;
}.

Record AppDeploymentOperation := {
  ado_operation_id : string;
  ado_deployment_generation_id : string;
  ado_deploy_stage : AppDeploymentStage;
  ado_persisted : bool;
  ado_request_release_id : string;
  ado_artifact_release_id : option string;
  ado_recovery : option AppDeploymentRecovery;
  ado_phase : AppCliDeployPhase;
  ado_error : option string;
}.

(** [request] is reduced to the one field recovery reads,
    [request.runtime_operation_id]. *)
Record Receipt := {
  rcpt_generation : string;
  rcpt_operation : AppDeploymentOperation;
  rcpt_runtime_operation_id : option string;
  rcpt_boundary : Boundary;
}.
