(* ===== verification/RuntimeStore.v ===== *)
(** * The owner's durable state ([app-cli/src/orchestration/runtime_kernel/store.rs])

    [RuntimeStore] keeps one JSON file per operation, one [desired.json], one
    event log per operation and one cancellation receipt per operation under a
    state root.  The file system is part of the state: files by name with
    their decoded contents (or the fact that they do not decode), and the
    answers it will give to the calls to come, so that every theorem below
    holds for every schedule of I/O failures. *)
From S2P Require Import Prelude Validation RuntimeControl.
Import Err.
Local Open Scope rust_scope.

(** ** Files and the answers of the file system *)

(** What is visible on disk after a failed write. *)
Inductive Landed := NotLanded | LandedFull | LandedTorn.

(** The outcome of one file-system call sequence.  [transient] is what
    [is_transient_windows_lock] answers for the error. *)
Inductive IoOutcome :=
  | IoOk
  | IoErr (msg : string) (transient : bool) (landed : Landed).

Record StoredOperation := {
  so_view : RuntimeOperationView;
  so_request : RuntimeOperationRequest;
}.

Definition so_id (o : StoredOperation) : string := v_operation_id (so_view o).
Definition so_state (o : StoredOperation) : RuntimeOperationState := v_state (so_view o).

Definition has_recorded_diagnostic (o : StoredOperation) : bool :=
  is_some (v_error_code (so_view o))
  || is_some (v_error_message (so_view o))
  || is_some (v_failure_detail (so_view o)).

Inductive OpFile :=
  | OpRec (o : StoredOperation)
  | OpNotJson (msg : string)
  | OpNotRecord (msg : string).

(** [desired.json].  In an object, a field that is missing or does not decode
    is [None]. *)
Inductive DesiredFile :=
  | DAbsent
  | DNotJson (msg : string)
  | DNotObject
  | DObject (desired : option DesiredState) (revision : option Z) (boot_id : option string).

Inductive EventLine :=
  | EvRec (e : RuntimeEventRecord)
  | EvTorn (msg : string).

Record CancellationReceipt := { cn_operation_id : string; cn_request_digest : string }.
Inductive CancelFile :=
  | CnRec (r : CancellationReceipt)
  | CnDamaged (msg : string).

Record Store := mkStore {
  root : string;
  operations : gmap string OpFile;
  desired_json : DesiredFile;
  events : gmap string (list EventLine);
  cancellations : gmap string CancelFile;
  quarantined_ops : list (string * OpFile);
  quarantined_desired : list DesiredFile;
  legacy_desired : option (DesiredState * Z);
  io : list IoOutcome;
  stat_faults : list bool;
}.

Definition set_operations f (s : Store) : Store :=
  mkStore (root s) (f (operations s)) (desired_json s) (events s) (cancellations s)
    (quarantined_ops s) (quarantined_desired s) (legacy_desired s) (io s) (stat_faults s).
Definition set_desired d (s : Store) : Store :=
  mkStore (root s) (operations s) d (events s) (cancellations s)
    (quarantined_ops s) (quarantined_desired s) (legacy_desired s) (io s) (stat_faults s).
Definition set_events f (s : Store) : Store :=
  mkStore (root s) (operations s) (desired_json s) (f (events s)) (cancellations s)
    (quarantined_ops s) (quarantined_desired s) (legacy_desired s) (io s) (stat_faults s).
Definition set_cancellations f (s : Store) : Store :=
  mkStore (root s) (operations s) (desired_json s) (events s) (f (cancellations s))
    (quarantined_ops s) (quarantined_desired s) (legacy_desired s) (io s) (stat_faults s).
Definition add_quarantined_op q (s : Store) : Store :=
  mkStore (root s) (operations s) (desired_json s) (events s) (cancellations s)
    (q :: quarantined_ops s) (quarantined_desired s) (legacy_desired s) (io s) (stat_faults s).
Definition add_quarantined_desired q (s : Store) : Store :=
  mkStore (root s) (operations s) (desired_json s) (events s) (cancellations s)
    (quarantined_ops s) (q :: quarantined_desired s) (legacy_desired s) (io s) (stat_faults s).
Definition set_io i (s : Store) : Store :=
  mkStore (root s) (operations s) (desired_json s) (events s) (cancellations s)
    (quarantined_ops s) (quarantined_desired s) (legacy_desired s) i (stat_faults s).
Definition set_stat i (s : Store) : Store :=
  mkStore (root s) (operations s) (desired_json s) (events s) (cancellations s)
    (quarantined_ops s) (quarantined_desired s) (legacy_desired s) (io s) i.

(** The names [std::fs::read_dir] yields: every entry once, in an order the
    operating system chooses. *)
Class DirOrder := {
  dir_entries : gmap string OpFile → list string;
  dir_entries_perm : ∀ m, dir_entries m ≡ₚ (map_to_list m).*1;
}.

(** The store's methods. *)
Definition SM (A : Type) : Type := M Store string A.

(** One call to the file system; with no answer scheduled, it succeeds. *)
Definition next_io : SM IoOutcome := λ s,
  match io s with
  | [] => (Ok IoOk, s)
  | o :: rest => (Ok o, set_io rest s)
  end.

(** A call that either succeeds or fails without effect. *)
Definition io_call (ctx : string) : SM unit :=
  let! o := next_io in
  match o with
  | IoOk => mret' tt
  | IoErr msg _ _ => mfail (ctx +:+ ": " +:+ msg)
  end.

(** [Path::is_file]: [false] also when the metadata call fails. *)
Definition is_file_visible : SM bool := λ s,
  match stat_faults s with
  | [] => (Ok true, s)
  | b :: rest => (Ok (negb b), set_stat rest s)
  end.

Definition operation_path (s : Store) (id : string) : string :=
  root s +:+ "/operations/" +:+ id +:+ ".json".
Definition events_path (s : Store) (id : string) : string :=
  root s +:+ "/events/" +:+ id +:+ ".jsonl".
Definition cancellation_path (s : Store) (id : string) : string :=
  root s +:+ "/cancellations/" +:+ id +:+ ".json".
Definition desired_path (s : Store) : string := root s +:+ "/desired.json".

(** ** Writing: bounded retries on transient locks *)

(** [write_json]: create the parent directory, then at most five attempts of
    "write a temporary file, then rename it over the target".  A failed
    attempt leaves the target as it was. *)
Fixpoint write_json_attempts (attempts : nat) (last : string) (apply : Store → Store) : SM unit :=
  match attempts with
  | O => mfail last
  | S n =>
      let! o := next_io in
      match o with
      | IoOk => mmodify apply
      | IoErr msg true _ => write_json_attempts n msg apply
      | IoErr msg false _ => mfail msg
      end
  end.

Definition write_json (apply : Store → Store) : SM unit :=
  io_call "create state parent dir" ;;;
  write_json_attempts 5 "state persist retries exhausted" apply.

(** [store_private_bytes] publishes by rename and then syncs the directories:
    a failed sync reports an error although the new contents are visible. *)
Fixpoint store_operation_attempts (attempts : nat) (last : string) (op : StoredOperation)
    : SM unit :=
  match attempts with
  | O => mfail last
  | S n =>
      let publish := set_operations (<[so_id op := OpRec op]>) in
      let! o := next_io in
      match o with
      | IoOk => mmodify publish
      | IoErr msg transient landed =>
          match landed with LandedFull => mmodify publish | _ => mret' tt end ;;;
          if transient then store_operation_attempts n msg op else mfail msg
      end
  end.

Definition store_operation (op : StoredOperation) : SM unit :=
  store_operation_attempts 5 "private operation persist retries exhausted" op.

(** ** Operation records *)

Definition load_operation (id : string) : SM (option StoredOperation) :=
  let! s := mget in
  io_call ("read state " +:+ operation_path s id) ;;;
  match operations s !! id with
  | None => mret' None
  | Some (OpRec o) => mret' (Some o)
  | Some (OpNotJson msg) => mfail ("decode state record: " +:+ msg)
  | Some (OpNotRecord msg) => mfail ("decode operation: " +:+ msg)
  end.

(** ** Desired state and revision *)

Definition load_desired : SM (DesiredState * Z) :=
  let! s := mget in
  io_call ("read state " +:+ desired_path s) ;;;
  match desired_json s with
  | DAbsent => mret' (default (Running, 0%Z) (legacy_desired s))
  | DObject (Some d) (Some r) _ => mret' (d, r)
  | DNotJson _ | DNotObject | DObject _ _ _ => mret' (Stopped, 0%Z)
  end.

(** The object [store_desired] and [consume_management_boot] update: the boot
    marker of the file that is there, or that of an empty object. *)
Definition desired_object : SM (option string) :=
  let! s := mget in
  io_call ("read state " +:+ desired_path s) ;;;
  match desired_json s with
  | DAbsent => mret' None
  | DObject _ _ boot => mret' boot
  | DNotJson msg => mfail ("decode state record: " +:+ msg)
  | DNotObject => mfail "desired state must be an object"
  end.

Definition store_desired (d : DesiredState) (revision : Z) : SM unit :=
  let! boot := desired_object in
  write_json (set_desired (DObject (Some d) (Some revision) boot)).

(** The object check of [consume_management_boot] comes after the boot-marker
    comparison and the read of the desired state; a value that is not an
    object has no marker. *)
Definition consume_management_boot (boot_id : string) : SM bool :=
  let! _ := mlift (Identifier.validate_identifier boot_id "management_boot_id") in
  let! s := mget in
  io_call ("read state " +:+ desired_path s) ;;;
  let! boot := match desired_json s with
               | DAbsent | DNotObject => mret' None
               | DObject _ _ boot => mret' boot
               | DNotJson msg => mfail ("decode state record: " +:+ msg)
               end in
  if opt_is boot boot_id then mret' false else
  let! (desired, revision) := load_desired in
  let! revision :=
    if bool_decide (desired = Running)
    then mlift (ok_or (u64_checked_succ revision) "management boot revision overflow")
    else mret' revision in
  let! _ := mlift (ensure (negb (match desired_json s with DNotObject => true | _ => false end))
                     "desired state must be an object") in
  write_json (set_desired (DObject (Some Stopped) (Some revision) (Some boot_id))) ;;;
  mret' true.

(** ** Quarantine of damaged files *)

Definition quarantine_io (path : string) : SM unit :=
  io_call "create quarantine dir" ;;; io_call ("quarantine " +:+ path).

Definition quarantine_op (name : string) : SM unit :=
  let! s := mget in
  quarantine_io (operation_path s name) ;;;
  match operations s !! name with
  | Some f => mmodify (add_quarantined_op (name, f)) ;;; mmodify (set_operations (delete name))
  | None => mfail ("quarantine " +:+ operation_path s name +:+ ": not found")
  end.

Definition repair_desired_after_quiescence : SM unit :=
  let! s := mget in
  match desired_json s with
  | DAbsent => io_call "read desired state during recovery"
  | DObject (Some _) (Some _) _ => io_call "read desired state during recovery"
  | damaged =>
      io_call "read desired state during recovery" ;;;
      quarantine_io (desired_path s) ;;;
      mmodify (add_quarantined_desired damaged) ;;;
      mmodify (set_desired DAbsent) ;;;
      store_desired Stopped 0
  end.

(** ** Cancellation receipts *)

Definition store_cancellation (op : StoredOperation) : SM unit :=
  write_json (set_cancellations
    (<[so_id op := CnRec {| cn_operation_id := so_id op;
                            cn_request_digest := v_request_digest (so_view op) |}]>)).

Definition cancellation_recorded (op : StoredOperation) : SM bool :=
  let! s := mget in
  io_call ("read state " +:+ cancellation_path s (so_id op)) ;;;
  match cancellations s !! so_id op with
  | None => mret' false
  | Some (CnDamaged msg) => mfail ("decode cancellation receipt: " +:+ msg)
  | Some (CnRec r) =>
      let! _ := mlift (ensure
        (bool_decide (cn_operation_id r = so_id op)
         && bool_decide (cn_request_digest r = v_request_digest (so_view op)))
        "cancellation receipt identity mismatch") in
      mret' true
  end.

(** ** Event logs *)

(** [append_event]: one line per event.  A failed append may still have
    written the whole line, or a torn one. *)
Definition append_event (e : RuntimeEventRecord) : SM unit :=
  let! s := mget in
  let line l := set_events (λ evs, <[ev_operation_id e := default [] (evs !! ev_operation_id e) ++ [l]]> evs) in
  let ctx := "append event " +:+ events_path s (ev_operation_id e) +:+ ": " in
  let! o := next_io in
  match o with
  | IoOk => mmodify (line (EvRec e))
  | IoErr msg _ NotLanded => mfail (ctx +:+ msg)
  | IoErr msg _ LandedFull => mmodify (line (EvRec e)) ;;; mfail (ctx +:+ msg)
  | IoErr msg _ LandedTorn => mmodify (line (EvTorn msg)) ;;; mfail (ctx +:+ msg)
  end.

(** Decode the lines in order, keeping those after [after_seq]; the first
    undecodable line fails the whole read. *)
Fixpoint decode_events (after_seq : Z) (lines : list EventLine)
    : result (list RuntimeEventRecord) string :=
  match lines with
  | [] => Ok []
  | EvTorn msg :: _ => Err ("decode event record: " +:+ msg)
  | EvRec e :: rest =>
      let? es := decode_events after_seq rest in
      Ok (if (after_seq <? ev_sequence e)%Z then e :: es else es)
  end.

(** [sort_by_key(|e| e.sequence)]: a stable sort. *)
Fixpoint insert_event (e : RuntimeEventRecord) (es : list RuntimeEventRecord)
    : list RuntimeEventRecord :=
  match es with
  | [] => [e]
  | x :: xs => if (ev_sequence e <=? ev_sequence x)%Z then e :: es else x :: insert_event e xs
  end.
Definition sort_events (es : list RuntimeEventRecord) : list RuntimeEventRecord :=
  foldr insert_event [] es.

Definition replay_events (id : string) (after_seq : Z) : SM (list RuntimeEventRecord) :=
  let! s := mget in
  match events s !! id with
  | None => mret' []
  | Some lines =>
      let! visible := is_file_visible in
      if negb visible then mret' [] else
      io_call ("read event log " +:+ events_path s id) ;;;
      let! es := mlift (decode_events after_seq lines) in
      mret' (sort_events es)
  end.

(** ** Startup scan *)

Record RecoveryScan := mkScan {
  recovered : list string;
  scan_quarantined : list string;
  blocked : list string;
}.

Definition with_state (st : RuntimeOperationState) (o : StoredOperation) : StoredOperation :=
  {| so_view := {| v_operation_id := v_operation_id (so_view o);
                   v_kind := v_kind (so_view o);
                   v_state := st;
                   v_request_digest := v_request_digest (so_view o);
                   v_revision := v_revision (so_view o);
                   v_runtime_instance_id := v_runtime_instance_id (so_view o);
                   v_error_code := v_error_code (so_view o);
                   v_error_message := v_error_message (so_view o);
                   v_failure_detail := v_failure_detail (so_view o) |};
     so_request := so_request o |}.

Definition with_error (code msg : option string) (o : StoredOperation) : StoredOperation :=
  {| so_view := {| v_operation_id := v_operation_id (so_view o);
                   v_kind := v_kind (so_view o);
                   v_state := v_state (so_view o);
                   v_request_digest := v_request_digest (so_view o);
                   v_revision := v_revision (so_view o);
                   v_runtime_instance_id := v_runtime_instance_id (so_view o);
                   v_error_code := code;
                   v_error_message := msg;
                   v_failure_detail := v_failure_detail (so_view o) |};
     so_request := so_request o |}.

Definition with_detail (d : option RuntimeFailureDetail) (o : StoredOperation) : StoredOperation :=
  {| so_view := {| v_operation_id := v_operation_id (so_view o);
                   v_kind := v_kind (so_view o);
                   v_state := v_state (so_view o);
                   v_request_digest := v_request_digest (so_view o);
                   v_revision := v_revision (so_view o);
                   v_runtime_instance_id := v_runtime_instance_id (so_view o);
                   v_error_code := v_error_code (so_view o);
                   v_error_message := v_error_message (so_view o);
                   v_failure_detail := d |};
     so_request := so_request o |}.

(** An unreadable record is moved aside; if even that fails it blocks. *)
Definition report_unreadable_record (name : string) (scan : RecoveryScan) : SM RecoveryScan :=
  let! s := mget in
  let! moved := mtry (quarantine_op name) in
  match moved with
  | Ok tt => mret' (mkScan (recovered scan) (scan_quarantined scan ++ [name]) (blocked scan))
  | Err _ => mret' (mkScan (recovered scan) (scan_quarantined scan)
                      (blocked scan ++ [operation_path s name]))
  end.

(** What the scan makes of a non-terminal record: an accepted Stop that no
    session consumed is done, everything else has an unknown result. *)
Definition recover_record (o : StoredOperation) : StoredOperation :=
  if bool_decide (v_kind (so_view o) = Stop) && bool_decide (so_state o = Accepted)
  then with_error None None (with_state Succeeded o)
  else with_state RecoveryRequired o.

Definition recover_entry (live : gset string) (name : string) (scan : RecoveryScan)
    : SM RecoveryScan :=
  let! s := mget in
  let! content := mtry (io_call ("read operation record " +:+ operation_path s name)) in
  match content, operations s !! name with
  | Err _, _ => report_unreadable_record name scan
  | Ok _, None => mret' scan
  | Ok _, Some (OpNotJson _ | OpNotRecord _) => report_unreadable_record name scan
  | Ok _, Some (OpRec o) =>
      if bool_decide (so_id o ∈ live) then mret' scan
      else if is_terminal (so_state o) then mret' scan
      else
        store_operation (recover_record o) ;;;
        mret' (mkScan (recovered scan ++ [so_id o]) (scan_quarantined scan) (blocked scan))
  end.

Fixpoint recover_entries (live : gset string) (names : list string) (scan : RecoveryScan)
    : SM RecoveryScan :=
  match names with
  | [] => mret' scan
  | name :: rest =>
      let! scan := recover_entry live name scan in
      recover_entries live rest scan
  end.

Definition recover_unfinished_operations `{DirOrder} (live : gset string) : SM RecoveryScan :=
  io_call "scan operations dir" ;;;
  let! s := mget in
  recover_entries live (dir_entries (operations s)) (mkScan [] [] []).

(** An interrupted request ends as Failed; a diagnostic it already has stays. *)
Definition interrupted_record (o : StoredOperation) : StoredOperation :=
  let o := with_state Failed o in
  if has_recorded_diagnostic o then o
  else with_detail (Some {| fd_stage := "startup_reconciled"; fd_exit_code := None;
                            fd_stderr_tail := None; fd_cleanup_confirmed := false |})
         (with_error (Some ERR_INTERRUPTED_OWNER_EXIT)
            (Some "operation result was not committed before runtime management recovery") o).

Definition settle_interrupted_operation (o : StoredOperation) : SM StoredOperation :=
  let o := interrupted_record o in
  store_operation o ;;; mret' o.
