(* ===== verification/RuntimeKernel.v ===== *)
(** * The owner's operation kernel ([app-cli/src/orchestration/runtime_kernel/kernel.rs])

    [RuntimeKernel] admits, commits, cancels and recovers runtime operations.
    Every method takes the admission mutex for its whole body, so a method is
    one atomic transition of [Kernel]: the durable store, the admission state,
    the set of cancellation tombstones and the log of actions handed to the
    execution loop.  Lock poisoning, which needs a panic inside a critical
    section, is not modelled. *)
From S2P Require Import Prelude Validation RuntimeControl RuntimeStore.
Import Err.
Local Open Scope rust_scope.

(** ** State *)

Inductive DispatchAction :=
  | DeployArtifact (operation_id url : string) (sha256 : option string)
      (pg : option StartPgCredential)
  | DeployLocalArtifact (operation_id artifact_id : string) (sha256 : option string)
      (pg : option StartPgCredential)
  | OrchestrateSource (operation_id : string) (dev_profile : bool)
      (pg : option StartPgCredential)
  | RecoverArtifact (operation_id release_id : string) (pg : option StartPgCredential)
  | StopBusiness (operation_id : string)
  | CancelSource (operation_id : string).

Record AdmissionState := mkAdmission {
  active_operation_id : option string;
  pending_stop : option string;
  pending_restart : option string;
  queued_input : option StoredOperation;
  recovery_protection : bool;
  recovered_operations : gset string;
  interrupted_stop : option string;
  consumed_operations : gset string;
  interrupted_operations : list string;
  latest_admitted_operation_id : option string;
  foreground_exiting_operation : option string;
}.

Definition admission_default : AdmissionState :=
  mkAdmission None None None None false ∅ None ∅ [] None None.

Definition set_active_operation_id (v : option string) (a : AdmissionState) : AdmissionState :=
  mkAdmission v (pending_stop a) (pending_restart a) (queued_input a) (recovery_protection a) (recovered_operations a) (interrupted_stop a) (consumed_operations a) (interrupted_operations a) (latest_admitted_operation_id a) (foreground_exiting_operation a).
Definition set_pending_stop (v : option string) (a : AdmissionState) : AdmissionState :=
  mkAdmission (active_operation_id a) v (pending_restart a) (queued_input a) (recovery_protection a) (recovered_operations a) (interrupted_stop a) (consumed_operations a) (interrupted_operations a) (latest_admitted_operation_id a) (foreground_exiting_operation a).
Definition set_pending_restart (v : option string) (a : AdmissionState) : AdmissionState :=
  mkAdmission (active_operation_id a) (pending_stop a) v (queued_input a) (recovery_protection a) (recovered_operations a) (interrupted_stop a) (consumed_operations a) (interrupted_operations a) (latest_admitted_operation_id a) (foreground_exiting_operation a).
Definition set_queued_input (v : option StoredOperation) (a : AdmissionState) : AdmissionState :=
  mkAdmission (active_operation_id a) (pending_stop a) (pending_restart a) v (recovery_protection a) (recovered_operations a) (interrupted_stop a) (consumed_operations a) (interrupted_operations a) (latest_admitted_operation_id a) (foreground_exiting_operation a).
Definition set_recovery_protection (v : bool) (a : AdmissionState) : AdmissionState :=
  mkAdmission (active_operation_id a) (pending_stop a) (pending_restart a) (queued_input a) v (recovered_operations a) (interrupted_stop a) (consumed_operations a) (interrupted_operations a) (latest_admitted_operation_id a) (foreground_exiting_operation a).
Definition set_recovered_operations (v : gset string) (a : AdmissionState) : AdmissionState :=
  mkAdmission (active_operation_id a) (pending_stop a) (pending_restart a) (queued_input a) (recovery_protection a) v (interrupted_stop a) (consumed_operations a) (interrupted_operations a) (latest_admitted_operation_id a) (foreground_exiting_operation a).
Definition set_interrupted_stop (v : option string) (a : AdmissionState) : AdmissionState :=
  mkAdmission (active_operation_id a) (pending_stop a) (pending_restart a) (queued_input a) (recovery_protection a) (recovered_operations a) v (consumed_operations a) (interrupted_operations a) (latest_admitted_operation_id a) (foreground_exiting_operation a).
Definition set_consumed_operations (v : gset string) (a : AdmissionState) : AdmissionState :=
  mkAdmission (active_operation_id a) (pending_stop a) (pending_restart a) (queued_input a) (recovery_protection a) (recovered_operations a) (interrupted_stop a) v (interrupted_operations a) (latest_admitted_operation_id a) (foreground_exiting_operation a).
Definition set_interrupted_operations (v : list string) (a : AdmissionState) : AdmissionState :=
  mkAdmission (active_operation_id a) (pending_stop a) (pending_restart a) (queued_input a) (recovery_protection a) (recovered_operations a) (interrupted_stop a) (consumed_operations a) v (latest_admitted_operation_id a) (foreground_exiting_operation a).
Definition set_latest_admitted_operation_id (v : option string) (a : AdmissionState) : AdmissionState :=
  mkAdmission (active_operation_id a) (pending_stop a) (pending_restart a) (queued_input a) (recovery_protection a) (recovered_operations a) (interrupted_stop a) (consumed_operations a) (interrupted_operations a) v (foreground_exiting_operation a).
Definition set_foreground_exiting_operation (v : option string) (a : AdmissionState) : AdmissionState :=
  mkAdmission (active_operation_id a) (pending_stop a) (pending_restart a) (queued_input a) (recovery_protection a) (recovered_operations a) (interrupted_stop a) (consumed_operations a) (interrupted_operations a) (latest_admitted_operation_id a) v.

Record Kernel := mkKernel {
  k_store : Store;
  k_identity : RuntimeIdentityView;
  k_adm : AdmissionState;
  k_cancelled : gset string;
  k_dispatched : list DispatchAction;
}.

Definition set_store st (k : Kernel) : Kernel :=
  mkKernel st (k_identity k) (k_adm k) (k_cancelled k) (k_dispatched k).
Definition set_adm f (k : Kernel) : Kernel :=
  mkKernel (k_store k) (k_identity k) (f (k_adm k)) (k_cancelled k) (k_dispatched k).
Definition set_cancelled f (k : Kernel) : Kernel :=
  mkKernel (k_store k) (k_identity k) (k_adm k) (f (k_cancelled k)) (k_dispatched k).
Definition add_dispatch a (k : Kernel) : Kernel :=
  mkKernel (k_store k) (k_identity k) (k_adm k) (k_cancelled k) (k_dispatched k ++ [a]).

(** A new owner process over the same state root: fresh admission state and
    no tombstones.  The dispatch log is the history of all owners. *)
Definition kernel_new (st : Store) (identity : RuntimeIdentityView)
    (history : list DispatchAction) : Kernel :=
  mkKernel st identity admission_default ∅ history.

(** Kernel methods that return [anyhow::Result]. *)
Definition KM (A : Type) : Type := M Kernel string A.

Definition on_store {E A} (m : M Store E A) : M Kernel E A := λ k,
  let '(r, st) := m (k_store k) in (r, set_store st k).
Definition guard {E} : M Kernel E AdmissionState := mgets k_adm.
Definition upd {E} (f : AdmissionState → AdmissionState) : M Kernel E unit := mmodify (set_adm f).
Definition dispatch {E} (a : DispatchAction) : M Kernel E unit := mmodify (add_dispatch a).

(** The rejection sent back to the caller (its human-readable message is not
    modelled). *)
Record AdmissionRejection := mkRej {
  rej_code : string;
  rej_active_operation_id : option string;
}.

Inductive AdmissionOutcome :=
  | OutReplayed (v : RuntimeOperationView)
  | OutAccepted (v : RuntimeOperationView).

Inductive CommitBarrierOutcome := Committed | BarrierCancelled | Superseded | NotActive.

(** Operation ids that hold execution rights or await hand-over. *)
Definition live_execution_ids (a : AdmissionState) : gset string :=
  let opt o := match o with Some x => {[x]} | None => ∅ end in
  opt (active_operation_id a) ∪ opt (pending_stop a) ∪ opt (pending_restart a)
  ∪ opt (interrupted_stop a) ∪ list_to_set (interrupted_operations a).

(** ** Events *)

(** [emit_with_payload]: read the operation's history, refuse once a terminal
    event is there, otherwise append the next sequence number. *)
Definition next_sequence (history : list RuntimeEventRecord) : option Z :=
  match last history with
  | None => Some 1%Z
  | Some e => u64_checked_succ (ev_sequence e)
  end.

Definition emit_with_payload {E} (id stage : string) (service event_name : option string)
    (payload : option EventPayload) : M Kernel E bool :=
  let! history := mtry (on_store (replay_events id 0)) in
  match history with
  | Err _ => mret' false
  | Ok history =>
      if existsb (λ e, bool_decide (ev_stage e = "terminal")) history then mret' false else
      match next_sequence history with
      | None => mret' false
      | Some sequence =>
          let! k := mget in
          let! r := mtry (on_store (append_event
            {| ev_operation_id := id; ev_sequence := sequence;
               ev_runtime_instance_id := id_runtime_instance_id (k_identity k);
               ev_stage := stage; ev_service := service; ev_event_name := event_name;
               ev_payload := payload |})) in
          mret' (is_ok r)
      end
  end.

Definition emit {E} (id stage : string) (service event_name : option string) : M Kernel E unit :=
  emit_with_payload id stage service event_name None ;;; mret' tt.

Definition terminal_payload (o : StoredOperation) : option EventPayload :=
  match v_error_code (so_view o) with
  | Some code => Some (FailurePayload code (default "" (v_error_message (so_view o))))
  | None => None
  end.

Definition emit_terminal_record {E} (o : StoredOperation) : M Kernel E unit :=
  let event_name := if bool_decide (so_state o = Succeeded) then "Completed" else "Failed" in
  emit_with_payload (so_id o) "terminal" None (Some event_name) (terminal_payload o) ;;; mret' tt.

Definition append_orchestration_event {E} (id stage : string) (service : option string)
    (event_name : string) (payload : option EventPayload) : M Kernel E bool :=
  let! op := mtry (on_store (load_operation id)) in
  match op with
  | Ok (Some _) => emit_with_payload id stage service (Some event_name) payload
  | Ok None | Err _ => mret' false
  end.

(** ** Terminal states *)

Definition settled (s : RuntimeOperationState) : bool :=
  is_terminal s || bool_decide (s = RecoveryRequired).

(** [write_terminal]: a terminal or recovery state is never overwritten. *)
Definition write_terminal (id : string) (state : RuntimeOperationState)
    (error : option (string * string)) (detail : option RuntimeFailureDetail)
    : KM StoredOperation :=
  let! loaded := on_store (load_operation id) in
  let! stored := mlift (ok_or loaded "finish unknown operation") in
  let! _ := mlift (ensure (settled state) "finish requires a terminal or recovery state") in
  if settled (so_state stored)
  then emit_terminal_record stored ;;; mret' stored
  else
    let stored := with_state state stored in
    let stored := match error with
                  | Some (code, message) => with_error (Some code) (Some message) stored
                  | None => stored
                  end in
    let stored := with_detail detail stored in
    on_store (store_operation stored) ;;;
    emit_terminal_record stored ;;;
    mret' stored.

(** ** Dispatch and the queued latest intent *)

Definition request_pg (o : StoredOperation) : option StartPgCredential :=
  match rq_run_config (so_request o) with Some c => rc_pg c | None => None end.

Definition dispatch_action_for (o : StoredOperation) : DispatchAction :=
  match rq_kind (so_request o), rq_profile (so_request o) with
  | Deploy, Artifact (Url url sha256) => DeployArtifact (so_id o) url sha256 (request_pg o)
  | Deploy, Artifact (ArtifactId artifact_id) =>
      DeployLocalArtifact (so_id o) artifact_id None (request_pg o)
  | Deploy, Artifact (RetainedWorkspace release_id) =>
      RecoverArtifact (so_id o) release_id (request_pg o)
  | Stop, _ => StopBusiness (so_id o)
  | (Start | Restart), Source _ => OrchestrateSource (so_id o) true (request_pg o)
  | _, _ => StopBusiness (so_id o)
  end.

Definition promotable (r : result (option StoredOperation) string) : bool :=
  match r with
  | Ok (Some op) => bool_decide (so_state op = Accepted) && bool_decide (v_kind (so_view op) ≠ Stop)
  | _ => false
  end.

Definition promote_queued : KM unit :=
  let! a := guard in
  match pending_restart a with
  | None => mret' tt
  | Some id =>
      if recovery_protection a then mret' tt else
      let! loaded := mtry (on_store (load_operation id)) in
      match promotable loaded, queued_input a with
      | true, Some input =>
          if bool_decide (so_id input = id) then
            upd (set_queued_input None) ;;;
            upd (set_pending_restart None) ;;;
            upd (set_active_operation_id (Some id)) ;;;
            emit id "dispatched" None (Some "QueuedDispatch") ;;;
            dispatch (dispatch_action_for input)
          else
            upd (set_recovery_protection true) ;;;
            mfail ("queued operation " +:+ id +:+ " lacks confirmed execution input; recovery required")
      | _, _ =>
          upd (set_recovery_protection true) ;;;
          mfail ("queued operation " +:+ id +:+ " lacks confirmed execution input; recovery required")
      end
  end.

Definition settle_queued_restart_on_terminal_failure (reason : string) : KM unit :=
  let! a := guard in
  match pending_restart a with
  | None => mret' tt
  | Some queued_id =>
      upd (set_pending_restart None) ;;;
      let! r := mtry (write_terminal queued_id Cancelled
        (Some (ERR_SUPERSEDED,
               "superseded: active operation finished without success (" +:+ reason
               +:+ "); re-admit to retry")) None) in
      match r with
      | Err error =>
          upd (set_pending_restart (Some queued_id)) ;;;
          mfail ("settle superseded queued operation: " +:+ error)
      | Ok _ => upd (set_queued_input None)
      end
  end.

(** Its [AdmissionRejection] is only read for its message, so the model fails
    with that message. *)
Definition settle_queued_restart_for_admission : KM unit :=
  let! a := guard in
  match pending_restart a with
  | None => mret' tt
  | Some queued_id =>
      let! r := mtry (write_terminal queued_id Cancelled
        (Some (ERR_SUPERSEDED, "superseded by a newer request admitted while idle")) None) in
      match r with
      | Err error => mfail ("settle superseded queued operation: " +:+ error)
      | Ok _ => upd (set_pending_restart None) ;;; upd (set_queued_input None)
      end
  end.

(** ** Recovery protection *)

(** The scan behind [refresh_recovery_protection]: is there a non-terminal
    record that nobody is responsible for?  Any failure on the way is an
    error, which the caller reads as "yes". *)
Fixpoint unresolved_scan (live : gset string) (names : list string) : SM bool :=
  match names with
  | [] => mret' false
  | name :: rest =>
      io_call "read operation record" ;;;
      let! s := mget in
      match operations s !! name with
      | None => mfail "read operation record: not found"
      | Some (OpNotJson msg | OpNotRecord msg) => mfail msg
      | Some (OpRec o) =>
          if bool_decide (so_id o ∈ live) then unresolved_scan live rest
          else if negb (is_terminal (so_state o)) then mret' true
          else unresolved_scan live rest
      end
  end.

Definition refresh_recovery_protection `{DirOrder} {E} : M Kernel E unit :=
  let! a := guard in
  let! unresolved := mtry (on_store (
    io_call "read operations dir" ;;;
    let! s := mget in
    unresolved_scan (live_execution_ids a) (dir_entries (operations s)))) in
  upd (set_recovery_protection (match unresolved with Ok b => b | Err _ => true end)).

(** One record of the startup settlement.  Only records discovered before this
    owner's execution began, and never a slot's own operation, are settled. *)
Definition settle_skips (a : AdmissionState) (o : StoredOperation) : bool :=
  is_terminal (so_state o)
  || bool_decide (so_id o ∉ recovered_operations a)
  || opt_is (active_operation_id a) (so_id o)
  || opt_is (pending_stop a) (so_id o)
  || opt_is (pending_restart a) (so_id o).

(** A Stop is idempotently done; anything else ends as Failed. *)
Definition settle_record (o : StoredOperation) (requested : bool) : KM unit :=
  if bool_decide (v_kind (so_view o) = Stop)
  then write_terminal (so_id o) Succeeded None None ;;; mret' tt
  else
    let! o' := on_store (settle_interrupted_operation o) in
    mwhen requested (mmodify (set_cancelled ({[so_id o]} ∪.))) ;;;
    emit_terminal_record o'.

Definition settle_entry (name : string) (settled_ids : list string) : KM (list string) :=
  on_store (io_call "read operation record") ;;;
  let! k := mget in
  match operations (k_store k) !! name with
  | None => mret' settled_ids
  | Some (OpNotJson msg | OpNotRecord msg) => mfail ("decode operation record: " +:+ msg)
  | Some (OpRec o) =>
      if settle_skips (k_adm k) o then mret' settled_ids else
      let! recorded := mtry (on_store (cancellation_recorded o)) in
      settle_record o (match recorded with Ok b => b | Err _ => true end) ;;;
      upd (λ a, set_recovered_operations (recovered_operations a ∖ {[so_id o]}) a) ;;;
      mret' (settled_ids ++ [so_id o])
  end.

Fixpoint settle_entries (names : list string) (settled_ids : list string) : KM (list string) :=
  match names with
  | [] => mret' settled_ids
  | name :: rest =>
      let! settled_ids := settle_entry name settled_ids in
      settle_entries rest settled_ids
  end.

Definition settle_unresolved_recoveries `{DirOrder} : KM (list string) :=
  on_store (io_call "scan operations dir") ;;;
  let! k := mget in
  let! settled_ids := settle_entries (dir_entries (operations (k_store k))) [] in
  refresh_recovery_protection ;;;
  mret' settled_ids.

(** A partially committed admission is held for recovery: the record is
    rewritten as RecoveryRequired when the disk allows it. *)
Definition hold_partial_admission (stored : StoredOperation) (reason : string)
    : M Kernel AdmissionRejection AdmissionRejection :=
  let held := with_error (Some ERR_RECOVERY_REQUIRED) (Some reason)
                (with_state RecoveryRequired stored) in
  let! r := mtry (on_store (store_operation held)) in
  match r with
  | Err _ => mret' tt
  | Ok _ => emit_terminal_record held
  end ;;;
  mret' (mkRej ERR_RECOVERY_REQUIRED (Some (so_id stored))).

(** [guard.recovery_protection = true; return Err(self.hold_partial_admission(..))]. *)
Definition reject_partial {A} (stored : StoredOperation) (reason : string)
    : M Kernel AdmissionRejection A :=
  upd (set_recovery_protection true) ;;;
  let! rej := hold_partial_admission stored reason in
  mfail rej.

(** ** Admission ([admit_with_auxiliary_hold]) *)

Section admission.
Context `{RequestHash, DirOrder}.

Definition AM (A : Type) : Type := M Kernel AdmissionRejection A.
Definition reject {A} (code : string) (active : option string) : AM A :=
  mfail (mkRej code active).
Definition backend {A} (m : KM A) : AM A := mmap_err (λ _, mkRej ERR_BACKEND_ERROR None) m.

(** The kind/profile pairs this build executes. *)
Definition supported (k : RuntimeOperationKind) (p : RunProfileInput) : bool :=
  match k, p with
  | Deploy, Artifact _ => true
  | (Start | Restart), Source _ => true
  | Stop, _ => true
  | _, _ => false
  end.

(** Checks before the lock: validation, digest, combination, instance and
    workspace identity.  None of them touches the state. *)
Definition admit_precheck (identity : RuntimeIdentityView) (request : RuntimeOperationRequest)
    : result string AdmissionRejection :=
  let? _ := map_err (λ _, mkRej ERR_VALIDATION None)
              (validate_runtime_operation_request request) in
  let digest := runtime_request_digest request in
  let? _ := ensure (supported (rq_kind request) (rq_profile request))
              (mkRej ERR_PROTOCOL_UNSUPPORTED None) in
  let? _ := ensure (bool_decide (rq_expected_runtime_instance_id request
                                 = id_runtime_instance_id identity))
              (mkRej ERR_RUNTIME_INSTANCE_MISMATCH None) in
  let? _ := ensure (bool_decide (rq_workspace_id request = id_workspace_id identity))
              (mkRej ERR_WORKSPACE_MISMATCH None) in
  Ok digest.

(** Barriers for everything but Stop, in source order: an exiting foreground
    owner, a configuration write, a native control operation, an owner
    recovery hold. *)
Definition admit_holds (request : RuntimeOperationRequest) (owner_recovery_hold : bool)
    (native_control : option (string * string)) (auxiliary : option (option string * string))
    : AM unit :=
  let! a := guard in
  if bool_decide (rq_kind request = Stop) then mret' tt else
  match foreground_exiting_operation a, auxiliary, native_control with
  | Some id, _, _ => reject ERR_OPERATION_IN_PROGRESS (Some id)
  | None, Some (id, _), _ => reject ERR_OPERATION_IN_PROGRESS id
  | None, None, Some (id, _) => reject ERR_OPERATION_IN_PROGRESS (Some id)
  | None, None, None =>
      if owner_recovery_hold then reject ERR_RECOVERY_REQUIRED None else mret' tt
  end.

(** Recovery protection rejects everything but Stop, after one more attempt
    to settle what the startup scan left. *)
Definition admit_protection (request : RuntimeOperationRequest) : AM unit :=
  let! a := guard in
  if recovery_protection a && negb (bool_decide (rq_kind request = Stop)) then
    mmap_err (λ _, mkRej ERR_RECOVERY_REQUIRED None) settle_unresolved_recoveries ;;;
    let! a := guard in
    if recovery_protection a then reject ERR_RECOVERY_REQUIRED None else mret' tt
  else mret' tt.

(** While a Stop or Restart is executing, other non-source requests are
    refused instead of queued. *)
Definition admit_busy (latest_source : bool) : AM unit :=
  let! a := guard in
  if latest_source || negb (is_some (pending_stop a) || is_some (active_operation_id a))
  then mret' tt
  else
    let! busy_control :=
      if is_some (pending_stop a) then mret' true
      else match active_operation_id a with
           | None => mret' false
           | Some id =>
               let! active := backend (on_store (load_operation id)) in
               mret' match active with
                     | Some o => (bool_decide (v_kind (so_view o) = Stop)
                                  || bool_decide (v_kind (so_view o) = Restart))
                                 && negb (is_terminal (so_state o))
                     | None => false
                     end
           end in
    if (busy_control : bool)
    then reject ERR_OPERATION_IN_PROGRESS (opt_or (active_operation_id a) (pending_stop a))
    else mret' tt.

Definition accepted_record (identity : RuntimeIdentityView) (request : RuntimeOperationRequest)
    (digest : string) (revision : Z) : StoredOperation :=
  {| so_view := {| v_operation_id := rq_operation_id request;
                   v_kind := rq_kind request;
                   v_state := Accepted;
                   v_request_digest := digest;
                   v_revision := revision;
                   v_runtime_instance_id := id_runtime_instance_id identity;
                   v_error_code := None;
                   v_error_message := None;
                   v_failure_detail := None |};
     so_request := request |}.

(** Durable acceptance: the record first, then the intent it implies. *)
Definition admit_persist (stored : StoredOperation) (revision next_revision : Z) : AM unit :=
  backend (on_store (store_operation stored)) ;;;
  let is_stop := bool_decide (rq_kind (so_request stored) = Stop) in
  let! r := mtry (on_store (if is_stop then store_desired Stopped next_revision
                            else store_desired Running revision)) in
  match r with
  | Ok _ => mret' tt
  | Err error =>
      reject_partial stored
        ((if is_stop then "persist stop intent: " else "persist running intent: ") +:+ error)
  end.

(** Stop takes the stop slot and discards the queued start. *)
Definition place_stop (stored : StoredOperation) : AM unit :=
  let! a := guard in
  match pending_restart a with
  | None => mret' tt
  | Some superseded =>
      upd (set_pending_restart None) ;;;
      let! r := mtry (write_terminal superseded Cancelled
        (Some (ERR_SUPERSEDED, "superseded by a newer stop intent before execution")) None) in
      match r with
      | Ok _ => mret' tt
      | Err error =>
          upd (set_pending_restart (Some superseded)) ;;;
          reject_partial stored ("persist superseded terminal state: " +:+ error)
      end
  end ;;;
  upd (set_queued_input None) ;;;
  upd (set_pending_stop (Some (so_id stored))).

(** The newer source build cancels the executing one. *)
Definition cancel_superseded_source (stored : StoredOperation) (active_id : string) : AM unit :=
  let! loaded := mtry (on_store (load_operation active_id)) in
  match loaded with
  | Err error => reject_partial stored ("read superseded Source: " +:+ error)
  | Ok None => mret' tt
  | Ok (Some active) =>
      if is_source (v_kind (so_view active)) (rq_profile (so_request active)) then
        let! r := mtry (on_store (store_cancellation active)) in
        mmodify (set_cancelled ({[active_id]} ∪.)) ;;;
        match r with
        | Err error =>
            reject_partial stored ("persist superseded Source cancellation: " +:+ error)
        | Ok _ => dispatch (CancelSource active_id)
        end
      else mret' tt
  end.

(** Last accepted wins: the queue has one place. *)
Definition place_queued (stored : StoredOperation) (latest_source : bool) : AM unit :=
  let! a := guard in
  upd (set_pending_restart (Some (so_id stored))) ;;;
  match pending_restart a with
  | None => mret' tt
  | Some superseded =>
      let! r := mtry (write_terminal superseded Cancelled
        (Some (ERR_SUPERSEDED, "superseded by a newer start/restart request")) None) in
      match r with
      | Ok _ => mret' tt
      | Err error =>
          upd (set_pending_restart (Some superseded)) ;;;
          reject_partial stored ("persist superseded terminal state: " +:+ error)
      end
  end ;;;
  upd (set_queued_input (Some stored)) ;;;
  let! a := guard in
  match active_operation_id a with
  | Some active_id =>
      if latest_source then cancel_superseded_source stored active_id else mret' tt
  | None => mret' tt
  end.

(** No execution: settle a leftover queue entry, then take the slot. *)
Definition place_active (stored : StoredOperation) : AM unit :=
  let! r := mtry settle_queued_restart_for_admission in
  match r with
  | Ok _ => upd (set_active_operation_id (Some (so_id stored)))
  | Err message => reject_partial stored message
  end.

Definition admit_place (stored : StoredOperation) (is_stop latest_source : bool) : AM bool :=
  let! a := guard in
  if is_stop then place_stop stored ;;; mret' false
  else if is_some (active_operation_id a) || is_some (pending_stop a)
  then place_queued stored latest_source ;;; mret' true
  else place_active stored ;;; mret' false.

(** The part of admission for a request whose id is not recorded yet. *)
Definition admit_fresh (request : RuntimeOperationRequest) (digest : string)
    (owner_recovery_hold : bool) (native_control : option (string * string))
    (auxiliary : option (option string * string)) : AM AdmissionOutcome :=
  admit_holds request owner_recovery_hold native_control auxiliary ;;;
  admit_protection request ;;;
  let! (_, revision) := backend (on_store load_desired) in
  let is_stop := bool_decide (rq_kind request = Stop) in
  let latest_source := is_source (rq_kind request) (rq_profile request) in
  let! a := guard in
  match is_stop, pending_stop a with
  | true, Some pending => reject ERR_OPERATION_IN_PROGRESS (Some pending)
  | _, _ => mret' tt
  end ;;;
  let! _ := mlift (ensure (rq_expected_revision request =? revision)%Z
                     (mkRej ERR_REVISION_MISMATCH None)) in
  let! next_revision :=
    if is_stop
    then mlift (ok_or (u64_checked_succ revision) (mkRej ERR_BACKEND_ERROR None))
    else mret' revision in
  (if is_stop then mret' tt else admit_busy latest_source) ;;;
  let! k := mget in
  let stored := accepted_record (k_identity k) request digest revision in
  admit_persist stored revision next_revision ;;;
  let! queued := admit_place stored is_stop latest_source in
  upd (set_latest_admitted_operation_id (Some (so_id stored))) ;;;
  emit (so_id stored) "accepted" None (Some (kind_as_str (v_kind (so_view stored)))) ;;;
  (if (queued : bool) then mret' tt else dispatch (dispatch_action_for stored)) ;;;
  mret' (OutAccepted (so_view stored)).

Definition admit_with_auxiliary_hold (request : RuntimeOperationRequest)
    (owner_recovery_hold : bool) (native_control : option (string * string))
    (auxiliary : option (option string * string)) : AM AdmissionOutcome :=
  let! k := mget in
  let! digest := mlift (admit_precheck (k_identity k) request) in
  let! existing := backend (on_store (load_operation (rq_operation_id request))) in
  match existing with
  | Some existing =>
      if bool_decide (v_request_digest (so_view existing) = digest)
      then mret' (OutReplayed (so_view existing))
      else reject ERR_OPERATION_ID_CONFLICT None
  | None => admit_fresh request digest owner_recovery_hold native_control auxiliary
  end.

Definition admit_request (request : RuntimeOperationRequest) : AM AdmissionOutcome :=
  admit_with_auxiliary_hold request false None None.
End admission.

(** ** Completion *)

(** Bookkeeping after a terminal write, shared by [finish] and
    [write_terminal_locked]: drop the tombstone, latch protection on an
    unknown result, free the slots the operation holds and hand the queue on. *)
Definition after_terminal (id : string) (stored : StoredOperation) : KM unit :=
  let st := so_state stored in
  mmodify (set_cancelled (.∖ {[id]})) ;;;
  mwhen (bool_decide (st = RecoveryRequired)) (upd (set_recovery_protection true)) ;;;
  let! a := guard in
  mwhen (opt_is (active_operation_id a) id) (
    upd (set_active_operation_id None) ;;;
    if is_terminal st && is_none (pending_stop a) then promote_queued
    else mwhen (bool_decide (st = RecoveryRequired))
           (settle_queued_restart_on_terminal_failure
              "active failed, cancelled or unknown outcome")) ;;;
  let! a := guard in
  mwhen (opt_is (pending_stop a) id) (
    upd (set_pending_stop None) ;;;
    if is_terminal st && is_none (active_operation_id a) then promote_queued
    else mwhen (bool_decide (st = RecoveryRequired))
           (settle_queued_restart_on_terminal_failure "stop cleanup unknown")).

Definition finish (id : string) (state : RuntimeOperationState)
    (error : option (string * string)) (detail : option RuntimeFailureDetail) : KM unit :=
  let! stored := write_terminal id state error detail in
  after_terminal id stored.

Definition write_terminal_locked (id : string) (state : RuntimeOperationState) : KM unit :=
  let! stored := write_terminal id state None None in
  after_terminal id stored.

Definition is_cancelled (k : Kernel) (id : string) : bool := bool_decide (id ∈ k_cancelled k).

(** The commit barrier of an execution. *)
Definition commit_execution (id : string) : KM CommitBarrierOutcome :=
  let! a := guard in
  if negb (opt_is (active_operation_id a) id) then mret' NotActive else
  let! k := mget in
  if is_cancelled k id then mret' BarrierCancelled else
  let! (_, current_revision) := on_store load_desired in
  let! loaded := on_store (load_operation id) in
  let! stored := mlift (ok_or loaded "commit unknown operation") in
  if negb (current_revision =? v_revision (so_view stored))%Z then mret' Superseded else
  write_terminal_locked id Succeeded ;;;
  mret' Committed.

Definition request_cancel (id : string) : KM bool :=
  let! a := guard in
  if negb (opt_is (active_operation_id a) id) then mret' false else
  let! loaded := on_store (load_operation id) in
  let! operation := mlift (ok_or loaded "active operation missing") in
  let! r := mtry (on_store (store_cancellation operation)) in
  mmodify (set_cancelled ({[id]} ∪.)) ;;;
  match r with
  | Err error =>
      upd (set_recovery_protection true) ;;;
      mfail ("persist cancellation intent: " +:+ error)
  | Ok _ =>
      mwhen (is_source (v_kind (so_view operation)) (rq_profile (so_request operation)))
        (dispatch (CancelSource id)) ;;;
      mret' true
  end.

(** ** Execution sessions *)

Definition mark_execution_consumed (id : string) : KM bool :=
  let! k := mget in
  let a := k_adm k in
  if negb (opt_is (active_operation_id a) id) && negb (opt_is (pending_stop a) id)
  then mret' false else
  let! loaded := on_store (load_operation id) in
  let! stored := mlift (ok_or loaded "consumed operation record is missing") in
  if settled (so_state stored) then mret' false else
  let! _ := mlift (ensure
    (bool_decide (so_id stored = id)
     && bool_decide (rq_operation_id (so_request stored) = id)
     && bool_decide (v_runtime_instance_id (so_view stored)
                     = id_runtime_instance_id (k_identity k))
     && bool_decide (rq_workspace_id (so_request stored) = id_workspace_id (k_identity k)))
    "consumed operation identity changed") in
  upd (λ a, set_consumed_operations ({[id]} ∪ consumed_operations a) a) ;;;
  mret' true.

(** One consumed operation when its driver ends. *)
Definition interrupt_operation (a : AdmissionState) (id : string) : AdmissionState :=
  let a := if opt_is (active_operation_id a) id then set_active_operation_id None a else a in
  let a := if opt_is (pending_stop a) id
           then set_interrupted_stop (Some id) (set_pending_stop None a) else a in
  if bool_decide (id ∈ interrupted_operations a) then a
  else set_interrupted_operations (interrupted_operations a ++ [id]) a.

Definition note_execution_session_ended (reached_driver : bool) : KM unit :=
  let! a := guard in
  if negb reached_driver && bool_decide (consumed_operations a = ∅) then mret' tt else
  upd (λ a, foldl interrupt_operation (set_consumed_operations ∅ a)
              (elements (consumed_operations a))).

Definition prepare_relaunch_entry (stop : option string) (id : string)
    (acc : list string * option string) : KM (list string * option string) :=
  let '(unsettled, first_error) := acc in
  let is_pending_stop := opt_is stop id in
  let! persisted := mtry (on_store (load_operation id)) in
  match persisted with
  | Err error => mret' (unsettled ++ [id], opt_or first_error (Some error))
  | Ok None => mret' acc
  | Ok (Some operation) =>
      if is_terminal (so_state operation) then mret' acc else
      let! r := mtry (
        if is_pending_stop then write_terminal id Succeeded None None
        else write_terminal id RecoveryRequired
               (Some (ERR_RECOVERY_REQUIRED,
                      "business session ended before the operation completed")) None) in
      match r with
      | Ok _ => mret' acc
      | Err error => mret' (unsettled ++ [id], opt_or first_error (Some error))
      end
  end.

Fixpoint prepare_relaunch_entries (stop : option string) (ids : list string)
    (acc : list string * option string) : KM (list string * option string) :=
  match ids with
  | [] => mret' acc
  | id :: rest =>
      let! acc := prepare_relaunch_entry stop id acc in
      prepare_relaunch_entries stop rest acc
  end.

Definition prepare_relaunch `{DirOrder} : KM unit :=
  let! a := guard in
  let stop := interrupted_stop a in
  let stale := match stop with
               | Some id => if bool_decide (id ∈ interrupted_operations a)
                            then interrupted_operations a else interrupted_operations a ++ [id]
               | None => interrupted_operations a
               end in
  upd (set_interrupted_stop None) ;;;
  upd (set_interrupted_operations []) ;;;
  match stale with
  | [] => mret' tt
  | _ =>
      let! (unsettled, first_error) := prepare_relaunch_entries stop stale ([], None) in
      match unsettled with
      | [] => refresh_recovery_protection
      | _ =>
          upd (set_interrupted_operations unsettled) ;;;
          match stop with
          | Some id => mwhen (bool_decide (id ∈ unsettled)) (upd (set_interrupted_stop (Some id)))
          | None => mret' tt
          end ;;;
          upd (set_recovery_protection true) ;;;
          mfail ("settle interrupted session operations: "
                 +:+ default "operations remain unsettled" first_error)
      end
  end.

Definition slots_idle (a : AdmissionState) : bool :=
  is_none (active_operation_id a) && is_none (pending_stop a) && is_none (pending_restart a).

Definition ensure_stopped_if_idle : KM bool :=
  let! a := guard in
  if negb (slots_idle a)
     || is_some (queued_input a)
     || negb (bool_decide (consumed_operations a = ∅))
     || negb (bool_decide (interrupted_operations a = []))
     || is_some (interrupted_stop a)
  then mret' false else
  let! (desired, revision) := on_store load_desired in
  if bool_decide (desired = Stopped) then mret' false else
  let! next_revision := mlift (ok_or (u64_checked_succ revision) "revision overflow") in
  on_store (store_desired Stopped next_revision) ;;;
  mret' true.

Definition dispatch_pending_after_quiescence : KM bool :=
  let! a := guard in
  if is_some (active_operation_id a)
     || is_some (pending_stop a)
     || is_some (interrupted_stop a)
     || negb (bool_decide (interrupted_operations a = []))
     || recovery_protection a
     || is_none (pending_restart a)
  then mret' false else
  promote_queued ;;; mret' true.

Definition has_live_admission (a : AdmissionState) : bool :=
  is_some (active_operation_id a) || is_some (pending_restart a).

Definition has_configuration_barrier (a : AdmissionState) : bool :=
  is_some (active_operation_id a) || is_some (pending_restart a) || is_some (pending_stop a)
  || is_some (interrupted_stop a) || is_some (queued_input a)
  || is_some (foreground_exiting_operation a).

(** ** Startup recovery *)

(** Was a cancellation of this recovered operation recorded?  When that cannot
    be read, the operation counts as cancelled and protection stays up. *)
Definition recover_cancellation (id : string) : KM unit :=
  let! recorded := mtry (
    let! loaded := on_store (load_operation id) in
    let! operation := mlift (ok_or loaded "recovered operation disappeared") in
    on_store (cancellation_recorded operation)) in
  let! requested :=
    match recorded with
    | Ok b => mret' b
    | Err _ => upd (set_recovery_protection true) ;;; mret' true
    end in
  mwhen requested (mmodify (set_cancelled ({[id]} ∪.))).

Definition recover `{DirOrder} : KM (list string) :=
  let! a := guard in
  on_store repair_desired_after_quiescence ;;;
  let! scan := on_store (recover_unfinished_operations (live_execution_ids a)) in
  upd (λ a, set_recovered_operations (recovered_operations a ∪ list_to_set (recovered scan)) a) ;;;
  upd (λ a, set_recovery_protection
              (negb (bool_decide (recovered scan = [])) || negb (bool_decide (blocked scan = []))
               || negb (bool_decide (interrupted_operations a = []))
               || is_some (interrupted_stop a)) a) ;;;
  mforeach (recovered scan) recover_cancellation ;;;
  mret' (recovered scan).

Definition preparation_only (r : Receipt) : bool :=
  bool_decide (rcpt_boundary r = BPreparing)
  && (bool_decide (ado_phase (rcpt_operation r) = PhaseDeploying)
      || bool_decide (ado_phase (rcpt_operation r) = PhaseFailed))
  && (bool_decide (ado_deploy_stage (rcpt_operation r) = StagePending)
      || bool_decide (ado_deploy_stage (rcpt_operation r) = StageFailed)).

Definition confirmed_boundary (r : Receipt) : bool :=
  ((bool_decide (rcpt_boundary r = BStartupFailed)
    && bool_decide (ado_phase (rcpt_operation r) = PhaseFailed))
   || (bool_decide (rcpt_boundary r = BActive)
       && bool_decide (ado_phase (rcpt_operation r) = PhaseRunning)))
  && ado_persisted (rcpt_operation r)
  && bool_decide (ado_deploy_stage (rcpt_operation r) = StageSucceeded).

(** The record a reconciled operation is stored as. *)
Definition reconciled_record (r : Receipt) (cancelled : bool) (o : StoredOperation)
    : StoredOperation :=
  let o := with_state (if cancelled then Cancelled else Failed) o in
  if has_recorded_diagnostic o then o else
  let code := if cancelled then "ERR_CANCELLED"
              else if bool_decide (rcpt_boundary r = BActive) || preparation_only r
              then "ERR_OPERATION_INTERRUPTED" else "ERR_STARTUP_FAILED" in
  let message :=
    if preparation_only r
    then opt_or (ado_error (rcpt_operation r))
           (Some "Previous owner stopped during preparation before directory activation")
    else if bool_decide (rcpt_boundary r = BActive)
    then Some "Previous owner was stopped before the operation terminal result was committed"
    else ado_error (rcpt_operation r) in
  with_detail (Some {| fd_stage := "startup_reconciled"; fd_exit_code := None;
                       fd_stderr_tail := None; fd_cleanup_confirmed := true |})
    (with_error (Some code) message o).

Definition reconcile_quiesced_operation `{RequestHash, DirOrder} (r : Receipt) : KM bool :=
  let! k := mget in
  if negb (preparation_only r || confirmed_boundary r)
     || negb (bool_decide (rcpt_generation r = id_deployment_generation_id (k_identity k)))
     || is_some (ado_recovery (rcpt_operation r))
  then mret' false else
  match rcpt_runtime_operation_id r with
  | None => mret' false
  | Some id =>
      let! _ := mlift (ensure (bool_decide (id = ado_operation_id (rcpt_operation r)))
                         "startup failure journal operation mismatch") in
      let! a := guard in
      let! _ := mlift (ensure (slots_idle a) "runtime execution is active during recovery") in
      let! loaded := on_store (load_operation id) in
      match loaded with
      | None => mret' false
      | Some operation =>
          if negb (bool_decide (so_state operation = RecoveryRequired)) then mret' false else
          let! _ := mlift (ensure
            (bool_decide (v_kind (so_view operation) ≠ Stop)
             && bool_decide (rq_workspace_id (so_request operation)
                             = id_workspace_id (k_identity k))
             && bool_decide (rq_operation_id (so_request operation) = id)
             && bool_decide (v_request_digest (so_view operation)
                             = runtime_request_digest (so_request operation)))
            "startup failure runtime identity mismatch") in
          let! cancelled := on_store (cancellation_recorded operation) in
          let operation := reconciled_record r cancelled operation in
          on_store (store_operation operation) ;;;
          emit_terminal_record operation ;;;
          refresh_recovery_protection ;;;
          mret' true
      end
  end.

(** The scan of [reconcile_quiesced_stop] for the one Stop whose intent the
    current revision carries. *)
Fixpoint find_quiesced_stop `{RequestHash} (identity : RuntimeIdentityView) (revision : Z)
    (names : list string) (candidate : option StoredOperation) : SM (option StoredOperation) :=
  match names with
  | [] => mret' candidate
  | name :: rest =>
      io_call "read operation record" ;;;
      let! s := mget in
      match operations s !! name with
      | None => mfail "read operation record: not found"
      | Some (OpNotJson msg | OpNotRecord msg) => mfail msg
      | Some (OpRec o) =>
          if negb (bool_decide (so_state o = RecoveryRequired))
             || negb (bool_decide (v_kind (so_view o) = Stop))
             || negb (v_revision (so_view o) =? revision)%Z
          then find_quiesced_stop identity revision rest candidate
          else
            let! _ := mlift (ensure
              (bool_decide (rq_kind (so_request o) = Stop)
               && bool_decide (rq_workspace_id (so_request o) = id_workspace_id identity)
               && bool_decide (so_id o = rq_operation_id (so_request o))
               && bool_decide (u64_checked_succ (rq_expected_revision (so_request o))
                               = Some revision)
               && bool_decide (v_request_digest (so_view o)
                               = runtime_request_digest (so_request o)))
              "persisted stop identity mismatch") in
            let! _ := mlift (ensure (is_none candidate)
                               "multiple operations claim the same stop revision") in
            find_quiesced_stop identity revision rest (Some o)
      end
  end.

Definition reconcile_quiesced_stop `{RequestHash, DirOrder} : KM bool :=
  let! k := mget in
  let! _ := mlift (ensure (slots_idle (k_adm k)) "runtime execution is active during stop recovery") in
  let! (desired, revision) := on_store load_desired in
  if negb (bool_decide (desired = Stopped)) then mret' false else
  on_store (io_call "read operations dir") ;;;
  let! candidate := on_store (
    let! s := mget in
    find_quiesced_stop (k_identity k) revision (dir_entries (operations s)) None) in
  match candidate with
  | None => mret' false
  | Some o =>
      let o := with_detail None (with_error None None (with_state Succeeded o)) in
      on_store (store_operation o) ;;;
      emit_terminal_record o ;;;
      refresh_recovery_protection ;;;
      mret' true
  end.

Fixpoint outstanding_stops (names : list string) : SM (list string) :=
  match names with
  | [] => mret' []
  | name :: rest =>
      io_call "read operation record" ;;;
      let! s := mget in
      match operations s !! name with
      | None => outstanding_stops rest
      | Some (OpNotJson msg | OpNotRecord msg) => mfail ("decode operation record: " +:+ msg)
      | Some (OpRec o) =>
          let! ids := outstanding_stops rest in
          mret' (if bool_decide (v_kind (so_view o) = Stop) && negb (is_terminal (so_state o))
                 then so_id o :: ids else ids)
      end
  end.

Definition outstanding_stop_operations `{DirOrder} : KM (list string) :=
  on_store (io_call "scan operations dir" ;;;
            let! s := mget in outstanding_stops (dir_entries (operations s))).

(** ** Foreground exit and queries *)

(** The caller's [cancel] callback runs exactly when this returns [Some]. *)
Definition begin_foreground_failure_exit `{RequestHash} (id : string) : KM (option string) :=
  let! k := mget in
  let identity := k_identity k in
  let! loaded := on_store (load_operation id) in
  let! stored := mlift (ok_or loaded "foreground operation record missing") in
  let view := so_view stored in
  let request := so_request stored in
  let! _ := mlift (ensure
    (bool_decide (so_id stored = id)
     && bool_decide (rq_operation_id request = id)
     && bool_decide (v_runtime_instance_id view = id_runtime_instance_id identity)
     && bool_decide (rq_expected_runtime_instance_id request = id_runtime_instance_id identity)
     && bool_decide (rq_workspace_id request = id_workspace_id identity)
     && bool_decide (v_request_digest view = runtime_request_digest request))
    "foreground operation identity changed") in
  if negb (bool_decide (v_state view = Failed) || bool_decide (v_state view = RecoveryRequired))
  then mret' None else
  let! (_, revision) := on_store load_desired in
  let! a := guard in
  let other o := match o with Some x => negb (bool_decide (x = id)) | None => false end in
  let other_request := other (active_operation_id a) || other (pending_restart a)
                       || other (pending_stop a) || other (so_id <$> queued_input a) in
  if negb (rq_expected_revision request =? revision)%Z
     || negb (v_revision view =? revision)%Z
     || negb (opt_is (latest_admitted_operation_id a) id)
     || other_request
  then mret' None else
  upd (set_foreground_exiting_operation (Some id)) ;;;
  mret' (Some ("foreground operation " +:+ id +:+ " failed: "
               +:+ default "runtime operation did not complete" (v_error_message view))).

Definition status : KM RuntimeStatusView :=
  let! (desired, revision) := on_store load_desired in
  let! k := mget in
  mret' {| st_desired := desired; st_observed := HealthUnknown; st_active_target := None;
           st_revision := revision; st_active_operation_id := active_operation_id (k_adm k);
           st_recovery_protection := recovery_protection (k_adm k);
           st_runtime_instance_id := id_runtime_instance_id (k_identity k) |}.

Definition get (id : string) : KM (option RuntimeOperationView) :=
  let! loaded := on_store (load_operation id) in
  mret' (so_view <$> loaded).

Definition is_source_operation (id : string) : KM bool :=
  let! k := mget in
  let! loaded := on_store (load_operation id) in
  match loaded with
  | None => mret' false
  | Some o =>
      let! _ := mlift (ensure
        (bool_decide (v_runtime_instance_id (so_view o) = id_runtime_instance_id (k_identity k))
         && bool_decide (rq_expected_runtime_instance_id (so_request o)
                         = id_runtime_instance_id (k_identity k)))
        "Source cancellation belongs to another runtime instance") in
      mret' (is_source (v_kind (so_view o)) (rq_profile (so_request o)))
  end.
