(* ===== verification/KernelFrame.v ===== *)
(** * What the kernel never does to a record

    Runs of the kernel as sequences of its methods, and the frame property of
    every run: a stored record keeps its identity for ever, its state only
    moves towards an end, and a terminal record is never written again (at
    worst the startup scan moves it aside, intact). *)
From S2P Require Import Prelude Validation RuntimeControl RuntimeStore RuntimeKernel.
Import Err.
Local Open Scope rust_scope.

(** ** Runs *)

Section runs.
Context `{RequestHash, DirOrder}.

(** Everything that can happen to an owner: its methods, in the order the
    admission mutex serialises them, and its replacement by a new process
    over the same state root. *)
Inductive KOp :=
  | DoAdmit (request : RuntimeOperationRequest) (owner_recovery_hold : bool)
      (native_control : option (string * string)) (auxiliary : option (option string * string))
  | DoFinish (id : string) (state : RuntimeOperationState)
      (error : option (string * string)) (detail : option RuntimeFailureDetail)
  | DoCommit (id : string)
  | DoCancel (id : string)
  | DoMarkConsumed (id : string)
  | DoSessionEnded (reached_driver : bool)
  | DoPrepareRelaunch
  | DoEnsureStopped
  | DoDispatchPending
  | DoRecover
  | DoSettle
  | DoReconcile (receipt : Receipt)
  | DoReconcileStop
  | DoForegroundExit (id : string)
  | DoEvent (id stage : string) (service : option string) (name : string)
      (payload : option EventPayload)
  | DoManagementBoot (boot_id : string)
  | DoRestart (identity : RuntimeIdentityView).

Definition run_op (op : KOp) (k : Kernel) : Kernel :=
  match op with
  | DoAdmit r h n a => (admit_with_auxiliary_hold r h n a k).2
  | DoFinish id st e d => (finish id st e d k).2
  | DoCommit id => (commit_execution id k).2
  | DoCancel id => (request_cancel id k).2
  | DoMarkConsumed id => (mark_execution_consumed id k).2
  | DoSessionEnded b => (note_execution_session_ended b k).2
  | DoPrepareRelaunch => (prepare_relaunch k).2
  | DoEnsureStopped => (ensure_stopped_if_idle k).2
  | DoDispatchPending => (dispatch_pending_after_quiescence k).2
  | DoRecover => (recover k).2
  | DoSettle => (settle_unresolved_recoveries k).2
  | DoReconcile r => (reconcile_quiesced_operation r k).2
  | DoReconcileStop => (reconcile_quiesced_stop k).2
  | DoForegroundExit id => (begin_foreground_failure_exit id k).2
  | DoEvent id st sv n p => (append_orchestration_event (E := string) id st sv n p k).2
  | DoManagementBoot b => (on_store (consume_management_boot b) k).2
  | DoRestart identity => kernel_new (k_store k) identity (k_dispatched k)
  end.

Definition run (ops : list KOp) (k : Kernel) : Kernel := foldl (λ k op, run_op op k) k ops.

Lemma run_preorder (R : Kernel → Kernel → Prop) `{!PreOrder R} :
  (∀ op k, R k (run_op op k)) → ∀ ops k, R k (run ops k).
Proof.
  intros Hop ops. induction ops as [|op ops IH]; intros k; simpl; [reflexivity|].
  etrans; [apply Hop|apply IH].
Qed.

Lemma run_app ops ops' k : run (ops ++ ops') k = run ops' (run ops k).
Proof. apply foldl_app. Qed.

(** One method's effect on the state, from what it preserves. *)
Lemma preserves_run {E A} (R : Kernel → Kernel → Prop) (m : M Kernel E A) k :
  preserves R m → R k (m k).2.
Proof. intros Hm. specialize (Hm k). unfold wp in Hm. by destruct (m k) as [[] ?]. Qed.
End runs.

(** ** Lifting a store relation to the kernel *)

Definition lift_rel (R : Store → Store → Prop) (k k' : Kernel) : Prop :=
  R (k_store k) (k_store k').

#[export] Instance lift_rel_preorder R `{!PreOrder R} : PreOrder (lift_rel R).
Proof.
  split; unfold lift_rel.
  - intros k. reflexivity.
  - intros k1 k2 k3 ??. by etrans.
Qed.

Lemma wp_on_store {E A} (m : M Store E A) k Q X :
  wp (on_store m) k Q X ↔
  wp m (k_store k) (λ a st, Q a (set_store st k)) (λ e st, X e (set_store st k)).
Proof. unfold wp, on_store. by destruct (m (k_store k)) as [[] st]. Qed.

Lemma preserves_on_store {E A} R (m : M Store E A) :
  preserves R m → preserves (lift_rel R) (on_store m).
Proof. intros Hm k. apply wp_on_store. exact (Hm (k_store k)). Qed.

Lemma wp_guard {E} k Q (X : E → Kernel → Prop) : wp guard k Q X ↔ Q (k_adm k) k.
Proof. done. Qed.
Lemma wp_upd {E} f k Q (X : E → Kernel → Prop) : wp (upd f) k Q X ↔ Q tt (set_adm f k).
Proof. done. Qed.
Lemma wp_dispatch {E} a k Q (X : E → Kernel → Prop) :
  wp (dispatch a) k Q X ↔ Q tt (add_dispatch a k).
Proof. done. Qed.

Ltac wp_hook ::=
  lazymatch goal with
  | |- wp guard _ _ _ => apply wp_guard
  | |- wp (upd _) _ _ _ => apply wp_upd
  | |- wp (dispatch _) _ _ _ => apply wp_dispatch
  | |- wp (on_store _) _ _ _ => apply wp_on_store
  end.

(** Updates that leave the store alone. *)
Lemma preserves_upd {E} R `{!PreOrder R} f : preserves (E := E) (lift_rel R) (upd f).
Proof. apply preserves_modify; [apply _|]. intros k. unfold lift_rel. reflexivity. Qed.
Lemma preserves_dispatch {E} R `{!PreOrder R} a : preserves (E := E) (lift_rel R) (dispatch a).
Proof. apply preserves_modify; [apply _|]. intros k. unfold lift_rel. reflexivity. Qed.
Lemma preserves_cancelled {E} R `{!PreOrder R} f :
  preserves (E := E) (lift_rel R) (mmodify (set_cancelled f)).
Proof. apply preserves_modify; [apply _|]. intros k. unfold lift_rel. reflexivity. Qed.
Lemma preserves_guard {E} R `{!PreOrder R} : preserves (E := E) (lift_rel R) guard.
Proof. apply preserves_gets, _. Qed.

(** Break a monadic body into its calls, branch by branch. *)
Ltac preserve_step :=
  lazymatch goal with
  | |- ∀ _, _ => intro
  | |- preserves _ (mbind' _ _) => apply preserves_bind; [apply _| |intro]
  | |- preserves _ (mret' _) => apply preserves_ret; apply _
  | |- preserves _ (mfail _) => apply preserves_fail; apply _
  | |- preserves _ mget => apply preserves_get; apply _
  | |- preserves _ (mgets _) => apply preserves_gets; apply _
  | |- preserves _ (mlift _) => apply preserves_lift; apply _
  | |- preserves _ (mtry _) => apply preserves_try; [apply _|]
  | |- preserves _ (mmap_err _ _) => apply preserves_map_err; [apply _|]
  | |- preserves _ (mwhen _ _) => apply preserves_when; [apply _|]
  | |- preserves _ (mforeach _ _) => apply preserves_foreach; [apply _|intro]
  | |- preserves _ (let '_ := _ in _) => case_match
  | |- preserves _ (match _ with _ => _ end) => case_match
  | |- preserves _ (if _ then _ else _) => case_match
  | |- preserves (lift_rel _) (on_store _) => apply preserves_on_store
  | |- preserves (lift_rel _) guard => apply preserves_guard; apply _
  | |- preserves (lift_rel _) (upd _) => apply preserves_upd; apply _
  | |- preserves (lift_rel _) (dispatch _) => apply preserves_dispatch; apply _
  | |- preserves (lift_rel _) (mmodify (set_cancelled _)) => apply preserves_cancelled; apply _
  | |- _ => solve [eauto 3 with frame]
  end.
Ltac preserve := repeat preserve_step.

(** ** How a record may change *)

Definition rank (s : RuntimeOperationState) : nat :=
  match s with
  | Accepted | Preparing | Stopping | Activating | Starting => 0
  | RecoveryRequired => 1
  | Succeeded | Failed | Cancelled => 2
  end.

(** Identity is for ever, progress is one-way, and an end is the end. *)
Record evolves (o o' : StoredOperation) : Prop := {
  ev_request : so_request o' = so_request o;
  ev_id : so_id o' = so_id o;
  ev_kind : v_kind (so_view o') = v_kind (so_view o);
  ev_digest : v_request_digest (so_view o') = v_request_digest (so_view o);
  ev_revision : v_revision (so_view o') = v_revision (so_view o);
  ev_instance : v_runtime_instance_id (so_view o') = v_runtime_instance_id (so_view o);
  ev_rank : rank (so_state o) ≤ rank (so_state o');
  ev_terminal : is_terminal (so_state o) = true → o' = o;
}.

#[export] Instance evolves_preorder : PreOrder evolves.
Proof.
  split.
  - intros o. by split.
  - intros o1 o2 o3 [] []. split; try congruence; [lia|].
    intros Ht. assert (o2 = o1) as -> by auto. auto.
Qed.

(** File names are operation ids. *)
Definition wf_names (s : Store) : Prop :=
  ∀ name o, operations s !! name = Some (OpRec o) → so_id o = name.

(** Where the record [o] of [id] is now. *)
Definition kept (s : Store) (id : string) (o : StoredOperation) : Prop :=
  ∃ o', evolves o o' ∧
    (operations s !! id = Some (OpRec o') ∨ (id, OpRec o') ∈ quarantined_ops s).

(** [store_le x]: no record but that of [x] is lost or rewritten. *)
Record store_le (x : option string) (s s' : Store) : Prop := {
  le_names : wf_names s → wf_names s';
  le_quarantine : quarantined_ops s ⊆ quarantined_ops s';
  le_kept : wf_names s → ∀ id o, Some id ≠ x →
    operations s !! id = Some (OpRec o) → kept s' id o;
}.

#[export] Instance store_le_preorder x : PreOrder (store_le x).
Proof.
  split.
  - intros s. split; [done|done|]. intros _ id o _ Hid. exists o. split; [reflexivity|by left].
  - intros s1 s2 s3 [N1 Q1 K1] [N2 Q2 K2]. split; [auto|set_solver|].
    intros W id o Hx Hid. destruct (K1 W id o Hx Hid) as (o' & E1 & [H2|Hq]).
    + destruct (K2 (N1 W) id o' Hx H2) as (o'' & E2 & H3).
      exists o''. split; [by etrans|done].
    + exists o'. split; [done|]. right. by apply Q2.
Qed.

(** Nothing below touches the operation files at all. *)
Definition same_ops (s s' : Store) : Prop :=
  operations s' = operations s ∧ quarantined_ops s' = quarantined_ops s.

#[export] Instance same_ops_preorder : PreOrder same_ops.
Proof. split; [by intros s|]. intros s1 s2 s3 [] []. split; congruence. Qed.

Lemma same_ops_le x s s' : same_ops s s' → store_le x s s'.
Proof.
  intros [Ho Hq]. split; unfold wf_names; rewrite ?Ho, ?Hq; [done|done|].
  intros _ id o _ Hid. exists o. split; [reflexivity|]. left. congruence.
Qed.

Lemma preserves_same {E A} (m : M Store E A) x :
  preserves same_ops m → preserves (store_le x) m.
Proof.
  intros Hm s. eapply wp_mono; [apply Hm| |]; intros; by apply same_ops_le.
Qed.

Lemma next_io_same : preserves same_ops next_io.
Proof. intros s. unfold wp, next_io. by destruct (io s). Qed.
Lemma is_file_visible_same : preserves same_ops is_file_visible.
Proof. intros s. unfold wp, is_file_visible. by destruct (stat_faults s). Qed.
#[export] Hint Resolve next_io_same is_file_visible_same : frame.

Lemma io_call_same ctx : preserves same_ops (io_call ctx).
Proof. unfold io_call. preserve. Qed.
#[export] Hint Resolve io_call_same : frame.

Lemma modify_same (f : Store → Store) :
  (∀ s, same_ops s (f s)) → preserves (E := string) same_ops (mmodify f).
Proof. intros Hf. apply preserves_modify; [apply _|done]. Qed.

Lemma write_json_attempts_same n last f :
  (∀ s, same_ops s (f s)) → preserves same_ops (write_json_attempts n last f).
Proof.
  intros Hf. revert last. induction n as [|n IH]; intros last; simpl; preserve;
    try solve [done | by apply modify_same].
Qed.
Lemma write_json_same f : (∀ s, same_ops s (f s)) → preserves same_ops (write_json f).
Proof. intros Hf. unfold write_json. preserve; by apply write_json_attempts_same. Qed.

Lemma load_operation_same id : preserves same_ops (load_operation id).
Proof. unfold load_operation. preserve. Qed.
Lemma load_desired_same : preserves same_ops load_desired.
Proof. unfold load_desired. preserve. Qed.
Lemma desired_object_same : preserves same_ops desired_object.
Proof. unfold desired_object. preserve. Qed.
#[export] Hint Resolve load_operation_same load_desired_same desired_object_same : frame.

Lemma store_desired_same d r : preserves same_ops (store_desired d r).
Proof. unfold store_desired. preserve; by apply write_json_same. Qed.
Lemma consume_management_boot_same b : preserves same_ops (consume_management_boot b).
Proof. unfold consume_management_boot. preserve; by apply write_json_same. Qed.
Lemma quarantine_io_same p : preserves same_ops (quarantine_io p).
Proof. unfold quarantine_io. preserve. Qed.
Lemma store_cancellation_same o : preserves same_ops (store_cancellation o).
Proof. unfold store_cancellation. by apply write_json_same. Qed.
Lemma cancellation_recorded_same o : preserves same_ops (cancellation_recorded o).
Proof. unfold cancellation_recorded. preserve. Qed.
#[export] Hint Resolve store_desired_same consume_management_boot_same quarantine_io_same
  store_cancellation_same cancellation_recorded_same : frame.

Lemma repair_desired_same : preserves same_ops repair_desired_after_quiescence.
Proof. unfold repair_desired_after_quiescence. preserve; by apply modify_same. Qed.
Lemma append_event_same e : preserves same_ops (append_event e).
Proof. unfold append_event. preserve; by apply modify_same. Qed.
Lemma replay_events_same id n : preserves same_ops (replay_events id n).
Proof. unfold replay_events. preserve. Qed.
Lemma unresolved_scan_same live names : preserves same_ops (unresolved_scan live names).
Proof. induction names; simpl; preserve; done. Qed.
Lemma find_quiesced_stop_same `{RequestHash} ident r names c :
  preserves same_ops (find_quiesced_stop ident r names c).
Proof. revert c. induction names; intros c; simpl; preserve; done. Qed.
#[export] Hint Resolve repair_desired_same append_event_same replay_events_same
  unresolved_scan_same find_quiesced_stop_same : frame.

(** Lifting to [store_le]: the common case of the automation. *)
#[export] Hint Extern 3 (preserves (store_le _) _) =>
  apply preserves_same; solve [eauto 3 with frame] : frame.
#[export] Hint Extern 2 (preserves (lift_rel _) (on_store _)) =>
  apply preserves_on_store : frame.

(** ** Writing a record *)

(** A write of [op] is harmless when [op] is what [id]'s record may become. *)
Definition may_write (op : StoredOperation) (s : Store) : Prop :=
  wf_names s → ∀ o, operations s !! so_id op = Some (OpRec o) → evolves o op.

Lemma publish_le x op s :
  (x = Some (so_id op) ∨ may_write op s) →
  store_le x s (set_operations (<[so_id op := OpRec op]>) s).
Proof.
  intros Hw. split; simpl; [|done|].
  - intros W name o. simpl. destruct (decide (name = so_id op)) as [->|Hne].
    + rewrite lookup_insert_eq. intros; by simplify_eq.
    + rewrite lookup_insert_ne by done. apply W.
  - intros W id o Hx Hid. destruct (decide (id = so_id op)) as [->|Hne].
    + destruct Hw as [->|Hw]; [done|]. exists op. split; [by apply Hw|].
      left. simpl. by rewrite lookup_insert_eq.
    + exists o. split; [reflexivity|]. left. simpl. by rewrite lookup_insert_ne.
Qed.

Lemma publish_may_write op s : may_write op (set_operations (<[so_id op := OpRec op]>) s).
Proof. intros _ o. simpl. rewrite lookup_insert_eq. intros; simplify_eq. reflexivity. Qed.

Lemma store_operation_attempts_le x n last op s :
  (x = Some (so_id op) ∨ may_write op s) →
  wp (store_operation_attempts n last op) s
    (λ _ s', store_le x s s') (λ _ s', store_le x s s').
Proof.
  revert last s. induction n as [|n IH]; intros last s Hw; simpl.
  { apply wp_fail. reflexivity. }
  apply wp_bind. eapply wp_mono; [apply next_io_same| |]; cbv beta.
  2: { intros. by apply same_ops_le. }
  intros o s1 H1. assert (x = Some (so_id op) ∨ may_write op s1) as Hw1.
  { destruct Hw as [?|Hw]; [by left|right]. unfold may_write, wf_names in *. destruct H1 as [-> _]. done. }
  apply (same_ops_le x) in H1.
  destruct o as [|msg tr landed].
  { apply wp_modify. etrans; [exact H1|]. by apply publish_le. }
  apply wp_bind.
  assert (wp (E := string) (match landed with
              | LandedFull => mmodify (set_operations (<[so_id op := OpRec op]>))
              | _ => mret' tt end) s1
            (λ _ s', store_le x s s' ∧ (x = Some (so_id op) ∨ may_write op s'))
            (λ _ s', False)) as Hl.
  { destruct landed; try (apply wp_ret; by split).
    apply wp_modify. split; [etrans; [exact H1|by apply publish_le]|].
    right. apply publish_may_write. }
  eapply wp_mono; [exact Hl| |done]. intros [] s2 [H2 Hw2].
  destruct tr; [|apply wp_fail; done].
  eapply wp_mono; [apply IH; exact Hw2| |]; intros ? s3 H3; by etrans.
Qed.

Lemma store_operation_le x op s :
  (x = Some (so_id op) ∨ may_write op s) →
  wp (store_operation op) s (λ _ s', store_le x s s') (λ _ s', store_le x s s').
Proof. apply store_operation_attempts_le. Qed.

(** ** Reading a record *)

Lemma io_call_spec ctx s :
  wp (io_call ctx) s (λ _ s', same_ops s s') (λ _ s', same_ops s s').
Proof. apply io_call_same. Qed.

Lemma load_operation_spec id s :
  wp (load_operation id) s
    (λ r s', same_ops s s' ∧ operations s !! id = OpRec <$> r)
    (λ _ s', same_ops s s').
Proof.
  unfold load_operation. wp_steps. eapply wp_mono; [apply io_call_spec| |done].
  intros [] s1 H1. cbv beta. destruct (operations s !! id) as [[o|?|?]|]; apply wp_ret || apply wp_fail;
    auto.
Qed.

Lemma evolves_unsettled o st e d :
  rank (so_state o) = 0 →
  evolves o (with_detail d (match e with
                            | Some (c, m) => with_error (Some c) (Some m) (with_state st o)
                            | None => with_state st o end)).
Proof.
  intros Hr. destruct e as [[c m]|]; split; simpl; try done; try (rewrite Hr; lia);
    unfold so_state in *; by destruct (v_state (so_view o)).
Qed.

Lemma settled_rank st : settled st = false → rank st = 0.
Proof. by destruct st. Qed.

Abbreviation k_le x := (lift_rel (store_le x)).

Lemma emit_with_payload_le {E} x id st sv n p :
  preserves (E := E) (k_le x) (emit_with_payload id st sv n p).
Proof. unfold emit_with_payload. preserve. Qed.
#[export] Hint Resolve emit_with_payload_le : frame.
Lemma emit_le {E} x id st sv n : preserves (E := E) (k_le x) (emit id st sv n).
Proof. unfold emit. preserve. Qed.
Lemma emit_terminal_record_le {E} x o : preserves (E := E) (k_le x) (emit_terminal_record o).
Proof. unfold emit_terminal_record. preserve. Qed.
#[export] Hint Resolve emit_le emit_terminal_record_le : frame.

(** From a relation at the current state to one at the initial state. *)
Lemma preserves_from {S E A} (R : S → S → Prop) `{!PreOrder R} (m : M S E A) s0 s :
  R s0 s → preserves R m → wp m s (λ _ s', R s0 s') (λ _ s', R s0 s').
Proof.
  intros H0 Hm. eapply wp_mono; [apply Hm| |]; intros ? s' H1; (etrans; [exact H0|exact H1]).
Qed.

Lemma same_ops_lift x k st : same_ops (k_store k) st → k_le x k (set_store st k).
Proof. intros Hs. by apply same_ops_le. Qed.

Lemma write_terminal_le x id st e d : preserves (k_le x) (write_terminal id st e d).
Proof.
  intros k. unfold write_terminal. wp_steps.
  eapply wp_mono; [apply load_operation_spec| |].
  2: { intros e' s' Hs. by apply same_ops_lift. }
  intros loaded s1 [Hs Hl]. apply (same_ops_lift x) in Hs as Hle.
  wp_steps. destruct loaded as [o|]; [|done]. wp_steps.
  destruct (settled st); [|done].
  destruct (settled (so_state o)) eqn:Hset.
  { apply (preserves_from (k_le x)); [done|preserve]. }
  set (o' := with_detail _ _). wp_steps.
  eapply wp_mono; [apply (store_operation_le x o')| |].
  - right. intros W o0 Ho0. destruct Hs as [Hs _]. simpl in Ho0.
    assert (so_id o' = so_id o) as Hid by (unfold o'; destruct e as [[]|]; done).
    assert (so_id o = id) as Ho.
    { apply (W id). simpl. by rewrite Hs, Hl. }
    rewrite Hid, Ho, Hs, Hl in Ho0. simpl in Ho0. simplify_eq. apply evolves_unsettled.
    by apply settled_rank.
  - intros [] s2 H2. simpl in H2. cbv beta.
    apply (preserves_from (k_le x)); [|preserve].
    etrans; [exact Hle|]. exact H2.
  - intros e' s2 H2. etrans; [exact Hle|]. exact H2.
Qed.
#[export] Hint Resolve write_terminal_le : frame.

Lemma promote_queued_le x : preserves (k_le x) promote_queued.
Proof. unfold promote_queued. preserve. Qed.
Lemma settle_queued_le x r : preserves (k_le x) (settle_queued_restart_on_terminal_failure r).
Proof. unfold settle_queued_restart_on_terminal_failure. preserve. Qed.
Lemma settle_queued_for_admission_le x : preserves (k_le x) settle_queued_restart_for_admission.
Proof. unfold settle_queued_restart_for_admission. preserve. Qed.
#[export] Hint Resolve promote_queued_le settle_queued_le settle_queued_for_admission_le : frame.

Lemma after_terminal_le x id o : preserves (k_le x) (after_terminal id o).
Proof. unfold after_terminal. preserve. Qed.
#[export] Hint Resolve after_terminal_le : frame.
Lemma finish_le x id st e d : preserves (k_le x) (finish id st e d).
Proof. unfold finish. preserve. Qed.
Lemma write_terminal_locked_le x id st : preserves (k_le x) (write_terminal_locked id st).
Proof. unfold write_terminal_locked. preserve. Qed.
#[export] Hint Resolve finish_le write_terminal_locked_le : frame.
Lemma commit_execution_le x id : preserves (k_le x) (commit_execution id).
Proof. unfold commit_execution. preserve. Qed.
Lemma request_cancel_le x id : preserves (k_le x) (request_cancel id).
Proof. unfold request_cancel. preserve. Qed.
Lemma mark_execution_consumed_le x id : preserves (k_le x) (mark_execution_consumed id).
Proof. unfold mark_execution_consumed. preserve. Qed.
Lemma note_session_ended_le x b : preserves (k_le x) (note_execution_session_ended b).
Proof. unfold note_execution_session_ended. preserve. Qed.
Lemma ensure_stopped_le x : preserves (k_le x) ensure_stopped_if_idle.
Proof. unfold ensure_stopped_if_idle. preserve. Qed.
Lemma dispatch_pending_le x : preserves (k_le x) dispatch_pending_after_quiescence.
Proof. unfold dispatch_pending_after_quiescence. preserve. Qed.
Lemma foreground_exit_le `{RequestHash} x id : preserves (k_le x) (begin_foreground_failure_exit id).
Proof. unfold begin_foreground_failure_exit. preserve. Qed.
Lemma append_orchestration_event_le {E} x id st sv n p :
  preserves (E := E) (k_le x) (append_orchestration_event id st sv n p).
Proof. unfold append_orchestration_event. preserve. Qed.

Section dir.
Context `{DirOrder}.

Lemma refresh_le {E} x : preserves (E := E) (k_le x) refresh_recovery_protection.
Proof.
  unfold refresh_recovery_protection. preserve.
Qed.
#[local] Hint Resolve refresh_le : frame.

Lemma prepare_relaunch_entries_le x stop ids acc :
  preserves (k_le x) (prepare_relaunch_entries stop ids acc).
Proof.
  revert acc. induction ids as [|id ids IH]; intros acc; simpl; preserve.
  unfold prepare_relaunch_entry. preserve.
Qed.
#[local] Hint Resolve prepare_relaunch_entries_le : frame.
Lemma prepare_relaunch_le x : preserves (k_le x) prepare_relaunch.
Proof. unfold prepare_relaunch. preserve. Qed.

(** The record read from its file, as the writers below find it. *)
Definition at_home (s : Store) (o : StoredOperation) : Prop :=
  wf_names s → operations s !! so_id o = Some (OpRec o).

Lemma at_home_lookup s name o : operations s !! name = Some (OpRec o) → at_home s o.
Proof using Type. intros Ho W. by rewrite (W _ _ Ho). Qed.
Lemma at_home_same s s' o : same_ops s s' → at_home s o → at_home s' o.
Proof using Type. unfold at_home, wf_names. by intros [-> _]. Qed.

Lemma at_home_may_write s o o' : so_id o' = so_id o → at_home s o → evolves o o' → may_write o' s.
Proof using Type. intros Hid Hh He W o0. rewrite Hid, (Hh W). intros; by simplify_eq. Qed.

Lemma evolves_interrupted o : is_terminal (so_state o) = false → evolves o (interrupted_record o).
Proof using Type.
  intros Ht. unfold interrupted_record.
  split; try (case_match; done); [|congruence].
  unfold so_state in *. destruct (v_state (so_view o)); case_match; simpl; lia || done.
Qed.

Lemma interrupted_id o : so_id (interrupted_record o) = so_id o.
Proof using Type. unfold interrupted_record. by case_match. Qed.

Lemma settle_interrupted_le x o s :
  at_home s o → is_terminal (so_state o) = false →
  wp (settle_interrupted_operation o) s (λ _ s', store_le x s s') (λ _ s', store_le x s s').
Proof using Type.
  intros Ho Ht. unfold settle_interrupted_operation. wp_steps.
  eapply wp_mono; [apply (store_operation_le x)|intros [] s1 H1; by apply wp_ret|done].
  right. eapply at_home_may_write; [apply interrupted_id|done|by apply evolves_interrupted].
Qed.

Lemma settle_record_le x o requested k :
  at_home (k_store k) o → is_terminal (so_state o) = false →
  wp (settle_record o requested) k (λ _ k', k_le x k k') (λ _ k', k_le x k k').
Proof using Type.
  intros Ho Ht. unfold settle_record. case_bool_decide.
  { apply (preserves_from (k_le x)); [reflexivity|preserve]. }
  wp_steps.
  eapply wp_mono; [by apply (settle_interrupted_le x)| |done].
  intros o' s1 H1. apply (preserves_from (k_le x)); [exact H1|preserve].
Qed.

Lemma settle_entry_le x name ids : preserves (k_le x) (settle_entry name ids).
Proof using Type.
  intros k. unfold settle_entry. apply wp_bind.
  eapply wp_mono; [apply preserves_on_store, (preserves_same _ x); preserve| |done].
  intros [] k1 H1. wp_steps.
  destruct (operations (k_store k1) !! name) as [[o|?|?]|] eqn:Ho; wp_steps; try done.
  destruct (settle_skips (k_adm k1) o) eqn:Hskip; [by apply wp_ret|].
  assert (is_terminal (so_state o) = false) as Ht.
  { unfold settle_skips in Hskip. by destruct (is_terminal (so_state o)). }
  apply at_home_lookup in Ho. wp_steps.
  eapply wp_mono; [apply cancellation_recorded_same| |]; cbv beta; intros r s2 H2;
    (assert (k_le x k (set_store s2 k1)) as Hle by (etrans; [exact H1|by apply same_ops_lift]));
    apply wp_bind; (eapply wp_mono; [apply (settle_record_le x); [|done]| |]);
    try (by eapply at_home_same); intros ? k3 H3; cbv beta;
    try (apply (preserves_from (k_le x)); [|preserve]); (etrans; [exact Hle|exact H3]).
Qed.
#[local] Hint Resolve settle_entry_le : frame.

Lemma settle_entries_le x names ids : preserves (k_le x) (settle_entries names ids).
Proof using Type. revert ids. induction names; intros ids; simpl; preserve. Qed.
#[local] Hint Resolve settle_entries_le : frame.
Lemma settle_unresolved_le x : preserves (k_le x) settle_unresolved_recoveries.
Proof. unfold settle_unresolved_recoveries. preserve. Qed.
End dir.
#[export] Hint Resolve refresh_le prepare_relaunch_le settle_unresolved_le : frame.

(** ** Startup *)

(** Moving a file aside keeps its record in quarantine. *)
Lemma quarantine_op_le x name : preserves (store_le x) (quarantine_op name).
Proof.
  intros s. unfold quarantine_op. wp_steps.
  eapply wp_mono; [apply quarantine_io_same| |]; cbv beta.
  2: { intros. by apply same_ops_le. }
  intros [] s1 H1. destruct (operations s !! name) as [f|] eqn:Hf; wp_steps.
  2: { by apply same_ops_le. }
  apply (same_ops_le x) in H1 as Hle. destruct H1 as [Ho Hq].
  etrans; [exact Hle|]. split; simpl.
  - intros W n o. simpl. destruct (decide (n = name)) as [->|Hne].
    + by rewrite lookup_delete_eq.
    + rewrite lookup_delete_ne by done. apply W.
  - set_solver.
  - intros W id o Hx Hid. exists o. split; [reflexivity|]. simpl.
    destruct (decide (id = name)) as [->|Hne].
    + right. rewrite Ho, Hf in Hid. simplify_eq. left.
    + left. by rewrite lookup_delete_ne.
Qed.
#[export] Hint Resolve quarantine_op_le : frame.

Lemma report_unreadable_le x name scan : preserves (store_le x) (report_unreadable_record name scan).
Proof. unfold report_unreadable_record. preserve. Qed.
#[export] Hint Resolve report_unreadable_le : frame.

Lemma recover_record_id o : so_id (recover_record o) = so_id o.
Proof. unfold recover_record. by case_match. Qed.

Lemma evolves_recover o : is_terminal (so_state o) = false → evolves o (recover_record o).
Proof.
  intros Ht. unfold recover_record. split; try (case_match; done); [|congruence].
  unfold so_state in *. destruct (v_state (so_view o)); case_match; simpl; lia || done.
Qed.

Lemma recover_entry_le x live name scan : preserves (store_le x) (recover_entry live name scan).
Proof.
  intros s. unfold recover_entry. wp_steps.
  eapply wp_mono; [apply io_call_same| |]; cbv beta.
  - intros [] s1 H1. apply (same_ops_le x) in H1 as Hle.
    destruct (operations s !! name) as [[o|?|?]|] eqn:Ho;
      try solve [apply (preserves_from (store_le x)); [done|preserve]].
    case_bool_decide; [by apply wp_ret|].
    destruct (is_terminal (so_state o)) eqn:Ht; [by apply wp_ret|].
    wp_steps. eapply wp_mono; [apply (store_operation_le x)| |].
    + right. eapply at_home_may_write; [apply recover_record_id| |by apply evolves_recover].
      eapply at_home_same; [done|]. by eapply at_home_lookup.
    + intros [] s2 H2. apply wp_ret. etrans; [exact Hle|exact H2].
    + intros e s2 H2. etrans; [exact Hle|exact H2].
  - intros e s1 H1. apply (preserves_from (store_le x)); [by apply same_ops_le|preserve].
Qed.
#[export] Hint Resolve recover_entry_le : frame.

Lemma recover_entries_le x live names scan :
  preserves (store_le x) (recover_entries live names scan).
Proof. revert scan. induction names; intros scan; simpl; preserve. Qed.
#[export] Hint Resolve recover_entries_le : frame.

Lemma recover_unfinished_le `{DirOrder} x live :
  preserves (store_le x) (recover_unfinished_operations live).
Proof. unfold recover_unfinished_operations. preserve. Qed.
#[export] Hint Resolve recover_unfinished_le : frame.

Lemma recover_cancellation_le x id : preserves (k_le x) (recover_cancellation id).
Proof. unfold recover_cancellation. preserve. Qed.
#[export] Hint Resolve recover_cancellation_le : frame.

Lemma recover_le `{DirOrder} x : preserves (k_le x) recover.
Proof. unfold recover. preserve. Qed.

Lemma reconciled_id r c o : so_id (reconciled_record r c o) = so_id o.
Proof. unfold reconciled_record. by case_match. Qed.

Lemma evolves_reconciled r c o : so_state o = RecoveryRequired → evolves o (reconciled_record r c o).
Proof.
  intros Hs. assert (rank (so_state o) = 1) as Hr by by rewrite Hs.
  unfold reconciled_record. split; try (case_match; done); [|by rewrite Hs].
  rewrite Hr. destruct c; case_match; simpl; lia.
Qed.

Lemma reconcile_operation_le `{RequestHash, DirOrder} x r :
  preserves (k_le x) (reconcile_quiesced_operation r).
Proof.
  intros k. unfold reconcile_quiesced_operation. wp_steps.
  case_match; [by apply wp_ret|]. case_match; [|by apply wp_ret].
  wp_steps. case_match; [|done]. wp_steps. case_match; [|done]. wp_steps.
  eapply wp_mono; [apply load_operation_spec| |].
  2: { intros e s1 H1'. by apply same_ops_lift. }
  intros [o|] s1 [Hs Hl]; (apply (same_ops_lift x) in Hs as Hle); [|by apply wp_ret].
  destruct (bool_decide (so_state o = RecoveryRequired)) eqn:Hst; simpl; [|by apply wp_ret].
  apply bool_decide_eq_true in Hst.
  wp_steps. case_match; [|done]. wp_steps.
  eapply wp_mono; [apply cancellation_recorded_same| |]; cbv beta.
  2: { intros e s2 H2'. etrans; [exact Hle|]. by apply same_ops_lift. }
  intros c s2 Hs2. apply (same_ops_lift x (set_store s1 k)) in Hs2 as Hle2.
  wp_steps.
  eapply wp_mono; [apply (store_operation_le x)| |].
  - right. eapply at_home_may_write; [apply reconciled_id| |by apply evolves_reconciled].
    eapply at_home_same; [exact Hs2|]. eapply at_home_same; [exact Hs|].
    by eapply at_home_lookup.
  - intros [] s3 H3'. simpl in H3'. cbv beta. apply (preserves_from (k_le x)); [|preserve].
    etrans; [exact Hle|]. etrans; [exact Hle2|exact H3'].
  - intros e s3 H3'. etrans; [exact Hle|]. etrans; [exact Hle2|exact H3'].
Qed.

(** [reconcile_quiesced_stop] only picks records that await recovery. *)
Lemma find_quiesced_stop_spec `{RequestHash} ident r names c s :
  (∀ o, c = Some o → at_home s o ∧ so_state o = RecoveryRequired) →
  wp (find_quiesced_stop ident r names c) s
    (λ c' s', same_ops s s' ∧ ∀ o, c' = Some o → at_home s' o ∧ so_state o = RecoveryRequired)
    (λ _ s', same_ops s s').
Proof.
  revert c s. induction names as [|name names IH]; intros c s Hc; simpl.
  { apply wp_ret. by split. }
  wp_steps. eapply wp_mono; [apply io_call_same| |done]. intros [] s1 H1. wp_steps.
  assert (∀ o, c = Some o → at_home s1 o ∧ so_state o = RecoveryRequired) as Hc1.
  { intros o Ho. destruct (Hc o Ho). split; [by eapply at_home_same|done]. }
  destruct (operations s1 !! name) as [[o|?|?]|] eqn:Ho; try by apply wp_fail.
  case_match eqn:Hcond.
  - eapply wp_mono; [by apply IH| |]; intros ? s2; [intros [Hs2 ?]; split; [|done]|intros Hs2];
      by etrans.
  - wp_steps. case_match; [|done]. wp_steps. case_match; [|done].
    eapply wp_mono; [apply IH| |].
    + intros o' ?. simplify_eq. split; [by eapply at_home_lookup|].
      apply orb_false_iff in Hcond as [Hcond _]. apply orb_false_iff in Hcond as [Hcond _].
      apply negb_false_iff, bool_decide_eq_true in Hcond. done.
    + intros ? s2 [Hs2 ?]; split; [|done]; by etrans.
    + intros ? s2 Hs2; by etrans.
Qed.

Lemma reconcile_stop_le `{RequestHash, DirOrder} x : preserves (k_le x) reconcile_quiesced_stop.
Proof.
  intros k. unfold reconcile_quiesced_stop. wp_steps. case_match; [|done]. wp_steps.
  eapply wp_mono; [apply load_desired_same| |]; cbv beta.
  2: { intros e s1 Hs1. by apply same_ops_lift. }
  intros [d r] s1 Hs1. apply (same_ops_lift x) in Hs1 as Hle1.
  case_match; [by apply wp_ret|]. wp_steps.
  eapply wp_mono; [apply io_call_same| |]; cbv beta; intros u s2 Hs2;
    (assert (same_ops (k_store k) s2) as Hs by (etrans; [exact Hs1|exact Hs2]));
    apply (same_ops_lift x) in Hs as Hle; [|exact Hle].
  wp_steps. eapply wp_mono; [apply find_quiesced_stop_spec; done| |]; cbv beta.
  2: { intros e s3 Hs3. apply same_ops_le. etrans; [exact Hs|exact Hs3]. }
  intros [o|] s3 [Hs3 Hc]; simpl in Hs3.
  2: { apply wp_ret. apply same_ops_le. etrans; [exact Hs|exact Hs3]. }
  destruct (Hc o eq_refl) as [Hh Hst]. wp_steps.
  eapply wp_mono; [apply (store_operation_le x)| |].
  - right. eapply at_home_may_write; [|exact Hh|]; [done|].
    split; simpl; try done; rewrite Hst; [simpl; lia|done].
  - intros [] s4 H4'. simpl in H4'. cbv beta. apply (preserves_from (k_le x)); [|preserve].
    etrans; [apply (same_ops_lift x k s3); etrans; [exact Hs|exact Hs3]|exact H4'].
  - intros e s4 H4'. etrans; [apply (same_ops_lift x k s3); etrans; [exact Hs|exact Hs3]|exact H4'].
Qed.

(** ** Admission *)

(** A rejection never returns normally. *)
Lemma wp_reject_partial {A} (R : Kernel → Kernel → Prop) o reason k (Q : A → Kernel → Prop) X :
  preserves (A := A) R (reject_partial o reason) →
  (∀ e k', R k k' → X e k') →
  wp (reject_partial o reason) k Q X.
Proof.
  intros HR HX. specialize (HR k). unfold wp in *.
  destruct (reject_partial o reason k) as [[a|e] k'] eqn:Heq; [exfalso|auto].
  revert Heq. unfold reject_partial, hold_partial_admission, upd, mbind', mmodify, mret', mfail.
  repeat case_match; congruence.
Qed.

Lemma store_operation_self x op :
  x = Some (so_id op) → preserves (store_le x) (store_operation op).
Proof. intros -> s. apply store_operation_le. by left. Qed.
#[export] Hint Resolve store_operation_self : frame.

Section admission_frame.
Context `{RequestHash, DirOrder}.
#[local] Abbreviation le_of o := (k_le (Some (so_id o))).

Lemma hold_partial_le o reason : preserves (le_of o) (hold_partial_admission o reason).
Proof. unfold hold_partial_admission. preserve. Qed.
#[local] Hint Resolve hold_partial_le : frame.
Lemma reject_partial_le {A} o reason : preserves (A := A) (le_of o) (reject_partial o reason).
Proof. unfold reject_partial. preserve. Qed.
#[local] Hint Resolve reject_partial_le : frame.
Lemma admit_persist_le o r n : preserves (le_of o) (admit_persist o r n).
Proof. unfold admit_persist, backend. preserve. Qed.
Lemma place_stop_le o : preserves (le_of o) (place_stop o).
Proof. unfold place_stop. preserve. Qed.
Lemma cancel_superseded_le o id : preserves (le_of o) (cancel_superseded_source o id).
Proof. unfold cancel_superseded_source. preserve. Qed.
#[local] Hint Resolve cancel_superseded_le : frame.
Lemma place_queued_le o b : preserves (le_of o) (place_queued o b).
Proof. unfold place_queued. preserve. Qed.
Lemma place_active_le o : preserves (le_of o) (place_active o).
Proof. unfold place_active. preserve. Qed.
#[local] Hint Resolve admit_persist_le place_stop_le place_queued_le place_active_le : frame.
Lemma admit_place_le o b l : preserves (le_of o) (admit_place o b l).
Proof. unfold admit_place. preserve. Qed.
Lemma admit_holds_le x r h n a : preserves (k_le x) (admit_holds r h n a).
Proof. unfold admit_holds, reject. preserve. Qed.
Lemma admit_protection_le x r : preserves (k_le x) (admit_protection r).
Proof. unfold admit_protection, reject. preserve. Qed.
Lemma admit_busy_le x b : preserves (k_le x) (admit_busy b).
Proof. unfold admit_busy, backend, reject. preserve. Qed.
#[local] Hint Resolve admit_place_le admit_holds_le admit_protection_le admit_busy_le : frame.

(** Admission of a new id disturbs no other record. *)
Lemma admit_fresh_le request d h n a :
  preserves (k_le (Some (rq_operation_id request))) (admit_fresh request d h n a).
Proof. unfold admit_fresh, backend, reject. preserve. Qed.

Lemma admit_le request h n a : preserves (k_le None) (admit_with_auxiliary_hold request h n a).
Proof.
  intros k. unfold admit_with_auxiliary_hold. wp_steps. case_match; [|reflexivity].
  unfold backend. wp_steps. eapply wp_mono; [apply load_operation_spec| |].
  2: { intros e s1 Hs. by apply same_ops_lift. }
  intros [o|] s1 [Hs Hl]; (apply (same_ops_lift None) in Hs as Hle).
  { case_match; [by apply wp_ret|by apply wp_fail]. }
  assert (∀ k', k_le (Some (rq_operation_id request)) (set_store s1 k) k' → k_le None k k').
  { intros k' [N Q K]. split; simpl in *.
    - intros W. apply N. by apply Hle.
    - etrans; [apply Hle|done].
    - intros W id o _ Hid. destruct Hs as [Hs _].
      apply K; [by apply Hle|congruence|congruence]. }
  eapply wp_mono; [apply admit_fresh_le| |]; auto.
Qed.

(** Every method, and the replacement of the process. *)
Lemma run_op_le op k : k_le None k (run_op op k).
Proof.
  destruct op; simpl; try (apply preserves_run).
  - apply admit_le.
  - apply finish_le.
  - apply commit_execution_le.
  - apply request_cancel_le.
  - apply mark_execution_consumed_le.
  - apply note_session_ended_le.
  - apply prepare_relaunch_le.
  - apply ensure_stopped_le.
  - apply dispatch_pending_le.
  - apply recover_le.
  - apply settle_unresolved_le.
  - apply reconcile_operation_le.
  - apply reconcile_stop_le.
  - apply foreground_exit_le.
  - apply append_orchestration_event_le.
  - apply preserves_on_store, preserves_same, consume_management_boot_same.
  - change (store_le None (k_store k) (k_store k)). reflexivity.
Qed.

Lemma run_le ops k : k_le None k (run ops k).
Proof. apply run_preorder; [apply _|apply run_op_le]. Qed.
End admission_frame.

(** ** Reads without faults *)

Lemma io_call_ok ctx s : io s = [] → io_call ctx s = (Ok tt, s).
Proof. intros Hio. unfold io_call, mbind', next_io. by rewrite Hio. Qed.

Lemma load_operation_ok id s o :
  io s = [] → operations s !! id = Some (OpRec o) → load_operation id s = (Ok (Some o), s).
Proof.
  intros Hio Ho. unfold load_operation, mbind', mget. rewrite io_call_ok by done. by rewrite Ho.
Qed.

Lemma set_store_id k : set_store (k_store k) k = k.
Proof. by destruct k. Qed.

Lemma on_store_ok {E A} (m : M Store E A) r k :
  m (k_store k) = (r, k_store k) → on_store m k = (r, k).
Proof. intros Hm. unfold on_store. rewrite Hm. by rewrite set_store_id. Qed.

(** ** Exact effects *)

(** A write that reports success replaced one file; one that reports failure
    may have replaced it too. *)
Definition published (op : StoredOperation) (s s' : Store) : Prop :=
  operations s' = <[so_id op := OpRec op]> (operations s) ∧ quarantined_ops s' = quarantined_ops s.

Lemma store_operation_exact op s :
  wp (store_operation op) s (λ _ s', published op s s') (λ _ s', same_ops s s' ∨ published op s s').
Proof.
  unfold store_operation. generalize "private operation persist retries exhausted".
  generalize 5. intros n last.
  enough (∀ s0, same_ops s0 s ∨ published op s0 s →
    wp (store_operation_attempts n last op) s
      (λ _ s', published op s0 s') (λ _ s', same_ops s0 s' ∨ published op s0 s')) as Hall.
  { apply Hall. left. reflexivity. }
  intros s0. revert last s. induction n as [|n IH]; intros last s Hs; simpl; [by apply wp_fail|].
  assert (∀ i, published op s0 (set_operations <[so_id op:=OpRec op]> (set_io i s))) as Hpub.
  { intros i. destruct Hs as [[Ho Hq]|[Ho Hq]]; split; simpl; try congruence.
    rewrite Ho. by rewrite insert_insert_eq. }
  assert (∀ i, same_ops s0 (set_io i s) ∨ published op s0 (set_io i s)) as Hio by done.
  apply wp_bind. unfold wp at 1, next_io. destruct (io s) as [|o rest] eqn:Hi.
  { apply wp_modify. specialize (Hpub (io s)). exact Hpub. }
  destruct o as [|msg tr landed]; [apply wp_modify, Hpub|].
  apply wp_bind. destruct landed; (apply wp_ret || apply wp_modify); destruct tr;
    try apply wp_fail; try apply IH; auto.
Qed.

Abbreviation k_same := (lift_rel same_ops).

Lemma emit_with_payload_same {E} id st sv n p :
  preserves (E := E) k_same (emit_with_payload id st sv n p).
Proof. unfold emit_with_payload. preserve. Qed.
#[export] Hint Resolve emit_with_payload_same : frame.
Lemma emit_same {E} id st sv n : preserves (E := E) k_same (emit id st sv n).
Proof. unfold emit. preserve. Qed.
Lemma emit_terminal_same {E} o : preserves (E := E) k_same (emit_terminal_record o).
Proof. unfold emit_terminal_record. preserve. Qed.
#[export] Hint Resolve emit_same emit_terminal_same : frame.
Lemma promote_queued_same : preserves k_same promote_queued.
Proof. unfold promote_queued. preserve. Qed.
#[export] Hint Resolve promote_queued_same : frame.

(** The record [write_terminal] makes of an unsettled one. *)
Definition terminal_record (st : RuntimeOperationState) (error : option (string * string))
    (detail : option RuntimeFailureDetail) (o : StoredOperation) : StoredOperation :=
  with_detail detail (match error with
                      | Some (code, message) => with_error (Some code) (Some message) (with_state st o)
                      | None => with_state st o end).

Lemma terminal_record_id st e d o : so_id (terminal_record st e d o) = so_id o.
Proof. by destruct e as [[]|]. Qed.
Lemma terminal_record_state st e d o : so_state (terminal_record st e d o) = st.
Proof. by destruct e as [[]|]. Qed.

Definition wrote_terminal (id : string) st e d (k : Kernel) (o' : StoredOperation) (k' : Kernel) : Prop :=
  ∃ o, operations (k_store k) !! id = Some (OpRec o) ∧
    if settled (so_state o) then o' = o ∧ k_same k k'
    else o' = terminal_record st e d o ∧ published o' (k_store k) (k_store k').

Lemma write_terminal_exact id st e d k :
  wp (write_terminal id st e d) k (wrote_terminal id st e d k) (λ _ _, True).
Proof.
  unfold write_terminal. wp_steps.
  eapply wp_mono; [apply load_operation_spec| |done]. intros loaded s1 [Hs Hl].
  wp_steps. destruct loaded as [o|]; [|done]. wp_steps. destruct (settled st); [|done].
  destruct (settled (so_state o)) eqn:Hset; apply wp_bind.
  - eapply wp_mono; [apply emit_terminal_same| |done]. intros u k' Hk'. apply wp_ret.
    exists o. split; [done|]. rewrite Hset. split; [done|]. by trans (set_store s1 k).
  - apply wp_on_store. eapply wp_mono; [apply store_operation_exact| |done].
    intros u s2 [Ho2 Hq2]. apply wp_bind. eapply wp_mono; [apply emit_terminal_same| |done].
    intros u' k' [Ho' Hq']. apply wp_ret. exists o. split; [done|]. rewrite Hset. split; [done|].
    simpl in *. destruct Hs as [Hs1 Hs2]. split; congruence.
Qed.

(** After a known outcome nothing else is written. *)
Lemma after_terminal_same id o :
  so_state o ≠ RecoveryRequired → preserves k_same (after_terminal id o).
Proof.
  intros Hs. unfold after_terminal. rewrite bool_decide_eq_false_2 by done.
  unfold mwhen. cbv iota. preserve.
Qed.
