(* ===== verification/KernelSamples.v ===== *)
(** * Concrete owners

    Small instances on which the hypotheses of the kernel's theorems are
    checked by evaluation: a hash, a directory order, an identity, requests
    and the runs that lead to the states the theorems speak about. *)
From S2P Require Import Prelude Validation RuntimeControl RuntimeStore RuntimeKernel KernelFrame.
Import Err.
Local Open Scope rust_scope.

Definition sample_hash : RequestHash := λ c,
  kind_as_str (cr_kind c) +:+ "@" +:+ pretty (cr_expected_revision c).

Definition sample_dir : DirOrder :=
  {| dir_entries := λ m, (map_to_list m).*1; dir_entries_perm := λ m, Permutation_refl _ |}.

Definition sample_identity : RuntimeIdentityView :=
  {| id_application_id := "app"; id_service_family := "source"; id_workspace_id := "ws-1";
     id_source_root := "/srv/app"; id_runtime_instance_id := "rt-1";
     id_deployment_generation_id := "gen-1"; id_protocol_version := 1; id_capabilities := [] |}.

Definition sample_store : Store :=
  mkStore "/state" ∅ DAbsent ∅ ∅ [] [] None [] [].

Definition sample_request (id : string) (kind : RuntimeOperationKind) (revision : Z)
    : RuntimeOperationRequest :=
  {| rq_operation_id := id; rq_expected_runtime_instance_id := "rt-1";
     rq_expected_revision := revision; rq_workspace_id := "ws-1"; rq_kind := kind;
     rq_profile := Source "ws-1"; rq_run_config := None; rq_request_context := None |}.

Definition sample_admit (id : string) (kind : RuntimeOperationKind) (revision : Z) : KOp :=
  DoAdmit (sample_request id kind revision) false None None.

Definition sample_kernel : Kernel := kernel_new sample_store sample_identity [].

(** A run of the sample owner. *)
Definition sample_run (ops : list KOp) : Kernel :=
  @run sample_hash sample_dir ops sample_kernel.

(** The record a file holds, for evaluation. *)
Definition record_of (k : Kernel) (id : string) : option StoredOperation :=
  match operations (k_store k) !! id with Some (OpRec o) => Some o | _ => None end.

Lemma record_of_lookup k id o :
  record_of k id = Some o → operations (k_store k) !! id = Some (OpRec o).
Proof. unfold record_of. by intros; repeat case_match; simplify_eq. Qed.

(** [wf_names] is preserved by runs, so it holds of every sample run. *)
Lemma sample_run_names ops : wf_names (k_store (sample_run ops)).
Proof. apply (run_le ops sample_kernel). intros name o. simpl. by rewrite lookup_empty. Qed.

(** The record the sample owner makes of an accepted request. *)
Definition sample_record (id : string) (kind : RuntimeOperationKind) (revision : Z)
    : StoredOperation :=
  let request := sample_request id kind revision in
  accepted_record sample_identity request (@runtime_request_digest sample_hash request) revision.
