(* ===== verification/KernelSafety.v ===== *)
(** * Safety of recorded operations

    The properties of [KernelFrame] as a caller of the owner sees them: an
    operation's end is final, and a resubmitted operation id is answered from
    its record whatever happened in between. *)
From S2P Require Import Prelude Validation RuntimeControl RuntimeStore RuntimeKernel KernelFrame KernelSamples.
Import Err.
Local Open Scope rust_scope.

Section safety.
Context `{RequestHash, DirOrder}.

(** C6: Terminal states are final.  Over any sequence of kernel methods,
    process replacements and I/O failures, a record that is Succeeded,
    Failed or Cancelled is still there, field by field unchanged; the only
    place it can have moved to is the quarantine directory. *)
Theorem terminal_records_are_final ops k id o :
  wf_names (k_store k) →
  operations (k_store k) !! id = Some (OpRec o) →
  is_terminal (so_state o) = true →
  operations (k_store (run ops k)) !! id = Some (OpRec o)
  ∨ (id, OpRec o) ∈ quarantined_ops (k_store (run ops k)).
Proof.
  intros W Ho Ht. destruct (run_le ops k) as [_ _ K].
  destruct (K W id o ltac:(done) Ho) as (o' & E & Hkept).
  by rewrite (ev_terminal _ _ E Ht) in Hkept.
Qed.


(** An operation id is bound to one request.  A recorded id resubmitted
    with another digest is refused with ERR_OPERATION_ID_CONFLICT, without
    any effect. *)
Theorem reused_id_conflicts ops k request o hold native aux :
  wf_names (k_store k) →
  operations (k_store k) !! rq_operation_id request = Some (OpRec o) →
  v_request_digest (so_view o) ≠ runtime_request_digest request →
  io (k_store (run ops k)) = [] →
  (∀ f, (rq_operation_id request, f) ∉ quarantined_ops (k_store (run ops k))) →
  admit_precheck (k_identity (run ops k)) request = Ok (runtime_request_digest request) →
  admit_with_auxiliary_hold request hold native aux (run ops k)
  = (Err (mkRej ERR_OPERATION_ID_CONFLICT None), run ops k).
Proof.
  intros W Ho Hd Hio Hq Hpre. destruct (run_le ops k) as [_ _ K].
  destruct (K W _ o ltac:(done) Ho) as (o' & E & [Ho'|Hin]); [|by destruct (Hq (OpRec o'))].
  unfold admit_with_auxiliary_hold, mbind', mget, mlift, backend, mmap_err. rewrite Hpre.
  rewrite (on_store_ok _ _ _ (load_operation_ok _ _ _ Hio Ho')).
  simpl. rewrite bool_decide_eq_false_2; [done|]. by rewrite (ev_digest _ _ E).
Qed.
End safety.

(** ** Instances *)

(** A start that committed, then a stop, a crash and a startup scan. *)
Lemma terminal_records_are_final_witness :
  let k := sample_run [sample_admit "op-1" Start 0; DoCommit "op-1"] in
  let ops := [sample_admit "op-2" Stop 0; DoRestart sample_identity; DoRecover] in
  let k' := @run sample_hash sample_dir ops k in
  let o := with_state Succeeded (sample_record "op-1" Start 0) in
  operations (k_store k) !! "op-1" = Some (OpRec o)
  ∧ (operations (k_store k') !! "op-1" = Some (OpRec o)
     ∨ ("op-1", OpRec o) ∈ quarantined_ops (k_store k')).
Proof.
  intros k ops k' o.
  assert (operations (k_store k) !! "op-1" = Some (OpRec o)) as Ho by (vm_compute; reflexivity).
  split; [exact Ho|].
  exact (@terminal_records_are_final sample_hash sample_dir ops k "op-1" o
           (sample_run_names _) Ho eq_refl).
Defined.


(** The id of a start reused for a stop. *)
Lemma reused_id_conflicts_witness :
  let k := sample_run [sample_admit "op-1" Start 0] in
  let ops := [DoCommit "op-1"; DoRestart sample_identity; DoRecover] in
  let k' := @run sample_hash sample_dir ops k in
  @admit_with_auxiliary_hold sample_hash sample_dir
    (sample_request "op-1" Stop 0) false None None k'
  = (Err (mkRej ERR_OPERATION_ID_CONFLICT None), k').
Proof.
  intros k ops k'.
  apply (reused_id_conflicts (H := sample_hash) (H0 := sample_dir) ops k _
           (sample_record "op-1" Start 0));
    [apply sample_run_names|vm_compute; reflexivity|vm_compute; discriminate
    |vm_compute; reflexivity| |vm_compute; reflexivity].
  intros f. replace (quarantined_ops _) with (@nil (string * OpFile))
    by (vm_compute; reflexivity). apply not_elem_of_nil.
Defined.
