(* ===== verification/KernelDispatch.v ===== *)
(** * At-most-once execution

    An invariant over every run of the owner, restarts and I/O failures
    included: an operation is handed to the execution loop at most once, and
    only after its record is durable. *)
From S2P Require Import Prelude Validation RuntimeControl RuntimeStore RuntimeKernel KernelFrame KernelSamples.
Import Err.
Local Open Scope rust_scope.

(** The operation an action executes; a cancellation executes nothing. *)
Definition exec_of (a : DispatchAction) : option string :=
  match a with
  | DeployArtifact id _ _ _ | DeployLocalArtifact id _ _ _ | OrchestrateSource id _ _
  | RecoverArtifact id _ _ | StopBusiness id => Some id
  | CancelSource _ => None
  end.

Definition exec_count (id : string) (l : list DispatchAction) : nat :=
  length (filter (λ a, exec_of a = Some id) l).

Lemma exec_count_app id l l' : exec_count id (l ++ l') = exec_count id l + exec_count id l'.
Proof. unfold exec_count. by rewrite filter_app, length_app. Qed.
Lemma exec_of_action o : exec_of (dispatch_action_for o) = Some (so_id o).
Proof. unfold dispatch_action_for. repeat case_match; done. Qed.
Lemma exec_count_single id a :
  exec_count id [a] = if bool_decide (exec_of a = Some id) then 1 else 0.
Proof.
  unfold exec_count. rewrite filter_cons. by case_decide; case_bool_decide.
Qed.

(** ** What stays recorded *)

Definition quarantined (s : Store) (id : string) : Prop := id ∈ (quarantined_ops s).*1.
Definition recorded (s : Store) (id : string) : Prop :=
  is_Some (operations s !! id) ∨ quarantined s id.

(** Files only appear, or move to quarantine, which only grows. *)
Definition accrues (s s' : Store) : Prop :=
  (∀ id, recorded s id → recorded s' id) ∧ (∀ id, quarantined s id → quarantined s' id).

#[export] Instance accrues_preorder : PreOrder accrues.
Proof. split; [by intros s|]. intros s1 s2 s3 [] []. split; auto. Qed.

Lemma same_ops_accrues s s' : same_ops s s' → accrues s s'.
Proof. intros [Ho Hq]. unfold accrues, recorded, quarantined. by rewrite Ho, Hq. Qed.
Lemma preserves_same_accrues {E A} (m : M Store E A) : preserves same_ops m → preserves accrues m.
Proof. intros Hm s. eapply wp_mono; [apply Hm| |]; intros; by apply same_ops_accrues. Qed.
#[export] Hint Extern 3 (preserves accrues _) =>
  apply preserves_same_accrues; solve [eauto 3 with frame] : frame.

Lemma publish_accrues op s : accrues s (set_operations (<[so_id op := OpRec op]>) s).
Proof.
  split; [|done]. intros id [Hid|Hq]; [left|by right]. simpl.
  destruct (decide (id = so_id op)) as [->|]; [by rewrite lookup_insert_eq|by rewrite lookup_insert_ne].
Qed.
Lemma publish_accrues_m {E} op :
  preserves (E := E) accrues (mmodify (set_operations (<[so_id op := OpRec op]>))).
Proof. apply preserves_modify; [apply _|intros; apply publish_accrues]. Qed.
#[export] Hint Resolve publish_accrues_m : frame.

Lemma store_operation_accrues op : preserves accrues (store_operation op).
Proof.
  unfold store_operation. generalize "private operation persist retries exhausted".
  generalize 5. intros n. induction n as [|n IH]; intros last; simpl; preserve; done.
Qed.
#[export] Hint Resolve store_operation_accrues : frame.

(** A write that reports success left the record. *)
Lemma store_operation_recorded op s :
  wp (store_operation op) s (λ _ s', accrues s s' ∧ recorded s' (so_id op)) (λ _ s', accrues s s').
Proof.
  unfold wp. destruct (store_operation op s) as [[[]|e] s'] eqn:Heq.
  2: { eapply (wp_err _ s _ _ e s' (store_operation_accrues op s) Heq). }
  split; [eapply (wp_ok _ s _ _ tt s' (store_operation_accrues op s) Heq)|].
  revert Heq. unfold store_operation. generalize "private operation persist retries exhausted".
  generalize 5. intros n. revert s. induction n as [|n IH]; intros s last; simpl; [done|].
  unfold mbind', next_io, mmodify. destruct (io s) as [|[|msg tr landed] rest]; simpl.
  - intros; simplify_eq. left. simpl. by rewrite lookup_insert_eq.
  - intros; simplify_eq. left. simpl. by rewrite lookup_insert_eq.
  - destruct landed, tr; simpl; try done; apply IH.
Qed.

Lemma quarantine_op_accrues name : preserves accrues (quarantine_op name).
Proof.
  intros s. unfold quarantine_op. wp_steps.
  eapply wp_mono; [apply quarantine_io_same| |]; cbv beta.
  2: { intros. by apply same_ops_accrues. }
  intros [] s1 H1. destruct (operations s !! name) as [f|] eqn:Hf; wp_steps;
    [|by apply same_ops_accrues].
  etrans; [by apply same_ops_accrues|]. unfold accrues, recorded, quarantined. simpl.
  split; [|set_solver]. intros id [Hid|Hq]; [|set_solver].
  destruct (decide (id = name)) as [->|]; [right; set_solver|left; by rewrite lookup_delete_ne].
Qed.
#[export] Hint Resolve quarantine_op_accrues : frame.
Lemma report_unreadable_accrues n sc : preserves accrues (report_unreadable_record n sc).
Proof. unfold report_unreadable_record. preserve. Qed.
#[export] Hint Resolve report_unreadable_accrues : frame.
Lemma recover_entry_accrues live n sc : preserves accrues (recover_entry live n sc).
Proof. unfold recover_entry. preserve. Qed.
#[export] Hint Resolve recover_entry_accrues : frame.
Lemma recover_entries_accrues live ns sc : preserves accrues (recover_entries live ns sc).
Proof. revert sc. induction ns; intros sc; simpl; preserve. Qed.
#[export] Hint Resolve recover_entries_accrues : frame.
Lemma recover_unfinished_accrues `{DirOrder} live :
  preserves accrues (recover_unfinished_operations live).
Proof. unfold recover_unfinished_operations. preserve. Qed.
Lemma settle_interrupted_accrues o : preserves accrues (settle_interrupted_operation o).
Proof. unfold settle_interrupted_operation. preserve. Qed.
#[export] Hint Resolve recover_unfinished_accrues settle_interrupted_accrues : frame.

(** ** The invariant *)

(** [cold]: not handed to the execution loop, as far as the records tell. *)
Definition cold (k : Kernel) (id : string) : Prop :=
  quarantined (k_store k) id ∨ exec_count id (k_dispatched k) = 0.

Record dispatch_inv (k : Kernel) : Prop := {
  di_recorded : ∀ id, 0 < exec_count id (k_dispatched k) → recorded (k_store k) id;
  di_queue : ∀ id, pending_restart (k_adm k) = Some id → recorded (k_store k) id ∧ cold k id;
  di_once : ∀ id, quarantined (k_store k) id ∨ exec_count id (k_dispatched k) ≤ 1;
}.

(** Methods that dispatch nothing and leave the queue alone ([mute]) or may
    only empty it ([quiet]). *)
Record mute (k k' : Kernel) : Prop := {
  mu_store : accrues (k_store k) (k_store k');
  mu_exec : ∀ id, exec_count id (k_dispatched k') = exec_count id (k_dispatched k);
  mu_queue : pending_restart (k_adm k') = pending_restart (k_adm k);
}.
Record quiet (k k' : Kernel) : Prop := {
  qu_store : accrues (k_store k) (k_store k');
  qu_exec : ∀ id, exec_count id (k_dispatched k') = exec_count id (k_dispatched k);
  qu_queue : pending_restart (k_adm k') = None
             ∨ pending_restart (k_adm k') = pending_restart (k_adm k);
}.
Definition keeps_inv (k k' : Kernel) : Prop := dispatch_inv k → dispatch_inv k'.

#[export] Instance mute_preorder : PreOrder mute.
Proof.
  split; [by intros k; split|]. intros k1 k2 k3 [] []. split; [by etrans| |]; congruence.
Qed.
#[export] Instance quiet_preorder : PreOrder quiet.
Proof.
  split; [intros k; split; auto; reflexivity|].
  intros k1 k2 k3 [? ? Q1] [? ? Q2]. split; [by etrans|congruence|].
  destruct Q2 as [Hn|Hn]; rewrite Hn; auto.
Qed.
#[export] Instance keeps_inv_preorder : PreOrder keeps_inv.
Proof. unfold keeps_inv. split; [by intros k|]. intros k1 k2 k3 ??; auto. Qed.

Lemma mute_quiet k k' : mute k k' → quiet k k'.
Proof. intros []. split; auto. Qed.

Lemma quiet_cold k k' id : quiet k k' → cold k id → cold k' id.
Proof. intros [[_ Q] E _] [?|?]; [left; auto|right]. by rewrite E. Qed.
Lemma quiet_recorded k k' id : quiet k k' → recorded (k_store k) id → recorded (k_store k') id.
Proof. intros [[R _] _ _]. apply R. Qed.

Lemma quiet_keeps_inv k k' : quiet k k' → keeps_inv k k'.
Proof.
  intros Hq [R Q O]. destruct (Hq) as [[Hr Hqq] He Hp]. split.
  - intros id. rewrite He. auto.
  - intros id Hid. destruct Hp as [Hp|Hp]; rewrite Hp in Hid; [done|].
    destruct (Q id Hid). split; [auto|by eapply quiet_cold].
  - intros id. rewrite He. destruct (O id); auto.
Qed.

Lemma preserves_sub {S E A} (R R' : S → S → Prop) (m : M S E A) :
  (∀ s s', R s s' → R' s s') → preserves R m → preserves R' m.
Proof. intros Hsub Hm s. eapply wp_mono; [apply Hm| |]; auto. Qed.
Lemma preserves_mute_quiet {E A} (m : M Kernel E A) : preserves mute m → preserves quiet m.
Proof. apply preserves_sub, mute_quiet. Qed.
Lemma preserves_quiet_inv {E A} (m : M Kernel E A) : preserves quiet m → preserves keeps_inv m.
Proof. apply preserves_sub, quiet_keeps_inv. Qed.

Lemma on_store_mute {E A} (m : M Store E A) : preserves accrues m → preserves mute (on_store m).
Proof.
  intros Hm k. apply wp_on_store.
  eapply wp_mono; [apply Hm| |]; intros ? s Hs; by split.
Qed.
Lemma guard_mute {E} : preserves (E := E) mute guard.
Proof. apply preserves_gets, _. Qed.
Lemma upd_mute {E} f :
  (∀ a, pending_restart (f a) = pending_restart a) → preserves (E := E) mute (upd f).
Proof. intros Hf. apply preserves_modify; [apply _|]. intros k. split; simpl; auto. reflexivity. Qed.
Lemma upd_quiet {E} f :
  (∀ a, pending_restart (f a) = None ∨ pending_restart (f a) = pending_restart a) →
  preserves (E := E) quiet (upd f).
Proof. intros Hf. apply preserves_modify; [apply _|]. intros k. split; simpl; auto. reflexivity. Qed.
Lemma cancelled_mute {E} f : preserves (E := E) mute (mmodify (set_cancelled f)).
Proof. apply preserves_modify; [apply _|]. intros k. by split. Qed.
Lemma dispatch_cancel_mute {E} id : preserves (E := E) mute (dispatch (CancelSource id)).
Proof.
  apply preserves_modify; [apply _|]. intros k. split; [reflexivity| |done].
  intros id'. simpl. by rewrite exec_count_app, exec_count_single, Nat.add_0_r.
Qed.
#[export] Hint Extern 2 (preserves mute (on_store _)) => apply on_store_mute; preserve : frame.
#[export] Hint Extern 2 (preserves mute (upd _)) => apply upd_mute; intros; reflexivity : frame.
#[export] Hint Extern 2 (preserves quiet (upd _)) =>
  apply upd_quiet; intros; simpl; solve [auto] : frame.
#[export] Hint Resolve guard_mute cancelled_mute dispatch_cancel_mute : frame.
#[export] Hint Extern 4 (preserves quiet _) => apply preserves_mute_quiet : frame.
#[export] Hint Extern 5 (preserves keeps_inv _) => apply preserves_quiet_inv : frame.

(** ** Methods that dispatch nothing *)

Lemma emit_with_payload_mute {E} id st sv n p :
  preserves (E := E) mute (emit_with_payload id st sv n p).
Proof. unfold emit_with_payload. preserve. Qed.
#[export] Hint Resolve emit_with_payload_mute : frame.
Lemma emit_mute {E} id st sv n : preserves (E := E) mute (emit id st sv n).
Proof. unfold emit. preserve. Qed.
Lemma emit_terminal_mute {E} o : preserves (E := E) mute (emit_terminal_record o).
Proof. unfold emit_terminal_record. preserve. Qed.
#[export] Hint Resolve emit_mute emit_terminal_mute : frame.
Lemma write_terminal_mute id st e d : preserves mute (write_terminal id st e d).
Proof. unfold write_terminal. preserve. Qed.
#[export] Hint Resolve write_terminal_mute : frame.
Lemma hold_partial_mute o r : preserves mute (hold_partial_admission o r).
Proof. unfold hold_partial_admission. preserve. Qed.
#[export] Hint Resolve hold_partial_mute : frame.
Lemma reject_partial_mute {A} o r : preserves (A := A) mute (reject_partial o r).
Proof. unfold reject_partial. preserve. Qed.
#[export] Hint Resolve reject_partial_mute : frame.

(** A relation up to the current state, extended by one more call. *)
Ltac from R := apply (preserves_from R); [|preserve].

Lemma settle_queued_quiet r : preserves quiet (settle_queued_restart_on_terminal_failure r).
Proof.
  intros k. unfold settle_queued_restart_on_terminal_failure. wp_steps.
  destruct (pending_restart (k_adm k)) as [id|] eqn:Hp; [|apply wp_ret; reflexivity].
  wp_steps. eapply wp_mono; [apply write_terminal_mute| |]; cbv beta; wp_steps.
  - intros o k1 [? ? Hq]. wp_steps. split; [done|done|left; exact Hq].
  - intros e k1 [? ? Hq]. wp_steps. split; [done|done|right; by rewrite Hp].
Qed.
#[export] Hint Resolve settle_queued_quiet : frame.

Lemma interrupt_operations_queue ids a :
  pending_restart (foldl interrupt_operation a ids) = pending_restart a.
Proof.
  revert a. induction ids as [|id ids IH]; intros a; simpl; [done|]. rewrite IH.
  unfold interrupt_operation. by repeat case_match.
Qed.

Lemma note_session_ended_quiet b : preserves quiet (note_execution_session_ended b).
Proof.
  unfold note_execution_session_ended. preserve.
  apply upd_quiet. intros a'. right. by rewrite interrupt_operations_queue.
Qed.
Lemma request_cancel_quiet id : preserves quiet (request_cancel id).
Proof. unfold request_cancel. preserve. Qed.
Lemma mark_consumed_quiet id : preserves quiet (mark_execution_consumed id).
Proof. unfold mark_execution_consumed. preserve. Qed.
Lemma ensure_stopped_quiet : preserves quiet ensure_stopped_if_idle.
Proof. unfold ensure_stopped_if_idle. preserve. Qed.
Lemma foreground_exit_quiet `{RequestHash} id : preserves quiet (begin_foreground_failure_exit id).
Proof. unfold begin_foreground_failure_exit. preserve. Qed.
Lemma append_event_quiet {E} id st sv n p :
  preserves (E := E) quiet (append_orchestration_event id st sv n p).
Proof. unfold append_orchestration_event. preserve. Qed.
Lemma recover_cancellation_quiet id : preserves quiet (recover_cancellation id).
Proof. unfold recover_cancellation. preserve. Qed.
#[export] Hint Resolve note_session_ended_quiet request_cancel_quiet mark_consumed_quiet
  ensure_stopped_quiet foreground_exit_quiet append_event_quiet recover_cancellation_quiet : frame.

Section dir.
Context `{DirOrder}.

Lemma refresh_mute {E} : preserves (E := E) mute refresh_recovery_protection.
Proof. unfold refresh_recovery_protection. preserve. Qed.
#[local] Hint Resolve refresh_mute : frame.
Lemma prepare_relaunch_entries_quiet stop ids acc :
  preserves quiet (prepare_relaunch_entries stop ids acc).
Proof using Type.
  revert acc. induction ids as [|id ids IH]; intros acc; simpl; preserve.
  unfold prepare_relaunch_entry. preserve.
Qed.
#[local] Hint Resolve prepare_relaunch_entries_quiet : frame.
Lemma prepare_relaunch_quiet : preserves quiet prepare_relaunch.
Proof. unfold prepare_relaunch. preserve. Qed.
Lemma settle_record_quiet o b : preserves quiet (settle_record o b).
Proof using Type. unfold settle_record. preserve. Qed.
#[local] Hint Resolve settle_record_quiet : frame.
Lemma settle_entries_quiet names ids : preserves quiet (settle_entries names ids).
Proof using Type.
  revert ids. induction names as [|n names IH]; intros ids; simpl; preserve.
  unfold settle_entry. preserve.
Qed.
#[local] Hint Resolve settle_entries_quiet : frame.
Lemma settle_unresolved_quiet : preserves quiet settle_unresolved_recoveries.
Proof. unfold settle_unresolved_recoveries. preserve. Qed.
Lemma recover_quiet : preserves quiet recover.
Proof. unfold recover. preserve. Qed.
Lemma reconcile_quiet `{RequestHash} r : preserves quiet (reconcile_quiesced_operation r).
Proof. unfold reconcile_quiesced_operation. preserve. Qed.
Lemma reconcile_stop_quiet `{RequestHash} : preserves quiet reconcile_quiesced_stop.
Proof. unfold reconcile_quiesced_stop. preserve. Qed.
End dir.
#[export] Hint Resolve prepare_relaunch_quiet settle_unresolved_quiet recover_quiet
  reconcile_quiet reconcile_stop_quiet : frame.

(** ** Methods that dispatch *)

(** Handing over a cold, recorded operation that is not queued. *)
Lemma dispatch_keeps_inv k o :
  dispatch_inv k → recorded (k_store k) (so_id o) → cold k (so_id o) →
  pending_restart (k_adm k) ≠ Some (so_id o) →
  dispatch_inv (add_dispatch (dispatch_action_for o) k).
Proof.
  intros [R Q O] Hr Hc Hp. split; simpl.
  - intros id. rewrite exec_count_app, exec_count_single, exec_of_action.
    case_bool_decide; [by simplify_eq|]. rewrite Nat.add_0_r. apply R.
  - intros id Hid. destruct (Q id Hid) as [? [?|Hc']]; (split; [done|]); [by left|right]. simpl.
    rewrite exec_count_app, exec_count_single, exec_of_action, bool_decide_eq_false_2; [lia|].
    congruence.
  - intros id. rewrite exec_count_app, exec_count_single, exec_of_action.
    case_bool_decide; [|rewrite Nat.add_0_r; apply O].
    simplify_eq. destruct Hc as [?|Hc]; [by left|right; lia].
Qed.

Lemma load_try_mute {F} id : preserves (E := F) mute (mtry (on_store (load_operation id))).
Proof. preserve. Qed.

Lemma promote_queued_inv : preserves keeps_inv promote_queued.
Proof.
  intros k. unfold promote_queued. wp_steps.
  destruct (pending_restart (k_adm k)) as [id|] eqn:Hp; [|apply wp_ret; done].
  destruct (recovery_protection (k_adm k)); [apply wp_ret; done|].
  apply wp_bind. eapply wp_mono; [apply load_try_mute| |]; cbv beta.
  2: { intros e k1 Hm. by apply quiet_keeps_inv, mute_quiet. }
  intros loaded k1 Hm%mute_quiet.
  destruct (promotable loaded), (queued_input (k_adm k)) as [input|];
    try case_bool_decide as Hid;
    try solve [apply (preserves_from keeps_inv); [by apply quiet_keeps_inv|preserve]].
  wp_steps. eapply wp_mono; [apply emit_mute| |]; cbv beta; intros ? k2 Hm2.
  2: { intros Hinv. eapply quiet_keeps_inv; [|by eapply quiet_keeps_inv].
       destruct Hm2. split; [done|done|by left]. }
  wp_steps. intros Hinv. destruct (di_queue _ Hinv id Hp) as [Hr Hc].
  assert (quiet k k2) as Hq.
  { etrans; [exact Hm|]. destruct Hm2. split; [done|done|by left]. }
  apply dispatch_keeps_inv.
  - by eapply quiet_keeps_inv.
  - rewrite Hid. by eapply quiet_recorded.
  - rewrite Hid. by eapply quiet_cold.
  - destruct Hm2 as [_ _ Hm2]. simpl in Hm2. congruence.
Qed.
#[export] Hint Resolve promote_queued_inv : frame.

Lemma after_terminal_inv id o : preserves keeps_inv (after_terminal id o).
Proof. unfold after_terminal. preserve. Qed.
#[export] Hint Resolve after_terminal_inv : frame.
Lemma finish_inv id st e d : preserves keeps_inv (finish id st e d).
Proof. unfold finish. preserve. Qed.
Lemma write_terminal_locked_inv id st : preserves keeps_inv (write_terminal_locked id st).
Proof. unfold write_terminal_locked. preserve. Qed.
#[export] Hint Resolve write_terminal_locked_inv : frame.
Lemma commit_inv id : preserves keeps_inv (commit_execution id).
Proof. unfold commit_execution. preserve. Qed.
Lemma dispatch_pending_inv : preserves keeps_inv dispatch_pending_after_quiescence.
Proof. unfold dispatch_pending_after_quiescence. preserve. Qed.

(** ** Admission *)

Section admission_dispatch.
Context `{RequestHash, DirOrder}.

Lemma admit_holds_quiet r h n a : preserves quiet (admit_holds r h n a).
Proof. unfold admit_holds, reject. preserve. Qed.
Lemma admit_protection_quiet r : preserves quiet (admit_protection r).
Proof. unfold admit_protection, reject. preserve. Qed.
Lemma admit_busy_quiet b : preserves quiet (admit_busy b).
Proof. unfold admit_busy, backend, reject. preserve. Qed.
Lemma cancel_superseded_quiet o id : preserves quiet (cancel_superseded_source o id).
Proof. unfold cancel_superseded_source. preserve. Qed.
#[local] Hint Resolve admit_holds_quiet admit_protection_quiet admit_busy_quiet
  cancel_superseded_quiet : frame.

Lemma quiet_rest {E A} (m : M Kernel E A) k k1 id :
  quiet k k1 → recorded (k_store k1) id → preserves quiet m →
  wp m k1 (λ _ k', quiet k k' ∧ recorded (k_store k') id) (λ _ k', quiet k k').
Proof using Type.
  intros Hq Hr Hm. eapply wp_mono; [apply Hm| |]; intros ? k2 H2; [split|]; try by etrans.
  eapply quiet_recorded; [exact H2|done].
Qed.

Lemma admit_persist_recorded o r n k :
  wp (admit_persist o r n) k
    (λ _ k', quiet k k' ∧ recorded (k_store k') (so_id o)) (λ _ k', quiet k k').
Proof using Type.
  unfold admit_persist, backend. apply wp_bind, wp_map_err, wp_on_store.
  eapply wp_mono; [apply store_operation_recorded| |]; cbv beta.
  2: { intros e s1 Hs. by apply mute_quiet; split. }
  intros [] s1 [Hs Hr]. apply quiet_rest; [by apply mute_quiet; split|done|].
  preserve; apply preserves_mute_quiet, on_store_mute; case_match; preserve.
Qed.

(** What is known of the accepted operation when its slot is chosen. *)
Definition ready (k : Kernel) (id : string) : Prop :=
  dispatch_inv k ∧ recorded (k_store k) id ∧ cold k id.

Lemma ready_quiet k k' id : quiet k k' → ready k id → ready k' id.
Proof using Type.
  intros Hq (? & ? & ?). split_and!; [by eapply quiet_keeps_inv|by eapply quiet_recorded|by eapply quiet_cold].
Qed.

(** A rejection never returns normally. *)
Lemma reject_partial_quiet {A} (Q : A → Kernel → Prop) o r k k1 :
  quiet k k1 → dispatch_inv k →
  wp (reject_partial o r) k1 Q (λ _ k', dispatch_inv k').
Proof using Type.
  intros Hq Hk. assert (∀ k', quiet k1 k' → dispatch_inv k') as Hinv.
  { intros k' Hk'. eapply quiet_keeps_inv; [|exact Hk]. by etrans. }
  unfold reject_partial. wp_steps.
  eapply wp_mono; [apply hold_partial_mute| |]; cbv beta; intros ? k2 Hm%mute_quiet; wp_steps;
    apply Hinv; (etrans; [|exact Hm]); by split; [reflexivity| |right].
Qed.

Lemma place_stop_ready o k :
  ready k (so_id o) →
  wp (place_stop o) k
    (λ _ k', ready k' (so_id o) ∧ pending_restart (k_adm k') = None) (λ _ k', dispatch_inv k').
Proof using Type.
  intros Hk. unfold place_stop. wp_steps.
  destruct (pending_restart (k_adm k)) as [id|] eqn:Hp; wp_steps.
  2: { split; [|done]. eapply ready_quiet; [|exact Hk]. by split; [reflexivity| |right]. }
  eapply wp_mono; [apply write_terminal_mute| |]; cbv beta; intros ? k1 Hm; wp_steps.
  - destruct Hm as [? ? Hm]. split; [|exact Hm].
    eapply ready_quiet; [|exact Hk]. split; [done|done|left; exact Hm].
  - apply (reject_partial_quiet _ _ _ k); [|apply Hk].
    destruct Hm. split; [done|done|right; by rewrite Hp].
Qed.

Lemma wp_inv {E A} (m : M Kernel E A) k :
  dispatch_inv k → preserves keeps_inv m →
  wp m k (λ _ k', dispatch_inv k') (λ _ k', dispatch_inv k').
Proof using Type. intros Hk Hm. eapply wp_mono; [apply Hm| |]; intros ? k' Hk'; by apply Hk'. Qed.

Lemma place_queued_inv o b k :
  ready k (so_id o) →
  wp (place_queued o b) k (λ _ k', dispatch_inv k') (λ _ k', dispatch_inv k').
Proof using Type.
  intros Hk. unfold place_queued. apply wp_bind, wp_guard, wp_bind, wp_upd.
  set (k0 := set_adm (set_pending_restart (Some (so_id o))) k).
  assert (dispatch_inv k0) as Hk0.
  { destruct Hk as ([R Q O] & Hr & Hc). split; [done| |done]. intros id Hid. by simplify_eq/=. }
  destruct (pending_restart (k_adm k)) as [id|] eqn:Hp; [|apply wp_inv; [done|preserve]].
  apply wp_bind, wp_bind, wp_try.
  eapply wp_mono; [apply write_terminal_mute| |]; cbv beta; intros ? k1 Hm.
  - apply wp_ret. eapply wp_inv; [|preserve]. by eapply quiet_keeps_inv; [apply mute_quiet|].
  - apply wp_bind, wp_upd. apply (reject_partial_quiet _ _ _ k); [|apply Hk].
    destruct Hm. split; [done|done|right; by rewrite Hp].
Qed.

Lemma settle_for_admission_ready o k :
  ready k (so_id o) →
  wp settle_queued_restart_for_admission k
    (λ _ k', ready k' (so_id o) ∧ pending_restart (k_adm k') = None)
    (λ _ k', quiet k k').
Proof using Type.
  intros Hk. unfold settle_queued_restart_for_admission. wp_steps.
  destruct (pending_restart (k_adm k)) as [id|] eqn:Hp; wp_steps; [|by split].
  eapply wp_mono; [apply write_terminal_mute| |]; cbv beta; intros ? k1 Hm%mute_quiet; wp_steps;
    [|done].
  split; [|done]. eapply ready_quiet; [|exact Hk]. etrans; [exact Hm|].
  by split; [reflexivity| |left].
Qed.

Lemma place_active_ready o k :
  ready k (so_id o) →
  wp (place_active o) k
    (λ _ k', ready k' (so_id o) ∧ pending_restart (k_adm k') = None) (λ _ k', dispatch_inv k').
Proof using Type.
  intros Hk. unfold place_active. wp_steps.
  eapply wp_mono; [by apply settle_for_admission_ready| |]; cbv beta; wp_steps.
  - intros _ k1 [Hr Hp]. wp_steps. split; [|done].
    eapply ready_quiet; [|exact Hr]. by split; [reflexivity| |right].
  - intros e k1 Hq. eapply reject_partial_quiet; [exact Hq|apply Hk].
Qed.

Lemma admit_place_ready o b l k :
  ready k (so_id o) →
  wp (admit_place o b l) k
    (λ queued k', dispatch_inv k' ∧ (queued = false →
       ready k' (so_id o) ∧ pending_restart (k_adm k') = None))
    (λ _ k', dispatch_inv k').
Proof using Type.
  intros Hk. unfold admit_place. apply wp_bind, wp_guard.
  destruct b; [|case_match]; apply wp_bind; eapply wp_mono;
    try solve [by apply place_stop_ready|by apply place_queued_inv|by apply place_active_ready|done];
    intros ? k1 Hk1; apply wp_ret.
  all: by split; [apply Hk1|].
Qed.

Lemma wp_quiet_bind {E A B} (m : M Kernel E A) (f : A → M Kernel E B) k0 k Q X :
  quiet k0 k → preserves quiet m →
  (∀ a k', quiet k0 k' → wp (f a) k' Q X) →
  (∀ e k', quiet k0 k' → X e k') →
  wp (mbind' m f) k Q X.
Proof using Type.
  intros Hq Hm Hf HX. apply wp_bind.
  eapply wp_mono; [apply Hm| |]; intros ? k' H'; [apply Hf|apply HX]; by etrans.
Qed.

Lemma admit_fresh_inv request d h n a k :
  dispatch_inv k → cold k (rq_operation_id request) →
  wp (admit_fresh request d h n a) k (λ _ k', dispatch_inv k') (λ _ k', dispatch_inv k').
Proof.
  intros Hk Hc. unfold admit_fresh.
  assert (∀ k', quiet k k' → dispatch_inv k') as Hinv.
  { intros k' Hq. by eapply quiet_keeps_inv. }
  assert (quiet k k) as H0' by reflexivity.
  do 2 (eapply wp_quiet_bind; [eassumption|preserve|intros ???|auto]).
  eapply wp_quiet_bind; [eassumption|unfold backend; preserve|intros [dd revision] k3 H3'|auto].
  do 6 (eapply wp_quiet_bind; [eassumption|unfold reject; preserve|intros ???|auto]).
  apply wp_bind. eapply wp_mono; [apply admit_persist_recorded| |]; cbv beta.
  2: { intros e kp Hq. apply Hinv. by etrans. }
  intros _ kp [Hq Hr]. apply wp_bind.
  set (o := accepted_record _ _ _ _) in *.
  eapply wp_mono; [apply (admit_place_ready o)| |]; cbv beta; [|clear|auto].
  { assert (quiet k kp) as Hq' by by etrans. split_and!; [auto|done|by eapply quiet_cold]. }
  intros queued k1 [Hk1 Hready].
  apply wp_bind, wp_upd, wp_bind.
  eapply wp_mono; [apply emit_mute| |]; cbv beta; intros ? k2 Hm.
  all: assert (quiet k1 k2) as Hq by (apply mute_quiet; destruct Hm; by split).
  2: { by eapply quiet_keeps_inv. }
  apply wp_bind. destruct queued; wp_steps; [by eapply quiet_keeps_inv|].
  destruct (Hready eq_refl) as [Hr1 Hp1]. apply (ready_quiet _ _ _ Hq) in Hr1 as (? & ? & ?).
  apply dispatch_keeps_inv; try done. destruct Hm as [_ _ Hm]. simpl in Hm. congruence.
Qed.

Lemma admit_inv request h n a : preserves keeps_inv (admit_with_auxiliary_hold request h n a).
Proof.
  intros k. unfold admit_with_auxiliary_hold. wp_steps. case_match; [|done].
  unfold backend. wp_steps. eapply wp_mono; [apply load_operation_spec| |].
  2: { intros e s1 Hs%same_ops_accrues. by apply quiet_keeps_inv, mute_quiet; split. }
  intros existing s1 [Hs Hl]. apply same_ops_accrues in Hs.
  assert (quiet k (set_store s1 k)) as Hq by by apply mute_quiet; split.
  destruct existing as [o|].
  { apply (preserves_from keeps_inv); [by apply quiet_keeps_inv|unfold reject; preserve]. }
  unfold wp. intros. pose proof (admit_fresh_inv request a0 h n a (set_store s1 k)) as Hf.
  unfold wp in Hf. unfold keeps_inv. destruct (admit_fresh _ _ _ _ _ _) as [[] k'];
  intros Hk; (apply Hf; [by eapply quiet_keeps_inv|]); (eapply quiet_cold; [exact Hq|]);
  destruct (decide (exec_count (rq_operation_id request) (k_dispatched k) = 0)) as [|Hne];
    try (by right);
  (left; destruct (di_recorded _ Hk (rq_operation_id request)) as [[f Hf']|Hqr]; [lia| |done]);
  by rewrite Hl in Hf'.
Qed.
End admission_dispatch.

Section once.
Context `{RequestHash, DirOrder}.

Lemma run_op_inv op k : keeps_inv k (run_op op k).
Proof.
  destruct op; simpl; try (by intros [R Q O]; split); apply preserves_run;
    try solve [apply preserves_quiet_inv; eauto 2 with frame].
  - apply admit_inv.
  - apply finish_inv.
  - apply commit_inv.
  - apply dispatch_pending_inv.
Qed.

Lemma run_inv st identity ops : dispatch_inv (run ops (kernel_new st identity [])).
Proof.
  apply (run_preorder keeps_inv run_op_inv). split; simpl; [|done|].
  - intros id Hid. by apply Nat.lt_irrefl in Hid.
  - intros id. right. unfold exec_count. simpl. lia.
Qed.

(** C8: At-most-once execution.  From any state root, over any sequence of
    admissions, completions, cancellations, session ends, process
    replacements and I/O failures, an operation id is handed to the
    execution loop at most once, unless the startup scan moved its record to
    quarantine. *)
Theorem executes_at_most_once st identity ops id :
  let k := run ops (kernel_new st identity []) in
  ¬ quarantined (k_store k) id → exec_count id (k_dispatched k) ≤ 1.
Proof. intros k Hq. by destruct (di_once _ (run_inv st identity ops) id). Qed.

(** Nothing runs without a durable record.  Whatever was handed to the
    execution loop has its record in the state root, or in quarantine, so a
    later owner can find and settle it. *)
Theorem dispatched_is_durable st identity ops id :
  let k := run ops (kernel_new st identity []) in
  0 < exec_count id (k_dispatched k) → recorded (k_store k) id.
Proof. intros k. apply (di_recorded _ (run_inv st identity ops)). Qed.
End once.

(** ** Instances *)

(** A start runs while a restart waits; the restart is dispatched when the
    start fails, once, also after a crash. *)
Definition queued_run : list KOp :=
  [sample_admit "op-1" Start 0; sample_admit "op-2" Restart 0; DoFinish "op-1" Failed None None;
   DoRestart sample_identity; DoRecover; sample_admit "op-2" Restart 0].

Lemma executes_at_most_once_witness :
  exec_count "op-2" (k_dispatched (sample_run queued_run)) = 1
  ∧ exec_count "op-2" (k_dispatched (sample_run queued_run)) ≤ 1.
Proof.
  split; [vm_compute; reflexivity|].
  apply (@executes_at_most_once sample_hash sample_dir sample_store sample_identity queued_run "op-2").
  unfold quarantined.
  replace (quarantined_ops _) with (@nil (string * OpFile)) by (vm_compute; reflexivity).
  apply not_elem_of_nil.
Defined.

Lemma dispatched_is_durable_witness : recorded (k_store (sample_run queued_run)) "op-2".
Proof.
  apply (@dispatched_is_durable sample_hash sample_dir sample_store sample_identity queued_run "op-2").
  replace (exec_count _ _) with 1 by (vm_compute; reflexivity). lia.
Defined.
