(* ===== verification/KernelRevision.v ===== *)
(** * Revisions and the commit barrier

    The desired-state revision never goes back, a Stop moves it on, and an
    execution commits only under the revision it was admitted at: once a Stop
    is accepted, nothing admitted before it can commit. *)
From S2P Require Import Prelude Validation RuntimeControl RuntimeStore RuntimeKernel KernelFrame KernelSamples.
Import Err.
Local Open Scope rust_scope.

(** What [load_desired] reads when the call itself succeeds. *)
Definition current_desired (s : Store) : DesiredState * Z :=
  match desired_json s with
  | DAbsent => default (Running, 0%Z) (legacy_desired s)
  | DObject (Some d) (Some r) _ => (d, r)
  | _ => (Stopped, 0%Z)
  end.
Definition current_revision (s : Store) : Z := (current_desired s).2.

(** The file decodes, or is not there yet. *)
Definition wf_desired (s : Store) : Prop :=
  match desired_json s with
  | DAbsent | DObject (Some _) (Some _) _ => True
  | _ => False
  end.

Definition same_desired (s s' : Store) : Prop :=
  desired_json s' = desired_json s ∧ legacy_desired s' = legacy_desired s.
Definition rev_le (s s' : Store) : Prop :=
  wf_desired s → wf_desired s' ∧ (current_revision s ≤ current_revision s')%Z.

#[export] Instance same_desired_preorder : PreOrder same_desired.
Proof. split; [by intros s|]. intros s1 s2 s3 [] []. split; congruence. Qed.
#[export] Instance rev_le_preorder : PreOrder rev_le.
Proof.
  split; [intros s W; split; [done|lia]|].
  intros s1 s2 s3 H1 H2 W. destruct (H1 W) as [W2 ?]. destruct (H2 W2). split; [done|lia].
Qed.

Lemma same_desired_current s s' : same_desired s s' → current_desired s' = current_desired s.
Proof. intros [Hd Hl]. unfold current_desired. by rewrite Hd, Hl. Qed.
Lemma same_desired_le s s' : same_desired s s' → rev_le s s'.
Proof.
  intros Hs W. unfold current_revision. rewrite (same_desired_current _ _ Hs).
  split; [|lia]. destruct Hs as [Hd _]. unfold wf_desired. by rewrite Hd.
Qed.

Lemma preserves_same_desired {E A} (m : M Store E A) :
  preserves same_desired m → preserves rev_le m.
Proof. intros Hm s. eapply wp_mono; [apply Hm| |]; intros; by apply same_desired_le. Qed.
#[export] Hint Extern 3 (preserves rev_le _) =>
  apply preserves_same_desired; solve [eauto 3 with frame] : frame.

(** ** Calls that leave the desired state alone *)

Lemma next_io_sd : preserves same_desired next_io.
Proof. intros s. unfold wp, next_io. by destruct (io s). Qed.
Lemma is_file_visible_sd : preserves same_desired is_file_visible.
Proof. intros s. unfold wp, is_file_visible. by destruct (stat_faults s). Qed.
#[export] Hint Resolve next_io_sd is_file_visible_sd : frame.
Lemma modify_sd {E} (f : Store → Store) :
  (∀ s, same_desired s (f s)) → preserves (E := E) same_desired (mmodify f).
Proof. intros Hf. apply preserves_modify; [apply _|done]. Qed.
#[export] Hint Extern 2 (preserves same_desired (mmodify _)) =>
  apply modify_sd; intros; split; reflexivity : frame.
Lemma io_call_sd ctx : preserves same_desired (io_call ctx).
Proof. unfold io_call. preserve. Qed.
#[export] Hint Resolve io_call_sd : frame.
Lemma write_json_attempts_sd n last f :
  (∀ s, same_desired s (f s)) → preserves same_desired (write_json_attempts n last f).
Proof.
  intros Hf. revert last. induction n as [|n IH]; intros last; simpl; preserve;
    try solve [done | by apply modify_sd].
Qed.
Lemma write_json_sd f : (∀ s, same_desired s (f s)) → preserves same_desired (write_json f).
Proof. intros Hf. unfold write_json. preserve; by apply write_json_attempts_sd. Qed.
Lemma store_operation_sd op : preserves same_desired (store_operation op).
Proof.
  unfold store_operation. generalize "private operation persist retries exhausted".
  generalize 5. intros n. induction n as [|n IH]; intros last; simpl; preserve; done.
Qed.
Lemma load_operation_sd id : preserves same_desired (load_operation id).
Proof. unfold load_operation. preserve. Qed.
Lemma load_desired_sd : preserves same_desired load_desired.
Proof. unfold load_desired. preserve. Qed.
Lemma desired_object_sd : preserves same_desired desired_object.
Proof. unfold desired_object. preserve. Qed.
Lemma quarantine_io_sd p : preserves same_desired (quarantine_io p).
Proof. unfold quarantine_io. preserve. Qed.
Lemma store_cancellation_sd o : preserves same_desired (store_cancellation o).
Proof. unfold store_cancellation. by apply write_json_sd. Qed.
Lemma cancellation_recorded_sd o : preserves same_desired (cancellation_recorded o).
Proof. unfold cancellation_recorded. preserve. Qed.
Lemma append_event_sd e : preserves same_desired (append_event e).
Proof. unfold append_event. preserve. Qed.
Lemma replay_events_sd id n : preserves same_desired (replay_events id n).
Proof. unfold replay_events. preserve. Qed.
Lemma unresolved_scan_sd live names : preserves same_desired (unresolved_scan live names).
Proof. induction names; simpl; preserve; done. Qed.
Lemma find_quiesced_stop_sd `{RequestHash} i r names c :
  preserves same_desired (find_quiesced_stop i r names c).
Proof. revert c. induction names; intros c; simpl; preserve; done. Qed.
#[export] Hint Resolve store_operation_sd load_operation_sd load_desired_sd desired_object_sd
  quarantine_io_sd store_cancellation_sd cancellation_recorded_sd append_event_sd
  replay_events_sd unresolved_scan_sd find_quiesced_stop_sd : frame.
Lemma quarantine_op_sd name : preserves same_desired (quarantine_op name).
Proof. unfold quarantine_op. preserve. Qed.
#[export] Hint Resolve quarantine_op_sd : frame.
Lemma report_unreadable_sd n sc : preserves same_desired (report_unreadable_record n sc).
Proof. unfold report_unreadable_record. preserve. Qed.
#[export] Hint Resolve report_unreadable_sd : frame.
Lemma recover_entries_sd live ns sc : preserves same_desired (recover_entries live ns sc).
Proof.
  revert sc. induction ns; intros sc; simpl; preserve. unfold recover_entry. preserve.
Qed.
#[export] Hint Resolve recover_entries_sd : frame.
Lemma recover_unfinished_sd `{DirOrder} live :
  preserves same_desired (recover_unfinished_operations live).
Proof. unfold recover_unfinished_operations. preserve. Qed.
Lemma settle_interrupted_sd o : preserves same_desired (settle_interrupted_operation o).
Proof. unfold settle_interrupted_operation. preserve. Qed.
#[export] Hint Resolve recover_unfinished_sd settle_interrupted_sd : frame.

(** ** Calls that write it *)

Lemma write_json_attempts_cases f n last s :
  wp (write_json_attempts n last f) s
    (λ _ s', ∃ s1, same_desired s s1 ∧ s' = f s1) (λ _ s', same_desired s s').
Proof.
  revert last s. induction n as [|n IH]; intros last s; simpl; [apply wp_fail; reflexivity|].
  apply wp_bind. eapply wp_mono; [apply next_io_sd| |done]. intros o s1 H1.
  destruct o as [|msg [] landed]; [apply wp_modify; eauto| |by apply wp_fail].
  eapply wp_mono; [apply IH| |]; [intros ? s' (s2 & ? & ->); exists s2; split; [by etrans|done]|].
  intros ? s' ?. by etrans.
Qed.

(** [write_json] either wrote, or left everything as it was. *)
Lemma write_json_cases f s :
  wp (write_json f) s (λ _ s', ∃ s1, same_desired s s1 ∧ s' = f s1) (λ _ s', same_desired s s').
Proof.
  unfold write_json. apply wp_bind. eapply wp_mono; [apply io_call_sd| |done]. intros ? s1 H1.
  eapply wp_mono; [apply write_json_attempts_cases| |];
    [intros ? s' (s2 & ? & ->); exists s2; split; [by trans s1|done]|].
  intros ? s' ?. by trans s1.
Qed.

Lemma store_desired_cases d r s :
  wp (store_desired d r) s
    (λ _ s', wf_desired s' ∧ current_desired s' = (d, r)) (λ _ s', same_desired s s').
Proof.
  unfold store_desired. apply wp_bind. eapply wp_mono; [apply desired_object_sd| |done].
  intros boot s1 H1. eapply wp_mono; [apply write_json_cases| |]; cbv beta.
  - by intros _ s' (s2 & ? & ->).
  - intros ? s' Hs. etrans; [exact H1|exact Hs].
Qed.

Lemma load_desired_current s :
  wp load_desired s (λ r s', same_desired s s' ∧ r = current_desired s) (λ _ s', same_desired s s').
Proof.
  unfold load_desired, current_desired. wp_steps.
  eapply wp_mono; [apply io_call_sd| |done]. intros [] s1 Hs. cbv beta.
  repeat case_match; apply wp_ret; auto.
Qed.

Lemma wp_total {S E A} (m : M S E A) s (P : Prop) : P → wp m s (λ _ _, P) (λ _ _, P).
Proof. intros HP. unfold wp. by destruct (m s) as [[] ?]. Qed.

Lemma io_call_rev ctx : preserves rev_le (io_call ctx).
Proof. preserve. Qed.

(** Only a damaged file is ever reset. *)
Lemma repair_desired_rev : preserves rev_le repair_desired_after_quiescence.
Proof.
  intros s. unfold repair_desired_after_quiescence. wp_steps.
  destruct (desired_json s) as [| | |[] [] b] eqn:Hd; try apply io_call_rev;
    (eapply wp_mono; [apply (wp_total _ _ (¬ wf_desired s))|done|done]);
    unfold wf_desired; rewrite Hd; tauto.
Qed.
#[export] Hint Resolve repair_desired_rev : frame.

Lemma consume_management_boot_rev b : preserves rev_le (consume_management_boot b).
Proof.
  intros s. unfold consume_management_boot. apply wp_bind, wp_lift.
  case_match; [|reflexivity]. apply wp_bind, wp_get, wp_bind.
  eapply wp_mono; [apply io_call_sd| |]; cbv beta; [|intros; by apply same_desired_le].
  intros [] s1 H1. set (m := match desired_json s with DAbsent => _ | _ => _ end).
  assert (preserves same_desired m) as Hm by (subst m; preserve).
  apply wp_bind. eapply wp_mono; [apply Hm| |]; cbv beta;
    [|intros ? s' Hs; apply same_desired_le; by trans s1].
  intros boot s2 H2. case_match; [apply wp_ret, same_desired_le; by trans s1|].
  apply wp_bind. eapply wp_mono; [apply load_desired_current| |]; cbv beta;
    [|intros ? s' Hs; apply same_desired_le; trans s1; [done|]; by trans s2].
  intros [d r] s3 [H3 Hcur].
  assert (same_desired s s3) as Hs3 by (trans s1; [done|]; by trans s2).
  assert (∀ s', same_desired s3 s' → rev_le s s') as Hsd.
  { intros s' Hs'. apply same_desired_le. by trans s3. }
  assert (current_revision s = r) as Hrev.
  { unfold current_revision. rewrite <- (same_desired_current s s2) by by trans s1. by rewrite <- Hcur. }
  apply wp_bind. eapply (wp_mono _ _ (λ r' s', s' = s3 ∧ (r ≤ r')%Z) _ (λ _ s', s' = s3)).
  { case_bool_decide; [apply wp_ok_or|by apply wp_ret].
    destruct (u64_checked_succ r) eqn:Hr; [|done]. apply u64_checked_succ_Some in Hr. split; [done|lia]. }
  2: { intros _ s' ->. by apply Hsd. }
  intros r' s' [-> Hr']. apply wp_bind, wp_ensure. case_match; [|by apply Hsd].
  apply wp_bind. eapply wp_mono; [apply write_json_cases| |]; cbv beta; [|by intros ? s' ?; apply Hsd].
  intros _ s' (s4 & ? & ->). apply wp_ret. intros _. split; [done|].
  unfold current_revision at 2. simpl. lia.
Qed.
#[export] Hint Resolve consume_management_boot_rev : frame.

(** ** Kernel methods *)

Abbreviation k_sd := (lift_rel same_desired).
Abbreviation k_rev := (lift_rel rev_le).

Lemma preserves_sd_rev {E A} (m : M Kernel E A) : preserves k_sd m → preserves k_rev m.
Proof. intros Hm s. eapply wp_mono; [apply Hm| |]; intros; by apply same_desired_le. Qed.
#[export] Hint Extern 5 (preserves k_rev _) => apply preserves_sd_rev : frame.

Lemma emit_with_payload_sd {E} id st sv n p :
  preserves (E := E) k_sd (emit_with_payload id st sv n p).
Proof. unfold emit_with_payload. preserve. Qed.
#[export] Hint Resolve emit_with_payload_sd : frame.
Lemma emit_sd {E} id st sv n : preserves (E := E) k_sd (emit id st sv n).
Proof. unfold emit. preserve. Qed.
Lemma emit_terminal_sd {E} o : preserves (E := E) k_sd (emit_terminal_record o).
Proof. unfold emit_terminal_record. preserve. Qed.
#[export] Hint Resolve emit_sd emit_terminal_sd : frame.
Lemma write_terminal_sd id st e d : preserves k_sd (write_terminal id st e d).
Proof. unfold write_terminal. preserve. Qed.
#[export] Hint Resolve write_terminal_sd : frame.
Lemma promote_queued_sd : preserves k_sd promote_queued.
Proof. unfold promote_queued. preserve. Qed.
Lemma settle_queued_sd r : preserves k_sd (settle_queued_restart_on_terminal_failure r).
Proof. unfold settle_queued_restart_on_terminal_failure. preserve. Qed.
Lemma settle_queued_for_admission_sd : preserves k_sd settle_queued_restart_for_admission.
Proof. unfold settle_queued_restart_for_admission. preserve. Qed.
#[export] Hint Resolve promote_queued_sd settle_queued_sd settle_queued_for_admission_sd : frame.
Lemma after_terminal_sd id o : preserves k_sd (after_terminal id o).
Proof. unfold after_terminal. preserve. Qed.
#[export] Hint Resolve after_terminal_sd : frame.
Lemma finish_sd id st e d : preserves k_sd (finish id st e d).
Proof. unfold finish. preserve. Qed.
Lemma write_terminal_locked_sd id st : preserves k_sd (write_terminal_locked id st).
Proof. unfold write_terminal_locked. preserve. Qed.
#[export] Hint Resolve finish_sd write_terminal_locked_sd : frame.
Lemma commit_execution_sd id : preserves k_sd (commit_execution id).
Proof. unfold commit_execution. preserve. Qed.
Lemma request_cancel_sd id : preserves k_sd (request_cancel id).
Proof. unfold request_cancel. preserve. Qed.
Lemma mark_execution_consumed_sd id : preserves k_sd (mark_execution_consumed id).
Proof. unfold mark_execution_consumed. preserve. Qed.
Lemma note_session_ended_sd b : preserves k_sd (note_execution_session_ended b).
Proof. unfold note_execution_session_ended. preserve. Qed.
Lemma dispatch_pending_sd : preserves k_sd dispatch_pending_after_quiescence.
Proof. unfold dispatch_pending_after_quiescence. preserve. Qed.
Lemma foreground_exit_sd `{RequestHash} id : preserves k_sd (begin_foreground_failure_exit id).
Proof. unfold begin_foreground_failure_exit. preserve. Qed.
Lemma append_orchestration_event_sd {E} id st sv n p :
  preserves (E := E) k_sd (append_orchestration_event id st sv n p).
Proof. unfold append_orchestration_event. preserve. Qed.
Lemma recover_cancellation_sd id : preserves k_sd (recover_cancellation id).
Proof. unfold recover_cancellation. preserve. Qed.
Lemma hold_partial_sd o r : preserves k_sd (hold_partial_admission o r).
Proof. unfold hold_partial_admission. preserve. Qed.
#[export] Hint Resolve commit_execution_sd request_cancel_sd mark_execution_consumed_sd
  note_session_ended_sd dispatch_pending_sd foreground_exit_sd append_orchestration_event_sd
  recover_cancellation_sd hold_partial_sd : frame.
Lemma reject_partial_sd {A} o r : preserves (A := A) k_sd (reject_partial o r).
Proof. unfold reject_partial. preserve. Qed.
#[export] Hint Resolve reject_partial_sd : frame.

Section dir.
Context `{DirOrder}.

Lemma refresh_sd {E} : preserves (E := E) k_sd refresh_recovery_protection.
Proof. unfold refresh_recovery_protection. preserve. Qed.
#[local] Hint Resolve refresh_sd : frame.
Lemma prepare_relaunch_entries_sd stop ids acc :
  preserves k_sd (prepare_relaunch_entries stop ids acc).
Proof using Type.
  revert acc. induction ids as [|id ids IH]; intros acc; simpl; preserve.
  unfold prepare_relaunch_entry. preserve.
Qed.
#[local] Hint Resolve prepare_relaunch_entries_sd : frame.
Lemma prepare_relaunch_sd : preserves k_sd prepare_relaunch.
Proof. unfold prepare_relaunch. preserve. Qed.
Lemma settle_entries_sd names ids : preserves k_sd (settle_entries names ids).
Proof using Type.
  revert ids. induction names as [|n names IH]; intros ids; simpl; preserve.
  unfold settle_entry, settle_record. preserve.
Qed.
#[local] Hint Resolve settle_entries_sd : frame.
Lemma settle_unresolved_sd : preserves k_sd settle_unresolved_recoveries.
Proof. unfold settle_unresolved_recoveries. preserve. Qed.
Lemma recover_rev : preserves k_rev recover.
Proof. unfold recover. preserve. Qed.
Lemma reconcile_sd `{RequestHash} r : preserves k_sd (reconcile_quiesced_operation r).
Proof. unfold reconcile_quiesced_operation. preserve. Qed.
Lemma reconcile_stop_sd `{RequestHash} : preserves k_sd reconcile_quiesced_stop.
Proof. unfold reconcile_quiesced_stop. preserve. Qed.
End dir.
#[export] Hint Resolve prepare_relaunch_sd settle_unresolved_sd recover_rev
  reconcile_sd reconcile_stop_sd : frame.

(** Store the revision after the one just read. *)
Lemma ensure_stopped_rev : preserves k_rev ensure_stopped_if_idle.
Proof.
  intros k. unfold ensure_stopped_if_idle. wp_steps. case_match; [apply wp_ret; reflexivity|].
  wp_steps. eapply wp_mono; [apply load_desired_current| |]; cbv beta;
    [|intros; by apply same_desired_le].
  intros [d r] s1 [Hs Hr]. apply same_desired_le in Hs as Hle. case_match; [by apply wp_ret|].
  wp_steps. destruct (u64_checked_succ r) as [r'|] eqn:Hsucc; [|done].
  apply u64_checked_succ_Some in Hsucc. wp_steps.
  eapply wp_mono; [apply store_desired_cases| |]; cbv beta; intros ? s2 H2; wp_steps.
  - intros _. destruct H2 as [W2 Hc2]. split; [done|]. unfold current_revision. simpl.
    rewrite Hc2, <- Hr. simpl. lia.
  - apply same_desired_le. by trans s1.
Qed.

(** ** Admission *)

Section admission_revision.
Context `{RequestHash, DirOrder}.

Lemma admit_holds_sd r h n a : preserves k_sd (admit_holds r h n a).
Proof. unfold admit_holds, reject. preserve. Qed.
Lemma admit_protection_sd r : preserves k_sd (admit_protection r).
Proof. unfold admit_protection, reject. preserve. Qed.
Lemma admit_busy_sd b : preserves k_sd (admit_busy b).
Proof. unfold admit_busy, backend, reject. preserve. Qed.
Lemma cancel_superseded_sd o id : preserves k_sd (cancel_superseded_source o id).
Proof. unfold cancel_superseded_source. preserve. Qed.
#[local] Hint Resolve admit_holds_sd admit_protection_sd admit_busy_sd cancel_superseded_sd : frame.
Lemma admit_place_sd o b l : preserves k_sd (admit_place o b l).
Proof. unfold admit_place, place_stop, place_queued, place_active. preserve. Qed.
#[local] Hint Resolve admit_place_sd : frame.

(** The intent an accepted request leaves behind. *)
Definition intent (request : RuntimeOperationRequest) (revision : Z) : DesiredState * Z :=
  if bool_decide (rq_kind request = Stop) then (Stopped, revision + 1)%Z else (Running, revision).

Lemma admit_persist_intent o r n k :
  n = (intent (so_request o) r).2 →
  (current_revision (k_store k) ≤ r)%Z →
  wp (admit_persist o r n) k
    (λ _ k', k_rev k k' ∧ wf_desired (k_store k')
             ∧ current_desired (k_store k') = intent (so_request o) r)
    (λ _ k', k_rev k k').
Proof using Type.
  intros -> Hle. unfold admit_persist, backend. wp_steps.
  eapply wp_mono; [apply store_operation_sd| |]; cbv beta; [|intros; by apply same_desired_le].
  intros [] s1 H1. wp_steps.
  set (m := if bool_decide _ then _ else _).
  assert (wp m s1 (λ _ s', wf_desired s' ∧ current_desired s' = intent (so_request o) r)
            (λ _ s', same_desired s1 s')) as Hm.
  { subst m. unfold intent. case_bool_decide; apply store_desired_cases. }
  eapply wp_mono; [exact Hm| |]; cbv beta; intros ? s2 H2; wp_steps.
  - destruct H2 as [W2 Hc]. split; [|done]. intros _. split; [done|].
    unfold current_revision at 2. simpl. rewrite Hc. unfold intent. case_bool_decide; simpl; lia.
  - apply (wp_reject_partial k_sd); [preserve|]. intros e' k' Hk'. apply same_desired_le.
    trans s1; [done|]. by trans s2.
Qed.

Lemma wp_sd_bind {E A B} (m : M Kernel E A) (f : A → M Kernel E B) k0 k Q X :
  k_sd k0 k → preserves k_sd m →
  (∀ a k', k_sd k0 k' → wp (f a) k' Q X) →
  (∀ e k', k_sd k0 k' → X e k') →
  wp (mbind' m f) k Q X.
Proof using Type.
  intros Hq Hm Hf HX. apply wp_bind.
  eapply wp_mono; [apply Hm| |]; intros ? k' H'; [apply Hf|apply HX]; by etrans.
Qed.

(** The outcome of a fresh admission, as the caller and the disk see it. *)
Definition accepted_as (request : RuntimeOperationRequest) (digest : string) (k k' : Kernel)
    (out : AdmissionOutcome) : Prop :=
  rq_expected_revision request = current_revision (k_store k)
  ∧ wf_desired (k_store k')
  ∧ current_desired (k_store k') = intent request (current_revision (k_store k))
  ∧ ∃ k0, out = OutAccepted (so_view (accepted_record (k_identity k0) request digest
                                        (current_revision (k_store k)))).

Lemma admit_fresh_intent request d h n a k :
  wp (admit_fresh request d h n a) k
    (λ out k', k_rev k k' ∧ accepted_as request d k k' out) (λ _ k', k_rev k k').
Proof.
  unfold admit_fresh.
  assert (∀ k', k_sd k k' → k_rev k k') as Hsd by (intros; by apply same_desired_le).
  assert (k_sd k k) as H0' by reflexivity.
  do 2 (eapply wp_sd_bind; [eassumption|preserve|intros ???|auto]).
  match goal with Hs : k_sd k ?kk |- wp _ ?kk _ _ => rename Hs into Hk2 end.
  apply wp_bind, wp_map_err, wp_on_store.
  eapply wp_mono; [apply load_desired_current| |]; cbv beta;
    [|intros ? s1 Hs1; apply Hsd; etrans; [eassumption|exact Hs1]].
  intros [dd revision] s1 [Hs1 Hcur].
  match goal with |- wp _ ?kk _ _ => assert (k_sd k kk) as H1' by (etrans; [eassumption|exact Hs1]) end.
  assert (revision = current_revision (k_store k)) as ->.
  { unfold current_revision. rewrite <- (same_desired_current _ _ Hk2). by rewrite <- Hcur. }
  do 2 (eapply wp_sd_bind; [eassumption|unfold reject; preserve|intros ???|auto]).
  apply wp_bind, wp_ensure. destruct (_ =? _)%Z eqn:Hexp; [|by apply Hsd].
  apply Z.eqb_eq in Hexp. apply wp_bind.
  match goal with |- wp _ ?kk _ _ =>
    eapply (wp_mono _ _ (λ nr s', s' = kk ∧ nr = (intent request (current_revision (k_store k))).2)
              _ (λ _ s', s' = kk)) end.
  { unfold intent. case_bool_decide; [apply wp_ok_or|by apply wp_ret].
    destruct (u64_checked_succ _) eqn:Hr; [|done]. apply u64_checked_succ_Some in Hr. by subst. }
  2: { intros _ s' ->. by apply Hsd. }
  intros nr s' [-> Hnr].
  do 2 (eapply wp_sd_bind; [eassumption|preserve|intros ???|auto]).
  apply wp_bind. eapply wp_mono; [apply admit_persist_intent; [exact Hnr|]| |]; cbv beta.
  { match goal with Hs : k_sd k ?kk |- (current_revision (k_store ?kk) ≤ _)%Z =>
      unfold current_revision; rewrite (same_desired_current _ _ Hs); lia end. }
  2: { intros e kp Hp. etrans; [by apply Hsd|exact Hp]. }
  intros _ kp (Hrev & Hwf & Hint).
  assert (k_rev k kp) as Hkp by (etrans; [by apply Hsd|exact Hrev]).
  assert (∀ k', k_sd kp k' → k_rev k k') as Hsd'.
  { intros kq Hkq. etrans; [exact Hkp|by apply same_desired_le]. }
  assert (k_sd kp kp) as H0'' by reflexivity.
  do 4 (eapply wp_sd_bind; [eassumption|preserve|intros ???|auto]).
  apply wp_ret. split; [auto|].
  split_and!; [done|by apply (same_desired_le (k_store kp))| |by eexists].
  match goal with Hs : k_sd kp ?kk |- current_desired (k_store ?kk) = _ =>
    by rewrite (same_desired_current _ _ Hs) end.
Qed.

Lemma admit_intent request h n a k :
  wp (admit_with_auxiliary_hold request h n a) k
    (λ out k', k_rev k k' ∧ (accepted_as request (runtime_request_digest request) k k' out
                             ∨ ∃ v, out = OutReplayed v))
    (λ _ k', k_rev k k').
Proof.
  unfold admit_with_auxiliary_hold. apply wp_bind, wp_get, wp_bind, wp_lift.
  destruct (admit_precheck _ _) as [digest|] eqn:Hpre; [|reflexivity].
  assert (digest = runtime_request_digest request) as ->.
  { unfold admit_precheck, result_bind, ensure in Hpre. repeat case_match; by simplify_eq. }
  unfold backend. apply wp_bind, wp_map_err, wp_on_store.
  eapply wp_mono; [apply load_operation_sd| |]; cbv beta; [|intros; by apply same_desired_le].
  intros existing s1 Hs.
  assert (k_rev k (set_store s1 k)) as Hle by by apply same_desired_le.
  destruct existing as [o|].
  { case_match; [apply wp_ret; split; [done|eauto]|by apply wp_fail]. }
  eapply wp_mono; [apply admit_fresh_intent| |]; cbv beta.
  - intros out k' [Hr Hacc]. split; [etrans; [exact Hle|exact Hr]|left].
    unfold accepted_as, current_revision in *. simpl in Hacc.
    by rewrite (same_desired_current _ _ Hs) in Hacc.
  - intros e k' Hr. etrans; [exact Hle|exact Hr].
Qed.

Lemma run_op_rev op k : k_rev k (run_op op k).
Proof.
  destruct op; simpl; try (change (rev_le (k_store k) (k_store k)); reflexivity);
    apply (preserves_run k_rev); try solve [apply preserves_sd_rev; eauto 2 with frame].
  - intros k'. eapply wp_mono; [apply admit_intent| |done]. by intros ?? [? _].
  - apply ensure_stopped_rev.
  - apply recover_rev.
  - apply preserves_on_store. eauto with frame.
Qed.

Lemma run_rev ops k : k_rev k (run ops k).
Proof. apply run_preorder; [apply _|apply run_op_rev]. Qed.
End admission_revision.

(** ** The commit barrier *)

Lemma commit_spec id k :
  wp (commit_execution id) k
    (λ out k', out = Committed →
       active_operation_id (k_adm k) = Some id ∧ (id ∉ k_cancelled k) ∧
       ∃ o, operations (k_store k) !! id = Some (OpRec o)
         ∧ v_revision (so_view o) = current_revision (k_store k)
         ∧ (settled (so_state o) = false → so_id o = id →
            operations (k_store k') !! id = Some (OpRec (with_detail None (with_state Succeeded o)))))
    (λ _ _, True).
Proof.
  unfold commit_execution. apply wp_bind, wp_guard.
  destruct (opt_is _ _) eqn:Hact; simpl; [|by apply wp_ret]. apply opt_is_true in Hact.
  apply wp_bind, wp_get. destruct (is_cancelled k id) eqn:Hcan; [by apply wp_ret|].
  apply bool_decide_eq_false in Hcan. apply wp_bind, wp_on_store.
  assert (wp load_desired (k_store k) (λ r s', (r.2 = current_revision (k_store k))
    ∧ same_ops (k_store k) s') (λ _ _, True)) as Hld.
  { unfold wp. pose proof (load_desired_current (k_store k)) as H1.
    pose proof (load_desired_same (k_store k)) as H2. unfold wp in H1, H2.
    destruct (load_desired _) as [[r|e] s']; [|done]. destruct H1 as [_ ->]. done. }
  eapply wp_mono; [exact Hld| |done]. intros [d r] s1 [Hr Hs1]. simpl in Hr. subst r.
  apply wp_bind, wp_on_store. eapply wp_mono; [apply load_operation_spec| |done].
  intros [o|] s2 [Hs2 Hl]; apply wp_bind, wp_ok_or; [|done].
  destruct (_ =? _)%Z eqn:Hrev; simpl; [apply Z.eqb_eq in Hrev|by apply wp_ret].
  apply wp_bind. unfold write_terminal_locked. apply wp_bind.
  eapply wp_mono; [apply write_terminal_exact| |done]. intros o' k3 (o0 & Ho0 & Hw).
  destruct Hs1 as [Hs1 _], Hs2 as [Hs2 _]. simpl in Ho0, Hl, Hs2, Hs1.
  rewrite Hs2, Hl in Ho0. simpl in Ho0. simplify_eq.
  destruct (settled (so_state o0)) eqn:Hset.
  { eapply wp_mono; [apply (wp_total _ _ True); done| |done]. intros _ k4 _. apply wp_ret.
    intros _. split_and!; [done|done|]. exists o0. rewrite <- Hs1. split_and!; [done|done|congruence]. }
  destruct Hw as [-> [Hp _]].
  eapply wp_mono; [apply after_terminal_same; by rewrite terminal_record_state| |done].
  intros u k4 [Hk4 _]. apply wp_ret. intros _. split_and!; [done|done|].
  exists o0. rewrite <- Hs1. split_and!; [done|done|]. intros _ Hid. rewrite Hk4, Hp.
  rewrite terminal_record_id. rewrite Hid. apply lookup_insert_eq.
Qed.

Section theorems.
Context `{RequestHash, DirOrder}.

(** C9: The revision never goes back.  From a readable (or absent) desired
    file, no run of the owner, with crashes and I/O failures, makes the file
    unreadable or lowers the revision. *)
Theorem revision_never_decreases ops k :
  wf_desired (k_store k) →
  wf_desired (k_store (run ops k))
  ∧ (current_revision (k_store k) ≤ current_revision (k_store (run ops k)))%Z.
Proof. intros W. by apply (run_rev ops k). Qed.

(** What acceptance means.  A request that is accepted (and is not a
    replay) named the current revision, gets a view with that revision in
    state Accepted, and its intent is on disk: Running at the same revision,
    or, for a Stop, Stopped at the next one. *)
Theorem acceptance_fixes_intent request h n a k v k' :
  admit_with_auxiliary_hold request h n a k = (Ok (OutAccepted v), k') →
  rq_expected_revision request = current_revision (k_store k)
  ∧ v_state v = Accepted ∧ v_revision v = current_revision (k_store k)
  ∧ v_operation_id v = rq_operation_id request
  ∧ current_desired (k_store k')
    = (if bool_decide (rq_kind request = Stop)
       then (Stopped, current_revision (k_store k) + 1)%Z
       else (Running, current_revision (k_store k))).
Proof.
  intros Heq. destruct (wp_ok _ _ _ _ _ _ (admit_intent request h n a k) Heq) as [_ [Hacc|[? ?]]];
    [|done].
  destruct Hacc as (? & _ & ? & k0 & ?). by simplify_eq.
Qed.

(** C10: A Stop fences off everything before it.  Once a Stop is accepted,
    an operation recorded by then at the Stop's revision or an earlier one
    is never committed, whatever happens afterwards, process replacements
    included (unless its record was moved to quarantine). *)
Theorem stop_fences_commits stop h n a k v k' id o ops :
  wf_names (k_store k') →
  rq_kind stop = Stop →
  admit_with_auxiliary_hold stop h n a k = (Ok (OutAccepted v), k') →
  operations (k_store k') !! id = Some (OpRec o) →
  (v_revision (so_view o) ≤ v_revision v)%Z →
  (∀ f, (id, f) ∉ quarantined_ops (k_store (run ops k'))) →
  (commit_execution id (run ops k')).1 ≠ Ok Committed.
Proof.
  intros W Hstop Heq Ho Hrev Hq Hc.
  destruct (wp_ok _ _ _ _ _ _ (admit_intent stop h n a k) Heq) as [_ [Hacc|[? ?]]]; [|done].
  destruct Hacc as (Hexp & Wd & Hcur & k0 & Hv). simplify_eq. simpl in Hrev.
  destruct (run_rev ops k' Wd) as [_ Hle].
  destruct (run_le ops k') as [_ _ K].
  destruct (K W id o ltac:(done) Ho) as (o' & E & [Ho'|Hin]); [|by destruct (Hq (OpRec o'))].
  pose proof (commit_spec id (run ops k')) as Hspec. unfold wp in Hspec.
  destruct (commit_execution id (run ops k')) as [[out|e] k2]; simplify_eq/=.
  destruct (Hspec eq_refl) as (_ & _ & o2 & Ho2 & Hr2 & _). simplify_eq.
  rewrite (ev_revision _ _ E) in Hr2. unfold current_revision in Hle.
  rewrite Hcur in Hle. unfold intent in Hle. rewrite bool_decide_eq_true_2 in Hle by done.
  simpl in Hle. unfold current_revision in *. lia.
Qed.

(** What a commit means.  A commit that succeeds was asked for by the
    operation in the active slot, not cancelled, and admitted at the revision
    that is still current; unless it had ended before, its record is now
    Succeeded. *)
Theorem commit_is_authorised id k k' :
  wf_names (k_store k) →
  commit_execution id k = (Ok Committed, k') →
  active_operation_id (k_adm k) = Some id ∧ (id ∉ k_cancelled k) ∧
  ∃ o, operations (k_store k) !! id = Some (OpRec o)
    ∧ v_revision (so_view o) = current_revision (k_store k)
    ∧ (settled (so_state o) = false →
       operations (k_store k') !! id
       = Some (OpRec (with_detail None (with_state Succeeded o)))).
Proof.
  intros W Heq. destruct (wp_ok _ _ _ _ _ _ (commit_spec id k) Heq eq_refl)
    as (Ha & Hc & o & Ho & Hr & Hs).
  split_and!; [done|done|]. exists o. split_and!; [done|done|]. intros Hset.
  apply Hs; [done|]. by apply W.
Qed.
End theorems.

(** ** Instances *)

Lemma revision_never_decreases_witness :
  let k := sample_kernel in
  let k' := sample_run [sample_admit "op-1" Stop 0; DoRestart sample_identity; DoRecover] in
  wf_desired (k_store k') ∧ (current_revision (k_store k) ≤ current_revision (k_store k'))%Z.
Proof.
  intros k k'.
  exact (@revision_never_decreases sample_hash sample_dir
           [sample_admit "op-1" Stop 0; DoRestart sample_identity; DoRecover] sample_kernel I).
Defined.

(** A start that is running when a stop is accepted. *)
Definition fenced_kernel : Kernel := sample_run [sample_admit "op-1" Start 0].
Definition stopped_kernel : Kernel :=
  sample_run [sample_admit "op-1" Start 0; sample_admit "op-2" Stop 0].

Lemma acceptance_fixes_intent_witness :
  current_desired (k_store stopped_kernel) = (Stopped, 1%Z).
Proof.
  apply (@acceptance_fixes_intent sample_hash sample_dir (sample_request "op-2" Stop 0)
           false None None fenced_kernel (so_view (sample_record "op-2" Stop 0))).
  vm_compute. reflexivity.
Defined.

Lemma stop_fences_commits_witness :
  let ops := [DoFinish "op-2" Succeeded None None; DoEvent "op-1" "build" None "Log" None] in
  let k' := @run sample_hash sample_dir ops stopped_kernel in
  (commit_execution "op-1" k').1 = Ok Superseded ∧ (commit_execution "op-1" k').1 ≠ Ok Committed.
Proof.
  intros ops k'. split; [vm_compute; reflexivity|].
  refine (@stop_fences_commits sample_hash sample_dir (sample_request "op-2" Stop 0)
           false None None fenced_kernel (so_view (sample_record "op-2" Stop 0))
           stopped_kernel "op-1" (sample_record "op-1" Start 0) ops
           (sample_run_names _) eq_refl _ _ _ _);
    [vm_compute; reflexivity|vm_compute; reflexivity|simpl; lia|].
  replace (quarantined_ops _) with (@nil (string * OpFile)) by (vm_compute; reflexivity).
  intros f. apply not_elem_of_nil.
Defined.

Lemma commit_is_authorised_witness :
  ∃ k', commit_execution "op-1" fenced_kernel = (Ok Committed, k')
    ∧ active_operation_id (k_adm fenced_kernel) = Some "op-1".
Proof.
  exists (sample_run [sample_admit "op-1" Start 0; DoCommit "op-1"]).
  assert (commit_execution "op-1" fenced_kernel
          = (Ok Committed, sample_run [sample_admit "op-1" Start 0; DoCommit "op-1"])) as Hc
    by (vm_compute; reflexivity).
  split; [exact Hc|].
  exact (proj1 (commit_is_authorised "op-1" fenced_kernel _ (sample_run_names _) Hc)).
Defined.
