(* ===== verification/KernelCancel.v ===== *)
(** * Cancellation tombstones

    A cancelled operation does not commit: its tombstone outlives every method
    of the process except the completion of that very operation, and the
    commit barrier reads it under the same lock. *)
From S2P Require Import Prelude Validation RuntimeControl RuntimeStore RuntimeKernel KernelFrame KernelSamples KernelRevision.
Import Err.
Local Open Scope rust_scope.

(** The tombstone of [id] stays. *)
Definition tomb (id : string) (k k' : Kernel) : Prop :=
  id ∈ k_cancelled k → id ∈ k_cancelled k'.
#[export] Instance tomb_preorder id : PreOrder (tomb id).
Proof. unfold tomb. split; [by intros k|]. intros k1 k2 k3 ??; auto. Qed.

Section tomb.
Context (id : string).
Abbreviation keeps := (preserves (tomb id)).

Lemma on_store_tomb {E A} (m : M Store E A) : keeps (on_store m).
Proof using Type. intros k. apply wp_on_store. unfold wp, tomb. by destruct (m (k_store k)) as [[] ?]. Qed.
Lemma upd_tomb {E} f : preserves (E := E) (tomb id) (upd f).
Proof using Type. apply preserves_modify; [apply _|]. by intros k Hk. Qed.
Lemma dispatch_tomb {E} a : preserves (E := E) (tomb id) (dispatch a).
Proof using Type. apply preserves_modify; [apply _|]. by intros k Hk. Qed.
Lemma guard_tomb {E} : preserves (E := E) (tomb id) guard.
Proof using Type. apply preserves_gets, _. Qed.
Lemma add_tomb {E} x : preserves (E := E) (tomb id) (mmodify (set_cancelled ({[x]} ∪.))).
Proof using Type. apply preserves_modify; [apply _|]. intros k Hk. simpl. set_solver. Qed.
Lemma drop_tomb {E} x :
  x ≠ id → preserves (E := E) (tomb id) (mmodify (set_cancelled (.∖ {[x]}))).
Proof using Type. intros Hx. apply preserves_modify; [apply _|]. intros k Hk. simpl. set_solver. Qed.
End tomb.
#[export] Hint Resolve on_store_tomb upd_tomb dispatch_tomb guard_tomb add_tomb drop_tomb : frame.

Section tomb_methods.
Context (id : string).
Abbreviation keeps := (preserves (tomb id)).

Lemma emit_with_payload_tomb {E} x st sv n p :
  preserves (E := E) (tomb id) (emit_with_payload x st sv n p).
Proof using Type. unfold emit_with_payload. preserve. Qed.
#[local] Hint Resolve emit_with_payload_tomb : frame.
Lemma emit_terminal_tomb {E} o : preserves (E := E) (tomb id) (emit_terminal_record o).
Proof using Type. unfold emit_terminal_record. preserve. Qed.
Lemma emit_tomb {E} x st sv n : preserves (E := E) (tomb id) (emit x st sv n).
Proof using Type. unfold emit. preserve. Qed.
#[local] Hint Resolve emit_terminal_tomb emit_tomb : frame.
Lemma write_terminal_tomb x st e d : keeps (write_terminal x st e d).
Proof using Type. unfold write_terminal. preserve. Qed.
#[local] Hint Resolve write_terminal_tomb : frame.
Lemma promote_queued_tomb : keeps promote_queued.
Proof using Type. unfold promote_queued. preserve. Qed.
Lemma settle_queued_tomb r : keeps (settle_queued_restart_on_terminal_failure r).
Proof using Type. unfold settle_queued_restart_on_terminal_failure. preserve. Qed.
#[local] Hint Resolve promote_queued_tomb settle_queued_tomb : frame.
Lemma after_terminal_tomb x o : x ≠ id → keeps (after_terminal x o).
Proof using Type. intros Hx. unfold after_terminal. preserve. Qed.
#[local] Hint Resolve after_terminal_tomb : frame.
Lemma finish_tomb x st e d : x ≠ id → keeps (finish x st e d).
Proof using Type. intros Hx. unfold finish. preserve. Qed.

(** The barrier itself never drops the tombstone it finds. *)
Lemma commit_cancelled k :
  id ∈ k_cancelled k →
  (commit_execution id k).2 = k
  ∧ ((commit_execution id k).1 = Ok BarrierCancelled ∨ (commit_execution id k).1 = Ok NotActive).
Proof using Type.
  intros Hk. unfold commit_execution, mbind', guard, mgets, mget.
  destruct (opt_is _ _); simpl; [|by auto].
  unfold is_cancelled. rewrite bool_decide_eq_true_2 by done. simpl. auto.
Qed.
Lemma commit_tomb x : keeps (commit_execution x).
Proof using Type.
  destruct (decide (x = id)) as [->|Hx].
  - intros k. unfold wp. destruct (decide (id ∈ k_cancelled k)) as [Hin|Hout].
    + pose proof (commit_cancelled k Hin) as [Heq _].
      destruct (commit_execution id k) as [[] k']; simpl in Heq; by subst.
    + destruct (commit_execution id k) as [[] k']; by intros ?.
  - unfold commit_execution, write_terminal_locked. preserve.
Qed.

Context `{RequestHash, DirOrder}.
Lemma refresh_tomb {E} : preserves (E := E) (tomb id) refresh_recovery_protection.
Proof using Type. unfold refresh_recovery_protection. preserve. Qed.
#[local] Hint Resolve refresh_tomb : frame.
Lemma prepare_relaunch_tomb : keeps prepare_relaunch.
Proof using Type.
  assert (∀ stop ids acc, keeps (prepare_relaunch_entries stop ids acc)) as Hall.
  { intros stop ids. induction ids; intros acc; simpl; preserve.
    unfold prepare_relaunch_entry. preserve. }
  unfold prepare_relaunch. preserve; apply Hall.
Qed.
Lemma settle_unresolved_tomb : keeps settle_unresolved_recoveries.
Proof using Type.
  assert (∀ names ids, keeps (settle_entries names ids)) as Hall.
  { intros names. induction names; intros ids; simpl; preserve.
    unfold settle_entry, settle_record. preserve. }
  unfold settle_unresolved_recoveries. preserve; apply Hall.
Qed.
#[local] Hint Resolve settle_unresolved_tomb : frame.
Lemma recover_tomb : keeps recover.
Proof using Type. unfold recover, recover_cancellation. preserve. Qed.
Lemma reject_partial_tomb {A} o r : preserves (A := A) (tomb id) (reject_partial o r).
Proof using Type. unfold reject_partial, hold_partial_admission. preserve. Qed.
#[local] Hint Resolve reject_partial_tomb : frame.
Lemma admit_place_tomb o b l : keeps (admit_place o b l).
Proof using Type.
  unfold admit_place, place_stop, place_queued, place_active, cancel_superseded_source,
    settle_queued_restart_for_admission. preserve.
Qed.
#[local] Hint Resolve admit_place_tomb : frame.
Lemma admit_tomb r h n a : keeps (admit_with_auxiliary_hold r h n a).
Proof using Type.
  unfold admit_with_auxiliary_hold, admit_fresh, admit_holds, admit_protection, admit_busy,
    admit_persist, backend, reject. preserve.
Qed.

(** Every method keeps the tombstone but [finish id]; a new process starts
    without tombstones. *)
Definition spares (op : KOp) : Prop :=
  match op with DoFinish x _ _ _ => x ≠ id | DoRestart _ => False | _ => True end.

Lemma run_op_tomb op k : spares op → tomb id k (run_op op k).
Proof using Type.
  destruct op; simpl; intros Hop; try done; apply (preserves_run (tomb id)).
  - apply admit_tomb.
  - by apply finish_tomb.
  - apply commit_tomb.
  - unfold request_cancel. preserve.
  - unfold mark_execution_consumed. preserve.
  - unfold note_execution_session_ended. preserve.
  - apply prepare_relaunch_tomb.
  - unfold ensure_stopped_if_idle. preserve.
  - unfold dispatch_pending_after_quiescence. preserve.
  - apply recover_tomb.
  - apply settle_unresolved_tomb.
  - unfold reconcile_quiesced_operation. preserve.
  - unfold reconcile_quiesced_stop. preserve.
  - unfold begin_foreground_failure_exit. preserve.
  - unfold append_orchestration_event. preserve.
  - apply on_store_tomb.
Qed.

Lemma run_tomb ops k : Forall spares ops → tomb id k (run ops k).
Proof using Type.
  revert k. induction ops as [|op ops IH]; intros k Hops; simpl; [reflexivity|].
  inversion Hops; subst. etrans; [by apply run_op_tomb|by apply IH].
Qed.

(** Asking for a cancellation leaves the tombstone, also when writing the
    durable receipt failed. *)
Lemma request_cancel_tombstone k :
  wp (request_cancel id) k (λ r k', r = true → id ∈ k_cancelled k') (λ _ _, True).
Proof using Type.
  unfold request_cancel. apply wp_bind, wp_guard. case_match; [by apply wp_ret|].
  apply wp_bind. eapply wp_mono; [apply (wp_total _ _ True); done| |done]. intros loaded k1 _.
  apply wp_bind, wp_ok_or. destruct loaded as [o|]; [|done].
  apply wp_bind. eapply wp_mono; [apply (wp_total _ _ True); done| |done]. intros r k2 _.
  apply wp_bind, wp_modify. set (k3 := set_cancelled _ _).
  assert (id ∈ k_cancelled k3) as Hin by (simpl; set_solver).
  assert (∀ m : KM bool, preserves (tomb id) m →
    wp m k3 (λ r k', r = true → id ∈ k_cancelled k') (λ _ _, True)) as Hm.
  { intros m Hm. eapply wp_mono; [apply Hm| |done]. by intros ? k' Hk' _; apply Hk'. }
  apply Hm. preserve.
Qed.

(** C11: A confirmed cancellation is binding.  After a successful
    cancellation request, no commit of that operation succeeds in this
    process, whatever other methods run in between, until the operation
    itself is completed as not committed. *)
Theorem cancelled_never_commits k k1 ops :
  request_cancel id k = (Ok true, k1) →
  Forall spares ops →
  let k2 := run ops k1 in
  commit_execution id k2 = (Ok BarrierCancelled, k2)
  ∨ commit_execution id k2 = (Ok NotActive, k2).
Proof using Type.
  intros Hc Hops k2.
  assert (id ∈ k_cancelled k2) as Heq.
  { apply (run_tomb ops k1 Hops). by apply (wp_ok _ _ _ _ _ _ (request_cancel_tombstone k) Hc). }
  destruct (commit_cancelled k2 Heq) as [Hs [Hr|Hr]]; [left|right];
    by rewrite (surjective_pairing (commit_execution id k2)), Hs, Hr.
Qed.
End tomb_methods.

Lemma cancelled_never_commits_witness :
  let k := sample_run [sample_admit "op-1" Start 0] in
  let k1 := sample_run [sample_admit "op-1" Start 0; DoCancel "op-1"] in
  let ops := [sample_admit "op-2" Restart 0; DoMarkConsumed "op-1"] in
  let k2 := @run sample_hash sample_dir ops k1 in
  commit_execution "op-1" k2 = (Ok BarrierCancelled, k2)
  ∨ commit_execution "op-1" k2 = (Ok NotActive, k2).
Proof.
  intros k k1 ops k2.
  refine (@cancelled_never_commits "op-1" sample_hash sample_dir k k1 ops _ _).
  - vm_compute. reflexivity.
  - repeat constructor.
Defined.
