(* ===== verification/KernelEvents.v ===== *)
(** * Event logs

    Each operation's event log is numbered 1, 2, 3, ... without gaps or
    repetitions, and its terminal event is the last one, over every run in
    which [Path::is_file] tells the truth about an existing log; when it does
    not, the numbering restarts. *)
From S2P Require Import Prelude Validation RuntimeControl RuntimeStore RuntimeKernel KernelFrame KernelSamples.
Import Err.
Local Open Scope rust_scope.

(** ** Well-formed logs *)

Definition numbered (id : string) (es : list RuntimeEventRecord) : Prop :=
  ∀ i e, es !! i = Some e →
    ev_sequence e = Z.of_nat (S i) ∧ ev_operation_id e = id
    ∧ (ev_stage e = "terminal" → S i = length es).

(** Whole lines, and at most one torn line at the end. *)
Definition log_ok (id : string) (lines : list EventLine) : Prop :=
  ∃ es torn, lines = (EvRec <$> es) ++ torn ∧ numbered id es
    ∧ (torn = [] ∨ ∃ msg, torn = [EvTorn msg]).

Record logs_ok (s : Store) : Prop := {
  lo_logs : ∀ id lines, events s !! id = Some lines → log_ok id lines;
  lo_stat : stat_faults s = [];
}.

Definition keeps_logs (s s' : Store) : Prop := logs_ok s → logs_ok s'.
#[export] Instance keeps_logs_preorder : PreOrder keeps_logs.
Proof. unfold keeps_logs. split; [by intros s|]. intros s1 s2 s3 ??; auto. Qed.

Definition same_events (s s' : Store) : Prop :=
  events s' = events s ∧ stat_faults s' = stat_faults s.
#[export] Instance same_events_preorder : PreOrder same_events.
Proof. split; [by intros s|]. intros s1 s2 s3 [] []. split; congruence. Qed.
Lemma same_events_logs s s' : same_events s s' → keeps_logs s s'.
Proof. intros [He Hs] [L S]. split; by rewrite ?He, ?Hs. Qed.

(** ** Calls that touch no log *)

Lemma next_io_ev : preserves same_events next_io.
Proof. intros s. unfold wp, next_io. by destruct (io s). Qed.
#[export] Hint Resolve next_io_ev : frame.
Lemma modify_ev {E} (f : Store → Store) :
  (∀ s, same_events s (f s)) → preserves (E := E) same_events (mmodify f).
Proof. intros Hf. apply preserves_modify; [apply _|done]. Qed.
#[export] Hint Extern 2 (preserves same_events (mmodify _)) =>
  apply modify_ev; intros; split; reflexivity : frame.
Lemma io_call_ev ctx : preserves same_events (io_call ctx).
Proof. unfold io_call. preserve. Qed.
#[export] Hint Resolve io_call_ev : frame.
Lemma write_json_ev f : (∀ s, same_events s (f s)) → preserves same_events (write_json f).
Proof.
  intros Hf. unfold write_json. preserve.
  generalize "state persist retries exhausted". generalize 5. intros n.
  induction n as [|n IH]; intros last; simpl; preserve; try done; by apply modify_ev.
Qed.
#[export] Hint Extern 2 (preserves same_events (write_json _)) =>
  apply write_json_ev; intros; split; reflexivity : frame.
Lemma store_operation_ev op : preserves same_events (store_operation op).
Proof.
  unfold store_operation. generalize "private operation persist retries exhausted".
  generalize 5. intros n. induction n as [|n IH]; intros last; simpl; preserve; done.
Qed.
Lemma load_operation_ev id : preserves same_events (load_operation id).
Proof. unfold load_operation. preserve. Qed.
Lemma load_desired_ev : preserves same_events load_desired.
Proof. unfold load_desired. preserve. Qed.
Lemma store_desired_ev d r : preserves same_events (store_desired d r).
Proof. unfold store_desired, desired_object. preserve. Qed.
Lemma store_cancellation_ev o : preserves same_events (store_cancellation o).
Proof. unfold store_cancellation. eauto with frame. Qed.
Lemma cancellation_recorded_ev o : preserves same_events (cancellation_recorded o).
Proof. unfold cancellation_recorded. preserve. Qed.
Lemma quarantine_io_ev p : preserves same_events (quarantine_io p).
Proof. unfold quarantine_io. preserve. Qed.
Lemma unresolved_scan_ev live names : preserves same_events (unresolved_scan live names).
Proof. induction names; simpl; preserve; done. Qed.
Lemma find_quiesced_stop_ev `{RequestHash} i r names c :
  preserves same_events (find_quiesced_stop i r names c).
Proof. revert c. induction names; intros c; simpl; preserve; done. Qed.
#[export] Hint Resolve store_operation_ev load_operation_ev load_desired_ev store_desired_ev
  store_cancellation_ev cancellation_recorded_ev quarantine_io_ev unresolved_scan_ev
  find_quiesced_stop_ev : frame.
Lemma consume_management_boot_ev b : preserves same_events (consume_management_boot b).
Proof. unfold consume_management_boot. preserve. Qed.
Lemma repair_desired_ev : preserves same_events repair_desired_after_quiescence.
Proof. unfold repair_desired_after_quiescence. preserve. Qed.
Lemma quarantine_op_ev n : preserves same_events (quarantine_op n).
Proof. unfold quarantine_op. preserve. Qed.
#[export] Hint Resolve consume_management_boot_ev repair_desired_ev quarantine_op_ev : frame.
Lemma recover_unfinished_ev `{DirOrder} live :
  preserves same_events (recover_unfinished_operations live).
Proof.
  unfold recover_unfinished_operations. preserve.
  generalize (mkScan [] [] []). induction (dir_entries (operations a0)); intros sc; simpl; preserve; try done.
  unfold recover_entry, report_unreadable_record. preserve.
Qed.
Lemma settle_interrupted_ev o : preserves same_events (settle_interrupted_operation o).
Proof. unfold settle_interrupted_operation. preserve. Qed.
#[export] Hint Resolve recover_unfinished_ev settle_interrupted_ev : frame.
Lemma preserves_same_events {E A} (m : M Store E A) :
  preserves same_events m → preserves keeps_logs m.
Proof. intros Hm s. eapply wp_mono; [apply Hm| |]; intros; by apply same_events_logs. Qed.
#[export] Hint Extern 3 (preserves keeps_logs _) =>
  apply preserves_same_events; solve [eauto 3 with frame] : frame.

(** ** Reading a well-formed log back *)

Lemma sort_events_sorted es :
  (∀ i j a b, i ≤ j → es !! i = Some a → es !! j = Some b → (ev_sequence a ≤ ev_sequence b)%Z) →
  sort_events es = es.
Proof.
  induction es as [|e es IH]; intros Hs; [done|]. simpl.
  rewrite IH by (intros i j a b Hij Ha Hb; by apply (Hs (S i) (S j)); [lia| |]).
  destruct es as [|x xs]; [done|]. simpl.
  assert (ev_sequence e ≤ ev_sequence x)%Z as Hle by (apply (Hs 0 1); [lia|done|done]).
  apply Z.leb_le in Hle. by rewrite Hle.
Qed.

Lemma numbered_sorted id es : numbered id es → sort_events es = es.
Proof.
  intros Hn. apply sort_events_sorted. intros i j a b Hij Ha Hb.
  destruct (Hn _ _ Ha) as [-> _], (Hn _ _ Hb) as [-> _]. lia.
Qed.

Lemma decode_events_all es :
  (∀ e, e ∈ es → (0 < ev_sequence e)%Z) → decode_events 0 (EvRec <$> es) = Ok es.
Proof.
  induction es as [|e es IH]; intros Hpos; [done|]. cbn. fold (EvRec <$> es).
  rewrite IH by (intros; apply Hpos; by right). simpl.
  assert (0 < ev_sequence e)%Z as He by (apply Hpos; left). apply Z.ltb_lt in He. by rewrite He.
Qed.
Lemma decode_events_torn n es msg :
  ∃ err, decode_events n ((EvRec <$> es) ++ [EvTorn msg]) = Err err.
Proof.
  induction es as [|e es [err IH]]; [simpl; eauto|].
  rewrite fmap_cons. cbn [app decode_events]. rewrite IH. simpl. eauto.
Qed.

Lemma numbered_positive id es e : numbered id es → e ∈ es → (0 < ev_sequence e)%Z.
Proof. intros Hn [i Hi]%list_elem_of_lookup. destruct (Hn _ _ Hi) as [-> _]. lia. Qed.

(** What [emit_with_payload] sees: the whole log, or an error. *)
Lemma replay_events_log id s :
  logs_ok s →
  wp (replay_events id 0) s
    (λ es s', same_events s s' ∧ numbered id es ∧ default [] (events s !! id) = EvRec <$> es)
    (λ _ s', same_events s s').
Proof.
  intros [L Hstat]. unfold replay_events. apply wp_bind, wp_get.
  destruct (events s !! id) as [lines|] eqn:Hl; [|apply wp_ret; by split_and!].
  apply wp_bind. unfold wp at 1, is_file_visible. rewrite Hstat. simpl.
  apply wp_bind. eapply wp_mono; [apply io_call_ev| |done]. intros [] s1 H1.
  destruct (L _ _ Hl) as (es & torn & -> & Hn & Ht). apply wp_bind, wp_lift.
  destruct Ht as [->|[msg ->]].
  - rewrite app_nil_r, decode_events_all by (intros; by eapply numbered_positive).
    apply wp_ret. rewrite (numbered_sorted id) by done. by split_and!.
  - destruct (decode_events_torn 0 es msg) as [err ->]. done.
Qed.

(** ** Appending *)

Lemma numbered_snoc id es e :
  numbered id es →
  existsb (λ e, bool_decide (ev_stage e = "terminal")) es = false →
  ev_operation_id e = id → next_sequence es = Some (ev_sequence e) →
  numbered id (es ++ [e]).
Proof.
  intros Hn Hterm Hid Hseq i x. rewrite lookup_app_Some, length_app. simpl.
  intros [Hx|[Hlen Hx]].
  - destruct (Hn _ _ Hx) as (? & ? & _). split_and!; try done. intros Ht. exfalso.
    assert (existsb (λ e, bool_decide (ev_stage e = "terminal")) es = true) as Htrue; [|congruence].
    apply existsb_exists. exists x. split; [apply list_elem_of_In; by eapply list_elem_of_lookup_2|].
    by apply bool_decide_eq_true.
  - apply list_lookup_singleton_Some in Hx as [Hi <-].
    assert (i = length es) as -> by lia. split_and!; [|done|lia].
    unfold next_sequence in Hseq. destruct (last es) as [l|] eqn:Hlast.
    + rewrite last_lookup in Hlast. destruct (Hn _ _ Hlast) as [Hl _].
      apply u64_checked_succ_Some in Hseq. assert (length es ≠ 0) by (destruct es; done). lia.
    + apply last_None in Hlast. subst. by simplify_eq/=.
Qed.

Lemma append_event_logs e es s :
  logs_ok s → default [] (events s !! ev_operation_id e) = EvRec <$> es →
  numbered (ev_operation_id e) es →
  numbered (ev_operation_id e) (es ++ [e]) →
  wp (append_event e) s (λ _ s', logs_ok s') (λ _ s', logs_ok s').
Proof.
  intros Hok Hes Hn Hn'. destruct (Hok) as [L Hstat].
  unfold append_event. apply wp_bind, wp_get, wp_bind.
  eapply wp_mono; [apply next_io_ev| |intros ?? Hs; by apply (same_events_logs s)]. intros o s1 [He Hs].
  assert (∀ l, l = EvRec e ∨ (∃ msg, l = EvTorn msg) →
    logs_ok (set_events (λ evs, <[ev_operation_id e := default [] (evs !! ev_operation_id e) ++ [l]]> evs) s1))
    as Hline.
  { intros l Hl. split; simpl; [|congruence]. intros id lines. rewrite He.
    destruct (decide (id = ev_operation_id e)) as [->|Hne].
    - rewrite lookup_insert_eq, Hes. intros; simplify_eq. destruct Hl as [->|[msg ->]].
      + exists (es ++ [e]), []. rewrite fmap_app, app_nil_r. simpl. auto.
      + exists es, [EvTorn msg]. eauto.
    - rewrite lookup_insert_ne by done. apply L. }
  assert (logs_ok s1) as Hs1 by (split; [by rewrite He|congruence]).
  destruct o as [|msg tr []]; wp_steps; eauto.
Qed.

Abbreviation k_logs := (lift_rel keeps_logs).

Lemma emit_with_payload_logs {E} id st sv n p :
  preserves (E := E) k_logs (emit_with_payload id st sv n p).
Proof.
  intros k. unfold wp. enough (logs_ok (k_store k) →
    wp (E := E) (emit_with_payload id st sv n p) k (λ _ k', logs_ok (k_store k')) (λ _ k', logs_ok (k_store k')))
    as Hwp.
  { unfold wp in Hwp. destruct (emit_with_payload id st sv n p k) as [[] k']; intros Hk; by apply Hwp. }
  intros Hk. unfold emit_with_payload. apply wp_bind, wp_try, wp_on_store.
  eapply wp_mono; [by apply replay_events_log| |]; cbv beta.
  - intros es s1 (Hs1 & Hn & Hes). pose proof (same_events_logs _ _ Hs1 Hk) as Hk1.
    destruct (existsb _ es) eqn:Hterm; [by apply wp_ret|].
    destruct (next_sequence es) as [seq|] eqn:Hseq; [|by apply wp_ret].
    apply wp_bind, wp_get, wp_bind, wp_try, wp_on_store.
    eapply wp_mono; [eapply (append_event_logs _ es)| |]; cbv beta; simpl.
    + done.
    + destruct Hs1 as [-> _]. done.
    + done.
    + by apply numbered_snoc.
    + intros ? s2 H2. by apply wp_ret.
    + intros ? s2 H2. by apply wp_ret.
  - intros ? s1 Hs1. apply wp_ret. by apply (same_events_logs (k_store k)).
Qed.
#[export] Hint Resolve emit_with_payload_logs : frame.

(** ** Every method *)

Lemma emit_logs {E} id st sv n : preserves (E := E) k_logs (emit id st sv n).
Proof. unfold emit. preserve. Qed.
Lemma emit_terminal_logs {E} o : preserves (E := E) k_logs (emit_terminal_record o).
Proof. unfold emit_terminal_record. preserve. Qed.
#[export] Hint Resolve emit_logs emit_terminal_logs : frame.
Lemma write_terminal_logs id st e d : preserves k_logs (write_terminal id st e d).
Proof. unfold write_terminal. preserve. Qed.
#[export] Hint Resolve write_terminal_logs : frame.
Lemma promote_queued_logs : preserves k_logs promote_queued.
Proof. unfold promote_queued. preserve. Qed.
#[export] Hint Resolve promote_queued_logs : frame.
Lemma after_terminal_logs id o : preserves k_logs (after_terminal id o).
Proof. unfold after_terminal, settle_queued_restart_on_terminal_failure. preserve. Qed.
#[export] Hint Resolve after_terminal_logs : frame.
Lemma reject_partial_logs {A} o r : preserves (A := A) k_logs (reject_partial o r).
Proof. unfold reject_partial, hold_partial_admission. preserve. Qed.
#[export] Hint Resolve reject_partial_logs : frame.

Section logs.
Context `{RequestHash, DirOrder}.

Lemma refresh_logs {E} : preserves (E := E) k_logs refresh_recovery_protection.
Proof. unfold refresh_recovery_protection. preserve. Qed.
#[local] Hint Resolve refresh_logs : frame.
Lemma prepare_relaunch_logs : preserves k_logs prepare_relaunch.
Proof.
  assert (∀ stop ids acc, preserves k_logs (prepare_relaunch_entries stop ids acc)) as Hall.
  { intros stop ids. induction ids; intros acc; simpl; preserve.
    unfold prepare_relaunch_entry. preserve. }
  unfold prepare_relaunch. preserve; apply Hall.
Qed.
Lemma settle_unresolved_logs : preserves k_logs settle_unresolved_recoveries.
Proof.
  assert (∀ names ids, preserves k_logs (settle_entries names ids)) as Hall.
  { intros names. induction names; intros ids; simpl; preserve.
    unfold settle_entry, settle_record. preserve. }
  unfold settle_unresolved_recoveries. preserve; apply Hall.
Qed.
#[local] Hint Resolve settle_unresolved_logs : frame.
Lemma admit_place_logs o b l : preserves k_logs (admit_place o b l).
Proof.
  unfold admit_place, place_stop, place_queued, place_active, cancel_superseded_source,
    settle_queued_restart_for_admission. preserve.
Qed.
#[local] Hint Resolve admit_place_logs : frame.
Lemma admit_logs r h n a : preserves k_logs (admit_with_auxiliary_hold r h n a).
Proof.
  unfold admit_with_auxiliary_hold, admit_fresh, admit_holds, admit_protection, admit_busy,
    admit_persist, backend, reject. preserve.
Qed.

Lemma run_op_logs op k : k_logs k (run_op op k).
Proof.
  destruct op; simpl; try (change (keeps_logs (k_store k) (k_store k)); reflexivity);
    apply (preserves_run k_logs).
  - apply admit_logs.
  - unfold finish. preserve.
  - unfold commit_execution, write_terminal_locked. preserve.
  - unfold request_cancel. preserve.
  - unfold mark_execution_consumed. preserve.
  - unfold note_execution_session_ended. preserve.
  - apply prepare_relaunch_logs.
  - unfold ensure_stopped_if_idle. preserve.
  - unfold dispatch_pending_after_quiescence. preserve.
  - unfold recover, recover_cancellation. preserve.
  - apply settle_unresolved_logs.
  - unfold reconcile_quiesced_operation. preserve.
  - unfold reconcile_quiesced_stop. preserve.
  - unfold begin_foreground_failure_exit. preserve.
  - unfold append_orchestration_event. preserve.
  - preserve.
Qed.

(** Gapless event logs.  From a state root whose logs are well formed,
    over any run with crashes and I/O failures, every event log is a
    sequence of whole lines numbered 1, 2, 3, ... for its own operation,
    with at most one torn line at the end, and a terminal event only in the
    last place: nothing follows the end of an operation. *)
Theorem event_logs_are_gapless ops k id lines :
  logs_ok (k_store k) →
  events (k_store (run ops k)) !! id = Some lines →
  ∃ es torn, lines = (EvRec <$> es) ++ torn
    ∧ (∀ i e, es !! i = Some e → ev_sequence e = Z.of_nat (S i) ∧ ev_operation_id e = id
         ∧ (ev_stage e = "terminal" → S i = length es))
    ∧ (torn = [] ∨ ∃ msg, torn = [EvTorn msg]).
Proof.
  intros Hk. apply (run_preorder k_logs run_op_logs ops k Hk).
Qed.
End logs.

(** ** Instances *)

Lemma event_logs_are_gapless_witness :
  let ops := [sample_admit "op-1" Start 0; DoEvent "op-1" "build" None "Log" None;
              DoFinish "op-1" Failed None None; DoEvent "op-1" "build" None "Log" None] in
  let lines := default [] (events (k_store (sample_run ops)) !! "op-1") in
  length lines = 3 ∧
  ∃ es torn, lines = (EvRec <$> es) ++ torn
    ∧ (∀ i e, es !! i = Some e → ev_sequence e = Z.of_nat (S i) ∧ ev_operation_id e = "op-1"
         ∧ (ev_stage e = "terminal" → S i = length es))
    ∧ (torn = [] ∨ ∃ msg, torn = [EvTorn msg]).
Proof.
  intros ops lines. split; [vm_compute; reflexivity|].
  apply (@event_logs_are_gapless sample_hash sample_dir ops sample_kernel "op-1" lines).
  - split; [|reflexivity]. intros id l. cbn. by rewrite lookup_empty.
  - vm_compute. reflexivity.
Defined.

(** The same owner, on a disk whose next metadata call fails. *)
Definition blinking_kernel : Kernel :=
  kernel_new (set_stat [true] sample_store) sample_identity [].

(** A metadata error restarts the numbering.  [replay_events] reads an
    existing log only if [Path::is_file] answers true, which it does not when
    the metadata call fails: the history then looks empty, and the next event
    reuses sequence number 1. *)
Theorem metadata_error_repeats_sequence :
  let k := @run sample_hash sample_dir
             [sample_admit "op-1" Start 0; DoEvent "op-1" "build" None "Log" None] blinking_kernel in
  (λ l, match l with EvRec e => ev_sequence e | EvTorn _ => 0%Z end)
    <$> default [] (events (k_store k) !! "op-1") = [1%Z; 1%Z].
Proof. vm_compute. reflexivity. Qed.
