(* ===== verification/KernelRecovery.v ===== *)
(** * Startup recovery reaches an open owner

    With a working disk, a new owner's startup scan and settlement end every
    record the previous owner left behind and lift recovery protection, so the
    next start is accepted and handed to the execution loop.  The one exception
    is proved too: a Stop left in RecoveryRequired. *)
From S2P Require Import Prelude Validation RuntimeControl RuntimeStore RuntimeKernel KernelFrame KernelSamples KernelRevision.
Import Err.
Local Open Scope rust_scope.

(** ** A disk without faults *)

(** No scheduled failure, every record file decodes and is named after its
    operation. *)
Record healthy (s : Store) : Prop := {
  h_io : io s = [];
  h_names : wf_names s;
  h_readable : ∀ name f, operations s !! name = Some f → ∃ o, f = OpRec o;
}.

Lemma wp_io_call ctx s Q X : io s = [] → Q tt s → wp (io_call ctx) s Q X.
Proof. intros Hio HQ. unfold wp. by rewrite io_call_ok. Qed.

Lemma wp_load_operation id s Q X :
  healthy s →
  (∀ r, operations s !! id = OpRec <$> r → Q r s) →
  wp (load_operation id) s Q X.
Proof.
  intros [Hio _ Hr] HQ. unfold load_operation. wp_steps. apply wp_io_call; [done|].
  destruct (operations s !! id) as [f|] eqn:Hf.
  - destruct (Hr _ _ Hf) as [o ->]. apply wp_ret. by apply (HQ (Some o)).
  - apply wp_ret. by apply (HQ None).
Qed.

Lemma healthy_publish op s :
  healthy s → healthy (set_operations (<[so_id op := OpRec op]>) s).
Proof.
  intros [Hio W Hr]. split; [done| |]; intros name; simpl; intros f;
    (destruct (decide (name = so_id op)) as [->|Hne];
     [rewrite lookup_insert_eq|rewrite lookup_insert_ne by done]); [naive_solver|apply W|naive_solver|apply Hr].
Qed.

Lemma wp_store_operation op s Q X :
  io s = [] → Q tt (set_operations (<[so_id op := OpRec op]>) s) → wp (store_operation op) s Q X.
Proof.
  intros Hio HQ. unfold store_operation. simpl. apply wp_bind. unfold wp, next_io. by rewrite Hio.
Qed.

(** Events touch neither the records nor a healthy disk's health. *)
Definition calm (s s' : Store) : Prop := same_ops s s' ∧ (io s = [] → io s' = []).
#[export] Instance calm_preorder : PreOrder calm.
Proof. unfold calm. split; [by intros s|]. intros s1 s2 s3 [] []. split; [by etrans|auto]. Qed.

Lemma calm_healthy s s' : calm s s' → healthy s → healthy s'.
Proof.
  intros [[Ho Hq] Hi] [Hio W Hr]. split; [auto| |]; unfold wf_names; rewrite Ho; auto.
Qed.

Lemma next_io_calm : preserves calm next_io.
Proof. intros s. unfold wp, next_io. destruct (io s) as [|o rest] eqn:Hi; split; [done|done|done|congruence]. Qed.
Lemma is_file_visible_calm : preserves calm is_file_visible.
Proof. intros s. unfold wp, is_file_visible. by destruct (stat_faults s). Qed.
#[export] Hint Resolve next_io_calm is_file_visible_calm : frame.
Lemma modify_calm {E} (f : Store → Store) :
  (∀ s, calm s (f s)) → preserves (E := E) calm (mmodify f).
Proof. intros Hf. apply preserves_modify; [apply _|done]. Qed.
#[export] Hint Extern 2 (preserves calm (mmodify _)) =>
  apply modify_calm; intros; repeat split; done : frame.
Lemma io_call_calm ctx : preserves calm (io_call ctx).
Proof. unfold io_call. preserve. Qed.
#[export] Hint Resolve io_call_calm : frame.
Lemma append_event_calm e : preserves calm (append_event e).
Proof. unfold append_event. preserve. Qed.
Lemma replay_events_calm id n : preserves calm (replay_events id n).
Proof. unfold replay_events. preserve. Qed.
Lemma load_operation_calm id : preserves calm (load_operation id).
Proof. unfold load_operation. preserve. Qed.
Lemma load_desired_calm : preserves calm load_desired.
Proof. unfold load_desired. preserve. Qed.
Lemma cancellation_recorded_calm o : preserves calm (cancellation_recorded o).
Proof. unfold cancellation_recorded. preserve. Qed.
#[export] Hint Resolve append_event_calm replay_events_calm load_operation_calm load_desired_calm
  cancellation_recorded_calm : frame.
Lemma write_json_calm f : (∀ s, calm s (f s)) → preserves calm (write_json f).
Proof.
  intros Hf. unfold write_json. preserve.
  generalize "state persist retries exhausted". generalize 5. intros n.
  induction n as [|n IH]; intros last; simpl; preserve; try done; by apply modify_calm.
Qed.
Lemma store_desired_calm d r : preserves calm (store_desired d r).
Proof. unfold store_desired, desired_object. preserve. by apply write_json_calm. Qed.
Lemma quarantine_io_calm p : preserves calm (quarantine_io p).
Proof. unfold quarantine_io. preserve. Qed.
#[export] Hint Resolve store_desired_calm quarantine_io_calm : frame.
Lemma repair_desired_calm : preserves calm repair_desired_after_quiescence.
Proof. unfold repair_desired_after_quiescence. preserve. Qed.
#[export] Hint Resolve repair_desired_calm : frame.

(** What a method may change besides the store: nothing that the settlement
    looks at. *)
Definition k_calm (k k' : Kernel) : Prop :=
  calm (k_store k) (k_store k') ∧ k_adm k' = k_adm k ∧ k_dispatched k' = k_dispatched k.
#[export] Instance k_calm_preorder : PreOrder k_calm.
Proof. unfold k_calm. split; [by intros k|]. intros k1 k2 k3 (? & ? & ?) (? & ? & ?). split_and!; [by etrans|congruence|congruence]. Qed.
Lemma on_store_calm {E A} (m : M Store E A) : preserves calm m → preserves k_calm (on_store m).
Proof. intros Hm k. apply wp_on_store. eapply wp_mono; [apply Hm| |]; intros ? s Hs; by split. Qed.
Lemma guard_calm {E} : preserves (E := E) k_calm guard.
Proof. apply preserves_gets, _. Qed.
Lemma cancelled_calm {E} f : preserves (E := E) k_calm (mmodify (set_cancelled f)).
Proof. apply preserves_modify; [apply _|]. intros k. split; [reflexivity|done]. Qed.
#[export] Hint Extern 2 (preserves k_calm (on_store _)) => apply on_store_calm; preserve : frame.
#[export] Hint Resolve guard_calm cancelled_calm : frame.
Lemma emit_with_payload_calm {E} id st sv n p :
  preserves (E := E) k_calm (emit_with_payload id st sv n p).
Proof. unfold emit_with_payload. preserve. Qed.
#[export] Hint Resolve emit_with_payload_calm : frame.
Lemma emit_terminal_calm {E} o : preserves (E := E) k_calm (emit_terminal_record o).
Proof. unfold emit_terminal_record. preserve. Qed.
Lemma emit_calm {E} id st sv n : preserves (E := E) k_calm (emit id st sv n).
Proof. unfold emit. preserve. Qed.
#[export] Hint Resolve emit_terminal_calm emit_calm : frame.

(** ** The startup scan *)

(** Every record has ended, or is still to be visited, or is on the recovered
    list and not a Stop. *)
Definition scan_inv (todo listed : list string) (s : Store) : Prop :=
  ∀ name o, operations s !! name = Some (OpRec o) →
    is_terminal (so_state o) = true
    ∨ (name ∈ todo ∧ (v_kind (so_view o) = Stop → so_state o = Accepted))
    ∨ (name ∈ listed ∧ v_kind (so_view o) ≠ Stop).

Lemma scan_inv_skip name todo listed s :
  (∀ o, operations s !! name = Some (OpRec o) → is_terminal (so_state o) = true) →
  scan_inv (name :: todo) listed s → scan_inv todo listed s.
Proof.
  intros Hname Hinv n o Ho. destruct (Hinv n o Ho) as [?|[[Hin ?]|?]]; auto.
  apply elem_of_cons in Hin as [->|?]; eauto.
Qed.

Lemma scan_inv_recovered name todo listed s o :
  operations s !! name = Some (OpRec o) → so_id o = name →
  is_terminal (so_state o) = false →
  scan_inv (name :: todo) listed s →
  scan_inv todo (listed ++ [name])
    (set_operations (<[so_id (recover_record o) := OpRec (recover_record o)]>) s).
Proof.
  intros Ho Hid Ht Hinv n o'. simpl. rewrite recover_record_id, Hid.
  destruct (decide (n = name)) as [->|Hne].
  - rewrite lookup_insert_eq. intros; simplify_eq. unfold recover_record.
    destruct (decide (v_kind (so_view o) = Stop)) as [Hk|Hk].
    + destruct (Hinv _ _ Ho) as [?|[[_ Ha]|[_ ?]]]; [congruence| |done].
      rewrite !bool_decide_eq_true_2 by auto. by left.
    + rewrite bool_decide_eq_false_2 by done. right; right. split; [set_solver|done].
  - rewrite lookup_insert_ne by done. intros Hn.
    destruct (Hinv n o' Hn) as [?|[[? ?]|[? ?]]]; [by left|right; left|right; right]; set_solver.
Qed.

Lemma recover_entries_done names scan s :
  healthy s → scan_inv names (recovered scan) s →
  wp (recover_entries ∅ names scan) s
    (λ scan' s', healthy s' ∧ scan_inv [] (recovered scan') s' ∧ blocked scan' = blocked scan)
    (λ _ _, False).
Proof.
  revert scan s. induction names as [|name names IH]; intros scan s Hs Hinv; simpl.
  { by apply wp_ret. }
  apply wp_bind. unfold recover_entry. wp_steps. apply wp_io_call; [apply Hs|].
  destruct (operations s !! name) as [f|] eqn:Hf.
  2: { apply wp_ret, IH; [done|]. eapply scan_inv_skip; [|done]. congruence. }
  destruct (h_readable _ Hs _ _ Hf) as [o ->]. rewrite bool_decide_eq_false_2 by set_solver.
  destruct (is_terminal (so_state o)) eqn:Ht.
  { apply wp_ret, IH; [done|]. eapply scan_inv_skip; [|done]. congruence. }
  assert (so_id o = name) as Hid by by apply (h_names _ Hs).
  apply wp_bind, wp_store_operation; [apply Hs|]. apply wp_ret.
  apply (IH (mkScan _ _ _)); [by apply healthy_publish|]. simpl. rewrite Hid.
  by apply scan_inv_recovered.
Qed.

Lemma wp_write_json f s Q X : io s = [] → Q tt (f s) → wp (write_json f) s Q X.
Proof.
  intros Hio HQ. unfold write_json. apply wp_bind, wp_io_call; [done|]. simpl.
  apply wp_bind. unfold wp at 1, next_io. rewrite Hio. by apply wp_modify.
Qed.

(** A damaged desired file is replaced, a readable one kept. *)
Lemma repair_desired_done s :
  io s = [] → wp repair_desired_after_quiescence s (λ _ s', calm s s') (λ _ _, False).
Proof.
  intros Hio. unfold repair_desired_after_quiescence, quarantine_io, store_desired, desired_object.
  wp_steps.
  destruct (desired_json s) as [| | |[] [] b]; wp_steps; (apply wp_io_call; [done|]);
    try reflexivity; wp_steps; repeat (apply wp_io_call; [done|]; wp_steps);
    apply wp_write_json; done.
Qed.

(** Members of a directory listing. *)
Lemma dir_entries_elem `{DirOrder} m name : name ∈ dir_entries m ↔ is_Some (m !! name).
Proof.
  rewrite (dir_entries_perm m), list_elem_of_fmap. split.
  - intros ([n f] & -> & Hin). apply elem_of_map_to_list in Hin. by exists f.
  - intros [f Hf]. exists (name, f). split; [done|]. by apply elem_of_map_to_list.
Qed.

(** Every Stop on disk has ended or is still as it was admitted. *)
Definition no_unknown_stop (s : Store) : Prop :=
  ∀ name o, operations s !! name = Some (OpRec o) → v_kind (so_view o) = Stop →
    is_terminal (so_state o) = true ∨ so_state o = Accepted.

(** After the scan: every unfinished record is listed for settlement. *)
Definition scanned (k : Kernel) : Prop :=
  healthy (k_store k) ∧ slots_idle (k_adm k) = true
  ∧ live_execution_ids (k_adm k) = ∅
  ∧ ∀ name o, operations (k_store k) !! name = Some (OpRec o) →
      is_terminal (so_state o) = true
      ∨ (name ∈ recovered_operations (k_adm k) ∧ v_kind (so_view o) ≠ Stop).

Definition only_protection (k k' : Kernel) : Prop :=
  calm (k_store k) (k_store k') ∧
  ∃ b, k_adm k' = set_recovery_protection b (k_adm k).
#[export] Instance only_protection_preorder : PreOrder only_protection.
Proof.
  split.
  - intros k. split; [reflexivity|]. exists (recovery_protection (k_adm k)). by destruct (k_adm k).
  - intros k1 k2 k3 [C1 [b1 E1]] [C2 [b2 E2]]. split; [by etrans|]. exists b2. by rewrite E2, E1.
Qed.
Lemma preserves_calm_protection {E A} (m : M Kernel E A) :
  preserves k_calm m → preserves only_protection m.
Proof.
  intros Hm k. eapply wp_mono; [apply Hm| |]; intros ? k' (? & Ha & _); (split; [done|]);
    exists (recovery_protection (k_adm k)); rewrite Ha; by destruct (k_adm k).
Qed.
#[export] Hint Extern 4 (preserves only_protection _) => apply preserves_calm_protection : frame.
Lemma upd_protection {E} b : preserves (E := E) only_protection (upd (set_recovery_protection b)).
Proof. apply preserves_modify; [apply _|]. intros k. split; [reflexivity|by exists b]. Qed.
#[export] Hint Resolve upd_protection : frame.
Lemma recover_cancellation_protection id : preserves only_protection (recover_cancellation id).
Proof. unfold recover_cancellation. preserve. Qed.
#[export] Hint Resolve recover_cancellation_protection : frame.

Lemma only_protection_scanned k k' : only_protection k k' → scanned k → scanned k'.
Proof.
  intros [Hc [b Ha]] (Hh & Hi & Hl & Hall). unfold scanned. rewrite Ha. simpl.
  split_and!; [by eapply calm_healthy|done|done|]. destruct Hc as [[Ho _] _]. by rewrite Ho.
Qed.

(** A loop whose body cannot fail does not fail. *)
Lemma recover_cancellation_total id k :
  wp (recover_cancellation id) k (λ _ _, True) (λ _ _, False).
Proof.
  unfold recover_cancellation. apply wp_bind, wp_try.
  eapply wp_mono; [apply (wp_total _ _ True); done| |]; intros r k1 _; wp_steps; done.
Qed.

Section recovery.
Context `{DirOrder}.

Lemma recover_done st identity history :
  healthy st → no_unknown_stop st →
  wp recover (kernel_new st identity history) (λ _ k', scanned k') (λ _ _, False).
Proof.
  intros Hst Hstop. unfold recover. apply wp_bind, wp_guard, wp_bind, wp_on_store.
  eapply wp_mono; [apply repair_desired_done, Hst| |done]. intros [] s1 Hc.
  pose proof (calm_healthy _ _ Hc Hst) as Hs1. cbv beta.
  assert (live_execution_ids admission_default = ∅) as Hlive by (vm_compute; done).
  simpl. rewrite Hlive. apply wp_bind, wp_on_store. simpl.
  unfold recover_unfinished_operations. apply wp_bind, wp_io_call; [apply Hs1|].
  apply wp_bind, wp_get.
  eapply wp_mono; [apply recover_entries_done; [done|]| |done].
  { intros name o Ho. simpl. destruct Hc as [[Hops _] _].
    destruct (is_terminal (so_state o)) eqn:Ht; [by left|right; left]. split.
    - apply dir_entries_elem. by exists (OpRec o).
    - intros Hk. rewrite Hops in Ho. destruct (Hstop _ _ Ho Hk); congruence. }
  intros scan s2 (Hs2 & Hinv & _). apply wp_bind, wp_upd, wp_bind, wp_upd, wp_bind.
  set (k1 := set_adm _ _).
  assert (scanned k1) as Hk1.
  { split_and!; [done|done|done|]. intros name o Ho. simpl.
    destruct (Hinv name o Ho) as [?|[[Hin _]|[Hin ?]]]; [by left|by apply not_elem_of_nil in Hin|].
    right. split; [set_solver|done]. }
  eapply (wp_foreach scanned); [done| |intros k' ?; by apply wp_ret].
  intros id k' _ Hk'. pose proof (recover_cancellation_protection id k') as Hp.
  pose proof (recover_cancellation_total id k') as Htot. unfold wp in *.
  destruct (recover_cancellation id k') as [[] k2]; [|done].
  by eapply only_protection_scanned.
Qed.

(** ** The settlement *)

Definition settle_inv (todo : list string) (k : Kernel) : Prop :=
  healthy (k_store k) ∧ slots_idle (k_adm k) = true ∧ live_execution_ids (k_adm k) = ∅
  ∧ ∀ name o, operations (k_store k) !! name = Some (OpRec o) →
      is_terminal (so_state o) = true
      ∨ (name ∈ todo ∧ name ∈ recovered_operations (k_adm k) ∧ v_kind (so_view o) ≠ Stop).

Lemma settle_inv_skip name todo k :
  (∀ o, operations (k_store k) !! name = Some (OpRec o) → is_terminal (so_state o) = true) →
  settle_inv (name :: todo) k → settle_inv todo k.
Proof using Type.
  intros Hname (? & ? & ? & Hall). split_and!; try done. intros n o Ho.
  destruct (Hall n o Ho) as [?|(Hin & ? & ?)]; [by left|].
  apply elem_of_cons in Hin as [->|?]; eauto.
Qed.

Lemma slots_idle_spec a :
  slots_idle a = true →
  active_operation_id a = None ∧ pending_stop a = None ∧ pending_restart a = None.
Proof using Type.
  unfold slots_idle, is_none, is_some. by destruct (active_operation_id a), (pending_stop a), (pending_restart a).
Qed.

(** The record of one interrupted operation, and the rest of the store. *)
Lemma settle_inv_done name todo k k' o :
  settle_inv (name :: todo) k → so_id o = name →
  healthy (k_store k') →
  operations (k_store k') = <[name := OpRec (interrupted_record o)]> (operations (k_store k)) →
  k_adm k' = set_recovered_operations (recovered_operations (k_adm k) ∖ {[name]}) (k_adm k) →
  settle_inv todo k'.
Proof using Type.
  intros (? & Hidle & Hlive & Hall) Hid Hh Ho Ha. unfold settle_inv. rewrite Ha. simpl.
  split_and!; [done|done|done|]. intros n o'. rewrite Ho.
  destruct (decide (n = name)) as [->|Hne].
  - rewrite lookup_insert_eq. intros; simplify_eq. left. unfold interrupted_record. by case_match.
  - rewrite lookup_insert_ne by done. intros Hn. destruct (Hall n o' Hn) as [?|(Hin & ? & ?)]; [by left|].
    right. set_solver.
Qed.

(** Emitting an event never fails its caller. *)
Lemma emit_with_payload_total {E} id st sv n p k :
  wp (E := E) (emit_with_payload id st sv n p) k (λ _ k', k_calm k k') (λ _ _, False).
Proof using Type.
  pose proof (emit_with_payload_calm (E := E) id st sv n p k) as Hc.
  assert (wp (E := E) (emit_with_payload id st sv n p) k (λ _ _, True) (λ _ _, False)) as Ht.
  { unfold emit_with_payload. apply wp_bind, wp_try.
    eapply wp_mono; [apply (wp_total _ _ True); done| |]; intros h k1 _; [|by apply wp_ret].
    case_match; [by apply wp_ret|]. case_match; [|by apply wp_ret].
    apply wp_bind, wp_get, wp_bind, wp_try.
    eapply wp_mono; [apply (wp_total _ _ True); done| |]; intros r k2 _; by apply wp_ret. }
  unfold wp in *. by destruct (emit_with_payload _ _ _ _ _ k) as [[] ?].
Qed.
Lemma emit_terminal_total {E} o k :
  wp (E := E) (emit_terminal_record o) k (λ _ k', k_calm k k') (λ _ _, False).
Proof using Type.
  unfold emit_terminal_record. apply wp_bind.
  eapply wp_mono; [apply emit_with_payload_total|intros ???; by apply wp_ret|done].
Qed.

Lemma settle_record_done o b k :
  healthy (k_store k) → v_kind (so_view o) ≠ Stop →
  wp (settle_record o b) k
    (λ _ k', healthy (k_store k')
      ∧ operations (k_store k') = <[so_id o := OpRec (interrupted_record o)]> (operations (k_store k))
      ∧ k_adm k' = k_adm k)
    (λ _ _, False).
Proof using Type.
  intros Hh Hk. unfold settle_record. rewrite bool_decide_eq_false_2 by done.
  apply wp_bind, wp_on_store. unfold settle_interrupted_operation.
  apply wp_bind, wp_store_operation; [apply Hh|]. apply wp_ret.
  apply (healthy_publish (interrupted_record o)) in Hh. rewrite interrupted_id in Hh |- *.
  assert (∀ k1, k_store k1 = set_operations (<[so_id o:=OpRec (interrupted_record o)]>) (k_store k) →
    k_adm k1 = k_adm k →
    wp (E := string) (emit_terminal_record (interrupted_record o)) k1
    (λ _ k', healthy (k_store k')
      ∧ operations (k_store k') = <[so_id o := OpRec (interrupted_record o)]> (operations (k_store k))
      ∧ k_adm k' = k_adm k) (λ _ _, False)) as Hemit.
  { intros k1 Hs1 Ha1. eapply wp_mono; [apply emit_terminal_total| |done].
    intros u k2 (Hc & Ha2 & _). rewrite Hs1 in Hc. split_and!; [by eapply calm_healthy| |congruence].
    by destruct Hc as [[-> _] _]. }
  apply wp_bind. destruct b; [apply wp_modify|apply wp_ret]; by apply Hemit.
Qed.

Lemma settle_entry_done name names ids k :
  settle_inv (name :: names) k →
  wp (settle_entry name ids) k (λ _ k', settle_inv names k') (λ _ _, False).
Proof using Type.
  intros Hinv. pose proof Hinv as (Hh & Hidle & Hlive & Hall).
  unfold settle_entry. apply wp_bind, wp_on_store, wp_io_call; [apply Hh|].
  rewrite set_store_id. apply wp_bind, wp_get.
  destruct (operations (k_store k) !! name) as [f|] eqn:Hf.
  2: { apply wp_ret. eapply settle_inv_skip; [|done]. congruence. }
  destruct (h_readable _ Hh _ _ Hf) as [o ->].
  assert (so_id o = name) as Hid by by apply (h_names _ Hh).
  destruct (is_terminal (so_state o)) eqn:Ht.
  { unfold settle_skips. rewrite Ht. simpl.
    apply wp_ret. eapply settle_inv_skip; [|done]. congruence. }
  destruct (Hall _ _ Hf) as [?|(_ & Hrec & Hk)]; [congruence|].
  apply slots_idle_spec in Hidle as (Ha & Hp & Hr).
  unfold settle_skips. rewrite Ht, Ha, Hp, Hr, Hid. simpl.
  rewrite (bool_decide_eq_false_2 (name ∉ _)) by (intros Hn; by apply Hn). simpl.
  apply wp_bind, wp_try, wp_on_store.
  eapply wp_mono; [apply cancellation_recorded_calm| |]; intros r s1 Hc; cbv beta; apply wp_bind;
    (eapply wp_mono; [apply settle_record_done; [exact (calm_healthy _ _ Hc Hh)|done]| |done]);
    intros u k2 (Hh2 & Ho2 & Ha2); apply wp_bind, wp_upd, wp_ret;
    (eapply settle_inv_done; [exact Hinv|exact Hid|exact Hh2| |simpl; by rewrite Ha2]);
    simpl in *; destruct Hc as [[Hc _] _]; by rewrite Ho2, Hc, Hid.
Qed.

Lemma settle_entries_done names ids k :
  settle_inv names k →
  wp (settle_entries names ids) k (λ _ k', settle_inv [] k') (λ _ _, False).
Proof using Type.
  revert ids k. induction names as [|name names IH]; intros ids k Hinv; simpl; [by apply wp_ret|].
  apply wp_bind. eapply wp_mono; [by apply settle_entry_done| |done]. intros ids' k' Hk'. by apply IH.
Qed.

Lemma unresolved_scan_clean names s :
  healthy s → (∀ name, name ∈ names → is_Some (operations s !! name)) →
  (∀ name o, operations s !! name = Some (OpRec o) → is_terminal (so_state o) = true) →
  unresolved_scan ∅ names s = (Ok false, s).
Proof using Type.
  intros Hh Hnames Hall. induction names as [|name names IH]; simpl; [done|].
  unfold mbind', mget. rewrite io_call_ok by apply Hh.
  destruct (Hnames name) as [f Hf]; [by left|]. rewrite Hf.
  destruct (h_readable _ Hh _ _ Hf) as [o ->]. rewrite (Hall _ _ Hf).
  rewrite bool_decide_eq_false_2 by set_solver. apply IH. intros n Hn. apply Hnames. by right.
Qed.

(** ** Together *)

Definition all_ended (k : Kernel) : Prop :=
  ∀ name f, operations (k_store k) !! name = Some f →
    ∃ o, f = OpRec o ∧ is_terminal (so_state o) = true.

Lemma refresh_clean {E} k :
  settle_inv [] k →
  wp (E := E) refresh_recovery_protection k
    (λ _ k', all_ended k' ∧ recovery_protection (k_adm k') = false ∧ k_store k' = k_store k
       ∧ slots_idle (k_adm k') = true)
    (λ _ _, False).
Proof.
  intros (Hh & Hidle & Hlive & Hall). unfold refresh_recovery_protection.
  apply wp_bind, wp_guard, wp_bind, wp_try, wp_on_store, wp_bind, wp_io_call; [apply Hh|].
  apply wp_bind, wp_get. rewrite Hlive. unfold wp at 1. rewrite unresolved_scan_clean; [|done| |].
  - apply wp_upd. simpl. split_and!; try done. intros name f Hf. simpl in Hf.
    destruct (h_readable _ Hh _ _ Hf) as [o ->]. exists o. split; [done|].
    destruct (Hall _ _ Hf) as [?|(Hin & _)]; [done|by apply not_elem_of_nil in Hin].
  - intros name Hn. by apply dir_entries_elem.
  - intros name o Ho. destruct (Hall _ _ Ho) as [?|(Hin & _)]; [done|by apply not_elem_of_nil in Hin].
Qed.

Lemma settle_done k :
  scanned k →
  wp settle_unresolved_recoveries k
    (λ _ k', all_ended k' ∧ recovery_protection (k_adm k') = false ∧ slots_idle (k_adm k') = true)
    (λ _ _, False).
Proof.
  intros (Hh & Hidle & Hlive & Hall). unfold settle_unresolved_recoveries.
  apply wp_bind, wp_on_store, wp_io_call; [apply Hh|]. rewrite set_store_id.
  apply wp_bind, wp_get, wp_bind.
  eapply wp_mono; [apply settle_entries_done| |done].
  { split_and!; try done. intros name o Ho. destruct (Hall _ _ Ho) as [?|[? ?]]; [by left|right].
    split_and!; try done. apply dir_entries_elem. by exists (OpRec o). }
  intros ids k1 Hk1. apply wp_bind. eapply wp_mono; [by apply refresh_clean| |done].
  intros [] k2 (? & ? & ? & ?). by apply wp_ret.
Qed.

(** C37: Startup recovery completes.  Over a readable state root on a
    working disk in which no Stop has an unknown outcome, the startup scan
    and the settlement both succeed, every record has ended, and recovery
    protection is off, whatever the previous owner left unfinished. *)
Theorem startup_recovery_completes st identity history :
  healthy st → no_unknown_stop st →
  ∃ recovered k1 settled k2,
    recover (kernel_new st identity history) = (Ok recovered, k1)
    ∧ settle_unresolved_recoveries k1 = (Ok settled, k2)
    ∧ all_ended k2
    ∧ recovery_protection (k_adm k2) = false
    ∧ slots_idle (k_adm k2) = true.
Proof.
  intros Hst Hstop. pose proof (recover_done st identity history Hst Hstop) as Hr.
  unfold wp in Hr. destruct (recover _) as [[rs|e] k1] eqn:Heq; [|done].
  pose proof (settle_done k1 Hr) as Hs. unfold wp in Hs.
  destruct (settle_unresolved_recoveries k1) as [[ids|e] k2] eqn:Heq2; [|done].
  exists rs, k1, ids, k2. naive_solver.
Qed.
End recovery.

(** ** Admission into an idle owner *)

Section idle.
Context `{RequestHash, DirOrder}.

Lemma wp_load_desired s Q X : io s = [] → Q (current_desired s) s → wp load_desired s Q X.
Proof using Type.
  intros Hio HQ. unfold load_desired. wp_steps. apply wp_io_call; [done|].
  unfold current_desired in HQ. by repeat case_match; apply wp_ret.
Qed.

Lemma wp_store_desired d r s Q X :
  io s = [] → wf_desired s →
  (∀ boot, Q tt (set_desired (DObject (Some d) (Some r) boot) s)) →
  wp (store_desired d r) s Q X.
Proof using Type.
  intros Hio W HQ. unfold store_desired, desired_object. wp_steps. apply wp_io_call; [done|].
  unfold wf_desired in W. destruct (desired_json s); try done;
    apply wp_ret, wp_write_json; auto.
Qed.

(** Nothing stands in the way of a new request. *)
Record open_for (k : Kernel) (request : RuntimeOperationRequest) : Prop := {
  of_healthy : healthy (k_store k);
  of_desired : wf_desired (k_store k);
  of_new : operations (k_store k) !! rq_operation_id request = None;
  of_precheck : is_ok (admit_precheck (k_identity k) request) = true;
  of_kind : rq_kind request ≠ Stop;
  of_revision : rq_expected_revision request = current_revision (k_store k);
  of_protection : recovery_protection (k_adm k) = false;
  of_idle : slots_idle (k_adm k) = true;
  of_foreground : foreground_exiting_operation (k_adm k) = None;
}.

Lemma admit_precheck_digest identity request d :
  admit_precheck identity request = Ok d → d = runtime_request_digest request.
Proof using Type.
  unfold admit_precheck, result_bind, ensure. intros Hpre. repeat case_match; by simplify_eq.
Qed.

Lemma place_active_done o k :
  slots_idle (k_adm k) = true →
  wp (place_active o) k (λ _ k', k' = set_adm (set_active_operation_id (Some (so_id o))) k)
    (λ _ _, False).
Proof using Type.
  intros Hidle%slots_idle_spec. destruct Hidle as (_ & _ & Hr).
  unfold place_active, settle_queued_restart_for_admission. wp_steps. rewrite Hr. by wp_steps.
Qed.

Lemma admit_fresh_done k request d :
  open_for k request →
  wp (admit_fresh request d false None None) k
    (λ out k',
       let o := accepted_record (k_identity k) request d (current_revision (k_store k)) in
       out = OutAccepted (so_view o)
       ∧ active_operation_id (k_adm k') = Some (rq_operation_id request)
       ∧ operations (k_store k') !! rq_operation_id request = Some (OpRec o)
       ∧ k_dispatched k' = k_dispatched k ++ [dispatch_action_for o])
    (λ _ _, False).
Proof.
  intros [Hh W Hnew Hpre Hk Hrev Hprot Hidle Hfg]. unfold admit_fresh, admit_holds.
  pose proof (slots_idle_spec _ Hidle) as (Ha & Hps & Hpr).
  rewrite !(bool_decide_eq_false_2 (rq_kind request = Stop)) by done.
  apply wp_bind, wp_bind, wp_guard. rewrite Hfg. apply wp_ret.
  unfold admit_protection. apply wp_bind, wp_bind, wp_guard. rewrite Hprot. simpl. apply wp_ret.
  unfold backend. apply wp_bind, wp_map_err, wp_on_store, wp_load_desired; [apply Hh|].
  rewrite set_store_id. destruct (current_desired (k_store k)) as [d0 r0] eqn:Hcur.
  assert (r0 = current_revision (k_store k)) as -> by by unfold current_revision; rewrite Hcur.
  apply wp_bind, wp_guard, wp_bind, wp_ret, wp_bind, wp_ensure.
  rewrite Hrev, Z.eqb_refl. apply wp_bind, wp_ret, wp_bind.
  unfold admit_busy. apply wp_bind, wp_guard. rewrite Hps, Ha. simpl. rewrite orb_true_r.
  apply wp_ret, wp_bind, wp_get. set (o := accepted_record _ _ _ _).
  apply wp_bind. unfold admit_persist, backend.
  apply wp_bind, wp_map_err, wp_on_store, wp_store_operation; [apply Hh|].
  simpl. rewrite (bool_decide_eq_false_2 (rq_kind request = Stop)) by done.
  apply wp_bind, wp_try, wp_on_store, wp_store_desired; [apply Hh|done|]. intros boot.
  apply wp_ret, wp_bind. unfold admit_place. apply wp_bind, wp_guard. simpl. rewrite Ha, Hps. simpl.
  apply wp_bind. eapply wp_mono; [by apply place_active_done| |done]. intros [] k1 ->.
  apply wp_ret, wp_bind, wp_upd, wp_bind. unfold emit. apply wp_bind.
  eapply wp_mono; [apply emit_with_payload_total| |done]. intros b k2 (Hc & Ha2 & Hd2).
  apply wp_ret, wp_bind, wp_dispatch, wp_ret. simpl in *.
  split_and!; [done|by rewrite Ha2| |by rewrite Hd2].
  destruct Hc as [[Hc _] _]. rewrite Hc. simpl. apply lookup_insert_eq.
Qed.

(** An idle owner executes what it is asked.  With a working disk and
    nothing in the way, a start, restart or deployment that names the
    current revision is accepted, recorded, given the active slot and handed
    to the execution loop, in one step. *)
Theorem idle_owner_executes k request :
  open_for k request →
  let o := accepted_record (k_identity k) request (runtime_request_digest request)
             (current_revision (k_store k)) in
  ∃ k', admit_request request k = (Ok (OutAccepted (so_view o)), k')
    ∧ active_operation_id (k_adm k') = Some (rq_operation_id request)
    ∧ operations (k_store k') !! rq_operation_id request = Some (OpRec o)
    ∧ k_dispatched k' = k_dispatched k ++ [dispatch_action_for o].
Proof.
  intros Hopen o.
  assert (wp (admit_request request) k (λ out k', out = OutAccepted (so_view o)
    ∧ active_operation_id (k_adm k') = Some (rq_operation_id request)
    ∧ operations (k_store k') !! rq_operation_id request = Some (OpRec o)
    ∧ k_dispatched k' = k_dispatched k ++ [dispatch_action_for o]) (λ _ _, False)) as Hwp.
  { unfold admit_request, admit_with_auxiliary_hold. apply wp_bind, wp_get, wp_bind, wp_lift.
    destruct (admit_precheck _ _) as [d|] eqn:Hpre;
      [|by pose proof (of_precheck _ _ Hopen) as Hok; rewrite Hpre in Hok].
    apply admit_precheck_digest in Hpre as ->. unfold backend.
    apply wp_bind, wp_map_err, wp_on_store, wp_load_operation; [apply Hopen|].
    intros r Hr. rewrite (of_new _ _ Hopen) in Hr. destruct r; [done|].
    rewrite set_store_id. by apply admit_fresh_done. }
  unfold wp in Hwp. destruct (admit_request request k) as [[out|e] k']; [|done].
  destruct Hwp as (-> & ? & ? & ?). by exists k'.
Qed.
End idle.

(** ** A Stop with an unknown outcome *)

(** What an owner does at startup. *)
Definition startup_round : list KOp :=
  [DoRestart sample_identity; DoRecover; DoReconcileStop; DoSettle].

(** An owner whose Stop ended in RecoveryRequired, after one startup. *)
Definition wedged : Kernel :=
  sample_run ([sample_admit "op-1" Stop 0; DoFinish "op-1" RecoveryRequired None None]
              ++ startup_round).

Lemma wedged_fixpoint : @run sample_hash sample_dir startup_round wedged = wedged.
Proof. vm_compute. reflexivity. Qed.

Lemma wedged_rounds n :
  @run sample_hash sample_dir (concat (replicate n startup_round)) wedged = wedged.
Proof.
  induction n as [|n IH]; [reflexivity|]. cbn [replicate concat].
  rewrite run_app. rewrite wedged_fixpoint. exact IH.
Qed.

(** A Stop left in RecoveryRequired closes the owner for good.  The
    settlement reports such a Stop as settled but leaves its record as it is
    (it goes through [write_terminal], which does not overwrite
    RecoveryRequired), so protection stays up: however often the owner is
    restarted and recovered, on a working disk, a start is refused with
    ERR_RECOVERY_REQUIRED. *)
Theorem unknown_stop_wedges_owner n :
  let k := @run sample_hash sample_dir (concat (replicate n startup_round)) wedged in
  recovery_protection (k_adm k) = true
  ∧ so_state <$> record_of k "op-1" = Some RecoveryRequired
  ∧ (@admit_request sample_hash sample_dir (sample_request "op-2" Start 1) k).1
    = Err (mkRej ERR_RECOVERY_REQUIRED None).
Proof.
  intros k. subst k. rewrite wedged_rounds. repeat split; vm_compute; reflexivity.
Qed.

(** ** The precise recovery of a Stop *)

(** What admission records: the revision the request expected. *)
Definition admitted_revisions (s : Store) : Prop :=
  ∀ name o, operations s !! name = Some (OpRec o) →
    v_revision (so_view o) = rq_expected_revision (so_request o).

Lemma find_quiesced_stop_none `{RequestHash} identity revision names s :
  admitted_revisions s →
  wp (find_quiesced_stop identity revision names None) s (λ c _, c = None) (λ _ _, True).
Proof.
  revert s. induction names as [|name names IH]; intros s Hs; simpl; [by apply wp_ret|].
  apply wp_bind. eapply wp_mono; [apply io_call_same| |done]. intros [] s1 [Hs1 _].
  apply wp_bind, wp_get.
  assert (admitted_revisions s1) as Hadm by by unfold admitted_revisions; rewrite Hs1.
  destruct (operations s1 !! name) as [[o|?|?]|] eqn:Ho; try by apply wp_fail.
  case_match eqn:Hc; [by apply IH|].
  apply orb_false_iff in Hc as [_ Hrev%negb_false_iff%Z.eqb_eq].
  apply wp_bind, wp_ensure. case_match eqn:Hb; [|done]. exfalso.
  rewrite !andb_true_iff, !bool_decide_eq_true in Hb. destruct Hb as [[_ Hsucc] _].
  apply u64_checked_succ_Some in Hsucc. rewrite <- (Hadm _ _ Ho), Hrev in Hsucc. lia.
Qed.

(** The precise recovery of a Stop never applies.  It looks for a Stop
    whose recorded revision is the current one and whose request expected the
    one before; but admission records the expected revision itself, so no
    record an owner wrote can match, and the method never reports success. *)
Theorem quiesced_stop_never_found `{RequestHash, DirOrder} k :
  admitted_revisions (k_store k) → (reconcile_quiesced_stop k).1 ≠ Ok true.
Proof.
  intros Hadm.
  assert (wp reconcile_quiesced_stop k (λ r _, r = false) (λ _ _, True)) as Hwp.
  { unfold reconcile_quiesced_stop. apply wp_bind, wp_get, wp_bind, wp_ensure.
    case_match; [|done]. apply wp_bind, wp_on_store.
    eapply wp_mono; [apply load_desired_same| |done]. intros [d r] s1 [Hs1 _].
    case_match; [by apply wp_ret|]. apply wp_bind, wp_on_store.
    eapply wp_mono; [apply io_call_same| |done]. intros [] s2 [Hs2 _].
    apply wp_bind, wp_on_store, wp_bind, wp_get.
    eapply wp_mono; [apply find_quiesced_stop_none| |done].
    - unfold admitted_revisions. simpl in *. by rewrite Hs2, Hs1.
    - intros c s3 ->. by apply wp_ret. }
  unfold wp in Hwp. destruct (reconcile_quiesced_stop k) as [[b|e] k']; simpl; congruence.
Qed.

(** ** Instances *)

(** An owner that died with a start running and a restart waiting. *)
Definition abandoned : Kernel :=
  sample_run [sample_admit "op-1" Start 0; sample_admit "op-2" Restart 0].

(** Checking a property of all records by evaluation. *)
Definition all_records (p : string → OpFile → bool) (s : Store) : bool :=
  forallb (λ nf, p nf.1 nf.2) (map_to_list (operations s)).
Lemma all_records_spec p s name f :
  all_records p s = true → operations s !! name = Some f → p name f = true.
Proof.
  unfold all_records. rewrite forallb_forall. intros Hall Hf.
  apply (Hall (name, f)), list_elem_of_In. by apply elem_of_map_to_list.
Qed.

Lemma startup_recovery_completes_witness :
  ∃ recovered k1 settled k2,
    @recover sample_dir (kernel_new (k_store abandoned) sample_identity []) = (Ok recovered, k1)
    ∧ @settle_unresolved_recoveries sample_dir k1 = (Ok settled, k2)
    ∧ all_ended k2 ∧ recovery_protection (k_adm k2) = false ∧ slots_idle (k_adm k2) = true.
Proof.
  apply (@startup_recovery_completes sample_dir (k_store abandoned) sample_identity []).
  - split; [vm_compute; reflexivity|apply sample_run_names|].
    intros name f Hf.
    assert (match f with OpRec _ => true | _ => false end = true) as Hr.
    { apply (all_records_spec (λ _ f, match f with OpRec _ => true | _ => false end) (k_store abandoned) name);
        [vm_compute; reflexivity|exact Hf]. }
    destruct f as [o| |]; [by exists o|done|done].
  - intros name o Ho Hk. exfalso.
    assert (negb (bool_decide (v_kind (so_view o) = Stop)) = true) as Hn.
    { apply (all_records_spec (λ _ f, match f with OpRec o => negb (bool_decide (v_kind (so_view o) = Stop)) | _ => true end)
               (k_store abandoned) name (OpRec o)); [vm_compute; reflexivity|exact Ho]. }
    by rewrite bool_decide_eq_true_2 in Hn.
Defined.

Lemma idle_owner_executes_witness :
  ∃ k', @admit_request sample_hash sample_dir (sample_request "op-1" Start 0) sample_kernel
        = (Ok (OutAccepted (so_view (sample_record "op-1" Start 0))), k')
    ∧ k_dispatched k' = [OrchestrateSource "op-1" true None].
Proof.
  destruct (@idle_owner_executes sample_hash sample_dir sample_kernel (sample_request "op-1" Start 0))
    as (k' & Ha & _ & _ & Hd).
  - split; try solve [vm_compute; reflexivity|vm_compute; discriminate|exact I].
    split; [reflexivity| |]; intros name f; cbn; by rewrite lookup_empty.
  - exists k'. split; [exact Ha|]. rewrite Hd. vm_compute. reflexivity.
Defined.

Lemma quiesced_stop_never_found_witness :
  let k := sample_run [sample_admit "op-1" Stop 0; DoFinish "op-1" RecoveryRequired None None;
                       DoRestart sample_identity; DoRecover] in
  so_state <$> record_of k "op-1" = Some RecoveryRequired
  ∧ (@reconcile_quiesced_stop sample_hash sample_dir k).1 ≠ Ok true.
Proof.
  intros k. split; [vm_compute; reflexivity|].
  apply (@quiesced_stop_never_found sample_hash sample_dir k).
  intros name o Ho.
  assert ((v_revision (so_view o) =? rq_expected_revision (so_request o))%Z = true) as Hn.
  { apply (all_records_spec (λ _ f, match f with OpRec o => (v_revision (so_view o) =? rq_expected_revision (so_request o))%Z | _ => true end)
             (k_store k) name (OpRec o)); [vm_compute; reflexivity|exact Ho]. }
  by apply Z.eqb_eq.
Defined.
