(* ===== verification/KernelAdmission.v ===== *)
(** * Admission, branch by branch

    Rejections leave the owner as it was, the newest request wins the queue,
    the revision counter does not wrap, and the one write after which admission
    can leave a record nobody owns. *)
From S2P Require Import Prelude Validation RuntimeControl RuntimeStore RuntimeKernel KernelFrame KernelSamples KernelRevision KernelCancel KernelRecovery.
Import Err.
Local Open Scope rust_scope.

(** ** Rejections without effect *)

(** Only scheduled I/O answers were used up. *)
Definition io_only (s s' : Store) : Prop := ∃ i, s' = set_io i s.
Definition untouched (k k' : Kernel) : Prop := ∃ i, k' = set_store (set_io i (k_store k)) k.

#[export] Instance io_only_preorder : PreOrder io_only.
Proof.
  split; [intros s; exists (io s); by destruct s|].
  intros s1 s2 s3 [i1 ->] [i2 ->]. by exists i2.
Qed.
#[export] Instance untouched_preorder : PreOrder untouched.
Proof.
  split.
  - intros k. exists (io (k_store k)). destruct k as [s]. by destruct s.
  - intros k1 k2 k3 [i1 ->] [i2 ->]. by exists i2.
Qed.

Lemma next_io_only : preserves io_only next_io.
Proof. intros s. unfold wp, next_io. destruct (io s) eqn:Hi; [reflexivity|by eexists]. Qed.
#[export] Hint Resolve next_io_only : frame.
Lemma io_call_only ctx : preserves io_only (io_call ctx).
Proof. unfold io_call. preserve. Qed.
#[export] Hint Resolve io_call_only : frame.
Lemma load_operation_only id : preserves io_only (load_operation id).
Proof. unfold load_operation. preserve. Qed.
Lemma load_desired_only : preserves io_only load_desired.
Proof. unfold load_desired. preserve. Qed.
#[export] Hint Resolve load_operation_only load_desired_only : frame.
Lemma on_store_untouched {E A} (m : M Store E A) :
  preserves io_only m → preserves untouched (on_store m).
Proof.
  intros Hm k. apply wp_on_store. eapply wp_mono; [apply Hm| |]; intros ? s [i ->]; by exists i.
Qed.
Lemma guard_untouched {E} : preserves (E := E) untouched guard.
Proof. apply preserves_gets, _. Qed.
#[export] Hint Extern 2 (preserves untouched (on_store _)) => apply on_store_untouched : frame.
#[export] Hint Resolve guard_untouched : frame.

(** Rejections that are answers; the others report a failed disk or an
    unresolved recovery. *)
Definition is_refusal (code : string) : bool :=
  negb (bool_decide (code = ERR_BACKEND_ERROR) || bool_decide (code = ERR_RECOVERY_REQUIRED)).

Section rejections.
Context `{RequestHash, DirOrder}.

Lemma admit_holds_untouched r h n a : preserves untouched (admit_holds r h n a).
Proof. unfold admit_holds, reject. preserve. Qed.
Lemma admit_busy_untouched b : preserves untouched (admit_busy b).
Proof. unfold admit_busy, backend, reject. preserve. Qed.
#[local] Hint Resolve admit_holds_untouched admit_busy_untouched : frame.

(** Code whose only rejections are disk and recovery reports. *)
Definition commits {A} (m : AM A) : Prop :=
  ∀ k, wp m k (λ _ _, True) (λ e _, is_refusal (rej_code e) = false).

Lemma commits_ok {A} (m : AM A) : (∀ k, is_ok (m k).1 = true) → commits m.
Proof using Type. intros Hm k. specialize (Hm k). unfold wp. by destruct (m k) as [[] ?]. Qed.
Lemma commits_bind {A B} (m : AM A) (f : A → AM B) :
  commits m → (∀ a, commits (f a)) → commits (mbind' m f).
Proof using Type.
  intros Hm Hf k. apply wp_bind. eapply wp_mono; [apply Hm| |done]. intros a k' _. apply Hf.
Qed.
Lemma commits_try {E A} (m : M Kernel E A) : commits (mtry m).
Proof using Type. apply commits_ok. intros k. unfold mtry. by destruct (m k). Qed.
Lemma commits_emit id st sv n p : commits (emit_with_payload id st sv n p).
Proof using Type.
  intros k. eapply wp_mono; [apply emit_with_payload_total|done|done].
Qed.
Lemma commits_backend {A} (m : KM A) : commits (backend m).
Proof using Type. intros k. unfold wp, backend, mmap_err. by destruct (m k) as [[] ?]. Qed.

#[local] Ltac commit_steps := repeat
  lazymatch goal with
  | |- commits (mbind' _ _) => apply commits_bind; [|intro]
  | |- commits (mtry _) => apply commits_try
  | |- commits (emit_with_payload _ _ _ _ _) => apply commits_emit
  | |- commits (backend _) => apply commits_backend
  | |- commits (match _ with _ => _ end) => case_match
  | |- commits (mfail (mkRej ERR_RECOVERY_REQUIRED _)) => by intros k
  | |- commits _ => apply commits_ok; by intros k
  end.

Lemma reject_partial_commits {A} o r : commits (A := A) (reject_partial o r).
Proof using Type.
  unfold reject_partial, hold_partial_admission. intros k.
  apply wp_bind, wp_upd, wp_bind, wp_bind. eapply wp_mono; [apply commits_try| |done].
  intros x k1 _. apply wp_bind.
  eapply (wp_mono _ _ (λ _ _, True) _ (λ _ _, False)); [|intros; by wp_steps|done].
  destruct x; [|by apply wp_ret]. eapply wp_mono; [apply emit_terminal_total|done|done].
Qed.
Lemma admit_persist_commits o r n : commits (admit_persist o r n).
Proof using Type. unfold admit_persist. commit_steps; apply reject_partial_commits. Qed.
Lemma admit_place_commits o b l : commits (admit_place o b l).
Proof using Type.
  unfold admit_place, place_stop, place_queued, place_active, cancel_superseded_source.
  commit_steps; apply reject_partial_commits.
Qed.

(** From the first write on. *)
Lemma admit_tail_commits o r n is_stop latest :
  commits (
    admit_persist o r n ;;;
    let! queued := admit_place o is_stop latest in
    upd (set_latest_admitted_operation_id (Some (so_id o))) ;;;
    emit (so_id o) "accepted" None (Some (kind_as_str (v_kind (so_view o)))) ;;;
    (if (queued : bool) then mret' tt else dispatch (dispatch_action_for o)) ;;;
    mret' (OutAccepted (so_view o))).
Proof using Type.
  unfold emit. apply commits_bind; [apply admit_persist_commits|intros _].
  apply commits_bind; [apply admit_place_commits|intros queued]. commit_steps.
Qed.

Lemma wp_untouched_bind {A B} (m : AM A) (f : A → AM B) k0 k (Q : B → Kernel → Prop)
    (X : AdmissionRejection → Kernel → Prop) :
  untouched k0 k → preserves untouched m →
  (∀ a k', untouched k0 k' → wp (f a) k' Q X) →
  (∀ e k', untouched k0 k' → X e k') →
  wp (mbind' m f) k Q X.
Proof using Type.
  intros Hq Hm Hf HX. apply wp_bind.
  eapply wp_mono; [apply Hm| |]; intros ? k' H'; [apply Hf|apply HX]; by etrans.
Qed.

Definition refused (k : Kernel) (e : AdmissionRejection) (k' : Kernel) : Prop :=
  is_refusal (rej_code e) = true → untouched k k'.

Lemma admit_fresh_refused request d h n a k :
  recovery_protection (k_adm k) = false →
  wp (admit_fresh request d h n a) k (λ _ _, True) (refused k).
Proof.
  intros Hp. unfold admit_fresh.
  assert (untouched k k) as H0' by reflexivity.
  eapply wp_untouched_bind; [eassumption|preserve|intros ???|unfold refused; auto].
  match goal with Hs : untouched k ?kk |- wp _ ?kk _ _ => destruct Hs as [i ->] end.
  unfold admit_protection. apply wp_bind, wp_bind, wp_guard. simpl. rewrite Hp. simpl. apply wp_ret.
  match goal with |- wp _ ?kk _ _ => assert (untouched k kk) as H1' by by exists i end.
  eapply wp_untouched_bind; [eassumption|unfold backend; preserve|intros [dd revision] k3 H3'|unfold refused; auto].
  do 6 (eapply wp_untouched_bind; [eassumption|unfold reject; preserve|intros ???|unfold refused; auto]).
  eapply wp_mono; [apply admit_tail_commits|done|]. intros e kz He. unfold refused. congruence.
Qed.

(** A refusal changes nothing.  When no recovery is pending, a request
    that is turned down for what it asks (invalid, unsupported, wrong
    instance or workspace, conflicting id, busy, stale revision) leaves the
    records, the intent, the logs, the slots, the queue and the dispatch
    history exactly as they were. *)
Theorem refusal_changes_nothing request h n a k e k' :
  recovery_protection (k_adm k) = false →
  admit_with_auxiliary_hold request h n a k = (Err e, k') →
  is_refusal (rej_code e) = true →
  ∃ i, k' = set_store (set_io i (k_store k)) k.
Proof.
  intros Hp Heq.
  assert (wp (admit_with_auxiliary_hold request h n a) k (λ _ _, True) (refused k)) as Hwp.
  { unfold admit_with_auxiliary_hold. apply wp_bind, wp_get.
    eapply wp_untouched_bind; [reflexivity|preserve|intros digest k1 H1'|unfold refused; auto].
    unfold backend. apply wp_bind, wp_map_err, wp_on_store.
    eapply wp_mono; [apply load_operation_only| |].
    2: { by intros x s ?. }
    intros existing s1 [i ->]. destruct H1' as [i1 ->]. simpl in *.
    match goal with |- wp _ ?kk _ _ => assert (untouched k kk) as Hu by by exists i end.
    destruct existing.
    - case_match; [by apply wp_ret|apply wp_fail]. by intros _.
    - eapply wp_mono; [by apply admit_fresh_refused|done|]. intros e' k2 Hr He.
      etrans; [exact Hu|by apply Hr]. }
  apply (wp_err _ _ _ _ _ _ Hwp Heq).
Qed.

(** C38: The revision counter does not wrap.  At the largest [u64] revision
    a Stop is turned down before anything is written: the error code is
    ERR_BACKEND_ERROR and the owner is unchanged. *)
Theorem stop_at_last_revision k request :
  healthy (k_store k) →
  operations (k_store k) !! rq_operation_id request = None →
  is_ok (admit_precheck (k_identity k) request) = true →
  rq_kind request = Stop → pending_stop (k_adm k) = None →
  current_revision (k_store k) = u64_max → rq_expected_revision request = u64_max →
  admit_request request k = (Err (mkRej ERR_BACKEND_ERROR None), k).
Proof.
  intros Hh Hnew Hpre Hk Hps Hcur Hexp.
  enough (wp (admit_request request) k (λ _ _, False) (λ e k', e = mkRej ERR_BACKEND_ERROR None ∧ k' = k)) as Hwp.
  { unfold wp in Hwp. destruct (admit_request request k) as [[] ?]; [done|]. by destruct Hwp as [-> ->]. }
  unfold admit_request, admit_with_auxiliary_hold. apply wp_bind, wp_get, wp_bind, wp_lift.
  destruct (admit_precheck _ _) as [d|]; [|done]. unfold backend.
  apply wp_bind, wp_map_err, wp_on_store, wp_load_operation; [done|].
  intros r Hr. rewrite Hnew in Hr. destruct r; [done|]. rewrite set_store_id.
  unfold admit_fresh, admit_holds, admit_protection.
  rewrite !(bool_decide_eq_true_2 (rq_kind request = Stop)) by done.
  apply wp_bind, wp_bind, wp_guard, wp_ret, wp_bind, wp_bind, wp_guard.
  rewrite andb_false_r. apply wp_ret.
  unfold backend. apply wp_bind, wp_map_err, wp_on_store, wp_load_desired; [apply Hh|].
  rewrite set_store_id. destruct (current_desired (k_store k)) as [d0 r0] eqn:Hc.
  unfold current_revision in Hcur. rewrite Hc in Hcur. simpl in Hcur. subst r0.
  apply wp_bind, wp_guard, wp_bind. rewrite Hps. apply wp_ret, wp_bind, wp_ensure.
  rewrite Hexp, Z.eqb_refl. apply wp_bind, wp_ok_or. by vm_compute.
Qed.
End rejections.

(** ** The record nobody owns *)

(** The directory sync after the rename fails: the record is visible, the
    write reports an error. *)
Definition unsynced_kernel : Kernel :=
  kernel_new (set_io [IoOk; IoOk; IoErr "fsync" false LandedFull] sample_store) sample_identity [].

(** A failed sync leaves a record without an owner.  Admission reports
    ERR_BACKEND_ERROR, but the Accepted record is on disk while no slot, queue
    or protection refers to it: a retry of the same request is answered with
    the Accepted view, and nothing ever executes or settles it in this
    process. *)
Theorem failed_sync_leaves_ghost :
  let request := sample_request "op-1" Start 0 in
  let '(r, k) := @admit_request sample_hash sample_dir request unsynced_kernel in
  let '(r', k') := @admit_request sample_hash sample_dir request k in
  r = Err (mkRej ERR_BACKEND_ERROR None)
  ∧ r' = Ok (OutReplayed (so_view (sample_record "op-1" Start 0)))
  ∧ so_state <$> record_of k' "op-1" = Some Accepted
  ∧ slots_idle (k_adm k') = true ∧ recovery_protection (k_adm k') = false
  ∧ k_dispatched k' = [].
Proof. vm_compute. repeat split. Qed.

(** ** The newest request wins *)

Lemma write_terminal_done id st e d k o :
  healthy (k_store k) → operations (k_store k) !! id = Some (OpRec o) →
  settled (so_state o) = false → settled st = true →
  wp (write_terminal id st e d) k
    (λ o' k', o' = terminal_record st e d o ∧ healthy (k_store k')
       ∧ operations (k_store k') = <[id := OpRec o']> (operations (k_store k))
       ∧ k_adm k' = k_adm k ∧ k_dispatched k' = k_dispatched k)
    (λ _ _, False).
Proof.
  intros Hh Ho Hs Hst. unfold write_terminal. apply wp_bind, wp_on_store, wp_load_operation; [done|].
  intros [o0|] Ho0; rewrite Ho in Ho0; simplify_eq/=. rewrite set_store_id.
  apply wp_bind, wp_lift, wp_bind, wp_ensure. rewrite Hst, Hs.
  fold (terminal_record st e d o0).
  assert (so_id (terminal_record st e d o0) = id) as Hid.
  { rewrite terminal_record_id. by apply (h_names _ Hh). }
  apply wp_bind, wp_on_store, wp_store_operation; [apply Hh|].
  apply (healthy_publish (terminal_record st e d o0)) in Hh. rewrite Hid in Hh |- *.
  apply wp_bind. eapply wp_mono; [apply emit_terminal_total| |done].
  intros u k2 (Hc & Ha & Hd). apply wp_ret. split_and!; try done.
  - by eapply calm_healthy.
  - by destruct Hc as [[-> _] _].
Qed.

Lemma emit_done {E} id st sv n k :
  wp (E := E) (emit id st sv n) k
    (λ _ k', k_calm k k' ∧ ∀ x, x ∈ k_cancelled k → x ∈ k_cancelled k') (λ _ _, False).
Proof.
  pose proof (λ x, emit_tomb (E := E) x id st sv n k) as Ht.
  assert (wp (E := E) (emit id st sv n) k (λ _ k', k_calm k k') (λ _ _, False)) as Hc.
  { unfold emit. apply wp_bind.
    eapply wp_mono; [apply emit_with_payload_total|intros ???; by apply wp_ret|done]. }
  unfold wp in *. destruct (emit id st sv n k) as [[] k']; [|done]. split; [done|]. exact Ht.
Qed.

Section newest.
Context `{RequestHash, DirOrder}.

(** A source build is running and another request is waiting behind it. *)
Record busy_with (k : Kernel) (active queued : string) (oa oq : StoredOperation)
    (request : RuntimeOperationRequest) : Prop := {
  bw_healthy : healthy (k_store k);
  bw_desired : wf_desired (k_store k);
  bw_new : operations (k_store k) !! rq_operation_id request = None;
  bw_precheck : is_ok (admit_precheck (k_identity k) request) = true;
  bw_source : is_source (rq_kind request) (rq_profile request) = true;
  bw_revision : rq_expected_revision request = current_revision (k_store k);
  bw_protection : recovery_protection (k_adm k) = false;
  bw_foreground : foreground_exiting_operation (k_adm k) = None;
  bw_active : active_operation_id (k_adm k) = Some active;
  bw_queued : pending_restart (k_adm k) = Some queued;
  bw_oa : operations (k_store k) !! active = Some (OpRec oa);
  bw_oa_source : is_source (v_kind (so_view oa)) (rq_profile (so_request oa)) = true;
  bw_oq : operations (k_store k) !! queued = Some (OpRec oq);
  bw_oq_open : settled (so_state oq) = false;
  bw_other : active ≠ queued;
}.

Definition superseded_error : string * string :=
  (ERR_SUPERSEDED, "superseded by a newer start/restart request").

Definition won (k : Kernel) active queued oq (o : StoredOperation) (k' : Kernel) : Prop :=
  pending_restart (k_adm k') = Some (so_id o) ∧ queued_input (k_adm k') = Some o
  ∧ active_operation_id (k_adm k') = Some active
  ∧ active ∈ k_cancelled k'
  ∧ k_dispatched k' = k_dispatched k ++ [CancelSource active]
  ∧ operations (k_store k') !! queued
    = Some (OpRec (terminal_record Cancelled (Some superseded_error) None oq)).

Lemma place_queued_wins o k active queued oa oq :
  healthy (k_store k) →
  active_operation_id (k_adm k) = Some active → pending_restart (k_adm k) = Some queued →
  operations (k_store k) !! active = Some (OpRec oa) →
  is_source (v_kind (so_view oa)) (rq_profile (so_request oa)) = true →
  operations (k_store k) !! queued = Some (OpRec oq) → settled (so_state oq) = false →
  active ≠ queued →
  wp (place_queued o true) k (λ _ k', won k active queued oq o k') (λ _ _, False).
Proof using Type.
  intros Hh Ha Hq Hoa Hsrc Hoq Hopen Hne. unfold place_queued.
  apply wp_bind, wp_guard, wp_bind, wp_upd. rewrite Hq.
  apply wp_bind, wp_bind, wp_try.
  eapply wp_mono; [by eapply write_terminal_done| |done].
  intros o1 k1 (-> & Hh1 & Hops & Hadm & Hd). simpl in Hops, Hadm, Hd.
  apply wp_ret, wp_bind, wp_upd, wp_bind, wp_guard. simpl. rewrite Hadm. simpl. rewrite Ha.
  unfold cancel_superseded_source. apply wp_bind, wp_try, wp_on_store, wp_load_operation; [done|].
  simpl. intros r Hr. rewrite Hops, lookup_insert_ne, Hoa in Hr by done.
  destruct r as [oa'|]; simplify_eq/=. rewrite Hsrc.
  apply wp_bind, wp_try, wp_on_store. unfold store_cancellation.
  apply wp_write_json; [apply Hh1|]. apply wp_bind, wp_modify, wp_dispatch.
  unfold won. simpl. rewrite Hadm, Hd, Hops. simpl.
  split_and!; try done; [set_solver|apply lookup_insert_eq].
Qed.

(** The newest source request wins.  While a source build runs and
    another request waits, a further start or restart is accepted: it takes
    the queue, the request it displaces ends as Cancelled with
    ERR_SUPERSEDED, and the running build is marked cancelled and told to
    stop; it is not executed before the running build has ended. *)
Theorem newest_request_wins k active queued oa oq request :
  busy_with k active queued oa oq request →
  let o := accepted_record (k_identity k) request (runtime_request_digest request)
             (current_revision (k_store k)) in
  ∃ k', admit_request request k = (Ok (OutAccepted (so_view o)), k') ∧ won k active queued oq o k'.
Proof.
  intros [Hh W Hnew Hpre Hsrc Hrev Hprot Hfg Ha Hq Hoa Hoas Hoq Hopen Hne] o.
  assert (rq_kind request ≠ Stop) as Hk by by intros Hk; rewrite Hk in Hsrc.
  enough (wp (admit_request request) k (λ out k', out = OutAccepted (so_view o) ∧ won k active queued oq o k')
            (λ _ _, False)) as Hwp.
  { unfold wp in Hwp. destruct (admit_request request k) as [[out|e] k']; [|done].
    destruct Hwp as [-> ?]. by exists k'. }
  unfold admit_request, admit_with_auxiliary_hold. apply wp_bind, wp_get, wp_bind, wp_lift.
  destruct (admit_precheck _ _) as [d|] eqn:Hp; [|done]. apply admit_precheck_digest in Hp as ->.
  unfold backend. apply wp_bind, wp_map_err, wp_on_store, wp_load_operation; [done|].
  intros r Hr. rewrite Hnew in Hr. destruct r; [done|]. rewrite set_store_id.
  unfold admit_fresh, admit_holds, admit_protection.
  rewrite !(bool_decide_eq_false_2 (rq_kind request = Stop)) by done.
  apply wp_bind, wp_bind, wp_guard. rewrite Hfg. apply wp_ret, wp_bind, wp_bind, wp_guard.
  rewrite Hprot. simpl. apply wp_ret.
  unfold backend. apply wp_bind, wp_map_err, wp_on_store, wp_load_desired; [apply Hh|].
  rewrite set_store_id. destruct (current_desired (k_store k)) as [d0 r0] eqn:Hcur.
  assert (r0 = current_revision (k_store k)) as -> by by unfold current_revision; rewrite Hcur.
  apply wp_bind, wp_guard, wp_bind, wp_ret, wp_bind, wp_ensure.
  rewrite Hrev, Z.eqb_refl. apply wp_bind, wp_ret, wp_bind.
  unfold admit_busy. apply wp_bind, wp_guard. rewrite Hsrc. apply wp_ret, wp_bind, wp_get.
  apply wp_bind. fold o. unfold admit_persist, backend.
  apply wp_bind, wp_map_err, wp_on_store, wp_store_operation; [apply Hh|].
  simpl. rewrite (bool_decide_eq_false_2 (rq_kind request = Stop)) by done.
  apply wp_bind, wp_try, wp_on_store, wp_store_desired; [apply Hh|done|]. intros boot.
  apply wp_ret, wp_bind. unfold admit_place. apply wp_bind, wp_guard. simpl. rewrite Ha. simpl.
  apply wp_bind.
  assert (rq_operation_id request ≠ active) as Hne1 by by intros Heq; rewrite Heq, Hoa in Hnew.
  assert (rq_operation_id request ≠ queued) as Hne2 by by intros Heq; rewrite Heq, Hoq in Hnew.
  eapply wp_mono; [eapply (place_queued_wins o)| |done]; simpl; try done.
  { apply (healthy_publish o) in Hh. by destruct Hh. }
  { change (so_id o) with (rq_operation_id request). by rewrite lookup_insert_ne. }
  { change (so_id o) with (rq_operation_id request). by rewrite lookup_insert_ne. }
  intros [] k1 (Hw1 & Hw2 & Hw3 & Hw4 & Hw5 & Hw6).
  apply wp_ret, wp_bind, wp_upd, wp_bind.
  eapply wp_mono; [apply emit_done| |done]. intros u k2 ((Hc & Ha2 & Hd2) & Htomb).
  apply wp_bind, wp_ret, wp_ret. split; [done|]. unfold won. rewrite Ha2, Hd2. simpl.
  split_and!; try done; [by apply Htomb|]. by destruct Hc as [[-> _] _].
Qed.
End newest.

(** ** Instances *)

Lemma refusal_changes_nothing_witness :
  let k := sample_run [sample_admit "op-1" Restart 0; sample_admit "op-2" Start 0] in
  ∃ i, k = set_store (set_io i (k_store k)) k.
Proof.
  intros k.
  apply (@refusal_changes_nothing sample_hash sample_dir (sample_request "op-3" Start 7)
           false None None k (mkRej ERR_REVISION_MISMATCH None) k);
    vm_compute; reflexivity.
Defined.

Definition last_revision_store : Store :=
  set_desired (DObject (Some Running) (Some u64_max) None) sample_store.

Lemma stop_at_last_revision_witness :
  let k := kernel_new last_revision_store sample_identity [] in
  @admit_request sample_hash sample_dir (sample_request "op-1" Stop u64_max) k
  = (Err (mkRej ERR_BACKEND_ERROR None), k).
Proof.
  intros k. apply (@stop_at_last_revision sample_hash sample_dir k (sample_request "op-1" Stop u64_max));
    try (vm_compute; reflexivity).
  split; [reflexivity| |]; intros name f; cbn; by rewrite lookup_empty.
Defined.

Lemma newest_request_wins_witness :
  let k := sample_run [sample_admit "op-1" Start 0; sample_admit "op-2" Restart 0] in
  ∃ k', @admit_request sample_hash sample_dir (sample_request "op-3" Start 0) k
        = (Ok (OutAccepted (so_view (sample_record "op-3" Start 0))), k')
    ∧ won k "op-1" "op-2" (sample_record "op-2" Restart 0) (sample_record "op-3" Start 0) k'.
Proof.
  intros k.
  apply (@newest_request_wins sample_hash sample_dir k "op-1" "op-2"
           (sample_record "op-1" Start 0) (sample_record "op-2" Restart 0)
           (sample_request "op-3" Start 0)).
  split; try solve [vm_compute; reflexivity|vm_compute; exact I|vm_compute; discriminate].
  split; [vm_compute; reflexivity|apply sample_run_names|]. intros name f Hf.
  assert (match f with OpRec _ => true | _ => false end = true) as Hr.
  { apply (all_records_spec (λ _ f, match f with OpRec _ => true | _ => false end) (k_store k) name);
      [vm_compute; reflexivity|exact Hf]. }
  destruct f as [o| |]; [by exists o|done|done].
Defined.
