(* ===== verification/Lifecycle.v ===== *)
(** * UserApp control-plane contract ([shared_types/src/userapp/lifecycle.rs])

    Applications, the operations that change them, the three scopes that keep
    operations apart, and the identity an executor proves before it touches a
    resource.  A time stamp is a number of milliseconds. *)
From S2P Require Import Prelude Validation.
Import Text Identifier.
Local Open Scope rust_scope.

(** ** JSON values

    [serde_json::Value]; an object's fields are listed by key, so that
    structural equality is the crate's map equality.  Numbers are integers:
    the rules read no other. *)
Inductive Json :=
  | JNull
  | JBool (b : bool)
  | JNum (n : Z)
  | JStr (s : string)
  | JArr (xs : list Json)
  | JObj (fields : list (string * Json)).

#[global] Instance Json_eq_dec : EqDecision Json.
Proof.
  refine (
    fix go (x y : Json) {struct x} : Decision (x = y) :=
    let _ : EqDecision Json := @go in
    match x, y with
    | JNull, JNull => left eq_refl
    | JBool a, JBool b => cast_if (decide (a = b))
    | JNum a, JNum b => cast_if (decide (a = b))
    | JStr a, JStr b => cast_if (decide (a = b))
    | JArr a, JArr b => cast_if (decide (a = b))
    | JObj a, JObj b => cast_if (decide (a = b))
    | _, _ => right _
    end); abstract congruence.
Defined.

Definition json_is_null (v : Json) : bool := match v with JNull => true | _ => false end.

(** ** Execution identity *)

Record UserAppExecutionContext := {
  ctx_app_id : string;
  ctx_lifecycle_id : string;
  ctx_operation_id : string;
  ctx_executor_id : string;
  ctx_request_fingerprint : string;
}.
#[global] Instance UserAppExecutionContext_eq_dec : EqDecision UserAppExecutionContext.
Proof. solve_decision. Defined.

(** K8s annotations or Docker labels. *)
Definition Metadata : Type := gmap string string.

Definition resource_metadata (c : UserAppExecutionContext) : Metadata :=
  list_to_map [("rcoder.io/application-id", ctx_app_id c);
               ("rcoder.io/lifecycle-id", ctx_lifecycle_id c);
               ("rcoder.io/operation-id", ctx_operation_id c);
               ("rcoder.io/executor-id", ctx_executor_id c);
               ("rcoder.io/request-fingerprint", ctx_request_fingerprint c)].

(** The loop over [(name, value)] pairs; the first bad one ends it. *)
Fixpoint validate_context_fields (fields : list (string * string)) : result unit string :=
  match fields with
  | [] => Ok tt
  | (name, value) :: rest =>
      let? _ := map_err (λ _, "Invalid application execution " +:+ name)
                  (validate_identifier value name) in
      validate_context_fields rest
  end.

Definition validate_identity (c : UserAppExecutionContext) (app_id : string) : result unit string :=
  let? _ := ensure (bool_decide (ctx_app_id c = app_id)) "Application execution identity mismatch" in
  let? _ := validate_context_fields
              [("app_id", ctx_app_id c); ("lifecycle_id", ctx_lifecycle_id c);
               ("operation_id", ctx_operation_id c); ("executor_id", ctx_executor_id c)] in
  ensure (Nat.eqb (String.length (ctx_request_fingerprint c)) 64
          && str_all is_ascii_hexdigit (ctx_request_fingerprint c))
    "Invalid application execution fingerprint".

(** The loop over expected labels. *)
Fixpoint expect_labels (what : string) (metadata : Metadata) (labels : list (string * string))
    : result unit string :=
  match labels with
  | [] => Ok tt
  | (key, expected) :: rest =>
      let? _ := ensure (bool_decide (metadata !! key = Some expected)) (what +:+ key) in
      expect_labels what metadata rest
  end.

Definition validate_application_metadata (c : UserAppExecutionContext) (metadata : Metadata)
    : result unit string :=
  let? _ := validate_identity c (ctx_app_id c) in
  expect_labels "Application resource identity mismatch: " metadata
    [("rcoder.io/application-id", ctx_app_id c); ("rcoder.io/lifecycle-id", ctx_lifecycle_id c)].

Definition validate_resource_metadata (c : UserAppExecutionContext) (metadata : Metadata)
    : result unit string :=
  let? _ := validate_application_metadata c metadata in
  ensure (bool_decide (metadata !! "rcoder.io/request-fingerprint" = Some (ctx_request_fingerprint c)))
    "Application resource configuration fingerprint mismatch".

Definition validate_operation_metadata (c : UserAppExecutionContext) (metadata : Metadata)
    : result unit string :=
  let? _ := validate_application_metadata c metadata in
  expect_labels "Operation resource identity mismatch: " metadata
    [("rcoder.io/operation-id", ctx_operation_id c); ("rcoder.io/executor-id", ctx_executor_id c);
     ("rcoder.io/request-fingerprint", ctx_request_fingerprint c)].

(** ** Applications and their slots *)

Inductive UserAppLifecycleState := Active | Deleting | Deleted.
#[global] Instance UserAppLifecycleState_eq_dec : EqDecision UserAppLifecycleState.
Proof. solve_decision. Defined.

Record UserAppRuntimePolicy := {
  recycle_enabled : option bool;
  idle_timeout_seconds : option Z;
  wake_on_traffic : option bool;
}.
#[global] Instance UserAppRuntimePolicy_eq_dec : EqDecision UserAppRuntimePolicy.
Proof. solve_decision. Defined.
Definition policy_default : UserAppRuntimePolicy :=
  {| recycle_enabled := None; idle_timeout_seconds := None; wake_on_traffic := None |}.

Definition merge (self patch : UserAppRuntimePolicy) : UserAppRuntimePolicy :=
  {| recycle_enabled := opt_or (recycle_enabled patch) (recycle_enabled self);
     idle_timeout_seconds := opt_or (idle_timeout_seconds patch) (idle_timeout_seconds self);
     wake_on_traffic := opt_or (wake_on_traffic patch) (wake_on_traffic self) |}.

Inductive UserAppOperationScope := Dev | Prod | Application.
#[global] Instance UserAppOperationScope_eq_dec : EqDecision UserAppOperationScope.
Proof. solve_decision. Defined.

Record UserAppActiveOperations := {
  slot_dev : option string;
  slot_prod : option string;
  slot_application : option string;
}.
#[global] Instance UserAppActiveOperations_eq_dec : EqDecision UserAppActiveOperations.
Proof. solve_decision. Defined.

Definition slots_default : UserAppActiveOperations :=
  {| slot_dev := None; slot_prod := None; slot_application := None |}.

Definition slot (a : UserAppActiveOperations) (s : UserAppOperationScope) : option string :=
  match s with Dev => slot_dev a | Prod => slot_prod a | Application => slot_application a end.

Definition slot_set (s : UserAppOperationScope) (v : option string) (a : UserAppActiveOperations)
    : UserAppActiveOperations :=
  match s with
  | Dev => {| slot_dev := v; slot_prod := slot_prod a; slot_application := slot_application a |}
  | Prod => {| slot_dev := slot_dev a; slot_prod := v; slot_application := slot_application a |}
  | Application => {| slot_dev := slot_dev a; slot_prod := slot_prod a; slot_application := v |}
  end.

Definition slots_empty (a : UserAppActiveOperations) : bool :=
  is_none (slot_dev a) && is_none (slot_prod a) && is_none (slot_application a).

(** The order in which blockers are looked for. *)
Definition scope_order : list UserAppOperationScope := [Application; Dev; Prod].

Definition occupied_scopes (a : UserAppActiveOperations) : list UserAppOperationScope :=
  filter (λ s, is_Some (slot a s)) scope_order.

Record UserAppLifecycleRecord := {
  app_runtime_policy : UserAppRuntimePolicy;
  app_id : string;
  app_lifecycle_id : string;
  lifecycle_epoch : Z;
  metadata_revision : Z;
  app_state : UserAppLifecycleState;
  app_name : option string;
  tenant_id : option string;
  space_id : option string;
  app_created_at : Z;
  active_operations : UserAppActiveOperations;
}.
#[global] Instance UserAppLifecycleRecord_eq_dec : EqDecision UserAppLifecycleRecord.
Proof. solve_decision. Defined.

(** ** Operation kinds, scopes and states *)

Inductive UserAppOperationState :=
  | Pending | Running | WaitingRetry | RecoveryRequired | Succeeded | Failed.
#[global] Instance UserAppOperationState_eq_dec : EqDecision UserAppOperationState.
Proof. solve_decision. Defined.

Definition op_is_terminal (s : UserAppOperationState) : bool :=
  match s with Succeeded | Failed => true | _ => false end.

Inductive UserAppProgressClaim := AcquireExecutor | RetainExecutor.
#[global] Instance UserAppProgressClaim_eq_dec : EqDecision UserAppProgressClaim.
Proof. solve_decision. Defined.

Definition authorize_userapp_progress_claim (current_state progress_state : UserAppOperationState)
    (executor_matches : bool) : option UserAppProgressClaim :=
  match current_state with
  | Pending | WaitingRetry =>
      match progress_state with Running => Some AcquireExecutor | _ => None end
  | Running => if executor_matches then Some RetainExecutor else None
  | _ => None
  end.

Definition userapp_scope_blocks_request (requested_scope blocker_scope : UserAppOperationScope)
    : bool :=
  match requested_scope with
  | Application => true
  | Dev => match blocker_scope with Dev | Application => true | Prod => false end
  | Prod => match blocker_scope with Prod | Application => true | Dev => false end
  end.

Inductive UserAppOperationKind :=
  | EnsureBuilder | AdoptBuilder | AdoptApplication | StopBuilder | RestartBuilder
  | Create | StartDeployment | RestartDeployment | Update | Start | Restart | Stop
  | SetRecyclePolicy | HotDeploy | DeleteCompute | PurgeResources
  | DestroyDevStorage | DestroyProdStorage | ClearDevStorage | ClearProdStorage
  | ResetDevDatabasePassword | ResetProdDatabasePassword | PrepareProdDatabase
  | DeleteApplication.
#[global] Instance UserAppOperationKind_eq_dec : EqDecision UserAppOperationKind.
Proof. solve_decision. Defined.

Definition supports_hot_deployment (k : UserAppOperationKind) : bool :=
  match k with HotDeploy | StartDeployment | RestartDeployment => true | _ => false end.

Definition ends_lifecycle (k : UserAppOperationKind) : bool :=
  match k with DeleteApplication => true | _ => false end.

Definition kind_scope (k : UserAppOperationKind) : UserAppOperationScope :=
  match k with
  | EnsureBuilder | AdoptBuilder | StopBuilder | RestartBuilder
  | DestroyDevStorage | ClearDevStorage | ResetDevDatabasePassword => Dev
  | Create | Update | StartDeployment | RestartDeployment | Start | Restart | Stop
  | SetRecyclePolicy | HotDeploy | DeleteCompute | DestroyProdStorage | ClearProdStorage
  | ResetProdDatabasePassword | PrepareProdDatabase | AdoptApplication => Prod
  | PurgeResources | DeleteApplication => Application
  end.

Definition affects_builder (k : UserAppOperationKind) : bool :=
  bool_decide (kind_scope k = Dev).

(** ** Commands and requests *)

Inductive UserAppControlCommand :=
  | CmdDeploy (restart : bool) (input_digest : string) (serving_recovery : bool)
  | CmdStopBuilder
  | CmdRestartBuilder
  | CmdCreate (input_digest : string)
  | CmdUpdate (input_digest : string)
  | CmdStart (traffic : bool)
  | CmdRestart
  | CmdPrepareProdDatabase
  | CmdStop (wake_on_traffic : bool)
  | CmdSetRecyclePolicy (policy : UserAppRuntimePolicy)
  | CmdDeleteResources (purge : bool) (expected_resource_version : option string)
  | CmdDeleteApplication
  | CmdDestroyStorage (production : bool)
  | CmdResetDatabasePassword (production : bool) (username : string)
  | CmdClearStorage (production : bool).
#[global] Instance UserAppControlCommand_eq_dec : EqDecision UserAppControlCommand.
Proof. solve_decision. Defined.

Definition is_traffic_wake (c : UserAppControlCommand) : bool :=
  match c with
  | CmdStart traffic => traffic
  | CmdDeploy false _ serving_recovery => serving_recovery
  | _ => false
  end.

Definition command_kind (c : UserAppControlCommand) : UserAppOperationKind :=
  match c with
  | CmdStopBuilder => StopBuilder
  | CmdRestartBuilder => RestartBuilder
  | CmdCreate _ => Create
  | CmdDeploy false _ _ => StartDeployment
  | CmdDeploy true _ _ => RestartDeployment
  | CmdUpdate _ => Update
  | CmdStart _ => Start
  | CmdRestart => Restart
  | CmdPrepareProdDatabase => PrepareProdDatabase
  | CmdStop _ => Stop
  | CmdSetRecyclePolicy _ => SetRecyclePolicy
  | CmdDeleteResources false _ => DeleteCompute
  | CmdDeleteResources true _ => PurgeResources
  | CmdDeleteApplication => DeleteApplication
  | CmdDestroyStorage false => DestroyDevStorage
  | CmdDestroyStorage true => DestroyProdStorage
  | CmdResetDatabasePassword false _ => ResetDevDatabasePassword
  | CmdResetDatabasePassword true _ => ResetProdDatabasePassword
  | CmdClearStorage false => ClearDevStorage
  | CmdClearStorage true => ClearProdStorage
  end.

(** [None] keeps a field, [Some None] clears it. *)
Record UserAppMetadataPatch := {
  patch_app_id : string;
  patch_lifecycle_id : string;
  patch_expected_revision : Z;
  patch_name : option (option string);
  patch_tenant_id : option (option string);
  patch_space_id : option (option string);
}.
#[global] Instance UserAppMetadataPatch_eq_dec : EqDecision UserAppMetadataPatch.
Proof. solve_decision. Defined.

Record UserAppOperationRecord := {
  op_runtime_policy_on_success : option UserAppRuntimePolicy;
  op_command : option UserAppControlCommand;
  op_admitted_metadata : option UserAppMetadataPatch;
  op_operation_id : string;
  op_app_id : string;
  op_lifecycle_id : string;
  op_request_id : option string;
  op_request_fingerprint : string;
  op_kind : UserAppOperationKind;
  op_scope : UserAppOperationScope;
  op_state : UserAppOperationState;
  op_revision : Z;
  op_executor_id : option string;
  op_step : string;
  op_checkpoint : Json;
  op_error_code : option string;
  op_error_message : option string;
  op_created_at : Z;
}.
#[global] Instance UserAppOperationRecord_eq_dec : EqDecision UserAppOperationRecord.
Proof. solve_decision. Defined.

Record UserAppOperationBlocker := {
  blk_scope : UserAppOperationScope;
  blk_operation_id : string;
  blk_kind : UserAppOperationKind;
  blk_state : UserAppOperationState;
  blk_step : string;
}.

Definition blocker (o : UserAppOperationRecord) : UserAppOperationBlocker :=
  {| blk_scope := op_scope o; blk_operation_id := op_operation_id o; blk_kind := op_kind o;
     blk_state := op_state o; blk_step := op_step o |}.

Record UserAppActiveOperationRecords := {
  rec_dev : option UserAppOperationRecord;
  rec_prod : option UserAppOperationRecord;
  rec_application : option UserAppOperationRecord;
}.

Definition rec_slot (a : UserAppActiveOperationRecords) (s : UserAppOperationScope)
    : option UserAppOperationRecord :=
  match s with Dev => rec_dev a | Prod => rec_prod a | Application => rec_application a end.

Record UserAppAdmission := {
  adm_runtime_policy_on_success : option UserAppRuntimePolicy;
  adm_command : option UserAppControlCommand;
  adm_metadata : option UserAppMetadataPatch;
  adm_app_id : string;
  adm_lifecycle_id : option string;
  adm_operation_id : string;
  adm_request_id : option string;
  adm_request_fingerprint : string;
  adm_kind : UserAppOperationKind;
}.

Inductive UserAppAdmissionOutcome :=
  | AdmAccepted (o : UserAppOperationRecord)
  | AdmExisting (o : UserAppOperationRecord).

Record UserAppOperationProgress := {
  pr_app_id : string;
  pr_operation_id : string;
  pr_lifecycle_id : string;
  pr_expected_revision : Z;
  pr_executor_id : string;
  pr_state : UserAppOperationState;
  pr_step : string;
  pr_checkpoint : Json;
  pr_error_code : option string;
  pr_error_message : option string;
}.

Inductive UserAppStoreError :=
  | OwnershipConflict
  | LifecycleConflict
  | OperationInProgress (b : UserAppOperationBlocker)
  | VersionConflict
  | RequestReplayConflict (msg : string)
  | NotFound
  | InvalidOperation (msg : string)
  | StorageFailure (msg : string).

(** ** Wake fences restored at startup *)

Inductive UserAppWakeFenceState := WakeClear | WakeBlocked | WakeUnconfirmed.

Definition from_confirmed_headers (lifecycle_state : UserAppLifecycleState)
    (active_kinds : list UserAppOperationKind) : UserAppWakeFenceState :=
  if negb (bool_decide (lifecycle_state = Active))
     || existsb (λ k, match k with
                      | DeleteCompute | PurgeResources | DeleteApplication => true
                      | _ => false
                      end) active_kinds
  then WakeBlocked else WakeClear.
