(* ===== verification/Evidence.v ===== *)
(** * Recorded evidence ([shared_types/src/app_resource_deletion.rs],
    [userapp/db_password.rs], [userapp/dev_cleanup.rs],
    [userapp/resource_binding.rs], [userapp/builder_control.rs])

    The typed checkpoints that destructive operations record before and while
    they act, and the checks that bind them to the operation that owns them.
    Parts that no check inspects (leases, directory witnesses, collaborator
    receipts) are kept as the JSON they are stored as; they only take part in
    comparisons. *)
From S2P Require Import Prelude Validation Lifecycle.
From Stdlib Require Import Ascii.
Import Text Identifier.
Local Open Scope rust_scope.

(** ** Physical resources *)

Inductive AppResourceKind :=
  | Container | Deployment | StatefulSet | Service | ConfigMap | Secret | HttpRoute
  | PersistentVolumeClaim | HostPath | File.
#[global] Instance AppResourceKind_eq_dec : EqDecision AppResourceKind.
Proof. solve_decision. Defined.

Record AppResourceIdentity := {
  res_kind : AppResourceKind;
  res_name : string;
  res_uid : string;
  res_version : option string;
}.
#[global] Instance AppResourceIdentity_eq_dec : EqDecision AppResourceIdentity.
Proof. solve_decision. Defined.

Record CapturedStorageDirectory := { dir_path : string; dir_identity : option Json }.
#[global] Instance CapturedStorageDirectory_eq_dec : EqDecision CapturedStorageDirectory.
Proof. solve_decision. Defined.

(** [Path::is_absolute] on Unix. *)
Definition path_is_absolute (p : string) : bool := starts_with "/" p.

Record AppDeletionSnapshot := {
  snap_app_id : string;
  snap_operation_id : string;
  snap_resources : list AppResourceIdentity;
  snap_directories : option (list CapturedStorageDirectory);
}.
#[global] Instance AppDeletionSnapshot_eq_dec : EqDecision AppDeletionSnapshot.
Proof. solve_decision. Defined.

Record UserAppMutationTarget := {
  mt_context : UserAppExecutionContext;
  mt_resource : AppResourceIdentity;
}.
#[global] Instance UserAppMutationTarget_eq_dec : EqDecision UserAppMutationTarget.
Proof. solve_decision. Defined.

Definition opt_str_empty (s : option string) : bool :=
  match s with Some v => str_is_empty v | None => true end.

(** The loop over captured resources. *)
Fixpoint validate_resource_list (resources : list AppResourceIdentity) : result unit string :=
  match resources with
  | [] => Ok tt
  | r :: rest =>
      let? _ := ensure (negb (str_is_empty (res_name r) || str_is_empty (res_uid r)))
                  "Deletion resource identity is incomplete" in
      let? _ := ensure (negb (negb (bool_decide (res_kind r = Container))
                              && opt_str_empty (res_version r)))
                  "Kubernetes deletion resource version is missing" in
      validate_resource_list rest
  end.

Definition validate_deletion_resources (operation_id : string)
    (resources : list AppResourceIdentity) : result unit string :=
  let? _ := validate_identifier operation_id "resource_operation_id" in
  validate_resource_list resources.

(** ** Bindings and builder receipts *)

Inductive ServiceType :=
  | WebAgentRunner | ComputerAgentRunner | ComputerNormalProject | Userapp | UserappBuilder.
#[global] Instance ServiceType_eq_dec : EqDecision ServiceType.
Proof. solve_decision. Defined.

Record UserAppResourceBinding := {
  bind_app_id : string;
  bind_lifecycle_id : string;
  bind_service_type : ServiceType;
  bind_physical_uid : string;
  bind_adopted_by_operation : string;
}.
#[global] Instance UserAppResourceBinding_eq_dec : EqDecision UserAppResourceBinding.
Proof. solve_decision. Defined.

Definition binding_validate (b : UserAppResourceBinding) (context : UserAppExecutionContext)
    (physical_uid : string) : result unit string :=
  let? _ := validate_identity context (bind_app_id b) in
  ensure (negb (negb (bool_decide (bind_lifecycle_id b = ctx_lifecycle_id context))
                || negb (match bind_service_type b with
                         | UserappBuilder | Userapp => true | _ => false end)
                || str_is_empty (bind_physical_uid b)
                || negb (bool_decide (bind_physical_uid b = physical_uid))
                || str_is_empty (bind_adopted_by_operation b)))
    "Physical resource binding does not match the current lifecycle".

Record BuilderDeletionSnapshot := {
  bds_resource_binding : option UserAppResourceBinding;
  bds_app_id : string;
  bds_operation_id : string;
  bds_resources : list AppResourceIdentity;
  bds_docker_bind_cleanup : bool;
}.
#[global] Instance BuilderDeletionSnapshot_eq_dec : EqDecision BuilderDeletionSnapshot.
Proof. solve_decision. Defined.

Record BuilderRegistryIdentity := { reg_generation : string; reg_container_id : string }.
#[global] Instance BuilderRegistryIdentity_eq_dec : EqDecision BuilderRegistryIdentity.
Proof. solve_decision. Defined.

Record UserappDevDeletionReceipt := {
  dev_runtime : BuilderDeletionSnapshot;
  dev_registry : option BuilderRegistryIdentity;
  dev_lease : option Json;
  dev_collaborators : list Json;
  dev_directories : option (list CapturedStorageDirectory);
}.
#[global] Instance UserappDevDeletionReceipt_eq_dec : EqDecision UserappDevDeletionReceipt.
Proof. solve_decision. Defined.

Definition registry_incomplete (d : UserappDevDeletionReceipt) : bool :=
  match dev_registry d with Some i => str_is_empty (reg_container_id i) | None => false end.

(** ** Deletion checkpoints *)

Inductive UserAppDeletionStage :=
  | Captured | ComputeRemoved | ProductionStorageRemoved | DevelopmentRemoved.
#[global] Instance UserAppDeletionStage_eq_dec : EqDecision UserAppDeletionStage.
Proof. solve_decision. Defined.

Record UserAppDeletionCheckpoint := {
  dc_stage : UserAppDeletionStage;
  dc_schema_version : Z;
  dc_context : UserAppExecutionContext;
  dc_kind : UserAppOperationKind;
  dc_production : AppDeletionSnapshot;
  dc_development : option UserappDevDeletionReceipt;
}.
#[global] Instance UserAppDeletionCheckpoint_eq_dec : EqDecision UserAppDeletionCheckpoint.
Proof. solve_decision. Defined.

Definition dc_with_stage (s : UserAppDeletionStage) (c : UserAppDeletionCheckpoint)
    : UserAppDeletionCheckpoint :=
  {| dc_stage := s; dc_schema_version := dc_schema_version c; dc_context := dc_context c;
     dc_kind := dc_kind c; dc_production := dc_production c; dc_development := dc_development c |}.

Definition deletion_needs_development (k : UserAppOperationKind) : result bool string :=
  match k with
  | DeleteCompute => Ok false
  | PurgeResources | DeleteApplication => Ok true
  | _ => Err "Operation kind does not support this deletion checkpoint"
  end.

Definition deletion_validate (c : UserAppDeletionCheckpoint) : result unit string :=
  let? _ := ensure (dc_schema_version c =? 1)%Z
              "Unsupported application deletion checkpoint version" in
  let? _ := validate_identity (dc_context c) (ctx_app_id (dc_context c)) in
  let? needs_development := deletion_needs_development (dc_kind c) in
  let? _ := ensure (negb (negb (bool_decide (snap_app_id (dc_production c) = ctx_app_id (dc_context c)))
                          || negb (Bool.eqb (is_some (dc_development c)) needs_development)))
              "Deletion checkpoint application or resource scope mismatch" in
  let? _ := ensure (negb (negb needs_development
                          && match dc_stage c with
                             | ProductionStorageRemoved | DevelopmentRemoved => true
                             | _ => false end))
              "Compute-only deletion cannot complete storage cleanup" in
  let? _ := validate_deletion_resources (snap_operation_id (dc_production c))
              (snap_resources (dc_production c)) in
  match dc_development c with
  | None => Ok tt
  | Some d =>
      let? _ := ensure (bool_decide (bds_app_id (dev_runtime d) = ctx_app_id (dc_context c)))
                  "Development deletion checkpoint belongs to another application" in
      let? _ := validate_deletion_resources (bds_operation_id (dev_runtime d))
                  (bds_resources (dev_runtime d)) in
      ensure (negb (registry_incomplete d)) "Development registry identity is incomplete"
  end.

(** The identity a piece of evidence shares with the operation that owns it. *)
Definition context_owns (c : UserAppExecutionContext) (o : UserAppOperationRecord) : bool :=
  bool_decide (ctx_lifecycle_id c = op_lifecycle_id o)
  && bool_decide (ctx_operation_id c = op_operation_id o)
  && opt_is (op_executor_id o) (ctx_executor_id c)
  && bool_decide (ctx_request_fingerprint c = op_request_fingerprint o).

Definition deletion_validate_operation (c : UserAppDeletionCheckpoint) (o : UserAppOperationRecord)
    : result unit string :=
  let? _ := deletion_validate c in
  ensure (bool_decide (ctx_app_id (dc_context c) = op_app_id o)
          && context_owns (dc_context c) o
          && bool_decide (dc_kind c = op_kind o))
    "Deletion checkpoint does not belong to the stored operation".

(** ** Storage destruction *)

Record UserAppStorageDestruction := {
  sd_context : UserAppExecutionContext;
  sd_production : option AppDeletionSnapshot;
  sd_development : UserappDevDeletionReceipt;
}.
#[global] Instance UserAppStorageDestruction_eq_dec : EqDecision UserAppStorageDestruction.
Proof. solve_decision. Defined.

Definition SD_COMPLETE_STEP : string := "development_storage_removed".

Definition destruction_validate (e : UserAppStorageDestruction) : result unit string :=
  let app := ctx_app_id (sd_context e) in
  let? _ := validate_identity (sd_context e) app in
  let? _ := match sd_production e with
            | None => Ok tt
            | Some p =>
                let? _ := ensure (bool_decide (snap_app_id p = app))
                            "Storage destruction production ownership mismatch" in
                validate_deletion_resources (snap_operation_id p) (snap_resources p)
            end in
  let? _ := ensure (bool_decide (bds_app_id (dev_runtime (sd_development e)) = app))
              "Storage destruction development ownership mismatch" in
  let? _ := validate_deletion_resources (bds_operation_id (dev_runtime (sd_development e)))
              (bds_resources (dev_runtime (sd_development e))) in
  ensure (negb (registry_incomplete (sd_development e)))
    "Storage destruction registry identity is incomplete".

(** ** Socket addresses, as [std::net] prints them *)

Inductive IpAddr :=
  | V4 (a b c d : Z)
  | V6 (segments : list Z).
#[global] Instance IpAddr_eq_dec : EqDecision IpAddr.
Proof. solve_decision. Defined.

Definition is_unspecified (ip : IpAddr) : bool :=
  match ip with
  | V4 a b c d => (a =? 0)%Z && (b =? 0)%Z && (c =? 0)%Z && (d =? 0)%Z
  | V6 segments => forallb (Z.eqb 0) segments
  end.

Definition ipv4_display (a b c d : Z) : string :=
  pretty a +:+ "." +:+ pretty b +:+ "." +:+ pretty c +:+ "." +:+ pretty d.

Definition hex_digit (n : Z) : string :=
  let c := if (n <? 10)%Z then (48 + n)%Z else (87 + n)%Z in
  String (ascii_of_N (Z.to_N c)) EmptyString.

(** [{:x}] of a 16-bit segment: no leading zeros. *)
Definition hex_segment (n : Z) : string :=
  let d i := hex_digit ((n / 16 ^ i) mod 16)%Z in
  if (n <? 16)%Z then d 0%Z
  else if (n <? 256)%Z then d 1%Z +:+ d 0%Z
  else if (n <? 4096)%Z then d 2%Z +:+ d 1%Z +:+ d 0%Z
  else d 3%Z +:+ d 2%Z +:+ d 1%Z +:+ d 0%Z.

Fixpoint hex_segments (segments : list Z) : string :=
  match segments with
  | [] => ""
  | [s] => hex_segment s
  | s :: rest => hex_segment s +:+ ":" +:+ hex_segments rest
  end.

(** The first longest run of zero segments, as (start, length). *)
Fixpoint longest_zeroes (i : nat) (segments : list Z) (current longest : nat * nat) : nat * nat :=
  match segments with
  | [] => longest
  | s :: rest =>
      if (s =? 0)%Z then
        let current := (if Nat.eqb current.2 0 then i else current.1, S current.2) in
        longest_zeroes (S i) rest current (if Nat.ltb longest.2 current.2 then current else longest)
      else longest_zeroes (S i) rest (0, 0) longest
  end.

Definition ipv6_display (segments : list Z) : string :=
  match segments with
  | [0; 0; 0; 0; 0; 65535; ab; cd]%Z =>
      "::ffff:" +:+ ipv4_display (ab / 256) (ab mod 256) (cd / 256) (cd mod 256)
  | _ =>
      let '(start, len) := longest_zeroes 0 segments (0, 0) (0, 0) in
      if Nat.ltb 1 len
      then hex_segments (take start segments) +:+ "::" +:+ hex_segments (drop (start + len) segments)
      else hex_segments segments
  end.

Definition socket_display (ip : IpAddr) (port : Z) : string :=
  match ip with
  | V4 a b c d => ipv4_display a b c d +:+ ":" +:+ pretty port
  | V6 segments => "[" +:+ ipv6_display segments +:+ "]:" +:+ pretty port
  end.

Definition AGENT_FILE_SERVER_PORT : Z := 60000.

Record UserAppBuilderWorkspaceEndpoint := { ep_container_id : string; ep_address : IpAddr }.
#[global] Instance UserAppBuilderWorkspaceEndpoint_eq_dec : EqDecision UserAppBuilderWorkspaceEndpoint.
Proof. solve_decision. Defined.

Definition endpoint_base_url (e : UserAppBuilderWorkspaceEndpoint) : string :=
  "http://" +:+ socket_display (ep_address e) AGENT_FILE_SERVER_PORT.

(** ** Clearing storage *)

Inductive UserAppStorageClearTarget :=
  | ClearDevelopment (base_url instance_id : string) (endpoint : UserAppBuilderWorkspaceEndpoint)
      (receipt : UserappDevDeletionReceipt)
  | ClearProduction (snapshot : AppDeletionSnapshot) (directories : list CapturedStorageDirectory).
#[global] Instance UserAppStorageClearTarget_eq_dec : EqDecision UserAppStorageClearTarget.
Proof. solve_decision. Defined.

Record UserAppStorageClear := {
  sc_context : UserAppExecutionContext;
  sc_target : UserAppStorageClearTarget;
}.
#[global] Instance UserAppStorageClear_eq_dec : EqDecision UserAppStorageClear.
Proof. solve_decision. Defined.

Definition SC_COMPLETE_STEP : string := "storage_contents_cleared".

(** A Docker receipt names exactly the container behind the endpoint; a
    Kubernetes one names a StatefulSet. *)
Definition clear_workload_matches (receipt : UserappDevDeletionReceipt)
    (endpoint : UserAppBuilderWorkspaceEndpoint) : result unit string :=
  if bds_docker_bind_cleanup (dev_runtime receipt) then
    match bds_resources (dev_runtime receipt) with
    | [container] =>
        ensure (bool_decide (res_kind container = Container)
                && bool_decide (res_uid container = ep_container_id endpoint))
          "Storage clear endpoint differs from captured container"
    | _ => Err "Storage clear Docker target must name one container"
    end
  else
    ensure (existsb (λ r, bool_decide (res_kind r = StatefulSet)) (bds_resources (dev_runtime receipt)))
      "Storage clear Kubernetes workload receipt is missing".

Definition clear_validate (e : UserAppStorageClear) : result unit string :=
  let app := ctx_app_id (sc_context e) in
  let? _ := validate_identity (sc_context e) app in
  match sc_target e with
  | ClearProduction snapshot directories =>
      let? _ := ensure (negb (negb (bool_decide (snap_app_id snapshot = app))
                              || existsb (λ d, negb (path_is_absolute (dir_path d))) directories))
                  "Storage clear production target mismatch" in
      validate_deletion_resources (snap_operation_id snapshot) (snap_resources snapshot)
  | ClearDevelopment base_url instance_id endpoint receipt =>
      let? _ := ensure (negb (str_is_empty base_url || str_is_empty instance_id
                              || str_is_empty (ep_container_id endpoint)
                              || is_unspecified (ep_address endpoint)
                              || negb (bool_decide (base_url = endpoint_base_url endpoint))
                              || negb (bool_decide (bds_app_id (dev_runtime receipt) = app))))
                  "Storage clear development target mismatch" in
      let? _ := validate_deletion_resources (bds_operation_id (dev_runtime receipt))
                  (bds_resources (dev_runtime receipt)) in
      let? _ := clear_workload_matches receipt endpoint in
      ensure (negb (registry_incomplete receipt)) "Storage clear registry identity is incomplete"
  end.

(** ** PostgreSQL identifiers ([shared_types/src/pg_utils.rs]) *)

Module Pg.
Inductive PgIdentifierValidationError := PgEmpty | PgTooLong | PgInvalidFirstByte | PgInvalidByte.

Definition validate_pg_identifier_length (length : nat)
    : result unit PgIdentifierValidationError :=
  if Nat.eqb length 0 then Err PgEmpty
  else if Nat.ltb 63 length then Err PgTooLong
  else Ok tt.

Definition is_pg_identifier_first_byte (b : ascii) : bool :=
  is_ascii_alphabetic b || byte_in 95 95 b.
Definition is_pg_identifier_continuation_byte (b : ascii) : bool :=
  is_ascii_alphanumeric b || byte_in 95 95 b.

Fixpoint validate_continuation (bytes : string) : result unit PgIdentifierValidationError :=
  match bytes with
  | EmptyString => Ok tt
  | String b rest =>
      if is_pg_identifier_continuation_byte b then validate_continuation rest
      else Err PgInvalidByte
  end.

Definition validate_pg_identifier_bytes (bytes : string)
    : result unit PgIdentifierValidationError :=
  let? _ := validate_pg_identifier_length (String.length bytes) in
  match bytes with
  | EmptyString => Err PgEmpty
  | String first rest =>
      if is_pg_identifier_first_byte first then validate_continuation rest
      else Err PgInvalidFirstByte
  end.

Definition validate_pg_identifier (name : string) : result unit string :=
  match validate_pg_identifier_bytes name with
  | Ok tt => Ok tt
  | Err PgEmpty => Err "PG identifier must be 1..=63 bytes, got 0"
  | Err PgTooLong => Err ("PG identifier must be 1..=63 bytes, got " +:+ pretty (String.length name))
  | Err PgInvalidFirstByte => Err "PG identifier must start with letter or '_'"
  | Err PgInvalidByte => Err "PG identifier: only [a-zA-Z0-9_] allowed after the first char"
  end.
End Pg.

(** ** Builder targets ([userapp/builder_control.rs]) *)

Record BuilderPodIdentity := { pod_name : string; pod_uid : string; pod_resource_version : string }.
#[global] Instance BuilderPodIdentity_eq_dec : EqDecision BuilderPodIdentity.
Proof. solve_decision. Defined.

(** The startup mode is compared, never inspected: its JSON. *)
Record BuilderControlTarget := {
  bt_resource_binding : option UserAppResourceBinding;
  bt_context : UserAppExecutionContext;
  bt_workload : option AppResourceIdentity;
  bt_pod : option BuilderPodIdentity;
  bt_restart_image : option string;
  bt_restart_runtime_workspace : option string;
  bt_builder_startup_mode : Json;
}.
#[global] Instance BuilderControlTarget_eq_dec : EqDecision BuilderControlTarget.
Proof. solve_decision. Defined.

Definition USERAPP_DEV_HOME : string := "/home/user".
Definition userapp_dev_workspace (app_id : string) : string := USERAPP_DEV_HOME +:+ "/" +:+ app_id.

Definition workload_is (k : AppResourceKind) (w : option AppResourceIdentity) : bool :=
  match w with Some r => bool_decide (res_kind r = k) | None => false end.

Definition builder_compute_only (t : BuilderControlTarget) (w : AppResourceIdentity) : bool :=
  match res_kind w with
  | Container => is_none (bt_pod t)
  | StatefulSet => negb (opt_str_empty (res_version w))
  | _ => false
  end.

Definition builder_target_validate (t : BuilderControlTarget) : result unit string :=
  let? _ := validate_identity (bt_context t) (ctx_app_id (bt_context t)) in
  let? _ := ensure (negb (match bt_restart_image t with
                          | Some image => trim_is_empty image | None => false end))
              "Builder restart image is empty" in
  let? _ := match bt_restart_runtime_workspace t with
            | Some root =>
                ensure (bool_decide (root = userapp_dev_workspace (ctx_app_id (bt_context t)))
                        && workload_is StatefulSet (bt_workload t))
                  "Builder restart workspace requires the captured dev StatefulSet source root"
            | None => Ok tt
            end in
  let? _ := match bt_workload t with
            | Some w =>
                let? _ := ensure (negb (str_is_empty (res_name w) || str_is_empty (res_uid w)))
                            "Builder compute identity is missing" in
                let? _ := match bt_resource_binding t with
                          | Some b => binding_validate b (bt_context t) (res_uid w)
                          | None => Ok tt
                          end in
                ensure (builder_compute_only t w)
                  "Builder control requires a compute-only resource identity"
            | None =>
                ensure (negb (is_some (bt_pod t) || is_some (bt_resource_binding t)))
                  "Builder pod has no captured workload"
            end in
  ensure (negb (match bt_pod t with
                | Some p => str_is_empty (pod_name p) || str_is_empty (pod_uid p)
                            || str_is_empty (pod_resource_version p)
                | None => false end))
    "Builder pod identity is incomplete".

(** ** Database password and preparation evidence *)

Record RuntimeConfigurationTarget := { rt_physical_uid : string; rt_deployment_generation : string }.
#[global] Instance RuntimeConfigurationTarget_eq_dec : EqDecision RuntimeConfigurationTarget.
Proof. solve_decision. Defined.

Inductive DatabasePasswordStage := PwCaptured | PwWriteSubmitted | PwVerified | PwCancelled.
#[global] Instance DatabasePasswordStage_eq_dec : EqDecision DatabasePasswordStage.
Proof. solve_decision. Defined.

Inductive DatabasePasswordTarget :=
  | PwDev (target : BuilderControlTarget)
  | PwProd (target : RuntimeConfigurationTarget).
#[global] Instance DatabasePasswordTarget_eq_dec : EqDecision DatabasePasswordTarget.
Proof. solve_decision. Defined.

Record DatabasePasswordEvidence := {
  pw_receipt_protocol : option Z;
  pw_context : UserAppExecutionContext;
  pw_username : string;
  pw_target : DatabasePasswordTarget;
  pw_stage : DatabasePasswordStage;
}.
#[global] Instance DatabasePasswordEvidence_eq_dec : EqDecision DatabasePasswordEvidence.
Proof. solve_decision. Defined.

Definition password_target_validate (e : DatabasePasswordEvidence) (o : UserAppOperationRecord)
    (production : bool) : result unit string :=
  match pw_target e with
  | PwDev target =>
      if negb production && bool_decide (op_scope o = Dev) then
        let? _ := builder_target_validate target in
        ensure (bool_decide (bt_context target = pw_context e)
                && is_some (bt_workload target)
                && negb (workload_is StatefulSet (bt_workload target) && is_none (bt_pod target)))
          "Database password target requires a captured builder and physical pod"
      else Err "Database password target scope differs from admission"
  | PwProd target =>
      if production && bool_decide (op_scope o = Prod) then
        ensure (negb (str_is_empty (rt_physical_uid target)
                      || str_is_empty (rt_deployment_generation target)))
          "Database password target requires a physical identity and generation"
      else Err "Database password target scope differs from admission"
  end.

Definition password_validate_operation (e : DatabasePasswordEvidence) (o : UserAppOperationRecord)
    : result unit string :=
  let? _ := validate_identity (pw_context e) (op_app_id o) in
  let? _ := ensure (match pw_receipt_protocol e with Some v => (v =? 1)%Z | None => true end)
              "Unknown database password receipt protocol" in
  let? _ := ensure (context_owns (pw_context e) o)
              "Database password evidence has a different execution identity" in
  match op_command o with
  | Some (CmdResetDatabasePassword production username) =>
      let? _ := Pg.validate_pg_identifier (pw_username e) in
      let? _ := ensure (bool_decide (username = pw_username e)
                        && bool_decide (op_kind o
                             = command_kind (CmdResetDatabasePassword production username)))
                  "Database password target account differs from admission" in
      password_target_validate e o production
  | _ => Err "Database password evidence requires its original command"
  end.

Inductive DatabasePreparationStage := PrepCaptured | PrepStartSubmitted | PrepManagementReady.
#[global] Instance DatabasePreparationStage_eq_dec : EqDecision DatabasePreparationStage.
Proof. solve_decision. Defined.

Record DatabasePreparationEvidence := {
  prep_target : UserAppMutationTarget;
  prep_deployment_generation : string;
  prep_stage : DatabasePreparationStage;
  prep_management : option RuntimeConfigurationTarget;
}.
#[global] Instance DatabasePreparationEvidence_eq_dec : EqDecision DatabasePreparationEvidence.
Proof. solve_decision. Defined.

Definition preparation_management_ok (e : DatabasePreparationEvidence) : bool :=
  let resource := mt_resource (prep_target e) in
  match prep_stage e, prep_management e with
  | PrepManagementReady, Some m =>
      negb (str_is_empty (rt_physical_uid m))
      && bool_decide (rt_deployment_generation m = prep_deployment_generation e)
      && (negb (bool_decide (res_kind resource = Container))
          || bool_decide (rt_physical_uid m = res_uid resource))
  | (PrepCaptured | PrepStartSubmitted), None => true
  | _, _ => false
  end.

Definition preparation_validate_operation (e : DatabasePreparationEvidence)
    (o : UserAppOperationRecord) : result unit string :=
  let context := mt_context (prep_target e) in
  let resource := mt_resource (prep_target e) in
  let? _ := validate_identity context (op_app_id o) in
  let? _ := ensure (bool_decide (op_kind o = PrepareProdDatabase)
                    && bool_decide (op_command o = Some CmdPrepareProdDatabase)
                    && bool_decide (op_scope o = Prod)
                    && context_owns context o)
              "Database preparation execution identity mismatch" in
  let? _ := ensure (negb (str_is_empty (res_uid resource) || str_is_empty (res_name resource)
                          || str_is_empty (prep_deployment_generation e)
                          || negb (match res_kind resource with
                                   | Container | Deployment => true | _ => false end)
                          || (bool_decide (res_kind resource = Deployment)
                              && opt_str_empty (res_version resource))))
              "Database preparation requires a captured physical workload" in
  ensure (preparation_management_ok e)
    "Database preparation management evidence is incomplete".
