(* ===== verification/WorkDir.v ===== *)
(** * Working directories ([shared_types/src/validation.rs], from line 117)

    The platform-independent normalisation of absolute directories and the
    check of [agent_work_dir].  Text is its UTF-8 bytes; the functions look at
    ASCII separators, letters and controls, at white space and at the number
    of code points. *)
From S2P Require Import Prelude Validation Evidence.
From Stdlib Require Import Ascii.
Import Text Identifier.
Local Open Scope rust_scope.

Abbreviation Bytes := (list ascii).

(** A literal. *)
Definition bytes (s : string) : Bytes := String.list_ascii_of_string s.
Definition slash : ascii := "/"%char.
Definition backslash : ascii := "\"%char.
Definition colon : ascii := ":"%char.

Fixpoint has_prefix (p s : Bytes) : bool :=
  match p, s with
  | [], _ => true
  | a :: p, b :: s => bool_decide (a = b) && has_prefix p s
  | _ :: _, [] => false
  end.
(** [str::strip_prefix]. *)
Definition strip_prefix (p s : Bytes) : option Bytes :=
  if has_prefix p s then Some (drop (length p) s) else None.

(** ** [str::trim] *)

(** Drop leading white space, of one, two or three bytes. *)
Fixpoint skip_white (w1 : ascii → bool) (w2 : ascii → ascii → bool)
    (w3 : ascii → ascii → ascii → bool) (s : Bytes) : Bytes :=
  match s with
  | [] => []
  | a :: r1 =>
      if w1 a then skip_white w1 w2 w3 r1 else
      match r1 with
      | [] => s
      | b :: r2 =>
          if w2 a b then skip_white w1 w2 w3 r2 else
          match r2 with
          | [] => s
          | c :: r3 => if w3 a b c then skip_white w1 w2 w3 r3 else s
          end
      end
  end.

Definition trim_front (s : Bytes) : Bytes := skip_white white1 white2 white3 s.
Definition trim_back (s : Bytes) : Bytes :=
  reverse (skip_white white1 (λ b a, white2 a b) (λ c b a, white3 a b c) (reverse s)).
Definition trim (s : Bytes) : Bytes := trim_back (trim_front s).

(** [chars().count()]: every byte but the UTF-8 continuation bytes. *)
Definition is_continuation (c : ascii) : bool := byte_in 128 191 c.
Fixpoint char_count (s : Bytes) : nat :=
  match s with
  | [] => 0
  | c :: r => if is_continuation c then char_count r else S (char_count r)
  end.

Definition is_control (c : ascii) : bool := byte_in 0 31 c || byte_in 127 127 c.

(** ** Forms of absolute paths *)

(** [bytes.len() >= 3 && p(bytes[0]) && bytes[1] == b':' && bytes[2] == b'/'] *)
Definition drive_by (p : ascii → bool) (s : Bytes) : bool :=
  match s with
  | a :: b :: c :: _ => p a && bool_decide (b = colon) && bool_decide (c = slash)
  | _ => false
  end.
Definition is_drive_form (s : Bytes) : bool := drive_by is_ascii_alphabetic s.

Definition to_upper (c : ascii) : ascii :=
  if is_ascii_lowercase c then ascii_of_N (N_of_ascii c - 32) else c.

(** The loop of [canonicalize_dir]. *)
Fixpoint collapse (in_sep : bool) (s : Bytes) : Bytes :=
  match s with
  | [] => []
  | ch :: r =>
      let normalized := if bool_decide (ch = backslash) then slash else ch in
      if bool_decide (normalized = slash)
      then if in_sep then collapse true r else slash :: collapse true r
      else normalized :: collapse false r
  end.

Definition canonicalize_dir (dir : Bytes) : Bytes :=
  let unc := has_prefix (bytes "//") dir || has_prefix (bytes "\\") dir in
  let collapsed := collapse false dir in
  let collapsed := if unc then slash :: collapsed else collapsed in
  if drive_by is_ascii_lowercase collapsed
  then match collapsed with [] => [] | c :: r => to_upper c :: r end
  else collapsed.

(** [rest_bytes[..3].eq_ignore_ascii_case(b"UNC") && rest_bytes[3] == b'\\'] *)
Definition is_unc_tail (rest : Bytes) : bool :=
  match rest with
  | u :: n :: c :: s :: _ =>
      bool_decide (to_upper u = "U"%char) && bool_decide (to_upper n = "N"%char)
      && bool_decide (to_upper c = "C"%char) && bool_decide (s = backslash)
  | _ => false
  end.

Definition is_drive_tail (rest : Bytes) : bool :=
  match rest with
  | a :: b :: _ => is_ascii_alphabetic a && bool_decide (b = colon)
  | _ => false
  end.

Definition strip_verbatim (trimmed : Bytes) : result (option Bytes) string :=
  match strip_prefix (bytes "\\?\") trimmed with
  | Some rest =>
      if is_unc_tail rest then Ok (Some (bytes "\\" ++ drop 4 rest))
      else if is_drive_tail rest then Ok (Some rest)
      else Err "verbatim prefix \\?\ must be followed by a drive letter or UNC"
  | None =>
      if has_prefix (bytes "\\.\") trimmed
      then Err "device namespace paths (\\.\) are not supported"
      else Ok None
  end.

Definition is_absolute (dir : Bytes) : bool := has_prefix (bytes "/") dir || is_drive_form dir.

Definition is_absolute_path_like (value : Bytes) : bool :=
  let trimmed := trim value in
  match strip_verbatim trimmed with
  | Ok (Some inner) => is_absolute (canonicalize_dir inner)
  | Ok None => is_absolute (canonicalize_dir trimmed)
  | Err _ => false
  end.

(** [str::split('/')]: always at least one segment. *)
Fixpoint split_slash (s : Bytes) : list Bytes :=
  match s with
  | [] => [[]]
  | c :: r =>
      if bool_decide (c = slash) then [] :: split_slash r
      else match split_slash r with
           | [] => [[c]]
           | seg :: rest => (c :: seg) :: rest
           end
  end.

Definition is_dot_segment (seg : Bytes) : bool :=
  bool_decide (seg = bytes ".") || bool_decide (seg = bytes "..").

Definition ABSOLUTE_DIR_MAX_LEN : nat := 512.
Definition AGENT_WORK_DIR_MAX_SEGMENTS : nat := 8.

Definition normalize_absolute_dir (raw : Bytes) (field_name : string) : result Bytes string :=
  let dir := trim raw in
  let? _ := ensure (negb (Nat.ltb ABSOLUTE_DIR_MAX_LEN (char_count dir)))
              (field_name +:+ " length exceeds 512") in
  let? _ := ensure (negb (existsb is_control dir)) (field_name +:+ " contains illegal characters") in
  let? stripped := map_err (λ e, field_name +:+ " " +:+ e) (strip_verbatim dir) in
  let dir := canonicalize_dir (default dir stripped) in
  let? _ := ensure (is_absolute dir)
              (field_name +:+ " must be an absolute path (POSIX /a/b, Windows C:/a/b or UNC //server/share/a/b)") in
  let? _ := ensure (negb (existsb is_dot_segment (split_slash dir)))
              (field_name +:+ " must not contain dot segments") in
  Ok dir.

Definition segment_count (dir : Bytes) : nat :=
  length (filter (λ seg, seg ≠ []) (split_slash dir)).

Definition validate_agent_work_dir (value : Bytes) : result unit string :=
  if negb (is_absolute_path_like value)
  then validate_identifier (String.string_of_list_ascii value) "agent_work_dir"
  else
    let? normalized := normalize_absolute_dir value "agent_work_dir" in
    let segments := segment_count normalized in
    ensure (negb (Nat.eqb segments 0 || Nat.ltb AGENT_WORK_DIR_MAX_SEGMENTS segments))
      ("agent_work_dir 路径段数须在 1-8 之间: " +:+ String.string_of_list_ascii value).

Definition validate_agent_work_dir_for_service (service_type : ServiceType) (value : Bytes)
    : result unit string :=
  match service_type with
  | ComputerAgentRunner | ComputerNormalProject => validate_agent_work_dir value
  | _ =>
      if is_absolute_path_like value
      then Err "absolute agent_work_dir is only supported for ComputerAgentRunner"
      else validate_identifier (String.string_of_list_ascii value) "agent_work_dir"
  end.

(** The source's own examples. *)
Example normalize_examples :
  normalize_absolute_dir (bytes "  /a/b  ") "f" = Ok (bytes "/a/b")
  ∧ normalize_absolute_dir (bytes "//a//b") "f" = Ok (bytes "//a/b")
  ∧ normalize_absolute_dir (bytes "\\srv\share\a") "f" = Ok (bytes "//srv/share/a")
  ∧ normalize_absolute_dir (bytes "c:/x") "f" = Ok (bytes "C:/x")
  ∧ normalize_absolute_dir (bytes "\\?\unc\s\a") "f" = Ok (bytes "//s/a")
  ∧ is_ok (normalize_absolute_dir (bytes "/a/../b") "f") = false
  ∧ is_ok (normalize_absolute_dir (bytes "C:") "f") = false
  ∧ is_absolute_path_like (bytes "\\?\foo") = false.
Proof. vm_compute. by repeat split. Qed.
