(* ===== verification/WorkDirSafety.v ===== *)
(** * What a normalised directory is

    Normalisation ends in an absolute path without back slashes, control bytes,
    dot segments or repeated separators, and normalising again changes
    nothing. *)
From S2P Require Import Prelude Validation Evidence WorkDir.
From Stdlib Require Import Ascii.
Import Text Identifier.
Local Open Scope rust_scope.

Lemma has_prefix_app p s : has_prefix p s = true → s = p ++ drop (length p) s.
Proof.
  revert s. induction p as [|a p IH]; intros s Hp; [done|]. destruct s as [|b s]; [done|]. simpl in *.
  apply andb_true_iff in Hp as [->%bool_decide_eq_true Hp]. f_equal. by apply IH.
Qed.

(** ** Trimming *)

Section white.
Context (w1 : ascii → bool) (w2 : ascii → ascii → bool) (w3 : ascii → ascii → ascii → bool).

Definition starts_white (s : Bytes) : bool :=
  match s with
  | [] => false
  | [a] => w1 a
  | [a; b] => w1 a || w2 a b
  | a :: b :: c :: _ => w1 a || w2 a b || w3 a b c
  end.

Lemma skip_white_id s : starts_white s = false → skip_white w1 w2 w3 s = s.
Proof.
  destruct s as [|a [|b [|c r]]]; simpl; [done|by intros ->|..].
  - intros [-> ->]%orb_false_iff. done.
  - by intros [[-> ->]%orb_false_iff ->]%orb_false_iff.
Qed.

Lemma skip_white_done s : starts_white (skip_white w1 w2 w3 s) = false.
Proof.
  induction s as [s IH] using (well_founded_ind (well_founded_ltof _ length)). unfold ltof in IH.
  destruct s as [|a r1]; [done|]. simpl. destruct (w1 a) eqn:H1; [apply IH; simpl; lia|].
  destruct r1 as [|b r2]; [done|]. destruct (w2 a b) eqn:H2; [apply IH; simpl; lia|].
  destruct r2 as [|c r3]; [by simpl; rewrite H1, H2|].
  destruct (w3 a b c) eqn:H3; [apply IH; simpl; lia|]. simpl. by rewrite H1, H2, H3.
Qed.
End white.

(** Text that ends in white space. *)
Definition ends_white (s : Bytes) : bool :=
  starts_white white1 (λ b a, white2 a b) (λ c b a, white3 a b c) (reverse s).

Lemma trim_ends s : ends_white (trim s) = false.
Proof. unfold ends_white, trim, trim_back. rewrite reverse_involutive. apply skip_white_done. Qed.

Lemma trim_id s :
  starts_white white1 white2 white3 s = false → ends_white s = false → trim s = s.
Proof.
  intros Hs He. unfold trim, trim_front, trim_back. rewrite (skip_white_id _ _ _ s) by done.
  rewrite skip_white_id by done. apply reverse_involutive.
Qed.

(** A white space sequence, and ending in one. *)
Definition white_seq (w : Bytes) : bool :=
  match w with
  | [a] => white1 a
  | [a; b] => white2 a b
  | [a; b; c] => white3 a b c
  | _ => false
  end.

Lemma ends_white_suffix s : ends_white s = true → ∃ w, white_seq w = true ∧ w `suffix_of` s.
Proof.
  unfold ends_white. intros Hw. rewrite <- (reverse_involutive s). generalize dependent (reverse s).
  intros r Hw. destruct r as [|a [|b [|c r]]]; simpl in Hw; [done|..].
  - exists [a]. split; [done|]. done.
  - apply orb_true_iff in Hw as [Hw|Hw]; [exists [a]|exists [b; a]]; (split; [done|]).
    + exists [b]. by rewrite reverse_cons, reverse_cons.
    + done.
  - rewrite !reverse_cons, <- !(assoc_L (++)).
    apply orb_true_iff in Hw as [[Hw|Hw]%orb_true_iff|Hw]; [exists [a]|exists [b; a]|exists [c; b; a]];
      (split; [done|]).
    + exists (reverse r ++ [c; b]). by rewrite <- (assoc_L (++)).
    + exists (reverse r ++ [c]). by rewrite <- (assoc_L (++)).
    + by exists (reverse r).
Qed.

Lemma suffix_ends_white w s : white_seq w = true → w `suffix_of` s → ends_white s = true.
Proof.
  intros Hw [p ->]. unfold ends_white. rewrite reverse_app.
  destruct w as [|a [|b [|c [|? ?]]]]; try done; simpl in Hw; unfold reverse; simpl.
  - destruct (rev_append p []) as [|x [|y l]]; simpl; by rewrite Hw.
  - destruct (rev_append p []) as [|x l]; simpl; rewrite Hw; by rewrite ?orb_true_r.
  - by rewrite Hw, !orb_true_r.
Qed.

(** White space contains no separator, letter or colon. *)
Definition plain_white (c : ascii) : bool :=
  negb (bool_decide (c = slash)) && negb (bool_decide (c = backslash)) && negb (is_ascii_alphabetic c).

Lemma white_seq_plain w : white_seq w = true → forallb plain_white w = true.
Proof.
  assert (∀ lo hi c, byte_in lo hi c = true → ((hi < 47)%N ∨ (123 < lo)%N) → plain_white c = true) as Hb.
  { intros lo hi c [Hl%N.leb_le Hh%N.leb_le]%andb_true_iff Hr. unfold plain_white.
    assert (c ≠ slash ∧ c ≠ backslash ∧ is_ascii_alphabetic c = false) as (H1 & H2 & ->).
    { split_and!.
      - intros ->. unfold slash in *. simpl in *. lia.
      - intros ->. unfold backslash in *. simpl in *. lia.
      - unfold is_ascii_alphabetic, is_ascii_uppercase, is_ascii_lowercase, byte_in.
        apply orb_false_iff. split; apply andb_false_iff; rewrite !N.leb_gt; lia. }
    by rewrite !bool_decide_eq_false_2. }
  destruct w as [|a [|b [|c [|? ?]]]]; try done; simpl; unfold white1, white2, white3; intros Hw.
  - apply orb_true_iff in Hw as [Hw|Hw]; rewrite (Hb _ _ _ Hw) by lia; done.
  - apply andb_true_iff in Hw as [Ha Hw]. rewrite (Hb _ _ _ Ha) by lia.
    apply orb_true_iff in Hw as [Hw|Hw]; rewrite (Hb _ _ _ Hw) by lia; done.
  - repeat match type of Hw with
    | (_ || _ = true) => apply orb_true_iff in Hw as [Hw|Hw]
    end; apply andb_true_iff in Hw as [[Ha Hx]%andb_true_iff Hc];
      rewrite (Hb _ _ a Ha), (Hb _ _ b Hx) by lia;
      repeat match type of Hc with
      | (_ || _ = true) => apply orb_true_iff in Hc as [Hc|Hc]
      end; rewrite (Hb _ _ c Hc) by lia; done.
Qed.

(** ** Separators *)

(** No back slash, and no slash after a slash ([prev] tells whether the byte
    before is one). *)
Fixpoint single_seps (prev : bool) (s : Bytes) : bool :=
  match s with
  | [] => true
  | c :: r =>
      negb (bool_decide (c = backslash))
      && (if bool_decide (c = slash) then negb prev && single_seps true r else single_seps false r)
  end.

Lemma slash_backslash : slash ≠ backslash.
Proof. done. Qed.

Lemma collapse_single b s : single_seps b (collapse b s) = true.
Proof.
  revert b. induction s as [|ch r IH]; intros b; [done|]. cbn [collapse].
  destruct (bool_decide (ch = backslash)) eqn:Hb; [by destruct b; [apply IH|simpl; rewrite IH]|].
  destruct (bool_decide (ch = slash)) eqn:Hs.
  - destruct b; [apply IH|]. simpl. by rewrite IH.
  - cbn [single_seps]. rewrite Hb, Hs. simpl. apply IH.
Qed.

Lemma collapse_id b s : single_seps b s = true → collapse b s = s.
Proof.
  revert b. induction s as [|ch r IH]; intros b Hs; [done|]. cbn [single_seps] in Hs. cbn [collapse].
  apply andb_true_iff in Hs as [Hb%negb_true_iff Hs]. rewrite Hb.
  destruct (bool_decide (ch = slash)) eqn:Hsl; [|by rewrite IH].
  apply andb_true_iff in Hs as [Hp%negb_true_iff Hs]. subst b.
  apply bool_decide_eq_true in Hsl as ->. by rewrite IH.
Qed.

(** A separator-free collapse is the identity. *)
Lemma collapse_plain s : slash ∉ collapse false s → collapse false s = s.
Proof.
  induction s as [|ch r IH]; [done|]. cbn [collapse].
  destruct (bool_decide (ch = backslash)); [intros Hn; destruct Hn; by left|].
  destruct (bool_decide (ch = slash)) eqn:Hs; [intros Hn; destruct Hn; by left|].
  intros [_ Hn]%not_elem_of_cons. by rewrite IH.
Qed.

(** What collapsing leaves at the end was there. *)
Lemma collapse_suffix b w s : slash ∉ w → w `suffix_of` collapse b s → w `suffix_of` s.
Proof.
  destruct w as [|x w]; [by intros; apply suffix_nil|].
  intros Hw. revert b. induction s as [|ch r IH]; intros b; [done|]. cbn [collapse].
  set (n := if bool_decide (ch = backslash) then slash else ch).
  destruct (bool_decide (n = slash)) eqn:Hn.
  - destruct b; intros Hsuf; [by apply suffix_cons_r, (IH true)|].
    apply suffix_cons_inv in Hsuf as [Heq|Hsuf]; [|by apply suffix_cons_r, (IH true)].
    rewrite Heq in Hw. destruct Hw. by left.
  - intros Hsuf. apply suffix_cons_inv in Hsuf as [Heq|Hsuf]; [|by apply suffix_cons_r, (IH false)].
    rewrite Heq in Hw |- *. apply not_elem_of_cons in Hw as [_ Hw]. rewrite (collapse_plain r Hw).
    assert (n = ch) as ->; [|done]. unfold n in *. by destruct (bool_decide (ch = backslash)).
Qed.

Lemma char_count_cons_le c s : char_count s ≤ char_count (c :: s).
Proof. simpl. case_match; lia. Qed.
Lemma char_count_drop n s : char_count (drop n s) ≤ char_count s.
Proof.
  revert n. induction s as [|c s IH]; intros [|n]; simpl; try lia. specialize (IH n). case_match; lia.
Qed.

Lemma collapse_count b s : char_count (collapse b s) ≤ char_count s.
Proof.
  revert b. induction s as [|ch r IH]; intros b; [done|]. cbn [collapse].
  destruct (bool_decide (ch = backslash)) eqn:Hb.
  - apply bool_decide_eq_true in Hb as ->. simpl. pose proof (IH true). destruct b; simpl; lia.
  - destruct (bool_decide (ch = slash)) eqn:Hs.
    + apply bool_decide_eq_true in Hs as ->. simpl. pose proof (IH true). destruct b; simpl; lia.
    + simpl. pose proof (IH false). case_match; lia.
Qed.

Lemma collapse_control b s : existsb is_control s = false → existsb is_control (collapse b s) = false.
Proof.
  revert b. induction s as [|ch r IH]; intros b; [done|]. cbn [existsb collapse].
  intros [Hc Hr]%orb_false_iff.
  destruct (bool_decide (ch = backslash)).
  - destruct b; simpl; by rewrite IH.
  - destruct (bool_decide (ch = slash)); [destruct b; simpl; by rewrite IH|].
    cbn [existsb]. by rewrite Hc, IH.
Qed.

(** ** Canonical directories *)

(** Single separators, a leading pair allowed, a drive letter in upper case. *)
Definition canonical (d : Bytes) : bool :=
  (single_seps false d || (has_prefix (bytes "//") d && single_seps false (drop 1 d)))
  && negb (drive_by is_ascii_lowercase d).

Lemma to_upper_not_lower c : is_ascii_lowercase (to_upper c) = false.
Proof. by destruct c as [[] [] [] [] [] [] [] []]. Qed.
Lemma lower_not_sep c : is_ascii_lowercase c = true →
  to_upper c ≠ slash ∧ to_upper c ≠ backslash ∧ c ≠ slash ∧ is_control (to_upper c) = false
  ∧ is_continuation (to_upper c) = is_continuation c.
Proof. by destruct c as [[] [] [] [] [] [] [] []]. Qed.

(** The two shapes of a canonicalised directory. *)
Lemma canonicalize_cases dir :
  (∃ u v rest, dir = u :: v :: rest ∧ (u = slash ∨ u = backslash) ∧ (v = slash ∨ v = backslash)
     ∧ canonicalize_dir dir = slash :: slash :: collapse true rest)
  ∨ (drive_by is_ascii_lowercase (collapse false dir) = false
     ∧ canonicalize_dir dir = collapse false dir)
  ∨ (∃ c r, collapse false dir = c :: r ∧ is_ascii_lowercase c = true
     ∧ canonicalize_dir dir = to_upper c :: r).
Proof.
  unfold canonicalize_dir.
  destruct (has_prefix (bytes "//") dir || has_prefix (bytes "\\") dir) eqn:Hunc.
  - left. apply orb_true_iff in Hunc as [Hp|Hp]; apply has_prefix_app in Hp; rewrite Hp; simpl.
    + exists slash, slash, (drop 2 dir). split_and!; [done|by left|by left|]. by case_match.
    + exists backslash, backslash, (drop 2 dir). split_and!; [done|by right|by right|]. by case_match.
  - right. destruct (drive_by is_ascii_lowercase (collapse false dir)) eqn:Hd; [right|by left].
    destruct (collapse false dir) as [|c r]; [done|]. exists c, r. split_and!; try done.
    destruct r as [|x [|y r]]; try done. simpl in Hd.
    by apply andb_true_iff in Hd as [[Hd _]%andb_true_iff _].
Qed.

Lemma canonicalize_canonical dir : canonical (canonicalize_dir dir) = true.
Proof.
  unfold canonical. destruct (canonicalize_cases dir)
    as [(u & v & rest & _ & _ & _ & ->)|[[Hd ->]|(c & r & Hc & Hl & ->)]].
  - simpl. rewrite (collapse_single true rest). simpl. by case_match.
  - by rewrite Hd, collapse_single.
  - pose proof (collapse_single false dir) as Hs. rewrite Hc in Hs. cbn [single_seps] in *.
    destruct (lower_not_sep c Hl) as (H1 & H2 & H3 & _). rewrite (bool_decide_eq_false_2 (c = slash)) in Hs by done.
    apply andb_true_iff in Hs as [_ Hs]. rewrite !bool_decide_eq_false_2 by done. rewrite Hs. simpl.
    destruct r as [|x [|y r]]; try done. simpl. by rewrite to_upper_not_lower.
Qed.

Lemma canonical_id d : canonical d = true → canonicalize_dir d = d.
Proof.
  unfold canonical, canonicalize_dir. intros [[Hs|[Hp Hs]%andb_true_iff]%orb_true_iff Hd%negb_true_iff]%andb_true_iff.
  - assert (has_prefix (bytes "//") d || has_prefix (bytes "\\") d = false) as ->.
    { destruct d as [|a [|b r]]; simpl in *; [done|by rewrite !andb_false_r|].
      apply andb_true_iff in Hs as [Ha%negb_true_iff Hs].
      rewrite (bool_decide_eq_false_2 ("\"%char = a)) by by intros <-. rewrite orb_false_r.
      destruct (bool_decide (a = slash)) eqn:Hsl.
      - apply andb_true_iff in Hs as [_ Hs].
        destruct (bool_decide (b = slash)) eqn:Hb; [done|]. apply bool_decide_eq_false in Hb.
        rewrite (bool_decide_eq_false_2 ("/"%char = b)) by by intros <-. by rewrite andb_false_r.
      - apply bool_decide_eq_false in Hsl. by rewrite (bool_decide_eq_false_2 ("/"%char = a)) by by intros <-. }
    rewrite collapse_id by done. by rewrite Hd.
  - rewrite Hp. apply has_prefix_app in Hp. cbv zeta. cbn [orb].
    assert (slash :: collapse false d = d) as ->; [|by rewrite Hd].
    rewrite Hp in Hs |- *. simpl in *. rewrite collapse_id; [by rewrite <- Hp|done].
Qed.

(** ** From the raw text to the result *)

Lemma to_upper_alphabetic c : is_ascii_lowercase c = true → is_ascii_alphabetic (to_upper c) = true.
Proof. by destruct c as [[] [] [] [] [] [] [] []]. Qed.

Lemma white_head x w :
  white_seq (x :: w) = true → x ≠ slash ∧ x ≠ backslash ∧ is_ascii_alphabetic x = false.
Proof.
  intros Hw%white_seq_plain. simpl in Hw. apply andb_true_iff in Hw as [Hw _].
  unfold plain_white in Hw. apply andb_true_iff in Hw as [[H1 H2]%andb_true_iff H3].
  apply negb_true_iff in H1, H2, H3. apply bool_decide_eq_false in H1, H2. done.
Qed.

Lemma white_no_slash w : white_seq w = true → slash ∉ w.
Proof.
  intros Hw%white_seq_plain Hin. rewrite forallb_forall in Hw.
  by apply list_elem_of_In, Hw in Hin.
Qed.

(** A white suffix does not reach over a byte that white space cannot start
    with. *)
Lemma white_suffix_tail w c s :
  white_seq w = true → (c = slash ∨ c = backslash ∨ is_ascii_alphabetic c = true) →
  w `suffix_of` c :: s → w `suffix_of` s.
Proof.
  intros Hw Hc Hsuf. destruct w as [|x w]; [done|]. destruct (white_head _ _ Hw) as (H1 & H2 & H3).
  apply suffix_cons_inv in Hsuf as [Heq|Hsuf]; [|done]. simplify_eq. destruct Hc as [|[|]]; congruence.
Qed.

(** What both rewriting steps preserve. *)
Record tamer (s d : Bytes) : Prop := {
  tm_count : char_count d ≤ char_count s;
  tm_control : existsb is_control s = false → existsb is_control d = false;
  tm_white : ∀ w, white_seq w = true → w `suffix_of` d → w `suffix_of` s;
}.

#[local] Instance tamer_preorder : PreOrder tamer.
Proof.
  split; [by split|]. intros s1 s2 s3 [C1 K1 W1] [C2 K2 W2]. split; [lia|auto|auto].
Qed.

Lemma tamer_drop n s : tamer s (drop n s).
Proof.
  split; [apply char_count_drop| |by intros w _ ?; trans (drop n s); [|apply suffix_drop]].
  revert n. induction s as [|c s IH]; intros [|n]; try done. simpl. intros [_ H]%orb_false_iff. by apply IH.
Qed.

Lemma tamer_cons c s : (c = slash ∨ c = backslash) → tamer (c :: s) s.
Proof. intros _. exact (tamer_drop 1 (c :: s)). Qed.

(** A separator may be put in front where there was one. *)
Lemma tamer_sep c c' s d :
  (c = slash ∨ c = backslash) → (c' = slash ∨ c' = backslash) → tamer s d → tamer (c :: s) (c' :: d).
Proof.
  intros Hc Hc' [C K W].
  assert (is_continuation c = false ∧ is_continuation c' = false ∧ is_control c' = false) as (E1 & E2 & E3)
    by by destruct Hc, Hc'; subst.
  split; simpl.
  - rewrite E1, E2. lia.
  - rewrite E3. intros [_ H]%orb_false_iff. by apply K.
  - intros w Hw Hsuf. apply suffix_cons_r, (W w Hw). eapply white_suffix_tail; [done| |done]. tauto.
Qed.

Lemma collapse_tamer b s : tamer s (collapse b s).
Proof.
  split; [apply collapse_count|apply collapse_control|].
  intros w Hw. apply collapse_suffix. by apply white_no_slash.
Qed.

Lemma canonicalize_tamer s : tamer s (canonicalize_dir s).
Proof.
  destruct (canonicalize_cases s) as [(u & v & rest & -> & Hu & Hv & ->)|[[_ ->]|(c & r & Hc & Hl & ->)]].
  - apply tamer_sep; [done|by left|]. apply tamer_sep; [done|by left|]. apply collapse_tamer.
  - apply collapse_tamer.
  - trans (collapse false s); [apply collapse_tamer|]. rewrite Hc.
    destruct (lower_not_sep c Hl) as (_ & _ & _ & Hctl & Hcont). split; simpl.
    + by rewrite Hcont.
    + rewrite Hctl. by intros [_ H]%orb_false_iff.
    + intros w Hw Hsuf. apply suffix_cons_r. eapply white_suffix_tail; [done| |done].
      right; right. by apply to_upper_alphabetic.
Qed.

Lemma strip_verbatim_tamer s stripped : strip_verbatim s = Ok stripped → tamer s (default s stripped).
Proof.
  unfold strip_verbatim, strip_prefix. destruct (has_prefix (bytes "\\?\") s) eqn:Hp.
  - apply has_prefix_app in Hp. cbn [length bytes String.list_ascii_of_string] in *.
    set (rest := drop 4 s) in *. destruct (is_unc_tail rest).
    + intros; simplify_eq/=. rewrite Hp. apply tamer_sep; [by right..|]. apply tamer_sep; [by right..|].
      exact (tamer_drop 6 ("?"%char :: "\"%char :: rest)).
    + destruct (is_drive_tail _); [|done]. intros; simplify_eq/=. apply tamer_drop.
  - destruct (has_prefix (bytes "\\.\") s); [done|]. intros; simplify_eq. reflexivity.
Qed.

(** What an accepted directory went through. *)
Record normalized (d : Bytes) : Prop := {
  nm_count : char_count d ≤ ABSOLUTE_DIR_MAX_LEN;
  nm_control : existsb is_control d = false;
  nm_ends : ends_white d = false;
  nm_canonical : canonical d = true;
  nm_absolute : is_absolute d = true;
  nm_dots : existsb is_dot_segment (split_slash d) = false;
}.

Lemma normalize_ok raw f d : normalize_absolute_dir raw f = Ok d → normalized d.
Proof.
  unfold normalize_absolute_dir, result_bind, map_err, ensure.
  destruct (Nat.ltb_spec ABSOLUTE_DIR_MAX_LEN (char_count (trim raw))) as [|Hlen]; [done|]. simpl.
  destruct (existsb is_control (trim raw)) eqn:Hctl; [done|]. simpl.
  destruct (strip_verbatim (trim raw)) as [stripped|] eqn:Hst; [|done].
  destruct (is_absolute _) eqn:Habs; [|done]. destruct (existsb is_dot_segment _) eqn:Hdots; [done|].
  simpl. intros; simplify_eq.
  assert (tamer (trim raw) (canonicalize_dir (default (trim raw) stripped))) as [C K W].
  { etrans; [by apply strip_verbatim_tamer|apply canonicalize_tamer]. }
  split; [lia|auto| |apply canonicalize_canonical|done|done].
  destruct (ends_white _) eqn:He; [|done]. apply ends_white_suffix in He as (w & Hw & Hsuf).
  rewrite <- (trim_ends raw). symmetry. by eapply suffix_ends_white, W.
Qed.

Lemma absolute_head d :
  is_absolute d = true → ∃ c r, d = c :: r ∧ (c = slash ∨ is_ascii_alphabetic c = true).
Proof.
  unfold is_absolute. intros [Hp|Hp]%orb_true_iff; destruct d as [|c r]; try done; exists c, r; (split; [done|]).
  - left. simpl in Hp. by apply andb_true_iff in Hp as [<-%bool_decide_eq_true _].
  - right. destruct r as [|x [|y r]]; try done. simpl in Hp.
    by apply andb_true_iff in Hp as [[Hp _]%andb_true_iff _].
Qed.

Lemma solid_head c :
  c = slash ∨ is_ascii_alphabetic c = true →
  white1 c = false ∧ (∀ b, white2 c b = false) ∧ (∀ b b', white3 c b b' = false) ∧ c ≠ backslash.
Proof. intros [->|Hc]; [done|]. by destruct c as [[] [] [] [] [] [] [] []]. Qed.

Lemma single_seps_lookup b s i :
  single_seps b s = true → s !! i = Some slash → s !! S i ≠ Some slash.
Proof.
  revert b i. induction s as [|c r IH]; intros b i Hs; [done|]. cbn [single_seps] in Hs.
  apply andb_true_iff in Hs as [_ Hs]. destruct i as [|i]; simpl.
  - intros; simplify_eq. rewrite bool_decide_eq_true_2 in Hs by done. apply andb_true_iff in Hs as [_ Hs].
    destruct r as [|y r]; [done|]. simpl in *. apply andb_true_iff in Hs as [_ Hs].
    intros ?; by simplify_eq.
  - destruct (bool_decide (c = slash)); [apply andb_true_iff in Hs as [_ Hs]|]; by eapply IH.
Qed.

Lemma single_seps_no_backslash b s : single_seps b s = true → backslash ∉ s.
Proof.
  revert b. induction s as [|c r IH]; intros b Hs; [by apply not_elem_of_nil|]. cbn [single_seps] in Hs.
  apply andb_true_iff in Hs as [Hc%negb_true_iff%bool_decide_eq_false Hs].
  apply not_elem_of_cons. split; [done|].
  destruct (bool_decide (c = slash)); [apply andb_true_iff in Hs as [_ Hs]|]; by eapply IH.
Qed.

(** C40: A normalised directory cannot be misread.  Whatever text is accepted,
    the result is an absolute path of at most 512 characters, without back
    slashes or control bytes, without [.] or [..] segments, and with no
    repeated separator after the leading one: what the caller joins to it stays
    below it. *)
Theorem normalized_directory_is_safe raw f d :
  normalize_absolute_dir raw f = Ok d →
  is_absolute d = true ∧ char_count d ≤ 512 ∧ existsb is_control d = false ∧ (backslash ∉ d)
  ∧ (∀ seg, seg ∈ split_slash d → seg ≠ bytes "." ∧ seg ≠ bytes "..")
  ∧ (∀ i, 0 < i → d !! i = Some slash → d !! S i ≠ Some slash).
Proof.
  intros [C K _ Hcan Habs Hdots]%normalize_ok. split_and!; try done.
  - unfold canonical in Hcan. apply andb_true_iff in Hcan as [[Hs|[Hp Hs]%andb_true_iff]%orb_true_iff _].
    + by eapply single_seps_no_backslash.
    + apply has_prefix_app in Hp. simpl in Hp. rewrite Hp. apply not_elem_of_cons. split; [done|].
      rewrite Hp in Hs. by apply single_seps_no_backslash in Hs.
  - intros seg Hseg. assert (is_dot_segment seg = false) as Hd.
    { destruct (is_dot_segment seg) eqn:Hd; [|done]. rewrite <- Hdots. symmetry.
      apply existsb_exists. exists seg. by rewrite <- list_elem_of_In. }
    by apply orb_false_iff in Hd as [?%bool_decide_eq_false ?%bool_decide_eq_false].
  - intros i Hi. unfold canonical in Hcan.
    apply andb_true_iff in Hcan as [[Hs|[_ Hs]%andb_true_iff]%orb_true_iff _].
    + by eapply single_seps_lookup.
    + destruct i as [|i]; [lia|]. pose proof (single_seps_lookup false (drop 1 d) i Hs) as Hl.
      by rewrite !lookup_drop in Hl.
Qed.

(** Normalising is idempotent: an accepted directory, passed through
    validation again by another component, is accepted and stays as it is. *)
Theorem normalize_idempotent raw f f' d :
  normalize_absolute_dir raw f = Ok d → normalize_absolute_dir d f' = Ok d.
Proof.
  intros [C K He Hcan Habs Hdots]%normalize_ok.
  destruct (absolute_head d Habs) as (c & r & Hd & Hc).
  destruct (solid_head c Hc) as (W1 & W2 & W3 & Hbs).
  assert (trim d = d) as Htrim.
  { apply trim_id; [|done]. rewrite Hd. destruct r as [|x [|y r]]; simpl; by rewrite W1, ?W2, ?W3. }
  assert (strip_verbatim d = Ok None) as Hstrip.
  { unfold strip_verbatim, strip_prefix. rewrite Hd. simpl.
    by rewrite (bool_decide_eq_false_2 ("\"%char = c)) by by intros <-. }
  unfold normalize_absolute_dir. rewrite Htrim, K. destruct (Nat.ltb_spec ABSOLUTE_DIR_MAX_LEN (char_count d)); [lia|].
  simpl. rewrite Hstrip. simpl. rewrite canonical_id by done. by rewrite Habs, Hdots.
Qed.

(** The bytes of an identifier. *)
Lemma identifier_has_not c v :
  is_identifier (String.string_of_list_ascii v) → identifier_byte c = false → c ∉ v.
Proof.
  intros [_ Hall] Hc Hin. induction v as [|x v IH]; [by apply elem_of_nil in Hin|]. simpl in Hall.
  apply andb_true_iff in Hall as [Hx Hall]. apply elem_of_cons in Hin as [->|Hin]; [congruence|by apply IH].
Qed.

(** A working directory cannot escape its root.  An accepted
    [agent_work_dir] is a single identifier, without separators or dots, or, and
    only for the computer services, a directory that normalises to one to eight
    segments, none of them [.] or [..]. *)
Theorem accepted_work_dir_cannot_escape service value :
  validate_agent_work_dir_for_service service value = Ok tt →
  (is_identifier (String.string_of_list_ascii value)
   ∧ (slash ∉ value) ∧ (backslash ∉ value) ∧ ("."%char ∉ value))
  ∨ ((service = ComputerAgentRunner ∨ service = ComputerNormalProject)
     ∧ ∃ d, normalize_absolute_dir value "agent_work_dir" = Ok d
       ∧ 1 ≤ segment_count d ≤ 8 ∧ ∀ seg, seg ∈ split_slash d → is_dot_segment seg = false).
Proof.
  assert (∀ f, validate_identifier (String.string_of_list_ascii value) f = Ok tt →
    is_identifier (String.string_of_list_ascii value)
    ∧ (slash ∉ value) ∧ (backslash ∉ value) ∧ ("."%char ∉ value)) as Hid.
  { intros f Hv%validate_identifier_ok. split_and!; [done|by eapply identifier_has_not..]. }
  assert (validate_agent_work_dir value = Ok tt →
    (is_identifier (String.string_of_list_ascii value)
     ∧ (slash ∉ value) ∧ (backslash ∉ value) ∧ ("."%char ∉ value))
    ∨ ∃ d, normalize_absolute_dir value "agent_work_dir" = Ok d
       ∧ 1 ≤ segment_count d ≤ 8 ∧ ∀ seg, seg ∈ split_slash d → is_dot_segment seg = false) as Hdir.
  { unfold validate_agent_work_dir, result_bind, ensure. destruct (is_absolute_path_like value); simpl; [|eauto].
    destruct (normalize_absolute_dir value "agent_work_dir") as [d|] eqn:Hn; [|done]. intros Hseg. right.
    exists d. split; [done|].
    destruct (Nat.eqb_spec (segment_count d) 0), (Nat.ltb_spec AGENT_WORK_DIR_MAX_SEGMENTS (segment_count d));
      try done. unfold AGENT_WORK_DIR_MAX_SEGMENTS in *. split; [lia|].
    intros seg Hin. destruct (is_dot_segment seg) eqn:Hd; [|done].
    rewrite <- (nm_dots _ (normalize_ok _ _ _ Hn)). symmetry. apply existsb_exists. exists seg.
    by rewrite <- list_elem_of_In. }
  destruct service; simpl; try (destruct (is_absolute_path_like value); [done|eauto]).
  all: intros Hv; destruct (Hdir Hv) as [?|?]; [by left|right; by auto].
Qed.

(** ** Instances *)

Lemma normalized_directory_is_safe_witness :
  normalize_absolute_dir (bytes " \\srv\\share//a ") "workspaceDir" = Ok (bytes "//srv/share/a")
  ∧ (backslash ∉ bytes "//srv/share/a").
Proof.
  assert (normalize_absolute_dir (bytes " \\srv\\share//a ") "workspaceDir" = Ok (bytes "//srv/share/a")) as Hn
    by (vm_compute; reflexivity).
  split; [exact Hn|]. exact (proj1 (proj2 (proj2 (proj2 (normalized_directory_is_safe _ _ _ Hn))))).
Defined.

Lemma normalize_idempotent_witness :
  normalize_absolute_dir (bytes "\\?\c:\work\x") "f" = Ok (bytes "C:/work/x")
  ∧ normalize_absolute_dir (bytes "C:/work/x") "g" = Ok (bytes "C:/work/x").
Proof.
  assert (normalize_absolute_dir (bytes "\\?\c:\work\x") "f" = Ok (bytes "C:/work/x")) as Hn
    by (vm_compute; reflexivity).
  split; [exact Hn|]. exact (normalize_idempotent _ _ "g" _ Hn).
Defined.

Lemma accepted_work_dir_cannot_escape_witness :
  validate_agent_work_dir_for_service ComputerAgentRunner (bytes "/home/user/web/p1") = Ok tt
  ∧ ((is_identifier (String.string_of_list_ascii (bytes "/home/user/web/p1"))
      ∧ (slash ∉ bytes "/home/user/web/p1") ∧ (backslash ∉ bytes "/home/user/web/p1")
      ∧ ("."%char ∉ bytes "/home/user/web/p1"))
     ∨ ((ComputerAgentRunner = ComputerAgentRunner ∨ ComputerAgentRunner = ComputerNormalProject)
        ∧ ∃ d, normalize_absolute_dir (bytes "/home/user/web/p1") "agent_work_dir" = Ok d
          ∧ 1 ≤ segment_count d ≤ 8 ∧ ∀ seg, seg ∈ split_slash d → is_dot_segment seg = false)).
Proof.
  assert (validate_agent_work_dir_for_service ComputerAgentRunner (bytes "/home/user/web/p1") = Ok tt) as Hv
    by (vm_compute; reflexivity).
  split; [exact Hv|]. exact (accepted_work_dir_cannot_escape _ _ Hv).
Defined.
