(* ===== verification/LifecycleDomain.v ===== *)
(** * Pure lifecycle transitions ([rcoder-storage/src/userapp_lifecycle/domain.rs])

    What both SQL backends run inside a transaction: admission of an operation
    into its scope's slot, and the progress of an admitted operation, guarded
    by the evidence rules of each destructive kind.  [&mut] arguments are the
    state of the monad, so an early return keeps the writes made before it. *)
From S2P Require Import Prelude Validation Lifecycle Evidence.
Import Text Identifier.
Local Open Scope rust_scope.

(** [serde_json::from_value] at the evidence types: the derived decoders are
    generated code. *)
Class CheckpointCodec := {
  decode_deletion : Json → option UserAppDeletionCheckpoint;
  decode_destruction : Json → option UserAppStorageDestruction;
  decode_clear : Json → option UserAppStorageClear;
  decode_password : Json → option DatabasePasswordEvidence;
  decode_preparation : Json → option DatabasePreparationEvidence;
}.

Definition StoreM (S A : Type) : Type := M S UserAppStoreError A.
Definition invalid {A} (msg : string) : result A UserAppStoreError := Err (InvalidOperation msg).
Definition checked (r : result unit string) : result unit UserAppStoreError :=
  map_err InvalidOperation r.

(** ** Records *)

(** A new application; the lifecycle id is a fresh UUID, the time the clock's. *)
Definition identity (fresh_lifecycle_id : string) (now : Z) (id : string)
    : result UserAppLifecycleRecord UserAppStoreError :=
  let? _ := checked (validate_identifier id "app_id") in
  Ok {| app_runtime_policy := policy_default; app_id := id;
        app_lifecycle_id := fresh_lifecycle_id; lifecycle_epoch := 1; metadata_revision := 1;
        app_state := Active; app_name := None; tenant_id := None; space_id := None;
        app_created_at := now; active_operations := slots_default |}.

Definition with_slots (s : UserAppActiveOperations) (a : UserAppLifecycleRecord)
    : UserAppLifecycleRecord :=
  {| app_runtime_policy := app_runtime_policy a; app_id := app_id a;
     app_lifecycle_id := app_lifecycle_id a; lifecycle_epoch := lifecycle_epoch a;
     metadata_revision := metadata_revision a; app_state := app_state a; app_name := app_name a;
     tenant_id := tenant_id a; space_id := space_id a; app_created_at := app_created_at a;
     active_operations := s |}.
Definition with_app_state (s : UserAppLifecycleState) (a : UserAppLifecycleRecord)
    : UserAppLifecycleRecord :=
  {| app_runtime_policy := app_runtime_policy a; app_id := app_id a;
     app_lifecycle_id := app_lifecycle_id a; lifecycle_epoch := lifecycle_epoch a;
     metadata_revision := metadata_revision a; app_state := s; app_name := app_name a;
     tenant_id := tenant_id a; space_id := space_id a; app_created_at := app_created_at a;
     active_operations := active_operations a |}.
Definition with_policy (p : UserAppRuntimePolicy) (revision : Z) (a : UserAppLifecycleRecord)
    : UserAppLifecycleRecord :=
  {| app_runtime_policy := p; app_id := app_id a;
     app_lifecycle_id := app_lifecycle_id a; lifecycle_epoch := lifecycle_epoch a;
     metadata_revision := revision; app_state := app_state a; app_name := app_name a;
     tenant_id := tenant_id a; space_id := space_id a; app_created_at := app_created_at a;
     active_operations := active_operations a |}.
Definition with_metadata (name tenant space : option string) (revision : Z)
    (a : UserAppLifecycleRecord) : UserAppLifecycleRecord :=
  {| app_runtime_policy := app_runtime_policy a; app_id := app_id a;
     app_lifecycle_id := app_lifecycle_id a; lifecycle_epoch := lifecycle_epoch a;
     metadata_revision := revision; app_state := app_state a; app_name := name;
     tenant_id := tenant; space_id := space; app_created_at := app_created_at a;
     active_operations := active_operations a |}.

Definition with_executor (e : option string) (o : UserAppOperationRecord) : UserAppOperationRecord :=
  {| op_runtime_policy_on_success := op_runtime_policy_on_success o; op_command := op_command o;
     op_admitted_metadata := op_admitted_metadata o; op_operation_id := op_operation_id o;
     op_app_id := op_app_id o; op_lifecycle_id := op_lifecycle_id o;
     op_request_id := op_request_id o; op_request_fingerprint := op_request_fingerprint o;
     op_kind := op_kind o; op_scope := op_scope o; op_state := op_state o;
     op_revision := op_revision o; op_executor_id := e; op_step := op_step o;
     op_checkpoint := op_checkpoint o; op_error_code := op_error_code o;
     op_error_message := op_error_message o; op_created_at := op_created_at o |}.
(** What a committed progress report writes into the record. *)
Definition progressed (revision : Z) (p : UserAppOperationProgress) (o : UserAppOperationRecord)
    : UserAppOperationRecord :=
  {| op_runtime_policy_on_success := op_runtime_policy_on_success o; op_command := op_command o;
     op_admitted_metadata := op_admitted_metadata o; op_operation_id := op_operation_id o;
     op_app_id := op_app_id o; op_lifecycle_id := op_lifecycle_id o;
     op_request_id := op_request_id o; op_request_fingerprint := op_request_fingerprint o;
     op_kind := op_kind o; op_scope := op_scope o; op_state := pr_state p;
     op_revision := revision; op_executor_id := op_executor_id o; op_step := pr_step p;
     op_checkpoint := pr_checkpoint p; op_error_code := pr_error_code p;
     op_error_message := pr_error_message p; op_created_at := op_created_at o |}.

(** ** Small guards *)

Definition validate_active (a : UserAppLifecycleRecord) : result unit UserAppStoreError :=
  ensure (bool_decide (app_state a = Active)) LifecycleConflict.

Definition operation_owns_any_slot (a : UserAppLifecycleRecord) (operation_id : string) : bool :=
  existsb (λ s, opt_is (slot (active_operations a) s) operation_id) scope_order.

Definition slot_matches_operation (a : UserAppLifecycleRecord) (o : UserAppOperationRecord) : bool :=
  opt_is (slot (active_operations a) (op_scope o)) (op_operation_id o).

Definition validate_request_id (request_id : string) : result unit UserAppStoreError :=
  ensure (negb (trim_is_empty request_id || Nat.ltb 128 (String.length request_id)))
    (InvalidOperation "request identity must contain between 1 and 128 bytes").

Definition patch_metadata (patch : UserAppMetadataPatch) : StoreM UserAppLifecycleRecord unit :=
  let! a := mget in
  let! _ := mlift (validate_active a) in
  let! _ := mlift (ensure (bool_decide (app_id a = patch_app_id patch)
                           && bool_decide (app_lifecycle_id a = patch_lifecycle_id patch))
                     LifecycleConflict) in
  let! _ := mlift (ensure (metadata_revision a =? patch_expected_revision patch)%Z VersionConflict) in
  let updated := with_metadata (default (app_name a) (patch_name patch))
                   (default (tenant_id a) (patch_tenant_id patch))
                   (default (space_id a) (patch_space_id patch)) (metadata_revision a) a in
  if bool_decide (updated = a) then mret' tt else
  let! revision := mlift (ok_or (i64_checked_succ (metadata_revision a))
                            (InvalidOperation "metadata revision exhausted")) in
  mmodify (λ _, with_metadata (app_name updated) (tenant_id updated) (space_id updated) revision a).

(** ** Admission *)

Definition projects_policy (k : UserAppOperationKind) : bool :=
  match k with Create | Update | StartDeployment | RestartDeployment => true | _ => false end.

Definition empty_policy (p : UserAppRuntimePolicy) : bool :=
  is_none (recycle_enabled p) && is_none (idle_timeout_seconds p) && is_none (wake_on_traffic p).

(** The checks on the request itself, in source order. *)
Definition admission_request_checks (request : UserAppAdmission) : result unit UserAppStoreError :=
  let? _ := ensure (negb (is_some (adm_runtime_policy_on_success request)
                          && negb (projects_policy (adm_kind request))))
              (InvalidOperation "Configuration policy projection requires a create or update operation") in
  let? _ := ensure (negb (match adm_command request with
                          | Some (CmdSetRecyclePolicy policy) => empty_policy policy
                          | _ => false end))
              (InvalidOperation "At least one runtime policy field is required") in
  let? _ := ensure (match adm_command request with
                    | Some c => bool_decide (command_kind c = adm_kind request)
                    | None => true end)
              (InvalidOperation "Control command does not match operation kind") in
  let? _ := map_err (λ _, InvalidOperation "invalid operation identity")
              (validate_identifier (adm_operation_id request) "operation_id") in
  let? _ := match adm_request_id request with
            | Some request_id => validate_request_id request_id
            | None => Ok tt end in
  ensure (negb (str_is_empty (adm_operation_id request)
                || str_is_empty (adm_request_fingerprint request)
                || match adm_request_id request with Some r => str_is_empty r | None => false end))
    (InvalidOperation "operation identity and fingerprint must be nonempty").

(** A request must name the lifecycle it means, once there has been another. *)
Definition admission_lifecycle_ok (a : UserAppLifecycleRecord) (request : UserAppAdmission) : bool :=
  negb (match adm_lifecycle_id request with
        | Some id => negb (bool_decide (id = app_lifecycle_id a))
        | None => false end
        || ((1 <? lifecycle_epoch a)%Z && is_none (adm_lifecycle_id request))).

Definition same_request (o : UserAppOperationRecord) (request : UserAppAdmission) : bool :=
  bool_decide (op_kind o = adm_kind request)
  && bool_decide (op_scope o = kind_scope (adm_kind request))
  && bool_decide (op_command o = adm_command request)
  && bool_decide (op_runtime_policy_on_success o = adm_runtime_policy_on_success request)
  && bool_decide (op_request_fingerprint o = adm_request_fingerprint request)
  && bool_decide (op_admitted_metadata o = adm_metadata request).

(** The EnsureBuilder in flight that an equal request joins. *)
Definition joinable (a : UserAppLifecycleRecord) (request : UserAppAdmission)
    (joined : UserAppOperationRecord) : bool :=
  negb (op_is_terminal (op_state joined))
  && negb (bool_decide (op_state joined = RecoveryRequired))
  && bool_decide (op_kind joined = EnsureBuilder)
  && bool_decide (adm_kind request = op_kind joined)
  && bool_decide (op_lifecycle_id joined = app_lifecycle_id a)
  && bool_decide (op_request_fingerprint joined = adm_request_fingerprint request)
  && bool_decide (op_command joined = adm_command request)
  && bool_decide (op_runtime_policy_on_success joined = adm_runtime_policy_on_success request)
  && bool_decide (op_admitted_metadata joined = adm_metadata request).

(** The first occupied scope, application first, that blocks the request. *)
Fixpoint find_blocker (requested : UserAppOperationScope) (active : UserAppActiveOperationRecords)
    (scopes : list UserAppOperationScope) : option (UserAppOperationScope * UserAppOperationRecord) :=
  match scopes with
  | [] => None
  | s :: rest =>
      if userapp_scope_blocks_request requested s
      then match rec_slot active s with
           | Some o => Some (s, o)
           | None => find_blocker requested active rest
           end
      else find_blocker requested active rest
  end.

Definition blocker_at (s : UserAppOperationScope) (o : UserAppOperationRecord)
    : UserAppOperationBlocker :=
  {| blk_scope := s; blk_operation_id := op_operation_id o; blk_kind := op_kind o;
     blk_state := op_state o; blk_step := op_step o |}.

Definition admitted_record (a : UserAppLifecycleRecord) (request : UserAppAdmission) (now : Z)
    : UserAppOperationRecord :=
  {| op_runtime_policy_on_success := adm_runtime_policy_on_success request;
     op_command := adm_command request;
     op_admitted_metadata := adm_metadata request;
     op_operation_id := adm_operation_id request;
     op_app_id := app_id a;
     op_lifecycle_id := app_lifecycle_id a;
     op_request_id := adm_request_id request;
     op_request_fingerprint := adm_request_fingerprint request;
     op_kind := adm_kind request;
     op_scope := kind_scope (adm_kind request);
     op_state := Pending;
     op_revision := 1;
     op_executor_id := None;
     op_step := "admitted";
     op_checkpoint := JNull;
     op_error_code := None;
     op_error_message := None;
     op_created_at := now |}.

(** Taking the slot. *)
Definition admission_accept (request : UserAppAdmission) (now : Z)
    : StoreM UserAppLifecycleRecord UserAppAdmissionOutcome :=
  let scope := kind_scope (adm_kind request) in
  match adm_metadata request with
  | Some patch => patch_metadata patch
  | None => mret' tt
  end ;;;
  let! a := mget in
  let operation := admitted_record a request now in
  mmodify (λ a, with_slots (slot_set scope (Some (op_operation_id operation)) (active_operations a)) a) ;;;
  mwhen (ends_lifecycle (op_kind operation)) (mmodify (with_app_state Deleting)) ;;;
  mret' (AdmAccepted operation).

Definition admission (request : UserAppAdmission) (duplicate : option UserAppOperationRecord)
    (active : UserAppActiveOperationRecords) (now : Z)
    : StoreM UserAppLifecycleRecord UserAppAdmissionOutcome :=
  let! _ := mlift (admission_request_checks request) in
  let! a := mget in
  let! _ := mlift (ensure (admission_lifecycle_ok a request) LifecycleConflict) in
  match duplicate with
  | Some d =>
      let! _ := mlift (ensure (bool_decide (op_lifecycle_id d = app_lifecycle_id a)) LifecycleConflict) in
      let! _ := mlift (ensure (same_request d request)
                         (InvalidOperation "request identity was reused with different parameters")) in
      mret' (AdmExisting d)
  | None =>
      let! _ := mlift (validate_active a) in
      let scope := kind_scope (adm_kind request) in
      match (if bool_decide (scope = Dev) then rec_dev active else None) with
      | Some joined =>
          if joinable a request joined then mret' (AdmExisting joined)
          else match find_blocker scope active scope_order with
               | Some (s, o) => mfail (OperationInProgress (blocker_at s o))
               | None => admission_accept request now
               end
      | None =>
          match find_blocker scope active scope_order with
          | Some (s, o) => mfail (OperationInProgress (blocker_at s o))
          | None => admission_accept request now
          end
      end
  end.

(** ** Evidence rules of a progress report *)

Definition FENCE_RELEASED_EVIDENCE_KEY : string := "fence_released_evidence".

Definition json_remove (key : string) (fields : list (string * Json)) : list (string * Json) :=
  filter (λ f, f.1 ≠ key) fields.

Definition failure_checkpoint_preserved (previous next : Json) : bool :=
  if bool_decide (previous = next) then true else
  match next with
  | JObj fields =>
      let map := json_remove FENCE_RELEASED_EVIDENCE_KEY fields in
      if json_is_null previous && bool_decide (map = []) then true
      else bool_decide (previous = JObj map)
  | _ => false
  end.

Definition is_failure (s : UserAppOperationState) : bool :=
  match s with Failed | RecoveryRequired => true | _ => false end.

(** [if failed { preserved or error }] and [if untouched { ok }], shared by the
    three storage families. *)
Definition unrecorded_running (o : UserAppOperationRecord) (p : UserAppOperationProgress) : bool :=
  bool_decide (pr_state p = Running) && json_is_null (pr_checkpoint p)
  && json_is_null (op_checkpoint o).

Section progress.
Context `{CheckpointCodec}.

Definition is_deletion_kind (k : UserAppOperationKind) : bool :=
  match k with DeleteCompute | PurgeResources | DeleteApplication => true | _ => false end.

Definition deletion_step_ok (previous next : UserAppDeletionStage) : bool :=
  match previous, next with
  | Captured, ComputeRemoved
  | ComputeRemoved, ProductionStorageRemoved
  | ProductionStorageRemoved, DevelopmentRemoved => true
  | _, _ => false
  end.

Definition deletion_final_stage (k : UserAppOperationKind) : UserAppDeletionStage :=
  if bool_decide (k = DeleteCompute) then ComputeRemoved else DevelopmentRemoved.

(** From recorded evidence to the next. *)
Definition deletion_advances (o : UserAppOperationRecord) (p : UserAppOperationProgress)
    (previous next : UserAppDeletionCheckpoint) : result unit UserAppStoreError :=
  let? _ := ensure (bool_decide (dc_with_stage (dc_stage previous) next = previous))
              (InvalidOperation "Deletion resource evidence cannot change during execution") in
  if bool_decide (pr_state p = Succeeded) then
    let required := deletion_final_stage (op_kind o) in
    ensure (bool_decide (dc_stage next = required) && bool_decide (dc_stage previous = required))
      (InvalidOperation "Deletion cannot succeed before its final confirmed stage")
  else
    ensure (bool_decide (pr_state p = Running)
            && deletion_step_ok (dc_stage previous) (dc_stage next))
      (InvalidOperation "Deletion stages must advance in order").

Definition validate_deletion_progress (o : UserAppOperationRecord) (p : UserAppOperationProgress)
    : result unit UserAppStoreError :=
  if negb (is_deletion_kind (op_kind o)) then Ok tt else
  if is_failure (pr_state p) then
    ensure (failure_checkpoint_preserved (op_checkpoint o) (pr_checkpoint p))
      (InvalidOperation "Deletion failure must preserve its last recorded evidence")
  else if unrecorded_running o p then Ok tt else
  let? next := ok_or (decode_deletion (pr_checkpoint p))
                 (InvalidOperation "Deletion progress requires a complete typed checkpoint") in
  let? _ := checked (deletion_validate_operation next o) in
  if json_is_null (op_checkpoint o) then
    ensure (bool_decide (pr_state p = Running) && bool_decide (dc_stage next = Captured))
      (InvalidOperation "Deletion must first record its captured resources")
  else
    let? previous := ok_or (decode_deletion (op_checkpoint o))
                       (InvalidOperation "Stored deletion evidence requires explicit reconciliation") in
    deletion_advances o p previous next.

Definition destruction_production (k : UserAppOperationKind) : option bool :=
  match k with DestroyProdStorage => Some true | DestroyDevStorage => Some false | _ => None end.

Definition destruction_step_ok (production : bool) (previous next : string) : bool :=
  if bool_decide (previous = "storage_captured") then
    if bool_decide (next = "production_storage_removed") then production
    else if bool_decide (next = SD_COMPLETE_STEP) then negb production
    else false
  else if bool_decide (previous = "production_storage_removed")
       then bool_decide (next = SD_COMPLETE_STEP) && production
  else false.

Definition validate_storage_destruction_progress (o : UserAppOperationRecord)
    (p : UserAppOperationProgress) : result unit UserAppStoreError :=
  match destruction_production (op_kind o) with
  | None => Ok tt
  | Some production =>
      if is_failure (pr_state p) then
        ensure (failure_checkpoint_preserved (op_checkpoint o) (pr_checkpoint p))
          (InvalidOperation "Storage failure must preserve captured identities")
      else if unrecorded_running o p then Ok tt else
      let? evidence := ok_or (decode_destruction (pr_checkpoint p))
                         (InvalidOperation "Storage destruction requires typed resource evidence") in
      let? _ := checked (destruction_validate evidence) in
      let context := sd_context evidence in
      let? _ := ensure (bool_decide (ctx_app_id context = op_app_id o) && context_owns context o
                        && Bool.eqb (is_some (sd_production evidence)) production)
                  (InvalidOperation "Storage evidence does not match operation identity or scope") in
      if json_is_null (op_checkpoint o) then
        ensure (bool_decide (pr_state p = Running) && bool_decide (pr_step p = "storage_captured"))
          (InvalidOperation "Storage destruction must capture resources before execution")
      else
        let? _ := ensure (bool_decide (pr_checkpoint p = op_checkpoint o))
                    (InvalidOperation "Storage destruction cannot replace captured resources") in
        ensure ((bool_decide (pr_state p = Running)
                 && destruction_step_ok production (op_step o) (pr_step p))
                || (bool_decide (pr_state p = Succeeded)
                    && bool_decide (op_step o = SD_COMPLETE_STEP)))
          (InvalidOperation "Storage destruction must confirm each stage before success")
  end.

Definition clear_production (k : UserAppOperationKind) : option bool :=
  match k with ClearProdStorage => Some true | ClearDevStorage => Some false | _ => None end.

Definition clear_scope_matches (a : UserAppLifecycleRecord) (production : bool)
    (target : UserAppStorageClearTarget) : bool :=
  match target with
  | ClearProduction snapshot directories =>
      production && bool_decide (snap_app_id snapshot = app_id a)
      && forallb (λ d, path_is_absolute (dir_path d)) directories
  | ClearDevelopment base_url _ _ receipt =>
      negb production && bool_decide (bds_app_id (dev_runtime receipt) = app_id a)
      && negb (str_is_empty base_url)
  end.

Definition validate_storage_clear_progress (a : UserAppLifecycleRecord)
    (o : UserAppOperationRecord) (p : UserAppOperationProgress) : result unit UserAppStoreError :=
  match clear_production (op_kind o) with
  | None => Ok tt
  | Some production =>
      if is_failure (pr_state p) then
        ensure (failure_checkpoint_preserved (op_checkpoint o) (pr_checkpoint p))
          (InvalidOperation "Storage clear failure must preserve its target evidence")
      else if unrecorded_running o p then Ok tt else
      let? evidence := ok_or (decode_clear (pr_checkpoint p))
                         (InvalidOperation "Storage clear requires typed target evidence") in
      let? _ := checked (clear_validate evidence) in
      let context := sc_context evidence in
      let? _ := checked (validate_identity context (op_app_id o)) in
      let? _ := ensure (context_owns context o)
                  (InvalidOperation "Storage clear evidence does not belong to the operation") in
      let? _ := ensure (clear_scope_matches a production (sc_target evidence))
                  (InvalidOperation "Storage clear target scope mismatch") in
      if json_is_null (op_checkpoint o) then
        ensure (bool_decide (pr_state p = Running) && bool_decide (pr_step p = "clear_target_captured"))
          (InvalidOperation "Storage clear must capture targets before execution")
      else
        let? _ := ensure (bool_decide (op_checkpoint o = pr_checkpoint p))
                    (InvalidOperation "Storage clear cannot change captured targets") in
        ensure ((bool_decide (pr_state p = Running)
                 && bool_decide (op_step o = "clear_target_captured")
                 && bool_decide (pr_step p = SC_COMPLETE_STEP))
                || (bool_decide (pr_state p = Succeeded)
                    && bool_decide (op_step o = SC_COMPLETE_STEP)))
          (InvalidOperation "Storage clear cannot succeed before confirmed completion")
  end.

Definition password_invalid : UserAppStoreError :=
  InvalidOperation "Database password writes require ordered physical evidence; uncertain writes remain protected".

(** Before any evidence is recorded. *)
Definition password_first (o : UserAppOperationRecord) (p : UserAppOperationProgress)
    : result unit UserAppStoreError :=
  if failure_checkpoint_preserved (op_checkpoint o) (pr_checkpoint p) then
    ensure (is_failure (pr_state p)
            || (bool_decide (pr_state p = Running) && bool_decide (pr_step p = "claimed")))
      password_invalid
  else
    let? evidence := ok_or (decode_password (pr_checkpoint p)) password_invalid in
    let? _ := checked (password_validate_operation evidence o) in
    ensure (bool_decide (pr_state p = Running) && bool_decide (pw_stage evidence = PwCaptured))
      password_invalid.

Definition password_step_ok (before after : DatabasePasswordStage) : bool :=
  match before, after with
  | PwCaptured, PwWriteSubmitted => true
  | PwWriteSubmitted, (PwVerified | PwCancelled) => true
  | _, _ => false
  end.

Definition password_transition_ok (s : UserAppOperationState)
    (before after : DatabasePasswordEvidence) : bool :=
  let same := bool_decide (before = after) in
  (bool_decide (s = RecoveryRequired) && same)
  || (bool_decide (s = Failed) && same
      && match pw_stage before with PwCaptured | PwCancelled => true | _ => false end)
  || (bool_decide (s = Succeeded) && same && bool_decide (pw_stage before = PwVerified))
  || (bool_decide (s = Running) && (same || password_step_ok (pw_stage before) (pw_stage after))).

Definition is_password_kind (k : UserAppOperationKind) : bool :=
  match k with ResetDevDatabasePassword | ResetProdDatabasePassword => true | _ => false end.

Definition validate_database_password_progress (o : UserAppOperationRecord)
    (p : UserAppOperationProgress) : result unit UserAppStoreError :=
  if negb (is_password_kind (op_kind o)) then Ok tt else
  if json_is_null (op_checkpoint o) then password_first o p else
  let? before := ok_or (decode_password (op_checkpoint o)) password_invalid in
  let? after := ok_or (decode_password (pr_checkpoint p)) password_invalid in
  let? _ := checked (password_validate_operation before o) in
  let? _ := checked (password_validate_operation after o) in
  let? _ := ensure (bool_decide (pw_receipt_protocol before = pw_receipt_protocol after)
                    && bool_decide (pw_context before = pw_context after)
                    && bool_decide (pw_username before = pw_username after)
                    && bool_decide (pw_target before = pw_target after))
              password_invalid in
  ensure (password_transition_ok (pr_state p) before after) password_invalid.

Definition preparation_invalid : UserAppStoreError :=
  InvalidOperation "Database management preparation requires ordered identity-bound evidence".

Definition preparation_step_ok (before after : DatabasePreparationStage) : bool :=
  match before, after with
  | PrepCaptured, PrepStartSubmitted | PrepStartSubmitted, PrepManagementReady => true
  | _, _ => false
  end.

Definition preparation_transition_ok (s : UserAppOperationState)
    (before after : DatabasePreparationEvidence) : bool :=
  let same := bool_decide (before = after) in
  (same && (bool_decide (s = RecoveryRequired)
            || (bool_decide (s = Failed) && bool_decide (prep_stage before = PrepCaptured))
            || (bool_decide (s = Succeeded) && bool_decide (prep_stage before = PrepManagementReady))))
  || (bool_decide (s = Running)
      && (same || preparation_step_ok (prep_stage before) (prep_stage after))).

Definition validate_database_preparation_progress (o : UserAppOperationRecord)
    (p : UserAppOperationProgress) : result unit UserAppStoreError :=
  if negb (bool_decide (op_kind o = PrepareProdDatabase)) then Ok tt else
  if json_is_null (op_checkpoint o)
     && failure_checkpoint_preserved (op_checkpoint o) (pr_checkpoint p)
  then
    ensure (is_failure (pr_state p)
            || (bool_decide (pr_state p = Running) && bool_decide (pr_step p = "claimed")))
      preparation_invalid
  else
    let? after := ok_or (decode_preparation (pr_checkpoint p)) preparation_invalid in
    let? _ := checked (preparation_validate_operation after o) in
    if json_is_null (op_checkpoint o) then
      ensure (bool_decide (pr_state p = Running) && bool_decide (prep_stage after = PrepCaptured))
        preparation_invalid
    else
      let? before := ok_or (decode_preparation (op_checkpoint o)) preparation_invalid in
      let? _ := checked (preparation_validate_operation before o) in
      let? _ := ensure (bool_decide (prep_target before = prep_target after)
                        && bool_decide (prep_deployment_generation before
                                        = prep_deployment_generation after))
                  preparation_invalid in
      ensure (preparation_transition_ok (pr_state p) before after) preparation_invalid.

(** ** Progress *)

(** The application and the operation, both held by [&mut]. *)
Definition Pair : Type := UserAppLifecycleRecord * UserAppOperationRecord.

(** The policy a successful operation publishes. *)
Definition applied_policy (o : UserAppOperationRecord) : option UserAppRuntimePolicy :=
  match op_command o with
  | Some (CmdSetRecyclePolicy policy) => Some policy
  | Some (CmdStart _ | CmdRestart) =>
      Some {| recycle_enabled := None; idle_timeout_seconds := None; wake_on_traffic := Some true |}
  | Some (CmdStop _) => None
  | Some (CmdDeleteResources _ _ | CmdDeleteApplication | CmdDestroyStorage _ | CmdClearStorage _
         | CmdResetDatabasePassword _ _ | CmdPrepareProdDatabase | CmdStopBuilder
         | CmdRestartBuilder) => None
  | None | Some (CmdCreate _ | CmdUpdate _ | CmdDeploy _ _ _) => op_runtime_policy_on_success o
  end.

Definition apply_policy (s : UserAppOperationState) : StoreM Pair unit :=
  let! (a, o) := mget in
  match applied_policy o with
  | Some policy =>
      if negb (bool_decide (s = Succeeded)) then mret' tt else
      let applied := merge (app_runtime_policy a) policy in
      if bool_decide (applied = app_runtime_policy a) then mret' tt else
      let! revision := mlift (ok_or (i64_checked_succ (metadata_revision a))
                                (InvalidOperation "metadata revision exhausted")) in
      mmodify (λ '(a, o), (with_policy applied revision a, o))
  | None => mret' tt
  end.

(** A terminal commit publishes the policy, clears the operation's own slot
    and moves the lifecycle of a deletion. *)
Definition commit_terminal (s : UserAppOperationState) : StoreM Pair unit :=
  apply_policy s ;;;
  let! (_, o) := mget in
  mmodify (λ '(a, o), (with_slots (slot_set (op_scope o) None (active_operations a)) a, o)) ;;;
  mwhen (ends_lifecycle (op_kind o))
    (mmodify (λ '(a, o), (with_app_state (if bool_decide (s = Succeeded) then Deleted else Active) a, o))).

Definition validate_progress (a : UserAppLifecycleRecord) (o : UserAppOperationRecord)
    (p : UserAppOperationProgress) : result unit UserAppStoreError :=
  let? _ := validate_deletion_progress o p in
  let? _ := validate_storage_destruction_progress o p in
  let? _ := validate_storage_clear_progress a o p in
  let? _ := validate_database_password_progress o p in
  validate_database_preparation_progress o p.

Definition advance (p : UserAppOperationProgress) : StoreM Pair unit :=
  let! (a, o) := mget in
  let! _ := mlift (ensure (bool_decide (app_lifecycle_id a = pr_lifecycle_id p)
                           && bool_decide (op_lifecycle_id o = pr_lifecycle_id p))
                     LifecycleConflict) in
  let! _ := mlift (ensure (slot_matches_operation a o
                           && (op_revision o =? pr_expected_revision p)%Z)
                     VersionConflict) in
  let! _ := mlift (map_err (λ _, InvalidOperation "invalid executor identity")
                     (validate_identifier (pr_executor_id p) "executor_id")) in
  let! claim := mlift (ok_or (authorize_userapp_progress_claim (op_state o) (pr_state p)
                                (opt_is (op_executor_id o) (pr_executor_id p)))
                         (InvalidOperation "operation requires an exclusive execution claim")) in
  mwhen (bool_decide (claim = AcquireExecutor))
    (mmodify (λ '(a, o), (a, with_executor (Some (pr_executor_id p)) o))) ;;;
  let! (a, o) := mget in
  let! _ := mlift (ensure (negb (op_is_terminal (op_state o)
                                 || bool_decide (pr_state p = Pending)
                                 || str_is_empty (pr_step p)))
                     (InvalidOperation "invalid operation state transition")) in
  let! _ := mlift (ensure (negb (bool_decide (pr_state p = Failed) && ends_lifecycle (op_kind o)
                                 && (negb (bool_decide (op_step o = "claimed"))
                                     || negb (json_is_null (op_checkpoint o)))))
                     (InvalidOperation "incomplete deletion requires recovery, not terminal failure")) in
  let! _ := mlift (validate_progress a o p) in
  mwhen (op_is_terminal (pr_state p)) (commit_terminal (pr_state p)) ;;;
  let! (_, o) := mget in
  let! revision := mlift (ok_or (i64_checked_succ (op_revision o))
                            (InvalidOperation "operation revision exhausted")) in
  mmodify (λ '(a, o), (a, progressed revision p o)).
End progress.

(** ** Reading the slots' records ([common/repo.rs], [active]) *)

Abbreviation OperationTable := (gmap string UserAppOperationRecord).

(** [repo::operation]: a row of another application does not count. *)
Definition find_operation (ops : OperationTable) (app id : string) : option UserAppOperationRecord :=
  match ops !! id with
  | Some o => if bool_decide (op_app_id o = app) then Some o else None
  | None => None
  end.

Definition load_slot (ops : OperationTable) (a : UserAppLifecycleRecord)
    (s : UserAppOperationScope) : result (option UserAppOperationRecord) UserAppStoreError :=
  match slot (active_operations a) s with
  | None => Ok None
  | Some id =>
      let? o := ok_or (find_operation ops (app_id a) id)
                  (InvalidOperation "Active operation record is missing") in
      let? _ := ensure (bool_decide (op_lifecycle_id o = app_lifecycle_id a)
                        && bool_decide (op_scope o = s)
                        && negb (op_is_terminal (op_state o)))
                  (InvalidOperation "Active operation identity/scope/state is inconsistent") in
      Ok (Some o)
  end.

Definition active (ops : OperationTable) (a : UserAppLifecycleRecord)
    : result UserAppActiveOperationRecords UserAppStoreError :=
  let? dev := load_slot ops a Dev in
  let? prod := load_slot ops a Prod in
  let? application := load_slot ops a Application in
  Ok {| rec_dev := dev; rec_prod := prod; rec_application := application |}.
