(* ===== verification/LifecycleStore.v ===== *)
(** * One application in the store
    ([rcoder-storage/src/userapp_lifecycle/common/ops/application.rs],
    [ops/operation.rs], [ops/mod.rs], [repo.rs])

    An application row, its operation table and its request table, and the
    transactions that admit, advance and patch, in the order the database
    serialises them: every writer claims the application row before it reads.
    A transaction that fails is rolled back.

    Two guards read tables that belong to the compute and configuration
    components: [compute::guard_admission] and [compute::check_business_authority]
    (is a priority stop or restart draining this scope?) and
    [configuration::validate_terminal] (is a credential write unresolved?).
    They only read and can only refuse; their verdict is an input, [outside],
    of each transaction, so that a theorem about every sequence of
    transactions covers every behaviour of theirs.  The guards are
    defined in [ComputeStore.v] and [RuntimeConfiguration.v], and the runs of
    [ComputeSpec.v] and [RuntimeConfiguration.v] put them in place. *)
From S2P Require Import Prelude Validation Lifecycle Evidence LifecycleDomain.
Import Text Identifier.
Local Open Scope rust_scope.

(** A row of the request table of this application. *)
Record RequestRow := {
  row_target_kind : string;
  row_operation_id : option string;
  row_lifecycle_id : option string;
  row_previous_lifecycle_id : option string;
  row_new_lifecycle_id : option string;
}.
Abbreviation RequestTable := (gmap string RequestRow).

Record AppStore := mkAppStore {
  st_app : UserAppLifecycleRecord;
  st_ops : OperationTable;
  st_requests : RequestTable;
}.

(** The operation a stored request id leads to. *)
Definition request_operation (ops : OperationTable) (app : string) (row : RequestRow)
    : result (option UserAppOperationRecord) UserAppStoreError :=
  if bool_decide (row_target_kind row = "recreate") then Ok None else
  let? _ := ensure (bool_decide (row_target_kind row = "control"))
              (InvalidOperation "Invalid request mapping") in
  let? id := ok_or (row_operation_id row) (InvalidOperation "Control request has no operation") in
  let? o := ok_or (find_operation ops app id) (InvalidOperation "Request operation is missing") in
  let? _ := ensure (bool_decide (row_lifecycle_id row = Some (op_lifecycle_id o))) LifecycleConflict in
  Ok (Some o).

(** Private execution input; only its digest is looked at. *)
Definition takes_digest (c : UserAppControlCommand) : option string :=
  match c with
  | CmdCreate d | CmdUpdate d | CmdDeploy _ d _ => Some d
  | _ => None
  end.

Definition validate_input (kind : UserAppOperationKind) (fingerprint : string)
    (command : option UserAppControlCommand) (input_digest : option string)
    : result unit UserAppStoreError :=
  let mismatch := InvalidOperation "Private execution input does not match command digest" in
  match command, input_digest with
  | None, Some d =>
      if (bool_decide (kind = AdoptBuilder) || bool_decide (kind = EnsureBuilder))
         && bool_decide (fingerprint = d)
      then Ok tt
      else if bool_decide (kind = AdoptBuilder)
      then Err (InvalidOperation "Adoption requires its original input digest")
      else if bool_decide (kind = EnsureBuilder)
      then Err (InvalidOperation "Builder creation requires its original input digest")
      else Err mismatch
  | None, None =>
      if bool_decide (kind = AdoptBuilder)
      then Err (InvalidOperation "Adoption requires its original input digest")
      else Ok tt
  | Some c, Some d =>
      if opt_is (takes_digest c) d then Ok tt else Err mismatch
  | Some c, None => if is_some (takes_digest c) then Err mismatch else Ok tt
  end.

Definition guard_database_admin (o : UserAppOperationRecord) : result unit UserAppStoreError :=
  match op_kind o with
  | ResetDevDatabasePassword | ResetProdDatabasePassword =>
      match op_command o with
      | Some (CmdResetDatabasePassword _ username) =>
          map_err InvalidOperation (Pg.validate_pg_identifier username)
      | _ => Err (InvalidOperation "Database administration requires an explicit target account")
      end
  | _ => Ok tt
  end.

(** The duplicate of a request: by operation id, else by request id. *)
Definition find_duplicate (st : AppStore) (request : UserAppAdmission)
    : result (option UserAppOperationRecord * option RequestRow) UserAppStoreError :=
  let by_id := find_operation (st_ops st) (app_id (st_app st)) (adm_operation_id request) in
  let mapping := match adm_request_id request with
                 | Some id => st_requests st !! id
                 | None => None
                 end in
  let? by_request :=
    match mapping with
    | Some row =>
        if bool_decide (row_target_kind row = "recreate")
        then Err (InvalidOperation "request identity was already used for lifecycle recreation")
        else request_operation (st_ops st) (app_id (st_app st)) row
    | None => Ok None
    end in
  let? _ := ensure (match by_id, by_request with
                    | Some a, Some b => bool_decide (op_operation_id a = op_operation_id b)
                    | _, _ => true
                    end)
              (InvalidOperation "request and operation identities refer to different operations") in
  Ok (opt_or by_id by_request, mapping).

(** The request row, checked if it was there and inserted if it was not. *)
Definition record_request (request : UserAppAdmission) (mapping : option RequestRow)
    (o : UserAppOperationRecord) (rows : RequestTable) : result RequestTable UserAppStoreError :=
  match adm_request_id request with
  | None => Ok rows
  | Some id =>
      match mapping with
      | Some row =>
          let? _ := ensure (opt_is (row_operation_id row) (op_operation_id o)) VersionConflict in Ok rows
      | None =>
          Ok (<[id := {| row_target_kind := "control"; row_operation_id := Some (op_operation_id o);
                         row_lifecycle_id := Some (op_lifecycle_id o);
                         row_previous_lifecycle_id := None; row_new_lifecycle_id := None |}]> rows)
      end
  end.

(** Inserting an accepted operation: the guards, then the primary key. *)
Definition insert_accepted (outside : option UserAppStoreError) (o : UserAppOperationRecord)
    (ops : OperationTable) : result OperationTable UserAppStoreError :=
  let? _ := match outside with Some e => Err e | None => Ok tt end in
  let? _ := guard_database_admin o in
  let? _ := ensure (is_none (ops !! op_operation_id o)) (StorageFailure "duplicate operation id") in
  Ok (<[op_operation_id o := o]> ops).

(** The whole admission transaction, for a request without inline
    credentials. *)
Definition admit_tx (request : UserAppAdmission) (input_digest : option string)
    (outside : option UserAppStoreError) (now : Z) (st : AppStore)
    : result (UserAppAdmissionOutcome * AppStore) UserAppStoreError :=
  let? _ := validate_input (adm_kind request) (adm_request_fingerprint request)
              (adm_command request) input_digest in
  let? (duplicate, mapping) := find_duplicate st request in
  let? records := active (st_ops st) (st_app st) in
  let '(outcome, a') := admission request duplicate records now (st_app st) in
  let? outcome := outcome in
  match outcome with
  | AdmAccepted o =>
      let? ops := insert_accepted outside o (st_ops st) in
      let? rows := record_request request mapping o (st_requests st) in
      Ok (outcome, mkAppStore a' ops rows)
  | AdmExisting o =>
      let? rows := record_request request mapping o (st_requests st) in
      Ok (outcome, mkAppStore (st_app st) (st_ops st) rows)
  end.

(** Whether a report needs the authority a draining executor has lost. *)
Definition needs_authority (p : UserAppOperationProgress) (o : UserAppOperationRecord) : bool :=
  match pr_state p, op_state o with
  | (Succeeded | WaitingRetry), _ => true
  | Running, (Pending | WaitingRetry) => true
  | _, _ => false
  end.

Section transactions.
Context `{CheckpointCodec}.

(** [outside] is the verdict of the authority check, [uncertain] that of the
    configuration receipt. *)
Definition advance_tx (p : UserAppOperationProgress) (outside uncertain : option UserAppStoreError)
    (st : AppStore) : result (UserAppOperationRecord * AppStore) UserAppStoreError :=
  let? o := ok_or (find_operation (st_ops st) (app_id (st_app st)) (pr_operation_id p)) NotFound in
  let? _ := match outside with
            | Some e => if needs_authority p o then Err e else Ok tt
            | None => Ok tt
            end in
  let '(r, (a', o')) := advance p (st_app st, o) in
  let? _ := r in
  let? _ := match uncertain with
            | Some e => if op_is_terminal (pr_state p) then Err e else Ok tt
            | None => Ok tt
            end in
  Ok (o', mkAppStore a' (<[pr_operation_id p := o']> (st_ops st)) (st_requests st)).

Definition patch_tx (patch : UserAppMetadataPatch) (st : AppStore)
    : result (UserAppLifecycleRecord * AppStore) UserAppStoreError :=
  let '(r, a') := patch_metadata patch (st_app st) in
  let? _ := r in
  Ok (a', mkAppStore a' (st_ops st) (st_requests st)).

(** ** Sequences of transactions *)

(** The calls on one application within one life of it.  Its recreation after a
    deletion ([recreate] of [ComputeAdmission.v]) starts another life, and
    the recovery of operations is added in [LifecycleRecovery.v]; histories with
    both are those of [ROp]. *)
Inductive LOp :=
  | LAdmit (request : UserAppAdmission) (input_digest : option string)
      (outside : option UserAppStoreError) (now : Z)
  | LAdvance (p : UserAppOperationProgress) (outside uncertain : option UserAppStoreError)
  | LPatch (patch : UserAppMetadataPatch).

(** A failed transaction is rolled back. *)
Definition committed {A} (r : result (A * AppStore) UserAppStoreError) (st : AppStore) : AppStore :=
  match r with Ok (_, st') => st' | Err _ => st end.

Definition lstep (op : LOp) (st : AppStore) : AppStore :=
  match op with
  | LAdmit request input outside now => committed (admit_tx request input outside now st) st
  | LAdvance p outside uncertain => committed (advance_tx p outside uncertain st) st
  | LPatch patch => committed (patch_tx patch st) st
  end.

Definition lrun (ops : list LOp) (st : AppStore) : AppStore := foldl (λ st op, lstep op st) st ops.

(** The store of a new application. *)
Definition new_store (a : UserAppLifecycleRecord) : AppStore := mkAppStore a ∅ ∅.
End transactions.
