(* ===== verification/LifecycleSafety.v ===== *)
(** * Operations of one application never conflict

    The invariant of the store: live operations own their scope's slot, slots
    point to live operations, and occupied slots do not block each other.  Every
    transaction keeps it. *)
From S2P Require Import Prelude Validation Lifecycle Evidence LifecycleDomain LifecycleStore.
Import Text Identifier.
Local Open Scope rust_scope.

(** ** The invariant *)

Definition live (o : UserAppOperationRecord) : Prop := op_is_terminal (op_state o) = false.

Record store_ok (st : AppStore) : Prop := {
  ok_key : ∀ id o, st_ops st !! id = Some o →
    op_operation_id o = id ∧ op_scope o = kind_scope (op_kind o)
    ∧ op_app_id o = app_id (st_app st) ∧ op_lifecycle_id o = app_lifecycle_id (st_app st);
  ok_owner : ∀ id o, st_ops st !! id = Some o → live o →
    slot (active_operations (st_app st)) (op_scope o) = Some id;
  ok_slot : ∀ s id, slot (active_operations (st_app st)) s = Some id →
    ∃ o, st_ops st !! id = Some o ∧ live o ∧ op_scope o = s;
  ok_exclusive : ∀ s s', is_Some (slot (active_operations (st_app st)) s) →
    is_Some (slot (active_operations (st_app st)) s') → s ≠ s' →
    userapp_scope_blocks_request s s' = false;
  ok_active : app_state (st_app st) ≠ Active →
    (∀ s, s ≠ Application → slot (active_operations (st_app st)) s = None);
  ok_deleted : app_state (st_app st) = Deleted →
    ∀ s, slot (active_operations (st_app st)) s = None;
}.

Lemma slot_set_eq s v a : slot (slot_set s v a) s = v.
Proof. by destruct s. Qed.
Lemma slot_set_ne s s' v a : s ≠ s' → slot (slot_set s v a) s' = slot a s'.
Proof. by destruct s, s'. Qed.

(** No blocker in the records means no blocker in the slots. *)
Lemma find_blocker_none scope records s :
  find_blocker scope records scope_order = None →
  userapp_scope_blocks_request scope s = true → rec_slot records s = None.
Proof.
  unfold scope_order. simpl. intros Hf Hb.
  destruct scope, s; simpl in *; repeat case_match; simplify_eq; done.
Qed.

Lemma load_slot_none ops a s : load_slot ops a s = Ok None → slot (active_operations a) s = None.
Proof.
  unfold load_slot, result_bind, ok_or, ensure. repeat case_match; intros; by simplify_eq.
Qed.

Lemma active_slot ops a records s :
  active ops a = Ok records → load_slot ops a s = Ok (rec_slot records s).
Proof.
  unfold active, result_bind. intros Ha. repeat case_match; simplify_eq. by destruct s.
Qed.

Lemma unblocked_slots scope ops a records s :
  active ops a = Ok records → find_blocker scope records scope_order = None →
  userapp_scope_blocks_request scope s = true → slot (active_operations a) s = None.
Proof.
  intros Ha Hf Hb. apply (load_slot_none ops). rewrite (active_slot _ _ _ s Ha).
  by rewrite (find_blocker_none _ _ _ Hf Hb).
Qed.

(** ** Admission *)

(** Patching changes names and the metadata revision only. *)
Definition same_frame (a a' : UserAppLifecycleRecord) : Prop :=
  app_id a' = app_id a ∧ app_lifecycle_id a' = app_lifecycle_id a ∧ app_state a' = app_state a
  ∧ active_operations a' = active_operations a ∧ lifecycle_epoch a' = lifecycle_epoch a.

Lemma patch_metadata_frame patch a :
  wp (patch_metadata patch) a (λ _ a', same_frame a a' ∧ app_state a = Active) (λ _ a', a' = a).
Proof.
  unfold patch_metadata. apply wp_bind, wp_get, wp_bind, wp_lift.
  unfold validate_active, ensure. case_bool_decide; [|done].
  apply wp_bind, wp_ensure. case_match; [|done]. apply wp_bind, wp_ensure. case_match; [|done].
  case_match; [by apply wp_ret|]. apply wp_bind, wp_ok_or. by case_match.
Qed.

(** What acceptance does, and when it is allowed. *)
Record accepted_from (request : UserAppAdmission) (records : UserAppActiveOperationRecords)
    (a : UserAppLifecycleRecord) (o : UserAppOperationRecord) (a' : UserAppLifecycleRecord) : Prop := {
  af_active : app_state a = Active;
  af_free : find_blocker (kind_scope (adm_kind request)) records scope_order = None;
  af_id : op_operation_id o = adm_operation_id request;
  af_kind : op_kind o = adm_kind request;
  af_scope : op_scope o = kind_scope (adm_kind request);
  af_state : op_state o = Pending;
  af_revision : op_revision o = 1%Z;
  af_executor : op_executor_id o = None;
  af_app : op_app_id o = app_id a;
  af_lifecycle : op_lifecycle_id o = app_lifecycle_id a;
  af_checkpoint : op_checkpoint o = JNull;
  af_frame : app_id a' = app_id a ∧ app_lifecycle_id a' = app_lifecycle_id a
             ∧ lifecycle_epoch a' = lifecycle_epoch a;
  af_request : same_request o request = true;
  af_slots : active_operations a'
             = slot_set (kind_scope (adm_kind request)) (Some (adm_operation_id request)) (active_operations a);
  af_app_state : app_state a' = if ends_lifecycle (adm_kind request) then Deleting else Active;
}.

Lemma admission_accept_spec request records now a :
  app_state a = Active →
  find_blocker (kind_scope (adm_kind request)) records scope_order = None →
  wp (admission_accept request now) a
    (λ out a', match out with AdmAccepted o => accepted_from request records a o a' | AdmExisting _ => False end)
    (λ _ _, True).
Proof.
  intros Hact Hfree. unfold admission_accept.
  apply wp_bind. eapply (wp_mono _ _ (λ _ a', same_frame a a') _ (λ _ _, True)); [| |done].
  { case_match; [|by apply wp_ret]. eapply wp_mono; [apply patch_metadata_frame| |done].
    by intros ?? [? _]. }
  intros _ a1 (Hid & Hl & Hs & Hslots & Hep). apply wp_bind, wp_get, wp_bind, wp_modify, wp_bind. simpl.
  destruct (ends_lifecycle (adm_kind request)) eqn:He; [apply wp_modify|]; apply wp_ret;
    (split; simpl; try done; [|by rewrite Hslots|rewrite ?He; congruence]);
    unfold same_request; simpl; by rewrite !bool_decide_eq_true_2.
Qed.

Lemma admission_spec request duplicate records now a :
  wp (admission request duplicate records now) a
    (λ out a', match out with AdmAccepted o => accepted_from request records a o a' | AdmExisting _ => a' = a end)
    (λ _ _, True).
Proof.
  unfold admission. apply wp_bind, wp_lift. case_match; [|done].
  apply wp_bind, wp_get, wp_bind, wp_ensure. case_match; [|done].
  destruct duplicate as [d|].
  { apply wp_bind, wp_ensure. case_match; [|done]. apply wp_bind, wp_ensure. case_match; [|done].
    by apply wp_ret. }
  apply wp_bind, wp_lift. unfold validate_active, ensure. case_bool_decide; [|done].
  assert (find_blocker (kind_scope (adm_kind request)) records scope_order = None →
    wp (admission_accept request now) a
      (λ out a', match out with AdmAccepted o => accepted_from request records a o a' | AdmExisting _ => a' = a end)
      (λ _ _, True)) as Hacc.
  { intros Hf. eapply wp_mono; [by apply (admission_accept_spec request records)| |done]. by intros []. }
  destruct (if bool_decide _ then _ else _) as [joined|].
  - destruct (joinable a request joined); [by apply wp_ret|].
    destruct (find_blocker _ _ _) as [[]|]; [done|auto].
  - destruct (find_blocker _ _ _) as [[]|]; [done|auto].
Qed.

(** ** Progress *)

Section advance.
Context `{CheckpointCodec}.

Record advanced_from (p : UserAppOperationProgress) (a : UserAppLifecycleRecord)
    (o : UserAppOperationRecord) (a' : UserAppLifecycleRecord) (o' : UserAppOperationRecord) : Prop := {
  adv_slot : slot (active_operations a) (op_scope o) = Some (op_operation_id o);
  adv_lifecycle : op_lifecycle_id o = pr_lifecycle_id p ∧ app_lifecycle_id a = pr_lifecycle_id p;
  adv_expected : op_revision o = pr_expected_revision p;
  adv_live : op_is_terminal (op_state o) = false;
  adv_claim : authorize_userapp_progress_claim (op_state o) (pr_state p)
                (opt_is (op_executor_id o) (pr_executor_id p)) ≠ None;
  adv_evidence : validate_progress a (with_executor (Some (pr_executor_id p)) o) p = Ok tt;
  adv_record : o' = progressed (op_revision o + 1) p (with_executor (Some (pr_executor_id p)) o);
  adv_not_early : pr_state p = Failed → ends_lifecycle (op_kind o) = true →
                  op_step o = "claimed" ∧ op_checkpoint o = JNull;
  adv_ids : app_id a' = app_id a ∧ app_lifecycle_id a' = app_lifecycle_id a
            ∧ lifecycle_epoch a' = lifecycle_epoch a;
  adv_slots : active_operations a'
              = if op_is_terminal (pr_state p) then slot_set (op_scope o) None (active_operations a)
                else active_operations a;
  adv_app_state : app_state a'
                  = if op_is_terminal (pr_state p) && ends_lifecycle (op_kind o)
                    then (if bool_decide (pr_state p = Succeeded) then Deleted else Active)
                    else app_state a;
}.

Lemma with_executor_same o : with_executor (op_executor_id o) o = o.
Proof using Type. by destruct o. Qed.

(** Publishing a policy touches the policy and the metadata revision. *)
Lemma apply_policy_frame s a o :
  wp (apply_policy s) (a, o) (λ _ s', ∃ a', s' = (a', o) ∧ same_frame a a') (λ _ _, True).
Proof using Type.
  assert (wp (E := UserAppStoreError) (mret' tt) (a, o) (λ _ s', ∃ a', s' = (a', o) ∧ same_frame a a') (λ _ _, True)) as Hret.
  { apply wp_ret. exists a. by split. }
  unfold apply_policy. apply wp_bind, wp_get. case_match; [|done]. case_match; [done|].
  case_match; [done|]. apply wp_bind, wp_ok_or. case_match; [|done]. apply wp_modify.
  eexists. by split.
Qed.

Lemma commit_terminal_spec s a o :
  wp (commit_terminal s) (a, o)
    (λ _ s', ∃ a', s' = (a', o) ∧ app_id a' = app_id a ∧ app_lifecycle_id a' = app_lifecycle_id a
       ∧ lifecycle_epoch a' = lifecycle_epoch a
       ∧ active_operations a' = slot_set (op_scope o) None (active_operations a)
       ∧ app_state a' = if ends_lifecycle (op_kind o)
                        then (if bool_decide (s = Succeeded) then Deleted else Active)
                        else app_state a)
    (λ _ _, True).
Proof using Type.
  unfold commit_terminal. apply wp_bind. eapply wp_mono; [apply apply_policy_frame| |done].
  intros _ s' (a1 & -> & Hid & Hl & Hs & Hslots & Hep).
  apply wp_bind, wp_get, wp_bind, wp_modify. unfold mwhen.
  destruct (ends_lifecycle (op_kind o)); [apply wp_modify|apply wp_ret]; eexists;
    (split; [done|]); simpl; by rewrite Hid, Hl, ?Hs, Hslots, Hep.
Qed.

(** The part of [advance] after the claim. *)
Lemma advance_rest_spec p a o :
  op_is_terminal (op_state o) = false →
  wp (let! _ := mlift (ensure (negb (op_is_terminal (op_state o)
                                 || bool_decide (pr_state p = Pending) || str_is_empty (pr_step p)))
                     (InvalidOperation "invalid operation state transition")) in
      let! _ := mlift (ensure (negb (bool_decide (pr_state p = Failed) && ends_lifecycle (op_kind o)
                                 && (negb (bool_decide (op_step o = "claimed"))
                                     || negb (json_is_null (op_checkpoint o)))))
                     (InvalidOperation "incomplete deletion requires recovery, not terminal failure")) in
      let! _ := mlift (validate_progress a o p) in
      mwhen (op_is_terminal (pr_state p)) (commit_terminal (pr_state p)) ;;;
      let! (_, o) := mget in
      let! revision := mlift (ok_or (i64_checked_succ (op_revision o))
                                (InvalidOperation "operation revision exhausted")) in
      mmodify (λ '(a, o), (a, progressed revision p o))) (a, o)
    (λ _ s', ∃ a' o', s' = (a', o')
       ∧ validate_progress a o p = Ok tt
       ∧ o' = progressed (op_revision o + 1) p o
       ∧ (pr_state p = Failed → ends_lifecycle (op_kind o) = true →
          op_step o = "claimed" ∧ op_checkpoint o = JNull)
       ∧ app_id a' = app_id a ∧ app_lifecycle_id a' = app_lifecycle_id a
       ∧ lifecycle_epoch a' = lifecycle_epoch a
       ∧ active_operations a' = (if op_is_terminal (pr_state p)
           then slot_set (op_scope o) None (active_operations a) else active_operations a)
       ∧ app_state a' = (if op_is_terminal (pr_state p) && ends_lifecycle (op_kind o)
                        then (if bool_decide (pr_state p = Succeeded) then Deleted else Active)
                        else app_state a))
    (λ _ _, True).
Proof using Type.
  intros Hlive. apply wp_bind, wp_ensure. case_match; [|done]. apply wp_bind, wp_ensure.
  destruct (negb (_ && _)) eqn:Hearly; [|done].
  apply wp_bind, wp_lift. destruct (validate_progress a o p) as [[]|] eqn:Hval; [|done].
  assert (pr_state p = Failed → ends_lifecycle (op_kind o) = true →
          op_step o = "claimed" ∧ op_checkpoint o = JNull) as Hne.
  { intros Hf He. rewrite Hf, He in Hearly. simpl in Hearly.
    apply negb_true_iff, orb_false_iff in Hearly as [H1 H2].
    apply negb_false_iff, bool_decide_eq_true in H1. apply negb_false_iff in H2.
    split; [done|]. by destruct (op_checkpoint o). }
  apply wp_bind. unfold mwhen. destruct (op_is_terminal (pr_state p)).
  - eapply wp_mono; [apply commit_terminal_spec| |done].
    intros _ s' (a1 & -> & Hid & Hl & Hep & Hslots & Hst). apply wp_bind, wp_get, wp_bind, wp_ok_or.
    destruct (i64_checked_succ _) eqn:Hr; [|done]. apply i64_checked_succ_Some in Hr as ->.
    apply wp_modify. exists a1, (progressed (op_revision o + 1) p o). by split_and!.
  - apply wp_ret, wp_bind, wp_get, wp_bind, wp_ok_or.
    destruct (i64_checked_succ _) eqn:Hr; [|done]. apply i64_checked_succ_Some in Hr as ->.
    apply wp_modify. exists a, (progressed (op_revision o + 1) p o). by split_and!.
Qed.

Lemma claim_live s s' b : authorize_userapp_progress_claim s s' b ≠ None → op_is_terminal s = false.
Proof using Type. by destruct s. Qed.

Lemma advance_spec p a o :
  wp (advance p) (a, o)
    (λ _ s', advanced_from p a o s'.1 s'.2) (λ _ _, True).
Proof using Type.
  unfold advance. apply wp_bind, wp_get, wp_bind, wp_ensure.
  destruct (_ && _) eqn:Hl; [|done]. apply andb_true_iff in Hl as [Hl1 Hl2].
  apply bool_decide_eq_true in Hl1, Hl2.
  apply wp_bind, wp_ensure. destruct (_ && _) eqn:Hs; [|done].
  apply andb_true_iff in Hs as [Hs Hr]. apply opt_is_true in Hs. apply Z.eqb_eq in Hr.
  apply wp_bind, wp_lift. case_match; [|done]. apply wp_bind, wp_ok_or.
  destruct (authorize_userapp_progress_claim _ _ _) as [claim|] eqn:Hclaim; [|done].
  pose proof (claim_live (op_state o) (pr_state p) (opt_is (op_executor_id o) (pr_executor_id p))) as Hlive.
  rewrite Hclaim in Hlive. specialize (Hlive ltac:(done)).
  set (o1 := with_executor (Some (pr_executor_id p)) o).
  apply wp_bind.
  eapply (wp_mono _ _ (λ _ s', s' = (a, o1)) _ (λ _ _, True)); [| |done].
  { destruct claim; simpl; [apply wp_modify; done|]. apply wp_ret.
    assert (op_executor_id o = Some (pr_executor_id p)) as He.
    { unfold authorize_userapp_progress_claim in Hclaim.
      apply opt_is_true. by repeat case_match; simplify_eq. }
    unfold o1. by rewrite <- He, with_executor_same. }
  intros _ s' ->. apply wp_bind, wp_get.
  eapply wp_mono; [apply advance_rest_spec; exact Hlive| |done].
  intros _ s'' (a' & o' & -> & Hval & -> & Hne & ? & ? & ? & ? & ?). simpl.
  split; try done. by rewrite Hclaim.
Qed.
End advance.

(** ** Every transition keeps the invariant *)

Lemma find_operation_some ops app id o :
  find_operation ops app id = Some o → ops !! id = Some o ∧ op_app_id o = app.
Proof. unfold find_operation. intros Hf. repeat case_match; simplify_eq. by rewrite bool_decide_eq_true in *. Qed.

Lemma blocks_self s : userapp_scope_blocks_request s s = true.
Proof. by destruct s. Qed.
Lemma blocks_sym s s' : userapp_scope_blocks_request s s' = userapp_scope_blocks_request s' s.
Proof. by destruct s, s'. Qed.

(** Taking a slot that nothing blocks. *)
Lemma exclusive_set sc v a :
  (∀ s s', is_Some (slot a s) → is_Some (slot a s') → s ≠ s' → userapp_scope_blocks_request s s' = false) →
  (∀ s, userapp_scope_blocks_request sc s = true → slot a s = None) →
  ∀ s s', is_Some (slot (slot_set sc v a) s) → is_Some (slot (slot_set sc v a) s') → s ≠ s' →
    userapp_scope_blocks_request s s' = false.
Proof.
  intros Hx Hfree s s' Hs Hs' Hne.
  destruct (decide (sc = s)) as [<-|H1]; [|destruct (decide (sc = s')) as [<-|H2]].
  - rewrite slot_set_ne in Hs' by done. destruct (userapp_scope_blocks_request sc s') eqn:Hb; [|done].
    rewrite (Hfree _ Hb) in Hs'. by destruct Hs'.
  - rewrite slot_set_ne in Hs by done. rewrite blocks_sym.
    destruct (userapp_scope_blocks_request sc s) eqn:Hb; [|done].
    rewrite (Hfree _ Hb) in Hs. by destruct Hs.
  - rewrite slot_set_ne in Hs, Hs' by done. by apply Hx.
Qed.

Lemma store_ok_patch st a' :
  store_ok st → same_frame (st_app st) a' → store_ok (mkAppStore a' (st_ops st) (st_requests st)).
Proof.
  intros [K O S X A D] (Hid & Hl & Hs & Hslots & _). split; simpl; rewrite ?Hid, ?Hl, ?Hslots, ?Hs; auto.
Qed.

Lemma store_ok_admit st request records o a' rows :
  store_ok st → active (st_ops st) (st_app st) = Ok records →
  accepted_from request records (st_app st) o a' →
  st_ops st !! op_operation_id o = None →
  store_ok (mkAppStore a' (<[op_operation_id o := o]> (st_ops st)) rows).
Proof.
  intros [K O S X A D] Hact Hacc Hnew.
  pose proof (λ s, unblocked_slots _ _ _ _ s Hact (af_free _ _ _ _ _ Hacc)) as Hfree.
  destruct Hacc as [Hst _ Hid Hkind Hscope Hpend _ _ Happ Hlif _ (Ha1 & Ha2 & _) _ Hslots Hstate].
  set (sc := kind_scope (adm_kind request)) in *. rewrite <- Hid in Hslots.
  split; simpl; rewrite ?Ha1, ?Ha2, ?Hslots.
  - intros id o'. destruct (decide (id = op_operation_id o)) as [->|Hne].
    + rewrite lookup_insert_eq. intros; simplify_eq. split_and!; congruence.
    + rewrite lookup_insert_ne by done. apply K.
  - intros id o'. destruct (decide (id = op_operation_id o)) as [->|Hne].
    + rewrite lookup_insert_eq. intros; simplify_eq. rewrite Hscope. apply slot_set_eq.
    + rewrite lookup_insert_ne by done. intros Ho' Hlive. pose proof (O _ _ Ho' Hlive) as Hs.
      rewrite slot_set_ne; [done|]. intros Heq. rewrite <- Heq, (Hfree sc) in Hs; [done|apply blocks_self].
  - intros s id. destruct (decide (sc = s)) as [<-|Hne].
    + rewrite slot_set_eq. intros; simplify_eq. exists o. rewrite lookup_insert_eq.
      split_and!; [done|unfold live; by rewrite Hpend|done].
    + rewrite slot_set_ne by done. intros Hs. destruct (S _ _ Hs) as (o' & Ho' & ? & ?).
      exists o'. rewrite lookup_insert_ne; [done|]. congruence.
  - by apply exclusive_set.
  - rewrite Hstate. destruct (ends_lifecycle (adm_kind request)) eqn:He; [|done].
    assert (sc = Application) as Hsc by (unfold sc; by destruct (adm_kind request)).
    intros _ s Hs. rewrite Hsc, slot_set_ne by done. apply Hfree. by rewrite Hsc.
  - rewrite Hstate. by destruct (ends_lifecycle (adm_kind request)).
Qed.

Lemma store_ok_advance `{CheckpointCodec} st id p o a' o' :
  store_ok st → st_ops st !! id = Some o →
  advanced_from p (st_app st) o a' o' →
  store_ok (mkAppStore a' (<[id := o']> (st_ops st)) (st_requests st)).
Proof.
  intros [K O S X A D] Ho [Hslot _ _ Hlive _ _ -> _ (Ha1 & Ha2 & _) Hslots Hstate].
  destruct (K _ _ Ho) as (Hid & Hsc & Happ & Hlif). rewrite Hid in Hslot.
  set (o' := progressed _ _ _) in *.
  assert (∀ s, s ≠ op_scope o → slot (active_operations a') s = slot (active_operations (st_app st)) s) as Hother.
  { intros s Hne. rewrite Hslots. destruct (op_is_terminal (pr_state p)); [by rewrite slot_set_ne|done]. }
  assert (slot (active_operations a') (op_scope o)
          = if op_is_terminal (pr_state p) then None else Some id) as Hown.
  { rewrite Hslots. destruct (op_is_terminal (pr_state p)); [by rewrite slot_set_eq|done]. }
  split; simpl; rewrite ?Ha1, ?Ha2.
  - intros id' o2. destruct (decide (id' = id)) as [->|Hne].
    + rewrite lookup_insert_eq. intros; by simplify_eq.
    + rewrite lookup_insert_ne by done. apply K.
  - intros id' o2. destruct (decide (id' = id)) as [->|Hne].
    + rewrite lookup_insert_eq. intros Heq Hl. simplify_eq. unfold live in Hl. simpl in Hl.
      simpl. by rewrite Hown, Hl.
    + rewrite lookup_insert_ne by done. intros Ho2 Hl. rewrite Hother; [by apply O|].
      intros Heq. pose proof (O _ _ Ho2 Hl) as Hs. rewrite Heq, Hslot in Hs. congruence.
  - intros s id' Hs. destruct (decide (s = op_scope o)) as [->|Hne].
    + rewrite Hown in Hs. destruct (op_is_terminal (pr_state p)) eqn:Ht; simplify_eq.
      exists o'. by rewrite lookup_insert_eq.
    + rewrite Hother in Hs by done. destruct (S _ _ Hs) as (o2 & Ho2 & Hl2 & Hs2).
      exists o2. rewrite lookup_insert_ne; [done|]. intros ->. rewrite Ho in Ho2. by simplify_eq.
  - intros s s' Hs Hs' Hne.
    assert (∀ s, is_Some (slot (active_operations a') s) →
                 is_Some (slot (active_operations (st_app st)) s)) as Hold.
    { intros x Hx. destruct (decide (x = op_scope o)) as [->|Hx']; [by rewrite Hslot|].
      by rewrite <- Hother. }
    apply X; auto.
  - rewrite Hstate. intros Hna s Hs.
    assert (slot (active_operations (st_app st)) s = None ∨ s = op_scope o ∧ op_is_terminal (pr_state p) = true) as [Hn|[-> Ht]].
    { destruct (op_is_terminal (pr_state p) && ends_lifecycle (op_kind o)) eqn:He.
      - apply andb_true_iff in He as [Ht He]. assert (op_scope o = Application) as Hap.
        { rewrite Hsc. by destruct (op_kind o). }
        left. destruct (slot (active_operations (st_app st)) s) eqn:Hs'; [|done].
        assert (userapp_scope_blocks_request s Application = false) as Hb.
        { apply X; [by rewrite Hs'|by rewrite <- Hap, Hslot|done]. }
        by destruct s.
      - left. by apply A. }
    + destruct (decide (s = op_scope o)) as [->|Hne]; [|by rewrite Hother].
      rewrite Hn in Hslot. done.
    + by rewrite Hown, Ht.
  - rewrite Hstate. destruct (op_is_terminal (pr_state p) && ends_lifecycle (op_kind o)) eqn:He.
    + apply andb_true_iff in He as [Ht He]. intros _ s.
      assert (op_scope o = Application) as Hap by (rewrite Hsc; by destruct (op_kind o)).
      destruct (decide (s = op_scope o)) as [->|Hne]; [by rewrite Hown, Ht|].
      rewrite Hother by done.
      destruct (slot (active_operations (st_app st)) s) eqn:Hs'; [|done].
      assert (userapp_scope_blocks_request s Application = false) as Hb.
      { apply X; [by rewrite Hs'|by rewrite <- Hap, Hslot|congruence]. }
      by destruct s.
    + intros Hd. by rewrite (D Hd) in Hslot.
Qed.

(** ** What a committed transaction has done *)

(** A request row that is recorded stays, and a replayed or accepted request
    has one. *)
Definition rows_kept (request : UserAppAdmission) (o : UserAppOperationRecord)
    (rows rows' : RequestTable) : Prop :=
  (∀ r row, rows !! r = Some row → rows' !! r = Some row)
  ∧ ∀ r, adm_request_id request = Some r →
      ∃ row, rows' !! r = Some row ∧ row_operation_id row = Some (op_operation_id o)
        ∧ (rows !! r = None → row_target_kind row = "control"
             ∧ row_lifecycle_id row = Some (op_lifecycle_id o)).

Lemma record_request_spec request o rows rows' :
  record_request request (match adm_request_id request with Some id => rows !! id | None => None end) o rows
  = Ok rows' → rows_kept request o rows rows'.
Proof.
  unfold record_request, result_bind, ensure. destruct (adm_request_id request) as [r|] eqn:Hr.
  2: { intros; simplify_eq. split; [done|]. congruence. }
  destruct (rows !! r) as [row|] eqn:Hrow.
  - destruct (opt_is _ _) eqn:Ho; [|done]. intros; simplify_eq. split; [done|]. intros r' ?; simplify_eq.
    exists row. apply opt_is_true in Ho. split_and!; [done..|]. congruence.
  - intros; simplify_eq. split.
    + intros r' row' Hr'. rewrite lookup_insert_ne; [done|]. congruence.
    + intros r' ?; simplify_eq. eexists. by rewrite lookup_insert_eq.
Qed.

Lemma admission_duplicate request d records now a out a' :
  admission request (Some d) records now a = (Ok out, a') → out = AdmExisting d ∧ a' = a.
Proof.
  unfold admission, mbind', mlift, mget, mret'. intros Hadm. by repeat case_match; simplify_eq.
Qed.

Record admitted_tx (request : UserAppAdmission) (st : AppStore) (o : UserAppOperationRecord)
    (st' : AppStore) : Prop := {
  atx_accepted : ∃ records, active (st_ops st) (st_app st) = Ok records
                 ∧ accepted_from request records (st_app st) o (st_app st');
  atx_checks : admission_request_checks request = Ok tt ∧ admission_lifecycle_ok (st_app st) request = true;
  atx_fresh : st_ops st !! op_operation_id o = None;
  atx_inserted : st_ops st' = <[op_operation_id o := o]> (st_ops st);
  atx_unclaimed : ∀ r, adm_request_id request = Some r → st_requests st !! r = None;
  atx_rows : rows_kept request o (st_requests st) (st_requests st');
}.

Lemma admission_accepted_checks request dup records n a o a' :
  admission request dup records n a = (Ok (AdmAccepted o), a') →
  admission_request_checks request = Ok tt ∧ admission_lifecycle_ok a request = true.
Proof.
  unfold admission, mbind', mlift, mget. destruct (admission_request_checks request) as [[]|]; [|done].
  unfold ensure. destruct (admission_lifecycle_ok a request); done.
Qed.

(** Without a duplicate, the request id was not recorded. *)
Lemma find_duplicate_none st request mapping :
  find_duplicate st request = Ok (None, mapping) →
  mapping = None ∧ ∀ r, adm_request_id request = Some r → st_requests st !! r = None.
Proof.
  unfold find_duplicate, request_operation, result_bind, ok_or, ensure.
  destruct (adm_request_id request) as [r|]; [|by intros; repeat case_match; simplify_eq].
  destruct (st_requests st !! r) as [row|] eqn:Hrow.
  - simpl. destruct (bool_decide (row_target_kind row = "recreate")); [done|].
    destruct (bool_decide (row_target_kind row = "control")); [|done].
    destruct (row_operation_id row) as [i|]; [|done]. destruct (find_operation _ _ i) as [o|]; [|done].
    destruct (bool_decide _); [|done]. destruct (find_operation _ _ (adm_operation_id request)); [|done].
    by destruct (bool_decide _).
  - intros; simplify_eq/=. repeat case_match; simplify_eq. split; [done|]. intros; by simplify_eq.
Qed.

Lemma find_duplicate_mapping st request dup mapping :
  find_duplicate st request = Ok (dup, mapping) →
  mapping = match adm_request_id request with Some id => st_requests st !! id | None => None end.
Proof. unfold find_duplicate, result_bind, ensure. intros. repeat case_match; by simplify_eq. Qed.

Lemma admit_tx_spec request input outside now st out st' :
  admit_tx request input outside now st = Ok (out, st') →
  match out with
  | AdmAccepted o => admitted_tx request st o st'
  | AdmExisting o => st_app st' = st_app st ∧ st_ops st' = st_ops st
                     ∧ rows_kept request o (st_requests st) (st_requests st')
  end.
Proof.
  unfold admit_tx. simpl. unfold result_bind at 1.
  destruct (validate_input _ _ _ _) as [[]|]; [|done]. unfold result_bind at 1.
  destruct (find_duplicate st request) as [[dup mapping]|] eqn:Hdup; [|done]. unfold result_bind at 1.
  destruct (active _ _) as [records|] eqn:Hact; [|done].
  pose proof (find_duplicate_mapping _ _ _ _ Hdup) as Hmap.
  pose proof (admission_spec request dup records now (st_app st)) as Hs. unfold wp in Hs.
  destruct (admission request dup records now (st_app st)) as [[[o|o]|e] a'] eqn:Hadm; [| |done];
    unfold insert_accepted, result_bind, ensure; simpl.
  - destruct outside; [done|]. destruct (guard_database_admin o); [|done].
    destruct (st_ops st !! op_operation_id o) eqn:Hn; [done|]. simpl.
    destruct (record_request _ _ _ _) as [rows|] eqn:Hrows; [|done]. intros; simplify_eq.
    destruct dup as [d|]; [by apply admission_duplicate in Hadm as [? _]|].
    apply find_duplicate_none in Hdup as [_ Hfree]. apply record_request_spec in Hrows.
    split; simpl; try done; [by exists records|by eapply admission_accepted_checks].
  - destruct (record_request _ _ _ _) as [rows|] eqn:Hrows; [|done]. intros; simplify_eq.
    by apply record_request_spec in Hrows.
Qed.

Lemma advance_tx_spec `{CheckpointCodec} p outside uncertain st o' st' :
  advance_tx p outside uncertain st = Ok (o', st') →
  ∃ o, st_ops st !! pr_operation_id p = Some o ∧ advanced_from p (st_app st) o (st_app st') o'
    ∧ st_ops st' = <[pr_operation_id p := o']> (st_ops st) ∧ st_requests st' = st_requests st.
Proof.
  unfold advance_tx, result_bind, ok_or. destruct (find_operation _ _ _) as [o|] eqn:Hf; [|done].
  apply find_operation_some in Hf as [Ho _].
  destruct (match outside with Some _ => _ | None => _ end); [|done].
  pose proof (advance_spec p (st_app st) o) as Hs. unfold wp in Hs.
  destruct (advance p (st_app st, o)) as [[[]|e] [a1 o1]]; [|done].
  destruct (match uncertain with Some _ => _ | None => _ end); [|done].
  intros; simplify_eq. by exists o.
Qed.

Lemma patch_tx_spec patch st a' st' :
  patch_tx patch st = Ok (a', st') →
  same_frame (st_app st) a' ∧ app_state (st_app st) = Active
  ∧ st' = mkAppStore a' (st_ops st) (st_requests st).
Proof.
  unfold patch_tx, result_bind. pose proof (patch_metadata_frame patch (st_app st)) as Hs. unfold wp in Hs.
  destruct (patch_metadata patch (st_app st)) as [[u|e] a1]; [|done]. intros; simplify_eq.
  by destruct Hs.
Qed.

(** ** Sequences of transactions *)

(** Case analysis on one step: it rolls back or one of the three commits. *)
Lemma lstep_cases `{CheckpointCodec} (P : AppStore → Prop) op st :
  P st →
  (∀ request o st', admitted_tx request st o st' → P st') →
  (∀ request o rows, rows_kept request o (st_requests st) rows →
     P (mkAppStore (st_app st) (st_ops st) rows)) →
  (∀ p o o' a', st_ops st !! pr_operation_id p = Some o → advanced_from p (st_app st) o a' o' →
     P (mkAppStore a' (<[pr_operation_id p := o']> (st_ops st)) (st_requests st))) →
  (∀ a', same_frame (st_app st) a' → app_state (st_app st) = Active →
     P (mkAppStore a' (st_ops st) (st_requests st))) →
  P (lstep op st).
Proof.
  intros Hst Hacc Hex Hadv Hpatch. destruct op as [request input outside now|p outside uncertain|patch]; simpl.
  - destruct (admit_tx _ _ _ _ _) as [[[o|o] st']|] eqn:Htx; [| |done]; apply admit_tx_spec in Htx; simpl.
    + by eapply Hacc.
    + destruct Htx as (Ha & Ho & Hr). destruct st'; simpl in *; subst. by eapply Hex.
  - destruct (advance_tx _ _ _ _) as [[o' st']|] eqn:Htx; [|done]. apply advance_tx_spec in Htx as (o & Ho & Had & H1 & H2).
    destruct st'; simpl in *; subst. by eapply Hadv.
  - destruct (patch_tx _ _) as [[a' st']|] eqn:Htx; [|done]. apply patch_tx_spec in Htx as (Hf & Hact & ->).
    by apply Hpatch.
Qed.

Section runs.
Context `{CheckpointCodec}.

Lemma lstep_ok op st : store_ok st → store_ok (lstep op st).
Proof.
  intros Hok. apply lstep_cases; [done|..].
  - intros request o st' [(records & Hact & Hacc) _ Hnew Hins _ _]. destruct st' as [a' ops' rows']. simpl in *.
    subst ops'. by eapply store_ok_admit.
  - intros _ _ rows _. by destruct Hok.
  - intros p o o' a' Ho Hadv. by eapply store_ok_advance.
  - intros a' Hf _. by apply store_ok_patch.
Qed.

Lemma lrun_ok ops st : store_ok st → store_ok (lrun ops st).
Proof.
  revert st. induction ops as [|op ops IH]; intros st Hok; simpl; [done|]. apply IH, lstep_ok, Hok.
Qed.

Lemma new_store_ok life now id a : identity life now id = Ok a → store_ok (new_store a).
Proof using Type.
  unfold identity, result_bind. case_match; [|done]. intros; simplify_eq.
  split; simpl; try (intros ??; by rewrite lookup_empty); [by intros []| |done|done].
  intros [] s' [? Hs]; done.
Qed.

(** In a store that satisfies the invariant the slots always load. *)
Lemma active_loads st : store_ok st → ∃ records, active (st_ops st) (st_app st) = Ok records.
Proof using Type.
  intros Hok.
  assert (∀ s, ∃ r, load_slot (st_ops st) (st_app st) s = Ok r) as Hload.
  { intros s. unfold load_slot. destruct (slot _ s) as [id|] eqn:Hs; [|eauto].
    destruct (ok_slot _ Hok _ _ Hs) as (o & Ho & Hl & Hsc).
    destruct (ok_key _ Hok _ _ Ho) as (_ & _ & Happ & Hlif).
    unfold find_operation. rewrite Ho, bool_decide_eq_true_2 by done. simpl.
    rewrite Hlif, Hsc, Hl, !bool_decide_eq_true_2 by done. simpl. eauto. }
  unfold active. destruct (Hload Dev) as [d ->], (Hload Prod) as [pr ->], (Hload Application) as [ap ->].
  simpl. eauto.
Qed.
End runs.
