(* ===== verification/LifecycleSamples.v ===== *)
(** * A concrete application

    An application, requests, progress reports and a codec on which the
    hypotheses of the lifecycle theorems are checked by evaluation.  The codec
    reads one field, the stage; everything else of a piece of evidence is the
    sample's. *)
From S2P Require Import Prelude Validation Lifecycle Evidence LifecycleDomain LifecycleStore.
Local Open Scope rust_scope.

Definition sample_fingerprint : string :=
  "0123456789abcdef0123456789abcdef0123456789abcdef0123456789abcdef".

Definition sample_app : UserAppLifecycleRecord :=
  {| app_runtime_policy := policy_default; app_id := "app"; app_lifecycle_id := "life-1";
     lifecycle_epoch := 1; metadata_revision := 1; app_state := Active; app_name := None;
     tenant_id := None; space_id := None; app_created_at := 0; active_operations := slots_default |}.

Definition sample_admission (op : string) (kind : UserAppOperationKind)
    (command : option UserAppControlCommand) : UserAppAdmission :=
  {| adm_runtime_policy_on_success := None; adm_command := command; adm_metadata := None;
     adm_app_id := "app"; adm_lifecycle_id := Some "life-1"; adm_operation_id := op;
     adm_request_id := None; adm_request_fingerprint := sample_fingerprint; adm_kind := kind |}.

Definition sample_progress (op : string) (revision : Z) (state : UserAppOperationState)
    (step : string) (checkpoint : Json) : UserAppOperationProgress :=
  {| pr_app_id := "app"; pr_operation_id := op; pr_lifecycle_id := "life-1";
     pr_expected_revision := revision; pr_executor_id := "exec-1"; pr_state := state;
     pr_step := step; pr_checkpoint := checkpoint; pr_error_code := None; pr_error_message := None |}.

Definition sample_context (op : string) : UserAppExecutionContext :=
  {| ctx_app_id := "app"; ctx_lifecycle_id := "life-1"; ctx_operation_id := op;
     ctx_executor_id := "exec-1"; ctx_request_fingerprint := sample_fingerprint |}.

(** *** Evidence of the sample operation [op-1] *)

Definition sample_snapshot : AppDeletionSnapshot :=
  {| snap_app_id := "app"; snap_operation_id := "op-1"; snap_resources := []; snap_directories := None |}.
Definition sample_receipt : UserappDevDeletionReceipt :=
  {| dev_runtime := {| bds_resource_binding := None; bds_app_id := "app"; bds_operation_id := "op-1";
                       bds_resources := []; bds_docker_bind_cleanup := false |};
     dev_registry := None; dev_lease := None; dev_collaborators := []; dev_directories := None |}.

Definition sample_deletion (s : UserAppDeletionStage) : UserAppDeletionCheckpoint :=
  {| dc_stage := s; dc_schema_version := 1; dc_context := sample_context "op-1";
     dc_kind := DeleteApplication; dc_production := sample_snapshot;
     dc_development := Some sample_receipt |}.
Definition sample_destruction : UserAppStorageDestruction :=
  {| sd_context := sample_context "op-1"; sd_production := Some sample_snapshot;
     sd_development := sample_receipt |}.
Definition sample_clear : UserAppStorageClear :=
  {| sc_context := sample_context "op-1"; sc_target := ClearProduction sample_snapshot [] |}.
Definition sample_password (s : DatabasePasswordStage) : DatabasePasswordEvidence :=
  {| pw_receipt_protocol := Some 1%Z; pw_context := sample_context "op-1"; pw_username := "owner";
     pw_target := PwProd {| rt_physical_uid := "uid-1"; rt_deployment_generation := "gen-1" |};
     pw_stage := s |}.
Definition sample_preparation (s : DatabasePreparationStage) : DatabasePreparationEvidence :=
  {| prep_target := {| mt_context := sample_context "op-1";
                       mt_resource := {| res_kind := Container; res_name := "pg"; res_uid := "uid-1";
                                         res_version := None |} |};
     prep_deployment_generation := "gen-1"; prep_stage := s;
     prep_management := if bool_decide (s = PrepManagementReady)
       then Some {| rt_physical_uid := "uid-1"; rt_deployment_generation := "gen-1" |} else None |}.

(** *** The codec *)

Definition stage_json (s : string) : Json := JObj [("stage", JStr s)].
Definition stage_field (j : Json) : option string :=
  match j with
  | JObj [(k, JStr s)] => if bool_decide (k = "stage") then Some s else None
  | _ => None
  end.

Definition deletion_stage_named (s : string) : option UserAppDeletionStage :=
  if bool_decide (s = "captured") then Some Captured
  else if bool_decide (s = "compute_removed") then Some ComputeRemoved
  else if bool_decide (s = "production_storage_removed") then Some ProductionStorageRemoved
  else if bool_decide (s = "development_removed") then Some DevelopmentRemoved
  else None.
Definition password_stage_named (s : string) : option DatabasePasswordStage :=
  if bool_decide (s = "captured") then Some PwCaptured
  else if bool_decide (s = "write_submitted") then Some PwWriteSubmitted
  else if bool_decide (s = "verified") then Some PwVerified
  else if bool_decide (s = "cancelled") then Some PwCancelled
  else None.
Definition preparation_stage_named (s : string) : option DatabasePreparationStage :=
  if bool_decide (s = "captured") then Some PrepCaptured
  else if bool_decide (s = "start_submitted") then Some PrepStartSubmitted
  else if bool_decide (s = "management_ready") then Some PrepManagementReady
  else None.

Definition sample_codec : CheckpointCodec :=
  {| decode_deletion := λ j, sample_deletion <$> (stage_field j ≫= deletion_stage_named);
     decode_destruction := λ j, (λ _, sample_destruction) <$> stage_field j;
     decode_clear := λ j, (λ _, sample_clear) <$> stage_field j;
     decode_password := λ j, sample_password <$> (stage_field j ≫= password_stage_named);
     decode_preparation := λ j, sample_preparation <$> (stage_field j ≫= preparation_stage_named) |}.

Lemma bare_has_no_stage j : failure_checkpoint_preserved JNull j = true → stage_field j = None.
Proof.
  destruct j as [| | | | |[|[k [| | |s| |]] [|]]]; try done. simpl. case_bool_decide; [|done].
  subst k. done.
Qed.

(** *** Runs *)

Definition sample_lrun (ops : list LOp) : AppStore :=
  @lrun sample_codec ops (new_store sample_app).

Lemma sample_identity_ok : identity "life-1" 0 "app" = Ok sample_app.
Proof. vm_compute. reflexivity. Qed.

(** The record of [op-1] once it is admitted for [kind], and the application
    then. *)
Definition sample_admitted (kind : UserAppOperationKind) (command : option UserAppControlCommand)
    : UserAppLifecycleRecord * UserAppOperationRecord :=
  let st := sample_lrun [LAdmit (sample_admission "op-1" kind command) None None 7] in
  (st_app st, default (admitted_record sample_app (sample_admission "op-1" kind command) 7)
                (st_ops st !! "op-1")).

(** The application is deleted in four confirmed stages. *)
Definition sample_deletion_reports : list UserAppOperationProgress :=
  [sample_progress "op-1" 1 Running "claimed" JNull;
   sample_progress "op-1" 2 Running "captured" (stage_json "captured");
   sample_progress "op-1" 3 Running "compute_removed" (stage_json "compute_removed");
   sample_progress "op-1" 4 Running "storage_removed" (stage_json "production_storage_removed");
   sample_progress "op-1" 5 Running "dev_removed" (stage_json "development_removed");
   sample_progress "op-1" 6 Succeeded "done" (stage_json "development_removed")].

(** The reports of a production storage destruction, of a cancelled password
    write and of a prepared database. *)
Definition sample_destroy_reports : list UserAppOperationProgress :=
  [sample_progress "op-1" 1 Running "claimed" JNull;
   sample_progress "op-1" 2 Running "storage_captured" (stage_json "target");
   sample_progress "op-1" 3 Running "production_storage_removed" (stage_json "target");
   sample_progress "op-1" 4 Running SD_COMPLETE_STEP (stage_json "target");
   sample_progress "op-1" 5 Succeeded "done" (stage_json "target")].
Definition sample_password_reports : list UserAppOperationProgress :=
  [sample_progress "op-1" 1 Running "claimed" JNull;
   sample_progress "op-1" 2 Running "captured" (stage_json "captured");
   sample_progress "op-1" 3 Running "write_submitted" (stage_json "write_submitted");
   sample_progress "op-1" 4 Running "cancelled" (stage_json "cancelled");
   sample_progress "op-1" 5 Failed "failed" (stage_json "cancelled")].
Definition sample_preparation_reports : list UserAppOperationProgress :=
  [sample_progress "op-1" 1 Running "claimed" JNull;
   sample_progress "op-1" 2 Running "captured" (stage_json "captured");
   sample_progress "op-1" 3 Running "start_submitted" (stage_json "start_submitted");
   sample_progress "op-1" 4 Running "management_ready" (stage_json "management_ready");
   sample_progress "op-1" 5 Succeeded "done" (stage_json "management_ready")].
