(* ===== verification/LifecycleTheorems.v ===== *)
(** * What the lifecycle rules guarantee

    Conflict freedom between scopes, exactly-once admission and optimistic
    concurrency of progress, within one life of an application. *)
From S2P Require Import Prelude Validation Lifecycle Evidence LifecycleDomain LifecycleStore LifecycleSafety.
From S2P Require Import LifecycleSamples.
Import Text Identifier.
Local Open Scope rust_scope.

Section theorems.
Context `{CheckpointCodec}.

(** C17: Operations in flight never conflict.  Starting from a new
    application, over any sequence of admissions, progress reports and
    metadata patches, two different operations that have not ended are in
    scopes that do not block each other: one works on the development
    environment and one on production, and an application-wide operation is
    alone. *)
Theorem live_operations_never_conflict life now id a ops id1 id2 o1 o2 :
  identity life now id = Ok a →
  let st := lrun ops (new_store a) in
  st_ops st !! id1 = Some o1 → st_ops st !! id2 = Some o2 → id1 ≠ id2 →
  op_is_terminal (op_state o1) = false → op_is_terminal (op_state o2) = false →
  userapp_scope_blocks_request (op_scope o1) (op_scope o2) = false.
Proof.
  intros Ha st Ho1 Ho2 Hne Hl1 Hl2.
  destruct (lrun_ok ops _ (new_store_ok _ _ _ _ Ha)) as [_ O _ X _ _]. fold st in O, X.
  pose proof (O _ _ Ho1 Hl1) as Hs1. pose proof (O _ _ Ho2 Hl2) as Hs2.
  apply X; [by rewrite Hs1|by rewrite Hs2|]. intros Heq. rewrite Heq, Hs2 in Hs1. congruence.
Qed.

(** C19: Progress is exclusive and counted.  A progress report that is
    recorded came from the operation's own executor, or claimed an operation
    that waited for one; it named the current revision, and leaves the next
    one.  A second report that names the same revision is refused. *)
Theorem progress_is_exclusive p p' a o a' o' :
  advance p (a, o) = (Ok tt, (a', o')) →
  (op_state o = Running ∧ op_executor_id o = Some (pr_executor_id p)
   ∨ (op_state o = Pending ∨ op_state o = WaitingRetry) ∧ pr_state p = Running)
  ∧ op_executor_id o' = Some (pr_executor_id p)
  ∧ op_revision o = pr_expected_revision p ∧ op_revision o' = (op_revision o + 1)%Z
  ∧ op_state o' = pr_state p
  ∧ (pr_expected_revision p' = pr_expected_revision p →
     is_ok (advance p' (a', o')).1 = false).
Proof.
  intros Heq. pose proof (wp_ok _ _ _ _ _ _ (advance_spec p a o) Heq) as Hs.
  destruct Hs as [Hslot Hlif Hexp Hlive Hclaim _ Hrec _ _ _ _]. simpl in *. subst o'. simpl.
  split_and!; try done.
  - unfold authorize_userapp_progress_claim in Hclaim.
    destruct (op_state o), (opt_is (op_executor_id o) (pr_executor_id p)) eqn:He; try done;
      try (right; split; [by auto|by destruct (pr_state p)]).
    left. by apply opt_is_true in He.
  - intros Hp'. pose proof (advance_spec p' a' (progressed (op_revision o + 1) p
      (with_executor (Some (pr_executor_id p)) o))) as Hs'. unfold wp in Hs'.
    destruct (advance p' _) as [[[]|e] [a2 o2]]; [|done].
    pose proof (adv_expected _ _ _ _ _ Hs') as Hr. simpl in Hr. lia.
Qed.

(** *** Exactly-once admission *)

(** Fields a progress report never changes. *)
Definition same_identity (o o' : UserAppOperationRecord) : Prop :=
  op_operation_id o' = op_operation_id o ∧ op_app_id o' = op_app_id o
  ∧ op_lifecycle_id o' = op_lifecycle_id o
  ∧ op_kind o' = op_kind o ∧ op_scope o' = op_scope o ∧ op_command o' = op_command o
  ∧ op_runtime_policy_on_success o' = op_runtime_policy_on_success o
  ∧ op_request_fingerprint o' = op_request_fingerprint o
  ∧ op_admitted_metadata o' = op_admitted_metadata o.

(** Records stay, with their identity; so do request rows and the lifecycle. *)
Definition store_kept (st st' : AppStore) : Prop :=
  app_id (st_app st') = app_id (st_app st)
  ∧ app_lifecycle_id (st_app st') = app_lifecycle_id (st_app st)
  ∧ lifecycle_epoch (st_app st') = lifecycle_epoch (st_app st)
  ∧ (∀ r row, st_requests st !! r = Some row → st_requests st' !! r = Some row)
  ∧ ∀ id o, st_ops st !! id = Some o → ∃ o', st_ops st' !! id = Some o' ∧ same_identity o o'.

#[local] Instance store_kept_preorder : PreOrder store_kept.
Proof.
  split.
  - intros st. split_and!; try done. intros id o Ho. exists o. by split.
  - intros s1 s2 s3 (A1 & B1 & C1 & R1 & K1) (A2 & B2 & C2 & R2 & K2).
    split_and!; try congruence; [by auto|]. intros id o Ho.
    destruct (K1 _ _ Ho) as (o2 & Ho2 & I2). destruct (K2 _ _ Ho2) as (o3 & Ho3 & I3).
    exists o3. split; [done|]. unfold same_identity in *. intuition congruence.
Qed.

Lemma lstep_kept op st : store_kept st (lstep op st).
Proof.
  apply lstep_cases; [reflexivity|..].
  - intros request o st' [(records & _ & Hs) _ Hnew Hins _ [Hrows _]].
    destruct (af_frame _ _ _ _ _ Hs) as (? & ? & ?). split_and!; try done.
    intros id o' Ho'. exists o'. split; [|done]. rewrite Hins, lookup_insert_ne; [done|]. congruence.
  - intros request o rows [Hrows _]. split_and!; try done. intros id o' Ho'. by exists o'.
  - intros p o o' a' Ho Hs. destruct (adv_ids _ _ _ _ _ Hs) as (? & ? & ?). split_and!; try done. simpl.
    intros id o2 Ho2. destruct (decide (id = pr_operation_id p)) as [->|Hne].
    + exists o'. rewrite lookup_insert_eq. split; [done|].
      pose proof (adv_record _ _ _ _ _ Hs) as Hr. simpl in Hr. subst o'.
      rewrite Ho in Ho2. by simplify_eq.
    + exists o2. by rewrite lookup_insert_ne.
  - intros a' (? & ? & ? & ? & ?) _. split_and!; try done. intros id o Ho. by exists o.
Qed.

Lemma lrun_kept ops st : store_kept st (lrun ops st).
Proof.
  revert st. induction ops as [|op ops IH]; intros st; simpl; [reflexivity|].
  etrans; [apply lstep_kept|apply IH].
Qed.

(** What a later store still knows of an accepted request. *)
Lemma accepted_request_known request st o st1 ops :
  store_ok (lrun ops st1) → admitted_tx request st o st1 →
  let st2 := lrun ops st1 in
  ∃ o', same_identity o o'
    ∧ find_operation (st_ops st2) (app_id (st_app st2)) (adm_operation_id request) = Some o'
    ∧ st_ops st2 !! adm_operation_id request = Some o'
    ∧ op_lifecycle_id o' = app_lifecycle_id (st_app st2)
    ∧ admission_lifecycle_ok (st_app st2) request = true
    ∧ (∀ r, adm_request_id request = Some r → ∃ row, st_requests st2 !! r = Some row
         ∧ row_target_kind row = "control" ∧ row_operation_id row = Some (adm_operation_id request)
         ∧ row_lifecycle_id row = Some (op_lifecycle_id o')).
Proof.
  intros Hok2 [(records & _ & Hs) [_ Hlok] _ Hins Hfree [_ Hrow]] st2.
  destruct (lrun_kept ops st1) as (I1 & I2 & I3 & R & K). fold st2 in I1, I2, I3, R, K.
  destruct (af_frame _ _ _ _ _ Hs) as (F1 & F2 & F3). rewrite (af_id _ _ _ _ _ Hs) in Hins, Hrow.
  destruct (K (adm_operation_id request) o) as (o' & Ho' & Hsame); [by rewrite Hins, lookup_insert_eq|].
  pose proof Hsame as (S1 & S2 & S3 & _). exists o'. split_and!; [done| |done|..].
  - unfold find_operation. rewrite Ho', bool_decide_eq_true_2; [done|].
    rewrite S2, (af_app _ _ _ _ _ Hs). congruence.
  - rewrite S3, (af_lifecycle _ _ _ _ _ Hs). congruence.
  - unfold admission_lifecycle_ok in *. by rewrite I2, I3, F2, F3.
  - intros r Hr. destruct (Hrow r Hr) as (row & Hl & Hop & Hnew).
    destruct (Hnew (Hfree r Hr)) as [Hk Hlif]. exists row. split_and!; [by apply R|done|done|].
    by rewrite S3.
Qed.

Lemma same_identity_request o o' request :
  same_identity o o' → same_request o request = true → same_request o' request = true.
Proof.
  unfold same_identity, same_request. by intros (_ & _ & _ & -> & -> & -> & -> & -> & ->).
Qed.

(** A duplicate that matches is returned. *)
Lemma admission_returns_duplicate request d records now a :
  admission_request_checks request = Ok tt → admission_lifecycle_ok a request = true →
  op_lifecycle_id d = app_lifecycle_id a → same_request d request = true →
  admission request (Some d) records now a = (Ok (AdmExisting d), a).
Proof using Type.
  intros Hc Hl Hd Hs. unfold admission, mbind', mlift, mget. rewrite Hc, Hl. simpl.
  rewrite bool_decide_eq_true_2 by done. simpl. by rewrite Hs.
Qed.

(** Admission happens once.  After a request was accepted, submitting
    it again, at any later time in the same lifecycle and whatever has
    happened to the operation since, returns the existing record and
    changes nothing.  The guards that could refuse a new operation are not
    consulted. *)
Theorem admission_happens_once life now id a ops request input outside n o st1 ops' outside' n' :
  identity life now id = Ok a →
  admit_tx request input outside n (lrun ops (new_store a)) = Ok (AdmAccepted o, st1) →
  let st2 := lrun ops' st1 in
  ∃ o', same_identity o o' ∧ st_ops st2 !! adm_operation_id request = Some o'
    ∧ admit_tx request input outside' n' st2 = Ok (AdmExisting o', st2).
Proof.
  intros Ha Hacc st2. set (st := lrun ops (new_store a)) in *.
  assert (store_ok st) as Hok by by apply lrun_ok, (new_store_ok life now id).
  assert (store_ok st2) as Hok2.
  { apply lrun_ok. pose proof (lstep_ok (LAdmit request input outside n) st Hok) as H1.
    simpl in H1. by rewrite Hacc in H1. }
  assert (validate_input (adm_kind request) (adm_request_fingerprint request)
            (adm_command request) input = Ok tt) as Hin.
  { unfold admit_tx, result_bind in Hacc. by destruct (validate_input _ _ _ _) as [[]|]. }
  apply admit_tx_spec in Hacc.
  destruct (accepted_request_known _ _ _ _ ops' Hok2 Hacc) as (o' & Hsame & Hf & Ho' & Hlif & Hlok & Hrow).
  fold st2 in Hf, Ho', Hlif, Hlok, Hrow. exists o'. split_and!; [done..|].
  destruct Hacc as [(records & _ & Hs) [Hchk _] _ _ _ _].
  destruct (active_loads _ Hok2) as [r2 Hact].
  assert (op_operation_id o' = adm_operation_id request) as Hid.
  { destruct Hsame as (-> & _). apply (af_id _ _ _ _ _ Hs). }
  assert (find_duplicate st2 request
          = Ok (Some o', match adm_request_id request with Some i => st_requests st2 !! i | None => None end)) as Hdup.
  { unfold find_duplicate. rewrite Hf. destruct (adm_request_id request) as [r|]; [|done].
    destruct (Hrow r eq_refl) as (row & -> & Hk & Hop & Hrl).
    unfold request_operation. rewrite Hk, Hop, Hrl. simpl. rewrite Hf. simpl.
    rewrite (bool_decide_eq_true_2 (Some _ = _)) by done. simpl.
    by rewrite bool_decide_eq_true_2. }
  unfold admit_tx. rewrite Hin, Hdup, Hact. simpl.
  rewrite (admission_returns_duplicate request o' r2 n'); [|done..|].
  2: { eapply same_identity_request; [done|apply (af_request _ _ _ _ _ Hs)]. }
  simpl. unfold record_request. destruct (adm_request_id request) as [r|]; [|by destruct st2].
  destruct (Hrow r eq_refl) as (row & -> & _ & Hop & _). rewrite Hop, Hid.
  unfold opt_is. rewrite bool_decide_eq_true_2 by done. simpl. by destruct st2.
Qed.

(** The same request under another operation id, as a client that lost the
    first answer makes it. *)
Definition renamed (op : string) (request : UserAppAdmission) : UserAppAdmission :=
  {| adm_runtime_policy_on_success := adm_runtime_policy_on_success request;
     adm_command := adm_command request; adm_metadata := adm_metadata request;
     adm_app_id := adm_app_id request; adm_lifecycle_id := adm_lifecycle_id request;
     adm_operation_id := op; adm_request_id := adm_request_id request;
     adm_request_fingerprint := adm_request_fingerprint request; adm_kind := adm_kind request |}.

(** A request id is a stable handle.  A client that submits an accepted
    request again under a new operation id but with the same request id gets
    the operation that was accepted first; no second operation is made. *)
Theorem request_id_finds_operation life now id a ops request input outside n o st1 ops' op r outside' n' :
  identity life now id = Ok a →
  admit_tx request input outside n (lrun ops (new_store a)) = Ok (AdmAccepted o, st1) →
  adm_request_id request = Some r →
  let st2 := lrun ops' st1 in
  st_ops st2 !! op = None → admission_request_checks (renamed op request) = Ok tt →
  ∃ o', same_identity o o'
    ∧ admit_tx (renamed op request) input outside' n' st2 = Ok (AdmExisting o', st2).
Proof.
  intros Ha Hacc Hr st2 Hnew Hchk. set (st := lrun ops (new_store a)) in *.
  assert (store_ok st) as Hok by by apply lrun_ok, (new_store_ok life now id).
  assert (store_ok st2) as Hok2.
  { apply lrun_ok. pose proof (lstep_ok (LAdmit request input outside n) st Hok) as H1.
    simpl in H1. by rewrite Hacc in H1. }
  assert (validate_input (adm_kind request) (adm_request_fingerprint request)
            (adm_command request) input = Ok tt) as Hin.
  { unfold admit_tx, result_bind in Hacc. by destruct (validate_input _ _ _ _) as [[]|]. }
  apply admit_tx_spec in Hacc.
  destruct (accepted_request_known _ _ _ _ ops' Hok2 Hacc) as (o' & Hsame & Hf & Ho' & Hlif & Hlok & Hrow).
  fold st2 in Hf, Ho', Hlif, Hlok, Hrow. exists o'. split; [done|].
  destruct Hacc as [(records & _ & Hs) _ _ _ _ _].
  destruct (active_loads _ Hok2) as [r2 Hact]. destruct (Hrow r Hr) as (row & Hl & Hk & Hop & Hrl).
  assert (op_operation_id o' = adm_operation_id request) as Hid.
  { destruct Hsame as (-> & _). apply (af_id _ _ _ _ _ Hs). }
  assert (find_duplicate st2 (renamed op request) = Ok (Some o', Some row)) as Hdup.
  { unfold find_duplicate. simpl. rewrite Hr, Hl. unfold find_operation at 1. rewrite Hnew.
    unfold request_operation. rewrite Hk, Hop, Hrl. simpl. rewrite Hf. simpl.
    unfold find_operation. by rewrite (bool_decide_eq_true_2 (Some _ = _)), Hnew. }
  unfold admit_tx. rewrite Hdup, Hact. simpl. rewrite Hin. simpl.
  rewrite (admission_returns_duplicate (renamed op request) o' r2 n'); [|done..|].
  2: { pose proof (same_identity_request _ _ _ Hsame (af_request _ _ _ _ _ Hs)) as Hsr. exact Hsr. }
  simpl. unfold record_request. simpl. rewrite Hr, Hop, Hid.
  unfold opt_is. rewrite bool_decide_eq_true_2 by done. simpl. by destruct st2.
Qed.
End theorems.

(** ** Instances *)

Definition sample_ensure : UserAppAdmission := sample_admission "op-1" EnsureBuilder None.
Definition sample_start : UserAppAdmission := sample_admission "op-2" Start (Some (CmdStart false)).

(** A builder is being ensured while production starts. *)
Lemma live_operations_never_conflict_witness :
  let st := sample_lrun [LAdmit sample_ensure None None 1; LAdmit sample_start None None 2] in
  let o1 := admitted_record sample_app sample_ensure 1 in
  let o2 := admitted_record sample_app sample_start 2 in
  st_ops st !! "op-1" = Some o1 ∧ st_ops st !! "op-2" = Some o2
  ∧ userapp_scope_blocks_request (op_scope o1) (op_scope o2) = false.
Proof.
  intros st o1 o2.
  assert (st_ops st !! "op-1" = Some o1) as H1 by (vm_compute; reflexivity).
  assert (st_ops st !! "op-2" = Some o2) as H2 by (vm_compute; reflexivity).
  split_and!; [exact H1|exact H2|].
  refine (@live_operations_never_conflict sample_codec "life-1" 0 "app" sample_app
            [LAdmit sample_ensure None None 1; LAdmit sample_start None None 2] "op-1" "op-2" o1 o2
            sample_identity_ok H1 H2 _ eq_refl eq_refl).
  discriminate.
Defined.

Lemma progress_is_exclusive_witness :
  let a := (sample_admitted Start (Some (CmdStart false))).1 in
  let o := (sample_admitted Start (Some (CmdStart false))).2 in
  let p := sample_progress "op-1" 1 Running "claimed" JNull in
  let o' := progressed 2 p (with_executor (Some "exec-1") o) in
  @advance sample_codec p (a, o) = (Ok tt, (a, o'))
  ∧ is_ok (@advance sample_codec (sample_progress "op-1" 1 Running "other" JNull) (a, o')).1 = false.
Proof.
  intros a o p o'.
  assert (@advance sample_codec p (a, o) = (Ok tt, (a, o'))) as Hadv by (vm_compute; reflexivity).
  split; [exact Hadv|].
  exact (proj2 (proj2 (proj2 (proj2 (proj2
    (@progress_is_exclusive sample_codec p (sample_progress "op-1" 1 Running "other" JNull) _ _ _ _ Hadv)))))
    eq_refl).
Defined.

(** A start is admitted, runs and fails; the same request finds its record,
    although its scope is being drained. *)
Lemma admission_happens_once_witness :
  let st := @lrun sample_codec [] (new_store sample_app) in
  let o := admitted_record sample_app sample_start 2 in
  let st1 := committed (admit_tx sample_start None None 2 st) st in
  let ops' := [LAdvance (sample_progress "op-2" 1 Running "claimed" JNull) None None;
               LAdvance (sample_progress "op-2" 2 Failed "failed" JNull) None None] in
  let st2 := @lrun sample_codec ops' st1 in
  ∃ o', same_identity o o' ∧ st_ops st2 !! "op-2" = Some o'
    ∧ admit_tx sample_start None (Some VersionConflict) 9 st2 = Ok (AdmExisting o', st2).
Proof.
  intros st o st1 ops' st2.
  refine (@admission_happens_once sample_codec "life-1" 0 "app" sample_app [] sample_start None None 2 o st1
            ops' (Some VersionConflict) 9 sample_identity_ok _).
  vm_compute. reflexivity.
Defined.

Definition sample_start_by_request : UserAppAdmission :=
  {| adm_runtime_policy_on_success := None; adm_command := Some (CmdStart false); adm_metadata := None;
     adm_app_id := "app"; adm_lifecycle_id := None; adm_operation_id := "op-2";
     adm_request_id := Some "client-7"; adm_request_fingerprint := sample_fingerprint; adm_kind := Start |}.

Lemma request_id_finds_operation_witness :
  let st := @lrun sample_codec [] (new_store sample_app) in
  let o := admitted_record sample_app sample_start_by_request 2 in
  let st1 := committed (admit_tx sample_start_by_request None None 2 st) st in
  let st2 := @lrun sample_codec [] st1 in
  ∃ o', same_identity o o'
    ∧ admit_tx (renamed "op-3" sample_start_by_request) None None 5 st2 = Ok (AdmExisting o', st2).
Proof.
  intros st o st1 st2.
  refine (@request_id_finds_operation sample_codec "life-1" 0 "app" sample_app [] sample_start_by_request
            None None 2 o st1 [] "op-3" "client-7" None 5 sample_identity_ok _ eq_refl _ _);
    vm_compute; reflexivity.
Defined.
