(* ===== verification/LifecycleEvidence.v ===== *)
(** * Evidence is recorded in order and never replaced

    Sequences of accepted progress reports of one destructive operation. *)
From S2P Require Import Prelude Validation Lifecycle Evidence LifecycleDomain LifecycleStore LifecycleSafety.
From S2P Require Import LifecycleSamples.
Import Text Identifier.
Local Open Scope rust_scope.

Section evidence.
Context `{CheckpointCodec}.

(** A sequence of reports, all of them accepted. *)
Fixpoint advance_all (ps : list UserAppOperationProgress) (s : Pair) : option Pair :=
  match ps with
  | [] => Some s
  | p :: rest =>
      match advance p s with
      | (Ok _, s') => advance_all rest s'
      | (Err _, _) => None
      end
  end.

Lemma advance_all_ind (P : Pair → list UserAppOperationProgress → Prop) ps s s' :
  P s [] →
  (∀ p a o a' o' done, P (a, o) done → advanced_from p a o a' o' → P (a', o') (done ++ [p])) →
  advance_all ps s = Some s' → P s' ps.
Proof using Type.
  intros H0 Hstep. enough (∀ ps done s, P s done → advance_all ps s = Some s' → P s' (done ++ ps)) as Hall.
  { intros Hs. by apply (Hall ps [] s). }
  clear ps s H0. induction ps as [|p ps IH]; intros done s Hs Hr; simpl in Hr; [by simplify_eq; rewrite app_nil_r|].
  destruct s as [a o]. pose proof (advance_spec p a o) as Hadv. unfold wp in Hadv.
  destruct (advance p (a, o)) as [[u|e] [a' o']]; [|done].
  rewrite cons_middle, app_assoc. eapply IH; [|done]. by eapply Hstep.
Qed.

(** ** Deletion stages *)

Definition all_stages : list UserAppDeletionStage :=
  [Captured; ComputeRemoved; ProductionStorageRemoved; DevelopmentRemoved].
Definition stage_index (s : UserAppDeletionStage) : nat :=
  match s with
  | Captured => 0 | ComputeRemoved => 1 | ProductionStorageRemoved => 2 | DevelopmentRemoved => 3
  end.

(** The stage a report records: a running report with a checkpoint. *)
Definition reported_stage (p : UserAppOperationProgress) : option UserAppDeletionStage :=
  if bool_decide (pr_state p = Running) && negb (json_is_null (pr_checkpoint p))
  then dc_stage <$> decode_deletion (pr_checkpoint p) else None.
Definition reported_stages (ps : list UserAppOperationProgress) : list UserAppDeletionStage :=
  omap reported_stage ps.

Lemma take_next s s' :
  deletion_step_ok s s' = true →
  take (S (stage_index s)) all_stages ++ [s'] = take (S (stage_index s')) all_stages.
Proof using Type. by destruct s, s'. Qed.

(** Where a deletion stands after the reports [ps]. *)
Definition deletion_state (k : UserAppOperationKind) (o : UserAppOperationRecord)
    (stages : list UserAppDeletionStage) : Prop :=
  op_kind o = k ∧
  ∃ n, stages = take n all_stages
    ∧ (op_state o = Succeeded → n = S (stage_index (deletion_final_stage k)))
    ∧ (op_state o = Failed → ends_lifecycle k = true → n = 0)
    ∧ (op_is_terminal (op_state o) = false → op_state o ≠ RecoveryRequired →
       (op_checkpoint o = JNull ∧ n = 0)
       ∨ (op_checkpoint o ≠ JNull ∧ ∃ c, decode_deletion (op_checkpoint o) = Some c ∧ n = S (stage_index (dc_stage c)))).

(** What the validator lets through. *)
Lemma deletion_progress_cases o p :
  is_deletion_kind (op_kind o) = true →
  validate_deletion_progress o p = Ok tt →
  is_failure (pr_state p) = true
  ∨ (pr_state p = Running ∧ pr_checkpoint p = JNull ∧ op_checkpoint o = JNull)
  ∨ (pr_state p = Running ∧ op_checkpoint o = JNull
     ∧ ∃ c, decode_deletion (pr_checkpoint p) = Some c ∧ dc_stage c = Captured)
  ∨ (op_checkpoint o ≠ JNull ∧ ∃ c c', decode_deletion (op_checkpoint o) = Some c
     ∧ decode_deletion (pr_checkpoint p) = Some c' ∧ dc_with_stage (dc_stage c) c' = c
     ∧ ((pr_state p = Succeeded ∧ dc_stage c = deletion_final_stage (op_kind o)
         ∧ dc_stage c' = deletion_final_stage (op_kind o))
        ∨ (pr_state p = Running ∧ deletion_step_ok (dc_stage c) (dc_stage c') = true))).
Proof using Type.
  unfold validate_deletion_progress, unrecorded_running, deletion_advances, result_bind, ok_or, checked,
    map_err, ensure.
  intros -> Hv. simpl in Hv. destruct (is_failure (pr_state p)); [by left|]. right.
  destruct (json_is_null (op_checkpoint o)) eqn:Hn.
  - assert (op_checkpoint o = JNull) as Ho by by destruct (op_checkpoint o).
    rewrite andb_true_r in Hv.
    destruct (bool_decide (pr_state p = Running) && json_is_null (pr_checkpoint p)) eqn:Hr.
    { left. apply andb_true_iff in Hr as [Hr%bool_decide_eq_true Hj].
      split_and!; [done| |done]. by destruct (pr_checkpoint p). }
    right; left. destruct (decode_deletion (pr_checkpoint p)) as [c|]; [|done].
    destruct (deletion_validate_operation c o); [|done].
    destruct (bool_decide (pr_state p = Running) && bool_decide (dc_stage c = Captured)) eqn:Hb; [|done].
    apply andb_true_iff in Hb as [Hb1%bool_decide_eq_true Hb2%bool_decide_eq_true]. eauto 10.
  - assert (op_checkpoint o ≠ JNull) as Ho by by intros Heq; rewrite Heq in Hn.
    rewrite andb_false_r in Hv. right; right. split; [done|].
    destruct (decode_deletion (pr_checkpoint p)) as [c'|]; [|done].
    destruct (deletion_validate_operation c' o); [|done].
    destruct (decode_deletion (op_checkpoint o)) as [c|]; [|done].
    destruct (bool_decide (dc_with_stage _ _ = _)) eqn:Hev; [|done]. apply bool_decide_eq_true in Hev.
    exists c, c'. split_and!; try done.
    destruct (bool_decide (pr_state p = Succeeded)) eqn:Hs.
    + left. apply bool_decide_eq_true in Hs.
      destruct (bool_decide _ && bool_decide _) eqn:Hb; [|done].
      by apply andb_true_iff in Hb as [?%bool_decide_eq_true ?%bool_decide_eq_true].
    + right. destruct (bool_decide (pr_state p = Running) && _) eqn:Hb; [|done].
      by apply andb_true_iff in Hb as [?%bool_decide_eq_true ?].
Qed.

Lemma claim_not_recovery s s' b :
  authorize_userapp_progress_claim s s' b ≠ None → s ≠ RecoveryRequired.
Proof using Type. by destruct s. Qed.

Lemma validate_progress_deletion a o p :
  validate_progress a o p = Ok tt → validate_deletion_progress o p = Ok tt.
Proof using Type.
  unfold validate_progress, result_bind. by destruct (validate_deletion_progress o p) as [[]|].
Qed.

(** Serde does not decode a struct from [null]. *)
Hypothesis null_is_no_checkpoint : decode_deletion JNull = None.

Lemma decoded_not_null j c : decode_deletion j = Some c → json_is_null j = false ∧ j ≠ JNull.
Proof using null_is_no_checkpoint. destruct j; [congruence|done..]. Qed.

Lemma reported_running p c :
  pr_state p = Running → decode_deletion (pr_checkpoint p) = Some c →
  reported_stage p = Some (dc_stage c).
Proof using null_is_no_checkpoint.
  intros Hr Hc. unfold reported_stage. destruct (decoded_not_null _ _ Hc) as [-> _].
  by rewrite bool_decide_eq_true_2, Hc.
Qed.

Lemma reported_otherwise p : pr_state p ≠ Running → reported_stage p = None.
Proof using Type. intros Hr. unfold reported_stage. by rewrite bool_decide_eq_false_2. Qed.

Lemma deletion_step k p a o a' o' stages :
  is_deletion_kind k = true → deletion_state k o stages → advanced_from p a o a' o' →
  deletion_state k o' (stages ++ reported_stages [p]).
Proof using null_is_no_checkpoint.
  intros Hk (Hkind & n & -> & _ & _ & Hopen) Hadv.
  pose proof (claim_not_recovery _ _ _ (adv_claim _ _ _ _ _ Hadv)) as Hrec.
  specialize (Hopen (adv_live _ _ _ _ _ Hadv) Hrec).
  pose proof (validate_progress_deletion _ _ _ (adv_evidence _ _ _ _ _ Hadv)) as Hval.
  apply deletion_progress_cases in Hval; [|by simpl; rewrite Hkind]. simpl in Hval.
  rewrite (adv_record _ _ _ _ _ Hadv). split; [by simpl|]. unfold reported_stages. simpl.
  destruct Hval as [Hf|[(Hr & Hp & Ho)|[(Hr & Ho & c & Hc & Hst)|(Ho & c & c' & Hc & Hc' & Hev & Hcase)]]].
  - rewrite (reported_otherwise p) by (intros Heq; by rewrite Heq in Hf).
    exists n. rewrite app_nil_r. split_and!; [done|by intros Heq; rewrite Heq in Hf| |by destruct (pr_state p)].
    intros Hs He. destruct (adv_not_early _ _ _ _ _ Hadv Hs) as [_ Hnull]; [by rewrite Hkind|].
    by destruct Hopen as [[_ ->]|[? _]].
  - assert (reported_stage p = None) as -> by by unfold reported_stage; rewrite Hp, andb_false_r.
    exists n. rewrite app_nil_r. rewrite Hr. split_and!; [done..|]. intros _ _.
    destruct Hopen as [[_ ->]|[? _]]; [by left|done].
  - destruct Hopen as [[_ ->]|[? _]]; [|done]. rewrite (reported_running p c), Hst, Hr by done.
    exists 1. split_and!; [done..|]. intros _ _. right.
    split; [by eapply decoded_not_null|]. exists c. by rewrite Hst.
  - destruct Hopen as [[? _]|[_ (c0 & Hc0 & ->)]]; [done|]. simplify_eq.
    destruct Hcase as [(Hs & H1 & H2)|(Hr & Hstep)].
    + rewrite (reported_otherwise p) by by rewrite Hs.
      exists (S (stage_index (dc_stage c0))). by rewrite app_nil_r, H1, Hs.
    + rewrite (reported_running p c'), Hr by done.
      exists (S (stage_index (dc_stage c'))). rewrite <- (take_next (dc_stage c0) (dc_stage c')) by done.
      split_and!; [done..|]. intros _ _. right.
      split; [by eapply decoded_not_null|]. by exists c'.
Qed.

Lemma deletion_start o :
  op_checkpoint o = JNull → op_is_terminal (op_state o) = false → deletion_state (op_kind o) o [].
Proof using Type.
  intros Hnull Hlive. split; [done|]. exists 0.
  split_and!; [done|by intros Hs; rewrite Hs in Hlive|done|by left].
Qed.

Lemma deletion_extend k p a o a' o' prior :
  is_deletion_kind k = true → deletion_state k o (reported_stages prior) →
  advanced_from p a o a' o' → deletion_state k o' (reported_stages (prior ++ [p])).
Proof using null_is_no_checkpoint.
  intros. unfold reported_stages. rewrite omap_app. by eapply deletion_step.
Qed.

(** C39: Deletion records its stages in order.  Whatever reports an executor
    of a deletion gets accepted, the stages recorded are an initial segment
    of captured, compute removed, production storage removed, development
    removed: none is skipped, repeated or reordered.  The operation succeeds
    only when the last stage of its kind is recorded: compute removed for a
    compute deletion, development removed for a purge or for the deletion of
    the application. *)
Theorem deletion_stages_in_order a o ps a' o' :
  is_deletion_kind (op_kind o) = true →
  op_checkpoint o = JNull → op_is_terminal (op_state o) = false →
  advance_all ps (a, o) = Some (a', o') →
  reported_stages ps `prefix_of` all_stages
  ∧ (op_state o' = Succeeded →
     reported_stages ps = take (S (stage_index (deletion_final_stage (op_kind o)))) all_stages).
Proof using null_is_no_checkpoint.
  intros Hk Hnull Hlive Hrun.
  assert (deletion_state (op_kind o) o' (reported_stages ps)) as (_ & n & -> & Hdone & _ & _).
  { apply (advance_all_ind (λ s done, deletion_state (op_kind o) s.2 (reported_stages done))
             ps (a, o) (a', o')); [| |done].
    - by apply deletion_start.
    - intros. by eapply deletion_extend. }
  split; [|by intros Hs; rewrite Hdone]. exists (drop n all_stages). by rewrite take_drop.
Qed.

(** A failed deletion has touched nothing.  When the deletion of an
    application ends as Failed, no stage had been recorded, not even the
    captured resources, and the application is Active again; a deletion that
    got further can only end in recovery. *)
Theorem failed_deletion_touched_nothing a o ps a' o' :
  op_kind o = DeleteApplication →
  op_checkpoint o = JNull → op_is_terminal (op_state o) = false →
  advance_all ps (a, o) = Some (a', o') → op_state o' = Failed →
  reported_stages ps = [] ∧ app_state a' = Active.
Proof using null_is_no_checkpoint.
  intros Hk Hnull Hlive Hrun Hfail.
  assert (ends_lifecycle (op_kind o) = true ∧ is_deletion_kind (op_kind o) = true) as [He Hd] by by rewrite Hk.
  assert (deletion_state (op_kind o) o' (reported_stages ps)
          ∧ (op_state o' = Failed → app_state a' = Active)) as [(_ & n & -> & _ & Hzero & _) Hact].
  { apply (advance_all_ind (λ s done, deletion_state (op_kind o) s.2 (reported_stages done)
             ∧ (op_state s.2 = Failed → app_state s.1 = Active)) ps (a, o) (a', o')); [| |done].
    - split; [by apply deletion_start|]. simpl. by intros Hs; rewrite Hs in Hlive.
    - intros p a1 o1 a2 o2 prior [Hst _] Hadv. split; [by eapply deletion_extend|].
      simpl. intros Hs. rewrite (adv_record _ _ _ _ _ Hadv) in Hs. simpl in Hs.
      rewrite (adv_app_state _ _ _ _ _ Hadv). destruct Hst as [Hst _]. simpl in Hst. by rewrite Hst, He, Hs. }
  by rewrite (Hzero Hfail He), (Hact Hfail).
Qed.
End evidence.

(** ** Storage destruction and clearing *)

Section storage.
Context `{CheckpointCodec}.

(** The steps each storage operation has to record, first to last. *)
Definition storage_plan (k : UserAppOperationKind) : option (list string) :=
  match k with
  | DestroyProdStorage => Some ["storage_captured"; "production_storage_removed"; SD_COMPLETE_STEP]
  | DestroyDevStorage => Some ["storage_captured"; SD_COMPLETE_STEP]
  | ClearProdStorage | ClearDevStorage => Some ["clear_target_captured"; SC_COMPLETE_STEP]
  | _ => None
  end.

(** A report that leaves evidence behind. *)
Definition records_evidence (p : UserAppOperationProgress) : bool :=
  bool_decide (pr_state p = Running) && negb (json_is_null (pr_checkpoint p)).
Definition recorded (ps : list UserAppOperationProgress) : list (string * Json) :=
  omap (λ p, if records_evidence p then Some (pr_step p, pr_checkpoint p) else None) ps.

(** Serde does not decode a struct from [null]. *)
Hypothesis null_is_no_destruction : decode_destruction JNull = None.
Hypothesis null_is_no_clear : decode_clear JNull = None.

Definition storage_moves (plan : list string) (o : UserAppOperationRecord)
    (p : UserAppOperationProgress) : Prop :=
  is_failure (pr_state p) = true
  ∨ (pr_state p = Running ∧ pr_checkpoint p = JNull ∧ op_checkpoint o = JNull)
  ∨ (pr_state p = Running ∧ pr_checkpoint p ≠ JNull ∧ op_checkpoint o = JNull
     ∧ plan !! 0 = Some (pr_step p))
  ∨ (pr_checkpoint p = op_checkpoint o ∧ pr_checkpoint p ≠ JNull
     ∧ ((pr_state p = Succeeded ∧ last plan = Some (op_step o))
        ∨ (pr_state p = Running ∧ ∃ n, plan !! n = Some (op_step o)
           ∧ plan !! S n = Some (pr_step p)))).

Lemma unrecorded_running_cases o p :
  unrecorded_running o p = true →
  pr_state p = Running ∧ pr_checkpoint p = JNull ∧ op_checkpoint o = JNull.
Proof using Type.
  unfold unrecorded_running. intros [[Hr%bool_decide_eq_true Hp]%andb_true_iff Ho]%andb_true_iff.
  by destruct (pr_checkpoint p), (op_checkpoint o).
Qed.

Lemma json_is_null_true j : json_is_null j = true ↔ j = JNull.
Proof using Type. by destruct j. Qed.
Lemma json_is_null_false j : json_is_null j = false ↔ j ≠ JNull.
Proof using Type. by destruct j. Qed.

Lemma destruction_moves production plan o p :
  destruction_production (op_kind o) = Some production →
  storage_plan (op_kind o) = Some plan →
  validate_storage_destruction_progress o p = Ok tt → storage_moves plan o p.
Proof using null_is_no_destruction.
  intros Hk Hplan. unfold validate_storage_destruction_progress, result_bind, ok_or, checked, ensure, map_err.
  rewrite Hk. destruct (is_failure (pr_state p)) eqn:Hf; [by left|].
  destruct (unrecorded_running o p) eqn:Hu; [intros _; right; left; by apply unrecorded_running_cases|].
  destruct (decode_destruction (pr_checkpoint p)) as [e|] eqn:He; [|done].
  assert (pr_checkpoint p ≠ JNull) as Hp by congruence.
  destruct (destruction_validate e); [|done]. destruct (bool_decide _ && context_owns _ _ && _); [|done].
  destruct (json_is_null (op_checkpoint o)) eqn:Hn.
  { apply json_is_null_true in Hn.
    destruct (bool_decide _ && bool_decide _) eqn:Hb; [|done]. intros _. right; right; left.
    apply andb_true_iff in Hb as [?%bool_decide_eq_true Hst%bool_decide_eq_true].
    split_and!; try done. rewrite Hst. by destruct (op_kind o); simplify_eq/=. }
  destruct (bool_decide (pr_checkpoint p = _)) eqn:Hc; [|done]. apply bool_decide_eq_true in Hc.
  destruct (_ || _) eqn:Hb; [|done]. intros _. right; right; right. split_and!; [done|done|].
  apply orb_true_iff in Hb as [Hb|Hb]; apply andb_true_iff in Hb as [Hs%bool_decide_eq_true Hb]; [right|left].
  - split; [done|]. unfold destruction_step_ok in Hb.
    repeat case_bool_decide; simplify_eq/=; destruct (op_kind o); simplify_eq/=;
      repeat match goal with Hx : op_step _ = _ |- _ => rewrite Hx | Hx : pr_step _ = _ |- _ => rewrite Hx end;
      solve [by exists 0 | by exists 1].
  - split; [done|]. apply bool_decide_eq_true in Hb. rewrite Hb. by destruct (op_kind o); simplify_eq/=.
Qed.

Lemma clear_moves production plan a o p :
  clear_production (op_kind o) = Some production →
  storage_plan (op_kind o) = Some plan →
  validate_storage_clear_progress a o p = Ok tt → storage_moves plan o p.
Proof using null_is_no_clear.
  intros Hk Hplan. unfold validate_storage_clear_progress, result_bind, ok_or, checked, ensure, map_err.
  rewrite Hk. destruct (is_failure (pr_state p)) eqn:Hf; [by left|].
  destruct (unrecorded_running o p) eqn:Hu; [intros _; right; left; by apply unrecorded_running_cases|].
  destruct (decode_clear (pr_checkpoint p)) as [e|] eqn:He; [|done].
  assert (pr_checkpoint p ≠ JNull) as Hp by congruence.
  destruct (clear_validate e); [|done]. destruct (validate_identity _ _); [|done].
  destruct (context_owns _ _); [|done]. destruct (clear_scope_matches _ _ _); [|done].
  assert (plan = ["clear_target_captured"; SC_COMPLETE_STEP]) as ->
    by by destruct (op_kind o); simplify_eq/=.
  destruct (json_is_null (op_checkpoint o)) eqn:Hn.
  { apply json_is_null_true in Hn.
    destruct (bool_decide _ && bool_decide _) eqn:Hb; [|done]. intros _. right; right; left.
    apply andb_true_iff in Hb as [?%bool_decide_eq_true Hst%bool_decide_eq_true].
    split_and!; try done. by rewrite Hst. }
  destruct (bool_decide (op_checkpoint o = _)) eqn:Hc; [|done]. apply bool_decide_eq_true in Hc.
  destruct (_ || _) eqn:Hb; [|done]. intros _. right; right; right. split_and!; [done|done|].
  apply orb_true_iff in Hb as [Hb|Hb]; [right|left].
  - apply andb_true_iff in Hb as [[?%bool_decide_eq_true H1%bool_decide_eq_true]%andb_true_iff
      H2%bool_decide_eq_true]. split; [done|]. exists 0. by rewrite H1, H2.
  - apply andb_true_iff in Hb as [?%bool_decide_eq_true Hb%bool_decide_eq_true]. by rewrite Hb.
Qed.

Lemma storage_progress_cases a o p plan :
  storage_plan (op_kind o) = Some plan → validate_progress a o p = Ok tt → storage_moves plan o p.
Proof using null_is_no_destruction null_is_no_clear.
  intros Hplan. unfold validate_progress, result_bind.
  destruct (validate_deletion_progress o p); [|done].
  destruct (validate_storage_destruction_progress o p) as [[]|] eqn:Hd; [|done].
  destruct (validate_storage_clear_progress a o p) as [[]|] eqn:Hc; [|done]. intros _.
  destruct (op_kind o) eqn:Hk; try done;
    first [eapply destruction_moves; [by rewrite Hk|by rewrite Hk|done]
          |eapply clear_moves; [by rewrite Hk|by rewrite Hk|done]].
Qed.

(** Where a storage operation stands. *)
Definition storage_state (k : UserAppOperationKind) (plan : list string)
    (o : UserAppOperationRecord) (seen : list (string * Json)) : Prop :=
  op_kind o = k ∧
  ∃ n e, seen = (λ s, (s, e)) <$> take n plan
    ∧ (op_state o = Succeeded → n = length plan)
    ∧ (is_failure (op_state o) = false → op_state o ≠ Succeeded →
       (op_checkpoint o = JNull ∧ n = 0)
       ∨ (op_checkpoint o = e ∧ e ≠ JNull ∧ ∃ m, n = S m ∧ plan !! m = Some (op_step o))).

Lemma storage_plan_nodup k plan : storage_plan k = Some plan → NoDup plan.
Proof using Type. intros Hk. apply (bool_decide_unpack _). by destruct k; simplify_eq/=. Qed.

Lemma plan_next (plan : list string) (e : Json) m s :
  plan !! m = Some s → ((λ s, (s, e)) <$> take m plan) ++ [(s, e)] = (λ s, (s, e)) <$> take (S m) plan.
Proof using Type. intros Hm. by rewrite (take_S_r _ _ _ Hm), fmap_app. Qed.

Lemma storage_step k plan p a o a' o' seen :
  storage_plan k = Some plan → storage_state k plan o seen → advanced_from p a o a' o' →
  storage_state k plan o' (seen ++ recorded [p]).
Proof using null_is_no_destruction null_is_no_clear.
  intros Hplan (Hkind & n & e & -> & _ & Hopen) Hadv.
  pose proof (claim_not_recovery _ _ _ (adv_claim _ _ _ _ _ Hadv)) as Hrec.
  pose proof (adv_live _ _ _ _ _ Hadv) as Hlive.
  specialize (Hopen ltac:(by destruct (op_state o)) ltac:(by destruct (op_state o))).
  pose proof (adv_evidence _ _ _ _ _ Hadv) as Hval.
  apply (storage_progress_cases _ _ _ plan) in Hval; [|by simpl; rewrite Hkind].
  unfold storage_moves in Hval. simpl in Hval.
  rewrite (adv_record _ _ _ _ _ Hadv). split; [done|]. unfold recorded, records_evidence. simpl.
  destruct Hval as [Hf|[(Hr & Hp & Ho)|[(Hr & Hp & Ho & H0)|(Hsame & Hp & Hcase)]]].
  - exists n, e. destruct (pr_state p); try done; by rewrite app_nil_r.
  - exists n, e. rewrite Hr, Hp, app_nil_r. split_and!; [done..|].
    destruct Hopen as [[_ ->]|(Hx & Hy & _)]; [by left|congruence].
  - destruct Hopen as [[_ ->]|(Hx & Hy & _)]; [|congruence].
    apply json_is_null_false in Hp as Hp'. rewrite Hr, Hp'. simpl.
    exists 1, (pr_checkpoint p). rewrite <- (plan_next plan _ 0 _ H0). split_and!; [done..|].
    right. split_and!; [done..|]. by exists 0.
  - destruct Hopen as [[Hx _]|(Hx & Hy & m & -> & Hm)]; [congruence|].
    destruct Hcase as [(Hs & Hlast)|(Hr & n & Hn & Hn')].
    + exists (S m), e. rewrite Hs. simpl. rewrite app_nil_r. split_and!; [done| |done]. intros _.
      rewrite last_lookup in Hlast.
      assert (m = pred (length plan)) as -> by by eapply NoDup_lookup; [by eapply storage_plan_nodup|..].
      apply lookup_lt_Some in Hm. lia.
    + assert (n = m) as -> by by eapply NoDup_lookup; [by eapply storage_plan_nodup|..].
      apply json_is_null_false in Hp as Hp'. rewrite Hr, Hp'. simpl.
      exists (S (S m)), e. rewrite <- (plan_next plan _ _ _ Hn'). rewrite Hsame, Hx. split_and!; [done..|].
      right. split_and!; [done..|]. by exists (S m).
Qed.

(** Storage is destroyed only as captured.  Whatever reports are accepted
    for a storage destruction or clearing, the evidence recorded is one
    captured checkpoint that never changes, under an initial segment of the
    steps the operation has to confirm; success is recorded only when every
    step is. *)
Theorem storage_acts_on_captured_target plan a o ps a' o' :
  storage_plan (op_kind o) = Some plan →
  op_checkpoint o = JNull → op_is_terminal (op_state o) = false →
  advance_all ps (a, o) = Some (a', o') →
  ∃ n captured, recorded ps = (λ step, (step, captured)) <$> take n plan
    ∧ (op_state o' = Succeeded → take n plan = plan).
Proof using null_is_no_destruction null_is_no_clear.
  intros Hk Hnull Hlive Hrun.
  assert (storage_state (op_kind o) plan o' (recorded ps)) as (_ & n & e & Hseen & Hdone & _).
  { apply (advance_all_ind (λ s prior, storage_state (op_kind o) plan s.2 (recorded prior))
             ps (a, o) (a', o')); [| |done].
    - split; [done|]. exists 0, JNull. split_and!; [done| |by left]. simpl. by intros Hs; rewrite Hs in Hlive.
    - intros p a1 o1 a2 o2 prior Hst Hadv. unfold recorded. rewrite omap_app. by eapply storage_step. }
  exists n, e. split; [done|]. intros Hs. rewrite Hdone by done. by rewrite firstn_all.
Qed.
End storage.

(** ** Instances *)

(** The state a sequence of accepted reports leads to, for evaluation. *)
Definition sample_advance_all (ps : list UserAppOperationProgress) (s : Pair) : Pair :=
  default s (@advance_all sample_codec ps s).

Lemma deletion_stages_in_order_witness :
  let s := sample_admitted DeleteApplication (Some CmdDeleteApplication) in
  let s' := sample_advance_all sample_deletion_reports s in
  @advance_all sample_codec sample_deletion_reports s = Some s' ∧ op_state s'.2 = Succeeded
  ∧ @reported_stages sample_codec sample_deletion_reports = all_stages.
Proof.
  intros s s'.
  assert (@advance_all sample_codec sample_deletion_reports s = Some s') as Hrun by (vm_compute; reflexivity).
  assert (op_state s'.2 = Succeeded) as Hs by (vm_compute; reflexivity).
  split_and!; [exact Hrun|exact Hs|].
  refine (proj2 (@deletion_stages_in_order sample_codec eq_refl s.1 s.2 sample_deletion_reports s'.1 s'.2
                   _ _ _ _) Hs); vm_compute; reflexivity.
Defined.

(** The deletion is claimed and given up before anything is captured. *)
Lemma failed_deletion_touched_nothing_witness :
  let s := sample_admitted DeleteApplication (Some CmdDeleteApplication) in
  let ps := [sample_progress "op-1" 1 Running "claimed" JNull; sample_progress "op-1" 2 Failed "failed" JNull] in
  let s' := sample_advance_all ps s in
  app_state s.1 = Deleting ∧ @reported_stages sample_codec ps = [] ∧ app_state s'.1 = Active.
Proof.
  intros s ps s'. split; [vm_compute; reflexivity|].
  refine (@failed_deletion_touched_nothing sample_codec eq_refl s.1 s.2 ps s'.1 s'.2 _ _ _ _ _);
    vm_compute; reflexivity.
Defined.

Lemma storage_acts_on_captured_target_witness :
  let s := sample_admitted DestroyProdStorage (Some (CmdDestroyStorage true)) in
  let s' := sample_advance_all sample_destroy_reports s in
  let plan := ["storage_captured"; "production_storage_removed"; SD_COMPLETE_STEP] in
  op_state s'.2 = Succeeded
  ∧ ∃ n captured, recorded sample_destroy_reports = (λ step, (step, captured)) <$> take n plan
    ∧ (op_state s'.2 = Succeeded → take n plan = plan).
Proof.
  intros s s' plan. split; [vm_compute; reflexivity|].
  refine (@storage_acts_on_captured_target sample_codec eq_refl eq_refl plan s.1 s.2
            sample_destroy_reports s'.1 s'.2 _ _ _ _); vm_compute; reflexivity.
Defined.
