(* ===== verification/LifecycleGuards.v ===== *)
(** * Uncertain writes and competing writers

    Database operations whose effect cannot be read back stay protected once
    submitted; metadata writers compete by revision; an admission is decided by
    the operations in flight and nothing else. *)
From S2P Require Import Prelude Validation Lifecycle Evidence LifecycleDomain LifecycleStore LifecycleSafety.
From S2P Require Import LifecycleSamples LifecycleEvidence.
Import Text Identifier.
Local Open Scope rust_scope.

Section database.
Context `{CheckpointCodec}.

(** A report that moves an operation of stage type [St], read from its
    checkpoint by [stage_of], to the stage [s]. *)
Definition submits {St} (stage_of : Json → option St) (s : St)
    (ps : list UserAppOperationProgress) : Prop :=
  ∃ p, p ∈ ps ∧ pr_state p = Running ∧ stage_of (pr_checkpoint p) = Some s.

Lemma submits_snoc {St} (stage_of : Json → option St) s ps p :
  submits stage_of s (ps ++ [p]) →
  submits stage_of s ps ∨ (pr_state p = Running ∧ stage_of (pr_checkpoint p) = Some s).
Proof using Type.
  intros (q & [Hq|Hq]%elem_of_app & Hr & Hs); [left; by exists q|].
  apply list_elem_of_singleton in Hq as ->. by right.
Qed.

(** *** Passwords *)

Definition password_stage_of (j : Json) : option DatabasePasswordStage :=
  pw_stage <$> decode_password j.

(** Serde decodes neither [null] nor an object without the evidence's own
    fields. *)
Hypothesis bare_is_no_password : ∀ j,
  failure_checkpoint_preserved JNull j = true → decode_password j = None.

Lemma null_is_no_password : decode_password JNull = None.
Proof using bare_is_no_password. by apply bare_is_no_password. Qed.

(** What the validator lets through. *)
Lemma password_progress_cases o p :
  is_password_kind (op_kind o) = true →
  validate_database_password_progress o p = Ok tt →
  (password_stage_of (op_checkpoint o) = None
   ∧ ((password_stage_of (pr_checkpoint p) = None
       ∧ (is_failure (pr_state p) = true ∨ pr_state p = Running))
      ∨ (password_stage_of (pr_checkpoint p) = Some PwCaptured ∧ pr_state p = Running)))
  ∨ (∃ before after, password_stage_of (op_checkpoint o) = Some (pw_stage before)
     ∧ password_stage_of (pr_checkpoint p) = Some (pw_stage after)
     ∧ password_transition_ok (pr_state p) before after = true).
Proof using bare_is_no_password.
  intros Hk. unfold validate_database_password_progress, result_bind, ok_or, checked, map_err.
  rewrite Hk. simpl. unfold password_stage_of.
  destruct (json_is_null (op_checkpoint o)) eqn:Hn.
  - apply json_is_null_true in Hn. rewrite Hn, null_is_no_password.
    unfold password_first, result_bind, ok_or, checked, map_err, ensure. rewrite Hn. intros Hv. left.
    split; [done|]. destruct (failure_checkpoint_preserved JNull _) eqn:Hpre.
    + left. rewrite bare_is_no_password by done. split; [done|].
      destruct (is_failure (pr_state p)); [by left|]. right. simpl in Hv.
      destruct (bool_decide (pr_state p = Running)) eqn:Hr; [|done]. by apply bool_decide_eq_true in Hr.
    + right. destruct (decode_password (pr_checkpoint p)) as [e|]; [|done].
      destruct (password_validate_operation e o); [|done].
      destruct (bool_decide _ && bool_decide _) eqn:Hb; [|done].
      apply andb_true_iff in Hb as [?%bool_decide_eq_true Hb%bool_decide_eq_true]. simpl. by rewrite Hb.
  - destruct (decode_password (op_checkpoint o)) as [before|]; [|done].
    destruct (decode_password (pr_checkpoint p)) as [after|]; [|done].
    destruct (password_validate_operation before o), (password_validate_operation after o); try done.
    unfold ensure. destruct (_ && bool_decide (pw_target before = _)); [|done].
    destruct (password_transition_ok _ _ _) eqn:Ht; [|done]. intros _. right. by exists before, after.
Qed.

Lemma password_transition_cases s before after :
  password_transition_ok s before after = true →
  (s = RecoveryRequired ∧ before = after)
  ∨ (s = Failed ∧ before = after ∧ (pw_stage before = PwCaptured ∨ pw_stage before = PwCancelled))
  ∨ (s = Succeeded ∧ before = after ∧ pw_stage before = PwVerified)
  ∨ (s = Running ∧ (before = after ∨ password_step_ok (pw_stage before) (pw_stage after) = true)).
Proof using Type.
  unfold password_transition_ok. rewrite !orb_true_iff, !andb_true_iff, !bool_decide_eq_true, orb_true_iff.
  rewrite bool_decide_eq_true. intros [[[H1|[[? ?] H2]]|H3]|H4]; [by left|right; left|do 2 right; left|do 3 right]; [|tauto..].
  split_and!; [done..|]. by destruct (pw_stage before); auto.
Qed.

Definition password_state (o : UserAppOperationRecord) (ps : list UserAppOperationProgress) : Prop :=
  is_password_kind (op_kind o) = true
  ∧ (op_state o = Succeeded → password_stage_of (op_checkpoint o) = Some PwVerified)
  ∧ (op_state o = Failed → submits password_stage_of PwWriteSubmitted ps →
     password_stage_of (op_checkpoint o) = Some PwCancelled)
  ∧ (op_is_terminal (op_state o) = false → op_state o ≠ RecoveryRequired →
     submits password_stage_of PwWriteSubmitted ps →
     ∃ s, password_stage_of (op_checkpoint o) = Some s ∧ s ≠ PwCaptured).

Lemma validate_progress_password a o p :
  validate_progress a o p = Ok tt → validate_database_password_progress o p = Ok tt.
Proof using Type.
  unfold validate_progress, result_bind. destruct (validate_database_password_progress o p) as [[]|];
    by repeat case_match.
Qed.

Lemma password_step p a o a' o' ps :
  password_state o ps → advanced_from p a o a' o' → password_state o' (ps ++ [p]).
Proof using bare_is_no_password.
  intros (Hk & _ & _ & Hopen) Hadv.
  pose proof (claim_not_recovery _ _ _ (adv_claim _ _ _ _ _ Hadv)) as Hrec.
  specialize (Hopen (adv_live _ _ _ _ _ Hadv) Hrec).
  pose proof (validate_progress_password _ _ _ (adv_evidence _ _ _ _ _ Hadv)) as Hval.
  apply password_progress_cases in Hval; [|done]. simpl in Hval.
  rewrite (adv_record _ _ _ _ _ Hadv). split; [done|]. simpl.
  destruct Hval as [[Hn Hc]|(before & after & Hb & Ha & Ht)].
  - assert (¬ submits password_stage_of PwWriteSubmitted (ps ++ [p])) as Hnot.
    { intros [Hs|[_ Hs]]%submits_snoc.
      - destruct (Hopen Hs) as (s & Hs' & _). congruence.
      - destruct Hc as [[Hc _]|[Hc _]]; congruence. }
    split_and!; [|done..]. intros Hs. rewrite Hs in Hc.
    by destruct Hc as [[_ [?|?]]|[_ ?]].
  - apply password_transition_cases in Ht. rewrite Ha. rewrite Hb in Hopen.
    destruct Ht as [[Hs ->]|[(Hs & -> & Hst)|[(Hs & -> & Hst)|[Hs Ht]]]]; rewrite Hs;
      (split_and!; [try done..|]); try done.
    + intros _ [Hsub|[? _]]%submits_snoc; [|congruence].
      destruct (Hopen Hsub) as (s & Heq & Hne). destruct Hst; congruence.
    + intros _. by rewrite Hst.
    + intros _ _ Hsub. exists (pw_stage after). split; [done|].
      apply submits_snoc in Hsub as [Hsub|[_ Hsub]]; [|rewrite Ha in Hsub; congruence].
      destruct (Hopen Hsub) as (s & Heq & Hne).
      destruct Ht as [->|Ht]; [congruence|]. by destruct (pw_stage before), (pw_stage after).
Qed.

(** A submitted password write is never written off.  Once the write has
    been recorded as submitted, the operation can end as Failed only after it
    was recorded as cancelled; and it can end as Succeeded only with the new
    password recorded as verified.  Anything else stays in recovery. *)
Theorem submitted_password_write_is_resolved a o ps a' o' :
  is_password_kind (op_kind o) = true →
  op_checkpoint o = JNull → op_is_terminal (op_state o) = false →
  advance_all ps (a, o) = Some (a', o') →
  (op_state o' = Succeeded → password_stage_of (op_checkpoint o') = Some PwVerified)
  ∧ (op_state o' = Failed → submits password_stage_of PwWriteSubmitted ps →
     password_stage_of (op_checkpoint o') = Some PwCancelled).
Proof using bare_is_no_password.
  intros Hk Hnull Hlive Hrun.
  assert (password_state o' ps) as (_ & H1 & H2 & _); [|done].
  apply (advance_all_ind (λ s prior, password_state s.2 prior) ps (a, o) (a', o')); [| |done].
  - split; [done|]. assert (¬ submits password_stage_of PwWriteSubmitted []) as Hno.
    { intros (q & Hq & _). by apply elem_of_nil in Hq. }
    split_and!; [|done..]. simpl. by intros Hs; rewrite Hs in Hlive.
  - intros. by eapply password_step.
Qed.

(** *** Preparation of the production database *)

Definition preparation_stage_of (j : Json) : option DatabasePreparationStage :=
  prep_stage <$> decode_preparation j.

Hypothesis bare_is_no_preparation : ∀ j,
  failure_checkpoint_preserved JNull j = true → decode_preparation j = None.

Lemma preparation_progress_cases o p :
  op_kind o = PrepareProdDatabase →
  validate_database_preparation_progress o p = Ok tt →
  (preparation_stage_of (op_checkpoint o) = None
   ∧ ((preparation_stage_of (pr_checkpoint p) = None
       ∧ (is_failure (pr_state p) = true ∨ pr_state p = Running))
      ∨ (preparation_stage_of (pr_checkpoint p) = Some PrepCaptured ∧ pr_state p = Running)))
  ∨ (∃ before after, preparation_stage_of (op_checkpoint o) = Some (prep_stage before)
     ∧ preparation_stage_of (pr_checkpoint p) = Some (prep_stage after)
     ∧ preparation_transition_ok (pr_state p) before after = true).
Proof using bare_is_no_preparation.
  intros Hk. unfold validate_database_preparation_progress, result_bind, ok_or, checked, map_err.
  rewrite Hk. simpl. unfold preparation_stage_of.
  destruct (json_is_null (op_checkpoint o)) eqn:Hn.
  - apply json_is_null_true in Hn. rewrite Hn, (bare_is_no_preparation JNull) by done. simpl.
    intros Hv. left. split; [done|]. destruct (failure_checkpoint_preserved JNull _) eqn:Hpre.
    + left. rewrite bare_is_no_preparation by done. split; [done|].
      destruct (is_failure (pr_state p)); [by left|]. right. simpl in Hv.
      destruct (bool_decide (pr_state p = Running)) eqn:Hr; [|done]. by apply bool_decide_eq_true in Hr.
    + right. destruct (decode_preparation (pr_checkpoint p)) as [e|]; [|done].
      destruct (preparation_validate_operation e o); [|done]. unfold ensure in Hv.
      destruct (bool_decide _ && bool_decide _) eqn:Hb; [|done].
      apply andb_true_iff in Hb as [?%bool_decide_eq_true Hb%bool_decide_eq_true]. simpl. by rewrite Hb.
  - simpl. destruct (decode_preparation (pr_checkpoint p)) as [after|]; [|done].
    destruct (preparation_validate_operation after o); [|done].
    destruct (decode_preparation (op_checkpoint o)) as [before|]; [|done].
    destruct (preparation_validate_operation before o); [|done].
    unfold ensure. destruct (bool_decide _ && bool_decide _); [|done].
    destruct (preparation_transition_ok _ _ _) eqn:Ht; [|done]. intros _. right. by exists before, after.
Qed.

Lemma preparation_transition_cases s before after :
  preparation_transition_ok s before after = true →
  (s = RecoveryRequired ∧ before = after)
  ∨ (s = Failed ∧ before = after ∧ prep_stage before = PrepCaptured)
  ∨ (s = Succeeded ∧ before = after ∧ prep_stage before = PrepManagementReady)
  ∨ (s = Running ∧ (before = after ∨ preparation_step_ok (prep_stage before) (prep_stage after) = true)).
Proof using Type.
  unfold preparation_transition_ok.
  rewrite !orb_true_iff, !andb_true_iff, !orb_true_iff, !andb_true_iff, !bool_decide_eq_true. tauto.
Qed.

Definition preparation_state (o : UserAppOperationRecord) (ps : list UserAppOperationProgress) : Prop :=
  op_kind o = PrepareProdDatabase
  ∧ (op_state o = Succeeded → preparation_stage_of (op_checkpoint o) = Some PrepManagementReady)
  ∧ (op_state o = Failed → ¬ submits preparation_stage_of PrepStartSubmitted ps)
  ∧ (op_is_terminal (op_state o) = false → op_state o ≠ RecoveryRequired →
     submits preparation_stage_of PrepStartSubmitted ps →
     ∃ s, preparation_stage_of (op_checkpoint o) = Some s ∧ s ≠ PrepCaptured).

Lemma validate_progress_preparation a o p :
  validate_progress a o p = Ok tt → validate_database_preparation_progress o p = Ok tt.
Proof using Type. unfold validate_progress, result_bind. by repeat case_match. Qed.

Lemma preparation_step p a o a' o' ps :
  preparation_state o ps → advanced_from p a o a' o' → preparation_state o' (ps ++ [p]).
Proof using bare_is_no_preparation.
  intros (Hk & _ & _ & Hopen) Hadv.
  pose proof (claim_not_recovery _ _ _ (adv_claim _ _ _ _ _ Hadv)) as Hrec.
  specialize (Hopen (adv_live _ _ _ _ _ Hadv) Hrec).
  pose proof (validate_progress_preparation _ _ _ (adv_evidence _ _ _ _ _ Hadv)) as Hval.
  apply preparation_progress_cases in Hval; [|done]. simpl in Hval.
  rewrite (adv_record _ _ _ _ _ Hadv). split; [done|]. simpl.
  destruct Hval as [[Hn Hc]|(before & after & Hb & Ha & Ht)].
  - assert (¬ submits preparation_stage_of PrepStartSubmitted (ps ++ [p])) as Hnot.
    { intros [Hs|[_ Hs]]%submits_snoc.
      - destruct (Hopen Hs) as (s & Hs' & _). congruence.
      - destruct Hc as [[Hc _]|[Hc _]]; congruence. }
    split_and!; [|done..]. intros Hs. rewrite Hs in Hc.
    by destruct Hc as [[_ [?|?]]|[_ ?]].
  - apply preparation_transition_cases in Ht. rewrite Ha. rewrite Hb in Hopen.
    destruct Ht as [[Hs ->]|[(Hs & -> & Hst)|[(Hs & -> & Hst)|[Hs Ht]]]]; rewrite Hs;
      (split_and!; [try done..|]); try done.
    + intros _ [Hsub|[? _]]%submits_snoc; [|congruence].
      destruct (Hopen Hsub) as (s & Heq & Hne). congruence.
    + intros _. by rewrite Hst.
    + intros _ _ Hsub. exists (prep_stage after). split; [done|].
      apply submits_snoc in Hsub as [Hsub|[_ Hsub]]; [|rewrite Ha in Hsub; congruence].
      destruct (Hopen Hsub) as (s & Heq & Hne).
      destruct Ht as [->|Ht]; [congruence|]. by destruct (prep_stage before), (prep_stage after).
Qed.

(** A submitted database start is never written off.  The preparation of
    the production database ends as Failed only if no start was ever
    submitted, and ends as Succeeded only with the management endpoint
    recorded as ready. *)
Theorem submitted_preparation_is_resolved a o ps a' o' :
  op_kind o = PrepareProdDatabase →
  op_checkpoint o = JNull → op_is_terminal (op_state o) = false →
  advance_all ps (a, o) = Some (a', o') →
  (op_state o' = Succeeded → preparation_stage_of (op_checkpoint o') = Some PrepManagementReady)
  ∧ (op_state o' = Failed → ¬ submits preparation_stage_of PrepStartSubmitted ps).
Proof using bare_is_no_preparation.
  intros Hk Hnull Hlive Hrun.
  assert (preparation_state o' ps) as (_ & H1 & H2 & _); [|done].
  apply (advance_all_ind (λ s prior, preparation_state s.2 prior) ps (a, o) (a', o')); [| |done].
  - split; [done|]. assert (¬ submits preparation_stage_of PrepStartSubmitted []) as Hno.
    { intros (q & Hq & _). by apply elem_of_nil in Hq. }
    split_and!; [|done..]. simpl. by intros Hs; rewrite Hs in Hlive.
  - intros. by eapply preparation_step.
Qed.
End database.

(** ** Metadata *)

(** Metadata writers compete by revision.  A patch is applied only to an
    active application, of the lifecycle and at the revision it names; it sets
    exactly the fields it mentions, and it moves the revision by one unless
    nothing changes.  A refused patch leaves the record alone.  After a patch
    that changed something, every patch based on the same revision is
    refused. *)
Theorem metadata_patch_is_optimistic patch stale a r a' :
  patch_metadata patch a = (r, a') →
  match r with
  | Err _ => a' = a
  | Ok _ =>
      app_state a = Active ∧ app_id a = patch_app_id patch
      ∧ app_lifecycle_id a = patch_lifecycle_id patch
      ∧ metadata_revision a = patch_expected_revision patch
      ∧ (∃ revision, a' = with_metadata (default (app_name a) (patch_name patch))
                            (default (tenant_id a) (patch_tenant_id patch))
                            (default (space_id a) (patch_space_id patch)) revision a
         ∧ revision = if bool_decide (a' = a) then metadata_revision a else (metadata_revision a + 1)%Z)
      ∧ (a' ≠ a → patch_expected_revision stale = patch_expected_revision patch →
         is_ok (patch_metadata stale a').1 = false)
  end.
Proof.
  assert (∀ p a, wp (patch_metadata p) a
    (λ _ a', app_state a = Active ∧ app_id a = patch_app_id p
      ∧ app_lifecycle_id a = patch_lifecycle_id p ∧ metadata_revision a = patch_expected_revision p
      ∧ ∃ revision, a' = with_metadata (default (app_name a) (patch_name p))
                            (default (tenant_id a) (patch_tenant_id p))
                            (default (space_id a) (patch_space_id p)) revision a
         ∧ revision = if bool_decide (a' = a) then metadata_revision a else (metadata_revision a + 1)%Z)
    (λ _ a', a' = a)) as Hspec.
  { clear. intros p a. unfold patch_metadata. apply wp_bind, wp_get, wp_bind, wp_lift.
    unfold validate_active, ensure. case_bool_decide; [|done].
    apply wp_bind, wp_ensure. case_match eqn:Hids; [|done]. apply wp_bind, wp_ensure.
    case_match eqn:Hrev; [|done]. apply Z.eqb_eq in Hrev.
    apply andb_true_iff in Hids as [?%bool_decide_eq_true ?%bool_decide_eq_true].
    case_match eqn:Hsame.
    - apply bool_decide_eq_true in Hsame. apply wp_ret. split_and!; [done..|].
      exists (metadata_revision a). by rewrite bool_decide_eq_true_2.
    - apply wp_bind, wp_ok_or. destruct (i64_checked_succ _) as [n|] eqn:Hn; [|done].
      apply i64_checked_succ_Some in Hn as ->. apply wp_modify. split_and!; [done..|].
      eexists. split; [reflexivity|]. rewrite bool_decide_eq_false_2; [done|].
      intros Heq. apply (f_equal metadata_revision) in Heq. simpl in Heq. lia. }
  intros Heq. pose proof (Hspec patch a) as Hs. unfold wp in Hs. rewrite Heq in Hs.
  destruct r as [u|e]; [|done]. destruct Hs as (? & ? & ? & Hrev & revision & Ha' & Hr).
  split_and!; [done..|by exists revision|]. intros Hne Hst.
  pose proof (Hspec stale a') as Hs. unfold wp in Hs.
  destruct (patch_metadata stale a') as [[u2|e2] a2]; [|done].
  destruct Hs as (_ & _ & _ & Hrev' & _). rewrite bool_decide_eq_false_2 in Hr by done.
  rewrite Ha' in Hrev'. simpl in Hrev'. lia.
Qed.

(** ** Admission is decided by what is in flight *)

Section admission.
Context `{CheckpointCodec}.

Lemma load_slot_some ops a s o :
  load_slot ops a s = Ok (Some o) →
  ∃ id, slot (active_operations a) s = Some id ∧ ops !! id = Some o ∧ live o ∧ op_scope o = s.
Proof using Type.
  unfold load_slot, find_operation, result_bind, ok_or, ensure, live.
  destruct (slot _ s) as [id|]; [|done]. destruct (ops !! id) as [o'|] eqn:Ho; [|done].
  destruct (bool_decide (op_app_id o' = _)); [|done].
  destruct (_ && negb (op_is_terminal (op_state o'))) eqn:Hb; [|done]. intros; simplify_eq.
  apply andb_true_iff in Hb as [[_ Hb%bool_decide_eq_true]%andb_true_iff Hl%negb_true_iff]. eauto.
Qed.

Lemma find_blocker_some scope records scopes s o :
  find_blocker scope records scopes = Some (s, o) →
  userapp_scope_blocks_request scope s = true ∧ rec_slot records s = Some o.
Proof using Type.
  induction scopes as [|s' scopes IH]; simpl; [done|]. intros Hf.
  repeat case_match; simplify_eq; auto.
Qed.

(** The three ways a new request is decided, on the loaded slots. *)
Lemma admission_new request records now a :
  app_state a = Active → admission_request_checks request = Ok tt →
  admission_lifecycle_ok a request = true → adm_metadata request = None →
  let scope := kind_scope (adm_kind request) in
  wp (admission request None records now) a
    (λ out _, match out with
     | AdmAccepted o => find_blocker scope records scope_order = None
                        ∧ o = admitted_record a request now
     | AdmExisting o => rec_dev records = Some o ∧ joinable a request o = true
     end)
    (λ e _, ∃ s o, find_blocker scope records scope_order = Some (s, o)
            ∧ e = OperationInProgress (blocker_at s o)).
Proof using Type.
  intros Hact Hchk Hlif Hmeta scope. unfold admission. apply wp_bind, wp_lift. rewrite Hchk.
  apply wp_bind, wp_get, wp_bind, wp_ensure. rewrite Hlif. apply wp_bind, wp_lift.
  unfold validate_active. rewrite bool_decide_eq_true_2 by done. cbn [ensure]. fold scope.
  assert (∀ Q : UserAppAdmissionOutcome → UserAppLifecycleRecord → Prop,
    (∀ a', Q (AdmAccepted (admitted_record a request now)) a') →
    wp (admission_accept request now) a Q (λ _ _, False)) as Hacc.
  { intros Q HQ. unfold admission_accept. rewrite Hmeta.
    apply wp_bind, wp_ret, wp_bind, wp_get, wp_bind, wp_modify, wp_bind. unfold mwhen.
    case_match; [apply wp_modify|]; apply wp_ret; by apply HQ. }
  destruct (if bool_decide (scope = Dev) then rec_dev records else None) as [joined|] eqn:Hj.
  1: destruct (joinable a request joined) eqn:Hjoin; [apply wp_ret; by case_match|].
  all: destruct (find_blocker scope records scope_order) as [[s o]|]; [unfold wp, mfail; by exists s, o|].
  all: eapply wp_mono; [apply (Hacc (λ out _, match out with
                | AdmAccepted o => o = admitted_record a request now
                | AdmExisting _ => False end)); by intros| |done].
  all: by intros [].
Qed.

(** An admission is decided by the operations in flight.  For a well
    formed request of an active application that names no known operation or
    request and patches no metadata, and that the guards outside the
    lifecycle tables let pass, there are three outcomes and no other: it is
    accepted, and then no live operation is in a scope that conflicts with
    its own; or it joins a live EnsureBuilder of the same fingerprint; or it
    is refused, and the refusal names a live operation in a conflicting
    scope. *)
Theorem admission_decided_by_live_operations life created id a ops request input now :
  identity life created id = Ok a →
  let st := lrun ops (new_store a) in
  let scope := kind_scope (adm_kind request) in
  app_state (st_app st) = Active →
  admission_request_checks request = Ok tt →
  validate_input (adm_kind request) (adm_request_fingerprint request) (adm_command request) input = Ok tt →
  guard_database_admin (admitted_record (st_app st) request now) = Ok tt →
  admission_lifecycle_ok (st_app st) request = true →
  adm_metadata request = None → st_ops st !! adm_operation_id request = None →
  (∀ r, adm_request_id request = Some r → st_requests st !! r = None) →
  match admit_tx request input None now st with
  | Ok (AdmAccepted o, _) =>
      ∀ id' o', st_ops st !! id' = Some o' → op_is_terminal (op_state o') = false →
        userapp_scope_blocks_request scope (op_scope o') = false
  | Ok (AdmExisting o, _) =>
      st_ops st !! op_operation_id o = Some o ∧ op_is_terminal (op_state o) = false
      ∧ op_kind o = EnsureBuilder ∧ op_request_fingerprint o = adm_request_fingerprint request
  | Err (OperationInProgress b) =>
      ∃ o, st_ops st !! blk_operation_id b = Some o ∧ op_is_terminal (op_state o) = false
        ∧ userapp_scope_blocks_request scope (op_scope o) = true ∧ b = blocker o
  | Err _ => False
  end.
Proof.
  intros Ha st scope Hact Hchk Hin Hpg Hlif Hmeta Hnew Hreq.
  pose proof (lrun_ok ops _ (new_store_ok _ _ _ _ Ha)) as Hok. fold st in Hok. clearbody st.
  destruct (active_loads st Hok) as [records Hrec].
  assert (∀ s o, rec_slot records s = Some o →
    st_ops st !! op_operation_id o = Some o ∧ live o ∧ op_scope o = s) as Hload.
  { intros s o Ho. pose proof (active_slot _ _ _ s Hrec) as Hl. rewrite Ho in Hl.
    apply load_slot_some in Hl as (i & _ & Hi & Hlv & Hs).
    by destruct (ok_key _ Hok _ _ Hi) as (-> & _). }
  assert (find_duplicate st request = Ok (None, None)) as Hdup.
  { unfold find_duplicate, find_operation. rewrite Hnew.
    destruct (adm_request_id request) as [r|]; [by rewrite (Hreq r)|done]. }
  unfold admit_tx. rewrite Hin, Hdup, Hrec. simpl.
  pose proof (admission_new request records now (st_app st) Hact Hchk Hlif Hmeta) as Hs. unfold wp in Hs.
  destruct (admission request None records now (st_app st)) as [[[o|o]|e] a'].
  - destruct Hs as [Hf ->]. unfold insert_accepted. simpl. rewrite Hpg. simpl. rewrite Hnew. simpl.
    unfold record_request. destruct (adm_request_id request) as [r|]; simpl; intros id' o' Ho' Hlive;
      (destruct (userapp_scope_blocks_request scope (op_scope o')) eqn:Hb; [|done];
       pose proof (unblocked_slots _ _ _ _ _ Hrec Hf Hb) as Hno;
       by rewrite (ok_owner _ Hok _ _ Ho' Hlive) in Hno).
  - destruct Hs as [Hd Hj]. destruct (Hload Dev o Hd) as (? & ? & _).
    unfold joinable in Hj. rewrite !andb_true_iff, !bool_decide_eq_true in Hj. destruct_and! Hj.
    unfold record_request. by destruct (adm_request_id request).
  - simpl. destruct Hs as (s & o & Hf & ->). apply find_blocker_some in Hf as [Hb Ho].
    destruct (Hload s o Ho) as (? & ? & Hsc). exists o. rewrite Hsc. split_and!; try done.
    unfold blocker, blocker_at. by rewrite Hsc.
Qed.
End admission.

(** ** Instances *)

Lemma sample_bare_password j :
  failure_checkpoint_preserved JNull j = true → @decode_password sample_codec j = None.
Proof. intros Hj. simpl. by rewrite (bare_has_no_stage j Hj). Qed.
Lemma sample_bare_preparation j :
  failure_checkpoint_preserved JNull j = true → @decode_preparation sample_codec j = None.
Proof. intros Hj. simpl. by rewrite (bare_has_no_stage j Hj). Qed.

(** A write is submitted, cancelled, and only then given up. *)
Lemma submitted_password_write_is_resolved_witness :
  let s := sample_admitted ResetProdDatabasePassword (Some (CmdResetDatabasePassword true "owner")) in
  let s' := sample_advance_all sample_password_reports s in
  op_state s'.2 = Failed
  ∧ (op_state s'.2 = Failed →
     submits (@password_stage_of sample_codec) PwWriteSubmitted sample_password_reports →
     @password_stage_of sample_codec (op_checkpoint s'.2) = Some PwCancelled).
Proof.
  intros s s'. split; [vm_compute; reflexivity|].
  refine (proj2 (@submitted_password_write_is_resolved sample_codec sample_bare_password s.1 s.2
                   sample_password_reports s'.1 s'.2 _ _ _ _)); vm_compute; reflexivity.
Defined.

Lemma submitted_preparation_is_resolved_witness :
  let s := sample_admitted PrepareProdDatabase (Some CmdPrepareProdDatabase) in
  let s' := sample_advance_all sample_preparation_reports s in
  op_state s'.2 = Succeeded
  ∧ @preparation_stage_of sample_codec (op_checkpoint s'.2) = Some PrepManagementReady.
Proof.
  intros s s'. assert (op_state s'.2 = Succeeded) as Hs by (vm_compute; reflexivity).
  split; [exact Hs|].
  refine (proj1 (@submitted_preparation_is_resolved sample_codec sample_bare_preparation s.1 s.2
                   sample_preparation_reports s'.1 s'.2 _ _ _ _) Hs); vm_compute; reflexivity.
Defined.

Definition sample_patch (name : string) : UserAppMetadataPatch :=
  {| patch_app_id := "app"; patch_lifecycle_id := "life-1"; patch_expected_revision := 1;
     patch_name := Some (Some name); patch_tenant_id := None; patch_space_id := None |}.

(** Two writers rename the application from the same revision. *)
Lemma metadata_patch_is_optimistic_witness :
  let a' := (patch_metadata (sample_patch "one") sample_app).2 in
  app_name a' = Some "one" ∧ metadata_revision a' = 2%Z
  ∧ is_ok (patch_metadata (sample_patch "two") a').1 = false.
Proof.
  intros a'. split_and!; [vm_compute; reflexivity..|].
  refine (proj2 (proj2 (proj2 (proj2 (proj2
    (metadata_patch_is_optimistic (sample_patch "one") (sample_patch "two") sample_app (Ok tt) a' _)))))
    _ eq_refl); vm_compute; [reflexivity|discriminate].
Defined.

(** Stopping the builder is refused while it is being ensured. *)
Lemma admission_decided_by_live_operations_witness :
  let ensure := sample_admission "op-1" EnsureBuilder None in
  let request := sample_admission "op-2" StopBuilder (Some CmdStopBuilder) in
  let st := @lrun sample_codec [LAdmit ensure None None 1] (new_store sample_app) in
  match admit_tx request None None 2 st with
  | Err (OperationInProgress b) =>
      ∃ o, st_ops st !! blk_operation_id b = Some o ∧ op_is_terminal (op_state o) = false
        ∧ userapp_scope_blocks_request Dev (op_scope o) = true ∧ b = blocker o
  | _ => False
  end.
Proof.
  intros ensure request st.
  pose proof (@admission_decided_by_live_operations sample_codec "life-1" 0 "app" sample_app
    [LAdmit ensure None None 1] request None 2 sample_identity_ok eq_refl eq_refl eq_refl eq_refl
    eq_refl eq_refl eq_refl (λ r (Hr : None = Some r), False_ind _ ltac:(discriminate Hr))) as Hw.
  exact Hw.
Defined.
