(* ===== verification/Manifest.v ===== *)
(** * Workspace manifests ([workspace-manifest/src])

    An application's workspace declares its services in one
    [workspace.manifest.toml] and one [project.manifest.toml] per module.  This
    file has the manifest types ([types.rs]), the issues a check reports
    ([validation/issue.rs]) and the checks of one project and of the workspace
    ([validation/project.rs], [validation/startup.rs]).  Issues keep their
    location and message; the repair hints and the rendering of issues into
    text are left out, so an error carries the issues it is rendered from.
    Paths are Unix paths. *)
From stdpp Require Import sorting.
From S2P Require Import Prelude Ordered Validation.
From Stdlib Require Import Ascii.
Import Text.
Local Open Scope rust_scope.

(** ** Text *)

(** [s.contains(needle)]. *)
Fixpoint str_contains (needle s : string) : bool :=
  starts_with needle s ||
  match s with
  | EmptyString => false
  | String _ s => str_contains needle s
  end.

(** A path cut at its separators. *)
Fixpoint split_slash (acc s : string) : list string :=
  match s with
  | EmptyString => [acc]
  | String c s =>
      if Ascii.eqb c "/"%char then acc :: split_slash EmptyString s
      else split_slash (acc +:+ String c EmptyString) s
  end.

(** ** Types *)

Inductive PingapMode := Managed | Extend | Custom.
Inductive ProjectType := Node | Java | Python | Go | Rust | Static.
Inductive ProjectKind := Web | Worker.
Inductive StartupProbe := Http | Tcp | Process.
Inductive LogFormat := Jsonl | TextLog.
#[global] Instance PingapMode_eq_dec : EqDecision PingapMode.
Proof. solve_decision. Defined.
#[global] Instance ProjectType_eq_dec : EqDecision ProjectType.
Proof. solve_decision. Defined.
#[global] Instance ProjectKind_eq_dec : EqDecision ProjectKind.
Proof. solve_decision. Defined.
#[global] Instance StartupProbe_eq_dec : EqDecision StartupProbe.
Proof. solve_decision. Defined.
#[global] Instance LogFormat_eq_dec : EqDecision LogFormat.
Proof. solve_decision. Defined.

Record WorkspaceMeta := { ws_name : string; ws_description : option string }.
Record PingapSection := { pg_mode : PingapMode; pg_config : option string }.
Record WorkspaceHealthSection := { bridge_service : option string }.
Record WorkspaceManifest := {
  ws_schema_version : Z;
  workspace : WorkspaceMeta;
  pingap : PingapSection;
  ws_health : WorkspaceHealthSection;
}.

Record ProjectMeta := {
  meta_service_id : string;
  meta_name : string;
  meta_type : ProjectType;
  meta_kind : ProjectKind;
  meta_enabled : bool;
}.
Record BuildSection := { build_command : list string; build_artifact : string }.
Record DevbuildSection := { devbuild_command : list string }.
Record DevrunSection := { devrun_command : list string }.
Record RunSection := {
  run_command : list string;
  run_migrate : list string;
  run_depends_on : list string;
  shutdown_timeout_seconds : Z;
}.
Record HealthSection := {
  startup_probe : option StartupProbe;
  startup_path : string;
  readiness_path : string;
  liveness_path : string;
  startup_timeout_seconds : Z;
}.
Record ProxySection := {
  px_path : string;
  px_strip_prefix : bool;
  px_dev_strip_prefix : option bool;
  px_plugins : list string;
  px_upstream_includes : list string;
}.
Record LogSource := {
  log_id : string;
  log_glob : string;
  log_format : LogFormat;
  multiline_start_pattern : option string;
}.
Record ProjectManifest := {
  pj_schema_version : Z;
  pj_project : ProjectMeta;
  pj_build : BuildSection;
  pj_devbuild : option DevbuildSection;
  pj_run : RunSection;
  pj_devrun : option DevrunSection;
  pj_health : HealthSection;
  pj_proxy : option ProxySection;
  pj_logs : list LogSource;
  pj_env : gmap string string;
}.
Record DiscoveredProject := { dir : string; manifest : ProjectManifest }.

Definition service_id (p : DiscoveredProject) : string :=
  meta_service_id (pj_project (manifest p)).
Definition is_enabled (p : DiscoveredProject) : bool :=
  meta_enabled (pj_project (manifest p)).
Definition depends_on (p : DiscoveredProject) : list string :=
  run_depends_on (pj_run (manifest p)).

Definition run_default : RunSection :=
  {| run_command := []; run_migrate := []; run_depends_on := []; shutdown_timeout_seconds := 30 |}.
Definition health_default : HealthSection :=
  {| startup_probe := None; startup_path := "/health"; readiness_path := "/health";
     liveness_path := "/health"; startup_timeout_seconds := 25 |}.

(** The three ways a development build is chosen. *)
Definition devbuild_argv (m : ProjectManifest) : option (list string) :=
  match pj_devbuild m with
  | Some d => Some (devbuild_command d)
  | None => if is_some (pj_devrun m) then None else Some (build_command (pj_build m))
  end.

Definition effective_strip_prefix (p : ProxySection) (using_devrun : bool) : bool :=
  if using_devrun then default (px_strip_prefix p) (px_dev_strip_prefix p)
  else px_strip_prefix p.

Definition SCHEMA_VERSION : Z := 1.
Definition PROCESS_STARTUP_OBSERVATION_SECONDS : Z := 5.
Definition STARTUP_PROBE_CAPABILITY : string := "startup-probe-v1".

(** ** Issues *)

Record ValidationIssue := {
  vi_file : option string;
  vi_service : option string;
  vi_field : option string;
  vi_message : string;
}.

Definition issue_new (message : string) : ValidationIssue :=
  {| vi_file := None; vi_service := None; vi_field := None; vi_message := message |}.
Definition at_file (file : string) (i : ValidationIssue) : ValidationIssue :=
  {| vi_file := Some file; vi_service := vi_service i; vi_field := vi_field i;
     vi_message := vi_message i |}.
Definition at_service (service : string) (i : ValidationIssue) : ValidationIssue :=
  {| vi_file := vi_file i; vi_service := Some service; vi_field := vi_field i;
     vi_message := vi_message i |}.
Definition at_field (field : string) (i : ValidationIssue) : ValidationIssue :=
  {| vi_file := vi_file i; vi_service := vi_service i; vi_field := Some field;
     vi_message := vi_message i |}.
Definition manifest_file_of (d : string) : string := d +:+ "/project.manifest.toml".

(** [ManifestError::Validation] is the rendering of these issues. *)
Inductive ManifestError :=
  | ParseError
  | ValidationError (issues : list ValidationIssue).

(** [issues.into_iter().next().map(Validation).map_or(Ok(()), Err)] *)
Definition first_issue (issues : list ValidationIssue) : result unit ManifestError :=
  match issues with
  | [] => Ok tt
  | i :: _ => Err (ValidationError [i])
  end.

(** [if b { issues.push(i) }] and [if let Some(i) = .. { issues.push(i) }]. *)
Definition issue_if (b : bool) (i : ValidationIssue) : list ValidationIssue :=
  if b then [i] else [].
Definition issue_opt (o : option ValidationIssue) : list ValidationIssue := option_list o.

(** ** Field checks ([validation/project.rs]) *)

Definition is_label_byte (c : ascii) : bool := is_ascii_lowercase c || is_ascii_digit c.
Definition is_dns1123_label (value : string) : bool :=
  let bytes := String.list_ascii_of_string value in
  match bytes with
  | [] => false
  | first :: _ =>
      (length bytes <=? 63)
      && is_label_byte first
      && from_option is_label_byte false (last bytes)
      && forallb (λ b, is_label_byte b || Ascii.eqb b "-"%char) bytes
  end.

Definition validate_service_id (value : string) : result unit ManifestError :=
  if is_dns1123_label value then Ok tt
  else Err (ValidationError
    [issue_new ("project.service_id must be a DNS-1123 label: " +:+ value)]).

Definition nul : string := String (ascii_of_nat 0) EmptyString.
Definition validate_argv_issue (argv : list string) (field : string) : option ValidationIssue :=
  if bool_decide (argv = [])
     || existsb (λ arg, str_is_empty arg || str_contains nul arg) argv
  then Some (issue_new
    (field +:+ " must be a non-empty argv array without empty/NUL arguments"))
  else None.

Definition relative_path_issue (value field : string) : option ValidationIssue :=
  if trim_is_empty value || starts_with "/" value
     || existsb (λ c, bool_decide (c = "..")) (split_slash EmptyString value)
  then Some (issue_new (field +:+ " must be a safe relative path: " +:+ value))
  else None.

Definition http_path_issue (value field : string) : option ValidationIssue :=
  if negb (starts_with "/" value) || str_contains ".." value
     || str_contains "?" value || str_contains "#" value
  then Some (issue_new (field +:+
    " must be an absolute URL path without traversal/query/fragment: " +:+ value))
  else None.

Definition is_reserved_env (key : string) : bool :=
  bool_decide (key ∈ ["PORT"; "HOST"; "HOSTNAME"; "APP_LOG_DIR"; "APP_SERVICE_ID";
                      "APP_RELEASE_ID"; "POSTGRES_USER"; "POSTGRES_PASSWORD"; "POSTGRES_DB"])
  || starts_with "RCODER_" key.

(** ** Log sources ([validation/topology.rs]) *)

Definition log_source_issues (seen : gset string) (source : LogSource) : list ValidationIssue :=
  issue_if (negb (is_dns1123_label (log_id source)))
    (at_field ("logs.sources[id=" +:+ log_id source +:+ "].id")
       (issue_new ("logs source id must be a DNS-1123 label: " +:+ log_id source)))
  ++ issue_if (bool_decide (log_id source ∈ seen))
       (at_field "logs.sources.id"
          (issue_new ("duplicate logs source id: " +:+ log_id source)))
  ++ issue_opt (at_field "logs.sources.glob" <$>
       relative_path_issue (log_glob source) "logs.sources.glob")
  ++ issue_if (str_contains "/" (log_glob source) || str_contains "\" (log_glob source))
       (at_field "logs.sources.glob"
          (issue_new ("logs.sources.glob must be relative to the service log directory: "
                      +:+ log_glob source)))
  ++ issue_if (bool_decide (log_format source = Jsonl) && is_some (multiline_start_pattern source))
       (at_field "logs.sources.multiline_start_pattern"
          (issue_new "multiline_start_pattern is only valid for text logs")).

Fixpoint collect_log_issues_from (seen : gset string) (sources : list LogSource)
    : list ValidationIssue :=
  match sources with
  | [] => []
  | s :: rest => log_source_issues seen s ++ collect_log_issues_from ({[log_id s]} ∪ seen) rest
  end.
Definition collect_log_issues (sources : list LogSource) : list ValidationIssue :=
  collect_log_issues_from ∅ sources.

(** ** Startup rules ([validation/startup.rs]) *)

Definition process_probe_issues (kind : ProjectKind) (type : ProjectType)
    (health : HealthSection) (has_proxy : bool) : list ValidationIssue :=
  issue_if (bool_decide (kind ≠ Worker) || bool_decide (type = Static) || has_proxy)
    (at_field "health.startup_probe"
       (issue_new "process startup probe requires a non-static worker without [proxy]"))
  ++ issue_if (startup_timeout_seconds health <=? PROCESS_STARTUP_OBSERVATION_SECONDS)%Z
       (at_field "health.startup_timeout_seconds"
          (issue_new "process startup timeout must be greater than the 5 second observation interval"))
  ++ issue_if (existsb (λ path, negb (bool_decide (path = "/health")))
                 [startup_path health; readiness_path health; liveness_path health])
       (at_field "health.startup_probe"
          (issue_new "process startup probe must not declare HTTP health paths; remove the path fields")).

Definition collect_startup_issues (kind : ProjectKind) (type : ProjectType)
    (health : HealthSection) (has_proxy : bool) (run : RunSection)
    (devrun : option DevrunSection) : list ValidationIssue :=
  match startup_probe health with
  | None => []
  | Some probe =>
      issue_if (startup_timeout_seconds health =? 0)%Z
        (at_field "health.startup_timeout_seconds"
           (issue_new "health.startup_timeout_seconds must be greater than zero"))
      ++ issue_if (bool_decide (type = Static))
           (at_field "health.startup_probe"
              (issue_new "static services use built-in hosting; startup_probe requires a process service"))
      ++ (if bool_decide (probe = Process) then process_probe_issues kind type health has_proxy else [])
      ++ (if bool_decide (type = Static) then []
          else issue_opt (at_field "run.command" <$>
                 validate_argv_issue (run_command run) "run.command"))
      ++ match devrun with
         | Some d => issue_opt (at_field "devrun.command" <$>
                       validate_argv_issue (devrun_command d) "devrun.command")
         | None => []
         end
  end.

(** The part of a service the workspace rules look at: its id, kind and probe. *)
Definition RuleService : Type := string * ProjectKind * option StartupProbe.

Definition bridge_issues (bridge : option string) (services : list RuleService)
    : list ValidationIssue :=
  flat_map (λ '(id, _, probe),
    issue_if (bool_decide (probe = Some Process) && opt_is bridge id)
      (at_field "health.bridge_service" (at_service id (at_file "workspace.manifest.toml"
         (issue_new ("bridge_service must not reference process worker '" +:+ id +:+ "'"))))))
    services.
Definition count_kind (k : ProjectKind) (services : list RuleService) : nat :=
  length (filter (λ s : RuleService, s.1.2 = k) services).

Definition collect_workspace_rules (mode : PingapMode) (bridge : option string)
    (services : list RuleService) : list ValidationIssue :=
  bridge_issues bridge services
  ++ issue_if (bool_decide (mode = Managed) && (0 <? count_kind Worker services)
               && (count_kind Web services =? 0))
       (at_field "pingap.mode" (at_file "workspace.manifest.toml"
          (issue_new "managed mode requires a web service; a worker-only workspace is not supported"))).

Definition validate_workspace_rules (mode : PingapMode) (bridge : option string)
    (services : list RuleService) : result unit ManifestError :=
  first_issue (collect_workspace_rules mode bridge services).

Definition rule_service (p : DiscoveredProject) : RuleService :=
  (service_id p, meta_kind (pj_project (manifest p)), startup_probe (pj_health (manifest p))).
Definition collect_workspace_startup_issues (w : WorkspaceManifest)
    (projects : list DiscoveredProject) : list ValidationIssue :=
  collect_workspace_rules (pg_mode (pingap w)) (bridge_service (ws_health w))
    (rule_service <$> filter (λ p, is_enabled p = true) projects).
Definition validate_workspace_startup (w : WorkspaceManifest)
    (projects : list DiscoveredProject) : result unit ManifestError :=
  first_issue (collect_workspace_startup_issues w projects).

(** ** One project ([validate_project_at]) *)

Definition schema_issues (version : Z) : list ValidationIssue :=
  issue_if (negb (version =? SCHEMA_VERSION)%Z)
    (at_field "schema_version"
       (issue_new ("unsupported schema_version " +:+ pretty version
                   +:+ "; expected " +:+ pretty SCHEMA_VERSION))).

Definition argv_issues (argv : list string) (field : string) : list ValidationIssue :=
  issue_opt (at_field field <$> validate_argv_issue argv field).

(** Identity and commands. *)
Definition project_identity_issues (m : ProjectManifest) : list ValidationIssue :=
  let project := pj_project m in
  schema_issues (pj_schema_version m)
  ++ issue_if (negb (is_dns1123_label (meta_service_id project)))
       (at_field "project.service_id"
          (issue_new ("project.service_id must be a DNS-1123 label (lowercase alphanumeric with '-', ≤63 chars): "
                      +:+ meta_service_id project)))
  ++ issue_if (trim_is_empty (meta_name project))
       (at_field "project.name" (issue_new "project.name must not be empty")).

Definition static_issues (m : ProjectManifest) : list ValidationIssue :=
  issue_if (negb (bool_decide (run_command (pj_run m) = [])))
    (at_field "run.command"
       (issue_new "static service must not declare [run].command (no process: content is served by the built-in static host)"))
  ++ issue_if (negb (bool_decide (run_migrate (pj_run m) = [])))
       (at_field "run.migrate" (issue_new "static service must not declare [run].migrate")).

Definition project_command_issues (m : ProjectManifest) : list ValidationIssue :=
  argv_issues (build_command (pj_build m)) "build.command"
  ++ match pj_devbuild m with
     | Some d => argv_issues (devbuild_command d) "devbuild.command"
     | None => []
     end
  ++ (if bool_decide (meta_type (pj_project m) = Static) then static_issues m
      else argv_issues (run_command (pj_run m)) "run.command")
  ++ match pj_devrun m with
     | Some d => argv_issues (devrun_command d) "devrun.command"
     | None => []
     end
  ++ (if bool_decide (run_migrate (pj_run m) = []) then []
      else argv_issues (run_migrate (pj_run m)) "run.migrate")
  ++ issue_opt (at_field "build.artifact" <$>
       relative_path_issue (build_artifact (pj_build m)) "build.artifact").

(** Timeouts, routes and health paths. *)
Definition project_serving_issues (m : ProjectManifest) : list ValidationIssue :=
  issue_if (shutdown_timeout_seconds (pj_run m) =? 0)%Z
    (at_field "run.shutdown_timeout_seconds"
       (issue_new "run.shutdown_timeout_seconds must be greater than zero"))
  ++ issue_if (startup_timeout_seconds (pj_health m) =? 0)%Z
       (at_field "health.startup_timeout_seconds"
          (issue_new "health.startup_timeout_seconds must be greater than zero"))
  ++ issue_if (bool_decide (meta_kind (pj_project m) = Worker) && is_some (pj_proxy m))
       (at_field "proxy" (issue_new "worker service must not declare [proxy]"))
  ++ match pj_proxy m with
     | Some proxy => issue_opt (at_field "proxy.path" <$> http_path_issue (px_path proxy) "proxy.path")
     | None => []
     end
  ++ flat_map (λ '(field, path), issue_opt (at_field field <$> http_path_issue path field))
       [("health.startup_path", startup_path (pj_health m));
        ("health.readiness_path", readiness_path (pj_health m));
        ("health.liveness_path", liveness_path (pj_health m))].

Definition project_env_issues (m : ProjectManifest) : list ValidationIssue :=
  flat_map (λ key, issue_if (is_reserved_env key)
      (at_field ("env." +:+ key) (issue_new ("env key is reserved by the runtime: " +:+ key))))
    (btree_keys (pj_env m)).

Definition locate (m : ProjectManifest) (d : string) (i : ValidationIssue) : ValidationIssue :=
  at_service (meta_service_id (pj_project m))
    (if str_is_empty d then i else at_file (manifest_file_of d) i).

Definition validate_project_at (m : ProjectManifest) (d : string) : list ValidationIssue :=
  locate m d <$>
    collect_startup_issues (meta_kind (pj_project m)) (meta_type (pj_project m)) (pj_health m)
      (is_some (pj_proxy m)) (pj_run m) (pj_devrun m)
    ++ project_identity_issues m
    ++ project_command_issues m
    ++ project_serving_issues m
    ++ collect_log_issues (pj_logs m)
    ++ project_env_issues m.

Definition validate_project (m : ProjectManifest) : result unit ManifestError :=
  first_issue (validate_project_at m EmptyString).

(** ** The workspace *)

Definition pingap_issues (s : PingapSection) : list ValidationIssue :=
  match pg_mode s with
  | Managed =>
      issue_if (is_some (pg_config s))
        (at_field "pingap.config" (issue_new "pingap.config is not allowed in managed mode"))
  | Extend | Custom =>
      issue_opt (at_field "pingap.config" <$>
        relative_path_issue (default EmptyString (pg_config s)) "pingap.config")
  end.

Definition collect_workspace_issues (w : WorkspaceManifest) (file : string)
    : list ValidationIssue :=
  at_file file <$>
    schema_issues (ws_schema_version w)
    ++ issue_if (trim_is_empty (ws_name (workspace w)))
         (at_field "workspace.name" (issue_new "workspace.name must not be empty"))
    ++ pingap_issues (pingap w).

Definition validate_workspace (w : WorkspaceManifest) : result unit ManifestError :=
  first_issue (collect_workspace_issues w "workspace.manifest.toml").

(** ** Lemmas *)

Lemma issue_if_nil b i : issue_if b i = [] ↔ b = false.
Proof. by destruct b. Qed.
Lemma first_issue_ok issues : first_issue issues = Ok tt ↔ issues = [].
Proof. by destruct issues. Qed.
