(* ===== verification/ManifestTopology.v ===== *)
(** * Services and their dependencies ([workspace-manifest/src/validation/topology.rs])

    Uniqueness of service ids and routes, closure of [depends_on], and Kahn's
    sort, which fixes the order in which services are locked and started.  The
    [while] loop of the sort runs with as much fuel as there are services left;
    [topo_loop_total] shows that it never runs out, and [topo_sort] takes that
    proof, so it returns what the loop returns and nothing else. *)
From stdpp Require Import sorting.
From S2P Require Import Prelude Ordered Validation Manifest.
From Stdlib Require Import Ascii.
Import Text.
Local Open Scope rust_scope.

Definition quoted (s : string) : string :=
  String (ascii_of_nat 34) EmptyString +:+ s +:+ String (ascii_of_nat 34) EmptyString.

Definition enabled_projects (projects : list DiscoveredProject) : list DiscoveredProject :=
  filter (λ p, is_enabled p = true) projects.

(** ** Kahn's sort *)

(** The dependencies of the enabled services, without those that point outside. *)
Definition dependency_map (enabled : list DiscoveredProject) : gmap string (gset string) :=
  let ids : gset string := list_to_set (service_id <$> enabled) in
  btree_collect ((λ p, (service_id p, filter (.∈ ids) (list_to_set (depends_on p)) : gset string))
                 <$> enabled).

(** One round: the services whose dependencies are all in [done]. *)
Definition is_ready (remaining : gmap string (gset string)) (done : list string) (id : string)
    : bool :=
  match remaining !! id with
  | Some dependencies => bool_decide (set_Forall (.∈ done) dependencies)
  | None => false
  end.
Definition ready_services (remaining : gmap string (gset string)) (done : list string)
    : list string :=
  filter (λ id, is_ready remaining done id = true) (btree_keys remaining).

Definition remove_services (ids : list string) (remaining : gmap string (gset string))
    : gmap string (gset string) := foldl (λ m id, delete id m) remaining ids.

(** [while !remaining.is_empty() { .. }]; [None] when the fuel does not last. *)
Fixpoint topo_loop (fuel : nat) (remaining : gmap string (gset string)) (done : list string)
    : option (result (list string) (list string)) :=
  if bool_decide (remaining = ∅) then Some (Ok done) else
  match fuel with
  | O => None
  | S fuel =>
      let ready := ready_services remaining done in
      if bool_decide (ready = []) then Some (Err (btree_keys remaining))
      else topo_loop fuel (remove_services ready remaining) (done ++ ready)
  end.

(** A result with the proof that there is one. *)
Definition expect {A} (o : option A) : o ≠ None → A :=
  match o with Some a => λ _, a | None => λ H, False_rect A (H eq_refl) end.

Lemma expect_Some {A} (o : option A) (H : o ≠ None) a : o = Some a → expect o H = a.
Proof. intros ->. done. Qed.
Lemma expect_eq {A} (o : option A) (H : o ≠ None) : o = Some (expect o H).
Proof. by destruct o. Qed.

Lemma remove_services_subset ids remaining : remove_services ids remaining ⊆ remaining.
Proof.
  revert remaining. induction ids as [|i ids IH]; intros m; [done|].
  etrans; [apply (IH (delete i m))|]. apply delete_subseteq.
Qed.
Lemma remove_services_lookup ids remaining k :
  remove_services ids remaining !! k = if bool_decide (k ∈ ids) then None else remaining !! k.
Proof.
  revert remaining. induction ids as [|i ids IH]; intros m; [done|].
  change (remove_services (i :: ids) m) with (remove_services ids (delete i m)). rewrite IH.
  destruct (decide (k = i)) as [->|Hne].
  - rewrite lookup_delete_eq. repeat case_bool_decide; set_solver.
  - rewrite lookup_delete_ne by done. repeat case_bool_decide; set_solver.
Qed.

Lemma ready_in_remaining remaining done id :
  id ∈ ready_services remaining done → is_Some (remaining !! id).
Proof. unfold ready_services. rewrite list_elem_of_filter. intros [_ H]. by apply elem_of_btree_keys. Qed.

Lemma remove_ready_size remaining done :
  ready_services remaining done ≠ [] →
  size (remove_services (ready_services remaining done) remaining) < size remaining.
Proof.
  intros Hne. apply map_subset_size. apply map_subset_alt. split; [apply remove_services_subset|].
  destruct (ready_services remaining done) as [|i r] eqn:Hr; [done|].
  assert (i ∈ ready_services remaining done) as Hi by (rewrite Hr; left).
  exists i. split; [|by apply (ready_in_remaining _ done)].
  rewrite remove_services_lookup. rewrite bool_decide_true by left. done.
Qed.

(** The loop ends: every round removes at least one service. *)
Lemma topo_loop_total fuel remaining done :
  size remaining ≤ fuel → topo_loop fuel remaining done ≠ None.
Proof.
  revert remaining done. induction fuel as [|fuel IH]; intros m acc Hsz; simpl;
    (case_bool_decide as Hm; [discriminate|]).
  - destruct Hm. apply map_size_empty_iff. lia.
  - case_bool_decide as Hr; [discriminate|]. apply IH. pose proof (remove_ready_size _ _ Hr). lia.
Qed.

Definition topo_sort (enabled : list DiscoveredProject) : result (list string) (list string) :=
  expect (topo_loop (size (dependency_map enabled)) (dependency_map enabled) [])
    (topo_loop_total _ _ _ (le_n _)).

(** ** Issues across services *)

(** The state of the first loop: the ids and routes seen so far. *)
Record TopologyScan := {
  sc_issues : list ValidationIssue;
  sc_ids : gmap string DiscoveredProject;
  sc_routes : gmap string DiscoveredProject;
  sc_catch_all_reported : bool;
}.

Definition has_route (path : string) (p : DiscoveredProject) : bool :=
  match pj_proxy (manifest p) with
  | Some proxy => bool_decide (px_path proxy = path)
  | None => false
  end.

Definition scan_id (project : DiscoveredProject) (s : TopologyScan) : TopologyScan :=
  let id := service_id project in
  match sc_ids s !! id with
  | Some previous =>
      {| sc_issues := sc_issues s ++
           [at_field "project.service_id" (at_service id (at_file (manifest_file_of (dir project))
             (issue_new ("duplicate service_id " +:+ quoted id +:+ " declared by two modules: "
                         +:+ dir previous +:+ " and " +:+ dir project))))];
         sc_ids := sc_ids s; sc_routes := sc_routes s;
         sc_catch_all_reported := sc_catch_all_reported s |}
  | None =>
      {| sc_issues := sc_issues s; sc_ids := <[id := project]> (sc_ids s);
         sc_routes := sc_routes s; sc_catch_all_reported := sc_catch_all_reported s |}
  end.

Definition scan_route (project : DiscoveredProject) (path : string) (s : TopologyScan)
    : TopologyScan :=
  match sc_routes s !! path with
  | Some previous =>
      {| sc_issues := sc_issues s ++
           [at_field "proxy.path" (at_service (service_id project)
             (at_file (manifest_file_of (dir project))
               (issue_new ("duplicate [proxy].path " +:+ quoted path +:+ " declared by services "
                  +:+ quoted (service_id previous) +:+ " (dir " +:+ dir previous +:+ ") and "
                  +:+ quoted (service_id project) +:+ " (dir " +:+ dir project +:+ ")"))))];
         sc_ids := sc_ids s; sc_routes := sc_routes s;
         sc_catch_all_reported := sc_catch_all_reported s |}
  | None =>
      {| sc_issues := sc_issues s; sc_ids := sc_ids s;
         sc_routes := <[path := project]> (sc_routes s);
         sc_catch_all_reported := sc_catch_all_reported s |}
  end.

(** Two services on the root path are reported once. *)
Definition scan_catch_all (enabled : list DiscoveredProject) (project : DiscoveredProject)
    (path : string) (s : TopologyScan) : TopologyScan :=
  if bool_decide (path = "/") && negb (sc_catch_all_reported s) then
    match list_find (λ other, service_id other ≠ service_id project ∧ has_route "/" other = true)
            enabled with
    | Some (_, other) =>
        {| sc_issues := sc_issues s ++
             [at_field "proxy.path" (at_file (manifest_file_of (dir project))
               (issue_new ("multiple catch-all routes (proxy.path = " +:+ quoted "/" +:+ "): "
                  +:+ quoted (service_id other) +:+ " (dir " +:+ dir other +:+ ") and "
                  +:+ quoted (service_id project) +:+ " (dir " +:+ dir project +:+ ")")))];
           sc_ids := sc_ids s; sc_routes := sc_routes s; sc_catch_all_reported := true |}
    | None => s
    end
  else s.

Definition scan_project (enabled : list DiscoveredProject) (s : TopologyScan)
    (project : DiscoveredProject) : TopologyScan :=
  let s := scan_id project s in
  match pj_proxy (manifest project) with
  | Some proxy =>
      scan_catch_all enabled project (px_path proxy) (scan_route project (px_path proxy) s)
  | None => s
  end.

Definition scan_init : TopologyScan :=
  {| sc_issues := []; sc_ids := ∅; sc_routes := ∅; sc_catch_all_reported := false |}.
Definition scan_projects (enabled : list DiscoveredProject) : TopologyScan :=
  foldl (scan_project enabled) scan_init enabled.

Definition dependency_issues {V} (ids : gmap string V) (project : DiscoveredProject)
    : list ValidationIssue :=
  flat_map (λ dependency,
    if bool_decide (dependency = service_id project) then
      [at_field "run.depends_on" (at_service (service_id project)
        (at_file (manifest_file_of (dir project))
          (issue_new ("service " +:+ quoted (service_id project) +:+ " depends on itself"))))]
    else
      issue_if (is_none (ids !! dependency))
        (at_field "run.depends_on" (at_service (service_id project)
          (at_file (manifest_file_of (dir project))
            (issue_new ("service " +:+ quoted (service_id project)
               +:+ " depends on missing or disabled service " +:+ quoted dependency))))))
    (depends_on project).

Definition cycle_issues (enabled : list DiscoveredProject) : list ValidationIssue :=
  match topo_sort enabled with
  | Ok _ => []
  | Err cycle_ids =>
      [at_field "run.depends_on"
        (issue_new ("service dependency cycle detected (or blocked by a cycle): "
                    +:+ String.concat ", " cycle_ids))]
  end.

Definition collect_topology_issues (projects : list DiscoveredProject) : list ValidationIssue :=
  let enabled := enabled_projects projects in
  if bool_decide (enabled = []) then
    [at_file "workspace.manifest.toml"
      (issue_new "workspace has no enabled services (all projects disabled or none discovered)")]
  else
    let scan := scan_projects enabled in
    sc_issues scan ++ flat_map (dependency_issues (sc_ids scan)) enabled ++ cycle_issues enabled.

Definition validate_topology (projects : list DiscoveredProject)
    : result (list string) ManifestError :=
  match collect_topology_issues projects with
  | i :: _ => Err (ValidationError [i])
  | [] =>
      map_err (λ _, ValidationError
                 [issue_new "internal: topology passed validation but sort found a cycle"])
        (topo_sort (enabled_projects projects))
  end.
