(* ===== verification/ReleaseLock.v ===== *)
(** * The release lock ([workspace-manifest/src/release_lock.rs], [types.rs])

    A release fixes the services of a workspace: their order, their internal
    ports and a copy of each manifest.  [build_release_lock] makes the lock from
    the discovered projects; [load_release_lock] is the only way it is read
    back.  TOML is a library: its readers are the parameter [TomlReader], and
    [TomlLaws] is what is assumed of them.  The probing [while] loop of the port allocation runs with one
    step of fuel per port of the range; [allocate_loop_total] shows that it ends
    within it for every admitted number of services. *)
From stdpp Require Import sorting.
From S2P Require Import Prelude Ordered Validation Manifest ManifestTopology.
From Stdlib Require Import Ascii.
Local Open Scope rust_scope.

(** ** Types *)

Record LockedPingap := {
  lp_mode : PingapMode;
  lp_config : option string;
  lp_version : string;
  lp_commit : string;
}.
Record LockedService := {
  ls_service_id : string;
  ls_name : string;
  ls_dir : string;
  ls_type : ProjectType;
  ls_kind : ProjectKind;
  ls_enabled : bool;
  ls_port : Z;
  ls_devbuild : option DevbuildSection;
  ls_run : RunSection;
  ls_devrun : option DevrunSection;
  ls_health : HealthSection;
  ls_proxy : option ProxySection;
  ls_logs : list LogSource;
  ls_env : gmap string string;
  ls_static_content_dir : option string;
}.
Record ReleaseLock := {
  rl_schema_version : Z;
  rl_release_id : string;
  rl_workspace_name : string;
  rl_pingap : LockedPingap;
  rl_minimum_app_cli_version : string;
  rl_runtime_image_digest : string;
  rl_services : list LockedService;
  rl_bridge_service : option string;
}.
Record ReleaseMetadata := {
  rm_release_id : string;
  rm_pingap_version : string;
  rm_pingap_commit : string;
  rm_minimum_app_cli_version : string;
  rm_runtime_image_digest : string;
}.

Inductive LoadError :=
  | LoadParse
  | NewerThanKnown (got known : Z)
  | UnknownVersion (version : Z)
  | Invariant (cause : option ManifestError).

(** ** Ports *)

Definition INTERNAL_PORT_MIN : Z := 4000.
Definition INTERNAL_PORT_MAX : Z := 7999.
Definition RESERVED_RUNTIME_PORTS : list Z := [5432; 7681]%Z.
Definition range_size : Z := INTERNAL_PORT_MAX - INTERNAL_PORT_MIN + 1.
Definition port_capacity : nat := Z.to_nat range_size - length RESERVED_RUNTIME_PORTS.

(** The 32-bit hash of an id: multiply, wrap around, then xor the next byte. *)
Definition hash_step (accumulator : Z) (byte : ascii) : Z :=
  Z.lxor ((accumulator * 16777619) mod 2 ^ 32) (Z.of_N (N_of_ascii byte)).
Definition port_hash (id : string) : Z :=
  foldl hash_step 2166136261%Z (String.list_ascii_of_string id).
Definition first_candidate (id : string) : Z := INTERNAL_PORT_MIN + port_hash id mod range_size.

Definition next_candidate (candidate : Z) : Z :=
  if (candidate =? INTERNAL_PORT_MAX)%Z then INTERNAL_PORT_MIN else candidate + 1.
Definition port_blocked (used : gset Z) (candidate : Z) : bool :=
  bool_decide (candidate ∈ used) || bool_decide (candidate ∈ RESERVED_RUNTIME_PORTS).

(** [while used.contains(&candidate) || RESERVED.contains(&candidate) { .. }] *)
Fixpoint probe_port (fuel : nat) (used : gset Z) (candidate : Z) : option Z :=
  if port_blocked used candidate then
    match fuel with
    | O => None
    | S fuel => probe_port fuel used (next_candidate candidate)
    end
  else Some candidate.

(** [for project in enabled { .. }], over the sorted ids: nothing else of a
    project is looked at. *)
Fixpoint allocate_loop (ids : list string) (used : gset Z) (ports : gmap string Z)
    : option (gmap string Z) :=
  match ids with
  | [] => Some ports
  | id :: ids =>
      match probe_port (Z.to_nat range_size) used (first_candidate id) with
      | Some port => allocate_loop ids ({[port]} ∪ used) (<[id := port]> ports)
      | None => None
      end
  end.

(** *** The loop ends *)

Definition in_range (port : Z) : Prop := (INTERNAL_PORT_MIN ≤ port ≤ INTERNAL_PORT_MAX)%Z.
Definition candidate_after (c i : Z) : Z := INTERNAL_PORT_MIN + (c - INTERNAL_PORT_MIN + i) mod range_size.

Lemma range_size_eq : range_size = 4000%Z.
Proof. reflexivity. Qed.
#[local] Opaque Z.modulo.

Lemma first_candidate_range id : in_range (first_candidate id).
Proof.
  unfold in_range, first_candidate. pose proof (Z.mod_pos_bound (port_hash id) range_size).
  rewrite range_size_eq in *. unfold INTERNAL_PORT_MIN, INTERNAL_PORT_MAX. lia.
Qed.
Lemma candidate_after_range c i : in_range (candidate_after c i).
Proof.
  unfold in_range, candidate_after.
  pose proof (Z.mod_pos_bound (c - INTERNAL_PORT_MIN + i) range_size).
  rewrite range_size_eq in *. unfold INTERNAL_PORT_MIN, INTERNAL_PORT_MAX in *. lia.
Qed.
Lemma candidate_after_0 c : in_range c → candidate_after c 0 = c.
Proof.
  unfold in_range, candidate_after. intros Hc.
  rewrite Z.mod_small; unfold range_size, INTERNAL_PORT_MIN, INTERNAL_PORT_MAX in *; lia.
Qed.
Lemma next_candidate_after c : in_range c → next_candidate c = candidate_after c 1.
Proof.
  unfold in_range, next_candidate, candidate_after. intros Hc.
  unfold range_size, INTERNAL_PORT_MIN, INTERNAL_PORT_MAX in *. case_match eqn:E.
  - apply Z.eqb_eq in E as ->. reflexivity.
  - apply Z.eqb_neq in E. rewrite Z.mod_small; lia.
Qed.
Lemma candidate_after_add c i j :
  candidate_after (candidate_after c i) j = candidate_after c (i + j).
Proof.
  unfold candidate_after. f_equal.
  replace (INTERNAL_PORT_MIN + (c - INTERNAL_PORT_MIN + i) `mod` range_size - INTERNAL_PORT_MIN + j)%Z
    with ((c - INTERNAL_PORT_MIN + i) `mod` range_size + j)%Z by lia.
  rewrite Zplus_mod_idemp_l. f_equal. lia.
Qed.
Lemma candidate_after_inj c i j :
  (0 ≤ i < range_size)%Z → (0 ≤ j < range_size)%Z →
  candidate_after c i = candidate_after c j → i = j.
Proof.
  unfold candidate_after. intros Hi Hj Heq. rewrite range_size_eq in *.
  assert (((c - INTERNAL_PORT_MIN + i) - (c - INTERNAL_PORT_MIN + j)) mod 4000 = 0)%Z as Hd.
  { rewrite Zminus_mod. replace ((c - INTERNAL_PORT_MIN + i) mod 4000)%Z
      with ((c - INTERNAL_PORT_MIN + j) mod 4000)%Z by lia. rewrite Z.sub_diag. reflexivity. }
  apply Z.mod_divide in Hd as [k Hk]; lia.
Qed.

(** A probe that runs out of fuel has seen only blocked ports. *)
Lemma probe_port_none fuel used c i :
  in_range c → probe_port fuel used c = None → (0 ≤ i ≤ Z.of_nat fuel)%Z →
  port_blocked used (candidate_after c i) = true.
Proof.
  revert c i. induction fuel as [|fuel IH]; intros c i Hc; simpl;
    (destruct (port_blocked used c) eqn:Hb; [|done]); intros Hp Hi.
  - replace i with 0%Z by lia. by rewrite candidate_after_0.
  - destruct (decide (i = 0%Z)) as [->|]; [by rewrite candidate_after_0|].
    rewrite next_candidate_after in Hp by done.
    specialize (IH _ (i - 1)%Z (candidate_after_range c 1) Hp ltac:(lia)).
    rewrite candidate_after_add in IH. by replace (1 + (i - 1))%Z with i in IH by lia.
Qed.

Lemma probe_port_total used c :
  in_range c → size used < port_capacity → probe_port (Z.to_nat range_size) used c ≠ None.
Proof.
  intros Hc Hsz Hp.
  set (blocked := used ∪ list_to_set RESERVED_RUNTIME_PORTS).
  set (seen := candidate_after c <$> seqZ 0 range_size).
  assert (NoDup seen) as Hnd.
  { apply NoDup_fmap_2_strong; [|apply NoDup_seqZ]. intros i j Hi Hj.
    apply elem_of_seqZ in Hi, Hj. apply candidate_after_inj; lia. }
  assert (list_to_set seen ⊆ blocked) as Hsub.
  { intros p Hp'. apply elem_of_list_to_set, list_elem_of_fmap in Hp' as (i & -> & Hi).
    apply elem_of_seqZ in Hi.
    pose proof (probe_port_none _ _ _ i Hc Hp ltac:(rewrite range_size_eq in *; lia)) as Hb.
    unfold port_blocked in Hb. apply orb_true_iff in Hb as [Hb|Hb]; apply bool_decide_eq_true in Hb;
      unfold blocked; rewrite elem_of_union, elem_of_list_to_set; auto. }
  apply subseteq_size in Hsub. rewrite size_list_to_set in Hsub by done.
  unfold seen in Hsub. rewrite length_fmap, length_seqZ in Hsub.
  assert (size blocked ≤ size used + 2).
  { unfold blocked. rewrite size_union_alt. apply Nat.add_le_mono_l.
    etrans; [apply subseteq_size, (subseteq_difference_l _ _ _ (reflexivity _))|].
    vm_compute. lia. }
  unfold port_capacity in Hsz. rewrite range_size_eq in *. simpl length in Hsz. lia.
Qed.

Lemma size_add_port (p : Z) (used : gset Z) : size ({[p]} ∪ used) ≤ S (size used).
Proof.
  rewrite size_union_alt, size_singleton. apply le_n_S, subseteq_size. set_solver.
Qed.

Lemma allocate_loop_total ids used ports :
  size used + length ids ≤ port_capacity → allocate_loop ids used ports ≠ None.
Proof.
  revert used ports. induction ids as [|id ids IH]; intros used ports Hsz;
    cbn [allocate_loop]; [discriminate|]. cbn [length] in Hsz.
  destruct (probe_port (Z.to_nat range_size) used (first_candidate id)) as [p|] eqn:Hp.
  - apply IH. pose proof (size_add_port p used). lia.
  - intros _. revert Hp. apply probe_port_total; [apply first_candidate_range|lia].
Qed.
Lemma allocate_ports_total ids :
  length ids ≤ port_capacity → allocate_loop ids ∅ ∅ ≠ None.
Proof. intros H. apply allocate_loop_total. rewrite size_empty. lia. Qed.

Definition allocate_ports (projects : list DiscoveredProject)
    : result (gmap string Z) ManifestError :=
  let ids := merge_sort String.le (service_id <$> enabled_projects projects) in
  match decide (length ids ≤ port_capacity) with
  | left fits => Ok (expect (allocate_loop ids ∅ ∅) (allocate_ports_total ids fits))
  | right _ => Err (ValidationError [issue_new "too many enabled services"])
  end.

(** ** Building the lock *)

(** [iter.map(f).collect::<Result<Vec<_>, _>>()]. *)
Fixpoint result_mapM {A B E} (f : A → result B E) (xs : list A) : result (list B) E :=
  match xs with
  | [] => Ok []
  | x :: xs => let? y := f x in let? ys := result_mapM f xs in Ok (y :: ys)
  end.

(** Every project is indexed, the disabled ones too. *)
Definition projects_by_id (projects : list DiscoveredProject) : gmap string DiscoveredProject :=
  btree_collect ((λ p, (service_id p, p)) <$> projects).

Definition locked_service (id : string) (port : Z) (p : DiscoveredProject) : LockedService :=
  let m := manifest p in
  {| ls_service_id := id; ls_name := meta_name (pj_project m); ls_dir := dir p;
     ls_type := meta_type (pj_project m); ls_kind := meta_kind (pj_project m);
     ls_enabled := meta_enabled (pj_project m); ls_port := port; ls_devbuild := pj_devbuild m;
     ls_run := pj_run m; ls_devrun := pj_devrun m; ls_health := pj_health m;
     ls_proxy := pj_proxy m; ls_logs := pj_logs m; ls_env := pj_env m;
     ls_static_content_dir :=
       if bool_decide (meta_type (pj_project m) = Static) then Some (build_artifact (pj_build m))
       else None |}.

Definition lock_service (by_id : gmap string DiscoveredProject) (ports : gmap string Z)
    (id : string) : result LockedService ManifestError :=
  let? project := ok_or (by_id !! id)
    (ValidationError [issue_new ("service disappeared while locking: " +:+ id)]) in
  let? port := ok_or (ports !! id)
    (ValidationError [issue_new ("port missing while locking: " +:+ id)]) in
  Ok (locked_service id port project).

Definition service_startup_issues (s : LockedService) : list ValidationIssue :=
  collect_startup_issues (ls_kind s) (ls_type s) (ls_health s) (is_some (ls_proxy s))
    (ls_run s) (ls_devrun s).

Fixpoint services_startup (services : list LockedService) : result unit ManifestError :=
  match services with
  | [] => Ok tt
  | s :: services =>
      match service_startup_issues s with
      | [] => services_startup services
      | issues => Err (ValidationError (at_service (ls_service_id s) <$> issues))
      end
  end.

Definition locked_rule_service (s : LockedService) : RuleService :=
  (ls_service_id s, ls_kind s, startup_probe (ls_health s)).

Definition validate_release_startup (lock : ReleaseLock) : result unit ManifestError :=
  let? _ := services_startup (rl_services lock) in
  validate_workspace_rules (lp_mode (rl_pingap lock)) (rl_bridge_service lock)
    (locked_rule_service <$> filter (λ s, ls_enabled s = true) (rl_services lock)).

Definition require_startup_probe_capability (lock : ReleaseLock) (capabilities : list string)
    : result unit ManifestError :=
  if existsb (λ s, ls_enabled s && is_some (startup_probe (ls_health s))) (rl_services lock)
     && negb (bool_decide (STARTUP_PROBE_CAPABILITY ∈ capabilities))
  then Err (ValidationError [issue_new ("runtime owner lacks " +:+ STARTUP_PROBE_CAPABILITY
              +:+ "; upgrade app-cli before starting this release")])
  else Ok tt.

Definition check_bridge (bridge : option string) (services : list LockedService)
    : result unit ManifestError :=
  match bridge with
  | Some id =>
      ensure (existsb (λ s, bool_decide (ls_service_id s = id)) services)
        (ValidationError [issue_new
           ("[health].bridge_service references unknown service_id '" +:+ id +:+ "'")])
  | None => Ok tt
  end.

Definition build_release_lock (w : WorkspaceManifest) (projects : list DiscoveredProject)
    (metadata : ReleaseMetadata) : result ReleaseLock ManifestError :=
  let? _ := validate_workspace w in
  let? _ := validate_workspace_startup w projects in
  let? dependency_order := validate_topology projects in
  let? ports := allocate_ports projects in
  let? services := result_mapM (lock_service (projects_by_id projects) ports) dependency_order in
  let bridge := bridge_service (ws_health w) in
  let? _ := check_bridge bridge services in
  let lock :=
    {| rl_schema_version := SCHEMA_VERSION;
       rl_release_id := rm_release_id metadata;
       rl_workspace_name := ws_name (workspace w);
       rl_pingap := {| lp_mode := pg_mode (pingap w); lp_config := pg_config (pingap w);
                       lp_version := rm_pingap_version metadata;
                       lp_commit := rm_pingap_commit metadata |};
       rl_minimum_app_cli_version := rm_minimum_app_cli_version metadata;
       rl_runtime_image_digest := rm_runtime_image_digest metadata;
       rl_services := services;
       rl_bridge_service := bridge |} in
  let? _ := validate_release_startup lock in
  Ok lock.

(** ** Discovery, without the file system ([discovery.rs]) *)

Definition sort_by_service_id (projects : list DiscoveredProject) : list DiscoveredProject :=
  merge_sort (λ a b, String.le (service_id a) (service_id b)) projects.

Definition assemble_discovered (projects : list (string * ProjectManifest))
    : result (list DiscoveredProject) ManifestError :=
  let discovered := sort_by_service_id
    ((λ '(d, m), {| dir := d; manifest := m |}) <$> projects) in
  let? _ := validate_topology discovered in
  Ok discovered.

(** ** Reading the lock *)

(** The TOML library: the reader of the version alone and the reader of locks. *)
Class TomlReader := {
  toml_peek_version : string → option Z;
  toml_read_lock : string → option ReleaseLock;
}.
(** Both read the version from the one key, which a lock cannot do without. *)
Class TomlLaws `{TomlReader} : Prop := {
  toml_one_version : ∀ content lock,
    toml_read_lock content = Some lock → toml_peek_version content = Some (rl_schema_version lock);
}.

Section loading.
Context `{TomlReader}.

Definition parse_current (content : string) : result ReleaseLock LoadError :=
  let? lock := ok_or (toml_read_lock content) LoadParse in
  let? _ := ensure (negb (bool_decide (rl_services lock = []))) (Invariant None) in
  let? _ := map_err (λ e, Invariant (Some e)) (validate_release_startup lock) in
  Ok lock.

Definition load_release_lock (content : string) : result ReleaseLock LoadError :=
  let? version := ok_or (toml_peek_version content) LoadParse in
  if (version =? SCHEMA_VERSION)%Z then parse_current content
  else if (SCHEMA_VERSION <? version)%Z then Err (NewerThanKnown version SCHEMA_VERSION)
  else Err (UnknownVersion version).
End loading.
