(* ===== verification/ManifestOrder.v ===== *)
(** * Kahn's sort is correct

    [topo_loop] on any closed dependency map: an [Ok] lists every key once,
    after its dependencies; it answers [Err] exactly when the map has a cycle. *)
From S2P Require Import Prelude Ordered Manifest ManifestTopology.
From stdpp Require Import sorting relations.
Local Open Scope rust_scope.

(** ** Orders and cycles *)

(** [a] depends directly on [b]. *)
Definition map_dep (m : gmap string (gset string)) (a b : string) : Prop :=
  ∃ ds, m !! a = Some ds ∧ b ∈ ds.
Definition acyclic {A} (R : relation A) : Prop := ∀ x, ¬ tc R x x.
(** Everything an entry of [order] depends on comes before it. *)
Definition dependencies_first {A} (R : relation A) (order : list A) : Prop :=
  ∀ before a after, order = before ++ a :: after → ∀ b, R a b → b ∈ before.
(** Dependencies stay inside the map. *)
Definition closed_map (m : gmap string (gset string)) : Prop :=
  ∀ a b, map_dep m a b → is_Some (m !! b).

Lemma dependencies_first_nil {A} (R : relation A) : dependencies_first R [].
Proof. intros [|? ?] ? ?; discriminate. Qed.

Lemma dependencies_first_app {A} (R : relation A) (l r : list A) :
  dependencies_first R l → (∀ a b, a ∈ r → R a b → b ∈ l) → dependencies_first R (l ++ r).
Proof.
  intros Hl Hr before a after Heq b Hab.
  apply app_eq_app in Heq as (k & [[-> Hk]|[-> Hk]]).
  - destruct k as [|x k]; simpl in Hk.
    + rewrite app_nil_r in Hr. apply (Hr a b); [|done]. rewrite <- Hk. left.
    + injection Hk as <- ->. by apply (Hl before a k).
  - apply elem_of_app. left. apply (Hr a b); [|done].
    rewrite Hk. apply elem_of_app. right. left.
Qed.

(** An order with dependencies first has no cycle through its entries. *)
Lemma dependencies_first_tc {A} (R : relation A) before a after b :
  dependencies_first R (before ++ a :: after) → tc R a b → b ∈ before.
Proof.
  intros Hf Hab. remember (before ++ a :: after) as order eqn:Ho. revert before after Ho.
  induction Hab as [a b Hab|a c b Hac _ IH]; intros before after Ho.
  - by apply (Hf before a after).
  - pose proof (Hf _ _ _ Ho _ Hac) as Hc. apply list_elem_of_split in Hc as (l1 & l2 & ->).
    specialize (IH l1 (l2 ++ a :: after)).
    rewrite elem_of_app. left. apply IH. by rewrite Ho, <- app_assoc.
Qed.
Lemma dependencies_first_acyclic {A} (R : relation A) order a :
  NoDup order → dependencies_first R order → a ∈ order → ¬ tc R a a.
Proof.
  intros Hnd Hf Ha Haa. apply list_elem_of_split in Ha as (l1 & l2 & ->).
  apply (dependencies_first_tc R l1 a l2) in Haa; [|done].
  apply NoDup_app in Hnd as (_ & Hd & _). apply (Hd a); [done|]. left.
Qed.

(** ** The loop *)

Section kahn.
Context (m : gmap string (gset string)).

(** What holds at the head of the loop. *)
Record kahn_inv (remaining : gmap string (gset string)) (acc : list string) : Prop := {
  ki_sub : remaining ⊆ m;
  ki_nodup : NoDup acc;
  ki_dom : ∀ a, is_Some (m !! a) ↔ a ∈ acc ∨ is_Some (remaining !! a);
  ki_disj : ∀ a, a ∈ acc → remaining !! a = None;
  ki_first : dependencies_first (map_dep m) acc;
}.

Lemma kahn_inv_init : kahn_inv m [].
Proof.
  split; [done|constructor|set_solver|set_solver|apply dependencies_first_nil].
Qed.

Lemma elem_of_ready remaining acc a :
  a ∈ ready_services remaining acc ↔
  ∃ ds, remaining !! a = Some ds ∧ ∀ b, b ∈ ds → b ∈ acc.
Proof.
  unfold ready_services, is_ready. rewrite list_elem_of_filter, elem_of_btree_keys. split.
  - intros [Hr [ds Hds]]. rewrite Hds in Hr. apply bool_decide_eq_true in Hr.
    exists ds. split; [done|]. intros b Hb. by apply (Hr b).
  - intros (ds & Hds & Hb). rewrite Hds. split; [|by eexists].
    apply bool_decide_eq_true. intros b. apply Hb.
Qed.

Lemma kahn_inv_step remaining acc :
  kahn_inv remaining acc →
  kahn_inv (remove_services (ready_services remaining acc) remaining)
    (acc ++ ready_services remaining acc).
Proof.
  intros [Hsub Hnd Hdom Hdisj Hfirst]. split.
  - etrans; [apply remove_services_subset|done].
  - apply NoDup_app. split_and!; [done| |apply NoDup_filter, NoDup_btree_keys].
    intros a Ha Hr. apply Hdisj in Ha. apply elem_of_ready in Hr as (ds & Hds & _). congruence.
  - intros a. rewrite Hdom, remove_services_lookup, elem_of_app. case_bool_decide as Hr.
    + split; [intros _; left; by right|]. intros _. right. by apply (ready_in_remaining _ acc).
    + naive_solver.
  - intros a Ha. rewrite remove_services_lookup. case_bool_decide as Hr; [done|].
    apply elem_of_app in Ha as [Ha|Ha]; [by apply Hdisj|done].
  - apply dependencies_first_app; [done|]. intros a b Ha (ds & Hds & Hb).
    apply elem_of_ready in Ha as (ds' & Hds' & Hall).
    apply (lookup_weaken _ m) in Hds'; [|done]. apply Hall. congruence.
Qed.

Lemma topo_loop_ok fuel remaining acc order :
  kahn_inv remaining acc → topo_loop fuel remaining acc = Some (Ok order) →
  NoDup order ∧ (∀ a, a ∈ order ↔ is_Some (m !! a)) ∧ dependencies_first (map_dep m) order.
Proof.
  revert remaining acc. induction fuel as [|fuel IH]; intros remaining acc Hinv; simpl;
    case_bool_decide as He; try discriminate.
  1,2: intros [= ->]; destruct Hinv as [_ Hnd Hdom _ Hf]; split_and!; [done| |done];
    intros a; rewrite Hdom, He, lookup_empty; naive_solver.
  case_bool_decide; [discriminate|]. intros Hl. by apply IH in Hl; [|apply kahn_inv_step].
Qed.

(** The loop gives up only when every remaining service waits for another one. *)
Lemma topo_loop_err fuel remaining acc ids :
  closed_map m → kahn_inv remaining acc → topo_loop fuel remaining acc = Some (Err ids) →
  ∃ stuck : gset string, stuck ≠ ∅ ∧ ∀ a, a ∈ stuck → ∃ b, b ∈ stuck ∧ map_dep m a b.
Proof.
  intros Hclosed. revert remaining acc. induction fuel as [|fuel IH]; intros remaining acc Hinv;
    simpl; case_bool_decide as He; try discriminate.
  case_bool_decide as Hr; [|intros Hl; by apply IH in Hl; [|apply kahn_inv_step]].
  intros _. exists (dom remaining). split; [by rewrite dom_empty_iff_L|].
  intros a [ds Hds]%elem_of_dom.
  destruct (decide (set_Forall (λ b, b ∈ acc) ds)) as [Hall|Hnot].
  { assert (a ∈ ready_services remaining acc) as Ha by (apply elem_of_ready; eauto).
    rewrite Hr in Ha. by apply not_elem_of_nil in Ha. }
  apply not_set_Forall_Exists in Hnot as (b & Hb & Hnb); [|apply _].
  destruct Hinv as [Hsub _ Hdom _ _].
  assert (map_dep m a b) as Hab by (exists ds; split; [by eapply lookup_weaken|done]).
  exists b. split; [|done]. apply elem_of_dom.
  destruct (proj1 (Hdom b) (Hclosed _ _ Hab)); [done|done].
Qed.

Lemma reachable_finite a : closed_map m → pred_finite (tc (map_dep m) a).
Proof.
  intros Hc. exists (elements (dom m)). intros b Hb. apply elem_of_elements, elem_of_dom.
  induction Hb; eauto.
Qed.

Lemma stuck_not_acyclic (stuck : gset string) :
  closed_map m → stuck ≠ ∅ → (∀ a, a ∈ stuck → ∃ b, b ∈ stuck ∧ map_dep m a b) →
  ¬ acyclic (map_dep m).
Proof.
  intros Hc Hne Hstuck Hacyc. apply set_choose_L in Hne as [a Ha].
  assert (sn (map_dep m) a) as Hsn.
  { apply tc_finite_sn; [exact Hacyc|by apply reachable_finite]. }
  revert Ha. induction Hsn as [a _ IH]. intros Ha.
  destruct (Hstuck a Ha) as (b & Hb & Hab). by apply (IH b).
Qed.
End kahn.

Lemma topo_loop_ok_iff m :
  closed_map m →
  (∃ order, topo_loop (size m) m [] = Some (Ok order)) ↔ acyclic (map_dep m).
Proof.
  intros Hc. split.
  - intros [order Ho] a Haa.
    destruct (topo_loop_ok m _ _ _ _ (kahn_inv_init m) Ho) as (Hnd & Hin & Hf).
    apply (dependencies_first_acyclic (map_dep m) order a); try done. apply Hin.
    inversion Haa as [? ? [ds []]|? ? ? [ds []]]; subst; eauto.
  - intros Hacyc. pose proof (topo_loop_total (size m) m [] (le_n _)) as Ht.
    destruct (topo_loop (size m) m []) as [[order|ids]|] eqn:Hl; [eauto| |done].
    exfalso. destruct (topo_loop_err m _ _ _ _ Hc (kahn_inv_init m) Hl) as (st & Hne & Hst).
    by apply (stuck_not_acyclic m st Hc Hne Hst).
Qed.
