(* ===== verification/ManifestTheorems.v ===== *)
(** * What a release lock guarantees

    The topology check accepts exactly the workspaces whose services have
    unique ids and routes and an acyclic, closed dependency relation, and its
    answer starts every service after its dependencies; internal ports are
    distinct and avoid the runtime's own; a lock that was built can be loaded,
    and does not depend on the order in which projects were found.  A disabled
    project that shares an id with an enabled one takes its place in the lock (a
    flaw of the source). *)
From S2P Require Import Prelude Ordered Validation Manifest ManifestTopology ReleaseLock ManifestOrder.
From stdpp Require Import sorting relations.
Local Open Scope rust_scope.

(** ** Specification *)

Definition enabled_ids (projects : list DiscoveredProject) : list string :=
  service_id <$> enabled_projects projects.
Definition route (p : DiscoveredProject) : option string := px_path <$> pj_proxy (manifest p).
Definition service_dep (projects : list DiscoveredProject) (a b : string) : Prop :=
  ∃ p, p ∈ enabled_projects projects ∧ service_id p = a ∧ b ∈ depends_on p.

Record well_formed_topology (projects : list DiscoveredProject) : Prop := {
  wt_some : enabled_projects projects ≠ [];
  wt_ids : NoDup (enabled_ids projects);
  wt_routes : NoDup (omap route (enabled_projects projects));
  wt_closed : ∀ a b, service_dep projects a b → b ∈ enabled_ids projects;
  wt_acyclic : acyclic (service_dep projects);
}.

(** ** The scan for duplicate ids and routes *)

Definition scan_prefix (all pre : list DiscoveredProject) : TopologyScan :=
  foldl (scan_project all) scan_init pre.

Lemma scan_id_spec p s :
  dom (sc_ids (scan_id p s)) = {[service_id p]} ∪ dom (sc_ids s)
  ∧ sc_routes (scan_id p s) = sc_routes s
  ∧ (sc_issues (scan_id p s) = [] ↔ sc_issues s = [] ∧ service_id p ∉ dom (sc_ids s)).
Proof.
  unfold scan_id. destruct (sc_ids s !! service_id p) as [q|] eqn:Hq; simpl.
  - apply elem_of_dom_2 in Hq. split_and!; [set_solver|done|].
    split; [intros [_ [=]]%app_eq_nil|naive_solver].
  - apply not_elem_of_dom in Hq. rewrite dom_insert_L. naive_solver.
Qed.

Lemma scan_route_spec p path s :
  sc_ids (scan_route p path s) = sc_ids s
  ∧ dom (sc_routes (scan_route p path s)) = {[path]} ∪ dom (sc_routes s)
  ∧ (sc_issues (scan_route p path s) = [] ↔ sc_issues s = [] ∧ path ∉ dom (sc_routes s)).
Proof.
  unfold scan_route. destruct (sc_routes s !! path) as [q|] eqn:Hq; simpl.
  - apply elem_of_dom_2 in Hq. split_and!; [done|set_solver|].
    split; [intros [_ [=]]%app_eq_nil|naive_solver].
  - apply not_elem_of_dom in Hq. rewrite dom_insert_L. naive_solver.
Qed.

Lemma scan_catch_all_spec all p path s :
  sc_ids (scan_catch_all all p path s) = sc_ids s
  ∧ sc_routes (scan_catch_all all p path s) = sc_routes s
  ∧ (sc_issues (scan_catch_all all p path s) = [] → sc_issues s = [])
  ∧ (sc_issues s = [] → NoDup (omap route all) → p ∈ all → route p = Some path →
     sc_issues (scan_catch_all all p path s) = []).
Proof.
  unfold scan_catch_all. case_match eqn:Hb; [|done].
  apply andb_true_iff in Hb as [Hp _]. apply bool_decide_eq_true in Hp as ->.
  destruct (list_find _ _) as [[i other]|] eqn:Hf; [|done]. simpl.
  split_and!; [done|done|intros [_ [=]]%app_eq_nil|].
  intros _ Hnd Hin Hr. exfalso.
  apply list_find_Some in Hf as (Ho & [Hne Hroot] & _).
  apply list_elem_of_lookup in Hin as [j Hj].
  assert (route other = Some "/") as Hr'.
  { revert Hroot. unfold has_route, route. destruct (pj_proxy _); simpl; [|done].
    by intros ->%bool_decide_eq_true. }
  assert (i ≠ j) as Hij by (intros ->; congruence).
  clear Hne Hroot. revert i j Ho Hj Hij Hnd.
  induction all as [|x all IH]; intros [|i] [|j] Ho Hj Hij; simplify_eq/=.
  - rewrite Hr'. intros [Hx _]%NoDup_cons. apply Hx, list_elem_of_omap.
    exists p. split; [by eapply list_elem_of_lookup_2|done].
  - rewrite Hr. intros [Hx _]%NoDup_cons. apply Hx, list_elem_of_omap.
    exists other. split; [by eapply list_elem_of_lookup_2|done].
  - intros Hnd. apply (IH i j); [done|done|lia|]. destruct (route x); [|done].
    by apply NoDup_cons in Hnd as [_ ?].
Qed.

Lemma omap_route_snoc l p :
  omap route (l ++ [p]) = omap route l ++ option_list (route p).
Proof. rewrite omap_app. simpl. by destruct (route p). Qed.

Lemma scan_prefix_spec all pre :
  dom (sc_ids (scan_prefix all pre)) = list_to_set (service_id <$> pre)
  ∧ dom (sc_routes (scan_prefix all pre)) = list_to_set (omap route pre)
  ∧ (sc_issues (scan_prefix all pre) = [] → NoDup (service_id <$> pre) ∧ NoDup (omap route pre))
  ∧ (pre ⊆ all → NoDup (omap route all) → NoDup (service_id <$> pre) → NoDup (omap route pre) →
     sc_issues (scan_prefix all pre) = []).
Proof.
  induction pre as [|p pre IH] using rev_ind.
  { split_and!; [done|done|by split; constructor|done]. }
  unfold scan_prefix in *. rewrite foldl_snoc. set (s := foldl _ _ pre) in *.
  destruct IH as (Hids & Hroutes & Hsound & Hcomplete).
  rewrite omap_route_snoc, fmap_app, list_to_set_app_L. simpl. rewrite union_empty_r_L.
  unfold scan_project. destruct (scan_id_spec p s) as (Hi1 & Hi2 & Hi3).
  assert (NoDup ((service_id <$> pre) ++ [service_id p]) ↔
          NoDup (service_id <$> pre) ∧ service_id p ∉ dom (sc_ids s)) as Hnd_id.
  { rewrite Permutation_app_comm. simpl. rewrite NoDup_cons, Hids, elem_of_list_to_set. tauto. }
  rewrite Hnd_id. change (route p) with (px_path <$> pj_proxy (manifest p)).
  destruct (pj_proxy (manifest p)) as [px|] eqn:Hpx; simpl.
  - destruct (scan_route_spec p (px_path px) (scan_id p s)) as (Hr1 & Hr2 & Hr3).
    destruct (scan_catch_all_spec all p (px_path px) (scan_route p (px_path px) (scan_id p s)))
      as (Hc1 & Hc2 & Hc3 & Hc4).
    assert (NoDup (omap route pre ++ [px_path px]) ↔
            NoDup (omap route pre) ∧ px_path px ∉ dom (sc_routes s)) as Hnd_r.
    { rewrite Permutation_app_comm. simpl. rewrite NoDup_cons, Hroutes, elem_of_list_to_set. tauto. }
    rewrite Hi2, Hroutes in Hr3. rewrite Hids in Hi3.
    rewrite Hnd_r, Hc1, Hc2, Hr2, Hr1, Hi1, Hi2, Hids, Hroutes, list_to_set_app_L. simpl.
    split_and!; [set_solver|set_solver| |].
    + intros [[Hs Hid]%Hi3 Hrt]%Hc3%Hr3. by apply Hsound in Hs as [??].
    + intros Hsub Hall [??] [??]. apply Hc4; [|done| |].
      * apply Hr3. split; [|done]. apply Hi3. split; [|done]. apply Hcomplete; set_solver.
      * set_solver.
      * unfold route. by rewrite Hpx.
  - rewrite Hids in Hi3. rewrite app_nil_r, Hi1, Hi2, Hids. split_and!; [set_solver|done| |].
    + intros [Hs Hid]%Hi3. by apply Hsound in Hs as [??].
    + intros Hsub Hall [??] ?. apply Hi3. split; [|done]. apply Hcomplete; set_solver.
Qed.

(** ** Dependencies *)

Lemma flat_map_nil {A B} (f : A → list B) (l : list A) :
  flat_map f l = [] ↔ ∀ x, x ∈ l → f x = [].
Proof.
  induction l as [|x l IH]; simpl; [split; [set_solver|done]|]. rewrite app_nil, IH. set_solver.
Qed.

Lemma dependency_issues_nil {V} (ids : gmap string V) p :
  dependency_issues ids p = [] ↔
  ∀ d, d ∈ depends_on p → d ≠ service_id p ∧ d ∈ dom ids.
Proof.
  unfold dependency_issues. rewrite flat_map_nil. apply forall_proper. intros d.
  enough ((if bool_decide (d = service_id p) then [_] else _) = [] ↔ _) as He
    by (split; intros Hi Hd; apply He, (Hi Hd)).
  case_bool_decide as Hs; [naive_solver|].
  rewrite issue_if_nil, elem_of_dom. unfold is_none, is_some.
  destruct (ids !! d); simpl; split; naive_solver.
Qed.

Lemma dependency_map_ids enabled :
  dom (dependency_map enabled) = list_to_set (service_id <$> enabled).
Proof.
  unfold dependency_map. rewrite btree_collect_dom. f_equal.
  rewrite <- list_fmap_compose. by apply list_fmap_ext.
Qed.

Lemma dependency_map_lookup enabled a ds :
  NoDup (service_id <$> enabled) →
  dependency_map enabled !! a = Some ds ↔
  ∃ p, p ∈ enabled ∧ service_id p = a ∧
    ds = filter (.∈ (list_to_set (service_id <$> enabled) : gset string)) (list_to_set (depends_on p)).
Proof.
  intros Hnd. unfold dependency_map. rewrite btree_collect_lookup.
  2:{ rewrite <- list_fmap_compose. exact Hnd. }
  rewrite list_elem_of_fmap. naive_solver.
Qed.

(** The map has exactly the dependencies between enabled services. *)
Lemma map_dep_service_dep projects a b :
  NoDup (enabled_ids projects) →
  map_dep (dependency_map (enabled_projects projects)) a b ↔
  service_dep projects a b ∧ b ∈ enabled_ids projects.
Proof.
  intros Hnd. unfold map_dep, service_dep. split.
  - intros (ds & Hds & Hb). apply dependency_map_lookup in Hds as (p & Hp & Ha & ->); [|done].
    apply elem_of_filter in Hb as [Hb1 Hb2]. rewrite elem_of_list_to_set in Hb1, Hb2. eauto.
  - intros [(p & Hp & Ha & Hb) Hids]. eexists. split; [apply dependency_map_lookup; eauto|].
    apply elem_of_filter. by rewrite !elem_of_list_to_set.
Qed.

Lemma dependency_map_closed enabled : closed_map (dependency_map enabled).
Proof.
  intros a b (ds & Hds & Hb). apply elem_of_dom. rewrite dependency_map_ids.
  revert Hds Hb. unfold dependency_map. generalize (list_to_set (C:=gset string) (service_id <$> enabled)).
  intros ids. induction enabled as [|p l IH] using rev_ind.
  { unfold btree_collect. simpl. by rewrite lookup_empty. }
  rewrite fmap_app. simpl. rewrite btree_collect_snoc. intros [[_ <-]|[_ Hds]]%lookup_insert_Some.
  - set_solver.
  - by apply IH.
Qed.

Lemma tc_mono {A} (R S : relation A) : (∀ x y, R x y → S x y) → ∀ x y, tc R x y → tc S x y.
Proof. intros HRS x y Ht. induction Ht; [by apply tc_once, HRS|eapply tc_l; eauto]. Qed.

Lemma topo_sort_eq enabled r :
  topo_sort enabled = r ↔
  topo_loop (size (dependency_map enabled)) (dependency_map enabled) [] = Some r.
Proof.
  unfold topo_sort. split; [intros <-; apply expect_eq|apply expect_Some].
Qed.

Lemma topo_sort_acyclic projects :
  NoDup (enabled_ids projects) →
  (∀ a b, service_dep projects a b → b ∈ enabled_ids projects) →
  (∃ order, topo_sort (enabled_projects projects) = Ok order) ↔ acyclic (service_dep projects).
Proof.
  intros Hnd Hcl. setoid_rewrite topo_sort_eq.
  rewrite topo_loop_ok_iff by apply dependency_map_closed.
  split; intros Hac x Hx; apply (Hac x); revert Hx; apply tc_mono; intros a b;
    rewrite map_dep_service_dep by done; naive_solver.
Qed.

Lemma cycle_issues_nil enabled :
  cycle_issues enabled = [] ↔ ∃ order, topo_sort enabled = Ok order.
Proof. unfold cycle_issues. destruct (topo_sort enabled); naive_solver. Qed.

Lemma collect_topology_issues_nil projects :
  collect_topology_issues projects = [] ↔ well_formed_topology projects.
Proof.
  unfold collect_topology_issues. set (enabled := enabled_projects projects).
  case_bool_decide as He; [split; [done|intros [Hne _ _ _ _]; done]|].
  rewrite !app_nil, flat_map_nil, cycle_issues_nil.
  destruct (scan_prefix_spec enabled enabled) as (Hids & _ & Hsound & Hcomplete).
  change (scan_prefix enabled enabled) with (scan_projects enabled) in *.
  assert ((∀ p, p ∈ enabled → dependency_issues (sc_ids (scan_projects enabled)) p = []) ↔
          ∀ a b, service_dep projects a b → b ≠ a ∧ b ∈ enabled_ids projects) as Hdeps.
  { setoid_rewrite dependency_issues_nil. rewrite Hids. setoid_rewrite elem_of_list_to_set.
    unfold service_dep, enabled_ids. fold enabled. naive_solver. }
  rewrite Hdeps. split.
  - intros [[Hnd Hr]%Hsound [Hcl Hok]].
    assert (∀ a b, service_dep projects a b → b ∈ enabled_ids projects) as Hcl'
      by (intros a b Hab; by apply Hcl in Hab as [_ ?]).
    split; try done. by apply topo_sort_acyclic.
  - intros [_ Hnd Hr Hcl Hac]. split_and!.
    + by apply Hcomplete.
    + intros a b Hab. split; [|by eapply Hcl]. intros ->. by apply (Hac a), tc_once.
    + by apply topo_sort_acyclic.
Qed.

Lemma validate_topology_ok projects order :
  validate_topology projects = Ok order ↔
  collect_topology_issues projects = [] ∧ topo_sort (enabled_projects projects) = Ok order.
Proof.
  unfold validate_topology. destruct (collect_topology_issues projects); [|naive_solver].
  destruct (topo_sort _); simpl; naive_solver.
Qed.

Lemma topo_sort_order projects order :
  well_formed_topology projects → topo_sort (enabled_projects projects) = Ok order →
  order ≡ₚ enabled_ids projects ∧ dependencies_first (service_dep projects) order.
Proof.
  intros [_ Hnd _ Hcl _] Ho%topo_sort_eq.
  destruct (topo_loop_ok _ _ _ _ _ (kahn_inv_init _) Ho) as (Hno & Hin & Hf). split.
  - apply NoDup_Permutation; [done|done|]. intros a.
    by rewrite Hin, <- elem_of_dom, dependency_map_ids, elem_of_list_to_set.
  - intros before a after Heq b Hab. apply (Hf before a after Heq).
    apply map_dep_service_dep; eauto.
Qed.

(** C34: The topology check accepts a workspace exactly when it has an enabled
    service, service ids and routes are unique, every dependency is an enabled
    service and dependencies have no cycle; the order it answers lists every
    enabled service once, each after the services it depends on. *)
Theorem topology_check_is_exact (projects : list DiscoveredProject) :
  (is_ok (validate_topology projects) = true ↔ well_formed_topology projects)
  ∧ ∀ order, validate_topology projects = Ok order →
      order ≡ₚ enabled_ids projects ∧ dependencies_first (service_dep projects) order.
Proof.
  split.
  - destruct (validate_topology projects) as [order|e] eqn:Hv; simpl.
    + split; [intros _|done]. apply validate_topology_ok in Hv as [? _].
      by apply collect_topology_issues_nil.
    + split; [done|]. intros Hwf. pose proof Hwf as [_ Hnd _ Hcl Hac].
      apply (topo_sort_acyclic projects) in Hac as [order Ho]; [|done|done].
      assert (validate_topology projects = Ok order) by
        (apply validate_topology_ok; split; [by apply collect_topology_issues_nil|done]).
      congruence.
  - intros order [Hi Ho]%validate_topology_ok. apply topo_sort_order; [|done].
    by apply collect_topology_issues_nil.
Qed.

(** ** Ports *)

Lemma probe_port_some fuel used c port :
  in_range c → probe_port fuel used c = Some port →
  in_range port ∧ (port ∉ used) ∧ (port ∉ RESERVED_RUNTIME_PORTS).
Proof.
  revert c. induction fuel as [|fuel IH]; intros c Hc; cbn [probe_port];
    destruct (port_blocked used c) eqn:Hb; try discriminate.
  1,3: intros [= ->]; unfold port_blocked in Hb; apply orb_false_iff in Hb as [H1 H2];
    by apply bool_decide_eq_false in H1, H2.
  apply IH. rewrite next_candidate_after by done. apply candidate_after_range.
Qed.

Record ports_sound (ids : list string) (ports : gmap string Z) : Prop := {
  ps_dom : dom ports = list_to_set ids;
  ps_range : ∀ id p, ports !! id = Some p → in_range p ∧ p ∉ RESERVED_RUNTIME_PORTS;
  ps_inj : ∀ a b p, ports !! a = Some p → ports !! b = Some p → a = b;
}.

Lemma allocate_loop_sound ids done used ports final :
  ports_sound done ports → (∀ id p, ports !! id = Some p → p ∈ used) →
  allocate_loop ids used ports = Some final → ports_sound (done ++ ids) final.
Proof.
  revert done used ports. induction ids as [|id ids IH]; intros acc used ports Hs Hu;
    cbn [allocate_loop]; [intros [= ->]; by rewrite app_nil_r|].
  destruct (probe_port (Z.to_nat range_size) used (first_candidate id)) as [port|] eqn:Hp;
    [|discriminate].
  apply probe_port_some in Hp as (Hr & Hfree & Hres); [|apply first_candidate_range].
  intros Hf. apply (IH (acc ++ [id])) in Hf; [by rewrite <- app_assoc in Hf| |].
  - destruct Hs as [Hd Hrg Hinj]. split.
    + rewrite dom_insert_L, Hd, list_to_set_app_L. set_solver.
    + intros k p [[-> <-]|[_ Hk]]%lookup_insert_Some; [done|by eapply Hrg].
    + intros a b p [[<- <-]|[? Ha]]%lookup_insert_Some [[<- Hb]|[? Hb]]%lookup_insert_Some;
        try done; [by apply Hu in Hb| |by eapply Hinj].
      subst. by apply Hu in Ha.
  - intros k p [[-> <-]|[_ Hk]]%lookup_insert_Some; [set_solver|].
    apply elem_of_union. right. by eapply Hu.
Qed.

Lemma sorted_ids_perm (l : list string) : merge_sort String.le l ≡ₚ l.
Proof. apply merge_sort_Permutation. Qed.
Lemma sorted_ids_unique (l l' : list string) :
  l ≡ₚ l' → merge_sort String.le l = merge_sort String.le l'.
Proof.
  intros Hp. apply (Sorted_unique String.le); try apply Sorted_merge_sort; try apply _.
  by rewrite !(merge_sort_Permutation String.le).
Qed.

Lemma allocate_ports_fits projects :
  length (enabled_projects projects) ≤ port_capacity →
  ∃ ports, allocate_ports projects = Ok ports ∧ ports_sound (enabled_ids projects) ports.
Proof.
  intros Hc. unfold allocate_ports.
  destruct (decide _) as [fits|n]; [|destruct n; by rewrite merge_sort_Permutation, length_fmap].
  eexists. split; [done|].
  assert (ports_sound (merge_sort String.le (enabled_ids projects))
            (expect _ (allocate_ports_total _ fits))) as [Hd Hr Hi].
  { apply (allocate_loop_sound _ [] ∅ ∅); [|done|apply expect_eq].
    by split; [|intros ? ?; rewrite lookup_empty|intros ? ? ?; rewrite lookup_empty]. }
  split; [|done|done]. rewrite Hd. apply list_to_set_perm_L, sorted_ids_perm.
Qed.
Lemma allocate_ports_full projects :
  port_capacity < length (enabled_projects projects) →
  allocate_ports projects = Err (ValidationError [issue_new "too many enabled services"]).
Proof.
  intros Hc. unfold allocate_ports. destruct (decide _) as [fits|]; [|done].
  exfalso. rewrite merge_sort_Permutation, length_fmap in fits. lia.
Qed.
Lemma allocate_ports_perm projects projects' :
  projects ≡ₚ projects' → allocate_ports projects = allocate_ports projects'.
Proof.
  intros Hp. unfold allocate_ports.
  rewrite (sorted_ids_unique _ (service_id <$> enabled_projects projects')); [done|].
  unfold enabled_projects. by rewrite Hp.
Qed.
Lemma allocate_ports_sound projects ports :
  allocate_ports projects = Ok ports → ports_sound (enabled_ids projects) ports.
Proof.
  destruct (decide (length (enabled_projects projects) ≤ port_capacity)) as [Hc|Hc].
  - apply allocate_ports_fits in Hc as (? & -> & ?). naive_solver.
  - rewrite allocate_ports_full by lia. done.
Qed.

(** C36: Port allocation ends for every workspace: it refuses more enabled
    services than there are free ports, and otherwise gives every enabled
    service a port of its own in the internal range, never one the runtime
    reserves; the ports do not depend on the order of the projects. *)
Theorem port_allocation_is_total_and_disjoint (projects projects' : list DiscoveredProject) :
  (length (enabled_projects projects) ≤ port_capacity →
     ∃ ports, allocate_ports projects = Ok ports ∧ ports_sound (enabled_ids projects) ports)
  ∧ (port_capacity < length (enabled_projects projects) →
     ∃ e, allocate_ports projects = Err e)
  ∧ (projects ≡ₚ projects' → allocate_ports projects = allocate_ports projects').
Proof.
  split_and!; [apply allocate_ports_fits| |apply allocate_ports_perm].
  intros Hc. rewrite allocate_ports_full by done. eauto.
Qed.

(** ** The lock *)

Lemma result_mapM_ok {A B E} (f : A → result B E) xs ys :
  result_mapM f xs = Ok ys ↔ Forall2 (λ x y, f x = Ok y) xs ys.
Proof.
  revert ys. induction xs as [|x xs IH]; intros ys; simpl.
  { split; [intros [= <-]; constructor|by inversion 1]. }
  destruct (f x) as [y|e] eqn:Hf; simpl; [|split; [done|inversion 1; congruence]].
  destruct (result_mapM f xs) as [ys'|e] eqn:Hm; simpl.
  - split; [intros [= <-]; constructor; [done|]; by apply IH|].
    inversion 1; simplify_eq. f_equal. f_equal; [congruence|].
    enough (Ok (E:=E) ys' = Ok l') by congruence. by apply IH.
  - split; [done|]. inversion 1; subst. assert (Err (A:=list B) e = Ok l') by by apply IH. done.
Qed.

Lemma lock_service_ok by_id ports id s :
  lock_service by_id ports id = Ok s ↔
  ∃ p port, by_id !! id = Some p ∧ ports !! id = Some port ∧ s = locked_service id port p.
Proof.
  unfold lock_service. destruct (by_id !! id), (ports !! id); simpl; naive_solver.
Qed.

(** What a successful build went through. *)
Lemma build_release_lock_ok w projects md lock :
  build_release_lock w projects md = Ok lock ↔
  ∃ order ports,
    validate_workspace w = Ok tt ∧ validate_workspace_startup w projects = Ok tt
    ∧ validate_topology projects = Ok order ∧ allocate_ports projects = Ok ports
    ∧ Forall2 (λ id s, lock_service (projects_by_id projects) ports id = Ok s) order (rl_services lock)
    ∧ check_bridge (bridge_service (ws_health w)) (rl_services lock) = Ok tt
    ∧ validate_release_startup lock = Ok tt
    ∧ lock = {| rl_schema_version := SCHEMA_VERSION; rl_release_id := rm_release_id md;
         rl_workspace_name := ws_name (workspace w);
         rl_pingap := {| lp_mode := pg_mode (pingap w); lp_config := pg_config (pingap w);
                         lp_version := rm_pingap_version md; lp_commit := rm_pingap_commit md |};
         rl_minimum_app_cli_version := rm_minimum_app_cli_version md;
         rl_runtime_image_digest := rm_runtime_image_digest md;
         rl_services := rl_services lock; rl_bridge_service := bridge_service (ws_health w) |}.
Proof.
  unfold build_release_lock. split.
  - intros Hb. repeat match type of Hb with
      | result_bind ?r _ = _ => destruct r as [?|?] eqn:?; simpl in Hb; [|discriminate]
      end. simplify_eq/=. repeat match goal with u : unit |- _ => destruct u end.
    eexists _, _. split_and!; try done. by apply result_mapM_ok.
  - intros (order & ports & H1 & H2 & H3 & H4 & H5%result_mapM_ok & H6 & H7 & H8).
    rewrite H1; simpl. rewrite H2; simpl. rewrite H3; simpl. rewrite H4; simpl.
    rewrite H5; simpl. rewrite H6; simpl. rewrite <- H8, H7. done.
Qed.

(** The last project found with its id. *)
Definition last_named (projects : list DiscoveredProject) (p : DiscoveredProject) : Prop :=
  ∃ before after, projects = before ++ p :: after ∧ service_id p ∉ service_id <$> after.
(** Every project with the id of an enabled one is enabled. *)
Definition no_disabled_namesake (projects : list DiscoveredProject) : Prop :=
  ∀ p, p ∈ projects → service_id p ∈ enabled_ids projects → is_enabled p = true.

(** A well-formed lock of a workspace. *)
Record lock_sound (w : WorkspaceManifest) (projects : list DiscoveredProject) (md : ReleaseMetadata)
    (lock : ReleaseLock) : Prop := {
  lk_ids : ls_service_id <$> rl_services lock ≡ₚ enabled_ids projects;
  lk_nodup : NoDup (ls_service_id <$> rl_services lock);
  lk_order : dependencies_first (service_dep projects) (ls_service_id <$> rl_services lock);
  lk_contents : ∀ s, s ∈ rl_services lock →
    ∃ p, last_named projects p ∧ s = locked_service (service_id p) (ls_port s) p;
  lk_enabled : no_disabled_namesake projects → ∀ s, s ∈ rl_services lock →
    ∃ p, p ∈ enabled_projects projects ∧ s = locked_service (service_id p) (ls_port s) p;
  lk_ports : NoDup (ls_port <$> rl_services lock);
  lk_range : ∀ s, s ∈ rl_services lock → in_range (ls_port s) ∧ ls_port s ∉ RESERVED_RUNTIME_PORTS;
  lk_bridge : ∀ id, rl_bridge_service lock = Some id → id ∈ ls_service_id <$> rl_services lock;
  lk_startup : ∀ s, s ∈ rl_services lock → service_startup_issues s = [];
  lk_workspace : rl_workspace_name lock = ws_name (workspace w)
    ∧ lp_mode (rl_pingap lock) = pg_mode (pingap w) ∧ lp_config (rl_pingap lock) = pg_config (pingap w)
    ∧ rl_bridge_service lock = bridge_service (ws_health w);
  lk_release : rl_schema_version lock = SCHEMA_VERSION ∧ rl_release_id lock = rm_release_id md
    ∧ lp_version (rl_pingap lock) = rm_pingap_version md
    ∧ lp_commit (rl_pingap lock) = rm_pingap_commit md
    ∧ rl_minimum_app_cli_version lock = rm_minimum_app_cli_version md
    ∧ rl_runtime_image_digest lock = rm_runtime_image_digest md;
}.

Lemma services_startup_ok services :
  services_startup services = Ok tt ↔ ∀ s, s ∈ services → service_startup_issues s = [].
Proof.
  induction services as [|s l IH]; simpl; [set_solver|].
  destruct (service_startup_issues s) eqn:Hs; [rewrite IH; set_solver|].
  split; [done|]. intros Hall. rewrite (Hall s) in Hs by left. done.
Qed.
Lemma check_bridge_ok bridge services :
  check_bridge bridge services = Ok tt →
  ∀ id, bridge = Some id → id ∈ ls_service_id <$> services.
Proof.
  unfold check_bridge. intros Hc id ->. unfold ensure in Hc. case_match eqn:He; [|done].
  apply existsb_exists in He as (s & Hin & Hid%bool_decide_eq_true).
  apply list_elem_of_fmap. exists s. split; [done|]. by apply list_elem_of_In.
Qed.

(** The locked services follow the order, with the allocated ports. *)
Lemma locked_services_ids by_id ports order services :
  Forall2 (λ id s, lock_service by_id ports id = Ok s) order services →
  ls_service_id <$> services = order
  ∧ ∀ s, s ∈ services → ports !! ls_service_id s = Some (ls_port s).
Proof.
  induction 1 as [|id s order services Hs _ [IH1 IH2]]; [split; [done|set_solver]|].
  apply lock_service_ok in Hs as (p & port & _ & Hport & ->). split; [by rewrite fmap_cons, IH1|].
  intros s' [->|Hin]%elem_of_cons; [done|by apply IH2].
Qed.
Lemma locked_ports_nodup ids ports (services : list LockedService) :
  ports_sound ids ports → NoDup (ls_service_id <$> services) →
  (∀ s, s ∈ services → ports !! ls_service_id s = Some (ls_port s)) →
  NoDup (ls_port <$> services).
Proof.
  intros [_ _ Hinj]. induction services as [|s l IH]; intros Hnd Hp; [constructor|].
  rewrite fmap_cons in *. apply NoDup_cons in Hnd as [Hs Hnd]. apply NoDup_cons. split.
  - intros (s' & Heq & Hin)%list_elem_of_fmap. apply Hs, list_elem_of_fmap. exists s'.
    split; [|done]. apply (Hinj _ _ (ls_port s)); [apply Hp; left|].
    rewrite Heq. apply Hp. by right.
  - apply IH; [done|]. intros s' Hs'. apply Hp. by right.
Qed.

Lemma projects_by_id_last projects id p :
  projects_by_id projects !! id = Some p ↔ last_named projects p ∧ service_id p = id.
Proof.
  unfold projects_by_id. rewrite btree_collect_last. split.
  - intros (before & after & (l1 & l2 & -> & Hl & ->)%fmap_app_inv & Ha).
    destruct l2 as [|q l2]; simplify_eq/=. rewrite <- list_fmap_compose in Ha.
    split; [|done]. by exists l1, l2.
  - intros [(before & after & -> & Ha) <-]. rewrite fmap_app, fmap_cons. do 2 eexists.
    split; [done|]. by rewrite <- list_fmap_compose.
Qed.
Lemma last_named_elem projects p : last_named projects p → p ∈ projects.
Proof. intros (before & after & -> & _). set_solver. Qed.
(** A locked service is the copy of the last project of its id. *)
Lemma locked_service_copy projects ports order services s :
  Forall2 (λ id s, lock_service (projects_by_id projects) ports id = Ok s) order services →
  s ∈ services → ∃ p, last_named projects p ∧ s = locked_service (service_id p) (ls_port s) p.
Proof.
  intros Hs [i Hi]%list_elem_of_lookup. destruct (Forall2_lookup_r _ _ _ _ _ Hs Hi) as (id & _ & Hl).
  apply lock_service_ok in Hl as (p & port & [Hp <-]%projects_by_id_last & _ & ->). by exists p.
Qed.

Lemma build_release_lock_sound w projects md lock :
  build_release_lock w projects md = Ok lock → lock_sound w projects md lock.
Proof.
  intros (order & ports & _ & _ & Ht & Hp & Hs & Hb & Hr & Hl)%build_release_lock_ok.
  pose proof (λ s, locked_service_copy _ _ _ _ s Hs) as Hcopy.
  apply locked_services_ids in Hs as [Hids Hports]. apply allocate_ports_sound in Hp.
  apply validate_topology_ok in Ht as [Hwf%collect_topology_issues_nil Ho].
  pose proof Hwf as [_ Hnd _ _ _]. destruct (topo_sort_order _ _ Hwf Ho) as [Hperm Hf].
  assert (NoDup order) by by rewrite Hperm.
  split; rewrite ?Hids; try done.
  - intros Hno s Hin. destruct (Hcopy s Hin) as (p & Hlast & Heq). exists p. split; [|done].
    apply list_elem_of_filter. split; [|by apply last_named_elem]. apply Hno; [by apply last_named_elem|].
    rewrite <- Hperm, <- Hids. apply list_elem_of_fmap. exists s. split; [by rewrite Heq|done].
  - apply (locked_ports_nodup (enabled_ids projects) ports); [done|by rewrite Hids|done].
  - intros s Hin. by apply (ps_range _ _ Hp (ls_service_id s)), Hports.
  - intros id Hid. rewrite <- Hids. apply (check_bridge_ok _ _ Hb). rewrite Hl in Hid. done.
  - unfold validate_release_startup in Hr.
    destruct (services_startup _) as [[]|] eqn:Hst; [|done]. by apply services_startup_ok.
  - by rewrite Hl.
  - by rewrite Hl.
Qed.

(** C35: A lock that was built is well formed: its services are the enabled
    services, each once and after its dependencies, on distinct ports of the
    internal range that the runtime does not use; each is the copy of the last
    project found with its id, which is the enabled one unless a disabled project
    shares the id; the bridge is one of them, no startup rule is violated, and the
    rest is the workspace's and the release's.  The loader refuses no such lock:
    every text that the TOML library reads as the lock loads as it, given that the
    library's two readers of a lock's text agree on its version. *)
Theorem built_lock_is_sound_and_loads `{TomlLaws} (w : WorkspaceManifest)
    (projects : list DiscoveredProject) (md : ReleaseMetadata) (lock : ReleaseLock) :
  build_release_lock w projects md = Ok lock →
  lock_sound w projects md lock
  ∧ ∀ content, toml_read_lock content = Some lock → load_release_lock content = Ok lock.
Proof.
  intros Hb. pose proof (build_release_lock_sound _ _ _ _ Hb) as Hs. split; [done|].
  intros content Hread.
  apply build_release_lock_ok in Hb as (order & ports & _ & _ & Ht & _ & _ & _ & Hr & _).
  unfold load_release_lock. rewrite (toml_one_version _ _ Hread). simpl.
  rewrite (proj1 (lk_release _ _ _ _ Hs)). simpl. unfold parse_current. rewrite Hread. simpl.
  rewrite bool_decide_false; [simpl; by rewrite Hr|].
  intros Hn. apply validate_topology_ok in Ht as [Hwf%collect_topology_issues_nil _].
  pose proof (lk_ids _ _ _ _ Hs) as Hids. destruct Hwf as [Hne _ _ _ _].
  rewrite Hn in Hids. simpl in Hids. apply Permutation_nil in Hids.
  by apply fmap_nil_inv in Hids.
Qed.

(** ** Independence from the order of the projects *)

Lemma service_dep_perm projects projects' a b :
  projects ≡ₚ projects' → service_dep projects a b ↔ service_dep projects' a b.
Proof.
  intros Hp. unfold service_dep, enabled_projects. apply exist_proper. intros p. by rewrite Hp.
Qed.
Lemma well_formed_topology_perm projects projects' :
  projects ≡ₚ projects' → well_formed_topology projects → well_formed_topology projects'.
Proof.
  intros Hp [Hne Hnd Hr Hcl Hac].
  assert (enabled_projects projects ≡ₚ enabled_projects projects') as He
    by (unfold enabled_projects; by rewrite Hp).
  split.
  - intros Hnil. rewrite Hnil in He. symmetry in He. by apply Permutation_nil in He.
  - unfold enabled_ids in *. by rewrite <- He.
  - by rewrite <- He.
  - intros a b. rewrite <- (service_dep_perm projects) by done. unfold enabled_ids in *.
    rewrite <- He. apply Hcl.
  - intros x Hx. apply (Hac x). revert Hx. apply tc_mono. intros a b.
    by rewrite (service_dep_perm projects).
Qed.

Lemma topo_sort_perm enabled enabled' :
  enabled ≡ₚ enabled' → NoDup (service_id <$> enabled) → topo_sort enabled = topo_sort enabled'.
Proof.
  intros Hp Hnd. assert (dependency_map enabled = dependency_map enabled') as Hm.
  { unfold dependency_map. rewrite (list_to_set_perm_L (service_id <$> enabled) (service_id <$> enabled'))
      by by rewrite Hp.
    apply btree_collect_perm; [|by rewrite Hp]. rewrite <- list_fmap_compose. exact Hnd. }
  apply topo_sort_eq. rewrite Hm. by apply topo_sort_eq.
Qed.
Lemma validate_topology_perm projects projects' order :
  projects ≡ₚ projects' → validate_topology projects = Ok order →
  validate_topology projects' = Ok order.
Proof.
  intros Hp [Hi Ho]%validate_topology_ok. apply collect_topology_issues_nil in Hi as Hwf.
  apply validate_topology_ok. split.
  - apply collect_topology_issues_nil. by eapply well_formed_topology_perm.
  - rewrite <- (topo_sort_perm (enabled_projects projects)); [done| |by destruct Hwf].
    unfold enabled_projects. by rewrite Hp.
Qed.

Lemma flat_map_nil_perm {A B} (f : A → list B) l l' :
  l ≡ₚ l' → flat_map f l = [] → flat_map f l' = [].
Proof. intros Hp. rewrite !flat_map_nil. by setoid_rewrite Hp. Qed.
Lemma collect_workspace_rules_perm mode bridge l l' :
  l ≡ₚ l' → collect_workspace_rules mode bridge l = [] → collect_workspace_rules mode bridge l' = [].
Proof.
  unfold collect_workspace_rules. intros Hp [Hb Hi]%app_nil. apply app_nil. split.
  - unfold bridge_issues in *. by eapply flat_map_nil_perm.
  - unfold count_kind in *. by rewrite <- Hp.
Qed.
Lemma validate_workspace_startup_perm w projects projects' :
  projects ≡ₚ projects' → validate_workspace_startup w projects = Ok tt →
  validate_workspace_startup w projects' = Ok tt.
Proof.
  unfold validate_workspace_startup, collect_workspace_startup_issues. rewrite !first_issue_ok.
  intros Hp. apply collect_workspace_rules_perm. by rewrite Hp.
Qed.

Lemma projects_by_id_lookup projects id p :
  NoDup (service_id <$> projects) →
  projects_by_id projects !! id = Some p ↔ p ∈ projects ∧ service_id p = id.
Proof.
  intros Hnd. unfold projects_by_id. rewrite btree_collect_lookup.
  - rewrite list_elem_of_fmap. naive_solver.
  - rewrite <- list_fmap_compose. exact Hnd.
Qed.

Lemma locked_service_source projects ports order services s :
  NoDup (service_id <$> projects) → order ≡ₚ enabled_ids projects →
  Forall2 (λ id s, lock_service (projects_by_id projects) ports id = Ok s) order services →
  s ∈ services →
  ∃ p port, p ∈ enabled_projects projects ∧ s = locked_service (service_id p) port p.
Proof.
  intros Hnd Hperm Hs Hin. apply list_elem_of_lookup in Hin as [i Hi].
  destruct (Forall2_lookup_r _ _ _ _ _ Hs Hi) as (id & Hid & Hl).
  apply lock_service_ok in Hl as (p & port & Hp & _ & ->).
  apply projects_by_id_lookup in Hp as [Hp <-]; [|done]. exists p, port. split; [|done].
  apply list_elem_of_lookup_2 in Hid. rewrite Hperm in Hid.
  apply list_elem_of_fmap in Hid as (q & Heq & Hq).
  enough (p = q) by congruence. pose proof Hq as Hq'. apply list_elem_of_filter in Hq' as [_ Hq'].
  apply list_elem_of_lookup in Hp as [j Hj], Hq' as [k Hk].
  enough (j = k) by congruence.
  apply (NoDup_lookup _ j k (service_id p) Hnd); rewrite list_lookup_fmap; [by rewrite Hj|].
  rewrite Hk. simpl. congruence.
Qed.

(** When no two projects, enabled or not, share a service id, every locked
    service is the copy of one enabled project, and the lock is the same
    whatever the order in which the projects were found. *)
Theorem lock_is_a_function_of_the_projects (w : WorkspaceManifest)
    (projects projects' : list DiscoveredProject) (md : ReleaseMetadata) (lock : ReleaseLock) :
  NoDup (service_id <$> projects) → projects ≡ₚ projects' →
  build_release_lock w projects md = Ok lock →
  build_release_lock w projects' md = Ok lock
  ∧ ∀ s, s ∈ rl_services lock →
      ∃ p, p ∈ projects ∧ is_enabled p = true ∧ s = locked_service (service_id p) (ls_port s) p.
Proof.
  intros Hnd Hp (order & ports & Hw & Hws & Ht & Hal & Hs & Hrest)%build_release_lock_ok. split.
  - apply build_release_lock_ok. exists order, ports. split_and!; try apply Hrest; [done|..].
    + by eapply validate_workspace_startup_perm.
    + by eapply validate_topology_perm.
    + by rewrite <- (allocate_ports_perm projects).
    + assert (projects_by_id projects' = projects_by_id projects) as ->; [|done].
      unfold projects_by_id. symmetry. apply btree_collect_perm; [|by rewrite Hp].
      rewrite <- list_fmap_compose. exact Hnd.
  - intros s Hin. apply validate_topology_ok in Ht as [Hwf%collect_topology_issues_nil Ho].
    destruct (topo_sort_order _ _ Hwf Ho) as [Hperm _].
    destruct (locked_service_source _ _ _ _ s Hnd Hperm Hs Hin) as (p & port & Hen & ->).
    apply list_elem_of_filter in Hen as [Hen Hin']. by exists p.
Qed.

(** A disabled project with the id of an enabled one replaces it in the lock
    when it comes later: the index of [build_release_lock] has every project,
    while duplicates are only looked for among the enabled ones. *)
Theorem disabled_namesake_replaces_service (w : WorkspaceManifest)
    (projects : list DiscoveredProject) (old : DiscoveredProject) (md : ReleaseMetadata)
    (lock : ReleaseLock) :
  is_enabled old = false → service_id old ∈ enabled_ids projects →
  build_release_lock w (projects ++ [old]) md = Ok lock →
  ∃ s, s ∈ rl_services lock ∧ s = locked_service (service_id old) (ls_port s) old
       ∧ ls_enabled s = false.
Proof.
  intros Hdis Hid Hb. pose proof (build_release_lock_sound _ _ _ _ Hb) as Hids%lk_ids.
  apply build_release_lock_ok in Hb as (order & ports & _ & _ & _ & _ & Hs & _).
  assert (service_id old ∈ ls_service_id <$> rl_services lock) as (s & Heq & Hin)%list_elem_of_fmap.
  { rewrite Hids. unfold enabled_ids, enabled_projects in *. rewrite filter_app, fmap_app.
    apply elem_of_app. by left. }
  exists s. split; [done|]. apply list_elem_of_lookup in Hin as [i Hi].
  destruct (Forall2_lookup_r _ _ _ _ _ Hs Hi) as (id & _ & Hl).
  apply lock_service_ok in Hl as (p & port & Hp & _ & ->). simpl in Heq. subst id.
  unfold projects_by_id in Hp. rewrite fmap_app in Hp. simpl in Hp.
  rewrite btree_collect_snoc, lookup_insert_eq in Hp. injection Hp as <-. done.
Qed.

(** ** A concrete workspace *)

Definition sample_project (enabled : bool) (d id : string) (deps : list string) : DiscoveredProject :=
  {| dir := d;
     manifest :=
       {| pj_schema_version := 1;
          pj_project := {| meta_service_id := id; meta_name := id; meta_type := Go; meta_kind := Web;
                           meta_enabled := enabled |};
          pj_build := {| build_command := ["sh"; "build.sh"]; build_artifact := "artifact.zip" |};
          pj_devbuild := None;
          pj_run := {| run_command := ["./server"]; run_migrate := []; run_depends_on := deps;
                       shutdown_timeout_seconds := 30 |};
          pj_devrun := None; pj_health := health_default; pj_proxy := None; pj_logs := [];
          pj_env := ∅ |} |}.
Definition sample_projects : list DiscoveredProject :=
  [sample_project true "backend" "api" ["db"]; sample_project true "store" "db" []].
Definition sample_workspace : WorkspaceManifest :=
  {| ws_schema_version := 1; workspace := {| ws_name := "shop"; ws_description := None |};
     pingap := {| pg_mode := Managed; pg_config := None |};
     ws_health := {| bridge_service := Some "api" |} |}.
Definition sample_metadata : ReleaseMetadata :=
  {| rm_release_id := "r1"; rm_pingap_version := "1"; rm_pingap_commit := "c";
     rm_minimum_app_cli_version := "0.3.9"; rm_runtime_image_digest := "image" |}.
Definition sample_lock : ReleaseLock :=
  {| rl_schema_version := 1; rl_release_id := "r1"; rl_workspace_name := "shop";
     rl_pingap := {| lp_mode := Managed; lp_config := None; lp_version := "1"; lp_commit := "c" |};
     rl_minimum_app_cli_version := "0.3.9"; rl_runtime_image_digest := "image";
     rl_services := [locked_service "db" 5763 (sample_project true "store" "db" []);
                     locked_service "api" 6583 (sample_project true "backend" "api" ["db"])];
     rl_bridge_service := Some "api" |}.
(** Readers of two texts: the lock of this release, and one of a later schema. *)
Definition later_lock : ReleaseLock :=
  {| rl_schema_version := 2; rl_release_id := "r2"; rl_workspace_name := "shop";
     rl_pingap := rl_pingap sample_lock; rl_minimum_app_cli_version := "1.0.0";
     rl_runtime_image_digest := "image"; rl_services := []; rl_bridge_service := None |}.
Definition sample_read (content : string) : option ReleaseLock :=
  if bool_decide (content = "release r1") then Some sample_lock
  else if bool_decide (content = "release r2") then Some later_lock else None.
Definition sample_toml : TomlReader :=
  {| toml_peek_version := λ content, rl_schema_version <$> sample_read content;
     toml_read_lock := sample_read |}.
Lemma sample_toml_laws : @TomlLaws sample_toml.
Proof. split. intros content lock Hread. simpl in *. by rewrite Hread. Qed.

Lemma topology_check_is_exact_witness :
  validate_topology sample_projects = Ok ["db"; "api"]
  ∧ ["db"; "api"] ≡ₚ enabled_ids sample_projects
  ∧ dependencies_first (service_dep sample_projects) ["db"; "api"].
Proof.
  assert (validate_topology sample_projects = Ok ["db"; "api"]) as Hv by (vm_compute; reflexivity).
  split; [exact Hv|]. exact (proj2 (topology_check_is_exact sample_projects) _ Hv).
Defined.

Lemma port_allocation_is_total_and_disjoint_witness :
  ∃ ports, allocate_ports sample_projects = Ok ports
           ∧ ports_sound (enabled_ids sample_projects) ports.
Proof.
  apply (proj1 (port_allocation_is_total_and_disjoint sample_projects (reverse sample_projects))).
  vm_compute. repeat constructor.
Defined.

Lemma built_lock_is_sound_and_loads_witness :
  build_release_lock sample_workspace sample_projects sample_metadata = Ok sample_lock
  ∧ no_disabled_namesake sample_projects
  ∧ lock_sound sample_workspace sample_projects sample_metadata sample_lock
  ∧ @load_release_lock sample_toml "release r1" = Ok sample_lock
  ∧ @load_release_lock sample_toml "release r2" = Err (NewerThanKnown 2 1)
  ∧ @load_release_lock sample_toml "release r3" = Err LoadParse.
Proof.
  assert (build_release_lock sample_workspace sample_projects sample_metadata = Ok sample_lock)
    as Hb by (vm_compute; reflexivity).
  destruct (@built_lock_is_sound_and_loads sample_toml sample_toml_laws sample_workspace
    sample_projects sample_metadata sample_lock Hb) as [Hs Hl].
  split; [exact Hb|]. split; [|split; [exact Hs|split; [exact (Hl "release r1" eq_refl)|]]].
  - intros p Hp _. revert p Hp. apply Forall_forall. repeat constructor.
  - split; reflexivity.
Defined.

Lemma lock_is_a_function_of_the_projects_witness :
  build_release_lock sample_workspace (reverse sample_projects) sample_metadata = Ok sample_lock.
Proof.
  refine (proj1 (lock_is_a_function_of_the_projects sample_workspace sample_projects
    (reverse sample_projects) sample_metadata sample_lock _ _ _)).
  - apply (bool_decide_unpack _). vm_compute. exact I.
  - symmetry. apply reverse_Permutation.
  - vm_compute. reflexivity.
Defined.

Lemma disabled_namesake_replaces_service_witness :
  ∃ lock, build_release_lock sample_workspace
            (sample_projects ++ [sample_project false "old" "db" []]) sample_metadata = Ok lock
  ∧ ∃ s, s ∈ rl_services lock ∧ ls_dir s = "old" ∧ ls_enabled s = false.
Proof.
  eexists. split; [vm_compute; reflexivity|].
  edestruct (disabled_namesake_replaces_service sample_workspace sample_projects
    (sample_project false "old" "db" []) sample_metadata) as (s & Hs & Heq & He).
  - reflexivity.
  - apply (bool_decide_unpack _). vm_compute. exact I.
  - vm_compute. reflexivity.
  - exists s. split; [exact Hs|]. split; [|exact He]. rewrite Heq. reflexivity.
Defined.
