(* ===== verification/PreviewModel.v ===== *)
(** * The preview contract ([shared_types/src/preview.rs])

    RCoder runs one development server per project, on one of several replicas.
    Which replica hosts it, on which port and in which state is recorded in one
    authoritative store with two implementations, in memory and in PostgreSQL.
    This file has the records of that store, the transitions of one record and
    the store's interface; times are counted in microseconds. *)
From S2P Require Import Prelude Validation.
From Stdlib Require Import Ascii.
Import Text.
Local Open Scope rust_scope.

Module Preview.

(** ** Identity *)

Definition PREVIEW_PORT_MIN : Z := 4000.
Definition PREVIEW_PORT_MAX : Z := 55000.
Definition PREVIEW_PORT_RESERVED_MIN : Z := 8000.
Definition PREVIEW_PORT_RESERVED_MAX : Z := 9000.
Definition KEY_SEP : string := String (ascii_of_nat 31) EmptyString.
Definition ISO_SEP : string := String (ascii_of_nat 30) EmptyString.

Record PreviewKeyInput := {
  ki_project_id : string;
  ki_tenant_id : option string;
  ki_space_id : option string;
  ki_isolation_type : option string;
  ki_resolved_path : string;
}.

Definition isolation_norm (tenant space isolation : option string) : string :=
  default EmptyString tenant +:+ ISO_SEP +:+ default EmptyString space
  +:+ ISO_SEP +:+ default EmptyString isolation.
Definition preview_key_of (input : PreviewKeyInput) : string :=
  ki_project_id input +:+ KEY_SEP
  +:+ isolation_norm (ki_tenant_id input) (ki_space_id input) (ki_isolation_type input)
  +:+ KEY_SEP +:+ ki_resolved_path input.

Definition is_preview_port (port : Z) : bool :=
  ((PREVIEW_PORT_MIN <=? port) && (port <=? PREVIEW_PORT_MAX)
   && negb ((PREVIEW_PORT_RESERVED_MIN <=? port) && (port <=? PREVIEW_PORT_RESERVED_MAX)))%Z.

(** [lo..] of a given length. *)
Fixpoint range (lo : Z) (len : nat) : list Z :=
  match len with
  | O => []
  | S len => lo :: range (lo + 1) len
  end.
Lemma elem_of_range x lo len : x ∈ range lo len ↔ (lo ≤ x < lo + Z.of_nat len)%Z.
Proof.
  revert lo. induction len as [|len IH]; intros lo; cbn [range].
  - rewrite elem_of_nil. lia.
  - rewrite elem_of_cons, IH. lia.
Qed.

(** ** Records *)

Inductive PreviewInstanceState := Starting | Ready | Stopping | Stopped | Failed | Unknown.
Inductive PreviewOperationKind := OpStart | OpStop.
Inductive PreviewOperationState := Accepted | Running | OpSucceeded | OpFailed | Uncertain.
#[global] Instance PreviewInstanceState_eq_dec : EqDecision PreviewInstanceState.
Proof. solve_decision. Defined.
#[global] Instance PreviewOperationKind_eq_dec : EqDecision PreviewOperationKind.
Proof. solve_decision. Defined.
#[global] Instance PreviewOperationState_eq_dec : EqDecision PreviewOperationState.
Proof. solve_decision. Defined.

Definition is_active (s : PreviewInstanceState) : bool :=
  match s with Starting | Ready | Stopping | Unknown => true | Stopped | Failed => false end.

Record PreviewHostIdentity := {
  h_host_id : string;
  h_pod_name : option string;
  h_pod_ip : option string;
}.
Record PreviewInstanceRecord := {
  preview_key : string;
  project_id : string;
  project_path : string;
  instance_id : string;
  revision : Z;
  operation_id : string;
  host_id : string;
  pod_name : option string;
  pod_ip : option string;
  pid : option Z;
  port : option Z;
  base_path : option string;
  state : PreviewInstanceState;
  last_heartbeat_at : option Z;
  last_activity_at : Z;
  detail : option string;
  updated_at : Z;
}.
#[global] Instance PreviewHostIdentity_eq_dec : EqDecision PreviewHostIdentity.
Proof. solve_decision. Defined.
#[global] Instance PreviewInstanceRecord_eq_dec : EqDecision PreviewInstanceRecord.
Proof. solve_decision. Defined.

Record PreviewOperationRecord := {
  po_operation_id : string;
  po_preview_key : string;
  po_kind : PreviewOperationKind;
  po_state : PreviewOperationState;
  po_host_id : string;
  po_requested_port : option Z;
  po_allocated_port : option Z;
  po_result : option string;
  po_created_at : Z;
  po_updated_at : Z;
}.

Record PreviewRecoveryEvidence := {
  ev_instance_id : string;
  ev_revision : Z;
  ev_detail : string;
}.
Record AcceptStartInput := {
  as_preview_key : string;
  as_project_id : string;
  as_project_path : string;
  as_host : PreviewHostIdentity;
  as_operation_id : string;
  as_instance_id : string;
  as_requested_port : option Z;
  as_base_path : option string;
  as_recover_unknown_evidence : option PreviewRecoveryEvidence;
}.
Record PreviewStartPortRetry := {
  rt_preview_key : string;
  rt_operation_id : string;
  rt_instance_id : string;
  rt_revision : Z;
  rt_previous_port : Z;
  rt_next_port : Z;
}.
(** The first constructor is the admission of a new instance. *)
Inductive AcceptStartOutcome :=
  | StartAdmitted (row : PreviewInstanceRecord)
  | ExistingReady (row : PreviewInstanceRecord)
  | Blocked (row : PreviewInstanceRecord).
Record ActivityFlushEntry := {
  fe_preview_key : string;
  fe_instance_id : string;
  fe_at : Z;
}.
Inductive PreviewStoreError := Unavailable | Conflict | Invalid.

(** Field updates. *)
Definition with_state (s : PreviewInstanceState) (r : PreviewInstanceRecord) : PreviewInstanceRecord :=
  {| preview_key := preview_key r; project_id := project_id r; project_path := project_path r;
     instance_id := instance_id r; revision := revision r; operation_id := operation_id r;
     host_id := host_id r; pod_name := pod_name r; pod_ip := pod_ip r; pid := pid r; port := port r; base_path := base_path r; state := s;
     last_heartbeat_at := last_heartbeat_at r; last_activity_at := last_activity_at r;
     detail := detail r; updated_at := updated_at r |}.
Definition with_pid (p : option Z) (r : PreviewInstanceRecord) : PreviewInstanceRecord :=
  {| preview_key := preview_key r; project_id := project_id r; project_path := project_path r;
     instance_id := instance_id r; revision := revision r; operation_id := operation_id r;
     host_id := host_id r; pod_name := pod_name r; pod_ip := pod_ip r; pid := p; port := port r; base_path := base_path r; state := state r;
     last_heartbeat_at := last_heartbeat_at r; last_activity_at := last_activity_at r;
     detail := detail r; updated_at := updated_at r |}.
Definition with_port (p : option Z) (r : PreviewInstanceRecord) : PreviewInstanceRecord :=
  {| preview_key := preview_key r; project_id := project_id r; project_path := project_path r;
     instance_id := instance_id r; revision := revision r; operation_id := operation_id r;
     host_id := host_id r; pod_name := pod_name r; pod_ip := pod_ip r; pid := pid r; port := p; base_path := base_path r; state := state r;
     last_heartbeat_at := last_heartbeat_at r; last_activity_at := last_activity_at r;
     detail := detail r; updated_at := updated_at r |}.
Definition with_base_path (b : option string) (r : PreviewInstanceRecord) : PreviewInstanceRecord :=
  {| preview_key := preview_key r; project_id := project_id r; project_path := project_path r;
     instance_id := instance_id r; revision := revision r; operation_id := operation_id r;
     host_id := host_id r; pod_name := pod_name r; pod_ip := pod_ip r; pid := pid r; port := port r; base_path := b; state := state r;
     last_heartbeat_at := last_heartbeat_at r; last_activity_at := last_activity_at r;
     detail := detail r; updated_at := updated_at r |}.
Definition with_revision (n : Z) (r : PreviewInstanceRecord) : PreviewInstanceRecord :=
  {| preview_key := preview_key r; project_id := project_id r; project_path := project_path r;
     instance_id := instance_id r; revision := n; operation_id := operation_id r;
     host_id := host_id r; pod_name := pod_name r; pod_ip := pod_ip r; pid := pid r; port := port r; base_path := base_path r; state := state r;
     last_heartbeat_at := last_heartbeat_at r; last_activity_at := last_activity_at r;
     detail := detail r; updated_at := updated_at r |}.
Definition with_operation_id (id : string) (r : PreviewInstanceRecord) : PreviewInstanceRecord :=
  {| preview_key := preview_key r; project_id := project_id r; project_path := project_path r;
     instance_id := instance_id r; revision := revision r; operation_id := id;
     host_id := host_id r; pod_name := pod_name r; pod_ip := pod_ip r; pid := pid r; port := port r; base_path := base_path r; state := state r;
     last_heartbeat_at := last_heartbeat_at r; last_activity_at := last_activity_at r;
     detail := detail r; updated_at := updated_at r |}.
Definition with_heartbeat (t : option Z) (r : PreviewInstanceRecord) : PreviewInstanceRecord :=
  {| preview_key := preview_key r; project_id := project_id r; project_path := project_path r;
     instance_id := instance_id r; revision := revision r; operation_id := operation_id r;
     host_id := host_id r; pod_name := pod_name r; pod_ip := pod_ip r; pid := pid r; port := port r; base_path := base_path r; state := state r;
     last_heartbeat_at := t; last_activity_at := last_activity_at r;
     detail := detail r; updated_at := updated_at r |}.
Definition with_activity (t : Z) (r : PreviewInstanceRecord) : PreviewInstanceRecord :=
  {| preview_key := preview_key r; project_id := project_id r; project_path := project_path r;
     instance_id := instance_id r; revision := revision r; operation_id := operation_id r;
     host_id := host_id r; pod_name := pod_name r; pod_ip := pod_ip r; pid := pid r; port := port r; base_path := base_path r; state := state r;
     last_heartbeat_at := last_heartbeat_at r; last_activity_at := t;
     detail := detail r; updated_at := updated_at r |}.
Definition with_detail (d : option string) (r : PreviewInstanceRecord) : PreviewInstanceRecord :=
  {| preview_key := preview_key r; project_id := project_id r; project_path := project_path r;
     instance_id := instance_id r; revision := revision r; operation_id := operation_id r;
     host_id := host_id r; pod_name := pod_name r; pod_ip := pod_ip r; pid := pid r; port := port r; base_path := base_path r; state := state r;
     last_heartbeat_at := last_heartbeat_at r; last_activity_at := last_activity_at r;
     detail := d; updated_at := updated_at r |}.
Definition with_updated_at (t : Z) (r : PreviewInstanceRecord) : PreviewInstanceRecord :=
  {| preview_key := preview_key r; project_id := project_id r; project_path := project_path r;
     instance_id := instance_id r; revision := revision r; operation_id := operation_id r;
     host_id := host_id r; pod_name := pod_name r; pod_ip := pod_ip r; pid := pid r; port := port r; base_path := base_path r; state := state r;
     last_heartbeat_at := last_heartbeat_at r; last_activity_at := last_activity_at r;
     detail := detail r; updated_at := t |}.

(** ** Transitions of one record *)

Definition retry_input_valid (input : PreviewStartPortRetry) : bool :=
  negb (str_is_empty (rt_preview_key input) || str_is_empty (rt_operation_id input)
        || str_is_empty (rt_instance_id input) || (rt_revision input <? 1)%Z
        || negb (is_preview_port (rt_previous_port input))
        || negb (is_preview_port (rt_next_port input))
        || (rt_previous_port input =? rt_next_port input)%Z).

(** The new record and whether it changed; an error leaves the record as it was. *)
Definition apply_start_port_retry (input : PreviewStartPortRetry) (at_ : Z)
    (r : PreviewInstanceRecord) : result (PreviewInstanceRecord * bool) PreviewStoreError :=
  let? _ := ensure (retry_input_valid input) Invalid in
  let? next_revision := ok_or (i64_checked_succ (rt_revision input)) Invalid in
  let? _ := ensure (bool_decide (preview_key r = rt_preview_key input)
                    && bool_decide (operation_id r = rt_operation_id input)
                    && bool_decide (instance_id r = rt_instance_id input)
                    && is_none (pid r)) Conflict in
  let? _ := ensure (bool_decide (state r = Starting)) Conflict in
  if (revision r =? next_revision)%Z && opt_is (port r) (rt_next_port input) then Ok (r, false) else
  let? _ := ensure ((revision r =? rt_revision input)%Z
                    && opt_is (port r) (rt_previous_port input)) Conflict in
  Ok (with_updated_at at_ (with_port (Some (rt_next_port input)) (with_revision next_revision r)), true).

(** The new record and whether this is the first publication. *)
Definition apply_running_publication (op : string) (rev p prt : Z) (base : option string) (at_ : Z)
    (r : PreviewInstanceRecord) : result (PreviewInstanceRecord * bool) PreviewStoreError :=
  let? _ := ensure (bool_decide (operation_id r = op) && (revision r =? rev)%Z
                    && opt_is (port r) prt && (0 <? p)%Z) Conflict in
  let? first_publication :=
    match state r with
    | Starting => Ok true
    | Ready => if opt_is (pid r) p then Ok false else Err Conflict
    | _ => Err Conflict
    end in
  let? _ := ensure (match base_path r, base with
                    | Some current, Some incoming => bool_decide (current = incoming)
                    | _, _ => true
                    end) Conflict in
  let complete_base := is_none (base_path r) && is_some base in
  let r1 := if (first_publication : bool)
            then with_activity (Z.max (last_activity_at r) at_)
                   (with_heartbeat (Some at_) (with_pid (Some p) (with_state Ready r)))
            else r in
  let r2 := if complete_base then with_base_path base r1 else r1 in
  let r3 := if (first_publication || complete_base)%bool then with_updated_at at_ r2 else r2 in
  Ok (r3, first_publication).

(** ** The store's interface *)

(** [PreviewLifecycleStore]; every method that writes reads the clock, its
    reading is the argument [now] (a method that reads it twice reads the same
    instant). *)
Class PreviewLifecycleStore (S : Type) := {
  accept_start : Z → AcceptStartInput → M S PreviewStoreError AcceptStartOutcome;
  retry_start_port : Z → PreviewStartPortRetry → M S PreviewStoreError PreviewInstanceRecord;
  publish_running : Z → string → string → Z → Z → Z → option string →
                    M S PreviewStoreError PreviewInstanceRecord;
  accept_stop : Z → string → string → M S PreviewStoreError PreviewInstanceRecord;
  mark_stopped : Z → string → string → Z → M S PreviewStoreError PreviewInstanceRecord;
  mark_failed : Z → string → string → Z → string → M S PreviewStoreError PreviewInstanceRecord;
  mark_unknown : Z → string → string → string → M S PreviewStoreError PreviewInstanceRecord;
  resolve_unknown_stopped : Z → string → string → string →
                            M S PreviewStoreError PreviewInstanceRecord;
  refresh_heartbeat : Z → string → string →
                      M S PreviewStoreError (option PreviewInstanceRecord);
  flush_activity : list ActivityFlushEntry → M S PreviewStoreError nat;
  get_instance : string → M S PreviewStoreError (option PreviewInstanceRecord);
  find_active_by_port : Z → M S PreviewStoreError (option PreviewInstanceRecord);
  active_ports : M S PreviewStoreError (list Z);
  list_by_host : string → bool → M S PreviewStoreError (list PreviewInstanceRecord);
  list_active : M S PreviewStoreError (list PreviewInstanceRecord);
  reconcile_host_reboot : Z → string → string →
                          M S PreviewStoreError (list PreviewInstanceRecord);
}.

(** A call of a method that writes. *)
Inductive Call :=
  | CallAcceptStart (input : AcceptStartInput)
  | CallRetryStartPort (input : PreviewStartPortRetry)
  | CallPublishRunning (key op : string) (rev p prt : Z) (base : option string)
  | CallAcceptStop (key op : string)
  | CallMarkStopped (key op : string) (rev : Z)
  | CallMarkFailed (key inst : string) (rev : Z) (why : string)
  | CallMarkUnknown (key inst why : string)
  | CallResolveUnknownStopped (key inst evidence : string)
  | CallRefreshHeartbeat (key inst : string)
  | CallFlushActivity (entries : list ActivityFlushEntry)
  | CallReconcileHostReboot (pod_uid boot_id : string).

(** Its answer: the records it returns (and the count of a flush). *)
Inductive Reply :=
  | ReplyStart (o : AcceptStartOutcome)
  | ReplyRow (r : PreviewInstanceRecord)
  | ReplyRowOpt (r : option PreviewInstanceRecord)
  | ReplyCount (n : nat)
  | ReplyRows (l : list PreviewInstanceRecord).

Definition mmap {S E A B} (f : A → B) (m : M S E A) : M S E B :=
  let! a := m in mret' (f a).

Section calls.
Context {S : Type} `{!PreviewLifecycleStore S}.

Definition perform (now : Z) (c : Call) : M S PreviewStoreError Reply :=
  match c with
  | CallAcceptStart i => mmap ReplyStart (accept_start now i)
  | CallRetryStartPort i => mmap ReplyRow (retry_start_port now i)
  | CallPublishRunning k o r p prt b => mmap ReplyRow (publish_running now k o r p prt b)
  | CallAcceptStop k o => mmap ReplyRow (accept_stop now k o)
  | CallMarkStopped k o r => mmap ReplyRow (mark_stopped now k o r)
  | CallMarkFailed k i r d => mmap ReplyRow (mark_failed now k i r d)
  | CallMarkUnknown k i d => mmap ReplyRow (mark_unknown now k i d)
  | CallResolveUnknownStopped k i e => mmap ReplyRow (resolve_unknown_stopped now k i e)
  | CallRefreshHeartbeat k i => mmap ReplyRowOpt (refresh_heartbeat now k i)
  | CallFlushActivity l => mmap ReplyCount (flush_activity l)
  | CallReconcileHostReboot u b => mmap ReplyRows (reconcile_host_reboot now u b)
  end.

(** A run: calls one after another, whatever each answers. *)
Fixpoint perform_all (calls : list (Z * Call)) (s : S) : S :=
  match calls with
  | [] => s
  | (now, c) :: calls => perform_all calls (perform now c s).2
  end.
End calls.

End Preview.
