(* ===== verification/PreviewMemory.v ===== *)
(** * The store in memory ([preview-coordinator/src/in_process.rs])

    One mutex covers every method, so each is one transition of the two maps.
    The records are changed in place: what a method wrote before it fails stays
    written. *)
From S2P Require Import Prelude Ordered Validation PreviewModel.
Import Text Preview.
Local Open Scope rust_scope.

Module Memory.

Record State := {
  instances : gmap string PreviewInstanceRecord;
  operations : gmap string PreviewOperationRecord;
}.
Definition empty_state : State := {| instances := ∅; operations := ∅ |}.

Abbreviation MemM := (M State PreviewStoreError).

Definition on_instances (f : gmap string PreviewInstanceRecord → gmap string PreviewInstanceRecord)
    (s : State) : State := {| instances := f (instances s); operations := operations s |}.
Definition on_operations (f : gmap string PreviewOperationRecord → gmap string PreviewOperationRecord)
    (s : State) : State := {| instances := instances s; operations := f (operations s) |}.
Definition put_instance (k : string) (r : PreviewInstanceRecord) : MemM unit :=
  mmodify (on_instances <[k := r]>).
Definition put_operation (id : string) (o : PreviewOperationRecord) : MemM unit :=
  mmodify (on_operations <[id := o]>).

(** A completed operation. *)
Definition op_finished (st : PreviewOperationState) (why : string) (now : Z)
    (o : PreviewOperationRecord) : PreviewOperationRecord :=
  {| po_operation_id := po_operation_id o; po_preview_key := po_preview_key o; po_kind := po_kind o;
     po_state := st; po_host_id := po_host_id o; po_requested_port := po_requested_port o;
     po_allocated_port := po_allocated_port o; po_result := Some why;
     po_created_at := po_created_at o; po_updated_at := now |}.
Definition op_moved (prt : option Z) (now : Z) (o : PreviewOperationRecord) : PreviewOperationRecord :=
  {| po_operation_id := po_operation_id o; po_preview_key := po_preview_key o; po_kind := po_kind o;
     po_state := po_state o; po_host_id := po_host_id o; po_requested_port := po_requested_port o;
     po_allocated_port := prt; po_result := po_result o;
     po_created_at := po_created_at o; po_updated_at := now |}.

(** [if let Some(op) = operations.get_mut(id) { .. }] *)
Definition finish_operation (id : string) (st : PreviewOperationState) (why : string) (now : Z)
    : MemM unit :=
  mmodify (on_operations (alter (op_finished st why now) id)).

Definition find_instance (k : string) : MemM PreviewInstanceRecord :=
  let! s := mget in mlift (ok_or (instances s !! k) Invalid).

Definition occupied_ports (s : State) : list Z :=
  omap port (filter (λ r, is_active (state r) = true) (btree_values (instances s))).

(** ** Admission of a start *)

(** The next revision, or the answer for a record that keeps its instance. *)
Definition next_revision (evidence : option PreviewRecoveryEvidence)
    (row : option PreviewInstanceRecord) : result (AcceptStartOutcome + Z) PreviewStoreError :=
  match row with
  | None => Ok (inr 1%Z)
  | Some record =>
      let successor := let? n := ok_or (i64_checked_succ (revision record)) Unavailable in
                       Ok (inr n) in
      match state record with
      | Ready => Ok (inl (ExistingReady record))
      | Starting | Stopping => Ok (inl (Blocked record))
      | Unknown =>
          match evidence with
          | None => Ok (inl (Blocked record))
          | Some e =>
              if negb (bool_decide (ev_instance_id e = instance_id record))
                 || negb (ev_revision e =? revision record)%Z || str_is_empty (ev_detail e)
              then Err Conflict else successor
          end
      | Stopped | Failed => successor
      end
  end.

Definition port_pool : list Z :=
  range PREVIEW_PORT_MIN (Z.to_nat (PREVIEW_PORT_MAX - PREVIEW_PORT_MIN + 1)).
Definition is_reserved (p : Z) : bool :=
  ((PREVIEW_PORT_RESERVED_MIN <=? p) && (p <=? PREVIEW_PORT_RESERVED_MAX))%Z.

(** The requested port, or the smallest free one of the pool. *)
Definition choose_port (occupied : list Z) (requested : option Z) : result Z PreviewStoreError :=
  match requested with
  | Some p =>
      let? _ := ensure (is_preview_port p) Invalid in
      let? _ := ensure (negb (bool_decide (p ∈ occupied))) Invalid in
      Ok p
  | None =>
      ok_or (find (λ p, negb (is_reserved p) && negb (bool_decide (p ∈ occupied))) port_pool) Invalid
  end.

Definition started_row (now : Z) (input : AcceptStartInput) (rev prt : Z) : PreviewInstanceRecord :=
  {| preview_key := as_preview_key input; project_id := as_project_id input;
     project_path := as_project_path input; instance_id := as_instance_id input; revision := rev;
     operation_id := as_operation_id input; host_id := h_host_id (as_host input);
     pod_name := h_pod_name (as_host input); pod_ip := h_pod_ip (as_host input); pid := None; port := Some prt;
     base_path := as_base_path input; state := Starting; last_heartbeat_at := None;
     last_activity_at := now; detail := ev_detail <$> as_recover_unknown_evidence input;
     updated_at := now |}.

Definition accept_start (now : Z) (input : AcceptStartInput) : MemM AcceptStartOutcome :=
  let! s := mget in
  let! next := mlift (next_revision (as_recover_unknown_evidence input)
                        (instances s !! as_preview_key input)) in
  match next with
  | inl outcome => mret' outcome
  | inr rev =>
      let occupied :=
        omap port (filter (λ r, is_active (state r) = true ∧ preview_key r ≠ as_preview_key input)
                     (btree_values (instances s))) in
      let! prt := mlift (choose_port occupied (as_requested_port input)) in
      let record := started_row now input rev prt in
      put_operation (as_operation_id input)
        {| po_operation_id := as_operation_id input; po_preview_key := as_preview_key input;
           po_kind := OpStart; po_state := Accepted; po_host_id := h_host_id (as_host input);
           po_requested_port := as_requested_port input; po_allocated_port := Some prt;
           po_result := None; po_created_at := now; po_updated_at := now |} ;;;
      put_instance (as_preview_key input) record ;;;
      mret' (StartAdmitted record)
  end.

(** ** The other transitions *)

Definition is_inflight (s : PreviewOperationState) : bool :=
  match s with Accepted | Running | Uncertain => true | OpSucceeded | OpFailed => false end.

Definition retry_start_port (now : Z) (input : PreviewStartPortRetry) : MemM PreviewInstanceRecord :=
  let! before := find_instance (rt_preview_key input) in
  let! (row, changed) := mlift (apply_start_port_retry input now before) in
  let! s := mget in
  let! op := mlift (ok_or (operations s !! rt_operation_id input) Invalid) in
  let! _ := mlift (ensure (bool_decide (po_kind op = OpStart)
                           && bool_decide (po_preview_key op = rt_preview_key input)
                           && bool_decide (po_operation_id op = rt_operation_id input)
                           && bool_decide (po_allocated_port op = port before)
                           && is_inflight (po_state op)) Conflict) in
  if negb changed then mret' before else
  let! _ := mlift (ensure (negb (existsb (λ r, is_active (state r)
                                               && opt_is (port r) (rt_next_port input))
                                   (btree_values (instances s)))) Invalid) in
  put_operation (rt_operation_id input) (op_moved (port row) (updated_at row) op) ;;;
  put_instance (rt_preview_key input) row ;;;
  mret' row.

Definition publish_running (now : Z) (key op : string) (rev p prt : Z) (base : option string)
    : MemM PreviewInstanceRecord :=
  let! record := find_instance key in
  let! (updated, first_publication) :=
    mlift (apply_running_publication op rev p prt base now record) in
  put_instance key updated ;;;
  mwhen first_publication
    (finish_operation op OpSucceeded ("pid=" +:+ pretty p +:+ " port=" +:+ pretty prt) now) ;;;
  mret' updated.

Definition accept_stop (now : Z) (key op : string) : MemM PreviewInstanceRecord :=
  let! record := find_instance key in
  let! s := mget in
  match operations s !! op with
  | Some o =>
      if negb (bool_decide (po_kind o = OpStop)) || negb (bool_decide (po_preview_key o = key))
         || negb (bool_decide (operation_id record = op))
      then mfail Conflict else mret' record
  | None =>
      if negb (is_active (state record)) then mret' record else
      let! _ := mlift (ensure (negb (bool_decide (state record = Stopping))) Conflict) in
      let stopping := with_operation_id op (with_state Stopping record) in
      put_instance key stopping ;;;
      let! rev := mlift (ok_or (i64_checked_succ (revision record)) Unavailable) in
      let updated := with_updated_at now (with_revision rev stopping) in
      put_instance key updated ;;;
      put_operation op
        {| po_operation_id := op; po_preview_key := key; po_kind := OpStop; po_state := Accepted;
           po_host_id := host_id record; po_requested_port := None;
           po_allocated_port := port record; po_result := None;
           po_created_at := now; po_updated_at := now |} ;;;
      mret' updated
  end.

Definition mark_stopped (now : Z) (key op : string) (rev : Z) : MemM PreviewInstanceRecord :=
  let! record := find_instance key in
  let mine := bool_decide (operation_id record = op) && (revision record =? rev)%Z in
  let! updated :=
    (if mine && bool_decide (state record = Stopping) then
       let updated := with_updated_at now (with_pid None (with_state Stopped record)) in
       put_instance key updated ;;; mret' updated
     else if bool_decide (state record = Stopped) && mine then mret' record
     else mfail Conflict) in
  finish_operation op OpSucceeded "stopped" now ;;;
  mret' updated.

Definition mark_failed (now : Z) (key inst : string) (rev : Z) (why : string)
    : MemM PreviewInstanceRecord :=
  let! record := find_instance key in
  let! _ := mlift (ensure (bool_decide (instance_id record = inst) && (revision record =? rev)%Z
                           && bool_decide (state record ∈ [Starting; Ready])) Conflict) in
  let updated := with_updated_at now (with_detail (Some why) (with_pid None (with_state Failed record))) in
  put_instance key updated ;;;
  mmodify (on_operations (fmap (λ o,
    if bool_decide (po_preview_key o = key) && bool_decide (po_state o ∈ [Accepted; Running])
    then op_finished OpFailed why now o else o))) ;;;
  mret' updated.

(** [mutate]: one record, checked and changed under the lock. *)
Definition mutate (key : string)
    (actor : PreviewInstanceRecord → result PreviewInstanceRecord PreviewStoreError)
    : MemM PreviewInstanceRecord :=
  let! record := find_instance key in
  let! updated := mlift (actor record) in
  put_instance key updated ;;;
  mret' updated.

Definition mark_unknown (now : Z) (key inst why : string) : MemM PreviewInstanceRecord :=
  mutate key (λ record,
    let? _ := ensure (bool_decide (instance_id record = inst) && is_active (state record)) Conflict in
    Ok (with_updated_at now (with_detail (Some why) (with_state Unknown record)))).

Definition resolve_unknown_stopped (now : Z) (key inst evidence : string)
    : MemM PreviewInstanceRecord :=
  mutate key (λ record,
    let? _ := ensure (bool_decide (instance_id record = inst)
                      && bool_decide (state record = Unknown)) Conflict in
    Ok (with_updated_at now (with_detail (Some evidence) (with_pid None (with_state Stopped record))))).

Definition refresh_heartbeat (now : Z) (key inst : string) : MemM (option PreviewInstanceRecord) :=
  let! s := mget in
  match instances s !! key with
  | None => mret' None
  | Some record =>
      if negb (bool_decide (instance_id record = inst))
         || negb (bool_decide (state record ∈ [Ready; Unknown]))
      then mret' None else
      let updated := with_updated_at now (with_heartbeat (Some now) record) in
      put_instance key updated ;;;
      mret' (Some updated)
  end.

(** One entry of a flush, and how many records it moved forward. *)
Definition flush_entry (rows : gmap string PreviewInstanceRecord) (e : ActivityFlushEntry)
    : gmap string PreviewInstanceRecord * nat :=
  match rows !! fe_preview_key e with
  | None => (rows, 0)
  | Some record =>
      if is_active (state record) && bool_decide (instance_id record = fe_instance_id e)
         && (last_activity_at record <? fe_at e)%Z
      then (<[fe_preview_key e := with_activity (fe_at e) record]> rows, 1)
      else (rows, 0)
  end.
Fixpoint flush_entries (rows : gmap string PreviewInstanceRecord) (entries : list ActivityFlushEntry)
    : gmap string PreviewInstanceRecord * nat :=
  match entries with
  | [] => (rows, 0)
  | e :: entries =>
      let '(rows1, n1) := flush_entry rows e in
      let '(rows2, n2) := flush_entries rows1 entries in
      (rows2, n1 + n2)
  end.
Definition flush_activity (entries : list ActivityFlushEntry) : MemM nat :=
  let! s := mget in
  let '(rows, updated) := flush_entries (instances s) entries in
  mmodify (on_instances (λ _, rows)) ;;;
  mret' updated.

(** Records of an earlier process of this pod. *)
Definition is_prior_boot (pod_uid boot_id : string) (r : PreviewInstanceRecord) : bool :=
  starts_with (pod_uid +:+ ":") (host_id r)
  && negb (bool_decide (host_id r = pod_uid +:+ ":" +:+ boot_id))
  && is_active (state r).
Definition rebooted (now : Z) (pod_uid boot_id : string) (r : PreviewInstanceRecord)
    : PreviewInstanceRecord :=
  with_updated_at now
    (with_detail (Some ("host reboot reconciled by " +:+ pod_uid +:+ ":" +:+ boot_id))
       (with_pid None (with_state Stopped r))).
Definition reconcile_host_reboot (now : Z) (pod_uid boot_id : string)
    : MemM (list PreviewInstanceRecord) :=
  let! s := mget in
  mmodify (on_instances (fmap (λ r, if is_prior_boot pod_uid boot_id r
                                    then rebooted now pod_uid boot_id r else r))) ;;;
  mret' (rebooted now pod_uid boot_id <$>
           filter (λ r, is_prior_boot pod_uid boot_id r = true) (btree_values (instances s))).

(** ** Queries *)

(** [iter.max_by_key(|r| r.revision)]: the last of the greatest. *)
Definition max_by_revision (rows : list PreviewInstanceRecord) : option PreviewInstanceRecord :=
  foldl (λ best r, match best with
                   | None => Some r
                   | Some b => if (revision b <=? revision r)%Z then Some r else Some b
                   end) None rows.

Definition get (key : string) : MemM (option PreviewInstanceRecord) :=
  mgets (λ s, instances s !! key).
Definition find_active_by_port (prt : Z) : MemM (option PreviewInstanceRecord) :=
  mgets (λ s, max_by_revision
    (filter (λ r, is_active (state r) = true ∧ port r = Some prt) (btree_values (instances s)))).
Definition active_ports : MemM (list Z) := mgets occupied_ports.
Definition list_by_host (h : string) (active_only : bool) : MemM (list PreviewInstanceRecord) :=
  mgets (λ s, filter (λ r, host_id r = h ∧ negb active_only || is_active (state r) = true)
                (btree_values (instances s))).
Definition list_active : MemM (list PreviewInstanceRecord) :=
  mgets (λ s, filter (λ r, is_active (state r) = true) (btree_values (instances s))).

#[global] Instance InProcessPreviewStore : PreviewLifecycleStore State := {|
  Preview.accept_start := accept_start;
  Preview.retry_start_port := retry_start_port;
  Preview.publish_running := publish_running;
  Preview.accept_stop := accept_stop;
  Preview.mark_stopped := mark_stopped;
  Preview.mark_failed := mark_failed;
  Preview.mark_unknown := mark_unknown;
  Preview.resolve_unknown_stopped := resolve_unknown_stopped;
  Preview.refresh_heartbeat := refresh_heartbeat;
  Preview.flush_activity := flush_activity;
  Preview.get_instance := get;
  Preview.find_active_by_port := find_active_by_port;
  Preview.active_ports := active_ports;
  Preview.list_by_host := list_by_host;
  Preview.list_active := list_active;
  Preview.reconcile_host_reboot := reconcile_host_reboot;
|}.

End Memory.
