(* ===== verification/PreviewPostgres.v ===== *)
(** * The store in PostgreSQL ([rcoder-storage/src/preview_lifecycle])

    Two tables, with the columns of [db/models.rs] and the constraints of
    [schema/preview-pg-v1.sql]; the conversion of rows ([domain.rs]); and one
    transaction per method ([postgres.rs]).  A transaction locks the row it
    works on, and every transaction that can take a port holds the allocation
    lock, so transactions are taken one at a time.  The database may abort a
    transaction, or commit it and lose the answer: [tx_outcomes] lists what it
    will do.  JSON documents are kept as the values they encode.

    Parameters ([PgBackend]): the SHA-256 of a canonical request, the instants
    a timestamp column can be read back as, the collation that orders keys, and
    the row an unordered query returns first. *)
From stdpp Require Import sorting.
From Stdlib Require Import Ascii.
From S2P Require Import Prelude Ordered Validation PreviewModel.
Import Text Preview.
Local Open Scope rust_scope.

Module Postgres.

(** ** Tables *)

Record InstanceRow := {
  ir_preview_key : string;
  ir_project_id : string;
  ir_project_path : string;
  ir_instance_id : string;
  ir_revision : Z;
  ir_operation_id : option string;
  ir_host_id : string;
  ir_pod_name : option string;
  ir_pod_ip : option string;
  ir_pid : option Z;
  ir_port : option Z;
  ir_base_path : option string;
  ir_state : string;
  ir_last_heartbeat_at_us : option Z;
  ir_last_activity_at_us : Z;
  ir_detail : option string;
  ir_updated_at_us : Z;
}.

(** The request of an operation, whose canonical JSON is hashed and kept. *)
Inductive Intent :=
  | StartIntent (key project path instance host_ : string) (pod_name_ pod_ip_ : option string)
      (requested : option Z) (recovery : option PreviewRecoveryEvidence) (base : option string)
  | StopIntent (key instance : string).
(** The result of an operation. *)
Inductive Outcome :=
  | Published (p prt : Z)
  | SupersededBy (op : string)
  | StoppedTrue
  | DetailIs (why : string)
  | RecoveryIs (why : option string)
  | RecoveryEvidenceIs (e : PreviewRecoveryEvidence).

Record OperationRow := {
  or_operation_id : string;
  or_preview_key : string;
  or_instance_id : string;
  or_request_fingerprint : string;
  or_kind : string;
  or_state : string;
  or_host_id : string;
  or_requested_port : option Z;
  or_allocated_port : option Z;
  or_payload_version : Z;
  or_request_json : Intent;
  or_result_json : option Outcome;
  or_created_at_us : Z;
  or_updated_at_us : Z;
}.

Record Tables := {
  preview_instances : gmap string InstanceRow;
  preview_operations : gmap string OperationRow;
}.
Definition set_instances (i : gmap string InstanceRow) (t : Tables) : Tables :=
  {| preview_instances := i; preview_operations := preview_operations t |}.
Definition set_operations (o : gmap string OperationRow) (t : Tables) : Tables :=
  {| preview_instances := preview_instances t; preview_operations := o |}.

Class PgBackend := {
  intent_sha256 : Intent → string;
  ts_representable : Z → bool;
  pg_collation : list string → list string;
  pg_first : list InstanceRow → option InstanceRow;
}.

(** ** Constraints of the schema *)

Definition active_states : list string := ["starting"; "ready"; "stopping"; "unknown"].
Definition row_active (r : InstanceRow) : bool := bool_decide (ir_state r ∈ active_states).
Definition port_in_range (p : option Z) : bool :=
  from_option (λ p, (1 <=? p) && (p <=? 65535))%Z true p.
Definition instance_checks (r : InstanceRow) : bool :=
  negb (str_is_empty (ir_preview_key r)) && negb (str_is_empty (ir_instance_id r))
  && (1 <=? ir_revision r)%Z && from_option (λ p, 0 <? p)%Z true (ir_pid r)
  && port_in_range (ir_port r)
  && bool_decide (ir_state r ∈ active_states ++ ["stopped"; "failed"])
  && (negb (row_active r) || is_some (ir_port r)).
Definition operation_checks (t : Tables) (r : OperationRow) : bool :=
  negb (str_is_empty (or_operation_id r)) && is_some (preview_instances t !! or_preview_key r)
  && negb (str_is_empty (or_instance_id r)) && (String.length (or_request_fingerprint r) =? 64)
  && bool_decide (or_kind r ∈ ["start"; "stop"])
  && bool_decide (or_state r ∈ ["accepted"; "running"; "succeeded"; "failed"; "uncertain"])
  && port_in_range (or_requested_port r) && port_in_range (or_allocated_port r)
  && (or_payload_version r =? 1)%Z.
Definition schema_ok (t : Tables) : bool :=
  let rows := btree_values (preview_instances t) in
  forallb instance_checks rows
  && bool_decide (NoDup (ir_instance_id <$> rows))
  && bool_decide (NoDup (omap ir_port (filter (λ r, row_active r = true) rows)))
  && forallb (operation_checks t) (btree_values (preview_operations t)).

(** ** Rows and records ([domain.rs]) *)

Definition parse_state (raw : string) : result PreviewInstanceState PreviewStoreError :=
  if bool_decide (raw = "starting") then Ok Starting
  else if bool_decide (raw = "ready") then Ok Ready
  else if bool_decide (raw = "stopping") then Ok Stopping
  else if bool_decide (raw = "stopped") then Ok Stopped
  else if bool_decide (raw = "failed") then Ok Failed
  else if bool_decide (raw = "unknown") then Ok Unknown
  else Err Unavailable.
Definition state_str (s : PreviewInstanceState) : string :=
  match s with
  | Starting => "starting" | Ready => "ready" | Stopping => "stopping"
  | Stopped => "stopped" | Failed => "failed" | Unknown => "unknown"
  end.

Section store.
Context `{PgBackend}.

Definition timestamp (value : Z) : result Z PreviewStoreError :=
  if ts_representable value then Ok value else Err Unavailable.
Definition timestamp_opt (value : option Z) : result (option Z) PreviewStoreError :=
  match value with
  | Some v => let? t := timestamp v in Ok (Some t)
  | None => Ok None
  end.
(** [u16::try_from]. *)
Definition to_u16 (value : option Z) : result (option Z) PreviewStoreError :=
  match value with
  | Some v => if (0 <=? v)%Z && (v <=? 65535)%Z then Ok (Some v) else Err Unavailable
  | None => Ok None
  end.

Definition record (row : InstanceRow) : result PreviewInstanceRecord PreviewStoreError :=
  let? st := parse_state (ir_state row) in
  let? prt := to_u16 (ir_port row) in
  let? _ := ensure (negb ((ir_revision row <? 1)%Z || str_is_empty (ir_instance_id row)
                          || str_is_empty (ir_host_id row)
                          || from_option (λ p, p <=? 0)%Z false (ir_pid row)
                          || opt_is prt 0%Z
                          || (is_active st && is_none prt))) Unavailable in
  let? op := ok_or (ir_operation_id row ≫= λ id, if str_is_empty id then None else Some id)
               Unavailable in
  let? heartbeat := timestamp_opt (ir_last_heartbeat_at_us row) in
  let? activity := timestamp (ir_last_activity_at_us row) in
  let? updated := timestamp (ir_updated_at_us row) in
  Ok {| preview_key := ir_preview_key row; project_id := ir_project_id row;
        project_path := ir_project_path row; instance_id := ir_instance_id row;
        revision := ir_revision row; operation_id := op;
        host_id := ir_host_id row; pod_name := ir_pod_name row; pod_ip := ir_pod_ip row;
        pid := ir_pid row; port := prt; base_path := ir_base_path row; state := st;
        last_heartbeat_at := heartbeat; last_activity_at := activity; detail := ir_detail row;
        updated_at := updated |}.

(** ** Statements *)

Abbreviation TxM := (M Tables PreviewStoreError).

Definition get (key : string) : TxM (option PreviewInstanceRecord) :=
  let! t := mget in
  match preview_instances t !! key with
  | None => mret' None
  | Some row => let! r := mlift (record row) in mret' (Some r)
  end.
(** The row lock of [current] has no effect here: transactions do not overlap. *)
Definition current (key : string) : TxM PreviewInstanceRecord :=
  let! r := get key in mlift (ok_or r Invalid).

(** The columns an update of an instance writes. *)
Definition saved (r : PreviewInstanceRecord) (old : InstanceRow) : InstanceRow :=
  {| ir_preview_key := ir_preview_key old; ir_project_id := ir_project_id old;
     ir_project_path := ir_project_path old; ir_instance_id := ir_instance_id old;
     ir_revision := revision r; ir_operation_id := Some (operation_id r);
     ir_host_id := ir_host_id old; ir_pod_name := ir_pod_name old; ir_pod_ip := ir_pod_ip old;
     ir_pid := pid r; ir_port := port r; ir_base_path := base_path r;
     ir_state := state_str (state r); ir_last_heartbeat_at_us := last_heartbeat_at r;
     ir_last_activity_at_us := last_activity_at r; ir_detail := detail r;
     ir_updated_at_us := updated_at r |}.

(** [UPDATE .. WHERE preview_key, instance_id, revision, operation_id, state]. *)
Definition save (before row : PreviewInstanceRecord) : TxM unit :=
  let! t := mget in
  match preview_instances t !! preview_key before with
  | Some old =>
      if bool_decide (ir_instance_id old = instance_id before)
         && (ir_revision old =? revision before)%Z
         && opt_is (ir_operation_id old) (operation_id before)
         && bool_decide (ir_state old = state_str (state before))
      then mmodify (set_instances (<[preview_key before := saved row old]> (preview_instances t)))
      else mfail Conflict
  | None => mfail Conflict
  end.

Definition operation (id : string) : TxM (option OperationRow) :=
  mgets (λ t, preview_operations t !! id).
Definition put_operation (id : string) (o : OperationRow) : TxM unit :=
  mmodify (λ t, set_operations (<[id := o]> (preview_operations t)) t).

(** An [INSERT]: the primary key must be new. *)
Definition insert_operation (row : PreviewInstanceRecord) (kind : string) (requested : option Z)
    (input : Intent) : TxM unit :=
  let! old := operation (operation_id row) in
  let! _ := mlift (ensure (is_none old) Unavailable) in
  put_operation (operation_id row)
    {| or_operation_id := operation_id row; or_preview_key := preview_key row;
       or_instance_id := instance_id row; or_request_fingerprint := intent_sha256 input;
       or_kind := kind; or_state := "accepted"; or_host_id := host_id row;
       or_requested_port := requested; or_allocated_port := port row; or_payload_version := 1;
       or_request_json := input; or_result_json := None; or_created_at_us := updated_at row;
       or_updated_at_us := updated_at row |}.

Definition op_inflight (o : OperationRow) : bool :=
  bool_decide (or_state o ∈ ["accepted"; "running"; "uncertain"]).
Definition op_finished (st : string) (res : Outcome) (at_ : Z) (o : OperationRow) : OperationRow :=
  {| or_operation_id := or_operation_id o; or_preview_key := or_preview_key o;
     or_instance_id := or_instance_id o; or_request_fingerprint := or_request_fingerprint o;
     or_kind := or_kind o; or_state := st; or_host_id := or_host_id o;
     or_requested_port := or_requested_port o; or_allocated_port := or_allocated_port o;
     or_payload_version := or_payload_version o; or_request_json := or_request_json o;
     or_result_json := Some res; or_created_at_us := or_created_at_us o; or_updated_at_us := at_ |}.
Definition op_moved (prt at_ : Z) (o : OperationRow) : OperationRow :=
  {| or_operation_id := or_operation_id o; or_preview_key := or_preview_key o;
     or_instance_id := or_instance_id o; or_request_fingerprint := or_request_fingerprint o;
     or_kind := or_kind o; or_state := or_state o; or_host_id := or_host_id o;
     or_requested_port := or_requested_port o; or_allocated_port := Some prt;
     or_payload_version := or_payload_version o; or_request_json := or_request_json o;
     or_result_json := or_result_json o; or_created_at_us := or_created_at_us o;
     or_updated_at_us := at_ |}.

(** Complete the operation of a record, unless it is complete already. *)
Definition finish (row : PreviewInstanceRecord) (st : string) (res : Outcome) : TxM unit :=
  let! found := operation (operation_id row) in
  let! op := mlift (ok_or found Unavailable) in
  let! _ := mlift (ensure (bool_decide (or_preview_key op = preview_key row)
                           && bool_decide (or_instance_id op = instance_id row)
                           && (or_payload_version op =? 1)%Z) Conflict) in
  mwhen (op_inflight op) (put_operation (operation_id row) (op_finished st res (updated_at row) op)).

(** Rows in the order of a query, decoded. *)
Definition rows_in_order (t : Tables) (p : InstanceRow → bool) : list InstanceRow :=
  filter (λ r, p r = true)
    (omap (λ k, preview_instances t !! k) (pg_collation (btree_keys (preview_instances t)))).
Fixpoint decode_all (rows : list InstanceRow)
    : result (list PreviewInstanceRecord) PreviewStoreError :=
  match rows with
  | [] => Ok []
  | row :: rows => let? r := record row in let? rs := decode_all rows in Ok (r :: rs)
  end.
Definition active : TxM (list PreviewInstanceRecord) :=
  let! t := mget in mlift (decode_all (rows_in_order t row_active)).
Fixpoint ports_of (rows : list PreviewInstanceRecord) : result (list Z) PreviewStoreError :=
  match rows with
  | [] => Ok []
  | r :: rows => let? p := ok_or (port r) Unavailable in let? ps := ports_of rows in Ok (p :: ps)
  end.
Definition ports : TxM (list Z) :=
  let! rows := active in mlift (ports_of rows).

Definition port_pool : list Z :=
  range PREVIEW_PORT_MIN (Z.to_nat (PREVIEW_PORT_MAX - PREVIEW_PORT_MIN + 1)).
Definition allocate (occupied : list Z) (requested : option Z) : result Z PreviewStoreError :=
  match requested with
  | Some p =>
      if negb (is_preview_port p) || bool_decide (p ∈ occupied) then Err Invalid else Ok p
  | None =>
      ok_or (find (λ p, is_preview_port p && negb (bool_decide (p ∈ occupied))) port_pool) Invalid
  end.

(** ** Admission of a start *)

Definition start_input (input : AcceptStartInput) : Intent :=
  StartIntent (as_preview_key input) (as_project_id input) (as_project_path input)
    (as_instance_id input) (h_host_id (as_host input)) (h_pod_name (as_host input))
    (h_pod_ip (as_host input)) (as_requested_port input) (as_recover_unknown_evidence input)
    (as_base_path input).

(** The same operation id again: the request must be the same, and still the
    one its record is at. *)
Definition replay_start (input : AcceptStartInput) (existing : option PreviewInstanceRecord)
    (previous : OperationRow) : result AcceptStartOutcome PreviewStoreError :=
  let? _ := ensure (bool_decide (or_kind previous = "start")
                    && bool_decide (or_preview_key previous = as_preview_key input)
                    && bool_decide (or_instance_id previous = as_instance_id input)
                    && bool_decide (or_request_fingerprint previous = intent_sha256 (start_input input))
                    && (or_payload_version previous =? 1)%Z) Conflict in
  let? row := ok_or existing Unavailable in
  let? _ := ensure (bool_decide (instance_id row = as_instance_id input)
                    && bool_decide (operation_id row = as_operation_id input)) Conflict in
  Ok (if bool_decide (state row = Ready) then ExistingReady row else Blocked row).

(** What a record without its instance becomes before a new one is admitted:
    an unknown one is settled first.  [inl] is the answer that ends the call. *)
Definition clear_previous (now : Z) (input : AcceptStartInput) (row : PreviewInstanceRecord)
    : TxM (AcceptStartOutcome + unit) :=
  match state row with
  | Ready => mret' (inl (ExistingReady row))
  | Starting | Stopping => mret' (inl (Blocked row))
  | Unknown =>
      match as_recover_unknown_evidence input with
      | None => mret' (inl (Blocked row))
      | Some e =>
          let! _ := mlift (ensure (bool_decide (ev_instance_id e = instance_id row)
                                   && (ev_revision e =? revision row)%Z
                                   && negb (str_is_empty (ev_detail e))) Conflict) in
          let stopped := with_updated_at now (with_detail (Some (ev_detail e))
                           (with_pid None (with_state Stopped row))) in
          save row stopped ;;;
          finish stopped "failed" (RecoveryEvidenceIs e) ;;;
          mret' (inr tt)
      end
  | Stopped | Failed => mret' (inr tt)
  end.

Definition started_row (now : Z) (input : AcceptStartInput) (rev prt : Z) : InstanceRow :=
  {| ir_preview_key := as_preview_key input; ir_project_id := as_project_id input;
     ir_project_path := as_project_path input; ir_instance_id := as_instance_id input;
     ir_revision := rev; ir_operation_id := Some (as_operation_id input);
     ir_host_id := h_host_id (as_host input); ir_pod_name := h_pod_name (as_host input);
     ir_pod_ip := h_pod_ip (as_host input); ir_pid := None; ir_port := Some prt;
     ir_base_path := as_base_path input; ir_state := "starting"; ir_last_heartbeat_at_us := None;
     ir_last_activity_at_us := now; ir_detail := ev_detail <$> as_recover_unknown_evidence input;
     ir_updated_at_us := now |}.

(** The row the admission replaces must still be the one it looked at. *)
Definition recheck_previous (key : string) (previous : PreviewInstanceRecord) : TxM unit :=
  let! found := get key in
  let! observed := mlift (ok_or found Conflict) in
  let! _ := mlift (ensure (bool_decide (instance_id observed = instance_id previous)
                           && (revision observed =? revision previous)%Z
                           && negb (is_active (state observed))) Conflict) in
  mret' tt.

Definition write_started (now : Z) (input : AcceptStartInput) (rev prt : Z)
    (existing : option PreviewInstanceRecord) : TxM AcceptStartOutcome :=
  match existing with
  | Some previous => recheck_previous (as_preview_key input) previous
  | None => mret' tt
  end ;;;
  mmodify (λ t, set_instances
    (<[as_preview_key input := started_row now input rev prt]> (preview_instances t)) t) ;;;
  let! found := get (as_preview_key input) in
  let! row := mlift (ok_or found Unavailable) in
  insert_operation row "start" (as_requested_port input) (start_input input) ;;;
  mret' (StartAdmitted row).

(** Without an operation of this id. *)
Definition admit_start (now : Z) (input : AcceptStartInput)
    (existing : option PreviewInstanceRecord) : TxM AcceptStartOutcome :=
  let! cleared := match existing with
                  | Some row => clear_previous now input row
                  | None => mret' (inr tt)
                  end in
  match cleared with
  | inl outcome => mret' outcome
  | inr _ =>
      let! rev := mlift (match existing with
                         | Some row => ok_or (i64_checked_succ (revision row)) Unavailable
                         | None => Ok 1%Z
                         end) in
      let! occupied := ports in
      let! prt := mlift (allocate occupied (as_requested_port input)) in
      write_started now input rev prt existing
  end.

Definition accept_start_tx (now : Z) (input : AcceptStartInput) : TxM AcceptStartOutcome :=
  let! _ := mlift (ensure (negb (str_is_empty (as_preview_key input)
                                 || str_is_empty (as_project_id input)
                                 || str_is_empty (as_instance_id input)
                                 || str_is_empty (as_operation_id input)
                                 || str_is_empty (h_host_id (as_host input)))) Invalid) in
  let! existing := get (as_preview_key input) in
  let! previous := operation (as_operation_id input) in
  match previous with
  | Some previous => mlift (replay_start input existing previous)
  | None => admit_start now input existing
  end.

(** ** The other transactions *)

Definition retry_start_port_tx (now : Z) (input : PreviewStartPortRetry)
    : TxM PreviewInstanceRecord :=
  let! before := current (rt_preview_key input) in
  let! (row, changed) := mlift (apply_start_port_retry input now before) in
  let! found := operation (rt_operation_id input) in
  let! op := mlift (ok_or found Conflict) in
  let! _ := mlift (ensure (bool_decide (or_kind op = "start")
                           && bool_decide (or_preview_key op = rt_preview_key input)
                           && bool_decide (or_instance_id op = rt_instance_id input)
                           && bool_decide (or_allocated_port op = port before)
                           && (or_payload_version op =? 1)%Z && op_inflight op) Conflict) in
  if negb changed then mret' before else
  let! occupied := ports in
  let! _ := mlift (allocate occupied (Some (rt_next_port input))) in
  save before row ;;;
  let! _ := mlift (ensure (opt_is (or_allocated_port op) (rt_previous_port input)) Conflict) in
  put_operation (rt_operation_id input) (op_moved (rt_next_port input) (updated_at row) op) ;;;
  mret' row.

Definition publish_running_tx (now : Z) (key op : string) (rev p prt : Z) (base : option string)
    : TxM PreviewInstanceRecord :=
  let! before := current key in
  let! (row, first_publication) :=
    mlift (apply_running_publication op rev p prt base now before) in
  mwhen (negb (bool_decide (row = before))) (save before row) ;;;
  mwhen first_publication (finish row "succeeded" (Published p prt)) ;;;
  mret' row.

Definition accept_stop_tx (now : Z) (key op : string) : TxM PreviewInstanceRecord :=
  let! _ := mlift (ensure (negb (str_is_empty op)) Invalid) in
  let! before := current key in
  let! found := operation op in
  match found with
  | Some o =>
      if negb (bool_decide (or_kind o = "stop")) || negb (bool_decide (or_preview_key o = key))
         || negb (bool_decide (or_instance_id o = instance_id before))
         || negb (bool_decide (operation_id before = op))
      then mfail Conflict else mret' before
  | None =>
      if negb (is_active (state before)) then mret' before else
      let! _ := mlift (ensure (negb (bool_decide (state before = Stopping))) Conflict) in
      let! rev := mlift (ok_or (i64_checked_succ (revision before)) Unavailable) in
      let row := with_updated_at now (with_revision rev
                   (with_operation_id op (with_state Stopping before))) in
      finish before "failed" (SupersededBy (operation_id row)) ;;;
      save before row ;;;
      insert_operation row "stop" None (StopIntent key (instance_id row)) ;;;
      mret' row
  end.

Definition mark_stopped_tx (now : Z) (key op : string) (rev : Z) : TxM PreviewInstanceRecord :=
  let! before := current key in
  let! _ := mlift (ensure (bool_decide (operation_id before = op)
                           && (revision before =? rev)%Z) Conflict) in
  if bool_decide (state before = Stopped) then mret' before else
  let! _ := mlift (ensure (bool_decide (state before = Stopping)) Conflict) in
  let row := with_updated_at now (with_pid None (with_state Stopped before)) in
  save before row ;;;
  finish row "succeeded" StoppedTrue ;;;
  mret' row.

Definition mark_failed_tx (now : Z) (key inst : string) (rev : Z) (why : string)
    : TxM PreviewInstanceRecord :=
  let! before := current key in
  let! _ := mlift (ensure (bool_decide (instance_id before = inst) && (revision before =? rev)%Z
                           && bool_decide (state before ∈ [Starting; Ready])) Conflict) in
  let row := with_updated_at now (with_detail (Some why) (with_pid None (with_state Failed before))) in
  save before row ;;;
  finish row "failed" (DetailIs why) ;;;
  mret' row.

Definition mark_unknown_tx (now : Z) (key inst why : string) : TxM PreviewInstanceRecord :=
  let! before := current key in
  let! _ := mlift (ensure (bool_decide (instance_id before = inst)
                           && is_active (state before)) Conflict) in
  let row := with_updated_at now (with_detail (Some why) (with_state Unknown before)) in
  save before row ;;;
  finish row "uncertain" (DetailIs why) ;;;
  mret' row.

(** The operation of a record that turned out to be stopped. *)
Definition finish_recovered (row : PreviewInstanceRecord) (why : option string) : TxM unit :=
  let! found := operation (operation_id row) in
  let! op := mlift (ok_or found Unavailable) in
  finish row (if bool_decide (or_kind op = "stop") then "succeeded" else "failed") (RecoveryIs why).

Definition resolve_unknown_stopped_tx (now : Z) (key inst evidence : string)
    : TxM PreviewInstanceRecord :=
  let! before := current key in
  let! _ := mlift (ensure (negb (str_is_empty evidence) && bool_decide (instance_id before = inst)
                           && bool_decide (state before = Unknown)) Conflict) in
  let row := with_updated_at now (with_detail (Some evidence)
               (with_pid None (with_state Stopped before))) in
  save before row ;;;
  finish_recovered row (Some evidence) ;;;
  mret' row.

Definition refresh_heartbeat_tx (now : Z) (key inst : string)
    : TxM (option PreviewInstanceRecord) :=
  let! found := get key in
  match found with
  | None => mret' None
  | Some before =>
      if negb (bool_decide (instance_id before = inst))
         || negb (bool_decide (state before ∈ [Ready; Unknown]))
      then mret' None else
      let row := with_heartbeat
        (Some (from_option (λ t, Z.max t now) now (last_heartbeat_at before))) before in
      save before row ;;;
      mret' (Some row)
  end.

(** [UPDATE .. SET last_activity_at_us = GREATEST(..) WHERE ..], and the number
    of rows it changed. *)
Definition touch_row (at_ : Z) (r : InstanceRow) : InstanceRow :=
  {| ir_preview_key := ir_preview_key r; ir_project_id := ir_project_id r;
     ir_project_path := ir_project_path r; ir_instance_id := ir_instance_id r;
     ir_revision := ir_revision r; ir_operation_id := ir_operation_id r;
     ir_host_id := ir_host_id r; ir_pod_name := ir_pod_name r; ir_pod_ip := ir_pod_ip r;
     ir_pid := ir_pid r; ir_port := ir_port r; ir_base_path := ir_base_path r;
     ir_state := ir_state r; ir_last_heartbeat_at_us := ir_last_heartbeat_at_us r;
     ir_last_activity_at_us := Z.max (ir_last_activity_at_us r) at_; ir_detail := ir_detail r;
     ir_updated_at_us := ir_updated_at_us r |}.
Definition touches (e : ActivityFlushEntry) (r : InstanceRow) : bool :=
  bool_decide (ir_instance_id r = fe_instance_id e)
  && (ir_last_activity_at_us r <? fe_at e)%Z && row_active r.
Definition flush_entry (rows : gmap string InstanceRow) (e : ActivityFlushEntry)
    : gmap string InstanceRow * nat :=
  match rows !! fe_preview_key e with
  | Some r =>
      if touches e r then (<[fe_preview_key e := touch_row (fe_at e) r]> rows, 1) else (rows, 0)
  | None => (rows, 0)
  end.
Fixpoint flush_entries (rows : gmap string InstanceRow) (entries : list ActivityFlushEntry)
    : gmap string InstanceRow * nat :=
  match entries with
  | [] => (rows, 0)
  | e :: entries =>
      let '(rows1, n1) := flush_entry rows e in
      let '(rows2, n2) := flush_entries rows1 entries in
      (rows2, n1 + n2)
  end.
(** [(a.preview_key, a.instance_id) <= (b.preview_key, b.instance_id)] *)
Definition entry_le (a b : ActivityFlushEntry) : Prop :=
  String.le (fe_preview_key a) (fe_preview_key b)
  ∧ (fe_preview_key a = fe_preview_key b → String.le (fe_instance_id a) (fe_instance_id b)).
#[global] Instance entry_le_dec : RelDecision entry_le.
Proof. unfold entry_le. intros ? ?. apply _. Defined.
Definition flush_activity_tx (entries : list ActivityFlushEntry) : TxM nat :=
  let! t := mget in
  let '(rows, n) := flush_entries (preview_instances t) (merge_sort entry_le entries) in
  mmodify (set_instances rows) ;;;
  mret' n.

(** ** Reconciliation after a reboot *)

(** [s.contains(':')] and [s.split_once(':').map(|(pod, _)| pod)]. *)
Fixpoint before_colon (s : string) : option string :=
  match s with
  | EmptyString => None
  | String c s =>
      if Ascii.eqb c ":"%char then Some EmptyString
      else String c <$> before_colon s
  end.
Definition contains_colon (s : string) : bool := is_some (before_colon s).

Definition reconcile_candidate (now : Z) (pod_uid current_host : string)
    (candidate : PreviewInstanceRecord) : TxM (list PreviewInstanceRecord) :=
  if negb (bool_decide (before_colon (host_id candidate) = Some pod_uid))
     || bool_decide (host_id candidate = current_host)
  then mret' [] else
  let! before := current (preview_key candidate) in
  if negb (bool_decide (instance_id before = instance_id candidate))
     || negb (bool_decide (host_id before = host_id candidate))
     || negb (is_active (state before))
  then mret' [] else
  let why := Some ("Host reboot reconciled by " +:+ current_host) in
  let row := with_updated_at now (with_detail why (with_pid None (with_state Stopped before))) in
  save before row ;;;
  finish_recovered row why ;;;
  mret' [row].

Fixpoint reconcile_candidates (now : Z) (pod_uid current_host : string)
    (candidates : list PreviewInstanceRecord) : TxM (list PreviewInstanceRecord) :=
  match candidates with
  | [] => mret' []
  | c :: candidates =>
      let! changed := reconcile_candidate now pod_uid current_host c in
      let! rest := reconcile_candidates now pod_uid current_host candidates in
      mret' (changed ++ rest)
  end.

Definition reconcile_host_reboot_tx (now : Z) (pod_uid boot_id : string)
    : TxM (list PreviewInstanceRecord) :=
  let! _ := mlift (ensure (negb (str_is_empty pod_uid || str_is_empty boot_id
                                 || contains_colon pod_uid || contains_colon boot_id)) Invalid) in
  let! candidates := active in
  reconcile_candidates now pod_uid (pod_uid +:+ ":" +:+ boot_id) candidates.

(** ** Queries *)

Definition find_active_by_port_tx (prt : Z) : TxM (option PreviewInstanceRecord) :=
  let! t := mget in
  match pg_first (rows_in_order t (λ r, row_active r && opt_is (ir_port r) prt)) with
  | None => mret' None
  | Some row => let! r := mlift (record row) in mret' (Some r)
  end.
Definition list_by_host_tx (h : string) (active_only : bool) : TxM (list PreviewInstanceRecord) :=
  let! t := mget in
  let! rows := mlift (decode_all (rows_in_order t (λ r, bool_decide (ir_host_id r = h)))) in
  mret' (filter (λ r, negb active_only || is_active (state r) = true) rows).

(** ** Transactions *)

Inductive TxOutcome :=
  | TxCommits
  | TxAborts
  | TxAnswerLost.
Record Pg := {
  tables : Tables;
  tx_outcomes : list TxOutcome;
}.
Abbreviation PgM := (M Pg PreviewStoreError).

(** [run]: begin, body, commit or roll back.  A violated constraint aborts. *)
Definition run {A} (body : TxM A) : PgM A := λ s,
  let outcome := default TxCommits (head (tx_outcomes s)) in
  let rest := tail (tx_outcomes s) in
  let keep := {| tables := tables s; tx_outcomes := rest |} in
  match outcome, body (tables s) with
  | TxAborts, _ => (Err Unavailable, keep)
  | _, (Err e, _) => (Err e, keep)
  | TxCommits, (Ok a, t) =>
      if schema_ok t then (Ok a, {| tables := t; tx_outcomes := rest |}) else (Err Unavailable, keep)
  | TxAnswerLost, (Ok a, t) =>
      if schema_ok t then (Err Unavailable, {| tables := t; tx_outcomes := rest |})
      else (Err Unavailable, keep)
  end.

Definition PgPreviewStore : PreviewLifecycleStore Pg := {|
  Preview.accept_start now i := run (accept_start_tx now i);
  Preview.retry_start_port now i := run (retry_start_port_tx now i);
  Preview.publish_running now k o r p prt b := run (publish_running_tx now k o r p prt b);
  Preview.accept_stop now k o := run (accept_stop_tx now k o);
  Preview.mark_stopped now k o r := run (mark_stopped_tx now k o r);
  Preview.mark_failed now k i r d := run (mark_failed_tx now k i r d);
  Preview.mark_unknown now k i d := run (mark_unknown_tx now k i d);
  Preview.resolve_unknown_stopped now k i e := run (resolve_unknown_stopped_tx now k i e);
  Preview.refresh_heartbeat now k i := run (refresh_heartbeat_tx now k i);
  Preview.flush_activity l := run (flush_activity_tx l);
  Preview.get_instance k := run (get k);
  Preview.find_active_by_port p := run (find_active_by_port_tx p);
  Preview.active_ports := run ports;
  Preview.list_by_host h a := run (list_by_host_tx h a);
  Preview.list_active := run active;
  Preview.reconcile_host_reboot now u b := run (reconcile_host_reboot_tx now u b);
|}.
End store.
End Postgres.
