(* ===== verification/PreviewSafety.v ===== *)
(** * Invariants of the preview store

    Over every sequence of calls on the store in memory: active previews hold
    pairwise different ports of the pool, revisions only grow, and a write that
    carries an outdated identity changes nothing. *)
From S2P Require Import Prelude Ordered Validation PreviewModel PreviewMemory.
Import Text Preview.
Local Open Scope rust_scope.

(** ** Ports *)

(** A record under its key, with what its state implies. *)
Record row_inv (k : string) (r : PreviewInstanceRecord) : Prop := {
  ri_key : preview_key r = k;
  ri_port : is_active (state r) = true → ∃ p, port r = Some p ∧ is_preview_port p = true;
  ri_revision : (1 ≤ revision r)%Z;
  ri_pid : state r = Ready → ∃ p, pid r = Some p ∧ (0 < p)%Z;
  ri_stopped : is_active (state r) = false → pid r = None;
}.
Definition holds_port (r : PreviewInstanceRecord) (p : Z) : Prop :=
  is_active (state r) = true ∧ port r = Some p.
Record store_inv (m : gmap string PreviewInstanceRecord) : Prop := {
  si_rows : ∀ k r, m !! k = Some r → row_inv k r;
  si_ports : ∀ k1 k2 r1 r2 p, m !! k1 = Some r1 → m !! k2 = Some r2 →
               holds_port r1 p → holds_port r2 p → k1 = k2;
}.

Lemma store_inv_empty : store_inv ∅.
Proof. split; intros *; by rewrite lookup_empty. Qed.

(** A later version of a record: a new revision, or the same instance. *)
Definition row_succ (r r' : PreviewInstanceRecord) : Prop :=
  (revision r < revision r')%Z ∨ (revision r = revision r' ∧ instance_id r = instance_id r').
Definition rows_le (m m' : gmap string PreviewInstanceRecord) : Prop :=
  ∀ k r, m !! k = Some r → ∃ r', m' !! k = Some r' ∧ row_succ r r'.
#[global] Instance row_succ_preorder : PreOrder row_succ.
Proof. split; [by right|]. unfold row_succ. intros r1 r2 r3 [?|[? ?]] [?|[? ?]]; (left; lia) || right; split; [lia|congruence]. Qed.
#[global] Instance rows_le_preorder : PreOrder rows_le.
Proof.
  split; [intros m k r Hk; exists r; by split|]. intros m1 m2 m3 H12 H23 k r Hk.
  destruct (H12 k r Hk) as (r' & Hk' & Hr), (H23 k r' Hk') as (r'' & Hk'' & Hr').
  exists r''. split; [done|by etrans].
Qed.

(** What a call makes of the records. *)
Definition evolves (m m' : gmap string PreviewInstanceRecord) : Prop :=
  store_inv m' ∧ rows_le m m'.
Lemma evolves_refl m : store_inv m → evolves m m.
Proof. by split. Qed.

(** Replacing one record keeps the invariant if it takes no port of another. *)
Lemma evolves_insert m k r' :
  store_inv m → row_inv k r' → (∀ r, m !! k = Some r → row_succ r r') →
  (∀ p, holds_port r' p → ∀ k' r0, k' ≠ k → m !! k' = Some r0 → ¬ holds_port r0 p) →
  evolves m (<[k := r']> m).
Proof.
  intros [Hr Hp] Hk Hsucc Hfree. split; [split|].
  - intros k' r [[<- <-]|[_ H]]%lookup_insert_Some; [done|by apply Hr].
  - intros k1 k2 r1 r2 p [[<- <-]|[Hn1 H1]]%lookup_insert_Some
      [[<- <-]|[Hn2 H2]]%lookup_insert_Some Hh1 Hh2; [done|..].
    + destruct (Hfree p Hh1 k2 r2); done.
    + destruct (Hfree p Hh2 k1 r1); done.
    + by eapply Hp.
  - intros k' r Hk'. destruct (decide (k' = k)) as [->|Hne].
    + exists r'. rewrite lookup_insert_eq. auto.
    + exists r. by rewrite lookup_insert_ne.
Qed.

(** A record that keeps its port, or gives it up, is no threat to the others. *)
Lemma evolves_update m k r r' :
  store_inv m → m !! k = Some r → row_inv k r' → row_succ r r' →
  (is_active (state r') = true → is_active (state r) = true ∧ port r' = port r) →
  evolves m (<[k := r']> m).
Proof.
  intros Hm Hk Hr' Hsucc Hkeep. apply evolves_insert; [done..|naive_solver|].
  intros p [Ha Hp] k2 r2 Hne H2 Hh2. destruct (Hkeep Ha) as [Ha' Hp'].
  apply Hne. symmetry. eapply (si_ports _ Hm k k2 r r2 p); [done|done| |done]. split; congruence.
Qed.

Lemma evolves_rows (m : gmap string PreviewInstanceRecord)
    (f : PreviewInstanceRecord → PreviewInstanceRecord) :
  store_inv m →
  (∀ k r, m !! k = Some r → row_inv k (f r) ∧ row_succ r (f r) ∧
     (is_active (state (f r)) = true → is_active (state r) = true ∧ port (f r) = port r)) →
  evolves m (f <$> m).
Proof.
  intros [Hr Hp] Hf. split; [split|].
  - intros k r'. rewrite lookup_fmap, fmap_Some. intros (r & Hk & ->). by apply Hf.
  - intros k1 k2 r1 r2 p. rewrite !lookup_fmap, !fmap_Some.
    intros (r1' & H1 & ->) (r2' & H2 & ->) [Ha1 Hp1] [Ha2 Hp2].
    destruct (Hf _ _ H1) as (_ & _ & Hf1), (Hf _ _ H2) as (_ & _ & Hf2).
    destruct (Hf1 Ha1), (Hf2 Ha2). eapply (Hp k1 k2 r1' r2' p); try done; split; congruence.
  - intros k r Hk. exists (f r). rewrite lookup_fmap, Hk. split; [done|]. by apply (Hf k).
Qed.

(** *** Choosing a port *)

Lemma port_pool_preview p :
  p ∈ Memory.port_pool → Memory.is_reserved p = false → is_preview_port p = true.
Proof.
  unfold Memory.port_pool, Memory.is_reserved, is_preview_port. rewrite elem_of_range, Z2Nat.id by done.
  unfold PREVIEW_PORT_MIN, PREVIEW_PORT_MAX, PREVIEW_PORT_RESERVED_MIN, PREVIEW_PORT_RESERVED_MAX.
  intros Hp ->. rewrite !andb_true_iff, !Z.leb_le. simpl. lia.
Qed.
Lemma choose_port_ok occupied requested p :
  Memory.choose_port occupied requested = Ok p → is_preview_port p = true ∧ p ∉ occupied.
Proof.
  unfold Memory.choose_port. destruct requested as [q|].
  - unfold ensure. destruct (is_preview_port q) eqn:Hq; simpl; [|done].
    case_bool_decide; simpl; [done|]. by intros [= <-].
  - destruct (find _ _) as [q|] eqn:Hf; simpl; [|done]. intros [= <-].
    apply find_some in Hf as [Hin Hc]. apply andb_true_iff in Hc as [Hr Ho].
    rewrite negb_true_iff in Hr, Ho. apply bool_decide_eq_false in Ho. split; [|done].
    apply port_pool_preview; [|done]. by apply list_elem_of_In.
Qed.

(** *** Every method keeps the invariant *)

Abbreviation keeps_ports m := (∀ s, store_inv (Memory.instances s) →
  wp m s (λ _ s', evolves (Memory.instances s) (Memory.instances s'))
         (λ _ s', evolves (Memory.instances s) (Memory.instances s'))).
#[local] Hint Resolve evolves_refl : core.

Lemma wp_find_instance k s (Q : PreviewInstanceRecord → Memory.State → Prop) X :
  (∀ r, Memory.instances s !! k = Some r → Q r s) → (Memory.instances s !! k = None → X Invalid s) →
  wp (Memory.find_instance k) s Q X.
Proof.
  intros HQ HX. unfold Memory.find_instance. wp_steps. destruct (_ !! k) eqn:Hk; auto.
Qed.

(** The two branches of a check. *)
Ltac case_if H :=
  lazymatch goal with
  | |- (if ?b then _ else _) => destruct b eqn:H
  | |- wp (if ?b then _ else _) _ _ _ => destruct b eqn:H
  | |- match ?o with _ => _ end => destruct o eqn:H
  end.

Lemma next_revision_admits evidence row n :
  Memory.next_revision evidence row = Ok (inr n) →
  match row with Some r => is_active (state r) = true → state r = Unknown | None => True end
  ∧ n = match row with Some r => (revision r + 1)%Z | None => 1%Z end.
Proof.
  unfold Memory.next_revision. destruct row as [r|]; [|by intros [= <-]].
  assert (∀ o : option Z, o = i64_checked_succ (revision r) →
    (let? n := ok_or o Unavailable in Ok (E:=PreviewStoreError) (inr (A:=AcceptStartOutcome) n))
      = Ok (inr n) → n = (revision r + 1)%Z) as Hs.
  { intros [m|] Ho; simpl; [|done]. intros [= <-]. symmetry in Ho. by apply i64_checked_succ_Some in Ho. }
  destruct (state r); try done; [by split; eauto|by split; eauto|].
  destruct evidence; [|done]. case_match; [done|]. by split; eauto.
Qed.

Lemma accept_start_keeps now input : keeps_ports (Memory.accept_start now input).
Proof.
  intros s Hs. unfold Memory.accept_start. wp_steps.
  destruct (Memory.next_revision _ _) as [[o|rev]|e] eqn:Hn; wp_steps; auto.
  destruct (Memory.choose_port _ _) as [prt|e] eqn:Hc; auto.
  apply choose_port_ok in Hc as [Hpool Hfree]. apply next_revision_admits in Hn as [_ ->].
  unfold Memory.put_operation, Memory.put_instance. wp_steps. simpl. apply evolves_insert; [done|..].
  - split; simpl; [done|by eauto| |done|done].
    destruct (_ !! _) as [r|] eqn:Hr; [|lia]. apply (si_rows _ Hs) in Hr as [_ _ ? _ _]. lia.
  - intros r Hr. rewrite Hr. left. simpl. lia.
  - intros p [_ [= <-]] k' r' Hne Hk' [Ha Hp]. apply Hfree. apply list_elem_of_omap.
    exists r'. split; [|done]. apply list_elem_of_filter. split.
    + split; [done|]. apply (si_rows _ Hs) in Hk' as [Hkey _ _ _ _]. congruence.
    + apply elem_of_btree_values. eauto.
Qed.

(** [apply_start_port_retry] on success. *)
Lemma apply_start_port_retry_ok input now r r' changed :
  apply_start_port_retry input now r = Ok (r', changed) →
  state r = Starting ∧ preview_key r = rt_preview_key input ∧ operation_id r = rt_operation_id input
  ∧ instance_id r = rt_instance_id input ∧ pid r = None
  ∧ is_preview_port (rt_next_port input) = true
  ∧ (if changed then revision r = rt_revision input ∧ port r = Some (rt_previous_port input)
         ∧ (1 ≤ rt_revision input)%Z
         ∧ r' = with_updated_at now (with_port (Some (rt_next_port input))
                  (with_revision (rt_revision input + 1) r))
     else r' = r).
Proof.
  unfold apply_start_port_retry.
  intros (Hv & (n & Hn & (Hid & (Hst & Hret)%ensure_bind)%ensure_bind)%ok_or_bind)%ensure_bind.
  apply i64_checked_succ_Some in Hn as ->. apply bool_decide_eq_true in Hst.
  unfold retry_input_valid in Hv. rewrite negb_true_iff, !orb_false_iff, !negb_false_iff in Hv.
  rewrite !andb_true_iff, !bool_decide_eq_true in Hid.
  destruct Hid as [[[Hk Hop] Hi] Hpid], Hv as [[[[[[_ _] _] Hrev] Hp1] Hp2] _].
  assert (pid r = None) by by (destruct (pid r)).
  destruct ((revision r =? _)%Z && opt_is (port r) (rt_next_port input));
    [injection Hret as <- <-; by split_and!|].
  apply ensure_bind in Hret as [[Hr%Z.eqb_eq Hpp%opt_is_true]%andb_true_iff [= <- <-]].
  apply Z.ltb_ge in Hrev. split_and!; done.
Qed.

Lemma existsb_active_port rows p :
  existsb (λ r, is_active (state r) && opt_is (port r) p) rows = false →
  ∀ r, r ∈ rows → ¬ holds_port r p.
Proof.
  intros He r Hr [Ha Hp]. apply not_true_iff_false in He. apply He, existsb_exists.
  exists r. split; [by apply list_elem_of_In|]. rewrite Ha. by apply opt_is_true.
Qed.

Lemma retry_start_port_keeps now input : keeps_ports (Memory.retry_start_port now input).
Proof.
  intros s Hs. unfold Memory.retry_start_port. wp_steps.
  apply wp_find_instance; [intros r Hr|auto]. wp_steps.
  destruct (apply_start_port_retry _ _ _) as [[r' changed]|e] eqn:Hret; auto.
  apply apply_start_port_retry_ok in Hret as (Hst & Hkey & _ & _ & Hpid & Hpool & Hres).
  wp_steps. case_if Hop; auto. wp_steps. case_if Hg; auto.
  destruct changed; simpl; wp_steps; auto.
  destruct (existsb _ _) eqn:He; simpl; auto. destruct Hres as (Hrev & Hprt & Hge & ->).
  unfold Memory.put_operation, Memory.put_instance. wp_steps. simpl.
  pose proof (si_rows _ Hs _ _ Hr) as Hinv. apply evolves_insert; [done|..].
  - destruct Hinv as [? ? ? ? ?]. split; simpl; [done|eauto|lia|by rewrite Hst|done].
  - intros r0 Hr0. simplify_eq. left. simpl. lia.
  - intros q [_ [= <-]] k' r0 _ Hk'. eapply existsb_active_port; [done|].
    apply elem_of_btree_values. eauto.
Qed.

(** The host a record names. *)
Definition host (r : PreviewInstanceRecord) : PreviewHostIdentity :=
  {| h_host_id := host_id r; h_pod_name := pod_name r; h_pod_ip := pod_ip r |}.

(** [apply_running_publication] on success. *)
Lemma apply_running_publication_ok op rev p prt base now r r' first :
  apply_running_publication op rev p prt base now r = Ok (r', first) →
  operation_id r = op ∧ revision r = rev ∧ port r = Some prt ∧ (0 < p)%Z
  ∧ (state r = if first then Starting else Ready) ∧ (first = false → pid r = Some p)
  ∧ preview_key r' = preview_key r ∧ instance_id r' = instance_id r ∧ host r' = host r
  ∧ project_id r' = project_id r ∧ project_path r' = project_path r
  ∧ revision r' = revision r ∧ operation_id r' = operation_id r
  ∧ port r' = port r ∧ state r' = Ready ∧ pid r' = Some p
  ∧ (last_heartbeat_at r' = last_heartbeat_at r ∨ last_heartbeat_at r' = Some now)
  ∧ (last_activity_at r' = last_activity_at r ∨ last_activity_at r' = now)
  ∧ (updated_at r' = updated_at r ∨ updated_at r' = now).
Proof.
  unfold apply_running_publication, ensure. case_match eqn:Hg; simpl; [|done].
  rewrite !andb_true_iff, bool_decide_eq_true, Z.eqb_eq, Z.ltb_lt, opt_is_true in Hg.
  destruct Hg as [[[Hop Hrev] Hport] Hpos].
  destruct (state r) eqn:Hst; simpl; try done.
  - destruct (match base_path r with Some _ => _ | None => _ end); simpl; [|done].
    intros [= <- <-]. destruct (is_none (base_path r) && is_some base); simpl;
      (split_and!; eauto; lia).
  - destruct (opt_is (pid r) p) eqn:Hp; simpl; [|done]. apply opt_is_true in Hp.
    destruct (match base_path r with Some _ => _ | None => _ end); simpl; [|done].
    intros [= <- <-]. destruct (is_none (base_path r) && is_some base); simpl; split_and!; eauto.
Qed.

Lemma publish_running_keeps now key op rev p prt base :
  keeps_ports (Memory.publish_running now key op rev p prt base).
Proof.
  intros s Hs. unfold Memory.publish_running. wp_steps.
  apply wp_find_instance; [intros r Hr|auto]. wp_steps.
  destruct (apply_running_publication _ _ _ _ _ _ _) as [[r' first]|e] eqn:Ha; auto.
  apply apply_running_publication_ok in Ha
    as (_ & Hrev & Hprt & Hpos & Hst & _ & Hk & Hi & _ & _ & _ & Hrev' & _ & Hp & Hst' & Hpid & _).
  assert (evolves (Memory.instances s) (<[key := r']> (Memory.instances s))).
  { pose proof (si_rows _ Hs _ _ Hr) as [Hkey Hport Hge _ _].
    assert (is_active (state r) = true) as Hact by (rewrite Hst; by destruct first).
    apply (evolves_update _ _ r); [done|done| |by right|].
    - split; rewrite ?Hst', ?Hrev', ?Hp; [congruence| |done|eauto|done].
      intros _. by apply Hport.
    - intros _. split; [done|congruence]. }
  unfold Memory.put_instance, Memory.finish_operation. wp_steps; done.
Qed.

Lemma accept_stop_keeps now key op : keeps_ports (Memory.accept_stop now key op).
Proof.
  intros s Hs. unfold Memory.accept_stop. wp_steps.
  apply wp_find_instance; [intros r Hr|auto]. wp_steps.
  destruct (_ !! op); [case_if Hg; wp_steps; auto|].
  destruct (is_active (state r)) eqn:Ha; simpl; wp_steps; auto.
  case_bool_decide; simpl; auto. unfold Memory.put_instance, Memory.put_operation. wp_steps.
  pose proof (si_rows _ Hs _ _ Hr) as [Hkey Hport Hge _ _]. simpl.
  destruct (i64_checked_succ _) as [n|] eqn:Hn; wp_steps; simpl; rewrite ?insert_insert_eq.
  - apply i64_checked_succ_Some in Hn as ->.
    apply (evolves_update _ _ r); [done|done| |left; simpl; lia|done].
    by split; simpl; [|eauto|lia| |].
  - apply (evolves_update _ _ r); [done|done| |by right|done]. by split; simpl; [|eauto|lia| |].
Qed.

(** A record that ends keeps its revision and its instance. *)
Lemma row_inv_ended k r r' :
  row_inv k r → preview_key r' = preview_key r → revision r' = revision r →
  is_active (state r') = false → pid r' = None → row_inv k r'.
Proof.
  intros [Hk _ Hge _ _] Hk' Hr' Ha Hp. split; [congruence|congruence|lia| |done].
  intros Hready. by rewrite Hready in Ha.
Qed.

Lemma mark_stopped_keeps now key op rev : keeps_ports (Memory.mark_stopped now key op rev).
Proof.
  intros s Hs. unfold Memory.mark_stopped. wp_steps.
  apply wp_find_instance; [intros r Hr|auto]. wp_steps.
  pose proof (si_rows _ Hs _ _ Hr) as Hi. unfold Memory.put_instance, Memory.finish_operation.
  destruct (_ && bool_decide (state r = Stopping)); [|destruct (bool_decide _ && _)];
    wp_steps; simpl; auto.
  apply (evolves_update _ _ r); [done|done|by eapply row_inv_ended|by right|done].
Qed.

Lemma mark_failed_keeps now key inst rev why : keeps_ports (Memory.mark_failed now key inst rev why).
Proof.
  intros s Hs. unfold Memory.mark_failed. wp_steps.
  apply wp_find_instance; [intros r Hr|auto]. wp_steps. case_if Hg; auto.
  pose proof (si_rows _ Hs _ _ Hr) as Hi. unfold Memory.put_instance. wp_steps. simpl.
  apply (evolves_update _ _ r); [done|done|by eapply row_inv_ended|by right|done].
Qed.

Lemma mark_unknown_keeps now key inst why : keeps_ports (Memory.mark_unknown now key inst why).
Proof.
  intros s Hs. unfold Memory.mark_unknown, Memory.mutate. wp_steps.
  apply wp_find_instance; [intros r Hr|auto]. wp_steps.
  destruct (_ && is_active (state r)) eqn:Hg; simpl; auto.
  apply andb_true_iff in Hg as [_ Ha].
  pose proof (si_rows _ Hs _ _ Hr) as [? ? ? ? ?]. unfold Memory.put_instance. wp_steps. simpl.
  apply (evolves_update _ _ r); [done|done| |by right|done]. by split; simpl; [|eauto| | |].
Qed.

Lemma resolve_unknown_stopped_keeps now key inst evidence :
  keeps_ports (Memory.resolve_unknown_stopped now key inst evidence).
Proof.
  intros s Hs. unfold Memory.resolve_unknown_stopped, Memory.mutate. wp_steps.
  apply wp_find_instance; [intros r Hr|auto]. wp_steps.
  destruct (_ && bool_decide _) eqn:Hg; simpl; auto.
  pose proof (si_rows _ Hs _ _ Hr) as Hi. unfold Memory.put_instance. wp_steps. simpl.
  apply (evolves_update _ _ r); [done|done|by eapply row_inv_ended|by right|done].
Qed.

Lemma refresh_heartbeat_keeps now key inst : keeps_ports (Memory.refresh_heartbeat now key inst).
Proof.
  intros s Hs. unfold Memory.refresh_heartbeat. wp_steps.
  destruct (_ !! key) as [r|] eqn:Hr; wp_steps; auto. case_if Hg; wp_steps; auto.
  pose proof (si_rows _ Hs _ _ Hr) as [? ? ? ? ?]. unfold Memory.put_instance. wp_steps. simpl.
  by apply (evolves_update _ _ r); [done|done|split; simpl; eauto|right|].
Qed.

Lemma flush_entry_evolves rows e : store_inv rows → evolves rows (Memory.flush_entry rows e).1.
Proof.
  intros Hs. unfold Memory.flush_entry. destruct (rows !! _) as [r|] eqn:Hr; simpl; auto.
  destruct (_ && _ && _); simpl; auto. pose proof (si_rows _ Hs _ _ Hr) as [? ? ? ? ?].
  by apply (evolves_update _ _ r); [done|done|split; simpl; eauto|right|].
Qed.
Lemma flush_entries_evolves rows entries :
  store_inv rows → evolves rows (Memory.flush_entries rows entries).1.
Proof.
  revert rows. induction entries as [|e entries IH]; intros rows Hs; simpl; auto.
  pose proof (flush_entry_evolves rows e Hs) as [H1 H2].
  destruct (Memory.flush_entry rows e) as [rows1 n1]. simpl in *. destruct (IH rows1 H1) as [H3 H4].
  destruct (Memory.flush_entries rows1 entries) as [rows2 n2]. simpl in *. split; [done|by etrans].
Qed.
Lemma flush_activity_keeps entries : keeps_ports (Memory.flush_activity entries).
Proof.
  intros s Hs. unfold Memory.flush_activity. wp_steps.
  pose proof (flush_entries_evolves _ entries Hs). destruct (Memory.flush_entries _ _) as [rows n].
  by wp_steps.
Qed.

Lemma reconcile_host_reboot_keeps now pod_uid boot_id :
  keeps_ports (Memory.reconcile_host_reboot now pod_uid boot_id).
Proof.
  intros s Hs. unfold Memory.reconcile_host_reboot. wp_steps. simpl. apply evolves_rows; [done|].
  intros k r Hk. apply (si_rows _ Hs) in Hk.
  destruct (Memory.is_prior_boot _ _ _); [|by split_and!; [|right|]].
  split_and!; [by eapply row_inv_ended|by right|done].
Qed.

Lemma perform_keeps now c : keeps_ports (perform (S := Memory.State) now c).
Proof.
  intros s Hs. destruct c; simpl; unfold mmap; wp_steps;
    (eapply wp_mono; [|intros ? ? Hq; wp_steps; exact Hq|intros ? ? Hx; exact Hx]);
    [by apply accept_start_keeps|by apply retry_start_port_keeps|by apply publish_running_keeps
    |by apply accept_stop_keeps|by apply mark_stopped_keeps|by apply mark_failed_keeps
    |by apply mark_unknown_keeps|by apply resolve_unknown_stopped_keeps
    |by apply refresh_heartbeat_keeps|by apply flush_activity_keeps
    |by apply reconcile_host_reboot_keeps].
Qed.

Lemma perform_evolves now c (s : Memory.State) :
  store_inv (Memory.instances s) →
  evolves (Memory.instances s) (Memory.instances (perform now c s).2).
Proof.
  intros Hs. pose proof (perform_keeps now c s Hs) as Hw. unfold wp in Hw.
  by destruct (perform now c s) as [[a|e] s'].
Qed.
Lemma perform_all_evolves calls (s : Memory.State) :
  store_inv (Memory.instances s) →
  evolves (Memory.instances s) (Memory.instances (perform_all calls s)).
Proof.
  revert s. induction calls as [|[now c] calls IH]; intros s Hs; simpl; [auto|].
  destruct (perform_evolves now c s Hs) as [H1 H2], (IH _ H1) as [H3 H4]. split; [done|by etrans].
Qed.

(** *** The port index *)

(** Records listed by a map that keeps each under its own key. *)
Section keyed.
Context (m : gmap string PreviewInstanceRecord).
Context (Hkey : ∀ k r, m !! k = Some r → preview_key r = k).

Lemma elem_of_values_key r : r ∈ btree_values m → m !! preview_key r = Some r.
Proof using Hkey. intros (k & Hk)%elem_of_btree_values. by rewrite (Hkey _ _ Hk). Qed.
Lemma NoDup_values : NoDup (btree_values m).
Proof using Hkey.
  apply NoDup_omap_inj; [apply NoDup_btree_keys|]. intros k1 k2 r _ _ H1 H2.
  by rewrite <- (Hkey _ _ H1), (Hkey _ _ H2).
Qed.
End keyed.

Section index.
Context (m : gmap string PreviewInstanceRecord) (Hm : store_inv m).
Let Hkey k r (Hk : m !! k = Some r) : preview_key r = k := ri_key _ _ (si_rows _ Hm _ _ Hk).

Lemma active_ports_NoDup :
  NoDup (omap port (filter (λ r, is_active (state r) = true) (btree_values m))).
Proof.
  apply NoDup_omap_inj; [by apply NoDup_filter, NoDup_values|].
  intros r1 r2 p [Ha1 H1%(elem_of_values_key _ Hkey)]%list_elem_of_filter
    [Ha2 H2%(elem_of_values_key _ Hkey)]%list_elem_of_filter Hp1 Hp2.
  assert (preview_key r1 = preview_key r2) as Heq
    by (eapply (si_ports _ Hm _ _ r1 r2 p); try done; by split).
  rewrite Heq in H1. congruence.
Qed.

(** The holder of a port is the only record the index can find. *)
Lemma NoDup_singleton_of {A} (l : list A) x : NoDup l → x ∈ l → (∀ y, y ∈ l → y = x) → l = [x].
Proof.
  intros Hnd Hx Hall. destruct l as [|y l]; [by apply not_elem_of_nil in Hx|].
  assert (y = x) as -> by (apply Hall; by constructor). f_equal.
  destruct l as [|z l]; [done|]. apply NoDup_cons in Hnd as [Hn _]. destruct Hn.
  rewrite <- (Hall z); by repeat constructor.
Qed.
Lemma holder_found k r p :
  m !! k = Some r → holds_port r p →
  Memory.max_by_revision (filter (λ r, is_active (state r) = true ∧ port r = Some p) (btree_values m))
  = Some r.
Proof.
  intros Hk Hp.
  replace (filter (λ r, is_active (state r) = true ∧ port r = Some p) (btree_values m)) with [r];
    [done|].
  symmetry. apply NoDup_singleton_of; [by apply NoDup_filter, NoDup_values|..].
  - apply list_elem_of_filter. split; [done|]. apply elem_of_btree_values. eauto.
  - intros r' [Hp' Hr'%(elem_of_values_key _ Hkey)]%list_elem_of_filter.
    assert (preview_key r' = k) as Heq by by eapply (si_ports _ Hm _ _ r' r p).
    rewrite Heq in Hr'. congruence.
Qed.
End index.

(** C32: Whatever calls are made, in whatever order and with whatever answers:
    two active previews never hold the same port and every port they hold is in
    the pool outside the reserved range; a ready preview has a positive pid and
    an ended one has none; the list of occupied ports has no duplicates and the
    search by port finds the preview that holds it; and as more calls are made
    every record stays, its revision never goes back, and its instance changes
    only with a greater revision. *)
Theorem previews_hold_distinct_ports calls more :
  let s := perform_all calls Memory.empty_state in
  let s' := perform_all more s in
  store_inv (Memory.instances s)
  ∧ NoDup (Memory.occupied_ports s)
  ∧ (∀ k r p, Memory.instances s !! k = Some r → holds_port r p →
       Memory.find_active_by_port p s = (Ok (Some r), s))
  ∧ rows_le (Memory.instances s) (Memory.instances s').
Proof.
  intros s s'. destruct (perform_all_evolves calls Memory.empty_state store_inv_empty) as [Hs _].
  destruct (perform_all_evolves more s Hs) as [_ Hle]. split_and!; [done|..|done].
  - by apply active_ports_NoDup.
  - intros k r p Hk Hp. unfold Memory.find_active_by_port, mgets. by erewrite holder_found.
Qed.

(** ** Late writers *)

(** A write that names the record by its key and carries its revision. *)
Definition carries_revision (r : PreviewInstanceRecord) (c : Call) : bool :=
  match c with
  | CallRetryStartPort i =>
      bool_decide (rt_preview_key i = preview_key r) && (rt_revision i =? revision r)%Z
  | CallPublishRunning k _ rev _ _ _ | CallMarkStopped k _ rev | CallMarkFailed k _ rev _ =>
      bool_decide (k = preview_key r) && (rev =? revision r)%Z
  | _ => false
  end.

(** On a record with another revision such a write has no effect. *)
Lemma outdated_write now c s r r2 :
  carries_revision r c = true → Memory.instances s !! preview_key r = Some r2 →
  (revision r < revision r2)%Z →
  (perform now c s).2 = s ∧ ∀ rep, (perform now c s).1 = Ok rep → rep = ReplyRow r2.
Proof.
  intros Hc Hk Hlt.
  assert (wp (perform now c) s (λ rep s', s' = s ∧ rep = ReplyRow r2) (λ _ s', s' = s)) as Hw.
  2:{ unfold wp in Hw. destruct (perform now c s) as [[rep|e] s']; simpl in *; naive_solver. }
  destruct c as [|i|k op rev p prt base| |k op rev|k inst rev why| | | | |]; try done; simpl in Hc;
    apply andb_true_iff in Hc as [Hkey%bool_decide_eq_true Hrev%Z.eqb_eq]; subst;
    simpl; unfold mmap; wp_steps.
  - unfold Memory.retry_start_port. rewrite Hkey. wp_steps.
    apply wp_find_instance; [|done]. intros r0 Hr0. simplify_eq. wp_steps.
    destruct (apply_start_port_retry _ _ _) as [[r' changed]|e] eqn:Hret; [|done].
    apply apply_start_port_retry_ok in Hret as (_ & _ & _ & _ & _ & _ & Hres). wp_steps.
    case_if Hop; [|done]. wp_steps. case_if Hg; [|done].
    destruct changed; simpl; [|by wp_steps]. destruct Hres as (Hr & _). lia.
  - unfold Memory.publish_running. wp_steps.
    apply wp_find_instance; [|done]. intros r0 Hr0. simplify_eq. wp_steps.
    destruct (apply_running_publication _ _ _ _ _ _ _) as [[r' first]|e] eqn:Ha; [|done].
    apply apply_running_publication_ok in Ha as (_ & Hr & _). lia.
  - unfold Memory.mark_stopped. wp_steps.
    apply wp_find_instance; [|done]. intros r0 Hr0. simplify_eq. wp_steps.
    replace (revision r2 =? revision r)%Z with false by (symmetry; apply Z.eqb_neq; lia).
    by rewrite !andb_false_r; wp_steps.
  - unfold Memory.mark_failed. wp_steps.
    apply wp_find_instance; [|done]. intros r0 Hr0. simplify_eq. wp_steps.
    replace (revision r2 =? revision r)%Z with false by (symmetry; apply Z.eqb_neq; lia).
    by rewrite andb_false_r.
Qed.

(** C33: A writer that still holds an old version of a record cannot touch the
    preview that replaced it: once the record has been seen with another
    revision or another instance (a stop was accepted, a start admitted over
    it), no sequence of later calls brings the old version back, and a port
    retry, a publication, a stop or a failure report that carries the old
    revision leaves the store exactly as it was and answers an error, or, for a
    port retry that is only repeated, the current record. *)
Theorem late_writers_change_nothing calls calls1 calls2 k r r1 now c :
  let s := perform_all calls Memory.empty_state in
  let s1 := perform_all calls1 s in
  let s2 := perform_all calls2 s1 in
  Memory.instances s !! k = Some r →
  Memory.instances s1 !! k = Some r1 →
  revision r1 ≠ revision r ∨ instance_id r1 ≠ instance_id r →
  carries_revision r c = true →
  (perform now c s2).2 = s2
  ∧ ∀ rep, (perform now c s2).1 = Ok rep →
      ∃ r2, Memory.instances s2 !! k = Some r2 ∧ rep = ReplyRow r2 ∧ (revision r < revision r2)%Z.
Proof.
  intros s s1 s2 Hk Hk1 Hne Hc.
  destruct (perform_all_evolves calls Memory.empty_state store_inv_empty) as [Hs _].
  destruct (perform_all_evolves calls1 s Hs) as [Hs1 Hle1].
  destruct (perform_all_evolves calls2 s1 Hs1) as [_ Hle2].
  destruct (Hle1 _ _ Hk) as (r1' & Hk1' & Hsucc1). fold s1 in Hk1'. rewrite Hk1 in Hk1'.
  injection Hk1' as <-. destruct (Hle2 _ _ Hk1) as (r2 & Hk2 & Hsucc2). fold s2 in Hk2.
  assert (revision r < revision r2)%Z as Hlt by (unfold row_succ in *; naive_solver lia).
  pose proof (ri_key _ _ (si_rows _ Hs _ _ Hk)) as <-.
  destruct (outdated_write now c s2 r r2 Hc Hk2 Hlt) as [H1 H2]. split; [done|].
  intros rep Hrep. exists r2. split_and!; [done|by apply H2|done].
Qed.

Definition sample_start (op inst : string) : AcceptStartInput :=
  {| as_preview_key := "p"; as_project_id := "p"; as_project_path := "/w/p";
     as_host := {| h_host_id := "u:b"; h_pod_name := None; h_pod_ip := None |};
     as_operation_id := op; as_instance_id := inst; as_requested_port := Some 4100%Z;
     as_base_path := None; as_recover_unknown_evidence := None |}.

Definition sample_first : list (Z * Call) := [(1%Z, CallAcceptStart (sample_start "o1" "i1"))].
Definition sample_second : list (Z * Call) :=
  [(2%Z, CallAcceptStop "p" "o2"); (3%Z, CallMarkStopped "p" "o2" 2);
   (4%Z, CallAcceptStart (sample_start "o3" "i2"))].

(** A stop and a second start pass over a start that is still being reported. *)
Lemma late_writers_change_nothing_witness :
  let s2 := perform_all [] (perform_all sample_second
              (perform_all sample_first Memory.empty_state)) in
  Memory.instances s2 !! "p" = Some (Memory.started_row 4 (sample_start "o3" "i2") 3 4100)
  ∧ (perform 5%Z (CallPublishRunning "p" "o1" 1 77 4100 None) s2).2 = s2.
Proof.
  assert (Memory.instances (perform_all sample_first Memory.empty_state) !! "p"
          = Some (Memory.started_row 1 (sample_start "o1" "i1") 1 4100)) as H0
    by (refine (bool_decide_eq_true_1 _ _); by vm_compute).
  assert (Memory.instances (perform_all sample_second
            (perform_all sample_first Memory.empty_state)) !! "p"
          = Some (Memory.started_row 4 (sample_start "o3" "i2") 3 4100)) as H1
    by (refine (bool_decide_eq_true_1 _ _); by vm_compute).
  intros s2. split; [refine (bool_decide_eq_true_1 _ _); by vm_compute|].
  destruct (late_writers_change_nothing sample_first sample_second [] "p"
              (Memory.started_row 1 (sample_start "o1" "i1") 1 4100)
              (Memory.started_row 4 (sample_start "o3" "i2") 3 4100) 5%Z
              (CallPublishRunning "p" "o1" 1 77 4100 None) H0 H1) as [H _];
    [by left|done|exact H].
Defined.
