(* ===== verification/PreviewSim.v ===== *)
(** * A simulation between the two preview stores

    The relation between the tables of PostgreSQL and the maps in memory, and
    the rules for the statements of a transaction. *)
From stdpp Require Import sorting.
From S2P Require Import Prelude Ordered Validation PreviewModel PreviewMemory PreviewPostgres.
From S2P Require Import PreviewSafety.
Import Text Preview.
Local Open Scope rust_scope.

(** ** Rows and records *)

Definition encode (r : PreviewInstanceRecord) : Postgres.InstanceRow :=
  {| Postgres.ir_preview_key := preview_key r; Postgres.ir_project_id := project_id r;
     Postgres.ir_project_path := project_path r; Postgres.ir_instance_id := instance_id r;
     Postgres.ir_revision := revision r; Postgres.ir_operation_id := Some (operation_id r);
     Postgres.ir_host_id := host_id r; Postgres.ir_pod_name := pod_name r;
     Postgres.ir_pod_ip := pod_ip r; Postgres.ir_pid := pid r; Postgres.ir_port := port r;
     Postgres.ir_base_path := base_path r; Postgres.ir_state := Postgres.state_str (state r);
     Postgres.ir_last_heartbeat_at_us := last_heartbeat_at r;
     Postgres.ir_last_activity_at_us := last_activity_at r; Postgres.ir_detail := detail r;
     Postgres.ir_updated_at_us := updated_at r |}.

Lemma parse_state_str s : Postgres.parse_state (Postgres.state_str s) = Ok s.
Proof. by destruct s. Qed.
Lemma row_active_encode r : Postgres.row_active (encode r) = is_active (state r).
Proof. unfold Postgres.row_active, encode; simpl. by destruct (state r). Qed.

(** Decoding inverts encoding, where it accepts the row. *)
Lemma record_encode `{Postgres.PgBackend} r r' : Postgres.record (encode r) = Ok r' → r' = r.
Proof.
  unfold Postgres.record, encode; simpl. rewrite parse_state_str. simpl.
  destruct (Postgres.to_u16 (port r)) as [p|] eqn:Hp; simpl; [|done].
  assert (p = port r) as ->.
  { unfold Postgres.to_u16 in Hp. destruct (port r); [|congruence]. case_match; congruence. }
  intros (_ & (op & Hop & He)%ok_or_bind)%ensure_bind.
  assert (op = operation_id r) as ->.
  { simpl in Hop. destruct (str_is_empty _); congruence. }
  destruct (Postgres.timestamp_opt _) as [h|] eqn:Hh; simpl in He; [|done].
  assert (h = last_heartbeat_at r) as ->.
  { unfold Postgres.timestamp_opt, Postgres.timestamp in Hh.
    destruct (last_heartbeat_at r); [|congruence].
    destruct (Postgres.ts_representable _); simpl in Hh; congruence. }
  unfold Postgres.timestamp in He.
  do 2 (destruct (Postgres.ts_representable _); simpl in He; [|done]). injection He as <-.
  by destruct r.
Qed.

(** ** Records that differ in their bookkeeping *)

(** The two stores keep a heartbeat, a detail text and a time of the last write
    each in its own way. *)
Definition restamp (h : option Z) (d : option string) (u : Z) (r : PreviewInstanceRecord)
    : PreviewInstanceRecord := with_updated_at u (with_detail d (with_heartbeat h r)).
Definition same (r r' : PreviewInstanceRecord) : Prop := ∃ h d u, r' = restamp h d u r.

Lemma same_refl r : same r r.
Proof. exists (last_heartbeat_at r), (detail r), (updated_at r). by destruct r. Qed.
Lemma same_restamp r h d u h' d' u' : same (restamp h d u r) (restamp h' d' u' r).
Proof. by exists h', d', u'. Qed.
#[export] Hint Resolve same_refl : core.

Lemma same_of_fields r r' :
  preview_key r' = preview_key r → project_id r' = project_id r →
  project_path r' = project_path r → instance_id r' = instance_id r → revision r' = revision r →
  operation_id r' = operation_id r → host r' = host r → pid r' = pid r → port r' = port r →
  base_path r' = base_path r → state r' = state r → last_activity_at r' = last_activity_at r →
  same r r'.
Proof.
  intros. exists (last_heartbeat_at r'), (detail r'), (updated_at r').
  destruct r, r'. unfold restamp, host in *. simpl in *. by simplify_eq.
Qed.

Lemma same_holds r r' p : same r r' → holds_port r p ↔ holds_port r' p.
Proof. by intros (h & d & u & ->). Qed.

(** ** Operations *)

Definition kind_str (k : PreviewOperationKind) : string :=
  match k with OpStart => "start" | OpStop => "stop" end.
Lemma kind_str_start k : kind_str k = "start" → k = OpStart.
Proof. by destruct k. Qed.
Lemma kind_str_stop k : kind_str k = "stop" → k = OpStop.
Proof. by destruct k. Qed.

(** What both stores decide by: the kind, the preview and the port. *)
Record op_same (id : string) (o : Postgres.OperationRow) (o' : PreviewOperationRecord) : Prop := {
  os_kind : Postgres.or_kind o = kind_str (po_kind o');
  os_key : Postgres.or_preview_key o = po_preview_key o';
  os_port : Postgres.or_allocated_port o = po_allocated_port o';
  os_id : po_operation_id o' = id;
}.
Abbreviation ops_same := (map_Forall2 (K:=string) (M:=gmap string) op_same).

(** The operation a record is at belongs to its preview; a starting one is at
    an open start. *)
Definition at_operation (k : string) (r : PreviewInstanceRecord)
    (ops : gmap string PreviewOperationRecord) : Prop :=
  ∃ o, ops !! operation_id r = Some o ∧ po_preview_key o = k
       ∧ (state r = Starting → po_kind o = OpStart ∧ po_state o = Accepted).

(** ** The relation *)

Record sim (A : gmap string PreviewInstanceRecord) (t : Postgres.Tables) (s : Memory.State) : Prop := {
  sim_rows : Postgres.preview_instances t = encode <$> A;
  sim_same : map_Forall2 (λ _, same) A (Memory.instances s);
  sim_ops : ops_same (Postgres.preview_operations t) (Memory.operations s);
  sim_key : ∀ k r, A !! k = Some r → preview_key r = k;
  sim_at : ∀ k r, A !! k = Some r → at_operation k r (Memory.operations s);
}.

Section sim.
Context {A : gmap string PreviewInstanceRecord} {t : Postgres.Tables} {s : Memory.State}.
Context (Hsim : sim A t s).

Lemma sim_lookup k r : A !! k = Some r → ∃ r', Memory.instances s !! k = Some r' ∧ same r r'.
Proof using All.
  intros Hk. pose proof (sim_same _ _ _ Hsim k) as H. rewrite Hk in H. inversion H; subst; eauto.
Qed.
Lemma sim_lookup_None k : A !! k = None → Memory.instances s !! k = None.
Proof using All.
  intros Hk. pose proof (sim_same _ _ _ Hsim k) as H. rewrite Hk in H. by inversion H.
Qed.
Lemma sim_operation id o :
  Postgres.preview_operations t !! id = Some o →
  ∃ o', Memory.operations s !! id = Some o' ∧ op_same id o o'.
Proof using All.
  intros Hk. pose proof (sim_ops _ _ _ Hsim id) as H. rewrite Hk in H. inversion H; subst; eauto.
Qed.
Lemma sim_operation_None id :
  Postgres.preview_operations t !! id = None → Memory.operations s !! id = None.
Proof using All.
  intros Hk. pose proof (sim_ops _ _ _ Hsim id) as H. rewrite Hk in H. by inversion H.
Qed.

(** One record is written, and the operations of its preview. *)
Lemma sim_write k x x' ops ops' :
  preview_key x = k → same x x' → ops_same ops ops' → at_operation k x ops' →
  (∀ id o, Memory.operations s !! id = Some o → po_preview_key o ≠ k → ops' !! id = Some o) →
  sim (<[k := x]> A)
    {| Postgres.preview_instances := encode <$> <[k := x]> A; Postgres.preview_operations := ops |}
    {| Memory.instances := <[k := x']> (Memory.instances s); Memory.operations := ops' |}.
Proof using All.
  intros Hk Hx Hops Hat Hframe. split; simpl; [done| |done|..].
  - apply map_Forall2_insert_2; [done|]. apply Hsim.
  - intros k' r [[<- <-]|[Hne Hr]]%lookup_insert_Some; [done|]. by eapply sim_key.
  - intros k' r [[<- <-]|[Hne Hr]]%lookup_insert_Some; [done|].
    destruct (sim_at _ _ _ Hsim _ _ Hr) as (o & Ho & Hok & Hst).
    exists o. split; [|done]. apply Hframe; [done|congruence].
Qed.
End sim.

Lemma sim_empty :
  sim ∅ {| Postgres.preview_instances := ∅; Postgres.preview_operations := ∅ |} Memory.empty_state.
Proof.
  split; simpl; [by rewrite fmap_empty|apply map_Forall2_empty|apply map_Forall2_empty|..];
    intros k r; by rewrite lookup_empty.
Qed.

(** ** Statements of a transaction *)

Lemma btree_keys_fmap {V W} (f : V → W) (m : gmap string V) : btree_keys (f <$> m) = btree_keys m.
Proof. unfold btree_keys. by rewrite dom_fmap_L. Qed.
Lemma omap_lookup_fmap {V W} (f : V → W) (m : gmap string V) (ks : list string) :
  omap (λ k, (f <$> m) !! k) ks = f <$> omap (λ k, m !! k) ks.
Proof.
  induction ks as [|k ks IH]; csimpl; [done|]. rewrite lookup_fmap.
  destruct (m !! k); csimpl; by rewrite IH.
Qed.
Lemma filter_fmap_eq {V W} (f : V → W) (P : W → Prop) `{!∀ w, Decision (P w)} (l : list V) :
  filter P (f <$> l) = f <$> filter (λ v, P (f v)) l.
Proof.
  induction l as [|v l IH]; csimpl; [done|]. rewrite !filter_cons.
  case_decide; csimpl; by rewrite IH.
Qed.

(** The operations both stores decide by are the same ones. *)
Definition ops_like (p p' : gmap string Postgres.OperationRow) : Prop :=
  ∀ m, ops_same p m → ops_same p' m.

Section statements.
Context `{!Postgres.PgBackend}.
Context (collation_orders : ∀ l, Postgres.pg_collation l ≡ₚ l).
Abbreviation tx m t Q := (wp m t Q (λ _ _, True)).

Lemma decode_all_encode l l' : Postgres.decode_all (encode <$> l) = Ok l' → l' = l.
Proof using Type.
  revert l'. induction l as [|r l IH]; intros l'; csimpl; [by intros [= <-]|].
  destruct (Postgres.record _) as [r0|] eqn:Hr; simpl; [|done]. apply record_encode in Hr as ->.
  destruct (Postgres.decode_all _) as [l0|] eqn:Hl; simpl; [|done]. intros [= <-].
  f_equal. by apply IH.
Qed.
Lemma ports_of_omap l ps : Postgres.ports_of l = Ok ps → ps = omap port l.
Proof using Type.
  revert ps. induction l as [|r l IH]; intros ps; simpl; [by intros [= <-]|].
  destruct (port r) as [p|]; simpl; [|done].
  destruct (Postgres.ports_of l) as [ps'|]; simpl; [|done]. intros [= <-]. f_equal. by apply IH.
Qed.

Lemma wp_finish t r st res (Q : unit → _ → Prop) :
  (∀ ops, ops_like (Postgres.preview_operations t) ops → Q tt (Postgres.set_operations ops t)) →
  tx (Postgres.finish r st res) t Q.
Proof using Type.
  intros HQ. unfold Postgres.finish, Postgres.operation. wp_steps.
  destruct (_ !! operation_id r) as [o|] eqn:Ho; [|done]. wp_steps.
  destruct (_ && _ && _); [|done]. unfold Postgres.put_operation. wp_steps.
  - apply HQ. intros m Hm id. destruct (decide (id = operation_id r)) as [->|Hne].
    + rewrite lookup_insert_eq. specialize (Hm (operation_id r)). rewrite Ho in Hm.
      inversion Hm as [? o' [? ? ? ?]|]; subst. by constructor.
    + rewrite lookup_insert_ne by done. apply Hm.
  - replace t with (Postgres.set_operations (Postgres.preview_operations t) t) by by destruct t.
    apply HQ. by intros m Hm.
Qed.
Lemma wp_finish_recovered t r why (Q : unit → _ → Prop) :
  (∀ ops, ops_like (Postgres.preview_operations t) ops → Q tt (Postgres.set_operations ops t)) →
  tx (Postgres.finish_recovered r why) t Q.
Proof using Type.
  intros HQ. unfold Postgres.finish_recovered, Postgres.operation. wp_steps.
  destruct (_ !! operation_id r) as [o|] eqn:Ho; [|done]. wp_steps. by apply wp_finish.
Qed.
Lemma wp_insert_operation t r kind requested intent (Q : unit → _ → Prop) :
  (∀ o, Postgres.preview_operations t !! operation_id r = None →
     Postgres.or_kind o = kind → Postgres.or_preview_key o = preview_key r →
     Postgres.or_allocated_port o = port r →
     Q tt (Postgres.set_operations (<[operation_id r := o]> (Postgres.preview_operations t)) t)) →
  tx (Postgres.insert_operation r kind requested intent) t Q.
Proof using Type.
  intros HQ. unfold Postgres.insert_operation, Postgres.operation, Postgres.put_operation. wp_steps.
  destruct (_ !! operation_id r) as [o|] eqn:Ho; simpl; [done|]. wp_steps. by apply HQ.
Qed.

Context (A : gmap string PreviewInstanceRecord) (t : Postgres.Tables).
Context (Hrows : Postgres.preview_instances t = encode <$> A).

Lemma wp_pg_get k (Q : option PreviewInstanceRecord → _ → Prop) : Q (A !! k) t → tx (Postgres.get k) t Q.
Proof using Hrows.
  intros HQ. unfold Postgres.get. wp_steps. rewrite Hrows, lookup_fmap.
  destruct (A !! k) as [r|]; simpl; wp_steps; [|done].
  destruct (Postgres.record _) as [r'|] eqn:Hr; wp_steps; [|done].
  by apply record_encode in Hr as ->.
Qed.
Lemma wp_current k (Q : PreviewInstanceRecord → _ → Prop) :
  (∀ r, A !! k = Some r → Q r t) → tx (Postgres.current k) t Q.
Proof using Hrows.
  intros HQ. unfold Postgres.current. wp_steps. apply wp_pg_get. wp_steps. destruct (A !! k); auto.
Qed.

(** The records of the active previews, in the order of the collation. *)
Lemma wp_active (Q : list PreviewInstanceRecord → _ → Prop) :
  (∀ l, l ≡ₚ filter (λ r, is_active (state r) = true) (btree_values A) → Q l t) →
  tx Postgres.active t Q.
Proof using All.
  intros HQ. unfold Postgres.active, Postgres.rows_in_order. wp_steps.
  rewrite Hrows, btree_keys_fmap, omap_lookup_fmap, filter_fmap_eq.
  destruct (Postgres.decode_all _) as [l|] eqn:Hl; [|done]. apply HQ.
  apply decode_all_encode in Hl as ->. unfold btree_values. rewrite collation_orders.
  erewrite list_filter_iff; [done|]. intros r. simpl. by rewrite row_active_encode.
Qed.
Lemma wp_ports (Q : list Z → _ → Prop) :
  (∀ ps, (∀ p, p ∈ ps ↔ ∃ k r, A !! k = Some r ∧ holds_port r p) → Q ps t) →
  tx Postgres.ports t Q.
Proof using All.
  intros HQ. unfold Postgres.ports. wp_steps. apply wp_active. intros l Hl. wp_steps.
  destruct (Postgres.ports_of l) as [ps|] eqn:Hps; [|done]. apply HQ. intros p.
  apply ports_of_omap in Hps as ->. rewrite Hl, list_elem_of_omap. unfold holds_port.
  setoid_rewrite list_elem_of_filter. setoid_rewrite elem_of_btree_values. naive_solver.
Qed.

(** An update by a record that keeps the identity of the one it replaces. *)
Definition same_identity (r x : PreviewInstanceRecord) : Prop :=
  preview_key x = preview_key r ∧ project_id x = project_id r ∧ project_path x = project_path r
  ∧ instance_id x = instance_id r ∧ host x = host r.
Lemma wp_save r x (Q : unit → _ → Prop) :
  A !! preview_key r = Some r → same_identity r x →
  Q tt (Postgres.set_instances (encode <$> <[preview_key r := x]> A) t) →
  tx (Postgres.save r x) t Q.
Proof using Hrows.
  intros Hr (Hk & Hp & Hpp & Hi & Hh) HQ. unfold Postgres.save. wp_steps.
  rewrite Hrows, lookup_fmap, Hr. simpl. case_match; wp_steps; [|done].
  rewrite fmap_insert in HQ.
  replace (Postgres.saved x (encode r)) with (encode x); [done|].
  unfold Postgres.saved, encode. simpl. injection Hh as Hh1 Hh2 Hh3.
  by rewrite Hk, Hp, Hpp, Hi, Hh1, Hh2, Hh3.
Qed.

End statements.
