(* ===== verification/PreviewRefinement.v ===== *)
(** * The two preview stores, one record at a time

    A transaction on one record that commits takes the tables from a state
    related to the maps in memory to a state related to what the same call makes
    of them. *)
From stdpp Require Import sorting.
From S2P Require Import Prelude Ordered Validation PreviewModel PreviewMemory PreviewPostgres.
From S2P Require Import PreviewSafety PreviewSim.
Import Text Preview.
Local Open Scope rust_scope.

(** When the transaction succeeds so does the method in memory, with related
    answers and states. *)
Definition refines {X Y} (R : X → Y → Prop) (m : M Postgres.Tables PreviewStoreError X)
    (m' : M Memory.State PreviewStoreError Y) (t : Postgres.Tables) (s : Memory.State) : Prop :=
  wp m t (λ a t', wp m' s (λ a' s', R a a' ∧ ∃ A', sim A' t' s') (λ _ _, False)) (λ _ _, True).

(** The two states, field by field. *)
Ltac state_fields :=
  unfold Memory.on_operations, Memory.on_instances, Postgres.set_instances,
    Postgres.set_operations in *;
  cbn [Memory.instances Memory.operations Postgres.preview_instances
       Postgres.preview_operations] in *.

(** ** Operations in memory *)

Lemma ops_same_finished p m id st why now :
  ops_same p m → ops_same p (alter (Memory.op_finished st why now) id m).
Proof.
  intros Hm id'. destruct (decide (id' = id)) as [->|Hne].
  - rewrite lookup_alter_eq. destruct (Hm id) as [? ? []|]; by repeat constructor.
  - rewrite lookup_alter_ne by done. apply Hm.
Qed.
Lemma ops_same_fmap p (m : gmap string PreviewOperationRecord) f :
  ops_same p m →
  (∀ o, po_kind (f o) = po_kind o ∧ po_preview_key (f o) = po_preview_key o
        ∧ po_allocated_port (f o) = po_allocated_port o ∧ po_operation_id (f o) = po_operation_id o) →
  ops_same p (f <$> m).
Proof.
  intros Hm Hf id. rewrite lookup_fmap. destruct (Hm id) as [? o []|]; simpl; constructor.
  destruct (Hf o) as (? & ? & ? & ?). split; congruence.
Qed.
Lemma at_operation_alter k r ops id f :
  at_operation k r ops → state r ≠ Starting → (∀ o, po_preview_key (f o) = po_preview_key o) →
  at_operation k r (alter f id ops).
Proof.
  intros (o & Ho & Hk & _) Hst Hf. destruct (decide (operation_id r = id)) as [<-|Hne].
  - exists (f o). rewrite lookup_alter_eq, Ho. by rewrite Hf.
  - exists o. by rewrite lookup_alter_ne.
Qed.
Lemma at_operation_ended k r x ops :
  at_operation k r ops → operation_id x = operation_id r → state x ≠ Starting → at_operation k x ops.
Proof. intros (o & Ho & Hk & _) Hop Hst. exists o. by rewrite Hop. Qed.

Lemma wp_find k r s (Q : PreviewInstanceRecord → Memory.State → Prop) X :
  Memory.instances s !! k = Some r → Q r s → wp (Memory.find_instance k) s Q X.
Proof. intros Hk HQ. unfold Memory.find_instance. wp_steps. by rewrite Hk. Qed.

(** Completing the operation a record is at leaves those of other previews. *)
Lemma finish_frame k r ops f :
  at_operation k r ops →
  ∀ id o, ops !! id = Some o → po_preview_key o ≠ k → alter f (operation_id r) ops !! id = Some o.
Proof.
  intros (o & Ho & Hk & _) id o' Ho' Hne. rewrite lookup_alter_ne; [done|]. intros <-. congruence.
Qed.

Section methods.
Context `{!Postgres.PgBackend}.
Context (collation_orders : ∀ l, Postgres.pg_collation l ≡ₚ l).
Context {A : gmap string PreviewInstanceRecord} {t : Postgres.Tables} {s : Memory.State}.
Context (Hsim : sim A t s).

(** Both stores look at the record of the same key. *)
Lemma refines_current k (Q : PreviewInstanceRecord → Postgres.Tables → Prop) :
  (∀ r r', A !! k = Some r → Memory.instances s !! k = Some r' → preview_key r = k → same r r' →
     at_operation k r (Memory.operations s) → Q r t) →
  wp (Postgres.current k) t Q (λ _ _, True).
Proof using Hsim.
  intros HQ. apply (wp_current A); [apply Hsim|]. intros r Hr.
  destruct (sim_lookup Hsim k r Hr) as (r' & Hr' & Hs).
  eapply HQ; eauto using sim_key, sim_at.
Qed.

Lemma refines_save k r x (Q : unit → Postgres.Tables → Prop) :
  A !! k = Some r → same_identity r x →
  Q tt (Postgres.set_instances (encode <$> <[k := x]> A) t) →
  wp (Postgres.save r x) t Q (λ _ _, True).
Proof using Hsim.
  intros Hr Hx HQ. pose proof (sim_key _ _ _ Hsim _ _ Hr) as <-.
  by apply (wp_save A); [apply Hsim|..].
Qed.

(** The update is skipped when the record did not change. *)
Lemma refines_save_changed k r x (Q : unit → Postgres.Tables → Prop) :
  A !! k = Some r → same_identity r x →
  Q tt (Postgres.set_instances (encode <$> <[k := x]> A) t) →
  wp (mwhen (negb (bool_decide (x = r))) (Postgres.save r x)) t Q (λ _ _, True).
Proof using Hsim.
  intros Hr Hx HQ. case_bool_decide as Heq; simpl; [|by apply (refines_save k)].
  subst x. rewrite insert_id in HQ by done. rewrite <- (sim_rows _ _ _ Hsim) in HQ.
  wp_steps. by destruct t.
Qed.

Lemma ops_like_refl p : ops_like p p.
Proof using Type. by intros m. Qed.
#[local] Hint Resolve ops_like_refl : core.

(** The record of one preview is written, and operations change in what the
    stores do not decide by. *)
Lemma written k r x x' ops ops' :
  A !! k = Some r → preview_key x = k → same x x' → operation_id x = operation_id r →
  state x ≠ Starting → ops_like (Postgres.preview_operations t) ops →
  (∀ p, ops_same p (Memory.operations s) → ops_same p ops') →
  (∀ id o, Memory.operations s !! id = Some o → po_preview_key o ≠ k → ops' !! id = Some o) →
  at_operation k x ops' →
  ∃ A', sim A'
    {| Postgres.preview_instances := encode <$> <[k := x]> A; Postgres.preview_operations := ops |}
    {| Memory.instances := <[k := x']> (Memory.instances s); Memory.operations := ops' |}.
Proof using Hsim.
  intros Hr Hk Hx Hop Hst Hl Hm Hframe Hat. eexists. eapply (sim_write Hsim k x x'); eauto.
  apply Hl, Hm, Hsim.
Qed.
(** The operation is left alone in memory. *)
Lemma written_row k r x x' ops :
  A !! k = Some r → preview_key x = k → same x x' → operation_id x = operation_id r →
  state x ≠ Starting → ops_like (Postgres.preview_operations t) ops →
  ∃ A', sim A'
    {| Postgres.preview_instances := encode <$> <[k := x]> A; Postgres.preview_operations := ops |}
    {| Memory.instances := <[k := x']> (Memory.instances s);
       Memory.operations := Memory.operations s |}.
Proof using Hsim.
  intros Hr Hk Hx Hop Hst Hl. eapply (written k r x x'); eauto.
  eapply (at_operation_ended k r); [by eapply sim_at|done..].
Qed.
(** The operation is completed in memory. *)
Lemma written_finished k r x x' ops st why now :
  A !! k = Some r → preview_key x = k → same x x' → operation_id x = operation_id r →
  state x ≠ Starting → ops_like (Postgres.preview_operations t) ops →
  ∃ A', sim A'
    {| Postgres.preview_instances := encode <$> <[k := x]> A; Postgres.preview_operations := ops |}
    {| Memory.instances := <[k := x']> (Memory.instances s);
       Memory.operations :=
         alter (Memory.op_finished st why now) (operation_id r) (Memory.operations s) |}.
Proof using Hsim.
  intros Hr Hk Hx Hop Hst Hl. pose proof (sim_at _ _ _ Hsim _ _ Hr) as Hat.
  eapply (written k r x x'); eauto using ops_same_finished, finish_frame.
  apply at_operation_alter; [by eapply at_operation_ended|done..].
Qed.
(** Only the operation is completed, once more. *)
Lemma finished_again k r st why now :
  A !! k = Some r → state r ≠ Starting →
  ∃ A', sim A' t {| Memory.instances := Memory.instances s;
                    Memory.operations := alter (Memory.op_finished st why now) (operation_id r)
                                           (Memory.operations s) |}.
Proof using Hsim.
  intros Hr Hst. destruct (sim_lookup Hsim _ _ Hr) as (r' & Hr' & Hs).
  destruct (written_finished k r r r' (Postgres.preview_operations t) st why now) as [A' HA'];
    [done|by eapply sim_key|done..|].
  exists A'. rewrite (insert_id _ _ _ Hr'), (insert_id _ _ _ Hr) in HA'.
  pose proof (sim_rows _ _ _ Hsim) as Ht. by destruct t; simpl in *; subst.
Qed.

Lemma mark_stopped_refines now key op rev :
  refines same (Postgres.mark_stopped_tx now key op rev) (Memory.mark_stopped now key op rev) t s.
Proof using Hsim.
  unfold refines, Postgres.mark_stopped_tx. wp_steps.
  apply refines_current. intros r r' Hr Hr' Hk Hs Hat. wp_steps.
  destruct (_ && _) eqn:Hg; [|done]. apply andb_true_iff in Hg as [Hop Hrev].
  pose proof Hop as Heq%bool_decide_eq_true. destruct Hs as (h & d & u & ->).
  case_if Hst; wp_steps.
  - unfold Memory.mark_stopped. wp_steps. apply (wp_find _ _ _ _ _ Hr'). simpl.
    rewrite Hop, Hrev, Hst. apply bool_decide_eq_true in Hst. rewrite Hst. simpl.
    unfold Memory.finish_operation. wp_steps. split; [by eexists _, _, _|].
    rewrite <- Heq. eapply finished_again; [done|congruence].
  - case_if Hst2; [|done]. wp_steps. apply (refines_save key); [done|by repeat split|].
    wp_steps. apply wp_finish. intros ops Hops. wp_steps.
    unfold Memory.mark_stopped. wp_steps. apply (wp_find _ _ _ _ _ Hr'). simpl.
    rewrite Hop, Hrev, Hst2. simpl. unfold Memory.finish_operation, Memory.put_instance. wp_steps.
    split; [by eexists _, _, _|]. rewrite <- Heq.
    eapply written_finished; try done. by eexists _, _, _.
Qed.

(** A failure completes the open operations of its preview. *)
Lemma mark_failed_refines now key inst rev why :
  refines same (Postgres.mark_failed_tx now key inst rev why)
    (Memory.mark_failed now key inst rev why) t s.
Proof using Hsim.
  unfold refines, Postgres.mark_failed_tx. wp_steps.
  apply refines_current. intros r r' Hr Hr' Hk Hs Hat. wp_steps. case_if Hg; [|done]. wp_steps.
  apply (refines_save key); [done|by repeat split|]. wp_steps. apply wp_finish. intros ops Hops.
  wp_steps. destruct Hs as (h & d & u & ->).
  unfold Memory.mark_failed. wp_steps. apply (wp_find _ _ _ _ _ Hr'). wp_steps.
  simpl in Hg |- *. rewrite Hg. unfold Memory.put_instance. wp_steps. state_fields.
  split; [by eexists _, _, _|]. eapply (written key r); try done; [by eexists _, _, _|..].
  - intros p Hp. apply ops_same_fmap; [done|]. intros o. by case_match.
  - intros id o Ho Hne. rewrite lookup_fmap, Ho. simpl. by rewrite bool_decide_eq_false_2.
  - destruct Hat as (o & Ho & Hko & _). unfold at_operation. simpl.
    eexists. rewrite lookup_fmap, Ho. split; [done|]. split; [|done]. by case_match.
Qed.

Lemma mark_unknown_refines now key inst why :
  refines same (Postgres.mark_unknown_tx now key inst why) (Memory.mark_unknown now key inst why) t s.
Proof using Hsim.
  unfold refines, Postgres.mark_unknown_tx. wp_steps.
  apply refines_current. intros r r' Hr Hr' Hk Hs Hat. wp_steps. case_if Hg; [|done]. wp_steps.
  apply (refines_save key); [done|by repeat split|]. wp_steps. apply wp_finish. intros ops Hops.
  wp_steps. destruct Hs as (h & d & u & ->).
  unfold Memory.mark_unknown, Memory.mutate. wp_steps. apply (wp_find _ _ _ _ _ Hr'). wp_steps.
  simpl in Hg |- *. rewrite Hg. simpl. unfold Memory.put_instance. wp_steps.
  split; [by eexists _, _, _|]. eapply (written_row key r); try done. by eexists _, _, _.
Qed.

Lemma resolve_unknown_stopped_refines now key inst evidence :
  refines same (Postgres.resolve_unknown_stopped_tx now key inst evidence)
    (Memory.resolve_unknown_stopped now key inst evidence) t s.
Proof using Hsim.
  unfold refines, Postgres.resolve_unknown_stopped_tx. wp_steps.
  apply refines_current. intros r r' Hr Hr' Hk Hs Hat. wp_steps. case_if Hg; [|done]. wp_steps.
  apply (refines_save key); [done|by repeat split|]. wp_steps. apply wp_finish_recovered.
  intros ops Hops. wp_steps. destruct Hs as (h & d & u & ->).
  unfold Memory.resolve_unknown_stopped, Memory.mutate. wp_steps.
  apply (wp_find _ _ _ _ _ Hr'). wp_steps.
  rewrite !andb_true_iff in Hg. destruct Hg as [[_ Hi] Hst]. simpl in Hi, Hst |- *.
  rewrite Hi, Hst. simpl. unfold Memory.put_instance. wp_steps.
  split; [by eexists _, _, _|]. eapply (written_row key r); try done. by eexists _, _, _.
Qed.

Lemma refresh_heartbeat_refines now key inst :
  refines (option_Forall2 same) (Postgres.refresh_heartbeat_tx now key inst)
    (Memory.refresh_heartbeat now key inst) t s.
Proof using Hsim.
  unfold refines, Postgres.refresh_heartbeat_tx. wp_steps.
  apply (wp_pg_get A); [apply Hsim|]. destruct (A !! key) as [r|] eqn:Hr; wp_steps.
  2:{ unfold Memory.refresh_heartbeat. wp_steps. rewrite (sim_lookup_None Hsim) by done. wp_steps.
      split; [constructor|]. eauto. }
  destruct (sim_lookup Hsim _ _ Hr) as (r' & Hr' & h & d & u & ->).
  case_if Hg; wp_steps.
  { unfold Memory.refresh_heartbeat. wp_steps. rewrite Hr'. simpl in Hg |- *. rewrite Hg. wp_steps.
    split; [constructor|]. eauto. }
  apply (refines_save key); [done|by repeat split|]. wp_steps.
  unfold Memory.refresh_heartbeat. wp_steps. rewrite Hr'. simpl in Hg |- *. rewrite Hg.
  unfold Memory.put_instance. wp_steps. split; [constructor; by eexists _, _, _|].
  eapply (written_row key r); try done; [simpl; by eapply sim_key|by eexists _, _, _|simpl].
  intros Hst. rewrite Hst in Hg. simpl in Hg. by rewrite orb_true_r in Hg.
Qed.

(** The transitions of one record do not read the bookkeeping. *)
Lemma publication_same op rev p prt base now r x first h d u :
  apply_running_publication op rev p prt base now r = Ok (x, first) →
  ∃ x', apply_running_publication op rev p prt base now (restamp h d u r) = Ok (x', first)
        ∧ same x x'.
Proof using Type.
  unfold apply_running_publication. cbn [restamp with_updated_at with_detail with_heartbeat
    operation_id revision port pid state base_path last_activity_at].
  destruct (ensure _ _) as [[]|]; simpl; [|done].
  destruct (match state r with Starting => _ | _ => _ end) as [f|]; simpl; [|done].
  destruct (ensure _ _) as [[]|]; simpl; [|done]. intros [= <- <-]. eexists. split; [done|].
  destruct f, (is_none (base_path r) && is_some base); by apply same_of_fields.
Qed.
Lemma retry_same input now r x changed h d u :
  apply_start_port_retry input now r = Ok (x, changed) →
  ∃ x', apply_start_port_retry input now (restamp h d u r) = Ok (x', changed) ∧ same x x'.
Proof using Type.
  unfold apply_start_port_retry. cbn [restamp with_updated_at with_detail with_heartbeat
    preview_key operation_id instance_id revision port pid state].
  destruct (ensure (retry_input_valid _) _) as [[]|]; simpl; [|done].
  destruct (ok_or _ _) as [n|]; simpl; [|done].
  destruct (ensure _ _) as [[]|]; simpl; [|done].
  destruct (ensure _ _) as [[]|]; simpl; [|done].
  destruct ((revision r =? n)%Z && _); simpl; [intros [= <- <-]; eexists; split; [done|by eexists _, _, _]|].
  destruct (ensure _ _) as [[]|]; simpl; [|done]. intros [= <- <-]. eexists. split; [done|].
  by apply same_of_fields.
Qed.

Lemma publish_running_refines now key op rev p prt base :
  refines same (Postgres.publish_running_tx now key op rev p prt base)
    (Memory.publish_running now key op rev p prt base) t s.
Proof using Hsim.
  unfold refines, Postgres.publish_running_tx. wp_steps.
  apply refines_current. intros r r' Hr Hr' Hk (h & d & u & ->) Hat. wp_steps.
  destruct (apply_running_publication _ _ _ _ _ _ _) as [[x first]|] eqn:Ha; [|done].
  destruct (publication_same _ _ _ _ _ _ _ _ _ h d u Ha) as (x' & Ha' & Hx).
  apply apply_running_publication_ok in Ha as (Hop & _ & _ & _ & _ & _ & Hk' & Hi' & Hh' & Hp' & Hpp'
    & _ & Hop' & _ & Hst' & _).
  assert (wp (Memory.publish_running now key op rev p prt base) s (λ a' s',
    a' = x' ∧ s' = {| Memory.instances := <[key := x']> (Memory.instances s);
      Memory.operations := if first then
        alter (Memory.op_finished OpSucceeded ("pid=" +:+ pretty p +:+ " port=" +:+ pretty prt) now)
          op (Memory.operations s) else Memory.operations s |}) (λ _ _, False)) as Hmem.
  { unfold Memory.publish_running. wp_steps. apply (wp_find _ _ _ _ _ Hr'). wp_steps.
    rewrite Ha'. unfold Memory.put_instance, Memory.finish_operation. by wp_steps; simplify_eq. }
  apply wp_bind, (refines_save_changed key); [done|by repeat split|]. apply wp_bind.
  eapply (wp_mono _ _ (λ _ t', ∃ ops, ops_like (Postgres.preview_operations t) ops
    ∧ t' = {| Postgres.preview_instances := encode <$> <[key := x]> A;
              Postgres.preview_operations := ops |})); [|intros [] t' (ops & Hops & ->)|done].
  { destruct first; simpl; [apply wp_finish; intros ops Hops; by exists ops|].
    apply wp_ret. by eexists. }
  wp_steps. eapply wp_mono; [exact Hmem| |done]. intros a' s' [-> ->]. split; [done|].
  assert (state x ≠ Starting) by congruence.
  destruct first; [rewrite <- Hop; eapply (written_finished key r)|eapply (written_row key r)];
    try done; congruence.
Qed.

(** A second operation of the preview is recorded, and its record moves to it. *)
Lemma written_new k x x' ops id o o' :
  preview_key x = k → same x x' → operation_id x = id →
  ops_like (Postgres.preview_operations t) ops → Memory.operations s !! id = None →
  op_same id o o' → po_preview_key o' = k →
  (state x = Starting → po_kind o' = OpStart ∧ po_state o' = Accepted) →
  ∃ A', sim A'
    {| Postgres.preview_instances := encode <$> <[k := x]> A;
       Postgres.preview_operations := <[id := o]> ops |}
    {| Memory.instances := <[k := x']> (Memory.instances s);
       Memory.operations := <[id := o']> (Memory.operations s) |}.
Proof using Hsim.
  intros Hk Hx Hid Hl Hnew Ho Hok Hst. eexists. eapply (sim_write Hsim k x x'); eauto.
  - apply map_Forall2_insert_2; [done|]. apply Hl, Hsim.
  - exists o'. by rewrite Hid, lookup_insert_eq.
  - intros id' o0 Ho0 _. rewrite lookup_insert_ne; [done|congruence].
Qed.

Lemma accept_stop_refines now key op :
  refines same (Postgres.accept_stop_tx now key op) (Memory.accept_stop now key op) t s.
Proof using Hsim.
  unfold refines, Postgres.accept_stop_tx. wp_steps. case_if Hne; [|done]. wp_steps.
  apply refines_current. intros r r' Hr Hr' Hk (h & d & u & ->) Hat. wp_steps.
  unfold Postgres.operation. wp_steps.
  destruct (Postgres.preview_operations t !! op) as [o|] eqn:Ho.
  - destruct (sim_operation Hsim _ _ Ho) as (o' & Ho' & [Hkind Hkey _ _]).
    case_if Hg; wp_steps; [done|]. rewrite !orb_false_iff, !negb_false_iff, !bool_decide_eq_true in Hg.
    destruct Hg as [[[Hg1 Hg2] _] Hg4].
    unfold Memory.accept_stop. wp_steps. apply (wp_find _ _ _ _ _ Hr'). wp_steps. rewrite Ho'.
    rewrite bool_decide_eq_true_2 by (apply kind_str_stop; congruence).
    rewrite bool_decide_eq_true_2 by congruence. rewrite bool_decide_eq_true_2 by done. simpl.
    wp_steps. split; [by eexists _, _, _|]. eauto.
  - pose proof (sim_operation_None Hsim _ Ho) as Ho'.
    case_if Hact; wp_steps.
    { unfold Memory.accept_stop. wp_steps. apply (wp_find _ _ _ _ _ Hr'). wp_steps. rewrite Ho'.
      simpl. rewrite Hact. wp_steps. split; [by eexists _, _, _|]. eauto. }
    case_if Hst; [|done]. wp_steps. destruct (i64_checked_succ _) as [n|] eqn:Hn; [|done].
    wp_steps. apply wp_finish. intros ops Hops. wp_steps.
    apply (wp_save A); [apply Hsim|by rewrite Hk|by repeat split|]. wp_steps.
    apply wp_insert_operation. simpl. intros o Hnew Hkind Hkey Hport. wp_steps.
    unfold Memory.accept_stop. wp_steps. apply (wp_find _ _ _ _ _ Hr'). wp_steps. rewrite Ho'.
    simpl. rewrite Hact. simpl in Hst. wp_steps. rewrite Hst.
    unfold Memory.put_instance, Memory.put_operation. wp_steps. rewrite Hn. wp_steps.
    split; [by eexists _, _, _|]. state_fields. rewrite Hk, insert_insert_eq.
    eapply written_new; try done; [by eexists _, _, _|by split; simpl; congruence].
Qed.

(** *** Ports *)

Lemma sim_holds p :
  (∃ k r, A !! k = Some r ∧ holds_port r p)
  ↔ ∃ k r, Memory.instances s !! k = Some r ∧ holds_port r p.
Proof using Hsim.
  split; intros (k & r & Hk & Hp); pose proof (sim_same _ _ _ Hsim k) as Hs; rewrite Hk in Hs.
  - inversion Hs as [? r' Hr|]; subst. exists k, r'. by rewrite <- (same_holds _ _ _ Hr).
  - inversion Hs as [r' ? Hr|]; subst. exists k, r'. by rewrite (same_holds _ _ _ Hr).
Qed.

Lemma retry_start_port_refines now input :
  refines same (Postgres.retry_start_port_tx now input) (Memory.retry_start_port now input) t s.
Proof using All.
  unfold refines, Postgres.retry_start_port_tx. wp_steps.
  apply refines_current. intros r r' Hr Hr' Hk (h & d & u & ->) (o' & Ho' & Hok & Hopen). wp_steps.
  destruct (apply_start_port_retry _ _ _) as [[x changed]|] eqn:Ha; [|done].
  destruct (retry_same _ _ _ _ _ h d u Ha) as (x' & Ha' & Hx).
  apply apply_start_port_retry_ok in Ha as (Hst & _ & Hop & _ & _ & _ & Hres).
  rewrite Hop in Ho'. destruct (Hopen Hst) as [Hkind Hacc].
  unfold Postgres.operation. wp_steps.
  destruct (Postgres.preview_operations t !! rt_operation_id input) as [o|] eqn:Ho; [|done].
  destruct (sim_operation Hsim _ _ Ho) as (o1 & Ho1 & [Hk1 Hk2 Hk3 Hk4]).
  assert (o1 = o') as -> by congruence. wp_steps. case_if Hg; [|done].
  rewrite !andb_true_iff, !bool_decide_eq_true in Hg. destruct Hg as [[[[[_ _] _] Hport] _] _].
  assert (bool_decide (po_kind o' = OpStart)
          && bool_decide (po_preview_key o' = rt_preview_key input)
          && bool_decide (po_operation_id o' = rt_operation_id input)
          && bool_decide (po_allocated_port o' = port r) && Memory.is_inflight (po_state o') = true)
    as Hmem.
  { rewrite !andb_true_iff, !bool_decide_eq_true, Hacc. split_and!; congruence || done. }
  destruct changed; cbn [negb]; wp_steps.
  2:{ unfold Memory.retry_start_port. wp_steps. apply (wp_find _ _ _ _ _ Hr'). wp_steps. rewrite Ha'.
      wp_steps. rewrite Ho1. wp_steps. simpl port. rewrite Hmem. cbn [negb]. wp_steps.
      split; [by eexists _, _, _|]. eauto. }
  apply (wp_ports collation_orders A); [apply Hsim|]. intros occ Hocc. wp_steps.
  destruct (Postgres.allocate _ _) as [q|] eqn:Hall; [|done].
  assert (rt_next_port input ∉ occ) as Hfree.
  { simpl in Hall. destruct (_ || bool_decide _) eqn:Hb; [done|].
    by apply orb_false_iff in Hb as [_ Hb%bool_decide_eq_false]. }
  destruct Hres as (Hrev & Hprev & _ & ->). simpl in Hx. wp_steps.
  apply (refines_save (rt_preview_key input)); [done|by repeat split|].
  wp_steps. case_if Hprt; [|done]. unfold Postgres.put_operation. wp_steps.
  unfold Memory.retry_start_port. wp_steps. apply (wp_find _ _ _ _ _ Hr'). wp_steps. rewrite Ha'.
  wp_steps. rewrite Ho1. wp_steps. simpl port. rewrite Hmem. cbn [negb]. wp_steps.
  destruct (existsb _ _) eqn:He; cbn [negb].
  { apply Hfree, Hocc, sim_holds. apply existsb_exists in He as (r0 & Hr0 & Hh0).
    apply list_elem_of_In, elem_of_btree_values in Hr0 as [k0 Hk0]. exists k0, r0.
    apply andb_true_iff in Hh0 as [? ?%opt_is_true]. done. }
  unfold Memory.put_operation, Memory.put_instance. wp_steps. split; [done|]. state_fields.
  destruct Hx as (h' & d' & u' & ->). eexists.
  eapply (sim_write Hsim (rt_preview_key input)); simpl; try done.
  - by eexists _, _, _.
  - apply map_Forall2_insert_2; [|apply Hsim]. by split.
  - exists (Memory.op_moved (Some (rt_next_port input)) u' o'). simpl.
    rewrite Hop, lookup_insert_eq. done.
  - intros id o0 Ho0 Hne. rewrite lookup_insert_ne; [done|]. intros <-. congruence.
Qed.

(** *** Admission *)

Lemma find_ext {X} (f g : X → bool) (l : list X) :
  (∀ x, x ∈ l → f x = g x) → find f l = find g l.
Proof using Type.
  induction l as [|x l IH]; intros Hfg; cbn [find]; [done|].
  rewrite (Hfg x) by by left. rewrite IH; [done|]. intros y Hy. apply Hfg. by right.
Qed.
Lemma allocate_choose occ occ' requested p :
  (∀ q, q ∈ occ ↔ q ∈ occ') → Postgres.allocate occ requested = Ok p →
  Memory.choose_port occ' requested = Ok p.
Proof using Type.
  intros Hocc. assert (∀ q, bool_decide (q ∈ occ) = bool_decide (q ∈ occ')) as Hd.
  { intros q. by apply bool_decide_ext. }
  unfold Postgres.allocate, Memory.choose_port. destruct requested as [q|].
  - rewrite Hd. destruct (is_preview_port q), (bool_decide (q ∈ occ')); simpl; done.
  - change Postgres.port_pool with Memory.port_pool.
    erewrite find_ext; [done|]. intros q Hq. simpl. rewrite Hd. f_equal.
    destruct (Memory.is_reserved q) eqn:Hres; cbn [negb].
    + unfold is_preview_port. fold (Memory.is_reserved q). rewrite Hres. by rewrite andb_false_r.
    + by apply port_pool_preview.
Qed.

Section start.
Context (now : Z) (input : AcceptStartInput).
Context (Hnew : Postgres.preview_operations t !! as_operation_id input = None).

Definition start_operation (prt : Z) : PreviewOperationRecord :=
  {| po_operation_id := as_operation_id input; po_preview_key := as_preview_key input;
     po_kind := OpStart; po_state := Accepted; po_host_id := h_host_id (as_host input);
     po_requested_port := as_requested_port input; po_allocated_port := Some prt;
     po_result := None; po_created_at := now; po_updated_at := now |}.
Definition start_admitted (rev prt : Z) : Memory.State :=
  {| Memory.instances := <[as_preview_key input := Memory.started_row now input rev prt]>
       (Memory.instances s);
     Memory.operations := <[as_operation_id input := start_operation prt]> (Memory.operations s) |}.

(** In memory: the revision, then the port, then the record. *)
Lemma accept_start_admits rev occ prt :
  Memory.next_revision (as_recover_unknown_evidence input) (Memory.instances s !! as_preview_key input)
    = Ok (inr rev) →
  (∀ q, q ∈ occ ↔ ∃ k r, k ≠ as_preview_key input ∧ A !! k = Some r ∧ holds_port r q) →
  Postgres.allocate occ (as_requested_port input) = Ok prt →
  Memory.accept_start now input s
    = (Ok (StartAdmitted (Memory.started_row now input rev prt)), start_admitted rev prt).
Proof using Hsim.
  intros Hrev Hocc Hall. unfold Memory.accept_start, mbind', mget, mlift. rewrite Hrev.
  erewrite (allocate_choose occ _ _ prt); [done| |done]. intros q. rewrite Hocc, list_elem_of_omap.
  setoid_rewrite list_elem_of_filter. setoid_rewrite elem_of_btree_values. split.
  - intros (k & r & Hne & Hr & Hh). destruct (sim_lookup Hsim _ _ Hr) as (r' & Hr' & Hs).
    destruct (proj1 (same_holds _ _ q Hs) Hh) as [Ha Hp]. exists r'. split; [|done]. split; [|by exists k].
    split; [done|]. destruct Hs as (h & d & u & ->). simpl.
    by rewrite (sim_key _ _ _ Hsim _ _ Hr).
  - intros (r' & ((Ha & Hne) & k & Hk) & Hp). pose proof (sim_same _ _ _ Hsim k) as Hs.
    rewrite Hk in Hs. inversion Hs as [r ? Hr HA|]; subst. exists k, r.
    split_and!; [|done|by apply (same_holds _ _ _ Hr)].
    destruct Hr as (h & d & u & ->). simpl in Hne. by rewrite (sim_key _ _ _ Hsim k r) in Hne.
Qed.

(** In PostgreSQL: the row is written over one that is no longer active. *)
Lemma write_started_refines A0 t0 rev prt existing :
  Postgres.preview_instances t0 = encode <$> A0 →
  (∀ k, k ≠ as_preview_key input → A0 !! k = A !! k) →
  ops_like (Postgres.preview_operations t) (Postgres.preview_operations t0) →
  wp (Postgres.write_started now input rev prt existing) t0
    (λ a t', a = StartAdmitted (Memory.started_row now input rev prt)
             ∧ ∃ A', sim A' t' (start_admitted rev prt)) (λ _ _, True).
Proof using Hsim Hnew.
  intros Hrows Hother Hops. unfold Postgres.write_started. apply wp_bind.
  eapply (wp_mono _ _ (λ _ t', t' = t0)); [|intros ? ? ->|done].
  { destruct existing as [previous|]; [|by apply wp_ret]. unfold Postgres.recheck_previous. wp_steps.
    apply (wp_pg_get A0); [done|]. wp_steps. destruct (A0 !! _); [|done]. wp_steps. case_if Hg; [|done].
    by wp_steps. }
  wp_steps. set (x := Memory.started_row now input rev prt).
  assert (<[as_preview_key input := x]> A0 = <[as_preview_key input := x]> A) as HA.
  { apply map_eq. intros k. destruct (decide (k = as_preview_key input)) as [->|Hne];
      [by rewrite !lookup_insert_eq|]. rewrite !lookup_insert_ne by done. by apply Hother. }
  eapply (wp_pg_get (<[as_preview_key input := x]> A)).
  { rewrite <- HA, fmap_insert, <- Hrows. done. }
  rewrite lookup_insert_eq. wp_steps. apply wp_insert_operation.
  intros o _ Hkind Hkey Hport. wp_steps. split; [done|]. state_fields.
  replace (<[as_preview_key input := Postgres.started_row now input rev prt]>
             (Postgres.preview_instances t0)) with (encode <$> <[as_preview_key input := x]> A)
    by by rewrite <- HA, fmap_insert, <- Hrows.
  apply (written_new (as_preview_key input) x); try done;
    first [by apply (sim_operation_None Hsim)|by split].
Qed.

Definition outcome_same (o o' : AcceptStartOutcome) : Prop :=
  match o, o' with
  | StartAdmitted r, StartAdmitted r' | ExistingReady r, ExistingReady r' | Blocked r, Blocked r' => same r r'
  | _, _ => False
  end.

(** With the previous record out of the way, the same port is found. *)
Lemma admission_refines A0 t0 rev existing :
  Postgres.preview_instances t0 = encode <$> A0 →
  (∀ k, k ≠ as_preview_key input → A0 !! k = A !! k) →
  (∀ r, A0 !! as_preview_key input = Some r → is_active (state r) = false) →
  ops_like (Postgres.preview_operations t) (Postgres.preview_operations t0) →
  Memory.next_revision (as_recover_unknown_evidence input) (Memory.instances s !! as_preview_key input)
    = Ok (inr rev) →
  refines outcome_same
    (let! occupied := Postgres.ports in
     let! prt := mlift (Postgres.allocate occupied (as_requested_port input)) in
     Postgres.write_started now input rev prt existing)
    (Memory.accept_start now input) t0 s.
Proof using All.
  intros Hrows Hother Hidle Hops Hrev. unfold refines. wp_steps.
  apply (wp_ports collation_orders A0); [done|]. intros occ Hocc. wp_steps.
  destruct (Postgres.allocate occ _) as [prt|] eqn:Hall; [|done].
  eapply wp_mono; [by apply (write_started_refines A0)| |done].
  intros a t' [-> HA']. unfold wp. rewrite (accept_start_admits rev occ prt Hrev);
    [by split; [apply same_refl|]| |done].
  intros q. rewrite Hocc. split.
  - intros (k & r & Hr & Hh). destruct (decide (k = as_preview_key input)) as [->|Hne].
    + destruct Hh as [Ha _]. rewrite (Hidle r Hr) in Ha. done.
    + exists k, r. rewrite <- Hother by done. done.
  - intros (k & r & Hne & Hr & Hh). exists k, r. by rewrite Hother.
Qed.

(** The record of the preview keeps its instance, so both stores answer with it. *)
Lemma accept_start_kept o :
  Memory.next_revision (as_recover_unknown_evidence input) (Memory.instances s !! as_preview_key input)
    = Ok (inl o) → Memory.accept_start now input s = (Ok o, s).
Proof using Type.
  intros Hn. unfold Memory.accept_start, mbind', mget, mlift. by rewrite Hn.
Qed.

Lemma accept_start_refines :
  refines outcome_same (Postgres.accept_start_tx now input) (Memory.accept_start now input) t s.
Proof using All.
  unfold refines, Postgres.accept_start_tx. wp_steps. case_if Hne; [|done]. wp_steps.
  apply (wp_pg_get A); [apply Hsim|]. unfold Postgres.operation. wp_steps. rewrite Hnew.
  unfold Postgres.admit_start. apply wp_bind.
  destruct (A !! as_preview_key input) as [r|] eqn:Hr.
  2:{ apply wp_ret, wp_bind, wp_lift. apply (admission_refines A t 1 None); try done; [apply Hsim|congruence|].
      by rewrite (sim_lookup_None Hsim). }
  destruct (sim_lookup Hsim _ _ Hr) as (r' & Hr' & h & d & u & ->).
  assert (∀ o o', Memory.next_revision (as_recover_unknown_evidence input)
      (Memory.instances s !! as_preview_key input) = Ok (inl o') → outcome_same o o' →
    wp (Memory.accept_start now input) s (λ a' s', outcome_same o a' ∧ ∃ A', sim A' t s')
      (λ _ _, False)) as Hkept.
  { intros o o' Hn Ho. unfold wp. rewrite (accept_start_kept o' Hn). eauto. }
  rewrite Hr' in Hkept. unfold Memory.next_revision in Hkept. simpl in Hkept.
  unfold Postgres.clear_previous. destruct (state r) eqn:Hst;
    try (apply wp_ret, wp_ret; eapply Hkept; [done|by eexists _, _, _]).
  1, 2: apply wp_ret, wp_bind, wp_ok_or; destruct (i64_checked_succ _) as [n|] eqn:Hn; [|done];
    apply (admission_refines A t n (Some r)); try done;
      [apply Hsim|intros ? ?; simplify_eq; by rewrite Hst|];
    rewrite Hr'; unfold Memory.next_revision; simpl; by rewrite Hst, Hn.
  - destruct (as_recover_unknown_evidence input) as [e|] eqn:He.
    2:{ apply wp_ret, wp_ret. eapply Hkept; [done|]. by eexists _, _, _. }
    wp_steps. case_if Hg; [|done]. wp_steps. eapply refines_save; [done|by repeat split|]. wp_steps.
    apply wp_finish. intros ops Hops. apply wp_ret, wp_bind, wp_ok_or.
    destruct (i64_checked_succ _) as [n|] eqn:Hn; [|done].
    eapply (admission_refines _ _ n (Some r)); [done|..|done|].
    + intros k Hk. by rewrite lookup_insert_ne.
    + rewrite lookup_insert_eq. by intros ? [= <-].
    + rewrite Hr', He. unfold Memory.next_revision. simpl. rewrite Hst, Hn.
      rewrite !andb_true_iff, negb_true_iff in Hg. destruct Hg as [[-> ->] ->]. done.
Qed.
End start.
End methods.
