(* ===== verification/PreviewTheorems.v ===== *)
(** * The store in PostgreSQL refines the store in memory

    The calls that touch many records, a run of calls, and what follows from the
    refinement for the tables. *)
From stdpp Require Import sorting.
From S2P Require Import Prelude Ordered Validation PreviewModel PreviewMemory PreviewPostgres.
From S2P Require Import PreviewSafety PreviewSim PreviewRefinement.
Import Text Preview.
Local Open Scope rust_scope.

(** ** Activity *)

(** What an entry does to the record of its preview. *)
Definition bump (e : ActivityFlushEntry) (r : PreviewInstanceRecord) : PreviewInstanceRecord :=
  if is_active (state r) && bool_decide (instance_id r = fe_instance_id e)
     && (last_activity_at r <? fe_at e)%Z
  then with_activity (fe_at e) r else r.
Definition bump_all (entries : list ActivityFlushEntry) (m : gmap string PreviewInstanceRecord)
    : gmap string PreviewInstanceRecord :=
  foldl (λ m e, alter (bump e) (fe_preview_key e) m) m entries.

Lemma mem_flush_entry m e : (Memory.flush_entry m e).1 = alter (bump e) (fe_preview_key e) m.
Proof.
  unfold Memory.flush_entry. destruct (m !! _) as [r|] eqn:Hr.
  - destruct (_ && _ && _) eqn:Hg; simpl.
    + rewrite <- (insert_id _ _ _ Hr) at 2. rewrite alter_insert_eq. unfold bump. by rewrite Hg.
    + rewrite alter_id; [done|]. rewrite Hr. intros ? [= <-]. unfold bump. by rewrite Hg.
  - by rewrite alter_id'.
Qed.
Lemma mem_flush_entries entries m : (Memory.flush_entries m entries).1 = bump_all entries m.
Proof.
  revert m. induction entries as [|e entries IH]; intros m; cbn [Memory.flush_entries bump_all foldl];
    [done|].
  destruct (Memory.flush_entry m e) as [m1 n1] eqn:H1.
  pose proof (mem_flush_entry m e) as He. rewrite H1 in He. simpl in He. subst m1.
  specialize (IH (alter (bump e) (fe_preview_key e) m)).
  destruct (Memory.flush_entries _ _) as [m2 n2]. exact IH.
Qed.

Lemma touches_encode e r :
  Postgres.touches e (encode r) = is_active (state r) && bool_decide (instance_id r = fe_instance_id e)
                                  && (last_activity_at r <? fe_at e)%Z.
Proof.
  unfold Postgres.touches. rewrite row_active_encode. simpl.
  by rewrite andb_comm, andb_assoc.
Qed.
Lemma touch_encode e r :
  (if Postgres.touches e (encode r) then Postgres.touch_row (fe_at e) (encode r) else encode r)
  = encode (bump e r).
Proof.
  unfold bump. rewrite touches_encode. destruct (_ && _ && _) eqn:Hg; [|done].
  apply andb_true_iff in Hg as [_ Hlt%Z.ltb_lt]. unfold Postgres.touch_row, encode. simpl.
  by rewrite Z.max_r by lia.
Qed.
Lemma pg_flush_entries entries m :
  (Postgres.flush_entries (encode <$> m) entries).1 = encode <$> bump_all entries m.
Proof.
  revert m. induction entries as [|e entries IH]; intros m;
    cbn [Postgres.flush_entries bump_all foldl]; [done|].
  assert ((Postgres.flush_entry (encode <$> m) e).1 = encode <$> alter (bump e) (fe_preview_key e) m) as He.
  { apply map_eq. intros k. unfold Postgres.flush_entry. rewrite !lookup_fmap.
    destruct (m !! fe_preview_key e) as [r|] eqn:Hr; simpl.
    - destruct (decide (k = fe_preview_key e)) as [->|Hne].
      + rewrite lookup_alter_eq, Hr. simpl. rewrite <- touch_encode.
        destruct (Postgres.touches _ _); simpl; by rewrite ?lookup_insert_eq, ?lookup_fmap, ?Hr.
      + rewrite lookup_alter_ne by done.
        destruct (Postgres.touches _ _); simpl; by rewrite ?lookup_insert_ne, ?lookup_fmap by done.
    - by rewrite alter_id', lookup_fmap. }
  destruct (Postgres.flush_entry _ _) as [m1 n1]. simpl in He. subst m1.
  specialize (IH (alter (bump e) (fe_preview_key e) m)).
  destruct (Postgres.flush_entries _ _) as [m2 n2]. exact IH.
Qed.

(** The order of the entries does not matter. *)
Lemma bump_alt e r :
  bump e r = if is_active (state r) && bool_decide (instance_id r = fe_instance_id e)
             then with_activity (Z.max (last_activity_at r) (fe_at e)) r else r.
Proof.
  unfold bump. destruct (is_active (state r) && _); simpl; [|done].
  destruct (last_activity_at r <? fe_at e)%Z eqn:Hlt.
  - apply Z.ltb_lt in Hlt. by rewrite Z.max_r by lia.
  - apply Z.ltb_ge in Hlt. rewrite Z.max_l by lia. by destruct r.
Qed.
Lemma bump_comm e1 e2 r : bump e1 (bump e2 r) = bump e2 (bump e1 r).
Proof.
  rewrite !bump_alt. destruct (is_active (state r)) eqn:Ha; simpl; [|by rewrite Ha].
  destruct (bool_decide (instance_id r = fe_instance_id e1)) eqn:H1,
    (bool_decide (instance_id r = fe_instance_id e2)) eqn:H2; simpl; rewrite ?Ha, ?H1, ?H2; simpl;
    rewrite ?Ha, ?H1, ?H2; simpl; [|done..].
  unfold with_activity. simpl. f_equal. lia.
Qed.
Lemma bump_all_perm entries entries' m :
  entries ≡ₚ entries' → bump_all entries m = bump_all entries' m.
Proof.
  intros Hp. revert m. induction Hp as [|e l l' _ IH|e1 e2 l|l l' l'' _ IH1 _ IH2]; intros m.
  - done.
  - apply IH.
  - simpl. f_equal. destruct (decide (fe_preview_key e1 = fe_preview_key e2)) as [Heq|Hne].
    + rewrite Heq, !alter_alter_eq. apply alter_ext. intros r _. apply bump_comm.
    + by apply alter_alter_ne.
  - by rewrite IH1, IH2.
Qed.

(** Bumping keeps everything but the activity. *)
Lemma bump_same e r r' : same r r' → same (bump e r) (bump e r').
Proof.
  intros (h & d & u & ->). unfold bump. simpl.
  destruct (_ && _ && _); by eexists _, _, _.
Qed.
Lemma bump_all_sim entries A t s :
  sim A t s →
  sim (bump_all entries A) (Postgres.set_instances (encode <$> bump_all entries A) t)
    (Memory.on_instances (bump_all entries) s).
Proof.
  revert A t s. induction entries as [|e entries IH]; intros A t s Hsim; simpl.
  { destruct Hsim. by split. }
  apply (IH _ (Postgres.set_instances (encode <$> alter (bump e) (fe_preview_key e) A) t)
           (Memory.on_instances (alter (bump e) (fe_preview_key e)) s)).
  destruct Hsim as [Hrows Hsame Hops Hkey Hat].
  assert (∀ k r, alter (bump e) (fe_preview_key e) A !! k = Some r → ∃ r0, A !! k = Some r0 ∧
    preview_key r = preview_key r0 ∧ operation_id r = operation_id r0 ∧ state r = state r0) as Hold.
  { intros k r [(_ & r0 & Hr0 & ->)|[_ Hr]]%lookup_alter_Some; [|by eauto]. eexists. split; [done|]. unfold bump. by case_match. }
  split; simpl; [done| |done|..].
  - intros k. rewrite !lookup_alter. case_decide; [subst k|apply Hsame].
    destruct (Hsame (fe_preview_key e)); constructor. by apply bump_same.
  - intros k r (r0 & Hr0 & -> & _)%Hold. by apply Hkey.
  - intros k r (r0 & Hr0 & _ & Hop & Hst)%Hold.
    unfold at_operation. rewrite Hop, Hst. by apply Hat.
Qed.

Lemma flush_activity_refines `{!Postgres.PgBackend} A t s entries :
  sim A t s →
  refines (λ _ _, True) (Postgres.flush_activity_tx entries) (Memory.flush_activity entries) t s.
Proof.
  intros Hsim. unfold refines, Postgres.flush_activity_tx. wp_steps.
  rewrite (sim_rows _ _ _ Hsim).
  pose proof (pg_flush_entries (merge_sort Postgres.entry_le entries) A) as Hpg.
  destruct (Postgres.flush_entries _ _) as [rows n]. wp_steps. unfold Memory.flush_activity. wp_steps.
  pose proof (mem_flush_entries entries (Memory.instances s)) as Hmem.
  destruct (Memory.flush_entries _ _) as [rows' n']. wp_steps. split; [done|].
  simpl in Hpg, Hmem. subst rows rows'. exists (bump_all entries A).
  rewrite (bump_all_perm _ entries A (merge_sort_Permutation _ _)). by apply bump_all_sim.
Qed.

(** ** Reconciliation after a reboot *)

(** A prefix up to a colon, read in two ways. *)
Lemma before_colon_prefix u h :
  Postgres.contains_colon u = false →
  Postgres.before_colon h = Some u ↔ starts_with (u +:+ ":") h = true.
Proof.
  revert h. induction u as [|c u IH]; intros h Hu; destruct h as [|c' h];
    cbn [Postgres.before_colon starts_with String.append]; [done|..].
  - change ((EmptyString +:+ ":")%string) with ":". cbn [starts_with].
    rewrite (Ascii.eqb_sym _ c'), andb_true_r. destruct (Ascii.eqb c' _); [done|].
    destruct (Postgres.before_colon h); done.
  - done.
  - change ((String c u +:+ ":")%string) with (String c (u +:+ ":")). cbn [starts_with].
    unfold Postgres.contains_colon in Hu. cbn [Postgres.before_colon] in Hu.
    destruct (Ascii.eqb c _) eqn:Hc; [done|].
    assert (Postgres.contains_colon u = false) as Hu'
      by (unfold Postgres.contains_colon; by destruct (Postgres.before_colon u)).
    specialize (IH h Hu'). destruct (Ascii.eqb c c') eqn:Hcc.
    + apply Ascii.eqb_eq in Hcc as <-. rewrite Hc. simpl. rewrite <- IH.
      destruct (Postgres.before_colon h); simpl; naive_solver.
    + simpl. destruct (Ascii.eqb c' _) eqn:Hc'; [naive_solver|].
      destruct (Postgres.before_colon h); simpl; [|naive_solver].
      split; [|done]. intros [= -> _]. by rewrite Ascii.eqb_refl in Hcc.
Qed.

Section reconcile.
Context `{!Postgres.PgBackend}.
Context (collation_orders : ∀ l, Postgres.pg_collation l ≡ₚ l).
Context (now : Z) (pod_uid boot_id : string) (Hcolon : Postgres.contains_colon pod_uid = false).
Abbreviation prior := (Memory.is_prior_boot pod_uid boot_id).
Abbreviation current_host := (pod_uid +:+ ":" +:+ boot_id).

Definition settled (r : PreviewInstanceRecord) : PreviewInstanceRecord :=
  with_updated_at now (with_detail (Some ("Host reboot reconciled by " +:+ current_host))
    (with_pid None (with_state Stopped r))).
Definition settle (r : PreviewInstanceRecord) : PreviewInstanceRecord :=
  if prior r then settled r else r.

Lemma reconcile_candidate_ok c A t (Q : list PreviewInstanceRecord → Postgres.Tables → Prop) :
  Postgres.preview_instances t = encode <$> A →
  A !! preview_key c = Some c → is_active (state c) = true →
  (∀ ops, ops_like (Postgres.preview_operations t) ops →
     Q (if prior c then [settled c] else [])
       {| Postgres.preview_instances := encode <$> <[preview_key c := settle c]> A;
          Postgres.preview_operations := ops |}) →
  wp (Postgres.reconcile_candidate now pod_uid current_host c) t Q (λ _ _, True).
Proof using Hcolon.
  intros Hrows Hc Ha HQ. unfold Postgres.reconcile_candidate.
  assert (negb (bool_decide (Postgres.before_colon (host_id c) = Some pod_uid))
          || bool_decide (host_id c = current_host) = negb (prior c)) as ->.
  { unfold Memory.is_prior_boot. rewrite Ha, andb_true_r, negb_andb, negb_involutive. f_equal. f_equal.
    apply eq_bool_prop_intro. rewrite bool_decide_spec, Is_true_true. by apply before_colon_prefix. }
  unfold settle in HQ. destruct (prior c) eqn:Hp; cbn [negb].
  - wp_steps. apply (wp_current A); [done|]. intros r Hr. simplify_eq.
    rewrite !bool_decide_eq_true_2, Ha by done. simpl. wp_steps.
    apply (wp_save A); [done|done|by repeat split|]. wp_steps.
    apply wp_finish_recovered. intros ops Hops. wp_steps. by apply HQ.
  - wp_steps. rewrite insert_id in HQ by done. rewrite <- Hrows in HQ.
    destruct t. apply HQ. by intros m.
Qed.

Lemma reconcile_candidates_ok cs A t :
  Postgres.preview_instances t = encode <$> A →
  NoDup (preview_key <$> cs) →
  (∀ c, c ∈ cs → A !! preview_key c = Some c ∧ is_active (state c) = true) →
  wp (Postgres.reconcile_candidates now pod_uid current_host cs) t
    (λ l t', l = settled <$> filter (λ r, prior r = true) cs
       ∧ ∃ A', Postgres.preview_instances t' = encode <$> A'
           ∧ (∀ k, A' !! k = (λ r, if bool_decide (k ∈ preview_key <$> cs) then settle r else r) <$> A !! k)
       ∧ ops_like (Postgres.preview_operations t) (Postgres.preview_operations t'))
    (λ _ _, True).
Proof using Hcolon.
  revert A t. induction cs as [|c cs IH]; intros A t Hrows Hnd Hcs; cbn [Postgres.reconcile_candidates].
  { wp_steps. split; [done|]. exists A. split_and!; [done| |by intros m].
    intros k. by destruct (A !! k). }
  rewrite fmap_cons in Hnd. apply NoDup_cons in Hnd as [Hc Hnd].
  destruct (Hcs c) as [HAc Ha]; [by left|].
  wp_steps. apply (reconcile_candidate_ok c A); [done..|]. intros ops Hops. wp_steps.
  eapply wp_mono; [apply (IH (<[preview_key c := settle c]> A)); [done|done|]| |done].
  { intros c' Hc'. rewrite lookup_insert_ne; [by apply Hcs; right|].
    intros Heq. apply Hc. rewrite Heq. by apply list_elem_of_fmap_2. }
  intros l t' (-> & A' & Hrows' & HA' & Hops'). wp_steps. split.
  { rewrite filter_cons. by destruct (prior c). }
  exists A'. split_and!; [done| |].
  2:{ intros m Hm. apply Hops', Hops, Hm. }
  intros k. rewrite HA', fmap_cons. destruct (decide (k = preview_key c)) as [->|Hne].
  - rewrite lookup_insert_eq, HAc. simpl. rewrite bool_decide_eq_false_2 by done.
    rewrite bool_decide_eq_true_2; [done|by left].
  - rewrite lookup_insert_ne by done. destruct (A !! k); [|done]. simpl.
    erewrite bool_decide_ext; [done|]. rewrite elem_of_cons. naive_solver.
Qed.

(** Both stores settle the same records. *)
Lemma rebooted_same r r' : same r r' → same (settled r) (Memory.rebooted now pod_uid boot_id r').
Proof using Type. intros (h & d & u & ->). by eexists _, _, _. Qed.
Lemma prior_same r r' : same r r' → prior r = prior r'.
Proof using Type. by intros (h & d & u & ->). Qed.

Lemma values_same A m : map_Forall2 (λ _, same) A m → Forall2 same (btree_values A) (btree_values m).
Proof using Type.
  intros Hs. unfold btree_values, btree_keys. rewrite (map_Forall2_dom_L _ _ _ Hs).
  generalize (merge_sort String.le (elements (dom m))). intros ks.
  induction ks as [|k ks IH]; csimpl; [constructor|]. destruct (Hs k); [by constructor|done].
Qed.

Definition rows_same (l l' : list PreviewInstanceRecord) : Prop :=
  ∃ l0, l ≡ₚ l0 ∧ Forall2 same l0 l'.

Lemma settled_rows_same A m cs :
  map_Forall2 (λ _, same) A m → cs ≡ₚ filter (λ r, is_active (state r) = true) (btree_values A) →
  rows_same (settled <$> filter (λ r, prior r = true) cs)
    (Memory.rebooted now pod_uid boot_id <$> filter (λ r, prior r = true) (btree_values m)).
Proof using Type.
  intros Hs Hcs. eexists. split; [rewrite Hcs, list_filter_filter_l; [done|]|].
  { intros r Hr. unfold Memory.is_prior_boot in Hr. by apply andb_true_iff in Hr as [_ ?]. }
  apply Forall2_fmap.
  eapply Forall2_impl; [|intros r r'; apply rebooted_same].
  apply Forall2_filter; [|by apply values_same]. intros r r' Hr. by rewrite (prior_same _ _ Hr).
Qed.

Lemma reconcile_sim A t s t' A' :
  sim A t s → Postgres.preview_instances t' = encode <$> A' →
  (∀ k, A' !! k = settle <$> A !! k) →
  ops_like (Postgres.preview_operations t) (Postgres.preview_operations t') →
  sim A' t' (Memory.on_instances (fmap (λ r, if prior r then Memory.rebooted now pod_uid boot_id r
                                             else r)) s).
Proof using Type.
  intros [Hrows Hs Hops Hkey Hat] Hrows' HA' Hl. split; simpl; [done| |by apply Hl|..].
  - intros k. rewrite HA', lookup_fmap. destruct (Hs k) as [r r' Hr|]; constructor.
    unfold settle. rewrite (prior_same _ _ Hr). destruct (prior r'); [by apply rebooted_same|done].
  - intros k r. rewrite HA'. intros (r0 & Hr0 & ->)%fmap_Some. rewrite <- (Hkey _ _ Hr0).
    unfold settle. by destruct (prior r0).
  - intros k r. rewrite HA'. intros (r0 & Hr0 & ->)%fmap_Some.
    unfold settle. destruct (prior r0); [|by apply Hat].
    eapply at_operation_ended; [by apply Hat|done..].
Qed.

End reconcile.

Lemma reconcile_host_reboot_refines `{!Postgres.PgBackend} A t s now pod_uid boot_id :
  (∀ l, Postgres.pg_collation l ≡ₚ l) → sim A t s →
  refines rows_same (Postgres.reconcile_host_reboot_tx now pod_uid boot_id)
    (Memory.reconcile_host_reboot now pod_uid boot_id) t s.
Proof.
  intros Hcol Hsim. unfold refines, Postgres.reconcile_host_reboot_tx. wp_steps. case_if Hg; [|done].
  rewrite negb_true_iff, !orb_false_iff in Hg. destruct Hg as [[_ Hcolon] _]. wp_steps.
  pose proof (sim_key _ _ _ Hsim) as Hkey.
  apply (wp_active Hcol A); [apply Hsim|]. intros cs Hcs.
  assert (∀ c, c ∈ cs → A !! preview_key c = Some c ∧ is_active (state c) = true) as Hin.
  { intros c. rewrite Hcs. intros [? ?%(elem_of_values_key _ Hkey)]%list_elem_of_filter. done. }
  eapply wp_mono; [apply (reconcile_candidates_ok now pod_uid boot_id Hcolon cs A)| |done].
  - apply Hsim.
  - apply NoDup_fmap_2_strong; [intros c1 c2 H1%Hin H2%Hin Heq; destruct H1, H2; congruence|].
    rewrite Hcs. by apply NoDup_filter, NoDup_values.
  - done.
  - intros l t' (-> & A' & Hrows' & HA' & Hops). unfold Memory.reconcile_host_reboot. wp_steps.
    split; [eapply settled_rows_same; [apply Hsim|done]|]. exists A'.
    eapply reconcile_sim; [done|done| |done]. intros k. rewrite HA'.
    destruct (A !! k) as [r|] eqn:Hr; [|done]. simpl. f_equal. case_bool_decide as Hk; [done|].
    unfold settle. destruct (Memory.is_prior_boot _ _ r) eqn:Hp; [|done]. destruct Hk.
    rewrite <- (Hkey _ _ Hr). apply list_elem_of_fmap_2. rewrite Hcs. apply list_elem_of_filter.
    split; [|apply elem_of_btree_values; eauto].
    unfold Memory.is_prior_boot in Hp. by apply andb_true_iff in Hp as [_ ?].
Qed.

(** ** One call *)

Definition reply_same (a a' : Reply) : Prop :=
  match a, a' with
  | ReplyStart o, ReplyStart o' => outcome_same o o'
  | ReplyRow r, ReplyRow r' => same r r'
  | ReplyRowOpt r, ReplyRowOpt r' => option_Forall2 same r r'
  | ReplyCount _, ReplyCount _ => True
  | ReplyRows l, ReplyRows l' => rows_same l l'
  | _, _ => False
  end.
Definition related (t : Postgres.Tables) (s : Memory.State) : Prop := ∃ A, sim A t s.

(** A start under an operation id that is already recorded. *)
Definition reused (c : Call) (t : Postgres.Tables) : bool :=
  match c with
  | CallAcceptStart i => is_some (Postgres.preview_operations t !! as_operation_id i)
  | _ => false
  end.

Section calls.
Context `{!Postgres.PgBackend}.
Context (collation_orders : ∀ l, Postgres.pg_collation l ≡ₚ l).
#[local] Existing Instance Postgres.PgPreviewStore.

(** The transaction of a call. *)
Definition body (now : Z) (c : Call) : M Postgres.Tables PreviewStoreError Reply :=
  match c with
  | CallAcceptStart i => mmap ReplyStart (Postgres.accept_start_tx now i)
  | CallRetryStartPort i => mmap ReplyRow (Postgres.retry_start_port_tx now i)
  | CallPublishRunning k o r p prt b =>
      mmap ReplyRow (Postgres.publish_running_tx now k o r p prt b)
  | CallAcceptStop k o => mmap ReplyRow (Postgres.accept_stop_tx now k o)
  | CallMarkStopped k o r => mmap ReplyRow (Postgres.mark_stopped_tx now k o r)
  | CallMarkFailed k i r d => mmap ReplyRow (Postgres.mark_failed_tx now k i r d)
  | CallMarkUnknown k i d => mmap ReplyRow (Postgres.mark_unknown_tx now k i d)
  | CallResolveUnknownStopped k i e => mmap ReplyRow (Postgres.resolve_unknown_stopped_tx now k i e)
  | CallRefreshHeartbeat k i => mmap ReplyRowOpt (Postgres.refresh_heartbeat_tx now k i)
  | CallFlushActivity l => mmap ReplyCount (Postgres.flush_activity_tx l)
  | CallReconcileHostReboot u b => mmap ReplyRows (Postgres.reconcile_host_reboot_tx now u b)
  end.

Lemma mmap_run {X Y} (f : X → Y) (m : M Postgres.Tables PreviewStoreError X) pg :
  mmap f (Postgres.run m) pg = Postgres.run (mmap f m) pg.
Proof using Type.
  unfold mmap, mbind', Postgres.run, mret'.
  destruct (default _ _), (m (Postgres.tables pg)) as [[a|e] t]; try done;
    by destruct (Postgres.schema_ok t).
Qed.
Lemma perform_run now c pg : perform now c pg = Postgres.run (body now c) pg.
Proof using Type. destruct c; apply mmap_run. Qed.

Lemma mmap_refines {X X' Y Y'} (R : X → X' → Prop) (R' : Y → Y' → Prop) f g m m' t s :
  (∀ a a', R a a' → R' (f a) (g a')) → refines R m m' t s → refines R' (mmap f m) (mmap g m') t s.
Proof using Type.
  intros Hf Hm. unfold refines, mmap in *. wp_steps. eapply wp_mono; [exact Hm| |done].
  intros a t' Ha. wp_steps. eapply wp_mono; [exact Ha| |done]. intros a' s' [Hr HA]. wp_steps.
  by split; [apply Hf|].
Qed.

Lemma body_refines A t s now c :
  sim A t s → reused c t = false → refines reply_same (body now c) (perform now c) t s.
Proof using collation_orders.
  intros Hsim Hnew. destruct c; simpl;
    (eapply mmap_refines; [intros ? ? Ha; exact Ha|]);
    eauto using retry_start_port_refines, publish_running_refines, accept_stop_refines,
      mark_stopped_refines, mark_failed_refines, mark_unknown_refines,
      resolve_unknown_stopped_refines, refresh_heartbeat_refines, flush_activity_refines,
      reconcile_host_reboot_refines.
  eapply accept_start_refines; [done|done|]. simpl in Hnew. by destruct (_ !! _).
Qed.
Lemma body_reused t now c :
  reused c t = true → wp (body now c) t (λ _ t', t' = t) (λ _ _, True).
Proof using Type.
  destruct c as [i| | | | | | | | | |]; try done. intros Hop. cbn [body]. unfold mmap. wp_steps.
  unfold Postgres.accept_start_tx, Postgres.get, Postgres.operation. wp_steps. case_if Hg; [|done].
  wp_steps. simpl in Hop. destruct (Postgres.preview_operations t !! _) eqn:Ho; [|done].
  destruct (Postgres.preview_instances t !! _) as [row|]; wp_steps.
  - destruct (Postgres.record row); wp_steps; [|done]. rewrite Ho. wp_steps.
    by destruct (Postgres.replay_start _ _ _); wp_steps.
  - rewrite Ho. wp_steps. by destruct (Postgres.replay_start _ _ _); wp_steps.
Qed.

Definition fresh (outcomes : list Postgres.TxOutcome) : Postgres.Pg :=
  {| Postgres.tables := {| Postgres.preview_instances := ∅; Postgres.preview_operations := ∅ |};
     Postgres.tx_outcomes := outcomes |}.

(** What a call does to the tables is nothing, or what the call does in memory. *)
Definition call_refines (now : Z) (c : Call) (pg : Postgres.Pg) (s : Memory.State) : Prop :=
  let '(res, pg') := perform now c pg in
  (Postgres.tables pg' = Postgres.tables pg
   ∧ ((∃ e, res = Err e) ∨ reused c (Postgres.tables pg) = true))
  ∨ ∃ rep' s', perform now c s = (Ok rep', s') ∧ related (Postgres.tables pg') s'
      ∧ ∀ rep, res = Ok rep → reply_same rep rep'.

Lemma step_refines now c pg s : related (Postgres.tables pg) s → call_refines now c pg s.
Proof using collation_orders.
  intros [A Hsim]. unfold call_refines. rewrite perform_run. unfold Postgres.run.
  destruct (reused c (Postgres.tables pg)) eqn:Hr.
  - pose proof (body_reused _ now c Hr) as Hw. unfold wp in Hw.
    destruct (default _ _), (body now c _) as [[a|e] t]; simplify_eq/=;
      try destruct (Postgres.schema_ok _); left; eauto.
  - pose proof (body_refines A _ s now c Hsim Hr) as Hw. unfold refines, wp in Hw.
    destruct (default _ _), (body now c _) as [[a|e] t]; simplify_eq/=; eauto;
      (destruct (perform now c s) as [[a'|e'] s']; [|done]);
      destruct (Postgres.schema_ok _); eauto; right; exists a', s'; simpl;
      destruct Hw as [Hrep HA']; (split_and!; [done|exact HA'|]); by intros ? [= <-].
Qed.

Lemma run_refines calls pg s :
  related (Postgres.tables pg) s →
  ∃ effective, effective `sublist_of` calls
    ∧ related (Postgres.tables (perform_all calls pg)) (perform_all effective s).
Proof using collation_orders.
  revert pg s. induction calls as [|[now c] calls IH]; intros pg s Hrel; cbn [perform_all].
  { exists []. by split. }
  pose proof (step_refines now c pg s Hrel) as Hstep. unfold call_refines in Hstep.
  destruct (perform now c pg) as [res pg']. simpl.
  destruct Hstep as [[Heq _]|(rep' & s' & Hs' & Hrel' & _)].
  - rewrite <- Heq in Hrel. destruct (IH pg' s Hrel) as (eff & Hsub & Hend).
    exists eff. split; [by constructor|done].
  - destruct (IH pg' s' Hrel') as (eff & Hsub & Hend). exists ((now, c) :: eff).
    split; [by constructor|]. cbn [perform_all]. by rewrite Hs'.
Qed.

(** C31: The store in PostgreSQL implements the store in memory.  Whatever calls
    were made on fresh tables, and whichever of their transactions the database
    aborted or answered with a lost connection, the tables are the encoding of
    the maps in memory after some of the same calls, in the same order: the same
    records under the same keys, up to the heartbeat, the detail text and the
    time of the last write, and operations with the same kind, preview and port.
    And for every next call: either it leaves the tables as they are and answers
    an error (or replays a start that is already recorded), or the same call
    succeeds in memory, with a related answer, and the tables and the maps are
    related again. *)
Theorem postgres_refines_memory outcomes calls now c :
  let pg := perform_all calls (fresh outcomes) in
  ∃ effective,
    let s := perform_all effective Memory.empty_state in
    effective `sublist_of` calls ∧ related (Postgres.tables pg) s ∧ call_refines now c pg s.
Proof using collation_orders.
  destruct (run_refines calls (fresh outcomes) Memory.empty_state) as (eff & Hsub & Hrel);
    [exists ∅; apply sim_empty|].
  exists eff. split_and!; [done|done|by apply step_refines].
Qed.

(** *** Ports in the tables *)

Definition active_row_ports (t : Postgres.Tables) : list Z :=
  omap Postgres.ir_port
    (filter (λ r, Postgres.row_active r = true) (btree_values (Postgres.preview_instances t))).

Lemma omap_port_encode (l : list PreviewInstanceRecord) : omap Postgres.ir_port (encode <$> l) = omap port l.
Proof using Type.
  induction l as [|r l IH]; csimpl; [done|]. by rewrite IH.
Qed.
Lemma related_ports t s :
  related t s → store_inv (Memory.instances s) →
  NoDup (active_row_ports t) ∧ Forall (λ p, is_preview_port p = true) (active_row_ports t).
Proof using Type.
  intros [A Hsim] Hinv. unfold active_row_ports, btree_values.
  rewrite (sim_rows _ _ _ Hsim), btree_keys_fmap, omap_lookup_fmap, filter_fmap_eq, omap_port_encode.
  fold (btree_values A).
  assert (store_inv A) as HA.
  { destruct Hinv as [Hr Hp]. split.
    - intros k r Hk. destruct (sim_lookup Hsim k r Hk) as (r' & Hk' & h & d & u & ->).
      destruct (Hr _ _ Hk'). by split.
    - intros k1 k2 r1 r2 p H1 H2 Hp1 Hp2.
      destruct (sim_lookup Hsim _ _ H1) as (r1' & H1' & Hs1), (sim_lookup Hsim _ _ H2) as (r2' & H2' & Hs2).
      eapply (Hp k1 k2 r1' r2' p); [done|done|by apply (same_holds _ _ _ Hs1)|by apply (same_holds _ _ _ Hs2)]. }
  rewrite (list_filter_iff _ (λ r, is_active (state r) = true))
    by (intros r; by rewrite row_active_encode).
  split; [by apply active_ports_NoDup|]. apply Forall_forall. intros p.
  rewrite list_elem_of_omap. setoid_rewrite list_elem_of_filter. setoid_rewrite elem_of_btree_values.
  intros (r & (Ha & k & Hk) & Hp).
  destruct (ri_port _ _ (si_rows _ HA _ _ Hk) Ha) as (q & Hq & Hpool). congruence.
Qed.

(** The allocation of ports does not rest on the unique index: after any
    calls on fresh tables, with any transactions aborted or answers lost, the
    writes of the next transaction leave, before any constraint is checked,
    pairwise different ports under the active previews, all of them in the pool
    and outside the reserved range. *)
Theorem transactions_keep_ports_distinct outcomes calls now c rep t' :
  body now c (Postgres.tables (perform_all calls (fresh outcomes))) = (Ok rep, t') →
  NoDup (active_row_ports t') ∧ Forall (λ p, is_preview_port p = true) (active_row_ports t').
Proof using collation_orders.
  set (t := Postgres.tables _). intros Hbody.
  destruct (run_refines calls (fresh outcomes) Memory.empty_state) as (eff & _ & Hrel);
    [exists ∅; apply sim_empty|]. fold t in Hrel.
  destruct (perform_all_evolves eff Memory.empty_state store_inv_empty) as [Hinv _].
  set (s := perform_all eff Memory.empty_state) in *.
  destruct (reused c t) eqn:Hr.
  - pose proof (wp_ok _ _ _ _ _ _ (body_reused t now c Hr) Hbody) as ->. by eapply related_ports.
  - destruct Hrel as [A Hsim].
    pose proof (wp_ok _ _ _ _ _ _ (body_refines A t s now c Hsim Hr) Hbody) as Hw. unfold wp in Hw.
    destruct (perform now c s) as [[rep'|e] s'] eqn:Hs'; [|done]. destruct Hw as [_ Hrel'].
    apply (related_ports t' s'); [exact Hrel'|].
    pose proof (perform_evolves now c s Hinv) as [Hinv' _]. by rewrite Hs' in Hinv'.
Qed.
End calls.

(** *** Witnesses *)

(** A database with a byte-order collation, and instants of the years around now. *)
Definition sample_backend : Postgres.PgBackend := {|
  Postgres.intent_sha256 i :=
    String.substring 0 64
      (match i with
       | Postgres.StartIntent k _ _ inst _ _ _ _ _ _ => "start:" +:+ k +:+ ":" +:+ inst
       | Postgres.StopIntent k inst => "stop:" +:+ k +:+ ":" +:+ inst
       end +:+ "0000000000000000000000000000000000000000000000000000000000000000");
  Postgres.ts_representable z := (Z.abs z <? 2 ^ 62)%Z;
  Postgres.pg_collation l := l;
  Postgres.pg_first l := head l |}.

Definition sample_host : PreviewHostIdentity :=
  {| h_host_id := "pod:boot"; h_pod_name := None; h_pod_ip := None |}.
Definition sample_input (key op inst : string) : AcceptStartInput :=
  {| as_preview_key := key; as_project_id := "p"; as_project_path := "/w/p"; as_host := sample_host;
     as_operation_id := op; as_instance_id := inst; as_requested_port := None;
     as_base_path := None; as_recover_unknown_evidence := None |}.
(** The second transaction commits, but its answer is lost. *)
Definition sample_calls : list (Z * Call) :=
  [(1%Z, CallAcceptStart (sample_input "k1" "o1" "i1"));
   (2%Z, CallPublishRunning "k1" "o1" 1 77 4000 None);
   (3%Z, CallPublishRunning "k1" "o1" 1 78 4000 None)].
Definition sample_outcomes : list Postgres.TxOutcome :=
  [Postgres.TxCommits; Postgres.TxAnswerLost; Postgres.TxCommits].
Abbreviation sample_run :=
  (perform_all (PreviewLifecycleStore0 := @Postgres.PgPreviewStore sample_backend)
     sample_calls (fresh sample_outcomes)).

Lemma postgres_refines_memory_witness :
  is_some (Postgres.preview_instances (Postgres.tables sample_run) !! "k1") = true
  ∧ ∃ effective, effective `sublist_of` sample_calls
      ∧ related (Postgres.tables sample_run) (perform_all effective Memory.empty_state).
Proof.
  split; [by vm_compute|].
  destruct (@postgres_refines_memory sample_backend (λ l, reflexivity l) sample_outcomes sample_calls
              4%Z (CallAcceptStop "k1" "o2")) as (eff & Hsub & Hrel & _).
  exists eff. split; [exact Hsub|exact Hrel].
Defined.

Lemma transactions_keep_ports_distinct_witness :
  let t' := (@body sample_backend 4%Z (CallAcceptStart (sample_input "k2" "o2" "i2"))
               (Postgres.tables sample_run)).2 in
  active_row_ports t' = [4000; 4001]%Z ∧ NoDup (active_row_ports t').
Proof.
  split; [by vm_compute|].
  assert (match (@body sample_backend 4%Z (CallAcceptStart (sample_input "k2" "o2" "i2"))
                   (Postgres.tables sample_run)).1 with Ok _ => true | Err _ => false end = true)
    as Hok by by vm_compute.
  destruct (@body sample_backend 4%Z (CallAcceptStart (sample_input "k2" "o2" "i2"))
              (Postgres.tables sample_run)) as [[rep|e] t'] eqn:Hb; [|discriminate Hok].
  exact (proj1 (@transactions_keep_ports_distinct sample_backend (λ l, reflexivity l) sample_outcomes
                  sample_calls 4%Z (CallAcceptStart (sample_input "k2" "o2" "i2")) rep t' Hb)).
Defined.

(** ** Where the two stores part *)

(** A start repeated under its own operation id after it failed: in memory the
    preview is admitted once more, in PostgreSQL the failed record is answered. *)
Lemma replayed_start_diverges :
  let calls := [(1%Z, CallAcceptStart (sample_input "k1" "o1" "i1"));
                (2%Z, CallMarkFailed "k1" "i1" 1 "boom")] in
  let again := CallAcceptStart (sample_input "k1" "o1" "i1") in
  (∃ r, (perform 3%Z again (perform_all calls Memory.empty_state)).1 = Ok (ReplyStart (StartAdmitted r))
        ∧ state r = Starting)
  ∧ ∃ r, (perform (PreviewLifecycleStore0 := @Postgres.PgPreviewStore sample_backend) 3%Z again
            (perform_all (PreviewLifecycleStore0 := @Postgres.PgPreviewStore sample_backend) calls
               (fresh []))).1 = Ok (ReplyStart (Blocked r)) ∧ state r = Failed.
Proof. split; (eexists; split; [by vm_compute|by vm_compute]). Qed.

(** A stop in memory that fails because the revision is exhausted has already
    moved the record to the new operation. *)
Lemma exhausted_stop_is_not_atomic now key op s r :
  Memory.instances s !! key = Some r → Memory.operations s !! op = None →
  is_active (state r) = true → state r ≠ Stopping → i64_checked_succ (revision r) = None →
  Memory.accept_stop now key op s
    = (Err Unavailable,
       Memory.on_instances <[key := with_operation_id op (with_state Stopping r)]> s).
Proof.
  intros Hr Hop Ha Hst Hn. unfold Memory.accept_stop, Memory.find_instance, mbind', mget, mlift.
  rewrite Hr. simpl. rewrite Hop, Ha. simpl. rewrite bool_decide_eq_false_2 by done. simpl.
  by rewrite Hn.
Qed.
