(* ===== verification/CoordProg.v ===== *)
(** * The preview coordinator: what it asks of its surroundings

    A coordinator is asynchronous code between a store, a local executor, other
    replicas and its own table of startups, all of which other tasks use at the
    same time.  Its methods are programs over the calls they await: after each
    call the program goes on with whatever answer came, so a theorem about all
    runs of a program covers every interleaving with other tasks.  The types are
    those of [shared_types/src/preview.rs] and [preview-coordinator/src]. *)
From S2P Require Import Prelude Validation WorkDir PreviewModel.
From Stdlib Require Import Ascii.
Import Text Preview.
Local Open Scope rust_scope.

Module Coord.

(** ** Errors *)

(** A store error with its message. *)
Definition StoreFailure : Type := PreviewStoreError * string.
Definition store_text (f : StoreFailure) : string :=
  match f.1 with
  | Unavailable => "preview storage unavailable: "
  | Conflict => "preview state conflict: "
  | Invalid => "invalid preview operation: "
  end +:+ f.2.

Inductive PreviewCoordinationError :=
  | CUnavailable (detail : string)
  | CConflict (detail : string)
  | CInvalid (detail : string)
  | CBusiness (code message : string).
Definition coordination_text (e : PreviewCoordinationError) : string :=
  match e with
  | CUnavailable d => "preview coordination unavailable: " +:+ d
  | CConflict d => "preview operation conflict: " +:+ d
  | CInvalid d => "invalid preview request: " +:+ d
  | CBusiness c m => "preview business rejection (" +:+ c +:+ "): " +:+ m
  end.
Definition unavailable (context : string) : PreviewCoordinationError := CUnavailable context.
Definition conflict (context : string) : PreviewCoordinationError := CConflict context.
Definition invalid (context : string) : PreviewCoordinationError := CInvalid context.
Definition store_error (f : StoreFailure) : PreviewCoordinationError :=
  match f.1 with
  | Unavailable => unavailable ("preview store: " +:+ f.2)
  | Conflict => conflict f.2
  | Invalid => invalid f.2
  end.

Inductive PreviewExecutorError :=
  | ExFailed (detail : string)
  | ExPortInUse (detail : string)
  | ExBusiness (code message : string).
Definition executor_text (e : PreviewExecutorError) : string :=
  match e with
  | ExFailed d => "preview executor failed: " +:+ d
  | ExPortInUse d => "preview port in use: " +:+ d
  | ExBusiness c m => "preview business rejection (" +:+ c +:+ "): " +:+ m
  end.
(** [RemoteDispatchError] and its text. *)
Definition remote_text (context : string) : string :=
  "remote preview host unreachable: " +:+ context.

(** ** Data *)

Record ExecutorStartTicket := {
  tk_preview_key : string;
  tk_log_key : string;
  tk_project_path : string;
  tk_port : Z;
  tk_base_path : option string;
  tk_instance_id : string;
}.
Record ExecutorVerifyReport := {
  rp_identity_match : bool;
  rp_alive : bool;
  rp_pid : option Z;
  rp_port : option Z;
}.
Inductive ExecutorStopOutcome := ExStopped | ExNotRegistered | ExIdentityMismatch.
Record ExecutorLogLine := { ll_line : Z; ll_content : string }.
Record ExecutorLogChunk := {
  lc_logs : list ExecutorLogLine;
  lc_total_lines : Z;
  lc_log_file_name : string;
}.
Record PreviewStartEnvelope := {
  se_success : bool;
  se_message : string;
  se_project_id : string;
  se_pid : Z;
  se_port : Z;
}.
Inductive PreviewRouteResolution :=
  | NotPreview
  | RouteLocal (inst : string) (prt : Z)
  | RouteForward (inst : string) (prt : Z) (host_ip : string)
  | RouteUnavailable.

(** [StartupResult] *)
Inductive StartupResult :=
  | StartupReady (envelope : PreviewStartEnvelope)
  | StartupError (error : PreviewCoordinationError).

(** The address of an [Arc<OwnedStartAttempt>]. *)
Definition OwnerId : Type := nat.

(** ** Calls *)

(** What a program awaits or reads outside its own variables: the methods of
    the store, of the executor, of the host evidence and of the dispatch to
    other replicas; the critical sections of a startup owner and of the table
    of owners; the route cache and the activity buffer; the clock, fresh
    identifiers and pauses.  [Within a] is [a] under [tokio::time::timeout]. *)
Inductive Action :=
  | AcceptStart (input : AcceptStartInput)
  | RetryStartPort (input : PreviewStartPortRetry)
  | PublishRunning (key op : string) (rev p prt : Z) (base : option string)
  | AcceptStop (key op : string)
  | MarkStopped (key op : string) (rev : Z)
  | MarkFailed (key inst : string) (rev : Z) (why : string)
  | MarkUnknown (key inst why : string)
  | ResolveUnknownStopped (key inst evidence : string)
  | RefreshHeartbeat (key inst : string)
  | FlushActivity (entries : list ActivityFlushEntry)
  | GetInstance (key : string)
  | FindActiveByPort (prt : Z)
  | ActivePorts
  | ListByHost (host : string) (active_only : bool)
  | ListActive
  | ReconcileHostReboot (pod_uid boot_id : string)
  | StartLocal (ticket : ExecutorStartTicket)
  | StopLocal (key inst : string)
  | VerifyLocal (key inst : string)
  | RegistrationMatches (key inst : string)
  | ReadLogLocal (log_key log_type : string) (start_index : Z)
  | HostPodExists (pod_uid : string)
  | RemoteStop (pod_ip key inst op : string) (rev : Z)
  | RemoteVerify (pod_ip key inst : string) (timeout_secs : Z)
  | RemoteLog (pod_ip log_key log_type : string) (start_index : Z)
  | StartOwned (input : AcceptStartInput)
  | OwnersGet (key inst : string)
  | OwnersProject (project : string)
  | OwnersRemove (o : OwnerId)
  | Cancel (o : OwnerId)
  | Cancelled (o : OwnerId)
  | SetAdmitted (o : OwnerId) (row : PreviewInstanceRecord)
  | AdmittedRow (o : OwnerId)
  | BeginNative (o : OwnerId)
  | NativeIdle (o : OwnerId)
  | FinishPhase (o : OwnerId)
  | SignalDone (o : OwnerId)
  | WaitExecution (o : OwnerId)
  | WaitResult (o : OwnerId)
  | SendResult (o : OwnerId) (r : StartupResult)
  | CacheGet (prt : Z)
  | CachePositive (prt : Z) (r : PreviewRouteResolution)
  | CacheNegative (prt : Z)
  | CacheInvalidate (prt : Z)
  | ActivityRecord (key inst : string) (at_ : Z)
  | ActivityDrain
  | UtcNow
  | NewId
  | Sleep
  | Within (a : Action).

Fixpoint Answer (a : Action) : Type :=
  match a with
  | AcceptStart _ => result AcceptStartOutcome StoreFailure
  | RetryStartPort _ | PublishRunning _ _ _ _ _ _ | AcceptStop _ _ | MarkStopped _ _ _
  | MarkFailed _ _ _ _ | MarkUnknown _ _ _ | ResolveUnknownStopped _ _ _ =>
      result PreviewInstanceRecord StoreFailure
  | RefreshHeartbeat _ _ | GetInstance _ | FindActiveByPort _ =>
      result (option PreviewInstanceRecord) StoreFailure
  | FlushActivity _ => result nat StoreFailure
  | ActivePorts => result (list Z) StoreFailure
  | ListByHost _ _ | ListActive | ReconcileHostReboot _ _ =>
      result (list PreviewInstanceRecord) StoreFailure
  | StartLocal _ => result (Z * Z) PreviewExecutorError
  | StopLocal _ _ => result ExecutorStopOutcome PreviewExecutorError
  | VerifyLocal _ _ => result ExecutorVerifyReport PreviewExecutorError
  | RegistrationMatches _ _ => result bool PreviewExecutorError
  | ReadLogLocal _ _ _ => result ExecutorLogChunk PreviewExecutorError
  | HostPodExists _ => bool
  | RemoteStop _ _ _ _ _ => result ExecutorStopOutcome string
  | RemoteVerify _ _ _ _ => result ExecutorVerifyReport string
  | RemoteLog _ _ _ _ => result ExecutorLogChunk string
  | StartOwned _ => result OwnerId PreviewCoordinationError
  | OwnersGet _ _ => result (option OwnerId) PreviewCoordinationError
  | OwnersProject _ => result (list OwnerId) PreviewCoordinationError
  | Cancel _ | SetAdmitted _ _ | NativeIdle _ | WaitExecution _ =>
      result unit PreviewCoordinationError
  | AdmittedRow _ => result (option PreviewInstanceRecord) PreviewCoordinationError
  | BeginNative _ => result bool PreviewCoordinationError
  | WaitResult _ => result StartupResult PreviewCoordinationError
  | Cancelled _ => bool
  | CacheGet _ => option PreviewRouteResolution
  | ActivityDrain => list ActivityFlushEntry
  | UtcNow => Z
  | NewId => string
  | OwnersRemove _ | FinishPhase _ | SignalDone _ | SendResult _ _ | CachePositive _ _
  | CacheNegative _ | CacheInvalidate _ | ActivityRecord _ _ _ | Sleep => unit
  | Within a => option (Answer a)
  end.

(** ** Programs *)

(** A program returns, makes a call and goes on with its answer, or is still
    retrying when the bound on its retries is reached. *)
Inductive Prog (R : Type) : Type :=
  | Ret (r : R)
  | Pending
  | Act (a : Action) (k : Answer a → Prog R).
Arguments Ret {R} r.
Arguments Pending {R}.
Arguments Act {R} a k.

Fixpoint pbind {A B} (p : Prog A) (f : A → Prog B) : Prog B :=
  match p with
  | Ret r => f r
  | Pending => Pending
  | Act a k => Act a (λ b, pbind (k b) f)
  end.
Definition call (a : Action) : Prog (Answer a) := Act a Ret.

(** [loop { body }], at most [fuel] rounds; [Some r] leaves the loop. *)
Fixpoint loop {R} (fuel : nat) (body : Prog (option R)) : Prog R :=
  match fuel with
  | O => Pending
  | S fuel => pbind body (λ o, match o with Some r => Ret r | None => loop fuel body end)
  end.
(** [for x in xs { body }] *)
Fixpoint pforeach {A} (xs : list A) (body : A → Prog unit) : Prog unit :=
  match xs with
  | [] => Ret tt
  | x :: xs => pbind (body x) (λ _, pforeach xs body)
  end.
(** The same with [?] in the body. *)
Fixpoint ptry_foreach {A E} (xs : list A) (body : A → Prog (result unit E)) : Prog (result unit E) :=
  match xs with
  | [] => Ret (Ok tt)
  | x :: xs => pbind (body x) (λ r, match r with Ok _ => ptry_foreach xs body | Err e => Ret (Err e) end)
  end.
(** Bodies that return whether they succeeded; all of them run. *)
Fixpoint pforall {A} (xs : list A) (body : A → Prog bool) : Prog bool :=
  match xs with
  | [] => Ret true
  | x :: xs => pbind (body x) (λ b, pbind (pforall xs body) (λ c, Ret (b && c)))
  end.

Definition pcoord (A : Type) : Type := Prog (result A PreviewCoordinationError).
(** [r?] *)
Definition ptry {A B E} (r : result A E) (f : A → Prog (result B E)) : Prog (result B E) :=
  match r with Ok a => f a | Err e => Ret (Err e) end.
End Coord.

Declare Scope prog_scope.
Delimit Scope prog_scope with prog.
Notation "'let*' x ':=' p 'in' k" :=
  (Coord.pbind p (λ x, k))
  (at level 10, x pattern, p at level 100, k at level 200,
   format "'[v' 'let*'  x  ':='  p  'in' '/' k ']'") : prog_scope.
Notation "'do*' a 'then' k" :=
  (Coord.pbind (Coord.call a) (λ _, k))
  (at level 10, a at level 100, k at level 200,
   format "'[v' 'do*'  a  'then' '/' k ']'") : prog_scope.
Notation "'try*' x ':=' p 'in' k" :=
  (Coord.pbind p (λ r, Coord.ptry r (λ x, k)))
  (at level 10, x pattern, p at level 100, k at level 200,
   format "'[v' 'try*'  x  ':='  p  'in' '/' k ']'") : prog_scope.

Module Runs.
Import Coord.

(** ** Runs *)

(** A call and the answer it got. *)
Inductive Event := Did (a : Action) (b : Answer a).

(** [runs p h q]: [p] can make the calls of [h], the last one first, and then
    is [q]. *)
Inductive runs {R} (p : Prog R) : list Event → Prog R → Prop :=
  | runs_here : runs p [] p
  | runs_call h a k b : runs p h (Act a k) → runs p (Did a b :: h) (k b).

(** Every call [p] makes is allowed by the history before it, and where [p]
    returns, the history allows the result. *)
Fixpoint spec {R} (ok : list Event → Action → Prop) (Q : R → list Event → Prop)
    (p : Prog R) (h : list Event) : Prop :=
  match p with
  | Ret r => Q r h
  | Pending => True
  | Act a k => ok h a ∧ ∀ b, spec ok Q (k b) (Did a b :: h)
  end.

Section spec.
Context (ok : list Event → Action → Prop).

Lemma spec_mono {R} (Q Q' : R → list Event → Prop) p h :
  spec ok Q p h → (∀ r h', Q r h' → Q' r h') → spec ok Q' p h.
Proof.
  intros Hp HQ. revert h Hp. induction p as [r| |a k IH]; intros h; simpl; [auto|done|].
  intros [Ha Hk]. split; [done|]. intros b. apply IH, Hk.
Qed.
Lemma spec_bind {A B} (Q : B → list Event → Prop) (p : Prog A) (f : A → Prog B) h :
  spec ok (λ r h', spec ok Q (f r) h') p h → spec ok Q (pbind p f) h.
Proof.
  revert h. induction p as [r| |a k IH]; intros h; simpl; [done|done|].
  intros [Ha Hk]. split; [done|]. intros b. apply IH, Hk.
Qed.
(** A program only adds to the history. *)
Lemma spec_grows {R} (Q : R → list Event → Prop) p h :
  spec ok Q p h → spec ok (λ r h', Q r h' ∧ h `suffix_of` h') p h.
Proof.
  assert (∀ h0, h0 `suffix_of` h → spec ok Q p h →
            spec ok (λ r h', Q r h' ∧ h0 `suffix_of` h') p h) as Hg.
  { revert h. induction p as [r| |a k IH]; intros h h0 Hh; simpl; [done|done|].
    intros [Ha Hk]. split; [done|]. intros b. apply IH, Hk. by apply suffix_cons_r. }
  by apply Hg.
Qed.
Lemma spec_loop {R} (I : list Event → Prop) (Q : R → list Event → Prop) fuel body h :
  I h → (∀ h', I h' → spec ok (λ o h'', match o with Some r => Q r h'' | None => I h'' end) body h') →
  spec ok Q (loop fuel body) h.
Proof.
  intros HI Hb. revert h HI. induction fuel as [|fuel IH]; intros h HI; simpl; [done|].
  apply spec_bind. eapply spec_mono; [by apply Hb|]. intros [r|] h' H; simpl; [done|by apply IH].
Qed.
Lemma spec_foreach {A} (I : list Event → Prop) (Q : unit → list Event → Prop) (xs : list A) body h :
  I h → (∀ x h', x ∈ xs → I h' → spec ok (λ _ h'', I h'') (body x) h') → (∀ h', I h' → Q tt h') →
  spec ok Q (pforeach xs body) h.
Proof.
  revert h. induction xs as [|x xs IH]; intros h HI Hb HQ; simpl; [by apply HQ|].
  apply spec_bind. eapply spec_mono; [apply Hb; [left|done]|]. intros [] h' HI'.
  apply IH; [done| |done]. intros y h'' Hy. apply Hb. by right.
Qed.
Lemma spec_try_foreach {A E} (I : list Event → Prop) (Q : result unit E → list Event → Prop)
    (xs : list A) body h :
  I h →
  (∀ x h', x ∈ xs → I h' →
     spec ok (λ r h'', match r with Ok _ => I h'' | Err e => Q (Err e) h'' end) (body x) h') →
  (∀ h', I h' → Q (Ok tt) h') →
  spec ok Q (ptry_foreach xs body) h.
Proof.
  revert h. induction xs as [|x xs IH]; intros h HI Hb HQ; simpl; [by apply HQ|].
  apply spec_bind. eapply spec_mono; [apply Hb; [left|done]|]. intros [[]|e] h' HI'; simpl; [|done].
  apply IH; [done| |done]. intros y h'' Hy. apply Hb. by right.
Qed.
Lemma spec_forall {A} (I : list Event → Prop) (Q : bool → list Event → Prop) (xs : list A) body h :
  I h → (∀ x h', x ∈ xs → I h' → spec ok (λ _ h'', I h'') (body x) h') →
  (∀ b h', I h' → Q b h') →
  spec ok Q (pforall xs body) h.
Proof.
  revert Q h. induction xs as [|x xs IH]; intros Q h HI Hb HQ; simpl; [by apply HQ|].
  apply spec_bind. eapply spec_mono; [apply Hb; [left|done]|]. intros b h' HI'.
  apply spec_bind. apply IH; [done|intros y h'' Hy; apply Hb; by right|]. intros c h'' HI''. by apply HQ.
Qed.
End spec.

(** What [spec] says of the runs. *)
Lemma runs_spec {R} ok (Q : R → list Event → Prop) p h q :
  runs p h q → spec ok Q p [] → spec ok Q q h.
Proof. intros Hr Hp. induction Hr as [|h a k b Hr IH]; [done|]. by apply IH. Qed.

(** A program run against a deterministic surrounding. *)
Fixpoint interp {W R} (serve : ∀ a, W → Answer a * W) (p : Prog R) (w : W) : option R * W :=
  match p with
  | Ret r => (Some r, w)
  | Pending => (None, w)
  | Act a k => let '(b, w') := serve a w in interp serve (k b) w'
  end.
(** The first [n] calls of such a run. *)
Fixpoint traced {W R} (n : nat) (serve : ∀ a, W → Answer a * W) (p : Prog R) (w : W) (h : list Event)
    : list Event * Prog R :=
  match n, p with
  | S n, Act a k => let '(b, w') := serve a w in traced n serve (k b) w' (Did a b :: h)
  | _, _ => (h, p)
  end.
Lemma runs_traced {W R} n (serve : ∀ a, W → Answer a * W) (p0 p : Prog R) w h :
  runs p0 h p → runs p0 (traced n serve p w h).1 (traced n serve p w h).2.
Proof.
  revert p w h. induction n as [|n IH]; intros p w h Hr; simpl; [done|].
  destruct p as [r| |a k]; [done|done|]. destruct (serve a w) as [b w']. by apply IH, runs_call.
Qed.
Lemma interp_bind {W A B} (serve : ∀ a, W → Answer a * W) (p : Prog A) (f : A → Prog B) w :
  interp serve (pbind p f) w
  = match interp serve p w with (Some r, w') => interp serve (f r) w' | (None, w') => (None, w') end.
Proof.
  revert w. induction p as [r| |a k IH]; intros w; simpl; [done|done|].
  destruct (serve a w) as [b w']. apply IH.
Qed.
Lemma interp_loop {W R} (serve : ∀ a, W → Answer a * W) fuel (body : Prog (option R)) w :
  interp serve (loop (S fuel) body) w
  = match interp serve body w with
    | (Some (Some r), w') => (Some r, w')
    | (Some None, w') => interp serve (loop fuel body) w'
    | (None, w') => (None, w')
    end.
Proof.
  simpl. rewrite interp_bind. destruct (interp serve body w) as [[[r|]|] w']; done.
Qed.
End Runs.
