(* ===== verification/CoordStartup.v ===== *)
(** * Startups of the preview coordinator ([preview-coordinator/src/service/startup.rs])

    A request to start a preview registers an owner for it and waits; a task of
    its own runs the startup to its end, whatever becomes of the request.  The
    owner's fields are what the task, the requests that stop the preview and
    the heartbeat share. *)
From S2P Require Import Prelude Ordered Validation WorkDir PreviewModel CoordProg.
From Stdlib Require Import Ascii.
Import Text Preview Coord.
Local Open Scope rust_scope.
Local Open Scope prog_scope.

Module Startup.

(** ** One owner *)

Inductive StartupPhase := Admitting | Idle | PhaseRunning | Finished.

(** A [Mutex] and whether a panic poisoned it. *)
Record Mutex (A : Type) := { locked : A; poisoned : bool }.
Arguments locked {A}.
Arguments poisoned {A}.
Definition mutex {A} (a : A) : Mutex A := {| locked := a; poisoned := false |}.
Definition store_locked {A} (a : A) (m : Mutex A) : Mutex A :=
  {| locked := a; poisoned := poisoned m |}.

Record OwnedStartAttempt := {
  ow_input : AcceptStartInput;
  ow_cancelled : bool;
  ow_phase : Mutex StartupPhase;
  ow_admitted : Mutex (option PreviewInstanceRecord);
  ow_execution_done : bool;
  ow_result : option StartupResult;
}.
Definition on_cancelled (b : bool) (w : OwnedStartAttempt) : OwnedStartAttempt :=
  {| ow_input := ow_input w; ow_cancelled := b; ow_phase := ow_phase w;
     ow_admitted := ow_admitted w; ow_execution_done := ow_execution_done w;
     ow_result := ow_result w |}.
Definition on_phase (x : StartupPhase) (w : OwnedStartAttempt) : OwnedStartAttempt :=
  {| ow_input := ow_input w; ow_cancelled := ow_cancelled w;
     ow_phase := store_locked x (ow_phase w);
     ow_admitted := ow_admitted w; ow_execution_done := ow_execution_done w;
     ow_result := ow_result w |}.
Definition on_admitted (r : option PreviewInstanceRecord) (w : OwnedStartAttempt) : OwnedStartAttempt :=
  {| ow_input := ow_input w; ow_cancelled := ow_cancelled w; ow_phase := ow_phase w;
     ow_admitted := store_locked r (ow_admitted w);
     ow_execution_done := ow_execution_done w; ow_result := ow_result w |}.
Definition on_done (b : bool) (w : OwnedStartAttempt) : OwnedStartAttempt :=
  {| ow_input := ow_input w; ow_cancelled := ow_cancelled w; ow_phase := ow_phase w;
     ow_admitted := ow_admitted w; ow_execution_done := b; ow_result := ow_result w |}.
Definition on_result (r : option StartupResult) (w : OwnedStartAttempt) : OwnedStartAttempt :=
  {| ow_input := ow_input w; ow_cancelled := ow_cancelled w; ow_phase := ow_phase w;
     ow_admitted := ow_admitted w; ow_execution_done := ow_execution_done w; ow_result := r |}.

Definition OwnM (A : Type) : Type := M OwnedStartAttempt PreviewCoordinationError A.
Definition lock {A} (f : OwnedStartAttempt → Mutex A) (why : string) : OwnM A :=
  let! w := mget in
  if poisoned (f w) then mfail (unavailable why) else mret' (locked (f w)).

Definition cancel : OwnM unit :=
  let! phase := lock ow_phase "startup phase unavailable" in
  mmodify (on_cancelled true) ;;;
  match phase with
  | Idle | Finished => mmodify (on_done true)
  | Admitting | PhaseRunning => mret' tt
  end.
(** The first half of [admitted]; the second is [native_idle]. *)
Definition set_admitted (row : PreviewInstanceRecord) : OwnM unit :=
  let! _ := lock ow_admitted "startup admission ownership unavailable" in
  mmodify (on_admitted (Some row)).
Definition begin_native : OwnM bool :=
  let! _ := lock ow_phase "startup phase unavailable" in
  let! w := mget in
  if ow_cancelled w then mret' false else
  mmodify (on_phase PhaseRunning) ;;; mmodify (on_done false) ;;; mret' true.
Definition native_idle : OwnM unit :=
  let! _ := lock ow_phase "startup phase unavailable" in
  mmodify (on_phase Idle) ;;;
  let! w := mget in
  mwhen (ow_cancelled w) (mmodify (on_done true)).
(** [execution_finished]: the phase under its lock, then the signal. *)
Definition finish_phase (w : OwnedStartAttempt) : OwnedStartAttempt :=
  if poisoned (ow_phase w) then w else on_phase Finished w.
Definition admitted_row : OwnM (option PreviewInstanceRecord) :=
  lock ow_admitted "startup admission ownership unavailable".

(** ** The table of owners *)

(** The table maps a preview key to an owner; the owners live as long as a task
    holds them. *)
Record StartupOwners := {
  table : Mutex (gmap string OwnerId);
  owners : gmap OwnerId OwnedStartAttempt;
}.
Definition empty_owners : StartupOwners := {| table := mutex ∅; owners := ∅ |}.

Definition fresh_owner (input : AcceptStartInput) : OwnedStartAttempt :=
  {| ow_input := input; ow_cancelled := false; ow_phase := mutex Admitting;
     ow_admitted := mutex None; ow_execution_done := false; ow_result := None |}.

Definition registry_unavailable : PreviewCoordinationError :=
  unavailable "startup owner registry unavailable".

(** A table entry always has its owner, so the branch without one is not taken.
    The answer is the owner of the key, if it fits the request, and whether it is
    the new one. *)
Definition join_or_insert (new : OwnerId) (input : AcceptStartInput) (s : StartupOwners)
    : result (OwnerId * bool) PreviewCoordinationError * StartupOwners :=
  if poisoned (table s) then (Err registry_unavailable, s) else
  match locked (table s) !! as_preview_key input with
  | Some o =>
      match owners s !! o with
      | Some current =>
          if negb (bool_decide (as_project_id (ow_input current) = as_project_id input))
             || negb (bool_decide (as_project_path (ow_input current) = as_project_path input))
          then (Err (conflict "preview key already has a different project startup"), s)
          else if is_some (as_base_path input)
                  && negb (bool_decide (as_base_path (ow_input current) = as_base_path input))
          then (Err (conflict "preview startup already uses a different base path"), s)
          else (Ok (o, false), s)
      | None => (Err registry_unavailable, s)
      end
  | None =>
      (Ok (new, true),
       {| table := store_locked (<[as_preview_key input := new]> (locked (table s))) (table s);
          owners := <[new := fresh_owner input]> (owners s) |})
  end.
Definition owners_get (key inst : string) (s : StartupOwners)
    : result (option OwnerId) PreviewCoordinationError :=
  if poisoned (table s) then Err registry_unavailable else
  Ok (o ← locked (table s) !! key;
      w ← owners s !! o;
      if bool_decide (as_instance_id (ow_input w) = inst) then Some o else None).
Definition owners_project (project : string) (s : StartupOwners)
    : result (list OwnerId) PreviewCoordinationError :=
  if poisoned (table s) then Err registry_unavailable else
  Ok (filter (λ o, (as_project_id ∘ ow_input) <$> owners s !! o = Some project)
        (btree_values (locked (table s)))).
Definition owners_remove (o : OwnerId) (s : StartupOwners) : StartupOwners :=
  if poisoned (table s) then s else
  match owners s !! o with
  | Some w =>
      let key := as_preview_key (ow_input w) in
      if bool_decide (locked (table s) !! key = Some o)
      then {| table := store_locked (delete key (locked (table s))) (table s); owners := owners s |}
      else s
  | None => s
  end.

(** ** The startup task *)

Definition START_PORT_ATTEMPTS : nat := 3.

(** [s.trim_end_matches('/')], on the reversed text. *)
Fixpoint skip_slashes (s : Bytes) : Bytes :=
  match s with
  | c :: s' => if Ascii.eqb c slash then skip_slashes s' else s
  | [] => []
  end.
Definition trim_end_slashes (s : Bytes) : Bytes := reverse (skip_slashes (reverse s)).
Definition normalize_bytes (base : Bytes) : Bytes :=
  match trim base with
  | [] => [slash]
  | b =>
      match strip_prefix [slash] b with
      | Some stripped =>
          match trim_end_slashes stripped with [] => [slash] | s => slash :: s ++ [slash] end
      | None => slash :: trim_end_slashes b ++ [slash]
      end
  end.
Definition normalize_base_path (base : string) : string :=
  String.string_of_list_ascii (normalize_bytes (bytes base)).
Definition default_base (prt : Z) : string := "/proxy/" +:+ pretty prt +:+ "/".

Definition start_envelope (row : PreviewInstanceRecord) (message : string) : PreviewStartEnvelope :=
  {| se_success := true; se_message := message; se_project_id := project_id row;
     se_pid := default 0%Z (pid row); se_port := default 0%Z (port row) |}.
Definition check_requested_base (row : PreviewInstanceRecord) (requested : option string)
    : result unit PreviewCoordinationError :=
  match requested with
  | Some r =>
      ensure (opt_is (opt_or (base_path row) (default_base <$> port row)) r)
        (conflict "preview instance already uses a different base path")
  | None => Ok tt
  end.
Definition state_debug (s : PreviewInstanceState) : string :=
  match s with
  | Starting => "Starting" | Ready => "Ready" | Stopping => "Stopping"
  | Stopped => "Stopped" | Failed => "Failed" | Unknown => "Unknown"
  end.

Definition next_candidate (prev : Z) : Z :=
  let next := (if PREVIEW_PORT_MAX <=? prev then PREVIEW_PORT_MIN else prev + 1)%Z in
  if ((PREVIEW_PORT_RESERVED_MIN <=? next) && (next <=? PREVIEW_PORT_RESERVED_MAX))%Z
  then (PREVIEW_PORT_RESERVED_MAX + 1)%Z else next.
(** The [while] of [retry_port], at most [fuel] rounds. *)
Fixpoint search_port (fuel : nat) (occupied : list Z) (previous next : Z)
    : option (result Z PreviewCoordinationError) :=
  if negb (bool_decide (next ∈ occupied)) then Some (Ok next) else
  match fuel with
  | O => None
  | S fuel =>
      let next := next_candidate next in
      if (next =? previous)%Z then Some (Err (unavailable "preview port pool exhausted"))
      else search_port fuel occupied previous next
  end.

Definition choose_next_port (fuel : nat) (occupied : list Z) (previous : Z) : pcoord Z :=
  match search_port fuel occupied previous (next_candidate previous) with
  | None => Pending
  | Some r => Ret r
  end.

Definition stop_confirmed (o : ExecutorStopOutcome) : bool :=
  match o with ExStopped | ExNotRegistered => true | ExIdentityMismatch => false end.

Section task.
Context (fuel : nat) (o : OwnerId).

Definition admitted (row : PreviewInstanceRecord) : pcoord unit :=
  try* _ := call (SetAdmitted o row) in call (NativeIdle o).
Definition execution_finished : Prog unit :=
  do* FinishPhase o then call (SignalDone o).

(** *** Settling without a process *)

Definition settle_no_process (record : PreviewInstanceRecord) (evidence : string) : Prog unit :=
  loop fuel (
    let* got := call (GetInstance (preview_key record)) in
    match got with
    | Ok (Some current) =>
        if bool_decide (instance_id current = instance_id record) then
          let finish (r : result PreviewInstanceRecord StoreFailure) : Prog (option unit) :=
            match r with
            | Ok _ =>
                match port record with
                | Some p => do* CacheInvalidate p then Ret (Some tt)
                | None => Ret (Some tt)
                end
            | Err _ => do* Sleep then Ret None
            end in
          match state current with
          | Starting | Ready =>
              if negb (bool_decide (operation_id current = operation_id record))
                 || (revision current <? revision record)%Z
              then Ret (Some tt)
              else pbind (call (MarkFailed (preview_key record) (instance_id record)
                                  (revision current) evidence)) finish
          | Stopping =>
              pbind (call (MarkStopped (preview_key current) (operation_id current)
                             (revision current))) finish
          | Unknown =>
              pbind (call (ResolveUnknownStopped (preview_key current) (instance_id current) evidence))
                finish
          | Stopped | Failed => Ret (Some tt)
          end
        else Ret (Some tt)
    | Ok None => Ret (Some tt)
    | Err _ => do* Sleep then Ret None
    end).

Definition unknown (record : PreviewInstanceRecord) (error : PreviewCoordinationError)
    : Prog StartupResult :=
  do* SendResult o (StartupError error) then
  loop fuel (
    let* stopped := call (StopLocal (preview_key record) (instance_id record)) in
    match stopped with
    | Ok (ExStopped | ExNotRegistered) =>
        let* _ := settle_no_process record (coordination_text error) in
        Ret (Some (StartupError error))
    | Ok ExIdentityMismatch =>
        let* got := call (GetInstance (preview_key record)) in
        match got with
        | Ok (Some current) =>
            if negb (bool_decide (instance_id current = instance_id record))
            then Ret (Some (StartupError error))
            else do* Sleep then Ret None
        | _ => do* Sleep then Ret None
        end
    | Err _ => do* Sleep then Ret None
    end).

Definition cancelled (record : PreviewInstanceRecord) : Prog StartupResult :=
  let* stopped := call (StopLocal (preview_key record) (instance_id record)) in
  match stopped with
  | Ok (ExStopped | ExNotRegistered) =>
      let* _ := settle_no_process record
                  "startup stop intent completed after original execution and exact cleanup" in
      Ret (StartupError (conflict "preview startup was stopped before completion"))
  | Ok ExIdentityMismatch =>
      Ret (StartupError (conflict "startup registration was superseded; successor was preserved"))
  | Err error =>
      unknown record (unavailable ("startup stop cleanup pending: " +:+ executor_text error))
  end.

(** *** The ends of a start *)

Definition fail (record : PreviewInstanceRecord) (error : PreviewCoordinationError)
    : Prog StartupResult :=
  let detail := coordination_text error in
  loop fuel (
    let* c := call (Cancelled o) in
    if c then let* r := cancelled record in Ret (Some r) else
    let* marked := call (MarkFailed (preview_key record) (instance_id record)
                           (revision record) detail) in
    match marked with
    | Ok _ => Ret (Some (StartupError error))
    | Err _ =>
        let* got := call (GetInstance (preview_key record)) in
        match got with
        | Ok (Some row) =>
            let same := bool_decide (instance_id row = instance_id record)
                        && bool_decide (operation_id row = operation_id record)
                        && (revision row =? revision record)%Z in
            if same && bool_decide (state row = Failed) then Ret (Some (StartupError error))
            else if negb same
            then Ret (Some (StartupError (conflict "startup terminal was superseded by another operation")))
            else if bool_decide (state row = Unknown) then
              let* _ := settle_no_process record detail in Ret (Some (StartupError error))
            else if bool_decide (state row = Stopped) then Ret (Some (StartupError error))
            else do* Sleep then Ret None
        | Ok None => Ret (Some (StartupError error))
        | Err _ => do* Sleep then Ret None
        end
    end).

Definition publish (record : PreviewInstanceRecord) (p prt : Z) : Prog StartupResult :=
  let base := match base_path record with
              | Some b => normalize_base_path b
              | None => default_base prt
              end in
  loop fuel (
    let* c := call (Cancelled o) in
    if c then let* r := cancelled record in Ret (Some r) else
    let* published := call (PublishRunning (preview_key record) (operation_id record)
                              (revision record) p prt (Some base)) in
    match published with
    | Ok row =>
        let* c := call (Cancelled o) in
        if c then let* r := cancelled record in Ret (Some r) else
        do* CacheInvalidate prt then
        Ret (Some (StartupReady (start_envelope row "Development server started")))
    | Err (Unavailable, _) => do* Sleep then Ret None
    | Err e =>
        let failure := store_error e in
        let* stopped := call (StopLocal (preview_key record) (instance_id record)) in
        match stopped with
        | Ok (ExStopped | ExNotRegistered) =>
            let* _ := settle_no_process record "startup superseded and its exact process was drained" in
            Ret (Some (StartupError failure))
        | Ok ExIdentityMismatch => Ret (Some (StartupError failure))
        | Err cleanup =>
            let* r := unknown record (unavailable (coordination_text failure
                        +:+ "; original startup cleanup pending: " +:+ executor_text cleanup)) in
            Ret (Some r)
        end
    end).

(** *** The attempts *)

Definition confirm_start (record : PreviewInstanceRecord) : pcoord unit :=
  loop fuel (
    let* c := call (Cancelled o) in
    if c then Ret (Some (Err (conflict "preview startup was stopped"))) else
    let* got := call (GetInstance (preview_key record)) in
    match got with
    | Ok row =>
        match row with
        | Some current =>
            if bool_decide (instance_id current = instance_id record)
               && bool_decide (operation_id current = operation_id record)
               && (revision current =? revision record)%Z
               && bool_decide (port current = port record)
               && bool_decide (state current = Starting) && is_none (pid current)
            then Ret (Some (Ok tt))
            else Ret (Some (Err (conflict "startup authority changed before native execution")))
        | None => Ret (Some (Err (conflict "startup authority changed before native execution")))
        end
    | Err (Unavailable, _) => do* Sleep then Ret None
    | Err e => Ret (Some (Err (store_error e)))
    end).

Definition retry_port (record : PreviewInstanceRecord) : pcoord PreviewInstanceRecord :=
  match port record with
  | None => Ret (Err (invalid "admitted record lacks port"))
  | Some previous_port =>
      try* occupied := loop fuel (
        let* c := call (Cancelled o) in
        if c then Ret (Some (Err (conflict "preview startup was stopped"))) else
        let* ports := call ActivePorts in
        match ports with
        | Ok ports => Ret (Some (Ok ports))
        | Err (Unavailable, _) => do* Sleep then Ret None
        | Err e => Ret (Some (Err (store_error e)))
        end) in
      try* next_port := choose_next_port fuel occupied previous_port in
      let input := {| rt_preview_key := preview_key record; rt_operation_id := operation_id record;
                      rt_instance_id := instance_id record; rt_revision := revision record;
                      rt_previous_port := previous_port; rt_next_port := next_port |} in
      loop fuel (
        let* c := call (Cancelled o) in
        if c then Ret (Some (Err (conflict "preview startup was stopped"))) else
        let* moved := call (RetryStartPort input) in
        match moved with
        | Ok row => Ret (Some (Ok row))
        | Err (Unavailable, _) => do* Sleep then Ret None
        | Err e => Ret (Some (Err (store_error e)))
        end)
  end.

Definition ticket_of (record : PreviewInstanceRecord) (prt : Z) : ExecutorStartTicket :=
  {| tk_preview_key := preview_key record; tk_log_key := project_id record;
     tk_project_path := project_path record; tk_port := prt; tk_base_path := base_path record;
     tk_instance_id := instance_id record |}.

(** [for attempt in 0..START_PORT_ATTEMPTS] with [remaining] attempts to go. *)
Fixpoint attempts (remaining : nat) (record : PreviewInstanceRecord) : Prog StartupResult :=
  match remaining with
  | O => Ret (StartupError (unavailable "preview start exhausted port retry budget"))
  | S remaining =>
      let* c := call (Cancelled o) in
      if c then cancelled record else
      let* confirmed := confirm_start record in
      match confirmed with
      | Err error =>
          let* c := call (Cancelled o) in
          if c then cancelled record else fail record error
      | Ok _ =>
          match port record with
          | None => fail record (invalid "admitted record lacks port")
          | Some prt =>
              let* begun := call (BeginNative o) in
              match begun with
              | Ok false => cancelled record
              | Err error => Ret (StartupError error)
              | Ok true =>
                  let* started := call (StartLocal (ticket_of record prt)) in
                  let* idle := call (NativeIdle o) in
                  match idle with
                  | Err error => unknown record error
                  | Ok _ =>
                      let* c := call (Cancelled o) in
                      if c then cancelled record else
                      match started with
                      | Ok (p, actual_port) => publish record p actual_port
                      | Err (ExPortInUse detail) =>
                          match remaining with
                          | O => fail record (unavailable
                                   ("preview start exhausted port retry budget: " +:+ detail))
                          | _ =>
                              let* moved := retry_port record in
                              match moved with
                              | Ok next =>
                                  let* kept := admitted next in
                                  match kept with
                                  | Err error => Ret (StartupError error)
                                  | Ok _ => attempts remaining next
                                  end
                              | Err error =>
                                  let* c := call (Cancelled o) in
                                  if c then cancelled record else fail record error
                              end
                          end
                      | Err (ExBusiness code message) => fail record (CBusiness code message)
                      | Err (ExFailed detail) => unknown record (unavailable detail)
                      end
                  end
              end
          end
      end
  end.

(** The admission; [inl] leaves [run] with that result. *)
Definition admit_owned (input : AcceptStartInput) : Prog (StartupResult + PreviewInstanceRecord) :=
  loop fuel (
    let* accepted := call (AcceptStart input) in
    match accepted with
    | Ok (StartAdmitted row) => Ret (Some (inr row))
    | Ok (Blocked row) =>
        if bool_decide (instance_id row = as_instance_id input)
           && bool_decide (operation_id row = as_operation_id input)
           && bool_decide (state row = Starting)
        then Ret (Some (inr row))
        else
          let* _ := execution_finished in
          Ret (Some (inl (StartupError (conflict
            ("preview operation in progress: state=" +:+ state_debug (state row))))))
    | Ok (ExistingReady row) =>
        let* _ := execution_finished in
        match check_requested_base row (as_base_path input) with
        | Err error => Ret (Some (inl (StartupError error)))
        | Ok _ => Ret (Some (inl (StartupReady (start_envelope row "Development server started"))))
        end
    | Err (Unavailable, _) => do* Sleep then Ret None
    | Err e =>
        let* _ := execution_finished in
        Ret (Some (inl (StartupError (store_error e))))
    end).

Definition run (input : AcceptStartInput) : Prog StartupResult :=
  let* c := call (Cancelled o) in
  if c then
    let* _ := execution_finished in
    Ret (StartupError (conflict "preview start was stopped before admission"))
  else
    let* accepted := admit_owned input in
    match accepted with
    | inl result => Ret result
    | inr record =>
        let* kept := admitted record in
        match kept with
        | Err error => Ret (StartupError error)
        | Ok _ => attempts START_PORT_ATTEMPTS record
        end
    end.

(** *** The observer of the task *)

(** The task returned. *)
Definition settle_finished (r : StartupResult) : Prog unit :=
  let* _ := execution_finished in
  do* OwnersRemove o then call (SendResult o r).

(** The task panicked. *)
Definition settle_panicked (input : AcceptStartInput) (error : string) : Prog unit :=
  let* _ := execution_finished in
  let detail := "preview startup owner outcome unknown: " +:+ error in
  do* SendResult o (StartupError (unavailable detail)) then
  loop fuel (
    let resume (row : PreviewInstanceRecord) : Prog (option unit) :=
      let* completion := unknown row (unavailable detail) in
      do* SendResult o completion then
      do* OwnersRemove o then Ret (Some tt) in
    let* admitted := call (AdmittedRow o) in
    match admitted with
    | Ok (Some row) => resume row
    | _ =>
        let* got := call (GetInstance (as_preview_key input)) in
        match got with
        | Ok (Some row) =>
            if bool_decide (instance_id row = as_instance_id input) then resume row
            else do* OwnersRemove o then Ret (Some tt)
        | _ => do* Sleep then Ret None
        end
    end).
End task.

End Startup.
