(* ===== verification/CoordService.v ===== *)
(** * The service of the preview coordinator ([preview-coordinator/src/service],
      [tasks.rs], [cache.rs], [activity.rs], [evidence.rs], [identity.rs])

    The methods of [PreviewCoordinator] as programs over the calls they await:
    starting, stopping and restarting a preview, keeping it alive, resolving a
    route to it, and the sweeps that run in the background. *)
From S2P Require Import Prelude Ordered Validation PreviewModel CoordProg CoordStartup.
From Stdlib Require Import Ascii.
Import Text Preview Coord Startup.
Local Open Scope rust_scope.
Local Open Scope prog_scope.

(** ** The route cache *)

Module RouteCache.
Inductive CachedResolution :=
  | Hit (r : PreviewRouteResolution)
  | Negative.
Record Entry := { en_resolution : CachedResolution; en_expires_at : Z }.
Record RouteCache := {
  entries : Mutex (gmap Z Entry);
  positive_ttl : Z;
  negative_ttl : Z;
}.
Definition new (positive_secs negative_secs : Z) : RouteCache :=
  {| entries := mutex ∅; positive_ttl := positive_secs * 1000000;
     negative_ttl := negative_secs * 1000000 |}.
Definition on_entries (f : gmap Z Entry → gmap Z Entry) (c : RouteCache) : RouteCache :=
  if poisoned (entries c) then c else
  {| entries := store_locked (f (locked (entries c))) (entries c);
     positive_ttl := positive_ttl c; negative_ttl := negative_ttl c |}.

Definition get (now prt : Z) (c : RouteCache) : option PreviewRouteResolution :=
  if poisoned (entries c) then None else
  e ← locked (entries c) !! prt;
  if (now <? en_expires_at e)%Z
  then Some (match en_resolution e with Hit r => r | Negative => NotPreview end)
  else None.
(** An entry that expires later is kept. *)
Definition put (r : CachedResolution) (expires_at prt : Z) (m : gmap Z Entry) : gmap Z Entry :=
  match m !! prt with
  | Some e => if (expires_at <? en_expires_at e)%Z then m
              else <[prt := {| en_resolution := r; en_expires_at := expires_at |}]> m
  | None => <[prt := {| en_resolution := r; en_expires_at := expires_at |}]> m
  end.
Definition put_positive (now prt : Z) (r : PreviewRouteResolution) (c : RouteCache) : RouteCache :=
  on_entries (put (Hit r) (now + positive_ttl c) prt) c.
Definition put_negative (now prt : Z) (c : RouteCache) : RouteCache :=
  on_entries (put Negative (now + negative_ttl c) prt) c.
Definition invalidate (prt : Z) (c : RouteCache) : RouteCache := on_entries (delete prt) c.
End RouteCache.

(** ** Buffered activity *)

Module Activity.
Record PendingActivity := { pa_instance_id : string; pa_latest : Z; pa_dirty_since : Z }.
Definition ActivityAccumulator : Type := Mutex (gmap string PendingActivity).

Definition merged (inst : string) (at_ instant : Z) (p : PendingActivity) : PendingActivity :=
  if bool_decide (pa_instance_id p = inst) && (pa_latest p <? at_)%Z
  then {| pa_instance_id := pa_instance_id p; pa_latest := at_; pa_dirty_since := pa_dirty_since p |}
  else if negb (bool_decide (pa_instance_id p = inst))
  then {| pa_instance_id := inst; pa_latest := at_; pa_dirty_since := instant |}
  else p.
Definition record (key inst : string) (at_ instant : Z) (a : ActivityAccumulator)
    : ActivityAccumulator :=
  if poisoned a then a else
  store_locked
    (match locked a !! key with
     | Some p => <[key := merged inst at_ instant p]> (locked a)
     | None => <[key := {| pa_instance_id := inst; pa_latest := at_; pa_dirty_since := instant |}]>
                 (locked a)
     end) a.
(** [HashMap::drain]: the entries in the order of the map. *)
Definition drain (a : ActivityAccumulator) : list ActivityFlushEntry * ActivityAccumulator :=
  if poisoned a then ([], a) else
  ((λ kp, {| fe_preview_key := kp.1; fe_instance_id := pa_instance_id kp.2; fe_at := pa_latest kp.2 |})
     <$> map_to_list (locked a),
   store_locked ∅ a).
End Activity.

(** ** Requests and answers *)

Module Service.
Record PreviewProjectIdentity := {
  pi_project_id : string;
  pi_tenant_id : option string;
  pi_space_id : option string;
  pi_isolation_type : option string;
  pi_resolved_path : string;
}.
Record PreviewKeepAliveRequest := {
  kr_identity : PreviewProjectIdentity;
  kr_port : Z;
  kr_pid : option Z;
  kr_base_path : option string;
}.
Record PreviewKeepAliveEnvelope := {
  ke_success : bool;
  ke_message : string;
  ke_project_id : string;
  ke_pid : option Z;
  ke_port : option Z;
  ke_action : option string;
  ke_reason : option string;
}.
Record PreviewStopEnvelope := {
  pe_success : bool;
  pe_message : string;
  pe_project_id : string;
  pe_reason : option string;
}.
Record PreviewListEntry := {
  le_project_id : string;
  le_pid : option Z;
  le_port : option Z;
  le_state : string;
  le_host : option string;
  le_started_at : option Z;
}.
Record PreviewPortAllocation := { pl_project_id : string; pl_port : Z }.
Record PreviewPortPoolStatus := {
  ps_port_range : string;
  ps_total_allocated : nat;
  ps_allocations : list PreviewPortAllocation;
}.
Inductive PreviewForwardCheck := Allowed | ForwardMismatch | NotReady.

Definition HOST_UNAVAILABLE : string := "host_unavailable".
Definition INSTANCE_UNKNOWN : string := "instance_unknown".
Definition PORT_MISMATCH : string := "port_mismatch".

(** The fields of [CoordinatorConfig] the service reads. *)
Record CoordinatorConfig := {
  heartbeat_ttl_secs : Z;
  idle_recycle_secs : Z;
  activity_flush_interval_secs : Z;
  start_budget_secs : Z;
  remote_verify_timeout_secs : Z;
  remote_dispatch_timeout_secs : Z;
}.

Definition compute_key (i : PreviewProjectIdentity) : string :=
  preview_key_of {| ki_project_id := pi_project_id i; ki_tenant_id := pi_tenant_id i;
                    ki_space_id := pi_space_id i; ki_isolation_type := pi_isolation_type i;
                    ki_resolved_path := pi_resolved_path i |}.

(** [host_id.split(':').next()] *)
Fixpoint pod_uid_of (host : string) : string :=
  match host with
  | EmptyString => EmptyString
  | String c rest => if Ascii.eqb c ":" then EmptyString else String c (pod_uid_of rest)
  end.

Definition to_lowercase (s : PreviewInstanceState) : string :=
  match s with
  | Starting => "starting" | Ready => "ready" | Stopping => "stopping"
  | Stopped => "stopped" | Failed => "failed" | Unknown => "unknown"
  end.

Definition degraded (project reason message : string) : PreviewKeepAliveEnvelope :=
  {| ke_success := false; ke_message := message; ke_project_id := project; ke_pid := None;
     ke_port := None; ke_action := None; ke_reason := Some reason |}.
Definition rebuilt_envelope (env : PreviewStartEnvelope) : PreviewKeepAliveEnvelope :=
  {| ke_success := true; ke_message := "Development server started";
     ke_project_id := se_project_id env; ke_pid := Some (se_pid env); ke_port := Some (se_port env);
     ke_action := Some "start"; ke_reason := None |}.
Definition alive_envelope (row : PreviewInstanceRecord) : PreviewKeepAliveEnvelope :=
  {| ke_success := true; ke_message := "Development server is alive"; ke_project_id := project_id row;
     ke_pid := pid row; ke_port := port row; ke_action := None; ke_reason := None |}.

(** ** The process ([identity.rs]) *)

(** Its environment variables, and the identifier drawn when it starts. *)
Record Process := { env_var : string → option string; BOOT_ID : string }.
Definition env_nonempty (process : Process) (key : string) : option string :=
  s ← env_var process key; if trim_is_empty s then None else Some s.
Definition POD_UID (process : Process) : option string :=
  opt_or (env_nonempty process "POD_UID") (env_nonempty process "HOSTNAME").
Definition POD_IP (process : Process) : option string := env_nonempty process "POD_IP".
Definition POD_NAME (process : Process) : option string := env_nonempty process "POD_NAME".

Definition local_host_identity (process : Process) : PreviewHostIdentity :=
  let pod_uid := default "local" (POD_UID process) in
  {| h_host_id := pod_uid +:+ ":" +:+ BOOT_ID process;
     h_pod_name := opt_or (POD_NAME process) (POD_UID process);
     h_pod_ip := POD_IP process |}.
Definition reboot_reconcile_args (process : Process) : string * string :=
  (default "local" (POD_UID process), BOOT_ID process).

(** A store call with [.map_err(store_error)]. *)
Definition stored {A} (p : Prog (result A StoreFailure)) : pcoord A :=
  let* r := p in Ret (map_err store_error r).

Definition micros (secs : Z) : Z := (secs * 1000000)%Z.
(** [signed_duration_since(at).to_std().unwrap_or_default()] *)
Definition elapsed (now at_ : Z) : Z := Z.max 0 (now - at_).

Section service.
Context (host : PreviewHostIdentity) (config : CoordinatorConfig).

(** ** Host evidence ([coordinator.rs]) *)

Definition heartbeat_fresh (row : PreviewInstanceRecord) : Prog bool :=
  match last_heartbeat_at row with
  | None => Ret false
  | Some at_ =>
      let* now := call UtcNow in
      Ret (elapsed now at_ <? micros (heartbeat_ttl_secs config))%Z
  end.

Definition recovery_evidence (row : PreviewInstanceRecord) : Prog (option string) :=
  let pod_uid := pod_uid_of (host_id row) in
  let* exists_ := call (HostPodExists pod_uid) in
  Ret (if exists_ : bool then None
       else Some ("host pod " +:+ pod_uid +:+ " no longer exists (verified at startup/recovery)")).

Definition settle_orphaned_instance (row : PreviewInstanceRecord) (evidence : string)
    : pcoord PreviewInstanceRecord :=
  if str_is_empty evidence then Ret (Err (invalid "orphaned preview recovery evidence is empty")) else
  try* unknown :=
    (if bool_decide (state row = Unknown) then Ret (Ok row)
     else stored (call (MarkUnknown (preview_key row) (instance_id row) evidence))) in
  try* stopped := stored (call (ResolveUnknownStopped (preview_key unknown) (instance_id unknown) evidence)) in
  match port stopped with
  | Some p => do* CacheInvalidate p then Ret (Ok stopped)
  | None => Ret (Ok stopped)
  end.

Definition settle_if_host_absent (row : PreviewInstanceRecord) : pcoord bool :=
  if bool_decide (host_id row = h_host_id host) then Ret (Ok false) else
  let* evidence := recovery_evidence row in
  match evidence with
  | None => Ret (Ok false)
  | Some evidence => try* _ := settle_orphaned_instance row evidence in Ret (Ok true)
  end.

(** ** Starting ([start_stop.rs]) *)

(** What is known of the previous record: an answer at once, or the evidence
    to admit the start with. *)
Definition prepare_start (key : string) (base : option string)
    : pcoord (PreviewStartEnvelope + option PreviewRecoveryEvidence) :=
  let* got := call (GetInstance key) in
  match got with
  | Ok (Some row) =>
      match state row with
      | Ready =>
          let* fresh := heartbeat_fresh row in
          try* absent := settle_if_host_absent row in
          if (fresh && negb absent)%bool then
            match check_requested_base row base with
            | Err e => Ret (Err e)
            | Ok _ => Ret (Ok (inl (start_envelope row "Development server started")))
            end
          else Ret (Ok (inr None))
      | Starting | Stopping => try* _ := settle_if_host_absent row in Ret (Ok (inr None))
      | Unknown =>
          let* evidence := recovery_evidence row in
          match evidence with
          | Some detail =>
              Ret (Ok (inr (Some {| ev_instance_id := instance_id row; ev_revision := revision row;
                                    ev_detail := detail |})))
          | None => Ret (Err (conflict
              "preview instance state unknown and host pod still exists; takeover refused"))
          end
      | Stopped | Failed => Ret (Ok (inr None))
      end
  | _ => Ret (Ok (inr None))
  end.

Definition admit_and_start (identity : PreviewProjectIdentity) (base_path : option string)
    : pcoord PreviewStartEnvelope :=
  let key := compute_key identity in
  let base_path := normalize_base_path <$> base_path in
  try* prepared := prepare_start key base_path in
  match prepared with
  | inl envelope => Ret (Ok envelope)
  | inr recovery =>
      let* op := call NewId in
      let* inst := call NewId in
      try* o := call (StartOwned
        {| as_preview_key := key; as_project_id := pi_project_id identity;
           as_project_path := pi_resolved_path identity; as_host := host; as_operation_id := op;
           as_instance_id := inst; as_requested_port := None; as_base_path := base_path;
           as_recover_unknown_evidence := recovery |}) in
      let* observed := call (Within (WaitResult o)) in
      match observed with
      | None => Ret (Err (unavailable
          "preview start budget exceeded; original admission/start owner continues without replay"))
      | Some (Err e) => Ret (Err e)
      | Some (Ok (StartupReady envelope)) => Ret (Ok envelope)
      | Some (Ok (StartupError error)) => Ret (Err error)
      end
  end.

(** ** Stopping ([startup.rs], [start_stop.rs]) *)

(** The part of [stop_local_startup] under its deadline. *)
Definition drain_startup (found : option OwnerId) (key inst : string) : pcoord ExecutorStopOutcome :=
  let late := unavailable
    "preview stop is still waiting for the original startup execution and cleanup" in
  let confirm : pcoord ExecutorStopOutcome :=
    let* outcome := call (Within (StopLocal key inst)) in
    match outcome with
    | None => Ret (Err late)
    | Some (Err e) => Ret (Err (unavailable (executor_text e)))
    | Some (Ok r) => Ret (Ok r)
    end in
  match found with
  | None => confirm
  | Some o =>
      let* early := call (Within (StopLocal key inst)) in
      match early with
      | None => Ret (Err late)
      | Some _ =>
          let* waited := call (Within (WaitExecution o)) in
          match waited with
          | None => Ret (Err late)
          | Some (Err e) => Ret (Err e)
          | Some (Ok _) => confirm
          end
      end
  end.
Definition stop_local_startup (key inst : string) : pcoord ExecutorStopOutcome :=
  try* found := call (OwnersGet key inst) in
  try* _ := match found with Some o => call (Cancel o) | None => Ret (Ok tt) end in
  try* outcome := drain_startup found key inst in
  match found with
  | Some o =>
      if stop_confirmed outcome then do* OwnersRemove o then Ret (Ok outcome) else Ret (Ok outcome)
  | None => Ret (Ok outcome)
  end.

(** One owner of [stop_project_startups], once all of them were cancelled. *)
Definition stop_project_startup (o : OwnerId) : pcoord unit :=
  try* early_target := call (AdmittedRow o) in
  try* _ := match early_target with
    | None => Ret (Ok tt)
    | Some target =>
        let* early := call (Within (StopLocal (preview_key target) (instance_id target))) in
        match early with
        | None => Ret (Err (unavailable "preview stop is still waiting for early startup cleanup"))
        | Some _ => Ret (Ok tt)
        end
    end in
  let* waited := call (Within (WaitExecution o)) in
  match waited with
  | None => Ret (Err (unavailable
      "preview stop is still waiting for the original admission/start owner"))
  | Some (Err e) => Ret (Err e)
  | Some (Ok _) =>
      try* admitted := call (AdmittedRow o) in
      match admitted with
      | None => do* OwnersRemove o then Ret (Ok tt)
      | Some target =>
          let* outcome := call (Within (StopLocal (preview_key target) (instance_id target))) in
          match outcome with
          | None => Ret (Err (unavailable
              "preview stop is still waiting for original startup cleanup"))
          | Some (Err e) => Ret (Err (unavailable (executor_text e)))
          | Some (Ok (ExStopped | ExNotRegistered)) => do* OwnersRemove o then Ret (Ok tt)
          | Some (Ok ExIdentityMismatch) =>
              Ret (Err (conflict "startup stop belongs to a superseded local registration"))
          end
      end
  end.
Definition stop_project_startups (project : string) : pcoord unit :=
  try* owners := call (OwnersProject project) in
  try* _ := ptry_foreach owners (λ o, call (Cancel o)) in
  ptry_foreach owners stop_project_startup.

Definition dispatch_stop (stopping : PreviewInstanceRecord) (op : string) : pcoord ExecutorStopOutcome :=
  if bool_decide (host_id stopping = h_host_id host)
  then stop_local_startup (preview_key stopping) (instance_id stopping)
  else match pod_ip stopping with
       | None => Ret (Err (unavailable ("stop target host " +:+ host_id stopping +:+ " lacks pod ip")))
       | Some ip =>
           let* r := call (RemoteStop ip (preview_key stopping) (instance_id stopping) op
                             (revision stopping)) in
           Ret (map_err (λ e, unavailable (remote_text e)) r)
       end.

Definition invalidate_port (row : PreviewInstanceRecord) : Prog unit :=
  match port row with Some p => call (CacheInvalidate p) | None => Ret tt end.

(** The end of a stop the executor has answered. *)
Definition finish_stop (stopping : PreviewInstanceRecord) (outcome : ExecutorStopOutcome) : pcoord unit :=
  match outcome with
  | ExStopped | ExNotRegistered =>
      let* marked := call (MarkStopped (preview_key stopping) (operation_id stopping)
                             (revision stopping)) in
      try* _ :=
        match marked with
        | Ok _ => Ret (Ok tt)
        | Err (Conflict, detail) =>
            try* current := stored (call (GetInstance (preview_key stopping))) in
            match current with
            | Some row =>
                if bool_decide (instance_id row = instance_id stopping)
                   && bool_decide (operation_id row = operation_id stopping)
                   && (revision row =? revision stopping)%Z && bool_decide (state row = Stopped)
                then Ret (Ok tt) else Ret (Err (conflict detail))
            | None => Ret (Err (conflict detail))
            end
        | Err e => Ret (Err (store_error e))
        end in
      let* _ := invalidate_port stopping in
      Ret (Ok tt)
  | ExIdentityMismatch =>
      let detail := "stop target superseded by a newer instance on the host" in
      try* _ := stored (call (MarkUnknown (preview_key stopping) (instance_id stopping) detail)) in
      let* _ := invalidate_port stopping in
      Ret (Err (conflict detail))
  end.

Definition coordinated_stop (row : PreviewInstanceRecord) : pcoord unit :=
  try* absent := settle_if_host_absent row in
  if (absent : bool) then Ret (Ok tt) else
  try* found := stored (call (GetInstance (preview_key row))) in
  match found with
  | None => Ret (Err (invalid "preview stop target disappeared"))
  | Some current =>
      if negb (bool_decide (instance_id current = instance_id row))
      then Ret (Err (conflict "stop target superseded by a newer preview instance"))
      else
        try* stopping :=
          (if bool_decide (state current = Stopping) then Ret (Ok current)
           else let* op := call NewId in stored (call (AcceptStop (preview_key current) op))) in
        if negb (is_active (state stopping)) then Ret (Ok tt) else
        let* dispatched := dispatch_stop stopping (operation_id stopping) in
        match dispatched with
        | Ok outcome => finish_stop stopping outcome
        | Err error =>
            let detail := "stop dispatch outcome unknown: " +:+ coordination_text error in
            let* marked := call (MarkUnknown (preview_key stopping) (instance_id stopping) detail) in
            match marked with
            | Err failure =>
                Ret (Err (unavailable (coordination_text error
                  +:+ "; failed to persist uncertain stop outcome: " +:+ store_text failure)))
            | Ok _ => let* _ := invalidate_port stopping in Ret (Err error)
            end
        end
  end.

Definition verify_via_host (row : PreviewInstanceRecord) : pcoord ExecutorVerifyReport :=
  if bool_decide (host_id row = h_host_id host) then
    let* r := call (VerifyLocal (preview_key row) (instance_id row)) in
    Ret (map_err (λ e, unavailable (executor_text e)) r)
  else match pod_ip row with
       | None => Ret (Err (unavailable ("verify target host " +:+ host_id row +:+ " lacks pod ip")))
       | Some ip =>
           let* r := call (RemoteVerify ip (preview_key row) (instance_id row)
                             (remote_verify_timeout_secs config)) in
           Ret (map_err (λ e, unavailable (remote_text e)) r)
       end.

(** ** The service's methods ([coordination.rs]) *)

Definition start_dev (identity : PreviewProjectIdentity) (base_path : option string)
    : pcoord PreviewStartEnvelope :=
  admit_and_start identity base_path.

(** Stop every active preview of a project; whether all stops succeeded. *)
Definition stop_targets (project : string) : pcoord (list PreviewInstanceRecord) :=
  try* _ := stop_project_startups project in
  try* active := stored (call ListActive) in
  Ret (Ok (filter (λ r, project_id r = project) active)).
Definition stop_all (targets : list PreviewInstanceRecord) : Prog bool :=
  pforall targets (λ row, let* r := coordinated_stop row in Ret (is_ok r)).

Definition stop_dev (project : string) : pcoord PreviewStopEnvelope :=
  try* targets := stop_targets project in
  match targets with
  | [] => Ret (Ok {| pe_success := true; pe_message := "No running process found";
                     pe_project_id := project; pe_reason := None |})
  | _ =>
      let* all_ok := stop_all targets in
      Ret (Ok {| pe_success := true;
                 pe_message := if all_ok : bool then "Stopped"
                               else "Partially stopped but continue execution";
                 pe_project_id := project; pe_reason := None |})
  end.

(** The answer is the start envelope with the restart message. *)
Definition restart_dev (identity : PreviewProjectIdentity) (base_path : option string)
    : pcoord PreviewStartEnvelope :=
  try* targets := stop_targets (pi_project_id identity) in
  let* stop_all_ok := stop_all targets in
  if negb stop_all_ok
  then Ret (Err (unavailable "restart stop phase failed on one or more instances"))
  else
    try* env := admit_and_start identity base_path in
    Ret (Ok {| se_success := true; se_message := "Development server restart successfully";
               se_project_id := se_project_id env; se_pid := se_pid env; se_port := se_port env |}).

Definition rebuild (req : PreviewKeepAliveRequest) : pcoord PreviewKeepAliveEnvelope :=
  try* env := admit_and_start (kr_identity req) (kr_base_path req) in
  Ret (Ok (rebuilt_envelope env)).
Definition record_activity (row : PreviewInstanceRecord) : Prog unit :=
  let* now := call UtcNow in call (ActivityRecord (preview_key row) (instance_id row) now).

(** [Ready] with a stale heartbeat. *)
Definition keep_alive_stale (req : PreviewKeepAliveRequest) (row : PreviewInstanceRecord)
    : pcoord PreviewKeepAliveEnvelope :=
  let* verified := verify_via_host row in
  let unconfirmed (reason message : string) : pcoord PreviewKeepAliveEnvelope :=
    try* absent := settle_if_host_absent row in
    if (absent : bool) then rebuild req
    else Ret (Ok (degraded (pi_project_id (kr_identity req)) reason message)) in
  match verified with
  | Ok report =>
      if rp_identity_match report && rp_alive report then
        do* RefreshHeartbeat (preview_key row) (instance_id row) then
        let* _ := record_activity row in
        Ret (Ok (alive_envelope row))
      else if rp_identity_match report then
        do* MarkFailed (preview_key row) (instance_id row) (revision row)
              "host verified process dead" then
        rebuild req
      else unconfirmed INSTANCE_UNKNOWN "preview host registration mismatch"
  | Err _ => unconfirmed HOST_UNAVAILABLE "preview host unreachable"
  end.

Definition keep_alive_dev (req : PreviewKeepAliveRequest) : pcoord PreviewKeepAliveEnvelope :=
  let project := pi_project_id (kr_identity req) in
  try* located := stored (call (FindActiveByPort (kr_port req))) in
  match located with
  | None => rebuild req
  | Some row =>
      if negb (bool_decide (project_id row = project))
      then Ret (Ok (degraded project PORT_MISMATCH "preview port belongs to another project"))
      else
        match state row with
        | Ready =>
            let* fresh := heartbeat_fresh row in
            if fresh : bool then
              let* _ := record_activity row in Ret (Ok (alive_envelope row))
            else keep_alive_stale req row
        | Starting => Ret (Err (conflict "project dev server is already starting, please wait"))
        | Stopping =>
            try* absent := settle_if_host_absent row in
            if (absent : bool) then rebuild req
            else Ret (Ok (degraded project INSTANCE_UNKNOWN
                            "preview instance is stopping; retry on next keep-alive"))
        | Unknown =>
            let* evidence := recovery_evidence row in
            match evidence with
            | Some evidence =>
                do* ResolveUnknownStopped (preview_key row) (instance_id row) evidence then
                rebuild req
            | None => Ret (Ok (degraded project INSTANCE_UNKNOWN
                                 "preview instance state unknown and host pod still exists"))
            end
        | Stopped | Failed => rebuild req
        end
  end.

Definition list_dev : pcoord (list PreviewListEntry) :=
  try* rows := stored (call ListActive) in
  Ret (Ok ((λ row, {| le_project_id := project_id row; le_pid := pid row; le_port := port row;
                      le_state := to_lowercase (state row);
                      le_host := opt_or (pod_name row) (Some (host_id row));
                      le_started_at := None |}) <$> rows)).

Definition read_dev_log (project log_type : string) (start_index : Z) : pcoord ExecutorLogChunk :=
  try* rows := stored (call ListActive) in
  match find (λ r, bool_decide (project_id r = project)) rows with
  | None => Ret (Ok {| lc_logs := []; lc_total_lines := 0; lc_log_file_name := EmptyString |})
  | Some row =>
      if bool_decide (host_id row = h_host_id host) then
        let* r := call (ReadLogLocal project log_type start_index) in
        Ret (map_err (λ e, unavailable (executor_text e)) r)
      else match pod_ip row with
           | None => Ret (Err (unavailable ("log target host " +:+ host_id row +:+ " lacks pod ip")))
           | Some ip =>
               let* r := call (RemoteLog ip project log_type start_index) in
               Ret (map_err (λ e, unavailable (remote_text e)) r)
           end
  end.

Definition port_pool_status : pcoord PreviewPortPoolStatus :=
  try* rows := stored (call ListActive) in
  let allocations :=
    omap (λ r, (λ p, {| pl_project_id := project_id r; pl_port := p |}) <$> port r) rows in
  Ret (Ok {| ps_port_range := pretty PREVIEW_PORT_MIN +:+ "-" +:+ pretty PREVIEW_PORT_MAX;
             ps_total_allocated := length allocations; ps_allocations := allocations |}).

Definition resolve_route (prt : Z) : Prog PreviewRouteResolution :=
  if negb (is_preview_port prt) then Ret NotPreview else
  let* cached := call (CacheGet prt) in
  match cached with
  | Some r => Ret r
  | None =>
      let* found := call (FindActiveByPort prt) in
      match found with
      | Ok (Some row) =>
          let keep (r : PreviewRouteResolution) : Prog PreviewRouteResolution :=
            do* CachePositive prt r then Ret r in
          if bool_decide (host_id row = h_host_id host) then keep (RouteLocal (instance_id row) prt)
          else match pod_ip row with
               | Some ip => keep (RouteForward (instance_id row) prt ip)
               | None => Ret RouteUnavailable
               end
      | Ok None => do* CacheNegative prt then Ret NotPreview
      | Err _ => Ret RouteUnavailable
      end
  end.
Definition invalidate_route (prt : Z) : Prog unit := call (CacheInvalidate prt).

Definition check_forward (inst : string) (prt : Z) : Prog PreviewForwardCheck :=
  let* found := call (FindActiveByPort prt) in
  match found with
  | Ok (Some row) =>
      if negb (bool_decide (instance_id row = inst)) || negb (opt_is (port row) prt)
         || negb (bool_decide (host_id row = h_host_id host))
      then Ret ForwardMismatch
      else
        let* registered := call (RegistrationMatches (preview_key row) (instance_id row)) in
        Ret (match registered with Ok true => Allowed | _ => NotReady end)
  | _ => Ret ForwardMismatch
  end.

Definition internal_stop (key inst op : string) (rev : Z) : pcoord ExecutorStopOutcome :=
  try* found := stored (call (GetInstance key)) in
  match found with
  | None => Ret (Ok ExIdentityMismatch)
  | Some row =>
      if negb (bool_decide (instance_id row = inst)) || negb (bool_decide (operation_id row = op))
         || negb (revision row =? rev)%Z || negb (bool_decide (host_id row = h_host_id host))
      then Ret (Ok ExIdentityMismatch)
      else match state row with
           | Stopped => Ret (Ok ExStopped)
           | Stopping => stop_local_startup key inst
           | Starting | Ready | Unknown | Failed => Ret (Ok ExIdentityMismatch)
           end
  end.
Definition internal_verify (key inst : string) : pcoord ExecutorVerifyReport :=
  let* r := call (VerifyLocal key inst) in
  Ret (map_err (λ e, unavailable (executor_text e)) r).

(** ** Background sweeps ([tasks.rs]) *)

(** The active rows of other hosts, by pod. *)
Definition by_pod (rows : list PreviewInstanceRecord) : gmap string (list PreviewInstanceRecord) :=
  foldl (λ m r, if bool_decide (host_id r = h_host_id host) then m else
                <[pod_uid_of (host_id r) := default [] (m !! pod_uid_of (host_id r)) ++ [r]]> m) ∅ rows.

Definition run_startup_reconcile (process : Process) : Prog unit :=
  let '(pod_uid, boot_id) := reboot_reconcile_args process in
  do* ReconcileHostReboot pod_uid boot_id then
  let* rows := call ListActive in
  match rows with
  | Err _ => Ret tt
  | Ok rows =>
      let pods := by_pod rows in
      pforeach (btree_keys pods) (λ uid,
        let* exists_ := call (HostPodExists uid) in
        if exists_ : bool then Ret tt else
        let evidence := "host pod " +:+ uid
          +:+ " no longer exists (verified during startup reconciliation)" in
        pforeach (default [] (pods !! uid)) (λ row,
          let* _ := settle_orphaned_instance row evidence in Ret tt))
  end.

(** Publish a start that completed after its owner was gone. *)
Definition heal_late_start (row : PreviewInstanceRecord) (report : ExecutorVerifyReport) : Prog unit :=
  if negb (rp_alive report) then Ret tt else
  match rp_pid report, rp_port report with
  | Some p, Some prt =>
      do* PublishRunning (preview_key row) (operation_id row) (revision row) p prt (base_path row) then
      Ret tt
  | _, _ => Ret tt
  end.

Definition has_startup_owner (key inst : string) : pcoord bool :=
  try* found := call (OwnersGet key inst) in Ret (Ok (is_some found)).

(** The probe of one row and what it shows. *)
Definition probe_row (row : PreviewInstanceRecord) : Prog unit :=
  let* verified := call (VerifyLocal (preview_key row) (instance_id row)) in
  match verified with
  | Err _ => Ret tt
  | Ok report =>
      if bool_decide (state row = Starting) then
        if rp_identity_match report then heal_late_start row report else Ret tt
      else if negb (rp_identity_match report) then
        do* MarkUnknown (preview_key row) (instance_id row) "local registration lost or mismatched" then
        Ret tt
      else if negb (rp_alive report) then
        do* MarkFailed (preview_key row) (instance_id row) (revision row)
              "heartbeat: registered process not alive" then
        Ret tt
      else do* RefreshHeartbeat (preview_key row) (instance_id row) then Ret tt
  end.
Definition sweep_row (row : PreviewInstanceRecord) : Prog unit :=
  match state row with
  | Stopping => Ret tt
  | Starting =>
      let* owned := has_startup_owner (preview_key row) (instance_id row) in
      match owned with Ok false => probe_row row | Ok true | Err _ => Ret tt end
  | _ => probe_row row
  end.
Definition run_heartbeat_sweep : Prog unit :=
  let* rows := call (ListByHost (h_host_id host) true) in
  match rows with Err _ => Ret tt | Ok rows => pforeach rows sweep_row end.

Definition run_activity_flush : Prog unit :=
  let* entries := call ActivityDrain in
  match entries with
  | [] => Ret tt
  | _ => do* FlushActivity entries then Ret tt
  end.

(** [u64] arithmetic of a release build. *)
Definition idle_threshold : Z :=
  ((idle_recycle_secs config + (2 * activity_flush_interval_secs config) mod 2 ^ 64) mod 2 ^ 64)%Z.
Definition recycle_row (row : PreviewInstanceRecord) : Prog unit :=
  if negb (bool_decide (state row = Ready)) then Ret tt else
  let* now := call UtcNow in
  if (elapsed now (last_activity_at row) <? micros idle_threshold)%Z then Ret tt else
  let* _ := stop_dev (project_id row) in Ret tt.
Definition run_idle_recycle : Prog unit :=
  if (idle_recycle_secs config =? 0)%Z then Ret tt else
  let* rows := call (ListByHost (h_host_id host) true) in
  match rows with Err _ => Ret tt | Ok rows => pforeach rows recycle_row end.
End service.
End Service.
