(* ===== verification/CoordTrace.v ===== *)
(** * What a startup may do, and what it leaves behind

    Over every run of a startup task, whatever the store, the executor and the
    other tasks answer. *)
From S2P Require Import Prelude Validation PreviewModel CoordProg CoordStartup.
Import Text Preview Coord Runs Startup.
Local Open Scope rust_scope.
Local Open Scope prog_scope.

(** ** Reading a history *)

(** The development server that may be running, by its key and instance.  A
    start that answers a port in use or a rejection has left no process behind;
    one that fails otherwise may have.  A stop that found the registration and
    ended it, or found none, ends the doubt. *)
Definition process_after (a : Action)
    : Answer a → option (string * string) → option (string * string) :=
  match a with
  | StartLocal t => λ b s,
      match b with
      | Ok _ | Err (ExFailed _) => Some (tk_preview_key t, tk_instance_id t)
      | Err (ExPortInUse _) | Err (ExBusiness _ _) => s
      end
  | StopLocal key inst => λ b s,
      match b with
      | Ok r => if stop_confirmed r && bool_decide (s = Some (key, inst)) then None else s
      | Err _ => s
      end
  | _ => λ _ s, s
  end.
Fixpoint process (before : option (string * string)) (h : list Event) : option (string * string) :=
  match h with
  | [] => before
  | Did a b :: h => process_after a b (process before h)
  end.

(** The native starts so far and the answer of the last one. *)
Definition start_of (a : Action) : Answer a → option (result (Z * Z) PreviewExecutorError) :=
  match a with StartLocal _ => λ b, Some b | _ => λ _, None end.
Fixpoint starts (h : list Event) : list (result (Z * Z) PreviewExecutorError) :=
  match h with
  | [] => []
  | Did a b :: h => match start_of a b with Some r => r :: starts h | None => starts h end
  end.

(** ** What a startup task may do *)

(** The row that was read just before the task entered its native phase. *)
Definition confirmed_row (o : OwnerId) (h : list Event) : option PreviewInstanceRecord :=
  match h with
  | Did (BeginNative o') (Ok true) :: Did (GetInstance _) (Ok (Some row)) :: _ =>
      if bool_decide (o' = o) then Some row else None
  | _ => None
  end.

Definition startup_may (o : OwnerId) (before : option (string * string)) (h : list Event)
    (a : Action) : Prop :=
  match a with
  | StartLocal t =>
      process before h = None ∧ length (starts h) < START_PORT_ATTEMPTS
      ∧ Forall (λ r, ∃ d, r = Err (ExPortInUse d)) (starts h)
      ∧ ∃ row, confirmed_row o h = Some row ∧ state row = Starting ∧ pid row = None
          ∧ instance_id row = tk_instance_id t ∧ port row = Some (tk_port t)
  | PublishRunning key _ _ p prt _ =>
      (∃ inst, process before h = Some (key, inst)) ∧ head (starts h) = Some (Ok (p, prt))
  | MarkFailed _ _ _ _ | MarkStopped _ _ _ | ResolveUnknownStopped _ _ _ => process before h = None
  | StopLocal key inst => process before h = None ∨ process before h = Some (key, inst)
  | SetAdmitted o' _ | BeginNative o' | NativeIdle o' | FinishPhase o' | SignalDone o'
  | Cancelled o' | AdmittedRow o' | SendResult o' _ => o' = o
  | OwnersRemove _ | Cancel _ | WaitExecution _ | StartOwned _ | AcceptStop _ _ | MarkUnknown _ _ _ | Within _ => False
  | _ => True
  end.

(** No process is left that nobody answers for: there is none, or the host's
    registration belongs to a later instance. *)
Definition accounted (before : option (string * string)) (h : list Event) : Prop :=
  process before h = None
  ∨ ∃ key inst, process before h = Some (key, inst)
      ∧ Did (StopLocal key inst) (Ok ExIdentityMismatch) ∈ h.

Definition startup_result (before : option (string * string)) (r : StartupResult) (h : list Event)
    : Prop :=
  match r with
  | StartupError _ => accounted before h
  | StartupReady envelope =>
      (∃ input row, Did (AcceptStart input) (Ok (ExistingReady row)) ∈ h ∧ starts h = []
         ∧ envelope = start_envelope row "Development server started")
      ∨ (∃ key inst op rev p prt base row,
           process before h = Some (key, inst) ∧ head (starts h) = Some (Ok (p, prt))
           ∧ Did (PublishRunning key op rev p prt base) (Ok row) ∈ h
           ∧ envelope = start_envelope row "Development server started")
  end.

(** ** Every part of the task *)

(** Symbolic execution: one call, return or case at a time. *)
Ltac spec_step :=
  lazymatch goal with
  | |- spec _ _ (pbind _ _) _ => apply spec_bind
  | |- spec _ _ (ptry (Ok _) _) _ => cbn [ptry]
  | |- spec _ _ (ptry (Err _) _) _ => cbn [ptry]
  | |- spec _ _ (ptry (map_err _ ?r) _) _ => destruct r as [?|?] eqn:?; cbn [map_err ptry]
  | |- spec _ _ (ptry ?r _) _ => destruct r as [?|?] eqn:?; cbn [ptry]
  | |- spec _ _ (call _) _ => split; [cbn|cbn [Answer]; intros ?]
  | |- spec _ _ (Ret _) _ => cbn [spec]
  | |- spec _ _ (match ?x with _ => _ end) _ => destruct x eqn:?
  | |- spec _ _ Pending _ => exact I
  end.
Ltac spec_steps := repeat (spec_step; cbv beta zeta).

(** The calls of [settle_no_process]. *)
Definition settling (a : Action) : bool :=
  match a with
  | GetInstance _ | MarkFailed _ _ _ _ | MarkStopped _ _ _ | ResolveUnknownStopped _ _ _
  | CacheInvalidate _ | Sleep => true
  | _ => false
  end.
Lemma settle_no_process_calls (ok : list Event → Action → Prop) (I : list Event → Prop) fuel record
    evidence h :
  (∀ h a, settling a = true → I h → ok h a ∧ ∀ b, I (Did a b :: h)) →
  I h → spec ok (λ _ h', I h') (settle_no_process fuel record evidence) h.
Proof.
  intros Hok H. apply (spec_loop _ I); [done|]. clear h H. intros h H.
  spec_steps; repeat first [done|eapply Hok].
Qed.

Section startup.
Context (fuel : nat) (o : OwnerId) (before : option (string * string)).
Let may := startup_may o before.

Lemma settle_no_process_spec record evidence h :
  process before h = None →
  spec may (λ _ h', process before h' = None) (settle_no_process fuel record evidence) h.
Proof.
  apply (settle_no_process_calls _ (λ h, process before h = None)). by intros h' [] Ha H.
Qed.

(** The process is the record's own, if there is one. *)
Definition owned (record : PreviewInstanceRecord) (h : list Event) : Prop :=
  process before h = None ∨ process before h = Some (preview_key record, instance_id record).

Lemma owned_confirmed record h :
  owned record h →
  (if bool_decide (process before h = Some (preview_key record, instance_id record))
   then None else process before h) = None.
Proof using Type. intros [->| ->]; [done|]. by rewrite bool_decide_true. Qed.
Lemma owned_accounted record h :
  owned record h →
  Did (StopLocal (preview_key record) (instance_id record)) (Ok ExIdentityMismatch) ∈ h →
  accounted before h.
Proof using Type. intros [H|H] Hin; [by left|]. right. eauto. Qed.

Ltac settle :=
  eapply spec_mono; [apply settle_no_process_spec; cbn; apply owned_confirmed; first [done|by right]|];
  intros [] ? ?; cbn; by left.

Lemma unknown_spec record error h :
  owned record h →
  spec may (startup_result before) (unknown fuel o record error) h.
Proof.
  intros H. apply spec_bind. split; [done|]. intros [].
  apply (spec_loop _ (owned record)); [done|]. clear h H. intros h H.
  apply spec_bind. split; [done|]. cbn [Answer]. intros b. cbn [spec]. destruct b as [[]|e].
  - apply spec_bind. settle.
  - apply spec_bind. settle.
  - spec_steps; try done. cbn. eapply owned_accounted; [done|]. right. left.
  - by spec_steps.
Qed.
Lemma cancelled_spec record h :
  owned record h → spec may (startup_result before) (cancelled fuel o record) h.
Proof.
  intros H. apply spec_bind. split; [done|]. cbn [Answer]. intros b. cbn [spec]. destruct b as [[]|e].
  - apply spec_bind. settle.
  - apply spec_bind. settle.
  - cbn. eapply owned_accounted; [done|]. left.
  - by apply unknown_spec.
Qed.

Lemma quiet_owned record h : process before h = None → owned record h.
Proof using Type. by left. Qed.

Lemma fail_spec record error h :
  process before h = None → spec may (startup_result before) (fail fuel o record error) h.
Proof.
  intros H. apply (spec_loop _ (λ h, process before h = None)); [done|]. clear h H. intros h H.
  apply spec_bind. split; [done|]. cbn [Answer]. intros []; cbn [spec].
  { apply spec_bind. by apply cancelled_spec, quiet_owned. }
  spec_steps; try done; try by left.
  eapply spec_mono; [by apply settle_no_process_spec|]. intros [] ? ?; cbn; by left.
Qed.

Lemma publish_spec record p prt h :
  process before h = Some (preview_key record, instance_id record) →
  head (starts h) = Some (Ok (p, prt)) →
  spec may (startup_result before) (publish fuel o record p prt) h.
Proof.
  intros H Hs.
  apply (spec_loop _ (λ h, process before h = Some (preview_key record, instance_id record)
                           ∧ head (starts h) = Some (Ok (p, prt)))); [done|].
  clear h H Hs. intros h [H Hs].
  apply spec_bind. split; [done|]. cbn [Answer]. intros []; cbn [spec].
  { apply spec_bind. apply cancelled_spec. by right. }
  apply spec_bind. split; [split; [by eauto|done]|]. cbn [Answer]. intros [row|[k text]]; cbn [spec].
  - apply spec_bind. split; [done|]. cbn [Answer]. intros []; cbn [spec].
    { apply spec_bind. apply cancelled_spec. by right. }
    spec_steps; [done|]. cbn. right. do 8 eexists. split_and!; [done|done| |done].
    right. right. left.
  - destruct k; [by spec_steps| |];
      (apply spec_bind; split; [by right|]; cbn [Answer]; intros b; cbn [spec];
       destruct b as [[]|e];
       [apply spec_bind; settle|apply spec_bind; settle
       |cbn; right; do 2 eexists; split; [done|left]
       |apply spec_bind; apply unknown_spec; by right]).
Qed.

(** *** The attempts *)

(** Reading and pausing change nothing of this. *)
Definition quiet (l : list (result (Z * Z) PreviewExecutorError)) (h : list Event) : Prop :=
  process before h = None ∧ starts h = l.

Lemma confirm_start_spec l record h :
  quiet l h →
  spec may (λ r h', quiet l h' ∧ match r with
     | Err _ => True
     | Ok _ => ∃ key row h0, h' = Did (GetInstance key) (Ok (Some row)) :: h0 ∧ state row = Starting
         ∧ pid row = None ∧ instance_id row = instance_id record ∧ port row = port record
     end) (confirm_start fuel o record) h.
Proof.
  intros H. apply (spec_loop _ (quiet l)); [done|]. clear h H. intros h H.
  spec_steps; try done. cbn. split; [done|].
  bools. do 3 eexists. split; [done|]. split_and!; try done.
Qed.
Lemma choose_next_port_spec (I : list Event → Prop) occupied previous h :
  I h → spec may (λ _ h', I h') (choose_next_port fuel occupied previous) h.
Proof. intros H. unfold choose_next_port. by destruct (search_port _ _ _ _). Qed.
Lemma retry_port_spec l record h :
  quiet l h → spec may (λ _ h', quiet l h') (retry_port fuel o record) h.
Proof.
  intros H. unfold retry_port. destruct (port record) as [prt|]; [|done].
  apply spec_bind. apply (spec_loop _ (quiet l)); [done|]. clear h H. intros h H.
  spec_steps; try done. eapply spec_mono; [by apply (choose_next_port_spec (quiet l))|].
  intros [next|e] h' H'; [|done]. apply (spec_loop _ (quiet l)); [done|]. clear h' H'. intros h' H'.
  spec_steps; done.
Qed.

Lemma attempts_spec l remaining record h :
  quiet l h → Forall (λ r, ∃ d, r = Err (ExPortInUse d)) l →
  length l + remaining = START_PORT_ATTEMPTS →
  spec may (startup_result before) (attempts fuel o remaining record) h.
Proof.
  revert l record h. induction remaining as [|n IH]; intros l record h H Hl Hn; [by left; apply H|].
  cbn [attempts]. apply spec_bind. split; [done|]. cbn [Answer]. intros []; cbn [spec].
  { by apply cancelled_spec, quiet_owned, H. }
  apply spec_bind. eapply spec_mono; [by eapply confirm_start_spec|]. intros [[]|e] h1 [H1 Hrow].
  2:{ spec_steps; [done|by apply cancelled_spec, quiet_owned, H1|by apply fail_spec, H1]. }
  destruct (port record) as [prt|] eqn:Hprt; [|by apply fail_spec, H1].
  destruct Hrow as (key & row & h0 & -> & Hst & Hpid & Hinst & Hport).
  apply spec_bind. split; [done|]. cbn [Answer]. intros [[]|e]; cbn [spec];
    [|by apply cancelled_spec, quiet_owned, H1|by left; apply H1].
  apply spec_bind. split.
  { cbn. destruct H1 as [H1 Hs]. cbn in H1, Hs. rewrite Hs. split_and!; [done|lia|done|].
    exists row. rewrite bool_decide_true by done. split_and!; congruence. }
  cbn [Answer]. intros started. cbn [spec].
  assert (∀ b, owned record (Did (NativeIdle o) b :: Did (StartLocal (ticket_of record prt)) started
            :: Did (BeginNative o) (Ok true) :: Did (GetInstance key) (Ok (Some row)) :: h0)) as Hown.
  { intros b. unfold owned. cbn. destruct H1 as [H1 _].
    destruct started as [[]|[]]; [by right|by right|by left|by left]. }
  apply spec_bind. split; [done|]. cbn [Answer]. intros [[]|e]; cbn [spec]; [|by apply unknown_spec].
  apply spec_bind. split; [done|]. cbn [Answer]. intros []; cbn [spec]; [apply cancelled_spec; exact (Hown (Ok tt))|].
  destruct started as [[p actual]|[d|d|code message]].
  - by apply publish_spec.
  - apply unknown_spec. exact (Hown (Ok tt)).
  - destruct n as [|n]; [by apply fail_spec, H1|]. apply spec_bind.
    eapply spec_mono; [apply (retry_port_spec (Err (ExPortInUse d) :: l))|].
    { destruct H1 as [H1 Hs]. split; cbn; [done|]. by rewrite <- Hs. }
    intros [next|e] h2 H2.
    + unfold admitted. spec_steps; try done; try by left; apply H2.
      apply (IH (Err (ExPortInUse d) :: l)); [done|by constructor; [eauto|]|simpl in *; lia].
    + spec_steps; [done|by apply cancelled_spec, quiet_owned, H2|by apply fail_spec, H2].
  - by apply fail_spec, H1.
Qed.

Lemma admit_owned_spec input h :
  quiet [] h →
  spec may (λ r h', quiet [] h' ∧ match r with inl r => startup_result before r h' | inr _ => True end)
    (admit_owned fuel o input) h.
Proof.
  intros H. apply (spec_loop _ (quiet [])); [done|]. clear h H. intros h H.
  assert (accounted before h) as Ha by (left; apply H).
  unfold execution_finished. spec_steps; try done; (split; [done|]); cbn; try (by left; apply H).
  left. do 2 eexists. split_and!; [|by apply H|done]. by do 3 econstructor.
Qed.

Lemma run_spec input h :
  quiet [] h → spec may (startup_result before) (run fuel o input) h.
Proof.
  intros H. unfold run. apply spec_bind. split; [done|]. cbn [Answer]. intros []; cbn [spec].
  { unfold execution_finished. spec_steps; try done. left. apply H. }
  apply spec_bind. eapply spec_mono; [by apply admit_owned_spec|]. intros [r|record] h1 [H1 Hr]; [done|].
  unfold admitted. spec_steps; try done; try (by left; apply H1). by apply (attempts_spec []).
Qed.

End startup.

(** ** After a panic *)

(** The row a startup that panicked had been admitted with. *)
Definition resumed (o : OwnerId) (input : AcceptStartInput) (h : list Event)
    (row : PreviewInstanceRecord) : Prop :=
  Did (AdmittedRow o) (Ok (Some row)) ∈ h
  ∨ (Did (GetInstance (as_preview_key input)) (Ok (Some row)) ∈ h
     ∧ instance_id row = as_instance_id input).
Definition panicked_may (o : OwnerId) (input : AcceptStartInput) (h : list Event) (a : Action) : Prop :=
  match a with
  | MarkFailed _ _ _ _ | MarkStopped _ _ _ | ResolveUnknownStopped _ _ _ =>
      ∃ row r, resumed o input h row ∧ stop_confirmed r = true
        ∧ Did (StopLocal (preview_key row) (instance_id row)) (Ok r) ∈ h
  | StopLocal key inst =>
      ∃ row, resumed o input h row ∧ preview_key row = key ∧ instance_id row = inst
  | FinishPhase o' | SignalDone o' | AdmittedRow o' | SendResult o' _ | OwnersRemove o' => o' = o
  | GetInstance _ | CacheInvalidate _ | Sleep => True
  | _ => False
  end.

Section panic.
Context (fuel : nat) (o : OwnerId) (input : AcceptStartInput).
Let may := panicked_may o input.

Lemma resumed_cons e h row : resumed o input h row → resumed o input (e :: h) row.
Proof using Type. intros [H|[H Hi]]; [left|right; split; [|done]]; by right. Qed.
#[local] Hint Resolve resumed_cons : core.

Lemma panicked_settle_spec row r evidence h :
  resumed o input h row → stop_confirmed r = true →
  spec may (λ _ _, True) (settle_no_process fuel row evidence)
    (Did (StopLocal (preview_key row) (instance_id row)) (Ok r) :: h).
Proof.
  intros H Hr. eapply spec_mono; [|by intros].
  apply (settle_no_process_calls _ (λ h', resumed o input h' row
           ∧ Did (StopLocal (preview_key row) (instance_id row)) (Ok r) ∈ h')); [|split; [auto|left]].
  intros h' a Ha [H1 H2]. split; [destruct a; try done; by exists row, r|].
  intros b. split; [auto|by right].
Qed.
Lemma panicked_unknown_spec row error h :
  resumed o input h row → spec may (λ _ _, True) (unknown fuel o row error) h.
Proof.
  intros H. apply spec_bind. split; [done|]. intros [].
  apply (spec_loop _ (λ h, resumed o input h row)); [auto|]. clear h H. intros h H.
  apply spec_bind. split; [by exists row|]. cbn [Answer]. intros b. cbn [spec]. destruct b as [[]|e].
  1,2: apply spec_bind; eapply spec_mono; [by apply panicked_settle_spec|done].
  all: spec_steps; auto; done.
Qed.
Lemma settle_panicked_spec error h :
  spec may (λ _ _, True) (settle_panicked fuel o input error) h.
Proof.
  unfold settle_panicked, execution_finished. spec_steps; [done..|].
  apply (spec_loop _ (λ _, True)); [done|]. clear h. intros h _.
  spec_steps; try done; (eapply spec_mono; [apply panicked_unknown_spec|intros r h'' _; by spec_steps]).
  - left. left.
  - right. bools. split; [left|done].
  - right. bools. split; [left|done].
Qed.
End panic.
