(* ===== verification/CoordRequests.v ===== *)
(** * What the service's requests and sweeps may do

    Over every run of a request or a background sweep, whatever the answers: it
    never starts a process itself, and every call that changes something, in the
    store, at an executor, in the table of startups or in the route cache, follows
    the observation that justifies it. *)
From S2P Require Import Prelude Ordered Validation PreviewModel CoordProg CoordStartup CoordService CoordTrace.
Import Text Preview Coord Runs Startup Service.
Local Open Scope rust_scope.
Local Open Scope prog_scope.

(** ** Observations in a history *)

(** The rows an answer of the store contains. *)
Definition rows_of (a : Action) : Answer a → list PreviewInstanceRecord :=
  match a with
  | GetInstance _ | FindActiveByPort _ => λ b, match b with Ok (Some r) => [r] | _ => [] end
  | ListActive | ListByHost _ _ => λ b, match b with Ok rows => rows | _ => [] end
  | AcceptStop _ _ => λ b, match b with Ok r => [r] | _ => [] end
  | _ => λ _, []
  end.
Definition saw (h : list Event) (r : PreviewInstanceRecord) : Prop :=
  Exists (λ e, match e with Did a b => r ∈ rows_of a b end) h.

(** An executor, here or on the host, ended this instance or has none. *)
Definition confirms (key inst : string) (a : Action) : Answer a → Prop :=
  match a with
  | Within (StopLocal k i) => λ b,
      k = key ∧ i = inst ∧ match b with Some (Ok r) => stop_confirmed r = true | _ => False end
  | RemoteStop _ k i _ _ => λ b,
      k = key ∧ i = inst ∧ match b with Ok r => stop_confirmed r = true | _ => False end
  | _ => λ _, False
  end.
Definition confirmed (h : list Event) (key inst : string) : Prop :=
  Exists (λ e, match e with Did a b => confirms key inst a b end) h.

(** A report of the executor, here or on the host, on this instance. *)
Definition reports (key inst : string) (a : Action) : Answer a → option ExecutorVerifyReport :=
  match a with
  | VerifyLocal k i => λ b,
      match b with
      | Ok r => if bool_decide (k = key ∧ i = inst) then Some r else None
      | _ => None
      end
  | RemoteVerify _ k i _ => λ b,
      match b with
      | Ok r => if bool_decide (k = key ∧ i = inst) then Some r else None
      | _ => None
      end
  | _ => λ _, None
  end.
Definition reported (h : list Event) (key inst : string) (r : ExecutorVerifyReport) : Prop :=
  Exists (λ e, match e with Did a b => reports key inst a b = Some r end) h.

(** The pod that hosted the row is gone. *)
Definition host_absent (h : list Event) (r : PreviewInstanceRecord) : Prop :=
  Did (HostPodExists (pod_uid_of (host_id r))) false ∈ h.

(** The row itself, or what the store made of it when it was marked unknown. *)
Definition fenced (h : list Event) (r : PreviewInstanceRecord) (key inst : string) : Prop :=
  (key = preview_key r ∧ inst = instance_id r)
  ∨ ∃ why u, Did (MarkUnknown (preview_key r) (instance_id r) why) (Ok u) ∈ h
      ∧ key = preview_key u ∧ inst = instance_id u.

(** The owner was cancelled, and later its execution was seen to be over. *)
Definition released (h : list Event) (o : OwnerId) : Prop :=
  ∃ h', Did (Within (WaitExecution o)) (Some (Ok tt)) :: h' `suffix_of` h
    ∧ Did (Cancel o) (Ok tt) ∈ h'.

(** The row was in a listing of the active previews. *)
Definition listed (h : list Event) (r : PreviewInstanceRecord) : Prop :=
  ∃ rows, Did ListActive (Ok rows) ∈ h ∧ r ∈ rows.

(** The row is being stopped: it was read so, or the store has just accepted
    the stop. *)
Definition stopping (h : list Event) (r : PreviewInstanceRecord) : Prop :=
  saw h r ∧ (state r = Stopping ∨ ∃ key op, Did (AcceptStop key op) (Ok r) ∈ h).

(** The executor reported the registration of the row's instance as lost or as
    another instance's. *)
Definition lost (h : list Event) (r : PreviewInstanceRecord) : Prop :=
  ∃ report, reported h (preview_key r) (instance_id r) report ∧ rp_identity_match report = false.

(** The evidence to take an unknown preview over: the row that was read under
    that key is unknown, and the pod that hosted it is gone. *)
Definition takeover (h : list Event) (key : string) (e : PreviewRecoveryEvidence) : Prop :=
  ∃ r, Did (GetInstance key) (Ok (Some r)) ∈ h ∧ state r = Unknown
    ∧ ev_instance_id e = instance_id r ∧ ev_revision e = revision r ∧ host_absent h r.

(** ** What a request may do *)

Section may.
Context (process : Process).
Abbreviation own := (h_host_id (local_host_identity process)).

(** A process on this host that a request may end: that of a row of this host
    which is being stopped, or of the row a cancelled startup was admitted with. *)
Definition stop_target (h : list Event) (key inst : string) : Prop :=
  (∃ r, stopping h r ∧ host_id r = own ∧ instance_id r = inst
     ∧ (preview_key r = key ∨ Did (GetInstance key) (Ok (Some r)) ∈ h))
  ∨ ∃ o r, Did (Cancel o) (Ok tt) ∈ h ∧ Did (AdmittedRow o) (Ok (Some r)) ∈ h
      ∧ preview_key r = key ∧ instance_id r = inst.

Definition request_may (h : list Event) (a : Action) : Prop :=
  match a with
  | MarkStopped key op rev =>
      ∃ r, saw h r ∧ preview_key r = key ∧ operation_id r = op ∧ revision r = rev
        ∧ confirmed h key (instance_id r)
  | ResolveUnknownStopped key inst _ => ∃ r, saw h r ∧ host_absent h r ∧ fenced h r key inst
  | MarkFailed key inst rev _ =>
      ∃ r report, saw h r ∧ preview_key r = key ∧ instance_id r = inst ∧ revision r = rev
        ∧ reported h key inst report ∧ rp_identity_match report = true ∧ rp_alive report = false
  | MarkUnknown key inst _ =>
      ∃ r, saw h r ∧ preview_key r = key ∧ instance_id r = inst
        ∧ (host_absent h r ∨ stopping h r ∨ lost h r)
  | PublishRunning key op rev p prt base =>
      ∃ r report, saw h r ∧ preview_key r = key ∧ operation_id r = op ∧ revision r = rev
        ∧ base_path r = base
        ∧ state r = Starting ∧ Did (OwnersGet key (instance_id r)) (Ok None) ∈ h
        ∧ reported h key (instance_id r) report ∧ rp_identity_match report = true
        ∧ rp_alive report = true ∧ rp_pid report = Some p ∧ rp_port report = Some prt
  | RefreshHeartbeat key inst =>
      ∃ r report, saw h r ∧ preview_key r = key ∧ instance_id r = inst
        ∧ reported h key inst report ∧ rp_identity_match report = true ∧ rp_alive report = true
  | AcceptStop key op =>
      ∃ row r, listed h row ∧ Did (GetInstance (preview_key row)) (Ok (Some r)) ∈ h
        ∧ instance_id r = instance_id row ∧ preview_key r = key ∧ state r ≠ Stopping
        ∧ Did NewId op ∈ h
  | ReconcileHostReboot pod_uid boot_id =>
      h = [] ∧ boot_id = BOOT_ID process ∧ own = pod_uid +:+ ":" +:+ boot_id
  | FlushActivity entries => entries ≠ [] ∧ Did ActivityDrain entries ∈ h
  | ActivityRecord key inst at_ =>
      ∃ r, saw h r ∧ preview_key r = key ∧ instance_id r = inst ∧ state r = Ready
        ∧ Did UtcNow at_ ∈ h
  | StartOwned input =>
      as_host input = local_host_identity process ∧ as_requested_port input = None
      ∧ Did NewId (as_operation_id input) ∈ h ∧ Did NewId (as_instance_id input) ∈ h
      ∧ ∀ e, as_recover_unknown_evidence input = Some e → takeover h (as_preview_key input) e
  | Cancel o =>
      (∃ key inst, Did (OwnersGet key inst) (Ok (Some o)) ∈ h)
      ∨ ∃ project os, Did (OwnersProject project) (Ok os) ∈ h ∧ o ∈ os
  | OwnersRemove o => released h o
  | Within (StopLocal key inst) => stop_target h key inst
  | RemoteStop ip key inst op rev =>
      ∃ r, stopping h r ∧ preview_key r = key ∧ instance_id r = inst ∧ operation_id r = op
        ∧ revision r = rev ∧ host_id r ≠ own ∧ pod_ip r = Some ip
  | Within (WaitExecution o) => Did (Cancel o) (Ok tt) ∈ h
  | Within (WaitResult o) => ∃ input, Did (StartOwned input) (Ok o) ∈ h
  | CachePositive prt route =>
      ∃ r, Did (FindActiveByPort prt) (Ok (Some r)) ∈ h
        ∧ ((host_id r = own ∧ route = RouteLocal (instance_id r) prt)
           ∨ ∃ ip, host_id r ≠ own ∧ pod_ip r = Some ip ∧ route = RouteForward (instance_id r) prt ip)
  | CacheNegative prt => Did (FindActiveByPort prt) (Ok None) ∈ h
  | GetInstance _ | FindActiveByPort _ | ListByHost _ _ | ListActive | VerifyLocal _ _
  | RegistrationMatches _ _ | ReadLogLocal _ _ _ | HostPodExists _ | RemoteVerify _ _ _ _
  | RemoteLog _ _ _ _ | OwnersGet _ _ | OwnersProject _ | AdmittedRow _ | CacheGet _
  | CacheInvalidate _ | ActivityDrain | UtcNow | NewId => True
  | StartLocal _ | AcceptStart _ | RetryStartPort _ | ActivePorts | SetAdmitted _ _ | Cancelled _
  | BeginNative _ | NativeIdle _ | FinishPhase _ | SignalDone _ | SendResult _ _ | WaitExecution _
  | WaitResult _ | StopLocal _ _ | Sleep | Within _ => False
  end.
End may.

(** *** Observations stay *)

Lemma saw_cons h e r : saw h r → saw (e :: h) r.
Proof. by apply Exists_cons_tl. Qed.
Lemma saw_here h a b r : r ∈ rows_of a b → saw (Did a b :: h) r.
Proof. intros H. by apply Exists_cons_hd. Qed.
Lemma confirmed_cons h e key inst : confirmed h key inst → confirmed (e :: h) key inst.
Proof. by apply Exists_cons_tl. Qed.
Lemma reported_cons h e key inst r : reported h key inst r → reported (e :: h) key inst r.
Proof. by apply Exists_cons_tl. Qed.
Lemma host_absent_cons h e r : host_absent h r → host_absent (e :: h) r.
Proof. by right. Qed.
Lemma fenced_cons h e r key inst : fenced h r key inst → fenced (e :: h) r key inst.
Proof. intros [H|(why & u & H & Hk)]; [by left|right; exists why, u; split; [by right|done]]. Qed.
Lemma released_cons h e o : released h o → released (e :: h) o.
Proof. intros (h' & H & Hc). exists h'. split; [by apply suffix_cons_r|done]. Qed.
Lemma elem_of_later (e e' : Event) h : e ∈ h → e ∈ e' :: h.
Proof. by right. Qed.

Lemma listed_cons h e r : listed h r → listed (e :: h) r.
Proof. intros (rows & H & Hr). exists rows. split; [by right|done]. Qed.
Lemma listed_saw h r : listed h r → saw h r.
Proof. intros (rows & H & Hr). apply Exists_exists. by eexists. Qed.
Lemma stopping_cons h e r : stopping h r → stopping (e :: h) r.
Proof.
  intros [Hs [H|(key & op & H)]]; (split; [by apply saw_cons|]); [by left|].
  right. exists key, op. by right.
Qed.
Lemma stop_target_cons process h e key inst :
  stop_target process h key inst → stop_target process (e :: h) key inst.
Proof.
  intros [(r & Hs & Hh & Hi & Hk)|(o & r & Hc & Ha & Hki)]; [left|right].
  - exists r. split_and!; [by apply stopping_cons|done..|]. destruct Hk; [by left|right; by right].
  - exists o, r. split_and!; [by right|by right|apply Hki..].
Qed.
Lemma takeover_cons h a key e : takeover h key e → takeover (a :: h) key e.
Proof. intros (r & H & Hr & Hi & Hv & Ha). exists r. split_and!; [by right|done..|by right]. Qed.

Create HintDb trace.
#[export] Hint Resolve saw_cons confirmed_cons reported_cons host_absent_cons fenced_cons
  released_cons elem_of_later listed_cons listed_saw stopping_cons stop_target_cons takeover_cons
  : trace.

Lemma stays (P : list Event → Prop) h h' :
  (∀ e h, P h → P (e :: h)) → P h → h `suffix_of` h' → P h'.
Proof. intros Hc HP [l ->]. induction l as [|e l IH]; simpl; auto. Qed.
Lemma spec_then {R} ok (Q Q' : R → list Event → Prop) p h :
  spec ok Q p h → (∀ r h', Q r h' → h `suffix_of` h' → Q' r h') → spec ok Q' p h.
Proof. intros Hp HQ. eapply spec_mono; [by apply spec_grows|]. intros r h' [? ?]. by apply HQ. Qed.
Lemma saw_stays h h' r : saw h r → h `suffix_of` h' → saw h' r.
Proof. apply (stays (λ h, saw h r)). auto with trace. Qed.
Lemma released_stays h h' o : released h o → h `suffix_of` h' → released h' o.
Proof. apply (stays (λ h, released h o)). auto with trace. Qed.
Lemma listed_stays h h' r : listed h r → h `suffix_of` h' → listed h' r.
Proof. apply (stays (λ h, listed h r)). auto with trace. Qed.
Lemma stopping_stays h h' r : stopping h r → h `suffix_of` h' → stopping h' r.
Proof. apply (stays (λ h, stopping h r)). auto with trace. Qed.
Lemma stop_target_stays process h h' key inst :
  stop_target process h key inst → h `suffix_of` h' → stop_target process h' key inst.
Proof. apply (stays (λ h, stop_target process h key inst)). auto with trace. Qed.
Lemma did_stays (e : Event) h h' : e ∈ h → h `suffix_of` h' → e ∈ h'.
Proof. apply (stays (λ h, e ∈ h)). auto with trace. Qed.
Lemma fenced_self h r : fenced h r (preview_key r) (instance_id r).
Proof. by left. Qed.
#[export] Hint Resolve fenced_self : trace.
#[export] Hint Extern 1 (_ ∈ Did _ _ :: _) => left : trace.
#[export] Hint Extern 1 (saw (Did _ _ :: _) _) => apply saw_here; cbn; set_solver : trace.
Lemma released_wait h o u :
  Did (Cancel o) (Ok tt) ∈ h → released (Did (Within (WaitExecution o)) (Some (Ok u)) :: h) o.
Proof. intros H. exists h. by destruct u. Qed.

(** *** The end of a local startup *)

(** A confirmed answer is in the history, and so is the end of the owner's
    execution. *)
Definition stopped_by (found : option OwnerId) (key inst : string)
    (r : result ExecutorStopOutcome PreviewCoordinationError) (h : list Event) : Prop :=
  ∀ outcome, r = Ok outcome →
    (stop_confirmed outcome = true → confirmed h key inst)
    ∧ ∀ o, found = Some o → released h o.

(** The calls that end a local startup, under any rule that lets it look its
    owner up, cancel and await the owner it found, ask the executor to stop its
    instance, and remove an owner that is over. *)
Section stop_local.
Context (ok : list Event → Action → Prop) (key inst : string).
Record lets_stop (h : list Event) : Prop := {
  ls_get : ok h (OwnersGet key inst);
  ls_stop : ok h (Within (StopLocal key inst));
  ls_cancel : ∀ o, Did (OwnersGet key inst) (Ok (Some o)) ∈ h → ok h (Cancel o);
  ls_wait : ∀ o, Did (Cancel o) (Ok tt) ∈ h → ok h (Within (WaitExecution o));
  ls_remove : ∀ o, released h o → ok h (OwnersRemove o);
}.
Context (h0 : list Event) (Hlets : ∀ h, h0 `suffix_of` h → lets_stop h).

Lemma drain_startup_spec found h :
  h0 `suffix_of` h → (∀ o, found = Some o → Did (Cancel o) (Ok tt) ∈ h) →
  spec ok (stopped_by found key inst) (drain_startup found key inst) h.
Proof using Hlets.
  intros Hsuf Hc. unfold drain_startup.
  spec_steps; try done;
    try (apply ls_stop, Hlets; repeat apply suffix_cons_r; done);
    try (apply ls_wait; [apply Hlets; repeat apply suffix_cons_r; done|right; by apply Hc]);
    intros outcome [= <-]; subst.
  - split; [intros Hr; by apply Exists_cons_hd|]. intros o' [= <-].
    apply released_cons, released_wait. right. by apply Hc.
  - split; [intros Hr; by apply Exists_cons_hd|done].
Qed.
Lemma stop_local_startup_spec :
  spec ok (λ r h', ∃ found, stopped_by found key inst r h'
      ∧ ∀ outcome, r = Ok outcome → Did (OwnersGet key inst) (Ok found) ∈ h')
    (stop_local_startup key inst) h0.
Proof using Hlets.
  unfold stop_local_startup. apply spec_bind. split; [by apply ls_get, Hlets|]. cbn [Answer].
  intros [found|e]; cbn [spec ptry]; [|exists None; by split].
  apply spec_bind.
  assert (∀ h', h0 `suffix_of` h' → Did (OwnersGet key inst) (Ok found) ∈ h' →
    (∀ o, found = Some o → Did (Cancel o) (Ok tt) ∈ h') →
    spec ok (λ r h', ∃ found, stopped_by found key inst r h'
      ∧ ∀ outcome, r = Ok outcome → Did (OwnersGet key inst) (Ok found) ∈ h')
     (try* outcome := drain_startup found key inst in
      match found with
      | Some o =>
          if stop_confirmed outcome then do* OwnersRemove o then Ret (Ok outcome) else Ret (Ok outcome)
      | None => Ret (Ok outcome)
      end) h') as Hdrain.
  { intros h' H0 Hg Hc. apply spec_bind. eapply spec_then; [by apply drain_startup_spec|].
    intros [outcome|e] h'' Hs Hsuf; cbn [ptry]; [|exists found; split; [intros ? [=]|done]].
    pose proof (did_stays _ _ _ Hg Hsuf) as Hg'. destruct (Hs outcome eq_refl) as [Hconf Hrel].
    destruct found as [o|]; [|by exists None].
    destruct (stop_confirmed outcome) eqn:Hout; [|by exists (Some o)].
    spec_steps; [apply ls_remove; [apply Hlets; by etrans|by apply Hrel]|].
    exists (Some o). split; [|by right].
    intros ? [= <-]. split; [auto with trace|]. intros o' [= <-]. auto with trace. }
  destruct found as [o|]; [|by apply Hdrain; [apply suffix_cons_r|left|]].
  split; [apply ls_cancel; [apply Hlets; by apply suffix_cons_r|left]|]. cbn [Answer].
  intros [[]|e]; cbn [spec ptry]; [|exists None; by split].
  apply Hdrain; [by do 2 apply suffix_cons_r|right; left|]. intros o' [= <-]. left.
Qed.
End stop_local.

Section service.
Context (process : Process) (config : CoordinatorConfig).
Abbreviation host := (local_host_identity process).
Abbreviation may := (request_may process).
Abbreviation total p := (∀ h, spec may (λ _ _, True) p h).

(** *** Host evidence *)

Lemma settle_orphaned_spec row evidence h :
  saw h row → host_absent h row →
  spec may (λ _ _, True) (settle_orphaned_instance row evidence) h.
Proof using Type.
  intros Hs Ha. unfold settle_orphaned_instance, stored. spec_steps; try done; cbn.
  - exists row. auto with trace.
  - exists row. split_and!; auto.
  - exists row. split_and!; [auto with trace..|]. right. do 2 eexists. split_and!; [by left|done..].
Qed.
#[local] Hint Resolve settle_orphaned_spec : trace.

Lemma settle_if_host_absent_spec row h :
  saw h row → spec may (λ _ _, True) (settle_if_host_absent host row) h.
Proof using Type.
  intros Hs. unfold settle_if_host_absent, recovery_evidence. spec_steps; try done.
  eapply spec_mono; [eapply settle_orphaned_spec; [by auto with trace|]|]; [|intros r h' _; by spec_steps].
  subst. destruct b; [done|left].
Qed.

(** *** Starting *)

Ltac absent :=
  lazymatch goal with
  | |- spec _ _ (settle_if_host_absent _ _) _ =>
      eapply spec_mono; [apply settle_if_host_absent_spec; by auto with trace|intros ? ? _]
  end.
Ltac req_steps := repeat first [absent|spec_step; cbv beta zeta]; try done.

(** Evidence is handed on only for an unknown row of an absent host. *)
Lemma prepare_start_spec key base h :
  spec may (λ r h', ∀ e, r = Ok (inr (Some e)) → takeover h' key e)
    (prepare_start host config key base) h.
Proof using Type.
  unfold prepare_start, heartbeat_fresh, recovery_evidence. req_steps; intros e [= <-].
  subst. eexists. split_and!; [right; left|done..|]. destruct b0; [done|left].
Qed.
Lemma admit_and_start_spec identity base : total (admit_and_start host config identity base).
Proof using Type.
  intros h. unfold admit_and_start. apply spec_bind.
  eapply spec_mono; [apply prepare_start_spec|]. intros [[env|ev]|e] h' Hev; cbn [ptry]; [done| |done].
  req_steps; cbn.
  - split_and!; [done|done|right; left|left|]. intros e ->. auto with trace.
  - eexists. subst. left.
Qed.

(** *** Stopping *)

Lemma admitted_target h o r :
  Did (Cancel o) (Ok tt) ∈ h →
  stop_target process (Did (AdmittedRow o) (Ok (Some r)) :: h) (preview_key r) (instance_id r).
Proof using Type. intros H. right. exists o, r. split_and!; [by right|left|done..]. Qed.
Lemma stop_project_startup_spec o h :
  Did (Cancel o) (Ok tt) ∈ h → spec may (λ _ _, True) (stop_project_startup o) h.
Proof using Type.
  intros Hc. unfold stop_project_startup. req_steps; subst; cbn.
  all: auto 10 using released_wait, admitted_target with trace.
Qed.
Lemma spec_cancel_all project os h :
  Did (OwnersProject project) (Ok os) ∈ h →
  spec may (λ r h', ∀ u, r = Ok u → ∀ o, o ∈ os → Did (Cancel o) (Ok tt) ∈ h')
    (ptry_foreach os (λ o, call (Cancel o))) h.
Proof using Type.
  intros Hos. assert (∀ o, o ∈ os → ∃ all, Did (OwnersProject project) (Ok all) ∈ h ∧ o ∈ all) as Hall
    by eauto. clear Hos.
  revert h Hall. induction os as [|o os IH]; intros h Hall; cbn [ptry_foreach].
  { intros u _ o []%not_elem_of_nil. }
  apply spec_bind. split; [right; exists project; apply Hall; left|]. cbn [Answer]. intros [[]|e]; cbn [spec]; [|by intros].
  eapply spec_then; [apply IH|].
  { intros o' Ho'. destruct (Hall o') as (all & H & Hin); [by right|]. exists all. split; [by right|done]. }
  intros r h' Hr Hsuf u Hu o' [->|Ho]%elem_of_cons; [|by eapply Hr].
  eapply did_stays; [left|exact Hsuf].
Qed.
Lemma stop_project_startups_spec project : total (stop_project_startups project).
Proof using Type.
  intros h. unfold stop_project_startups. apply spec_bind. split; [done|]. cbn [Answer].
  intros [os|e]; cbn [spec ptry]; [|done]. apply spec_bind.
  eapply spec_mono; [apply (spec_cancel_all project os); left|]. intros [[]|e] h' H'; cbn [ptry]; [|done].
  apply (spec_try_foreach _ (λ h', ∀ o, o ∈ os → Did (Cancel o) (Ok tt) ∈ h')); [by eapply H'|..|done].
  intros o h1 Ho H1. eapply spec_then; [by apply stop_project_startup_spec, H1|].
  intros [[]|e] h2 _ Hsuf; [|done]. intros o' Ho'. eapply did_stays; [by apply H1|done].
Qed.

(** The rules for a local startup let a stop of its target through. *)
Lemma target_lets_stop key inst h h' :
  stop_target process h key inst → h `suffix_of` h' → lets_stop may key inst h'.
Proof using Type.
  intros Ht Hsuf. pose proof (stop_target_stays _ _ _ _ _ Ht Hsuf). split; cbn; eauto.
Qed.
Lemma dispatch_stop_spec row h :
  stopping h row →
  spec may (λ r h', ∀ outcome, r = Ok outcome → stop_confirmed outcome = true →
      confirmed h' (preview_key row) (instance_id row))
    (dispatch_stop host row (operation_id row)) h.
Proof using Type.
  intros Hs. unfold dispatch_stop. case_bool_decide as Hh.
  { eapply spec_mono; [apply stop_local_startup_spec; intros; eapply target_lets_stop; [|done]|].
    - left. exists row. auto.
    - intros r h' (found & Hst & _) outcome -> Ho. by apply (Hst outcome eq_refl). }
  req_steps; [by exists row; split_and!|].
  intros outcome Ho Hc. destruct b as [r|e]; [|done]. injection Ho as ->.
  by apply Exists_cons_hd.
Qed.
Lemma finish_stop_spec row outcome h :
  stopping h row →
  (stop_confirmed outcome = true → confirmed h (preview_key row) (instance_id row)) →
  spec may (λ _ _, True) (finish_stop row outcome) h.
Proof using Type.
  intros Hs Hc. pose proof (proj1 Hs). unfold finish_stop, invalidate_port, stored.
  destruct outcome; [apply spec_bind; split; [exists row; by split_and!; auto|]..|]; cbn [Answer];
    intros; cbn [spec]; req_steps.
  exists row. by split_and!; auto.
Qed.
Lemma coordinated_stop_spec row h :
  listed h row → spec may (λ _ _, True) (coordinated_stop host row) h.
Proof using Type.
  intros Hl. unfold coordinated_stop, stored. apply spec_bind.
  eapply spec_then; [by apply settle_if_host_absent_spec, listed_saw|].
  intros [[]|e] h1 _ Hsuf; cbn [ptry]; [done| |done]. pose proof (listed_stays _ _ _ Hl Hsuf) as Hl1.
  req_steps; bools; subst; [|exists row; eexists; split_and!; [by auto with trace|right; left|done..|left]|].
  all: match goal with |- spec _ _ (dispatch_stop _ ?r _) ?h' => assert (stopping h' r) as Hst end;
    [split; [by auto with trace|first [by left|right; do 2 eexists; left]]|].
  all: eapply spec_then; [by apply dispatch_stop_spec|]; intros [outcome|e] h2 Hd Hsuf2;
    pose proof (stopping_stays _ _ _ Hst Hsuf2) as Hst2; [by apply finish_stop_spec, Hd|];
    (split; [eexists; split_and!; [apply Hst2|done..|by right; left]|]); cbn [Answer];
    intros; unfold invalidate_port; req_steps.
Qed.

Lemma stop_targets_spec project h :
  spec may (λ r h', ∀ rows, r = Ok rows → ∀ row, row ∈ rows → listed h' row) (stop_targets project) h.
Proof using Type.
  unfold stop_targets, stored. apply spec_bind.
  eapply spec_mono; [apply stop_project_startups_spec|]. intros [[]|e] h' _; cbn [ptry]; [|done].
  req_steps. intros rows [= <-] row [_ Hrow]%list_elem_of_filter. eexists. split; [left|done].
Qed.
Lemma stop_all_spec rows h :
  (∀ row, row ∈ rows → listed h row) → spec may (λ _ _, True) (stop_all host rows) h.
Proof using Type.
  intros H. apply (spec_forall _ (λ h, ∀ row, row ∈ rows → listed h row)); [done| |done].
  intros row h' Hrow H'. apply spec_bind. eapply spec_then; [by apply coordinated_stop_spec, H'|].
  intros r h'' _ Hsuf row' Hrow'. eapply listed_stays; [by apply H'|done].
Qed.
Lemma stop_dev_spec project : total (stop_dev host project).
Proof using Type.
  intros h. unfold stop_dev. apply spec_bind. eapply spec_mono; [apply stop_targets_spec|].
  intros [rows|e] h' Hr; cbn [ptry]; [|done]. destruct rows as [|row rows]; [done|]. apply spec_bind.
  eapply spec_mono; [apply stop_all_spec; by apply Hr|done].
Qed.
Lemma restart_dev_spec identity base : total (restart_dev host config identity base).
Proof using Type.
  intros h. unfold restart_dev. apply spec_bind. eapply spec_mono; [apply stop_targets_spec|].
  intros [rows|e] h' Hr; cbn [ptry]; [|done]. apply spec_bind.
  eapply spec_mono; [apply stop_all_spec; by apply Hr|]. intros b h'' _. destruct (negb b); [done|].
  apply spec_bind. eapply spec_mono; [apply admit_and_start_spec|]. intros [env|e] ? _; done.
Qed.

(** *** Keeping alive *)

Lemma rebuild_spec req : total (rebuild host config req).
Proof using Type.
  intros h. unfold rebuild. apply spec_bind. eapply spec_mono; [apply admit_and_start_spec|].
  intros [env|e] ? _; done.
Qed.
Lemma verify_via_host_spec row h :
  spec may (λ r h', ∀ report, r = Ok report →
      reported h' (preview_key row) (instance_id row) report)
    (verify_via_host host config row) h.
Proof using Type.
  unfold verify_via_host. req_steps; intros report Hr; (destruct b as [r|e]; [|done]);
    injection Hr as ->; apply Exists_cons_hd; cbn; by rewrite bool_decide_true.
Qed.
Ltac rebuilds :=
  repeat first
    [ lazymatch goal with |- spec _ _ (rebuild _ _ _) _ => apply rebuild_spec end
    | absent | spec_step; cbv beta zeta ]; try done.
Lemma keep_alive_stale_spec req row h :
  saw h row → state row = Ready → spec may (λ _ _, True) (keep_alive_stale host config req row) h.
Proof using Type.
  intros Hs Hst. unfold keep_alive_stale. apply spec_bind.
  eapply spec_then; [apply verify_via_host_spec|]. intros r h' Hr Hsuf.
  pose proof (saw_stays _ _ _ Hs Hsuf) as Hs'. unfold record_activity. rebuilds; subst.
  - exists row, a. apply andb_true_iff in Heqb as [? ?]. split_and!; auto.
  - exists row. split_and!; [by auto with trace|done..|left].
  - exists row, a. bools. split_and!; auto.
Qed.
Lemma keep_alive_dev_spec req : total (keep_alive_dev host config req).
Proof using Type.
  intros h. unfold keep_alive_dev, stored, heartbeat_fresh, recovery_evidence, record_activity.
  rebuilds.
  all: first [apply keep_alive_stale_spec; by auto with trace|idtac].
  { exists p. split_and!; [by auto with trace|done..|left]. }
  destruct b0; [done|]. exists p. split_and!; [by auto with trace|left|by left].
Qed.

(** *** Background sweeps *)

Lemma by_pod_spec rows uid row :
  row ∈ default [] (by_pod host rows !! uid) → row ∈ rows ∧ pod_uid_of (host_id row) = uid.
Proof using Type.
  unfold by_pod. induction rows as [|r rows IH] using rev_ind; [simpl; rewrite lookup_empty; by intros []%not_elem_of_nil|].
  rewrite foldl_app. cbn [foldl]. case_bool_decide; [intros ?%IH; set_solver|].
  destruct (decide (pod_uid_of (host_id r) = uid)) as [<-|Hne].
  - rewrite lookup_insert_eq. intros [Hr|Hr]%elem_of_app; [apply IH in Hr; set_solver|].
    apply list_elem_of_singleton in Hr as ->. set_solver.
  - rewrite lookup_insert_ne by done. intros ?%IH. set_solver.
Qed.
Lemma run_startup_reconcile_spec : spec may (λ _ _, True) (run_startup_reconcile host process) [].
Proof using Type.
  unfold run_startup_reconcile, reboot_reconcile_args. cbv beta iota.
  spec_steps; try done.
  match goal with |- context [by_pod _ ?rs] => rename rs into rows end. subst.
  set (h0 := Did ListActive _ :: _). assert (∀ row, row ∈ rows → saw h0 row) as H0.
  { intros row Hrow. by apply saw_here. }
  apply (spec_foreach _ (λ h, ∀ row, row ∈ rows → saw h row)); [done| |done]. clearbody h0. clear H0.
  intros uid h _ H. apply spec_bind. split; [done|]. cbn [Answer]. intros []; cbn [spec].
  { intros row Hrow. auto with trace. }
  apply (spec_foreach _ (λ h, (∀ row, row ∈ rows → saw h row) ∧ Did (HostPodExists uid) false ∈ h));
    [split; [auto with trace|left]| |by intros ? []].
  intros row h1 [Hrow Huid]%by_pod_spec [H1 Hg]. apply spec_bind.
  eapply spec_then; [apply settle_orphaned_spec; [by apply H1|]|].
  { unfold host_absent. by rewrite Huid. }
  intros r h2 _ Hsuf. split; [|by eapply did_stays]. intros row' Hrow'. eapply saw_stays; [by apply H1|done].
Qed.

Lemma verified_here h key inst r : reported (Did (VerifyLocal key inst) (Ok r) :: h) key inst r.
Proof using Type. apply Exists_cons_hd. cbn. by rewrite bool_decide_true. Qed.
Lemma probe_row_spec row h :
  saw h row →
  (state row = Starting → Did (OwnersGet (preview_key row) (instance_id row)) (Ok None) ∈ h) →
  spec may (λ _ _, True) (probe_row row) h.
Proof using Type.
  intros Hs Ho. unfold probe_row, heal_late_start. spec_steps; try done; cbn; bools; subst.
  - exists row. eexists. split_and!; try done; [by auto with trace|by right; apply Ho|].
    apply verified_here.
  - exists row. split_and!; [by auto with trace|done..|]. right. right.
    eexists. split; [apply verified_here|done].
  - exists row. eexists. split_and!; try done; [by auto with trace|apply verified_here].
  - exists row. eexists. split_and!; try done; [by auto with trace|apply verified_here].
Qed.
Lemma sweep_row_spec row h : saw h row → spec may (λ _ _, True) (sweep_row row) h.
Proof using Type.
  intros Hs. unfold sweep_row, has_startup_owner. destruct (state row) eqn:Hst; try done;
    try (apply probe_row_spec; [done|congruence]).
  spec_steps; try done; subst.
  match goal with Hf : is_some ?f = false |- _ => destruct f; [done|] end.
  apply probe_row_spec; [by auto with trace|intros _; left].
Qed.
Lemma rows_of_host (body : PreviewInstanceRecord → Prog unit) h active :
  (∀ row h, saw h row → spec may (λ _ _, True) (body row) h) →
  spec may (λ _ _, True)
    (let* rows := call (ListByHost (h_host_id host) active) in
     match rows with Err _ => Ret tt | Ok rows => pforeach rows body end) h.
Proof using Type.
  intros Hb. apply spec_bind. split; [done|]. cbn [Answer]. intros [rows|e]; cbn [spec]; [|done].
  apply (spec_foreach _ (λ h, ∀ row, row ∈ rows → saw h row)); [| |done].
  - intros row Hrow. by apply saw_here.
  - intros row h1 Hrow H1. eapply spec_then; [by apply Hb, H1|]. intros r h2 _ Hsuf row' Hrow'.
    eapply saw_stays; [by apply H1|done].
Qed.
Lemma run_heartbeat_sweep_spec : total (run_heartbeat_sweep host).
Proof using Type. intros h. apply rows_of_host. apply sweep_row_spec. Qed.
Lemma run_idle_recycle_spec : total (run_idle_recycle host config).
Proof using Type.
  intros h. unfold run_idle_recycle. case_match; [done|]. apply rows_of_host.
  intros row h' _. unfold recycle_row. spec_steps; try done.
  eapply spec_mono; [apply stop_dev_spec|done].
Qed.
Lemma internal_stop_spec key inst op rev : total (internal_stop host key inst op rev).
Proof using Type.
  intros h. unfold internal_stop, stored. req_steps. subst.
  eapply spec_mono; [apply stop_local_startup_spec|done]. intros h'. apply target_lets_stop. left.
  exists p. bools. split_and!; [split; [by auto with trace|by left]|done..|right; left].
Qed.
Lemma resolve_route_spec prt : total (resolve_route host prt).
Proof using Type.
  intros h. unfold resolve_route. req_steps; subst; [..|left].
  - eexists. split; [left|]. left. bools. auto.
  - eexists. split; [left|]. right. bools. eauto.
Qed.
Lemma run_activity_flush_spec : total run_activity_flush.
Proof using Type.
  intros h. unfold run_activity_flush. req_steps. subst. split; [done|left].
Qed.
End service.

(** ** Requests *)

(** The methods of the service and its sweeps. *)
Inductive Request :=
  | StartDev (identity : PreviewProjectIdentity) (base_path : option string)
  | StopDev (project : string)
  | RestartDev (identity : PreviewProjectIdentity) (base_path : option string)
  | KeepAliveDev (req : PreviewKeepAliveRequest)
  | ListDev
  | ReadDevLog (project log_type : string) (start_index : Z)
  | PortPoolStatus
  | ResolveRoute (prt : Z)
  | InvalidateRoute (prt : Z)
  | CheckForward (inst : string) (prt : Z)
  | InternalStop (key inst op : string) (rev : Z)
  | InternalVerify (key inst : string)
  | StartupReconcile
  | HeartbeatSweep
  | ActivityFlush
  | IdleRecycle.
Definition Response (q : Request) : Type :=
  match q with
  | StartDev _ _ | RestartDev _ _ => result PreviewStartEnvelope PreviewCoordinationError
  | StopDev _ => result PreviewStopEnvelope PreviewCoordinationError
  | KeepAliveDev _ => result PreviewKeepAliveEnvelope PreviewCoordinationError
  | ListDev => result (list PreviewListEntry) PreviewCoordinationError
  | ReadDevLog _ _ _ => result ExecutorLogChunk PreviewCoordinationError
  | PortPoolStatus => result PreviewPortPoolStatus PreviewCoordinationError
  | ResolveRoute _ => PreviewRouteResolution
  | CheckForward _ _ => PreviewForwardCheck
  | InternalStop _ _ _ _ => result ExecutorStopOutcome PreviewCoordinationError
  | InternalVerify _ _ => result ExecutorVerifyReport PreviewCoordinationError
  | InvalidateRoute _ | StartupReconcile | HeartbeatSweep | ActivityFlush | IdleRecycle => unit
  end.
Definition serve (process : Process) (config : CoordinatorConfig) (q : Request)
    : Prog (Response q) :=
  let host := local_host_identity process in
  match q with
  | StartDev identity base => start_dev host config identity base
  | StopDev project => stop_dev host project
  | RestartDev identity base => restart_dev host config identity base
  | KeepAliveDev req => keep_alive_dev host config req
  | ListDev => list_dev
  | ReadDevLog project log_type start_index => read_dev_log host project log_type start_index
  | PortPoolStatus => port_pool_status
  | ResolveRoute prt => resolve_route host prt
  | InvalidateRoute prt => invalidate_route prt
  | CheckForward inst prt => check_forward host inst prt
  | InternalStop key inst op rev => internal_stop host key inst op rev
  | InternalVerify key inst => internal_verify key inst
  | StartupReconcile => run_startup_reconcile host process
  | HeartbeatSweep => run_heartbeat_sweep host
  | ActivityFlush => run_activity_flush
  | IdleRecycle => run_idle_recycle host config
  end.

Lemma serve_spec process config q :
  spec (request_may process) (λ _ _, True) (serve process config q) [].
Proof.
  destruct q; cbn [serve Response];
    [apply admit_and_start_spec|apply stop_dev_spec|apply restart_dev_spec|apply keep_alive_dev_spec
    | | | |apply resolve_route_spec| | |apply internal_stop_spec| |apply run_startup_reconcile_spec
    |apply run_heartbeat_sweep_spec|apply run_activity_flush_spec|apply run_idle_recycle_spec];
    unfold list_dev, read_dev_log, port_pool_status, invalidate_route, check_forward,
      internal_verify, stored; spec_steps; done.
Qed.
