(* ===== verification/CoordSystem.v ===== *)
(** * Startups and requests side by side

    One coordinator process: the table of startup owners, the tasks that run
    startups, the requests and the background sweeps, interleaved call by call.
    The store, the executor and the other replicas answer anything; the owners
    and their table behave as [CoordStartup] says. *)
From S2P Require Import Prelude Ordered Validation PreviewModel CoordProg CoordStartup CoordService CoordTrace CoordRequests.
Import Text Preview Coord Runs Startup Service.
Local Open Scope rust_scope.
Local Open Scope prog_scope.

(** ** Effects *)

Definition on_owner {A} (o : OwnerId) (m : OwnM A) (s : StartupOwners)
    (b : result A PreviewCoordinationError) (s' : StartupOwners) : Prop :=
  ∃ w w', owners s !! o = Some w ∧ m w = (b, w')
    ∧ s' = {| table := table s; owners := <[o := w']> (owners s) |}.
Definition alter_owner (o : OwnerId) (f : OwnedStartAttempt → OwnedStartAttempt) (s : StartupOwners)
    : StartupOwners := {| table := table s; owners := alter f o (owners s) |}.

(** [effect s a b s']: the call [a] can be answered [b] and leave [s'].  A wait
    is answered when what it waits for has happened, or when its deadline has
    passed. *)
Definition effect (s : StartupOwners) (a : Action) : Answer a → StartupOwners → Prop :=
  match a with
  | StartOwned input => λ b s', ∃ new r,
      owners s !! new = None ∧ join_or_insert new input s = (r, s')
      ∧ b = (let? x := r in Ok x.1)
  | OwnersGet key inst => λ b s', b = owners_get key inst s ∧ s' = s
  | OwnersProject project => λ b s', b = owners_project project s ∧ s' = s
  | OwnersRemove o => λ _ s', s' = owners_remove o s
  | Cancel o => λ b s', on_owner o cancel s b s'
  | SetAdmitted o row => λ b s', on_owner o (set_admitted row) s b s'
  | AdmittedRow o => λ b s', on_owner o admitted_row s b s'
  | BeginNative o => λ b s', on_owner o begin_native s b s'
  | NativeIdle o => λ b s', on_owner o native_idle s b s'
  | Cancelled o => λ b s', ow_cancelled <$> owners s !! o = Some b ∧ s' = s
  | FinishPhase o => λ _ s', s' = alter_owner o finish_phase s
  | SignalDone o => λ _ s', s' = alter_owner o (on_done true) s
  | SendResult o r => λ _ s', s' = alter_owner o (on_result (Some r)) s
  | WaitExecution o => λ b s', ow_execution_done <$> owners s !! o = Some true ∧ b = Ok tt ∧ s' = s
  | Within (WaitExecution o) => λ b s',
      (b = None ∨ (ow_execution_done <$> owners s !! o = Some true ∧ b = Some (Ok tt))) ∧ s' = s
  | WaitResult o => λ b s', ∃ r, owners s !! o ≫= ow_result = Some r ∧ b = Ok r ∧ s' = s
  | Within (WaitResult o) => λ b s',
      (b = None ∨ ∃ r, owners s !! o ≫= ow_result = Some r ∧ b = Some (Ok r)) ∧ s' = s
  | _ => λ _ s', s' = s
  end.

(** ** Configurations *)

Inductive Thread :=
  | Worker (o : OwnerId) (input : AcceptStartInput) (h : list Event) (p : Prog StartupResult)
  | Settler (o : OwnerId) (h : list Event) (p : Prog unit)
  | Client (q : Request) (h : list Event) (p : Prog (Response q)).

(** One call of a thread and its answer. *)
Definition acts (t : Thread) (e : Event) (t' : Thread) : Prop :=
  match t with
  | Worker o input h (Act a k) => ∃ b, e = Did a b ∧ t' = Worker o input (e :: h) (k b)
  | Settler o h (Act a k) => ∃ b, e = Did a b ∧ t' = Settler o (e :: h) (k b)
  | Client q h (Act a k) => ∃ b, e = Did a b ∧ t' = Client q (e :: h) (k b)
  | _ => False
  end.
Definition did (s : StartupOwners) (e : Event) (s' : StartupOwners) : Prop :=
  match e with Did a b => effect s a b s' end.

(** The task [start_owned] spawns for an owner it inserted. *)
Definition spawned (fuel : nat) (s : StartupOwners) (e : Event) : list Thread :=
  match e with
  | Did (StartOwned input) (Ok o) =>
      if is_none (owners s !! o) then [Worker o input [] (run fuel o input)] else []
  | _ => []
  end.

Record Config := { shared : StartupOwners; threads : list Thread }.

(** A panic inside a critical section leaves its lock poisoned. *)
Definition poison {A} (m : Mutex A) : Mutex A := {| locked := locked m; poisoned := true |}.
Definition poison_phase (w : OwnedStartAttempt) : OwnedStartAttempt :=
  {| ow_input := ow_input w; ow_cancelled := ow_cancelled w; ow_phase := poison (ow_phase w);
     ow_admitted := ow_admitted w; ow_execution_done := ow_execution_done w; ow_result := ow_result w |}.
Definition poison_admitted (w : OwnedStartAttempt) : OwnedStartAttempt :=
  {| ow_input := ow_input w; ow_cancelled := ow_cancelled w; ow_phase := ow_phase w;
     ow_admitted := poison (ow_admitted w); ow_execution_done := ow_execution_done w;
     ow_result := ow_result w |}.

Section system.
Context (process : Process) (config : CoordinatorConfig).

Inductive step : Config → Config → Prop :=
  | step_request s ts q : step {| shared := s; threads := ts |}
      {| shared := s; threads := ts ++ [Client q [] (serve process config q)] |}
  | step_call s ts i t e t' s' fuel :
      ts !! i = Some t → acts t e t' → did s e s' →
      step {| shared := s; threads := ts |}
           {| shared := s'; threads := <[i := t']> ts ++ spawned fuel s e |}
  | step_returned s ts i o input h r :
      ts !! i = Some (Worker o input h (Ret r)) →
      step {| shared := s; threads := ts |}
           {| shared := s; threads := <[i := Settler o [] (settle_finished o r)]> ts |}
  | step_panicked s ts i o input h p fuel error :
      ts !! i = Some (Worker o input h p) →
      step {| shared := s; threads := ts |}
           {| shared := s; threads := <[i := Settler o [] (settle_panicked fuel o input error)]> ts |}
  | step_poison_table s ts :
      step {| shared := s; threads := ts |}
           {| shared := {| table := poison (table s); owners := owners s |}; threads := ts |}
  | step_poison_phase s ts o :
      step {| shared := s; threads := ts |}
           {| shared := alter_owner o poison_phase s; threads := ts |}
  | step_poison_admitted s ts o :
      step {| shared := s; threads := ts |}
           {| shared := alter_owner o poison_admitted s; threads := ts |}.

Definition initial : Config := {| shared := empty_owners; threads := [] |}.
Definition reachable (c : Config) : Prop := rtc step initial c.
End system.

(** The executor's [start_local] is in progress for the owner. *)
Definition starting (c : Config) (o : OwnerId) : Prop :=
  ∃ i input h t k, threads c !! i = Some (Worker o input h (Act (StartLocal t) k)).

(** The owner was told to stop and its execution is over. *)
Definition stopped (w : OwnedStartAttempt) : Prop :=
  ow_cancelled w = true ∧ ow_execution_done w = true.
(** The table leads to the owner. *)
Definition registered (s : StartupOwners) (o : OwnerId) (w : OwnedStartAttempt) : Prop :=
  locked (table s) !! as_preview_key (ow_input w) = Some o.
#[global] Instance registered_dec s o w : Decision (registered s o w).
Proof. unfold registered. apply _. Defined.

(** ** How an owner changes *)

(** Any call. *)
Definition own_le (w w' : OwnedStartAttempt) : Prop :=
  ow_input w' = ow_input w ∧ (ow_cancelled w = true → ow_cancelled w' = true)
  ∧ (stopped w → stopped w').
(** A native start in progress. *)
Definition native (w : OwnedStartAttempt) : Prop :=
  locked (ow_phase w) = PhaseRunning ∧ ow_execution_done w = false.

(** The calls that are one task's own. *)
Definition private (a : Action) : option OwnerId :=
  match a with
  | SetAdmitted o _ | BeginNative o | NativeIdle o | FinishPhase o | SignalDone o => Some o
  | _ => None
  end.

Lemma own_le_refl w : own_le w w.
Proof. by split_and!. Qed.
#[local] Hint Resolve own_le_refl : core.

Definition keeps_owner (Q : OwnedStartAttempt → OwnedStartAttempt → Prop) (s s' : StartupOwners)
    (o : OwnerId) : Prop :=
  ∀ w, owners s !! o = Some w → ∃ w', owners s' !! o = Some w' ∧ Q w w'.

Lemma on_owner_keeps {A} (Q : OwnedStartAttempt → OwnedStartAttempt → Prop) o' (m : OwnM A) s b s' o :
  (∀ w, Q w w) → (o' = o → ∀ w, Q w (m w).2) → on_owner o' m s b s' → keeps_owner Q s s' o.
Proof.
  intros Hr Hm (w0 & w1 & H0 & Hw & ->) w Hw0. simpl. destruct (decide (o' = o)) as [->|Hne].
  - rewrite lookup_insert_eq. eexists. split; [done|]. rewrite H0 in Hw0. injection Hw0 as <-. specialize (Hm eq_refl w0).
    by rewrite Hw in Hm.
  - rewrite lookup_insert_ne by done. eauto.
Qed.
Lemma alter_owner_keeps (Q : OwnedStartAttempt → OwnedStartAttempt → Prop) o' f s o :
  (∀ w, Q w w) → (o' = o → ∀ w, Q w (f w)) → keeps_owner Q s (alter_owner o' f s) o.
Proof.
  intros Hr Hf w Hw. simpl. destruct (decide (o' = o)) as [->|Hne].
  - rewrite lookup_alter_eq, Hw. eexists. split; [done|]. by apply Hf.
  - rewrite lookup_alter_ne by done. eauto.
Qed.
Lemma join_keeps (Q : OwnedStartAttempt → OwnedStartAttempt → Prop) new input s r s' o :
  (∀ w, Q w w) → owners s !! new = None → join_or_insert new input s = (r, s') → keeps_owner Q s s' o.
Proof.
  intros Hr Hn Hj w Hw. unfold join_or_insert in Hj. repeat case_match; simplify_eq; eauto.
  simpl. rewrite lookup_insert_ne; eauto. congruence.
Qed.
Lemma remove_owners o s : owners (owners_remove o s) = owners s.
Proof. unfold owners_remove. by repeat case_match. Qed.

Ltac owner_ops :=
  unfold cancel, set_admitted, begin_native, native_idle, admitted_row, finish_phase, lock, mwhen,
    mbind', mget, mmodify, mret', mfail; simpl.

(** Every call keeps what was asked of an owner and that it stopped. *)
Lemma effect_own_le s a b s' o : effect s a b s' → keeps_owner own_le s s' o.
Proof.
  assert (keeps_owner own_le s s o) as Hs by (intros w Hw; eauto).
  destruct a; simpl; try (by intros ->);
    try (intros [? ->]; done); try (intros (? & ? & ->); done); try (intros (? & ? & ? & ->); done).
  all: try (apply on_owner_keeps; [done|]; intros _ w; owner_ops;
            repeat case_match; simpl; unfold own_le, stopped; simpl; naive_solver).
  all: try (intros ->; apply alter_owner_keeps; [done|]; intros _ w; owner_ops;
            repeat case_match; unfold own_le, stopped; simpl; naive_solver).
  - intros (new & r & Hn & Hj & _). by eapply join_keeps.
  - intros ->. intros w Hw. rewrite remove_owners. eauto.
  - destruct a; try (by intros ->); by intros [_ ->].
Qed.
(** A call of another task does not touch a native start in progress. *)
Lemma effect_native s a b s' o :
  effect s a b s' → private a ≠ Some o → keeps_owner (λ w w', native w → native w') s s' o.
Proof.
  intros He Hp. assert (keeps_owner (λ w w', native w → native w') s s o) as Hs by (intros w Hw; eauto).
  revert He Hp. destruct a; simpl; intros He Hp; try (by rewrite He);
    try (by destruct He as [_ ->]); try (by destruct He as (_ & _ & ->));
    try (by destruct He as (? & _ & _ & ->)).
  all: try (eapply on_owner_keeps; [done| |exact He]; intros ->; by destruct Hp).
  all: try (rewrite He; apply alter_owner_keeps; [done|]; intros ->; by destruct Hp).
  - destruct He as (new & r & Hn & Hj & _). by eapply join_keeps.
  - rewrite He. intros w Hw. rewrite remove_owners. eauto.
  - eapply on_owner_keeps; [done| |exact He]. intros _ w [Hph Hd]. owner_ops.
    unfold native. destruct (poisoned _); simpl; rewrite ?Hph; simpl; by rewrite ?Hph.
  - eapply on_owner_keeps; [done| |exact He]. intros _ w Hn. owner_ops. by destruct (poisoned _).
  - rewrite He. apply alter_owner_keeps; [done|]. by intros _ w Hn.
  - destruct a; try (by rewrite He); by destruct He as [_ ->].
Qed.

(** Only [OwnersRemove] takes an owner out of the table. *)
Lemma effect_table s a b s' key o :
  effect s a b s' → locked (table s) !! key = Some o →
  locked (table s') !! key = Some o ∨ a = OwnersRemove o.
Proof.
  intros He Hk. destruct a; simpl in He; try (by left; rewrite He);
    try (by left; destruct He as [_ ->]); try (by left; destruct He as (_ & _ & ->));
    try (by left; destruct He as (? & _ & _ & ->)); try (by left; destruct He as (? & ? & _ & _ & ->)).
  - left. destruct He as (new & r & Hn & Hj & _). unfold join_or_insert in Hj.
    repeat case_match; simplify_eq; try done. simpl. rewrite lookup_insert_ne; [done|congruence].
  - subst. unfold owners_remove. repeat case_match; simpl; auto. bools.
    destruct (decide (as_preview_key (ow_input o1) = key)) as [<-|Hne]; [right; congruence|].
    left. by rewrite lookup_delete_ne.
  - left. destruct a; try (by rewrite He); by destruct He as [_ ->].
Qed.
(** A new owner is in the table. *)
Lemma effect_new s a b s' o w :
  effect s a b s' → owners s !! o = None → owners s' !! o = Some w → registered s' o w.
Proof.
  intros He Hn Hw. destruct a; simpl in He; try (by subst; rewrite Hn in Hw).
  all: try (by destruct He as [_ ->]; rewrite Hn in Hw).
  all: try (by destruct He as (_ & _ & ->); rewrite Hn in Hw).
  all: try (by destruct He as (? & _ & _ & ->); rewrite Hn in Hw).
  all: try (destruct He as (w0 & w1 & H0 & _ & ->); simpl in Hw;
            apply lookup_insert_Some in Hw as [[-> _]|[_ Hw]]; congruence).
  all: try (subst; simpl in Hw; apply lookup_alter_Some in Hw as [(-> & ? & ? & _)|[_ Hw]]; congruence).
  - destruct He as (new & r & Hf & Hj & _). unfold join_or_insert in Hj.
    repeat case_match; simplify_eq; try congruence. simpl in Hw.
    apply lookup_insert_Some in Hw as [[<- <-]|[_ Hw]]; [|congruence].
    unfold registered. simpl. by rewrite lookup_insert_eq.
  - subst. rewrite remove_owners in Hw. congruence.
  - destruct a; try (by subst; rewrite Hn in Hw); by destruct He as [_ ->]; rewrite Hn in Hw.
Qed.

(** ** The invariant *)

Definition task (t : Thread) : option OwnerId :=
  match t with Worker o _ _ _ | Settler o _ _ => Some o | Client _ _ _ => None end.
Definition in_native (o : OwnerId) (h : list Event) : Prop :=
  match h with Did (BeginNative o') (Ok true) :: _ => o' = o | _ => False end.
(** What a request may do to startups: it leaves the calls that are one task's
    own to the task, and removes an owner only when it is over. *)
Definition client_may (h : list Event) (a : Action) : Prop :=
  match a with
  | OwnersRemove o => released h o
  | SetAdmitted _ _ | BeginNative _ | NativeIdle _ | FinishPhase _ | SignalDone _ => False
  | _ => True
  end.
(** What the observer of an ended task may do. *)
Definition settler_may (o : OwnerId) (h : list Event) (a : Action) : Prop :=
  match a with
  | FinishPhase o' | SignalDone o' | OwnersRemove o' | SendResult o' _ => o' = o
  | SetAdmitted _ _ | BeginNative _ | NativeIdle _ | StartLocal _ | Cancel _ | StartOwned _ => False
  | _ => True
  end.

Definition owner_is (Q : OwnedStartAttempt → Prop) (s : StartupOwners) (o : OwnerId) : Prop :=
  ∃ w, owners s !! o = Some w ∧ Q w.
Definition thread_ok (s : StartupOwners) (t : Thread) : Prop :=
  match t with
  | Worker o input h p =>
      spec (startup_may o None) (startup_result None) p h ∧ (in_native o h → owner_is native s o)
  | Settler o h p => spec (settler_may o) (λ _ _, True) p h
  | Client q h p =>
      spec client_may (λ _ _, True) p h
      ∧ ∀ o, (Did (Cancel o) (Ok tt) ∈ h → owner_is (λ w, ow_cancelled w = true) s o)
             ∧ (released h o → owner_is stopped s o)
  end.
(** No task of the owner can start a process any more. *)
Definition retired (c : Config) (o : OwnerId) : Prop :=
  owner_is stopped (shared c) o
  ∨ ∀ i input h p, threads c !! i ≠ Some (Worker o input h p).

Record system_inv (c : Config) : Prop := {
  sy_threads : ∀ i t, threads c !! i = Some t → thread_ok (shared c) t;
  sy_task : ∀ i t o, threads c !! i = Some t → task t = Some o → is_Some (owners (shared c) !! o);
  sy_unique : ∀ i j t t' o, threads c !! i = Some t → threads c !! j = Some t' →
                task t = Some o → task t' = Some o → i = j;
  sy_table : ∀ o w, owners (shared c) !! o = Some w → ¬ registered (shared c) o w → retired c o;
}.

(** A thread that waits while another one, or the outside, acts. *)
Lemma thread_ok_stays s s' t :
  (∀ o, keeps_owner own_le s s' o) →
  (∀ o, task t = Some o → keeps_owner (λ w w', native w → native w') s s' o) →
  thread_ok s t → thread_ok s' t.
Proof.
  intros Hle Hn. destruct t as [o input h p|o h p|q h p]; simpl; [|done|].
  - intros [Hp Hh]. split; [done|]. intros (w & Hw & Hnat)%Hh.
    destruct (Hn o eq_refl w Hw) as (w' & Hw' & H'). exists w'. auto.
  - intros [Hp Hh]. split; [done|]. intros o. destruct (Hh o) as [Hc Hr].
    split; [intros (w & Hw & H)%Hc|intros (w & Hw & H)%Hr];
      destruct (Hle o w Hw) as (w' & Hw' & _ & H1 & H2); exists w'; auto.
Qed.

(** The own step of a thread. *)
Definition thread_may (t : Thread) (e : Event) : Prop :=
  match e with
  | Did a _ => match t with
               | Worker o _ h _ => startup_may o None h a
               | Settler o h _ => settler_may o h a
               | Client _ h _ => client_may h a
               end
  end.
Lemma thread_ok_may s t e t' : thread_ok s t → acts t e t' → thread_may t e.
Proof.
  destruct t as [o i h [r| |a' k']|o h [r| |a' k']|q h [r| |a' k']]; simpl; try done.
  - by intros [[? _] _] (b & -> & _).
  - by intros [? _] (b & -> & _).
  - by intros [[? _] _] (b & -> & _).
Qed.
Lemma acts_task t e t' : acts t e t' → task t' = task t.
Proof.
  destruct t as [o i h [r| |a' k']|o h [r| |a' k']|q h [r| |a' k']]; simpl; try done;
    by intros (b & _ & ->).
Qed.

Lemma owner_is_le (Q : OwnedStartAttempt → Prop) s s' o :
  keeps_owner own_le s s' o → (∀ w w', own_le w w' → Q w → Q w') → owner_is Q s o → owner_is Q s' o.
Proof. intros Hk HQ (w & Hw & H). destruct (Hk w Hw) as (w' & Hw' & Hle). exists w'. eauto. Qed.
Lemma stopped_le w w' : own_le w w' → stopped w → stopped w'.
Proof. by intros (_ & _ & H). Qed.
Lemma cancelled_le w w' : own_le w w' → ow_cancelled w = true → ow_cancelled w' = true.
Proof. by intros (_ & H & _). Qed.
#[local] Hint Resolve stopped_le cancelled_le : core.

Lemma began_native s s' o : did s (Did (BeginNative o) (Ok true)) s' → owner_is native s' o.
Proof.
  intros (w & w' & Hw & Hm & ->). exists w'. simpl. rewrite lookup_insert_eq. split; [done|].
  revert Hm. owner_ops. destruct (poisoned _); [done|]. simpl. destruct (ow_cancelled w); [done|].
  by intros [= <-].
Qed.
Lemma was_cancelled s s' o :
  did s (Did (Cancel o) (Ok tt)) s' → owner_is (λ w, ow_cancelled w = true) s' o.
Proof.
  intros (w & w' & Hw & Hm & ->). exists w'. simpl. rewrite lookup_insert_eq. split; [done|].
  revert Hm. owner_ops. destruct (poisoned _); [done|]. by destruct (locked _); intros [= <-].
Qed.
Lemma was_released s s' o :
  did s (Did (Within (WaitExecution o)) (Some (Ok tt))) s' →
  owner_is (λ w, ow_cancelled w = true) s o → owner_is stopped s' o.
Proof.
  intros [[?|[Hd _]] ->] (w & Hw & Hc); [done|]. exists w. rewrite Hw in Hd. by injection Hd as Hd.
Qed.

Lemma client_grows s s' e h o :
  did s e s' → keeps_owner own_le s s' o →
  (Did (Cancel o) (Ok tt) ∈ h → owner_is (λ w, ow_cancelled w = true) s o)
  ∧ (released h o → owner_is stopped s o) →
  (Did (Cancel o) (Ok tt) ∈ e :: h → owner_is (λ w, ow_cancelled w = true) s' o)
  ∧ (released (e :: h) o → owner_is stopped s' o).
Proof.
  intros He Hk [Hc Hr]. split.
  - intros [Heq|Hin]%elem_of_cons; [subst; by eapply was_cancelled|eapply owner_is_le; eauto].
  - intros (h' & Hsuf & Hin). destruct (suffix_cons_inv _ _ _ _ Hsuf) as [Heq|Hsuf'].
    + injection Heq as <- <-. eapply was_released; [exact He|by apply Hc].
    + eapply owner_is_le; eauto. apply Hr. by exists h'.
Qed.

Lemma thread_ok_step s s' t e t' : thread_ok s t → acts t e t' → did s e s' → thread_ok s' t'.
Proof.
  intros Ht Ha He.
  assert (∀ o, keeps_owner own_le s s' o) as Hk by (intros o; destruct e; by eapply effect_own_le).
  destruct t as [o i h [r| |a' k']|o h [r| |a' k']|q h [r| |a' k']]; simpl in Ht, Ha; try done;
    destruct Ha as (b & -> & ->); simpl.
  - destruct Ht as [[_ Hp] _]. split; [by apply Hp|]. intros Hn.
    destruct a'; try done. destruct b as [[]|]; try done. simpl in Hn. subst. by eapply began_native.
  - destruct Ht as [_ Hp]. apply Hp.
  - destruct Ht as [[_ Hp] Hh]. split; [by apply Hp|]. intros o. by eapply client_grows.
Qed.

(** *** Every step keeps the invariant *)

Lemma spawned_one fuel s e : length (spawned fuel s e) ≤ 1.
Proof. destruct e as [[] b]; simpl; try lia. destruct b; simpl; [|lia]. case_match; simpl; lia. Qed.
Lemma threads_updated fuel s e (ts : list Thread) i t t' j u :
  ts !! i = Some t → (<[i := t']> ts ++ spawned fuel s e) !! j = Some u →
  (j = i ∧ u = t') ∨ (j ≠ i ∧ ts !! j = Some u) ∨ (j = length ts ∧ u ∈ spawned fuel s e).
Proof.
  intros Hi [Hj|[Hlen Hj]]%lookup_app_Some.
  - apply list_lookup_insert_Some in Hj as [(-> & -> & _)|[Hne Hj]]; auto.
  - rewrite length_insert in *. right. right. split; [|by eapply list_elem_of_lookup_2].
    apply lookup_lt_Some in Hj. pose proof (spawned_one fuel s e). lia.
Qed.
Lemma spawned_fresh fuel s e u :
  u ∈ spawned fuel s e → ∃ o input, u = Worker o input [] (run fuel o input) ∧ owners s !! o = None.
Proof.
  destruct e as [a b]. destruct a; simpl; try by intros ?%elem_of_nil.
  destruct b as [o|]; [|by intros ?%elem_of_nil].
  destruct (owners s !! o) eqn:Ho; simpl; [by intros ?%elem_of_nil|].
  intros ->%list_elem_of_singleton. eauto.
Qed.
Lemma spawned_exists fuel s e s' u o :
  did s e s' → u ∈ spawned fuel s e → task u = Some o → is_Some (owners s' !! o).
Proof.
  destruct e as [a b]. destruct a; simpl; try by intros _ ?%elem_of_nil.
  destruct b as [o'|]; [|by intros _ ?%elem_of_nil].
  destruct (owners s !! o') eqn:Ho; simpl; [by intros _ ?%elem_of_nil|].
  intros (new & r & Hn & Hj & Hb) ->%list_elem_of_singleton [= <-]. unfold join_or_insert in Hj.
  repeat case_match; simplify_eq; simpl in *; simplify_eq. rewrite lookup_insert_eq. eauto.
Qed.
Lemma run_thread_ok fuel s o input : thread_ok s (Worker o input [] (run fuel o input)).
Proof. split; [by apply run_spec|done]. Qed.

(** A task that acts is the only task of its owner. *)
Lemma call_others s t e t' s' u o :
  thread_ok s t → acts t e t' → did s e s' → task u = Some o → task t ≠ Some o →
  keeps_owner (λ w w', native w → native w') s s' o.
Proof.
  intros Ht Ha He Hu Hne. pose proof (thread_ok_may _ _ _ _ Ht Ha) as Hm.
  destruct e as [a b]. eapply effect_native; [exact He|]. intros Hp.
  destruct t as [o' i h p|o' h p|q h p]; simpl in Hm, Hne; destruct a; simpl in Hp, Hm; try done;
    congruence.
Qed.

Abbreviation cfg s ts := {| shared := s; threads := ts |}.

Definition has_worker (ts : list Thread) (o : OwnerId) : Prop :=
  ∃ i input h p, ts !! i = Some (Worker o input h p).
Lemma retired_stays s s' ts ts' o :
  keeps_owner own_le s s' o → (has_worker ts' o → has_worker ts o) →
  retired (cfg s ts) o → retired (cfg s' ts') o.
Proof.
  intros Hk Hw [H|H]; [left; eapply owner_is_le; eauto|right].
  intros i input h p Hi. destruct (Hw ltac:(repeat eexists; exact Hi)) as (j & ? & ? & ? & Hj).
  by eapply H.
Qed.
Lemma acts_worker t e t' o input h p :
  acts t e t' → t' = Worker o input h p → ∃ h0 p0, t = Worker o input h0 p0.
Proof.
  destruct t as [o' i h0 [r| |a' k']|o' h0 [r| |a' k']|q h0 [r| |a' k']]; simpl; try done;
    intros (b & _ & ->) [= <- <- _ _]; eauto.
Qed.
(** Workers of an owner that was there before come from its workers. *)
Lemma call_workers s ts i t e t' fuel o :
  ts !! i = Some t → acts t e t' → is_Some (owners s !! o) →
  has_worker (<[i := t']> ts ++ spawned fuel s e) o → has_worker ts o.
Proof.
  intros Hi Ha [w Hw] (j & input & h & p & Hj).
  destruct (threads_updated _ _ _ _ _ _ _ _ _ Hi Hj) as [[-> Hu]|[[_ Hu]|[_ Hu]]].
  - destruct (acts_worker _ _ _ _ _ _ _ Ha (eq_sym Hu)) as (h0 & p0 & ->). by repeat eexists.
  - by repeat eexists.
  - apply spawned_fresh in Hu as (o' & input' & [= <- _ _ _] & Hn). congruence.
Qed.

(** An owner that left the table did so when it was over. *)
Lemma removed_retired s ts i t e t' s' fuel o :
  system_inv (cfg s ts) → ts !! i = Some t → acts t e t' → did s e s' →
  is_Some (owners s !! o) → thread_may t e → (∃ b, e = Did (OwnersRemove o) b) →
  retired (cfg s' (<[i := t']> ts ++ spawned fuel s e)) o.
Proof.
  intros Hinv Hi Ha He Ho Hm [b ->]. eapply retired_stays;
    [exact (effect_own_le _ _ _ _ _ He)|by eapply call_workers|].
  pose proof (sy_threads _ Hinv _ _ Hi) as Ht.
  destruct t as [o' input h p|o' h p|q h p]; simpl in Hm.
  - done.
  - subst o'. right. intros j input h' p' Hj.
    assert (j = i) as -> by (eapply (sy_unique _ Hinv _ _ _ _ o); eauto). simpl in Hj. congruence.
  - left. by apply Ht.
Qed.

Lemma call_inv s ts i t e t' s' fuel :
  system_inv (cfg s ts) → ts !! i = Some t → acts t e t' → did s e s' →
  system_inv (cfg s' (<[i := t']> ts ++ spawned fuel s e)).
Proof.
  intros Hinv Hi Ha He. pose proof (sy_threads _ Hinv _ _ Hi) as Ht. simpl in Ht.
  assert (∀ o, keeps_owner own_le s s' o) as Hk by (intros o; destruct e; by eapply effect_own_le).
  assert (∀ j u, u ∈ spawned fuel s e → ∀ o, task u = Some o → ∀ v, ts !! j = Some v → task v ≠ Some o) as Hf.
  { intros j u (o' & input & -> & Hn)%spawned_fresh o [= <-] v Hv Htv.
    destruct (sy_task _ Hinv _ _ _ Hv Htv) as [w Hw]. simpl in Hw. congruence. }
  pose proof (acts_task _ _ _ Ha) as Htask. split; simpl.
  - intros j u [[-> ->]|[[Hne Hj]|[_ Hu]]]%(threads_updated _ _ _ _ _ _ _ _ _ Hi).
    + by eapply thread_ok_step.
    + eapply thread_ok_stays; [done| |by eapply (sy_threads _ Hinv)]. intros o Ho.
      eapply call_others; eauto. intros Hto. destruct Hne. by eapply (sy_unique _ Hinv).
    + apply spawned_fresh in Hu as (o & input & -> & _). apply run_thread_ok.
  - intros j u o [[-> ->]|[[Hne Hj]|[_ Hu]]]%(threads_updated _ _ _ _ _ _ _ _ _ Hi) Ho;
      [rewrite Htask in Ho| |by eapply spawned_exists];
      (edestruct (sy_task _ Hinv) as [w Hw]; [by eauto..|]); destruct (Hk o w Hw) as (w' & Hw' & _); eauto.
  - intros j j' u u' o Hj Hj' Hu Hu'.
    apply (threads_updated _ _ _ _ _ _ _ _ _ Hi) in Hj as [[-> ->]|[[Hne Hj]|[Hlen Hj]]];
    apply (threads_updated _ _ _ _ _ _ _ _ _ Hi) in Hj' as [[-> ->]|[[Hne' Hj']|[Hlen' Hj']]];
      rewrite ?Htask in *; try done;
      try (by eapply (sy_unique _ Hinv)); try (exfalso; by eapply Hf).
    congruence.
  - intros o w Hw Hreg. destruct (owners s !! o) as [w0|] eqn:Hw0;
      [|destruct e; destruct Hreg; by eapply effect_new].
    destruct (Hk o w0 Hw0) as (w' & Hw' & Hin & _). rewrite Hw in Hw'. injection Hw' as <-.
    destruct (decide (registered s o w0)) as [Hr|Hr].
    + destruct e as [a b]. destruct (effect_table _ _ _ _ _ _ He Hr) as [Hr'| ->].
      * destruct Hreg. unfold registered. by rewrite Hin.
      * eapply removed_retired; eauto. by eapply thread_ok_may.
    + eapply retired_stays; [done|by eapply call_workers|]. by eapply (sy_table _ Hinv).
Qed.

(** Outside a call: a poisoned lock, a new request, the end of a task. *)
Lemma outside_inv s s' ts :
  system_inv (cfg s ts) → locked (table s') = locked (table s) →
  (∀ o, keeps_owner (λ w w', own_le w w' ∧ (native w → native w')) s s' o) →
  (∀ o w', owners s' !! o = Some w' → is_Some (owners s !! o)) →
  system_inv (cfg s' ts).
Proof.
  intros Hinv Ht Hk Hd.
  assert (∀ o, keeps_owner own_le s s' o) as Hle
    by (intros o w Hw; destruct (Hk o w Hw) as (w' & ? & ? & _); eauto).
  split; simpl; [|..|by apply (sy_unique _ Hinv)|].
  - intros i t Hi. eapply thread_ok_stays; [done| |by eapply (sy_threads _ Hinv)].
    intros o _ w Hw. destruct (Hk o w Hw) as (w' & ? & _ & ?). eauto.
  - intros i t o Hi Ho. destruct (sy_task _ Hinv _ _ _ Hi Ho) as [w Hw].
    destruct (Hk o w Hw) as (w' & ? & _). eauto.
  - intros o w' Hw' Hr. destruct (Hd o w' Hw') as [w Hw].
    destruct (Hk o w Hw) as (w1 & Hw1 & [Hin _] & _). rewrite Hw' in Hw1. injection Hw1 as <-.
    eapply retired_stays; [done|done|]. eapply (sy_table _ Hinv); [exact Hw|].
    intros Hr'. apply Hr. unfold registered in *. simpl in Hr'. by rewrite Ht, Hin.
Qed.
Lemma alter_outside_inv s ts o f :
  system_inv (cfg s ts) → (∀ w, own_le w (f w) ∧ (native w → native (f w))) →
  system_inv (cfg (alter_owner o f s) ts).
Proof.
  intros Hinv Hf. eapply outside_inv; [done|done|..].
  - intros o'. apply alter_owner_keeps; [by split|by intros _].
  - simpl. intros o' w'. rewrite lookup_alter_Some. naive_solver.
Qed.

(** A task becomes its observer. *)
Lemma settled_inv s ts i o input h p q :
  system_inv (cfg s ts) → ts !! i = Some (Worker o input h p) →
  spec (settler_may o) (λ _ _, True) q [] →
  system_inv (cfg s (<[i := Settler o [] q]> ts)).
Proof.
  intros Hinv Hi Hq.
  assert (∀ j u, <[i := Settler o [] q]> ts !! j = Some u →
            (j = i ∧ u = Settler o [] q) ∨ ts !! j = Some u) as Hl.
  { intros j u [(-> & -> & _)|[_ Hj]]%list_lookup_insert_Some; auto. }
  assert (∀ j u, <[i := Settler o [] q]> ts !! j = Some u →
            ∃ u', ts !! j = Some u' ∧ task u' = task u) as Ht.
  { intros j u [[-> ->]|Hj]%Hl; eauto. }
  split; simpl.
  - intros j u [[-> ->]|Hj]%Hl; [done|by eapply (sy_threads _ Hinv)].
  - intros j u o' (u' & Hj & Hu)%Ht Ho. eapply (sy_task _ Hinv); [exact Hj|]. congruence.
  - intros j j' u u' o' (v & Hj & Hv)%Ht (v' & Hj' & Hv')%Ht Ho Ho'.
    eapply (sy_unique _ Hinv _ _ v v' o'); simpl; congruence.
  - intros o' w Hw Hr. eapply retired_stays; [| |by eapply (sy_table _ Hinv)]; [intros w0 ?; eauto|].
    intros (j & ? & ? & ? & [[_ ?]|Hj]%Hl); [done|by repeat eexists].
Qed.
Lemma request_inv s ts q p :
  system_inv (cfg s ts) → spec client_may (λ _ _, True) p [] →
  system_inv (cfg s (ts ++ [Client q [] p])).
Proof.
  intros Hinv Hp.
  assert (∀ j u, (ts ++ [Client q [] p]) !! j = Some u → ts !! j = Some u ∨ u = Client q [] p) as Hl.
  { intros j u [Hj|[_ Hj]]%lookup_app_Some; [by left|right].
    destruct (j - length ts); [by injection Hj|done]. }
  split; simpl.
  - intros j u [Hj| ->]%Hl; [by eapply (sy_threads _ Hinv)|]. split; [done|].
    intros o. split; [by intros ?%elem_of_nil|]. intros (h' & [l Hl'] & _). by destruct l.
  - intros j u o [Hj| ->]%Hl Ho; [by eapply (sy_task _ Hinv)|done].
  - intros j j' u u' o [Hj| ->]%Hl [Hj'| ->]%Hl Ho Ho'; try done. by eapply (sy_unique _ Hinv).
  - intros o w Hw Hr. eapply retired_stays; [| |by eapply (sy_table _ Hinv)]; [intros w0 ?; eauto|].
    intros (j & ? & ? & ? & [Hj|?]%Hl); [by repeat eexists|done].
Qed.

Lemma spec_weaken {R} (ok ok' : list Event → Action → Prop) (Q : R → list Event → Prop) p h :
  (∀ h a, ok h a → ok' h a) → spec ok Q p h → spec ok' Q p h.
Proof.
  intros Hok. revert h. induction p as [r| |a k IH]; intros h; simpl; [done|done|].
  intros [Ha Hk]. split; [auto|]. intros b. apply IH, Hk.
Qed.
Lemma settle_finished_may o r h : spec (settler_may o) (λ _ _, True) (settle_finished o r) h.
Proof. unfold settle_finished, execution_finished. spec_steps; done. Qed.
Lemma settle_panicked_may fuel o input error h :
  spec (settler_may o) (λ _ _, True) (settle_panicked fuel o input error) h.
Proof.
  eapply spec_weaken; [|apply settle_panicked_spec]. intros h' []; simpl; done.
Qed.

Section reach.
Context (process : Process) (config : CoordinatorConfig).

Lemma step_inv c c' : step process config c c' → system_inv c → system_inv c'.
Proof.
  destruct 1 as [s ts q|s ts i t e t' s' fuel Hi Ha He|s ts i o input h r Hi
    |s ts i o input h p fuel error Hi|s ts|s ts o|s ts o]; intros Hinv.
  - apply request_inv; [done|]. eapply spec_weaken; [|apply serve_spec]. by intros h [].
  - by eapply call_inv.
  - eapply settled_inv; [done..|]. apply settle_finished_may.
  - eapply settled_inv; [done..|]. apply settle_panicked_may.
  - eapply outside_inv; [done|done|..|done]. intros o w Hw. eauto.
  - apply alter_outside_inv; [done|]. intros w. split; [|done]. by split_and!.
  - apply alter_outside_inv; [done|]. intros w. split; [|done]. by split_and!.
Qed.
Lemma reachable_inv c : reachable process config c → system_inv c.
Proof.
  intros H. refine (rtc_ind_r (λ c, system_inv c) _ _ _ c H).
  - split; simpl; try done; try by intros ?; rewrite lookup_nil.
  - intros c1 c2 _ Hs Hi. by eapply step_inv.
Qed.

(** A native start in progress is never one of a retired owner. *)
Lemma retired_not_starting c o : system_inv c → retired c o → ¬ starting c o.
Proof.
  intros Hinv Hr (i & input & h & t & k & Hi). destruct Hr as [(w & Hw & _ & Hd)|Hr]; [|by eapply Hr].
  destruct (sy_threads _ Hinv _ _ Hi) as [[Hm _] Hn]. destruct Hm as (_ & _ & _ & row & Hrow & _).
  destruct Hn as (w' & Hw' & _ & Hd'); [|congruence].
  destruct h as [|[[] b] h]; try done. simpl in Hrow |- *. destruct b as [[]|]; try done.
  destruct h as [|[[] b'] h]; try done. destruct b' as [[]|]; try done.
  by case_bool_decide.
Qed.
Lemma retired_step c c' o :
  step process config c c' → is_Some (owners (shared c) !! o) → retired c o →
  is_Some (owners (shared c') !! o) ∧ retired c' o.
Proof.
  assert (∀ s s', keeps_owner own_le s s' o → is_Some (owners s !! o) → is_Some (owners s' !! o)) as Hsome.
  { intros s s' Hk [w Hw]. destruct (Hk w Hw) as (w' & ? & _). eauto. }
  assert (∀ s, keeps_owner own_le s s o) as Hrefl by (intros s w Hw; eauto).
  destruct 1 as [s ts q|s ts i t e t' s' fuel Hi Ha He|s ts i o' input h r Hi
    |s ts i o' input h p fuel error Hi|s ts|s ts o'|s ts o']; simpl; intros Ho Hr.
  - split; [done|]. eapply retired_stays; [done| |done].
    intros (j & ? & ? & ? & [Hj|[_ Hj]]%lookup_app_Some); [by repeat eexists|].
    by destruct (j - length ts).
  - assert (keeps_owner own_le s s' o) as Hk by (destruct e; by eapply effect_own_le).
    split; [by eauto|]. eapply retired_stays; [done|by eapply call_workers|done].
  - split; [done|]. eapply retired_stays; [done| |done].
    intros (j & ? & ? & ? & [(_ & ? & _)|[_ Hj]]%list_lookup_insert_Some); [done|by repeat eexists].
  - split; [done|]. eapply retired_stays; [done| |done].
    intros (j & ? & ? & ? & [(_ & ? & _)|[_ Hj]]%list_lookup_insert_Some); [done|by repeat eexists].
  - split; [done|]. by eapply retired_stays; [|done|].
  - assert (keeps_owner own_le s (alter_owner o' poison_phase s) o) as Hk
      by by apply alter_owner_keeps.
    split; [exact (Hsome _ _ Hk Ho)|]. by eapply retired_stays; [|done|].
  - assert (keeps_owner own_le s (alter_owner o' poison_admitted s) o) as Hk
      by by apply alter_owner_keeps.
    split; [exact (Hsome _ _ Hk Ho)|]. by eapply retired_stays; [|done|].
Qed.
Lemma retired_forever c c' o :
  rtc (step process config) c c' → system_inv c → is_Some (owners (shared c) !! o) → retired c o →
  ¬ starting c' o.
Proof.
  induction 1 as [c|c c1 c' Hs _ IH]; intros Hinv Ho Hr; [by apply retired_not_starting|].
  destruct (retired_step _ _ _ Hs Ho Hr). by apply IH; [eapply step_inv|..].
Qed.
End reach.
