(* ===== verification/CoordPorts.v ===== *)
(** * The search for another port and the base path of a preview

    The pool is a ring; the search walks it once.  A normalised base path is
    left alone by a second normalisation. *)
From S2P Require Import Prelude Validation WorkDir PreviewModel CoordProg CoordStartup.
From Stdlib Require Import Ascii.
Import Text Preview Coord Startup.
Local Open Scope Z_scope.

(** ** The ring of ports *)

Definition pool_size : Z := 50000.
Definition position (p : Z) : Z := if p <? 8000 then p - 4000 else p - 5001.
(** How many steps from one port to another. *)
Definition ahead (p q : Z) : Z :=
  if position p <=? position q then position q - position p
  else position q - position p + pool_size.

Lemma is_preview_port_true p :
  is_preview_port p = true ↔ 4000 ≤ p ≤ 7999 ∨ 9001 ≤ p ≤ 55000.
Proof.
  unfold is_preview_port, PREVIEW_PORT_MIN, PREVIEW_PORT_MAX, PREVIEW_PORT_RESERVED_MIN,
    PREVIEW_PORT_RESERVED_MAX. lia.
Qed.
Ltac ring_lia := unfold ahead, position, pool_size in *; repeat case_match; lia.

Lemma next_candidate_pool p : is_preview_port p = true → is_preview_port (next_candidate p) = true.
Proof.
  unfold next_candidate, PREVIEW_PORT_MIN, PREVIEW_PORT_MAX, PREVIEW_PORT_RESERVED_MIN,
    PREVIEW_PORT_RESERVED_MAX. rewrite !is_preview_port_true. ring_lia.
Qed.
Lemma next_candidate_ahead p q :
  is_preview_port p = true → is_preview_port q = true →
  ahead p (next_candidate q) = if ahead p q + 1 =? pool_size then 0 else ahead p q + 1.
Proof.
  unfold next_candidate, PREVIEW_PORT_MIN, PREVIEW_PORT_MAX, PREVIEW_PORT_RESERVED_MIN,
    PREVIEW_PORT_RESERVED_MAX. rewrite !is_preview_port_true. ring_lia.
Qed.
Lemma ahead_bounds p q :
  is_preview_port p = true → is_preview_port q = true → 0 ≤ ahead p q < pool_size.
Proof. rewrite !is_preview_port_true. ring_lia. Qed.
Lemma ahead_inj p q q' :
  is_preview_port p = true → is_preview_port q = true → is_preview_port q' = true →
  ahead p q = ahead p q' → q = q'.
Proof. rewrite !is_preview_port_true. ring_lia. Qed.
Lemma ahead_self p : ahead p p = 0.
Proof. ring_lia. Qed.
Lemma ahead_chain p q r :
  is_preview_port p = true → is_preview_port q = true → is_preview_port r = true →
  ahead p q ≤ ahead p r → ahead q r = ahead p r - ahead p q.
Proof. rewrite !is_preview_port_true. ring_lia. Qed.
Lemma ahead_back p q :
  is_preview_port p = true → is_preview_port q = true → p ≠ q →
  ahead q p = pool_size - ahead p q.
Proof. rewrite !is_preview_port_true. ring_lia. Qed.

(** ** The search *)

Definition exhausted : PreviewCoordinationError := unavailable "preview port pool exhausted".
(** The first free port after [previous], or none. *)
Definition search_result (occupied : list Z) (previous : Z)
    (r : option (result Z PreviewCoordinationError)) : Prop :=
  match r with
  | Some (Ok q) =>
      is_preview_port q = true ∧ (q ∉ occupied) ∧ q ≠ previous
      ∧ ∀ p, is_preview_port p = true → p ≠ previous →
           (ahead previous p < ahead previous q)%Z → p ∈ occupied
  | Some (Err e) =>
      e = exhausted ∧ ∀ p, is_preview_port p = true → p ≠ previous → p ∈ occupied
  | None => False
  end.

Lemma search_port_from fuel occupied previous next :
  is_preview_port previous = true → is_preview_port next = true → next ≠ previous →
  (∀ p, is_preview_port p = true → p ≠ previous → ahead previous p < ahead previous next → p ∈ occupied) →
  pool_size ≤ Z.of_nat fuel + ahead previous next →
  search_result occupied previous (search_port fuel occupied previous next).
Proof.
  intros Hp. revert next. induction fuel as [|fuel IH]; intros next Hn Hne Hall Hf; simpl;
    destruct (decide (next ∈ occupied)) as [Hin|Hin];
    rewrite ?bool_decide_true, ?bool_decide_false by done; simpl; auto.
  - pose proof (ahead_bounds _ _ Hp Hn). lia.
  - pose proof (next_candidate_ahead _ _ Hp Hn) as Ha.
    pose proof (next_candidate_pool _ Hn) as Hn'. pose proof (ahead_self previous) as H0.
    assert (∀ p, is_preview_port p = true → p ≠ previous →
              ahead previous p < ahead previous next + 1 → p ∈ occupied) as Hall'.
    { intros p Hpp Hpn Hlt. destruct (decide (ahead previous p = ahead previous next)) as [Heq|Hneq].
      - by rewrite (ahead_inj _ _ _ Hp Hpp Hn Heq).
      - apply Hall; [done..|lia]. }
    destruct (Z.eqb_spec (next_candidate next) previous) as [Heq|Hneq].
    + split; [done|]. intros p Hpp Hpn. apply Hall'; [done..|].
      pose proof (ahead_bounds _ _ Hp Hpp). rewrite Heq, H0 in Ha.
      destruct (Z.eqb_spec (ahead previous next + 1) pool_size); [lia|].
      pose proof (ahead_bounds _ _ Hp Hn). lia.
    + destruct (Z.eqb_spec (ahead previous next + 1) pool_size) as [He|He].
      * destruct Hneq. apply (ahead_inj previous); [done..|]. lia.
      * apply IH; [done|done| |lia]. intros p Hpp Hpn Hlt. apply Hall'; [done..|lia].
Qed.
(** With as many rounds as the pool has ports the search ends, and its answer
    is exact. *)
Lemma search_port_correct fuel occupied previous :
  is_preview_port previous = true → pool_size ≤ Z.of_nat fuel →
  search_result occupied previous (search_port fuel occupied previous (next_candidate previous)).
Proof.
  intros Hp Hf. pose proof (next_candidate_ahead _ _ Hp Hp) as Ha. rewrite ahead_self in Ha.
  change (0 + 1 =? pool_size) with false in Ha. cbv iota in Ha.
  apply search_port_from; [done|by apply next_candidate_pool|..|lia].
  - intros Heq. rewrite Heq, ahead_self in Ha. lia.
  - intros p Hpp Hne Hlt. destruct Hne. apply (ahead_inj previous); [done..|].
    pose proof (ahead_bounds _ _ Hp Hpp). rewrite ahead_self. lia.
Qed.

(** ** Base paths *)

Lemma skip_slashes_head s : match skip_slashes s with c :: _ => c ≠ slash | [] => True end.
Proof.
  induction s as [|c s IH]; simpl; [done|]. destruct (Ascii.eqb_spec c slash); [done|done].
Qed.
Lemma skip_slashes_keep c s : c ≠ slash → skip_slashes (c :: s) = c :: s.
Proof. intros H. simpl. by destruct (Ascii.eqb_spec c slash). Qed.

(** What a normalised path looks like between its slashes. *)
Definition segment (s : Bytes) : Prop := s ≠ [] ∧ last s ≠ Some slash.
Lemma trim_end_segment s : trim_end_slashes s ≠ [] → segment (trim_end_slashes s).
Proof.
  intros H. split; [done|]. unfold trim_end_slashes in *. pose proof (skip_slashes_head (reverse s)) as Hh.
  destruct (skip_slashes (reverse s)) as [|c l]; [done|]. rewrite reverse_cons, last_snoc. congruence.
Qed.
Lemma trim_end_of_segment s : segment s → trim_end_slashes (s ++ [slash]) = s.
Proof.
  intros [Hn Hl]. unfold trim_end_slashes. rewrite reverse_app. simpl.
  destruct s as [|x s _] using rev_ind; [done|]. rewrite last_snoc in Hl. rewrite reverse_snoc.
  rewrite skip_slashes_keep by congruence. by rewrite reverse_cons, reverse_involutive.
Qed.
Lemma trim_end_head c s : c ≠ slash → trim_end_slashes (c :: s) ≠ [].
Proof.
  intros Hc. unfold trim_end_slashes. rewrite reverse_cons. intros H.
  assert (skip_slashes (reverse s ++ [c]) = []) as He.
  { rewrite <- (reverse_involutive (skip_slashes _)), H. done. }
  clear H. induction (reverse s) as [|x l IH]; simpl in He; [by destruct (Ascii.eqb_spec c slash)|].
  destruct (Ascii.eqb_spec x slash); [auto|done].
Qed.
Lemma normalize_bytes_shape b :
  normalize_bytes b = [slash] ∨ ∃ s, segment s ∧ normalize_bytes b = slash :: s ++ [slash].
Proof.
  unfold normalize_bytes. destruct (trim b) as [|c l]; [by left|]. unfold strip_prefix. simpl.
  destruct (decide (slash = c)) as [->|Hne].
  - rewrite bool_decide_true by done. simpl. rewrite drop_0.
    destruct (trim_end_slashes l) as [|x s] eqn:Hs; [by left|]. right. exists (x :: s).
    split; [|done]. rewrite <- Hs. apply trim_end_segment. by rewrite Hs.
  - rewrite bool_decide_false by done. simpl. right. eexists. split; [|done].
    by apply trim_end_segment, trim_end_head, not_eq_sym.
Qed.

Lemma trim_slashes s : trim (slash :: s ++ [slash]) = slash :: s ++ [slash].
Proof.
  assert (∀ l, trim_front (slash :: l) = slash :: l) as Hf by (by intros [|b [|c l]]).
  assert (∀ l, skip_white white1 (λ b a, white2 a b) (λ c b a, white3 a b c) (slash :: l) = slash :: l)
    as Hb.
  { assert (∀ x, white2 x slash = false) as H2 by (intros x; unfold white2; simpl; apply andb_false_r).
    assert (∀ x y, white3 x y slash = false) as H3.
    { intros x y. unfold white3. simpl. by rewrite !andb_false_r. }
    intros [|b [|c l]]; simpl; [done|by rewrite H2|by rewrite H2, H3]. }
  unfold trim. rewrite Hf. unfold trim_back.
  replace (reverse (slash :: s ++ [slash])) with (slash :: reverse s ++ [slash])
    by (by rewrite reverse_cons, reverse_app).
  rewrite Hb, reverse_cons, reverse_app, reverse_involutive. done.
Qed.
Lemma normalize_base_path_idem b :
  normalize_base_path (normalize_base_path b) = normalize_base_path b.
Proof.
  unfold normalize_base_path at 1 3. f_equal. unfold normalize_base_path, bytes.
  rewrite String.list_ascii_of_string_of_list_ascii.
  destruct (normalize_bytes_shape (String.list_ascii_of_string b)) as [-> |(s & Hs & ->)]; [done|].
  unfold normalize_bytes. rewrite trim_slashes. unfold strip_prefix. simpl. rewrite drop_0.
  rewrite trim_end_of_segment by done. destruct Hs as [Hs _]. by destruct s.
Qed.
