(* ===== verification/CoordReady.v ===== *)
(** * A startup on a quiet host reaches its end

    The startup task against the store in memory, with nobody else acting: an
    executor that reports the ports other programs use as taken, and an owner
    nobody stops. *)
From S2P Require Import Prelude Ordered Validation PreviewModel PreviewMemory PreviewSafety CoordProg CoordStartup CoordTrace CoordPorts.
Import Text Preview Coord Runs Startup.
Local Open Scope rust_scope.
Local Open Scope prog_scope.

(** ** The surroundings *)

Record World := {
  wd_store : Memory.State;
  wd_owner : OwnedStartAttempt;
  wd_busy : list Z;
  wd_pid : Z;
  wd_now : Z;
}.
Definition on_store (s : Memory.State) (w : World) : World :=
  {| wd_store := s; wd_owner := wd_owner w; wd_busy := wd_busy w; wd_pid := wd_pid w; wd_now := wd_now w |}.
Definition on_world_owner (x : OwnedStartAttempt) (w : World) : World :=
  {| wd_store := wd_store w; wd_owner := x; wd_busy := wd_busy w; wd_pid := wd_pid w; wd_now := wd_now w |}.

Definition in_store {A} (m : M Memory.State PreviewStoreError A) (w : World)
    : result A StoreFailure * World :=
  let '(r, s) := m (wd_store w) in (map_err (λ e, (e, EmptyString)) r, on_store s w).
Definition in_owner {A} (m : OwnM A) (w : World) : result A PreviewCoordinationError * World :=
  let '(r, x) := m (wd_owner w) in (r, on_world_owner x w).

(** An answer to every call. *)
Definition no_store {A} : result A StoreFailure := Err (Unavailable, EmptyString).
Definition no_executor {A} : result A PreviewExecutorError := Err (ExFailed EmptyString).
Fixpoint any (a : Action) : Answer a :=
  match a return Answer a with
  | AcceptStart _ => no_store
  | RetryStartPort _ | PublishRunning _ _ _ _ _ _ | AcceptStop _ _ | MarkStopped _ _ _
  | MarkFailed _ _ _ _ | MarkUnknown _ _ _ | ResolveUnknownStopped _ _ _ => no_store
  | RefreshHeartbeat _ _ | GetInstance _ | FindActiveByPort _ => no_store
  | FlushActivity _ | ActivePorts | ListByHost _ _ | ListActive | ReconcileHostReboot _ _ => no_store
  | StartLocal _ | StopLocal _ _ | VerifyLocal _ _ | RegistrationMatches _ _ | ReadLogLocal _ _ _ =>
      no_executor
  | HostPodExists _ => true
  | RemoteStop _ _ _ _ _ | RemoteVerify _ _ _ _ | RemoteLog _ _ _ _ => Err EmptyString
  | StartOwned _ | OwnersGet _ _ | OwnersProject _ => Err registry_unavailable
  | Cancel _ | SetAdmitted _ _ | NativeIdle _ | WaitExecution _ | AdmittedRow _ | BeginNative _
  | WaitResult _ => Err registry_unavailable
  | Cancelled _ => false
  | CacheGet _ => None
  | ActivityDrain => []
  | UtcNow => 0%Z
  | NewId => EmptyString
  | OwnersRemove _ | FinishPhase _ | SignalDone _ | SendResult _ _ | CachePositive _ _
  | CacheNegative _ | CacheInvalidate _ | ActivityRecord _ _ _ | Sleep => tt
  | Within a => Some (any a)
  end.

Definition host_serve (a : Action) : World → Answer a * World :=
  match a return World → Answer a * World with
  | AcceptStart input => λ w, in_store (Memory.accept_start (wd_now w) input) w
  | RetryStartPort input => λ w, in_store (Memory.retry_start_port (wd_now w) input) w
  | PublishRunning key op rev p prt base => λ w,
      in_store (Memory.publish_running (wd_now w) key op rev p prt base) w
  | MarkStopped key op rev => λ w, in_store (Memory.mark_stopped (wd_now w) key op rev) w
  | MarkFailed key inst rev why => λ w, in_store (Memory.mark_failed (wd_now w) key inst rev why) w
  | ResolveUnknownStopped key inst evidence => λ w,
      in_store (Memory.resolve_unknown_stopped (wd_now w) key inst evidence) w
  | GetInstance key => λ w, in_store (Memory.get key) w
  | ActivePorts => λ w, in_store Memory.active_ports w
  | StartLocal t => λ w,
      (if bool_decide (tk_port t ∈ wd_busy w) then Err (ExPortInUse "EADDRINUSE")
       else Ok (wd_pid w, tk_port t), w)
  | StopLocal _ _ => λ w, (Ok ExNotRegistered, w)
  | Cancel _ => in_owner cancel
  | Cancelled _ => λ w, (ow_cancelled (wd_owner w), w)
  | SetAdmitted _ row => in_owner (set_admitted row)
  | AdmittedRow _ => in_owner admitted_row
  | BeginNative _ => in_owner begin_native
  | NativeIdle _ => in_owner native_idle
  | FinishPhase _ => λ w, (tt, on_world_owner (finish_phase (wd_owner w)) w)
  | SignalDone _ => λ w, (tt, on_world_owner (on_done true (wd_owner w)) w)
  | SendResult _ r => λ w, (tt, on_world_owner (on_result (Some r) (wd_owner w)) w)
  | a => λ w, (any a, w)
  end.

(** ** A record whose start goes on *)

(** An owner nobody stopped. *)
Definition undisturbed (x : OwnedStartAttempt) : Prop :=
  ow_cancelled x = false ∧ poisoned (ow_phase x) = false ∧ poisoned (ow_admitted x) = false.
Definition start_inflight (s : Memory.State) (r : PreviewInstanceRecord) : Prop :=
  ∃ o, Memory.operations s !! operation_id r = Some o ∧ po_kind o = OpStart
    ∧ po_preview_key o = preview_key r ∧ po_operation_id o = operation_id r
    ∧ po_allocated_port o = port r ∧ po_state o = Accepted.
Record under_way (s : Memory.State) (r : PreviewInstanceRecord) (prt : Z) : Prop := {
  uw_inv : store_inv (Memory.instances s);
  uw_row : Memory.instances s !! preview_key r = Some r;
  uw_state : state r = Starting;
  uw_pid : pid r = None;
  uw_port : port r = Some prt;
  uw_op : start_inflight s r;
  uw_names : str_is_empty (preview_key r) = false ∧ str_is_empty (operation_id r) = false
             ∧ str_is_empty (instance_id r) = false;
  uw_base : ∀ b, base_path r = Some b → normalize_base_path b = b;
}.
(** Ports the other previews hold. *)
Definition others (s : Memory.State) (key : string) (p : Z) : Prop :=
  ∃ k r, k ≠ key ∧ Memory.instances s !! k = Some r ∧ holds_port r p.

Lemma under_way_pool s r prt : under_way s r prt → is_preview_port prt = true.
Proof.
  intros H. destruct (ri_port _ _ (si_rows _ (uw_inv _ _ _ H) _ _ (uw_row _ _ _ H))) as (p & Hp & Hpool).
  { by rewrite (uw_state _ _ _ H). }
  rewrite (uw_port _ _ _ H) in Hp. by injection Hp as <-.
Qed.
Lemma under_way_occupied s r prt p :
  under_way s r prt → p ∈ Memory.occupied_ports s ↔ p = prt ∨ others s (preview_key r) p.
Proof.
  intros H. unfold Memory.occupied_ports. rewrite list_elem_of_omap. split.
  - intros (x & [Ha (k & Hk)%elem_of_btree_values]%list_elem_of_filter & Hp).
    destruct (decide (k = preview_key r)) as [->|Hne].
    + rewrite (uw_row _ _ _ H) in Hk. injection Hk as <-. rewrite (uw_port _ _ _ H) in Hp. left. congruence.
    + right. by exists k, x.
  - intros [->|(k & x & _ & Hk & Ha & Hp)].
    + exists r. split; [|by apply (uw_port _ _ _ H)]. apply list_elem_of_filter.
      split; [by rewrite (uw_state _ _ _ H)|]. apply elem_of_btree_values. exists (preview_key r).
      apply (uw_row _ _ _ H).
    + exists x. split; [|done]. apply list_elem_of_filter. split; [done|]. apply elem_of_btree_values. eauto.
Qed.

(** ** The store's part *)

Definition retry_input (r : PreviewInstanceRecord) (prt q : Z) : PreviewStartPortRetry :=
  {| rt_preview_key := preview_key r; rt_operation_id := operation_id r;
     rt_instance_id := instance_id r; rt_revision := revision r;
     rt_previous_port := prt; rt_next_port := q |}.
Definition moved_row (now q : Z) (r : PreviewInstanceRecord) : PreviewInstanceRecord :=
  with_updated_at now (with_port (Some q) (with_revision (revision r + 1) r)).

Lemma apply_retry_under_way s r prt q now :
  under_way s r prt → is_preview_port q = true → q ≠ prt → (revision r + 1 ≤ i64_max)%Z →
  apply_start_port_retry (retry_input r prt q) now r = Ok (moved_row now q r, true).
Proof.
  intros H Hq Hne Hrev. pose proof (under_way_pool _ _ _ H) as Hp.
  destruct (uw_names _ _ _ H) as (Hk & Ho & Hi).
  pose proof (ri_revision _ _ (si_rows _ (uw_inv _ _ _ H) _ _ (uw_row _ _ _ H))) as Hge.
  unfold apply_start_port_retry, retry_input_valid, retry_input. simpl.
  rewrite Hk, Ho, Hi, Hp, Hq. simpl. rewrite (proj2 (Z.ltb_ge (revision r) 1)) by lia.
  rewrite (proj2 (Z.eqb_neq prt q)) by congruence. unfold i64_checked_succ. simpl.
  rewrite (proj2 (Z.leb_le (revision r + 1) i64_max)) by done. simpl.
  rewrite (uw_pid _ _ _ H), (uw_state _ _ _ H), !bool_decide_true by done. simpl.
  rewrite (proj2 (Z.eqb_neq (revision r) (revision r + 1))) by lia. simpl.
  rewrite Z.eqb_refl. unfold opt_is. rewrite bool_decide_true by apply (uw_port _ _ _ H). done.
Qed.

Lemma next_revision_kept evidence row o :
  Memory.next_revision evidence row = Ok (inl o) → ∀ r, o ≠ StartAdmitted r.
Proof.
  unfold Memory.next_revision. intros H r ->. repeat case_match; simplify_eq.
  all: unfold result_bind, ok_or in *; repeat case_match; simplify_eq.
Qed.
Lemma retry_under_way s r prt q now :
  under_way s r prt → is_preview_port q = true → q ∉ Memory.occupied_ports s →
  (revision r + 1 ≤ i64_max)%Z →
  ∃ s', Memory.retry_start_port now (retry_input r prt q) s = (Ok (moved_row now q r), s')
    ∧ under_way s' (moved_row now q r) q
    ∧ ∀ p, others s' (preview_key r) p ↔ others s (preview_key r) p.
Proof.
  intros H Hq Hfree Hrev.
  assert (q ≠ prt) as Hne.
  { intros ->. apply Hfree. apply (under_way_occupied s r prt prt H). by left. }
  destruct (uw_op _ _ _ H) as (op & Hop & Hkind & Hpk & Hpo & Hpa & Hps).
  assert (existsb (λ r0, is_active (state r0) && opt_is (port r0) q)
            (btree_values (Memory.instances s)) = false) as Hex.
  { apply not_true_iff_false. intros (x & Hx%list_elem_of_In & [Ha Hpx]%andb_true_iff)%existsb_exists.
    apply Hfree. unfold Memory.occupied_ports. apply list_elem_of_omap. exists x.
    apply opt_is_true in Hpx. split; [|done]. by apply list_elem_of_filter. }
  set (row := moved_row now q r).
  assert (Memory.retry_start_port now (retry_input r prt q) s
          = (Ok row, {| Memory.instances := <[preview_key r := row]> (Memory.instances s);
                        Memory.operations := <[operation_id r := Memory.op_moved (Some q) now op]>
                                               (Memory.operations s) |})) as Heq.
  { unfold Memory.retry_start_port, Memory.find_instance, mbind', mget, mlift. simpl.
    rewrite (uw_row _ _ _ H). simpl. rewrite (apply_retry_under_way s) by done. simpl.
    rewrite Hop. simpl. rewrite Hkind, Hpk, Hpo, Hpa, Hps, !bool_decide_true by done. simpl.
    by rewrite Hex. }
  eexists. split; [exact Heq|].
  pose proof (retry_start_port_keeps now (retry_input r prt q) s (uw_inv _ _ _ H)) as Hkeep.
  unfold wp in Hkeep. rewrite Heq in Hkeep. destruct Hkeep as [Hinv _]. split.
  - destruct H. split; simpl; try done; [by rewrite lookup_insert_eq|].
    exists (Memory.op_moved (Some q) now op). simpl. rewrite lookup_insert_eq. by split_and!.
  - intros p. split; intros (k & x & Hk & Hx & Hh); exists k, x; simpl in *.
    + rewrite lookup_insert_ne in Hx by congruence. done.
    + rewrite lookup_insert_ne by congruence. done.
Qed.

(** The record once its server is published. *)
Lemma publish_under_way s r prt base p now :
  under_way s r prt → (0 < p)%Z → (∀ b, base_path r = Some b → b = base) →
  ∃ row s', Memory.publish_running now (preview_key r) (operation_id r) (revision r) p prt (Some base) s
            = (Ok row, s')
    ∧ Memory.instances s' !! preview_key r = Some row ∧ state row = Ready ∧ pid row = Some p
    ∧ port row = Some prt ∧ instance_id row = instance_id r ∧ project_id row = project_id r
    ∧ store_inv (Memory.instances s')
    ∧ ∀ k, k ≠ preview_key r → Memory.instances s' !! k = Memory.instances s !! k.
Proof.
  intros H Hp Hb.
  assert (∃ row, apply_running_publication (operation_id r) (revision r) p prt (Some base) now r
                 = Ok (row, true)) as [row Hrow].
  { unfold apply_running_publication. rewrite bool_decide_true, Z.eqb_refl by done.
    unfold opt_is. rewrite bool_decide_true by apply (uw_port _ _ _ H).
    rewrite (proj2 (Z.ltb_lt 0 p)) by done. simpl. rewrite (uw_state _ _ _ H). simpl.
    destruct (base_path r) as [b|] eqn:Hbase; simpl; [|eauto].
    rewrite (Hb b eq_refl), bool_decide_true by done. simpl. eauto. }
  pose proof (apply_running_publication_ok _ _ _ _ _ _ _ _ _ Hrow)
    as (_ & _ & _ & _ & _ & _ & _ & Hi & _ & Hproj & _ & _ & _ & Hport & Hst & Hpid & _).
  pose proof (publish_running_keeps now (preview_key r) (operation_id r) (revision r) p prt (Some base) s
                (uw_inv _ _ _ H)) as Hkeep.
  unfold wp in Hkeep.
  assert (∃ s', Memory.publish_running now (preview_key r) (operation_id r) (revision r) p prt (Some base) s
                = (Ok row, s') ∧ Memory.instances s' = <[preview_key r := row]> (Memory.instances s))
    as (s' & Heq & Hs').
  { unfold Memory.publish_running, Memory.find_instance, mbind', mget, mlift. simpl.
    rewrite (uw_row _ _ _ H). simpl. rewrite Hrow. simpl. by eexists. }
  rewrite Heq in Hkeep. destruct Hkeep as [Hinv _]. exists row, s'. split_and!; try done.
  - by rewrite Hs', lookup_insert_eq.
  - rewrite Hport. apply (uw_port _ _ _ H).
  - intros k Hk. by rewrite Hs', lookup_insert_ne.
Qed.

(** The record an admission writes. *)
Lemma accept_under_way now input s r s' base :
  store_inv (Memory.instances s) → Memory.accept_start now input s = (Ok (StartAdmitted r), s') →
  str_is_empty (as_preview_key input) = false → str_is_empty (as_operation_id input) = false →
  str_is_empty (as_instance_id input) = false → as_base_path input = normalize_base_path <$> base →
  ∃ prt, under_way s' r prt ∧ preview_key r = as_preview_key input ∧ instance_id r = as_instance_id input.
Proof.
  intros Hs Ha Hk Ho Hi Hb.
  pose proof (accept_start_keeps now input s Hs) as Hkeep. unfold wp in Hkeep. rewrite Ha in Hkeep.
  destruct Hkeep as [Hinv _]. revert Ha. unfold Memory.accept_start, mbind', mget, mlift. simpl.
  destruct (Memory.next_revision _ _) as [[out|rev]|e] eqn:Hn; simpl; [|..|done].
  - intros [= -> ->]. by destruct (next_revision_kept _ _ _ Hn r).
  - destruct (Memory.choose_port _ _) as [prt|e]; simpl; [|done]. intros [= <- <-].
    exists prt. split; [|by split]. split; simpl in *; try done.
    + by rewrite lookup_insert_eq.
    + eexists. simpl. rewrite lookup_insert_eq. by split_and!.
    + intros b Hbase. rewrite Hb in Hbase. destruct base as [x|]; [|done]. injection Hbase as <-.
      apply normalize_base_path_idem.
Qed.

(** ** The owner's part *)

Section owner.
Context (x : OwnedStartAttempt) (Hx : undisturbed x).
Ltac own := destruct x as [? ? [] [] ? ?], Hx as (? & ? & ?); simpl in *; subst.

Lemma native_idle_undisturbed : ∃ x', native_idle x = (Ok tt, x') ∧ undisturbed x'.
Proof. own. eexists. by split. Qed.
Lemma set_admitted_undisturbed row : ∃ x', set_admitted row x = (Ok tt, x') ∧ undisturbed x'.
Proof. own. eexists. by split. Qed.
Lemma begin_native_undisturbed : ∃ x', begin_native x = (Ok true, x') ∧ undisturbed x'.
Proof. own. eexists. by split. Qed.
End owner.

(** ** The programs *)

Section programs.
Context (f : nat) (o : OwnerId).
Let fuel := S f.
Abbreviation go p w := (interp host_serve p w).

Lemma confirm_start_goes w r prt :
  undisturbed (wd_owner w) → under_way (wd_store w) r prt →
  go (confirm_start fuel o r) w = (Some (Ok tt), w).
Proof.
  intros (Hc & _) H. unfold confirm_start, fuel. rewrite interp_loop. simpl. rewrite Hc. simpl.
  unfold in_store, Memory.get, mgets. rewrite (uw_row _ _ _ H). simpl.
  rewrite !bool_decide_true, Z.eqb_refl by (done || apply H). rewrite (uw_pid _ _ _ H). simpl.
  by destruct w.
Qed.
Lemma admitted_goes w row :
  undisturbed (wd_owner w) →
  ∃ x, go (admitted o row) w = (Some (Ok tt), on_world_owner x w) ∧ undisturbed x.
Proof.
  intros Hx. destruct (set_admitted_undisturbed _ Hx row) as (x1 & H1 & Hx1).
  destruct (native_idle_undisturbed _ Hx1) as (x2 & H2 & Hx2). exists x2. split; [|done].
  unfold admitted. simpl. unfold in_owner at 1. rewrite H1. simpl. unfold in_owner. simpl. by rewrite H2.
Qed.

(** The published envelope and what the store has then. *)
Definition published (w : World) (r : PreviewInstanceRecord) (prt : Z)
    (out : option StartupResult * World) : Prop :=
  ∃ row, out.1 = Some (StartupReady (start_envelope row "Development server started"))
    ∧ Memory.instances (wd_store out.2) !! preview_key r = Some row
    ∧ state row = Ready ∧ pid row = Some (wd_pid w) ∧ port row = Some prt
    ∧ instance_id row = instance_id r ∧ project_id row = project_id r
    ∧ store_inv (Memory.instances (wd_store out.2)).

Lemma publish_goes w r prt :
  undisturbed (wd_owner w) → under_way (wd_store w) r prt → (0 < wd_pid w)%Z →
  published w r prt (go (publish fuel o r (wd_pid w) prt) w).
Proof.
  intros (Hc & _) H Hp.
  destruct (publish_under_way _ _ _ (match base_path r with
              | Some b => normalize_base_path b | None => default_base prt end) _ (wd_now w) H Hp)
    as (row & s' & Heq & Hrow & Hst & Hpid & Hport & Hi & Hproj & Hinv & _).
  { intros b Hb. rewrite Hb. symmetry. by apply (uw_base _ _ _ H). }
  unfold publish, fuel. rewrite interp_loop. cbn [pbind call interp host_serve]. rewrite Hc.
  cbn [pbind call interp host_serve]. unfold in_store. rewrite Heq. cbn [map_err]. simpl. rewrite Hc. simpl.
  exists row. by split_and!.
Qed.
Lemma retry_port_goes w r prt :
  undisturbed (wd_owner w) → under_way (wd_store w) r prt → (pool_size ≤ Z.of_nat fuel)%Z →
  (revision r + 1 ≤ i64_max)%Z →
  (∃ q, is_preview_port q = true ∧ q ∉ Memory.occupied_ports (wd_store w)) →
  ∃ q s', go (retry_port fuel o r) w = (Some (Ok (moved_row (wd_now w) q r)), on_store s' w)
    ∧ under_way s' (moved_row (wd_now w) q r) q
    ∧ search_result (Memory.occupied_ports (wd_store w)) prt (Some (Ok q))
    ∧ ∀ p, others s' (preview_key r) p ↔ others (wd_store w) (preview_key r) p.
Proof.
  intros (Hc & _) H Hf Hrev (q0 & Hq0 & Hfree0).
  pose proof (search_port_correct fuel (Memory.occupied_ports (wd_store w)) prt
                (under_way_pool _ _ _ H) Hf) as Hs.
  destruct (search_port fuel _ prt _) as [[q|e]|] eqn:Hsearch; [| |done].
  2:{ destruct Hs as [_ Hall]. exfalso. apply Hfree0, Hall; [done|]. intros ->. apply Hfree0.
      apply (under_way_occupied _ _ _ _ H). by left. }
  destruct Hs as (Hq & Hfree & Hne & Hfirst).
  destruct (retry_under_way _ _ _ q (wd_now w) H Hq Hfree Hrev) as (s' & Heq & Hs' & Ho).
  exists q, s'. split_and!; [|done|by split_and!|done].
  unfold retry_port. rewrite (uw_port _ _ _ H). rewrite interp_bind.
  unfold fuel at 1. rewrite interp_loop. cbn [pbind call interp host_serve]. rewrite Hc.
  cbn [pbind call interp host_serve]. unfold in_store, Memory.active_ports, mgets. cbn [map_err interp ptry].
  rewrite interp_bind. unfold choose_next_port. rewrite Hsearch. cbn [interp ptry].
  unfold fuel at 1. rewrite interp_loop. cbn [pbind call interp host_serve]. simpl. rewrite Hc.
  simpl. unfold in_store. simpl. fold (retry_input r prt q). by rewrite Heq.
Qed.

(** One attempt on a port nobody uses. *)
Lemma attempt_free n w r prt :
  undisturbed (wd_owner w) → under_way (wd_store w) r prt → (0 < wd_pid w)%Z → prt ∉ wd_busy w →
  published w r prt (go (attempts fuel o (S n) r) w).
Proof.
  intros Hx H Hp Hb. cbn [attempts pbind call interp host_serve]. rewrite (proj1 Hx).
  rewrite interp_bind, (confirm_start_goes _ _ prt) by done. rewrite (uw_port _ _ _ H).
  cbn [pbind call interp host_serve]. unfold in_owner at 1.
  destruct (begin_native_undisturbed _ Hx) as (x1 & H1 & Hx1). rewrite H1.
  cbn [pbind call interp host_serve]. rewrite bool_decide_false by done.
  unfold in_owner at 1. cbn [wd_owner on_world_owner].
  destruct (native_idle_undisturbed _ Hx1) as (x2 & H2 & Hx2). rewrite H2.
  cbn [pbind call interp host_serve wd_owner on_world_owner]. rewrite (proj1 Hx2).
  by apply (publish_goes (on_world_owner x2 (on_world_owner x1 w))).
Qed.
(** One attempt on a port another program uses. *)
Lemma attempt_busy n w r prt :
  undisturbed (wd_owner w) → under_way (wd_store w) r prt → (pool_size ≤ Z.of_nat fuel)%Z →
  (revision r + 1 ≤ i64_max)%Z → prt ∈ wd_busy w →
  (∃ q, is_preview_port q = true ∧ q ∉ Memory.occupied_ports (wd_store w)) →
  ∃ q s' x, undisturbed x ∧ under_way s' (moved_row (wd_now w) q r) q
    ∧ search_result (Memory.occupied_ports (wd_store w)) prt (Some (Ok q))
    ∧ (∀ p, others s' (preview_key r) p ↔ others (wd_store w) (preview_key r) p)
    ∧ go (attempts fuel o (S (S n)) r) w
      = go (attempts fuel o (S n) (moved_row (wd_now w) q r)) (on_world_owner x (on_store s' w)).
Proof.
  intros Hx H Hf Hrev Hb Hq.
  destruct (begin_native_undisturbed _ Hx) as (x1 & H1 & Hx1).
  destruct (native_idle_undisturbed _ Hx1) as (x2 & H2 & Hx2).
  destruct (retry_port_goes (on_world_owner x2 (on_world_owner x1 w)) r prt Hx2 H Hf Hrev Hq)
    as (q & s' & Heq & Hs' & Hsr & Ho).
  destruct (admitted_goes (on_store s' (on_world_owner x2 (on_world_owner x1 w)))
              (moved_row (wd_now w) q r) Hx2) as (x3 & H3 & Hx3).
  exists q, s', x3. split_and!; [done..|]. remember (S n) as m eqn:Hm.
  cbn [attempts pbind call interp host_serve]. rewrite (proj1 Hx).
  rewrite interp_bind, (confirm_start_goes _ _ prt) by done. rewrite (uw_port _ _ _ H).
  cbn [pbind call interp host_serve]. unfold in_owner at 1. rewrite H1.
  cbn [pbind call interp host_serve]. rewrite bool_decide_true by done.
  unfold in_owner at 1. cbn [wd_owner on_world_owner]. rewrite H2.
  cbn [pbind call interp host_serve wd_owner on_world_owner]. rewrite (proj1 Hx2), Hm.
  rewrite interp_bind, Heq. cbn [wd_now on_world_owner]. rewrite interp_bind.
  cbn [wd_now on_world_owner] in H3. rewrite H3. by rewrite <- Hm.
Qed.
End programs.

(** ** The whole task *)

Lemma run_admitted f o input w r s1 :
  wd_owner w = fresh_owner input →
  Memory.accept_start (wd_now w) input (wd_store w) = (Ok (StartAdmitted r), s1) →
  ∃ x, undisturbed x ∧ interp host_serve (run (S f) o input) w
    = interp host_serve (attempts (S f) o START_PORT_ATTEMPTS r) (on_world_owner x (on_store s1 w)).
Proof.
  intros Hw Ha. unfold run. cbn [pbind call interp host_serve]. rewrite Hw. cbn [ow_cancelled fresh_owner].
  rewrite interp_bind. unfold admit_owned. rewrite interp_loop. cbn [pbind call interp host_serve].
  unfold in_store. rewrite Ha. cbn [map_err interp].
  rewrite interp_bind.
  destruct (admitted_goes o (on_store s1 w) r) as (x & Hx & Hux).
  { cbn [wd_owner on_store]. rewrite Hw. by split. }
  rewrite Hx. by exists x.
Qed.

(** Three ports in a row that are not free for the executor are three different
    ones. *)
Lemma third_port (s1 s2 : Memory.State) r1 r2 c1 c2 c3 q0 key :
  under_way s1 r1 c1 → under_way s2 r2 c2 → preview_key r1 = key → preview_key r2 = key →
  (∀ p, others s2 key p ↔ others s1 key p) →
  search_result (Memory.occupied_ports s1) c1 (Some (Ok c2)) →
  search_result (Memory.occupied_ports s2) c2 (Some (Ok c3)) →
  is_preview_port q0 = true → ¬ others s1 key q0 → q0 ≠ c1 → q0 ≠ c2 →
  c1 ≠ c2 ∧ c1 ≠ c3 ∧ c2 ≠ c3.
Proof.
  intros H1 H2 K1 K2 Ho (P2 & F2 & N2 & A2) (P3 & F3 & N3 & A3) P0 Hq0 Q1 Q2.
  pose proof (under_way_pool _ _ _ H1) as P1.
  split_and!; [done| |done]. intros <-.
  assert (ahead c1 c2 < ahead c1 q0)%Z as Hlt.
  { destruct (Z.lt_ge_cases (ahead c1 c2) (ahead c1 q0)) as [|Hge]; [done|].
    destruct (decide (ahead c1 q0 = ahead c1 c2)) as [Heq|Hneq];
      [by destruct Q2; apply (ahead_inj c1)|].
    assert (q0 ∈ Memory.occupied_ports s1) as Hin by (apply A2; [done..|lia]).
    apply (under_way_occupied _ _ _ _ H1) in Hin as [?|Hin]; [done|]. by rewrite K1 in Hin. }
  assert (q0 ∈ Memory.occupied_ports s2) as Hin.
  { apply A3; [done..|]. rewrite (ahead_chain c1 c2 q0), (ahead_back c1 c2) by (done || lia).
    pose proof (ahead_bounds c1 q0 P1 P0). lia. }
  apply (under_way_occupied _ _ _ _ H2) in Hin as [?|Hin]; [done|]. rewrite K2 in Hin. by apply Hq0, Ho.
Qed.
Lemma two_of_three (busy : list Z) a b c :
  length busy ≤ 2 → a ∈ busy → b ∈ busy → a ≠ b → a ≠ c → b ≠ c → c ∉ busy.
Proof.
  intros Hl. destruct busy as [|x [|y [|z l]]]; simpl in Hl; [set_solver..|lia].
Qed.

(** What a published startup shows. *)
Definition ends_ready (w : World) (key inst : string) (out : option StartupResult * World) : Prop :=
  ∃ prt row, out.1 = Some (StartupReady (start_envelope row "Development server started"))
    ∧ Memory.instances (wd_store out.2) !! key = Some row
    ∧ state row = Ready ∧ pid row = Some (wd_pid w) ∧ port row = Some prt
    ∧ instance_id row = inst ∧ is_preview_port prt = true
    ∧ (prt ∉ wd_busy w) ∧ ¬ others (wd_store out.2) key prt
    ∧ store_inv (Memory.instances (wd_store out.2)).
Lemma published_ends w s r prt out :
  published w r prt out → under_way s r prt → prt ∉ wd_busy w →
  ends_ready w (preview_key r) (instance_id r) out.
Proof.
  intros (row & Hout & Hrow & Hst & Hpid & Hport & Hi & _ & Hinv) H Hb. exists prt, row.
  split_and!; try done; [by eapply under_way_pool|]. intros (k & x & Hk & Hx & Hh).
  apply Hk. eapply (si_ports _ Hinv); [exact Hx|exact Hrow|exact Hh|]. split; [by rewrite Hst|done].
Qed.

(** At most two attempts meet a used port. *)
Lemma attempts_end f o w r prt q0 :
  let fuel := S f in
  undisturbed (wd_owner w) → under_way (wd_store w) r prt → (pool_size ≤ Z.of_nat fuel)%Z →
  (revision r + 2 ≤ i64_max)%Z → (0 < wd_pid w)%Z → length (wd_busy w) ≤ 2 →
  is_preview_port q0 = true → q0 ∉ wd_busy w → ¬ others (wd_store w) (preview_key r) q0 →
  ends_ready w (preview_key r) (instance_id r)
    (interp host_serve (attempts fuel o START_PORT_ATTEMPTS r) w).
Proof.
  intros fuel. subst fuel. intros Hx H Hf Hrev Hpid Hbusy Hq0 Hq0b Hq0o.
  assert (∀ s r' p, under_way s r' p → preview_key r' = preview_key r →
            (∀ p, others s (preview_key r) p ↔ others (wd_store w) (preview_key r) p) → q0 ≠ p →
            ∃ q, is_preview_port q = true ∧ q ∉ Memory.occupied_ports s) as Hfree.
  { intros s r' p Hs Hk Ho Hne. exists q0. split; [done|]. rewrite (under_way_occupied _ _ _ _ Hs), Hk.
    intros [?|?%Ho]; done. }
  destruct (decide (prt ∈ wd_busy w)) as [Hb1|Hb1].
  2:{ eapply published_ends; [by apply attempt_free|done..]. }
  assert (q0 ≠ prt) as Hn1 by by intros ->.
  destruct (attempt_busy f o 1 w r prt Hx H Hf ltac:(lia) Hb1) as (c2 & s2 & x2 & Hx2 & H2 & Hsr2 & Ho2 & Heq2);
    [by eapply Hfree|].
  change START_PORT_ATTEMPTS with 3. rewrite Heq2. clear Heq2.
  set (w2 := on_world_owner x2 (on_store s2 w)) in *. set (r2 := moved_row (wd_now w) c2 r) in *.
  destruct (decide (c2 ∈ wd_busy w)) as [Hb2|Hb2].
  2:{ eapply (published_ends w s2 r2 c2); [by apply (attempt_free f o 1 w2)|done..]. }
  assert (q0 ≠ c2) as Hn2 by by intros ->.
  destruct (attempt_busy f o 0 w2 r2 c2 Hx2 H2 Hf ltac:(simpl; lia) Hb2)
    as (c3 & s3 & x3 & Hx3 & H3 & Hsr3 & Ho3 & Heq3); [by eapply Hfree|].
  rewrite Heq3. clear Heq3.
  destruct (third_port (wd_store w) s2 r r2 prt c2 c3 q0 (preview_key r)) as (N1 & N2 & N3); try done.
  assert (c3 ∉ wd_busy w) as Hb3 by by eapply (two_of_three _ prt c2).
  eapply (published_ends w s3 (moved_row (wd_now w) c3 r2) c3); [|done..].
  by apply (attempt_free f o 0 (on_world_owner x3 (on_store s3 w2))).
Qed.
