(* ===== verification/CoordCache.v ===== *)
(** * The coordinator's route cache and its buffered activity

    What the cache serves is what was last put and is still fresh; what the
    activity buffer hands over is the latest instance of every preview with its
    latest time. *)
From S2P Require Import Prelude PreviewModel CoordProg CoordStartup CoordService.
Import Preview Coord Startup.
Local Open Scope Z_scope.

(** ** Routes *)

Inductive CacheCall :=
  | PutPositive (now prt : Z) (r : PreviewRouteResolution)
  | PutNegative (now prt : Z)
  | Invalidate (prt : Z).
Definition cache_call (c : RouteCache.RouteCache) (call : CacheCall) : RouteCache.RouteCache :=
  match call with
  | PutPositive now prt r => RouteCache.put_positive now prt r c
  | PutNegative now prt => RouteCache.put_negative now prt c
  | Invalidate prt => RouteCache.invalidate prt c
  end.
Definition cache_after (positive negative : Z) (calls : list CacheCall) : RouteCache.RouteCache :=
  foldl cache_call (RouteCache.new positive negative) calls.

(** What a call puts under a port, until when. *)
Definition puts (positive negative : Z) (call : CacheCall) (prt : Z) (r : PreviewRouteResolution)
    (until : Z) : Prop :=
  match call with
  | PutPositive now p r' => p = prt ∧ r' = r ∧ until = now + positive * 1000000
  | PutNegative now p => p = prt ∧ r = NotPreview ∧ until = now + negative * 1000000
  | Invalidate _ => False
  end.
(** Some call put it, and none after it invalidated the port. *)
Definition put_and_kept (positive negative : Z) (calls : list CacheCall) (prt : Z)
    (r : PreviewRouteResolution) (until : Z) : Prop :=
  ∃ before call after, calls = before ++ call :: after ∧ puts positive negative call prt r until
    ∧ Invalidate prt ∉ after.

Lemma put_and_kept_snoc positive negative calls call prt r until :
  put_and_kept positive negative calls prt r until → call ≠ Invalidate prt →
  put_and_kept positive negative (calls ++ [call]) prt r until.
Proof.
  intros (before & c & after & -> & Hp & Hn) Hc. exists before, c, (after ++ [call]).
  split_and!; [by rewrite <- app_assoc|done|set_solver].
Qed.
Lemma put_now positive negative calls call prt r until :
  puts positive negative call prt r until →
  put_and_kept positive negative (calls ++ [call]) prt r until.
Proof. intros Hp. exists calls, call, []. split_and!; [done|done|apply not_elem_of_nil]. Qed.

Definition served (e : RouteCache.Entry) : PreviewRouteResolution :=
  match RouteCache.en_resolution e with RouteCache.Hit r => r | RouteCache.Negative => NotPreview end.
Record cache_inv (positive negative : Z) (calls : list CacheCall) (c : RouteCache.RouteCache) : Prop := {
  ca_open : poisoned (RouteCache.entries c) = false;
  ca_positive : RouteCache.positive_ttl c = positive * 1000000;
  ca_negative : RouteCache.negative_ttl c = negative * 1000000;
  ca_entries : ∀ prt e, locked (RouteCache.entries c) !! prt = Some e →
    put_and_kept positive negative calls prt (served e) (RouteCache.en_expires_at e);
}.
Lemma put_lookup r until prt m prt' e :
  RouteCache.put r until prt m !! prt' = Some e →
  m !! prt' = Some e
  ∨ (prt' = prt ∧ e = {| RouteCache.en_resolution := r; RouteCache.en_expires_at := until |}).
Proof. unfold RouteCache.put. repeat case_match; rewrite ?lookup_insert_Some; naive_solver. Qed.

Lemma cache_after_inv positive negative calls :
  cache_inv positive negative calls (cache_after positive negative calls).
Proof.
  induction calls as [|call calls IH] using rev_ind; [by split|].
  unfold cache_after. rewrite foldl_app. fold (cache_after positive negative calls).
  destruct IH as [Ho Hp Hn He]. destruct call as [now prt r|now prt|prt]; simpl;
    unfold RouteCache.put_positive, RouteCache.put_negative, RouteCache.invalidate,
      RouteCache.on_entries; rewrite Ho, ?Hp, ?Hn; split; simpl; try done; intros prt' e.
  - intros [Hl|[-> ->]]%put_lookup; [by apply put_and_kept_snoc; [apply He|]|by apply put_now].
  - intros [Hl|[-> ->]]%put_lookup; [by apply put_and_kept_snoc; [apply He|]|by apply put_now].
  - intros [Hne Hl]%lookup_delete_Some. apply put_and_kept_snoc; [by apply He|congruence].
Qed.
(** A served route was put under its port, has not expired since, and nothing
    invalidated the port after it was put. *)
Lemma served_routes_are_fresh positive negative calls now prt r :
  RouteCache.get now prt (cache_after positive negative calls) = Some r →
  ∃ until, now < until ∧ put_and_kept positive negative calls prt r until.
Proof.
  destruct (cache_after_inv positive negative calls) as [Ho _ _ He]. unfold RouteCache.get. rewrite Ho.
  intros (e & Hl & H)%bind_Some. case_match eqn:Hlt; [|done]. injection H as <-.
  exists (RouteCache.en_expires_at e). split; [lia|]. apply (He _ _ Hl).
Qed.

(** ** Activity *)

(** The entry of a preview: its latest instance, and the latest time recorded
    since that instance was first seen. *)
Fixpoint latest (key : string) (records : list (string * string * Z)) (p : option (string * Z))
    : option (string * Z) :=
  match records with
  | [] => p
  | (k, inst, at_) :: records =>
      latest key records
        (if bool_decide (k = key) then
           match p with
           | Some (i, t) => if bool_decide (i = inst) then Some (i, Z.max t at_) else Some (inst, at_)
           | None => Some (inst, at_)
           end
         else p)
  end.
Definition recorded (records : list (string * string * Z)) (a : Activity.ActivityAccumulator)
    : Activity.ActivityAccumulator :=
  foldl (λ a r, Activity.record r.1.1 r.1.2 r.2 0 a) a records.
Definition entry_of (a : Activity.ActivityAccumulator) (key : string) : option (string * Z) :=
  (λ p, (Activity.pa_instance_id p, Activity.pa_latest p)) <$> locked a !! key.

Lemma record_entry key inst at_ t a k :
  poisoned a = false →
  poisoned (Activity.record key inst at_ t a) = false
  ∧ entry_of (Activity.record key inst at_ t a) k = latest k [(key, inst, at_)] (entry_of a k).
Proof.
  intros Ho. unfold Activity.record, entry_of. rewrite Ho. split; [done|]. simpl.
  destruct (decide (key = k)) as [->|Hne].
  - rewrite bool_decide_true by done. destruct (locked a !! k) as [p|] eqn:Hp;
      rewrite lookup_insert_eq; simpl; [|done]. unfold Activity.merged.
    repeat case_bool_decide; simpl; try done. case_match; simpl; repeat f_equal; lia.
  - rewrite bool_decide_false by done. destruct (locked a !! key); by rewrite lookup_insert_ne.
Qed.
(** A drain hands over exactly the latest entry of every preview, once. *)
Lemma drained_activity_is_latest records key inst at_ :
  let a := recorded records (mutex ∅) in
  {| fe_preview_key := key; fe_instance_id := inst; fe_at := at_ |} ∈ (Activity.drain a).1
  ↔ latest key records None = Some (inst, at_).
Proof.
  intros a.
  assert (∀ records a0, poisoned a0 = false → poisoned (recorded records a0) = false
            ∧ entry_of (recorded records a0) key = latest key records (entry_of a0 key)) as Hrec.
  { induction records0 as [|[[k i] t] rs IH]; intros a0 Ho; [done|]. simpl.
    destruct (record_entry k i t 0 a0 key Ho) as [Ho' He]. simpl in He. rewrite <- He. by apply IH. }
  destruct (Hrec records (mutex ∅) eq_refl) as [Ho He]. fold a in Ho, He.
  change (entry_of (mutex ∅) key) with (@None (string * Z)) in He. rewrite <- He.
  unfold Activity.drain, entry_of. rewrite Ho. simpl. rewrite list_elem_of_fmap, fmap_Some. split.
  - intros ([k p] & Heq & Hin%elem_of_map_to_list). simplify_eq/=. eauto.
  - intros (p & Hp & [= -> ->]). exists (key, p). split; [done|]. by apply elem_of_map_to_list.
Qed.
