(* ===== verification/CoordTheorems.v ===== *)
(** * Properties of the preview coordinator *)
From S2P Require Import Prelude Ordered Validation PreviewModel PreviewMemory PreviewSafety CoordProg CoordStartup CoordService CoordTrace CoordRequests CoordSystem CoordPorts CoordReady.
Import Text Preview Coord Runs Startup Service.
Local Open Scope rust_scope.
Local Open Scope prog_scope.

(** ** Samples *)

Definition sample_process : Process :=
  {| env_var := λ key, if bool_decide (key = "POD_UID") then Some "pod" else None; BOOT_ID := "boot" |}.
Definition sample_host : PreviewHostIdentity := local_host_identity sample_process.
Definition sample_start (requested : option Z) : AcceptStartInput :=
  {| as_preview_key := "k"; as_project_id := "p"; as_project_path := "/w/p"; as_host := sample_host;
     as_operation_id := "op"; as_instance_id := "i"; as_requested_port := requested;
     as_base_path := Some "/app/"; as_recover_unknown_evidence := None |}.
Definition sample_world (busy : list Z) (requested : option Z) : World :=
  {| wd_store := Memory.empty_state; wd_owner := fresh_owner (sample_start requested);
     wd_busy := busy; wd_pid := 77; wd_now := 5 |}.
Definition sample_config : CoordinatorConfig :=
  {| heartbeat_ttl_secs := 90; idle_recycle_secs := 0; activity_flush_interval_secs := 30;
     start_budget_secs := 600; remote_verify_timeout_secs := 5; remote_dispatch_timeout_secs := 30 |}.

(** ** Startups *)

(** C28: Whatever the store, the executor and other tasks answer, a startup task
    starts a process at most three times, each time right after reading its own
    row as starting on the ticket's port and entering the native phase, and only
    after every earlier start answered that its port was taken; it publishes
    only the pid and port the last start returned; it writes a failure or a stop
    only when no process of it can be running; it asks the executor to stop no
    instance but its own; and when it returns, it either answers the row the
    store published or already had, or leaves no process behind that is not
    superseded on the host.  After a panic nothing is started, and an end is
    written only after the executor confirmed it for the row of that startup. *)
Theorem startup_accounts_for_its_process fuel o input h p :
  runs (run fuel o input) h p →
  (∀ a k, p = Act a k → startup_may o None h a)
  ∧ (∀ r, p = Ret r → startup_result None r h)
  ∧ ∀ fuel' error h' a k, runs (settle_panicked fuel' o input error) h' (Act a k) →
      panicked_may o input h' a.
Proof.
  intros Hr. pose proof (runs_spec _ _ _ _ _ Hr (run_spec fuel o None input [] (conj eq_refl eq_refl))) as Hs.
  split_and!.
  - intros a k ->. apply Hs.
  - by intros r ->.
  - intros fuel' error h' a k Hp.
    apply (runs_spec _ _ _ _ _ Hp (settle_panicked_spec fuel' o input error [])).
Qed.

(** A start that finds its first port taken and publishes on the next one. *)
Lemma startup_accounts_for_its_process_witness :
  let input := sample_start (Some 4000%Z) in
  let out := traced 40 host_serve (run 9 0 input) (sample_world [4000%Z] (Some 4000%Z)) [] in
  ∃ env, out.2 = Ret (StartupReady env) ∧ se_port env = 4001%Z
    ∧ startup_result None (StartupReady env) out.1.
Proof.
  intros input out. eexists. split; [vm_compute; reflexivity|]. split; [reflexivity|].
  apply (proj1 (proj2 (startup_accounts_for_its_process 9 0 input out.1 out.2
           (runs_traced 40 host_serve _ _ _ [] (runs_here _))))).
  vm_compute. reflexivity.
Defined.

(** C30: On a host where at most two ports are used by other programs, a startup
    that the store in memory admits ends ready, as long as one pool port is free
    of other previews and of those programs: the answer is the published row,
    with the executor's pid, on a pool port that no other program uses and no
    other preview holds, and the store keeps its invariant. *)
Theorem startup_reaches_ready fuel o input base w r s1 q0 :
  store_inv (Memory.instances (wd_store w)) → wd_owner w = fresh_owner input →
  Memory.accept_start (wd_now w) input (wd_store w) = (Ok (StartAdmitted r), s1) →
  str_is_empty (as_preview_key input) = false → str_is_empty (as_operation_id input) = false →
  str_is_empty (as_instance_id input) = false → as_base_path input = normalize_base_path <$> base →
  (revision r + 2 ≤ i64_max)%Z → (0 < wd_pid w)%Z →
  length (wd_busy w) ≤ 2 → is_preview_port q0 = true → q0 ∉ wd_busy w →
  ¬ others s1 (as_preview_key input) q0 →
  (pool_size ≤ Z.of_nat fuel)%Z →
  ends_ready w (as_preview_key input) (as_instance_id input)
    (interp host_serve (run fuel o input) w).
Proof.
  intros Hs Hw Ha Hk Ho Hi Hb Hrev Hpid Hbusy Hq0 Hq0b Hq0o Hf.
  destruct fuel as [|f]; [done|].
  destruct (accept_under_way _ _ _ _ _ _ Hs Ha Hk Ho Hi Hb) as (prt & Hr & Hkey & Hinst).
  destruct (run_admitted f o input w r s1 Hw Ha) as (x & Hx & ->). rewrite <- Hkey, <- Hinst.
  rewrite <- Hkey in Hq0o. by eapply (attempts_end f o (on_world_owner x (on_store s1 w))).
Qed.

(** The smallest free port is used by another program, and so is the next. *)
Lemma startup_reaches_ready_witness :
  ends_ready (sample_world [4000%Z; 4001%Z] None) "k" "i"
    (interp host_serve (run (Z.to_nat 50000) 0 (sample_start None))
       (sample_world [4000%Z; 4001%Z] None)).
Proof.
  assert (Memory.accept_start 5 (sample_start None) Memory.empty_state
          = (Ok (StartAdmitted (Memory.started_row 5 (sample_start None) 1 4000)),
             (Memory.accept_start 5 (sample_start None) Memory.empty_state).2)) as Ha
    by (vm_compute; reflexivity).
  assert (Memory.instances (Memory.accept_start 5 (sample_start None) Memory.empty_state).2
          = <["k" := Memory.started_row 5 (sample_start None) 1 4000]> ∅) as Hi
    by (vm_compute; reflexivity).
  apply (startup_reaches_ready _ 0 (sample_start None) (Some "app")
           (sample_world [4000%Z; 4001%Z] None) _ _ 4002%Z (store_inv_empty) eq_refl Ha);
    [vm_compute; reflexivity..|done|done|simpl; lia|reflexivity|set_solver| |].
  - intros (k & r & Hk & Hr & _). rewrite Hi, lookup_insert_ne in Hr by done. done.
  - rewrite Z2Nat.id; done.
Defined.

(** ** Requests and sweeps *)


(** A sweep that finds the process of a ready preview dead, and a start that
    takes over a preview whose pod is gone. *)
Definition sample_row (st : PreviewInstanceState) : PreviewInstanceRecord :=
  with_state st (Memory.started_row 5 (sample_start None) 1 4000).
Definition answer_serve (st : PreviewInstanceState) (a : Action) : unit → Answer a * unit :=
  match a return unit → Answer a * unit with
  | ListByHost _ _ => λ u, (Ok [sample_row st], u)
  | GetInstance _ => λ u, (Ok (Some (sample_row st)), u)
  | VerifyLocal _ _ => λ u,
      (Ok {| rp_identity_match := true; rp_alive := false; rp_pid := None; rp_port := None |}, u)
  | HostPodExists _ => λ u, (false, u)
  | a => λ u, (any a, u)
  end.
Definition sample_identity : PreviewProjectIdentity :=
  {| pi_project_id := "p"; pi_tenant_id := None; pi_space_id := None; pi_isolation_type := None;
     pi_resolved_path := "/w/p" |}.

(** ** Stops against startups *)

(** C27: In every interleaving of startups, requests and sweeps, with panics and
    poisoned locks: once an owner is told to stop and its execution is reported
    over, or the table no longer leads to it, the executor's start is neither in
    progress for it nor ever called for it again.  A request that cancelled an
    owner and then waited for its execution has such an owner; and the stop of a
    local startup answers that the process is gone only if the table had no owner
    for that instance or after both. *)
Theorem stop_is_final process config c c' o w :
  reachable process config c → owners (shared c) !! o = Some w →
  stopped w ∨ ¬ registered (shared c) o w → rtc (step process config) c c' →
  ¬ starting c o ∧ ¬ starting c' o
  ∧ (∀ i q h p o', threads c !! i = Some (Client q h p) → released h o' →
       owner_is stopped (shared c) o')
  ∧ (∀ key inst h outcome, runs (stop_local_startup key inst) h (Ret (Ok outcome)) →
       stop_confirmed outcome = true →
       ∃ found, Did (OwnersGet key inst) (Ok found) ∈ h ∧ ∀ o', found = Some o' → released h o').
Proof.
  intros Hc Hw Hs Hsteps. pose proof (reachable_inv _ _ _ Hc) as Hinv.
  assert (retired c o) as Hr.
  { destruct Hs as [Hs|Hs]; [left; by exists w|by eapply (sy_table _ Hinv)]. }
  split_and!.
  - by apply retired_not_starting.
  - by eapply retired_forever.
  - intros i q h p o' Hi Hrel. destruct (sy_threads _ Hinv _ _ Hi) as [_ Hh]. by apply Hh.
  - intros key inst h outcome Hrun Hout.
    destruct (runs_spec _ _ _ _ _ Hrun (stop_local_startup_spec (λ _ _, True) key inst [] (λ _ _, ltac:(by split))))
      as (found & Hst & Hg). exists found. split; [by eapply Hg|]. by apply (Hst outcome).
Qed.

(** The call of the [i]-th thread is answered [b]. *)
Ltac answer i b :=
  eapply rtc_l; [eapply (step_call _ _ _ _ i _ _ _ _ 1); [reflexivity|exists b; split; reflexivity|]|].
(** A start is requested, then a stop, and the startup sees it before it asks
    the store. *)
Lemma sample_stopped :
  ∃ c w, reachable sample_process sample_config c ∧ owners (shared c) !! 0 = Some w ∧ stopped w.
Proof.
  eexists _, _. split.
  - unfold reachable, initial.
    eapply rtc_l; [apply (step_request _ _ _ _ (StartDev sample_identity None))|].
    answer 0 (Ok (A := option PreviewInstanceRecord) (E := StoreFailure) None); [reflexivity|].
    answer 0 "op"; [reflexivity|]. answer 0 "i"; [reflexivity|].
    answer 0 (Ok (A := OwnerId) (E := PreviewCoordinationError) 0);
      [exists 0; eexists; split_and!; reflexivity|].
    eapply rtc_l; [apply (step_request _ _ _ _ (StopDev "p"))|].
    answer 2 (Ok (A := list OwnerId) (E := PreviewCoordinationError) [0]); [split; reflexivity|].
    answer 2 (Ok (A := unit) (E := PreviewCoordinationError) tt); [do 2 eexists; split_and!; reflexivity|].
    answer 1 true; [split; reflexivity|].
    answer 1 tt; [reflexivity|]. answer 1 tt; [reflexivity|]. apply rtc_refl.
  - split; [reflexivity|]. split; reflexivity.
Qed.
Lemma stop_is_final_witness :
  ∃ c w, reachable sample_process sample_config c ∧ owners (shared c) !! 0 = Some w ∧ stopped w
    ∧ ¬ starting c 0.
Proof.
  destruct sample_stopped as (c & w & Hc & Hw & Hs). exists c, w. split_and!; [done..|].
  apply (stop_is_final sample_process sample_config c c 0 w Hc Hw (or_introl Hs) (rtc_refl _ c)).
Defined.
