(* ===== verification/OperationLease.v ===== *)
(** * Lease receipts and final evidence
    ([shared_types/src/userapp/operation_lease.rs],
    [shared_types/src/userapp/builder_control.rs])

    The durable receipt of the mutex an operation holds in the runtime, and the
    checkpoints that prove an operation's effects complete.  An interrupted
    operation may be closed only on such a proof. *)
From S2P Require Import Prelude Validation Lifecycle Evidence LifecycleDomain.
From Stdlib Require Import Ascii.
Import Text Identifier.
Local Open Scope rust_scope.

(** ** Reading and writing JSON objects *)

Fixpoint obj_get (key : string) (fields : list (string * Json)) : option Json :=
  match fields with
  | [] => None
  | (k, v) :: rest => if bool_decide (k = key) then Some v else obj_get key rest
  end.

(** [Map::insert]; fields stay in key order. *)
Fixpoint obj_insert (key : string) (value : Json) (fields : list (string * Json))
    : list (string * Json) :=
  match fields with
  | [] => [(key, value)]
  | (k, v) :: rest =>
      if bool_decide (k = key) then (key, value) :: rest
      else if String.ltb key k then (key, value) :: fields
      else (k, v) :: obj_insert key value rest
  end.

(** [Value::get], [Value::pointer] (on objects), [as_str], [as_bool] and
    [is_object]. *)
Definition json_get (key : string) (v : Json) : option Json :=
  match v with JObj fields => obj_get key fields | _ => None end.
Fixpoint json_pointer (path : list string) (v : Json) : option Json :=
  match path with
  | [] => Some v
  | key :: rest => json_get key v ≫= json_pointer rest
  end.
Definition json_as_str (v : Json) : option string :=
  match v with JStr s => Some s | _ => None end.
Definition json_as_bool (v : Json) : option bool :=
  match v with JBool b => Some b | _ => None end.
Definition json_is_object (v : Json) : bool :=
  match v with JObj _ => true | _ => false end.
(** [value[key] = field] on an object; null becomes one.  (The callers have
    decoded an object before.) *)
Definition json_set (key : string) (field v : Json) : Json :=
  match v with
  | JObj fields => JObj (obj_insert key field fields)
  | JNull => JObj [(key, field)]
  | _ => v
  end.

Lemma obj_get_insert key value fields : obj_get key (obj_insert key value fields) = Some value.
Proof.
  induction fields as [|[k v] rest IH]; simpl.
  { by rewrite bool_decide_eq_true_2. }
  case_bool_decide as Hk; simpl; [by rewrite bool_decide_eq_true_2|].
  destruct (String.ltb key k); simpl; [by rewrite bool_decide_eq_true_2|].
  by rewrite bool_decide_eq_false_2.
Qed.
Lemma obj_get_insert_ne key key' value fields :
  key ≠ key' → obj_get key' (obj_insert key value fields) = obj_get key' fields.
Proof.
  intros Hne. induction fields as [|[k v] rest IH]; simpl.
  { by rewrite bool_decide_eq_false_2. }
  case_bool_decide as Hk; simpl.
  { subst k. by rewrite bool_decide_eq_false_2. }
  destruct (String.ltb key k); simpl; [by rewrite (bool_decide_eq_false_2 (key = key'))|].
  case_bool_decide; [done|apply IH].
Qed.

(** ** Receipts of the operation mutex *)

Inductive UserAppOperationLeaseReceipt :=
  | DockerLease (service_type : ServiceType) (device inode : Z) (token : string)
  | KubernetesLease (service_type : ServiceType)
      (namespace name uid resource_version token : string).
#[global] Instance UserAppOperationLeaseReceipt_eq_dec : EqDecision UserAppOperationLeaseReceipt.
Proof. solve_decision. Defined.

Definition lease_service_type (r : UserAppOperationLeaseReceipt) : ServiceType :=
  match r with DockerLease st _ _ _ | KubernetesLease st _ _ _ _ _ => st end.
Definition lease_token (r : UserAppOperationLeaseReceipt) : string :=
  match r with DockerLease _ _ _ t | KubernetesLease _ _ _ _ _ t => t end.

Definition lease_validate (r : UserAppOperationLeaseReceipt) : result unit string :=
  let? _ := ensure (match lease_service_type r with Userapp | UserappBuilder => true | _ => false end)
              "Invalid operation lease family" in
  let? token := match r with
                | DockerLease _ _ inode token =>
                    if negb (inode =? 0)%Z then Ok token
                    else Err "Incomplete operation lease receipt"
                | KubernetesLease _ namespace name uid resource_version token =>
                    if negb (str_is_empty namespace) && negb (str_is_empty name)
                       && negb (str_is_empty uid) && negb (str_is_empty resource_version)
                    then Ok token else Err "Incomplete operation lease receipt"
                end in
  map_err (λ _, "Invalid operation lease token") (validate_identifier token "lease token").

Record UserAppOperationLeaseBinding := {
  lb_context : UserAppExecutionContext;
  lb_receipt : UserAppOperationLeaseReceipt;
}.
#[global] Instance UserAppOperationLeaseBinding_eq_dec : EqDecision UserAppOperationLeaseBinding.
Proof. solve_decision. Defined.

(** ** Evidence of a created builder *)

Record BuilderCreationPredecessor := {
  bcp_target : BuilderControlTarget;
  bcp_volumes : list AppResourceIdentity;
}.

Definition retained_volume (v : AppResourceIdentity) : bool :=
  bool_decide (res_kind v = PersistentVolumeClaim)
  && negb (str_is_empty (res_name v)) && negb (str_is_empty (res_uid v)).

Definition predecessor_validate_operation (p : BuilderCreationPredecessor)
    (o : UserAppOperationRecord) : result unit string :=
  let? _ := builder_target_validate (bcp_target p) in
  let context := bt_context (bcp_target p) in
  ensure (bool_decide (op_kind o = EnsureBuilder)
          && bool_decide (ctx_app_id context = op_app_id o)
          && context_owns context o
          && workload_is StatefulSet (bt_workload (bcp_target p))
          && negb (bool_decide (bcp_volumes p = []))
          && forallb retained_volume (bcp_volumes p))
    "Builder predecessor operation or volume identity differs".

(** The fields of [ContainerBasicInfo] that identify the instance. *)
Record ContainerBasicInfo := {
  cbi_container_id : string;
  cbi_workload_uid : option string;
}.

Record BuilderCreationEvidence := {
  bce_creation_lease_released : bool;
  bce_target : BuilderControlTarget;
  bce_container : ContainerBasicInfo;
  bce_registration_predecessor : option BuilderCreationPredecessor;
}.

Definition opt_differs (o : option string) (x : string) : bool :=
  match o with Some y => negb (bool_decide (y = x)) | None => false end.

Definition creation_validate_operation (e : BuilderCreationEvidence) (o : UserAppOperationRecord)
    : result unit string :=
  let target := bce_target e in
  let? _ := builder_target_validate target in
  let context := bt_context target in
  let? _ := ensure (bce_creation_lease_released e
                    && bool_decide (op_kind o = EnsureBuilder)
                    && bool_decide (op_scope o = Dev)
                    && match bt_resource_binding target with
                       | Some b => bool_decide (bind_service_type b = UserappBuilder)
                       | None => true end
                    && bool_decide (ctx_app_id context = op_app_id o)
                    && context_owns context o)
              "Builder completion operation identity mismatch" in
  let? workload := ok_or (bt_workload target) "Builder completion workload missing" in
  let? _ := ensure (negb (bool_decide (res_kind workload = StatefulSet)
                          && (is_none (bt_pod target)
                              || opt_differs (cbi_workload_uid (bce_container e)) (res_uid workload))))
              "Builder completion pod or workload identity missing" in
  let physical := match bt_pod target with Some pod => pod_uid pod | None => res_uid workload end in
  let? _ := ensure (negb (str_is_empty (cbi_container_id (bce_container e)))
                    && bool_decide (physical = cbi_container_id (bce_container e)))
              "Builder completion physical identity mismatch" in
  match bce_registration_predecessor e with
  | Some predecessor =>
      let? _ := predecessor_validate_operation predecessor o in
      ensure (match bt_workload (bcp_target predecessor) with
              | Some source => negb (bool_decide (res_uid source = res_uid workload))
              | None => true end)
        "Builder replacement did not change workload identity"
  | None => Ok tt
  end.

(** ** Final evidence

    The derived decoder of creation evidence is generated code. *)
Class CreationCodec := {
  decode_creation : Json → option BuilderCreationEvidence;
}.

Section final.
Context `{CheckpointCodec, CreationCodec}.

Definition creation_evidence_of (o : UserAppOperationRecord) : bool :=
  match decode_creation (op_checkpoint o) with
  | Some e => is_ok (creation_validate_operation e o)
  | None => false
  end.

(** A string at [path] of the checkpoint. *)
Definition checkpoint_str (path : list string) (o : UserAppOperationRecord) : option string :=
  json_pointer path (op_checkpoint o) ≫= json_as_str.

Definition resource_recorded (o : UserAppOperationRecord) : bool :=
  match checkpoint_str ["resource"; "container_id"] o with
  | Some id => negb (str_is_empty id)
  | None => false
  end.

(** The evidence of a storage operation belongs to the operation. *)
Definition storage_owned (context : UserAppExecutionContext) (o : UserAppOperationRecord) : bool :=
  bool_decide (ctx_operation_id context = op_operation_id o)
  && bool_decide (ctx_lifecycle_id context = op_lifecycle_id o)
  && bool_decide (ctx_app_id context = op_app_id o)
  && opt_is (op_executor_id o) (ctx_executor_id context).

Definition userapp_operation_has_final_evidence (o : UserAppOperationRecord) : bool :=
  match op_kind o with
  | EnsureBuilder =>
      bool_decide (op_step o = "builder_ready_confirmed") && creation_evidence_of o
  | Create => bool_decide (op_step o = "runtime_created") && resource_recorded o
  | Update => bool_decide (op_step o = "runtime_updated") && resource_recorded o
  | StartDeployment | RestartDeployment =>
      bool_decide (op_step o = "deployment_completed")
      && opt_is (checkpoint_str ["operation_id"] o) (op_operation_id o)
      && opt_is (checkpoint_str ["app_id"] o) (op_app_id o)
  | Start | Restart | Stop | SetRecyclePolicy =>
      bool_decide (op_step o = "control_confirmed")
      && opt_is (checkpoint_str ["target"; "context"; "operation_id"] o) (op_operation_id o)
  | StopBuilder | RestartBuilder =>
      bool_decide (op_step o = "compute_confirmed")
      && opt_is (checkpoint_str ["target"; "context"; "operation_id"] o) (op_operation_id o)
      && opt_is (checkpoint_str ["result"; "operation_id"] o) (op_operation_id o)
  | DeleteCompute | PurgeResources | DeleteApplication =>
      match decode_deletion (op_checkpoint o) with
      | Some e =>
          is_ok (deletion_validate_operation e o)
          && bool_decide (dc_stage e = if bool_decide (op_kind o = DeleteCompute)
                                       then ComputeRemoved else DevelopmentRemoved)
      | None => false
      end
  | DestroyDevStorage | DestroyProdStorage =>
      bool_decide (op_step o = SD_COMPLETE_STEP)
      && match decode_destruction (op_checkpoint o) with
         | Some e => is_ok (destruction_validate e) && storage_owned (sd_context e) o
         | None => false
         end
  | ClearDevStorage | ClearProdStorage =>
      bool_decide (op_step o = SC_COMPLETE_STEP)
      && match decode_clear (op_checkpoint o) with
         | Some e => is_ok (clear_validate e) && storage_owned (sc_context e) o
         | None => false
         end
  | PrepareProdDatabase =>
      match decode_preparation (op_checkpoint o) with
      | Some e => bool_decide (prep_stage e = PrepManagementReady)
                  && is_ok (preparation_validate_operation e o)
      | None => false
      end
  | ResetDevDatabasePassword | ResetProdDatabasePassword =>
      match decode_password (op_checkpoint o) with
      | Some e => bool_decide (pw_stage e = PwVerified) && is_ok (password_validate_operation e o)
      | None => false
      end
  | AdoptBuilder | AdoptApplication | HotDeploy => false
  end.

(** A created builder with its lease released may be stopped, ready or not. *)
Definition userapp_operation_has_drain_evidence (o : UserAppOperationRecord) : bool :=
  userapp_operation_has_final_evidence o
  || (bool_decide (op_kind o = EnsureBuilder)
      && bool_decide (op_step o = "builder_created_observed") && creation_evidence_of o).
End final.
