(* ===== verification/ComputeControl.v ===== *)
(** * Compute control: the contract
    ([shared_types/src/userapp/compute_control.rs], [compute_recovery.rs],
    [compute_control/stop_observation.rs], [builder_control.rs],
    [app_resource_deletion.rs])

    A stop or restart of an application's containers has priority over ordinary
    operations.  This file holds its records, the policy of one progress report,
    and the evidence by which an interrupted execution may be continued or
    closed.  The decoders serde derives are the class [ComputeCodec]. *)
From S2P Require Import Prelude Validation Lifecycle Evidence OperationLease.
From Stdlib Require Import Ascii.
Import Text Identifier.
Local Open Scope rust_scope.

(** ** Targets and archives *)

Inductive BuilderStartupMode := PreserveBusinessIntent | ManagementOnly.
#[global] Instance BuilderStartupMode_eq_dec : EqDecision BuilderStartupMode.
Proof. solve_decision. Defined.
Definition startup_mode_json (m : BuilderStartupMode) : Json :=
  JStr match m with
       | PreserveBusinessIntent => "preserve_business_intent"
       | ManagementOnly => "management_only"
       end.

Record BuilderRestartTemplate := {
  brt_source : BuilderControlTarget;
  brt_archive : AppResourceIdentity;
  brt_volumes : list AppResourceIdentity;
}.
#[global] Instance BuilderRestartTemplate_eq_dec : EqDecision BuilderRestartTemplate.
Proof. solve_decision. Defined.

Record AppRestartTemplate := {
  art_source : UserAppMutationTarget;
  art_archive : AppResourceIdentity;
  art_volumes : list AppResourceIdentity;
}.
#[global] Instance AppRestartTemplate_eq_dec : EqDecision AppRestartTemplate.
Proof. solve_decision. Defined.

Record UserAppComputeStartTarget := {
  cst_target : UserAppMutationTarget;
  cst_single_write : bool;
  cst_volumes : list AppResourceIdentity;
  cst_restart_image : option string;
}.
#[global] Instance UserAppComputeStartTarget_eq_dec : EqDecision UserAppComputeStartTarget.
Proof. solve_decision. Defined.

(** A pod whose StatefulSet is gone. *)
Record BuilderOrphanStopTarget := {
  ost_resource_binding : option UserAppResourceBinding;
  ost_context : UserAppExecutionContext;
  ost_orphan_pod : BuilderPodIdentity;
  ost_controller_name : string;
  ost_controller_uid : string;
}.

Definition orphan_validate (t : BuilderOrphanStopTarget) : result unit string :=
  let? _ := validate_identity (ost_context t) (ctx_app_id (ost_context t)) in
  let? _ := match ost_resource_binding t with
            | Some b => binding_validate b (ost_context t) (ost_controller_uid t)
            | None => Ok tt
            end in
  ensure (negb (str_is_empty (ost_controller_name t) || str_is_empty (ost_controller_uid t)
                || str_is_empty (pod_name (ost_orphan_pod t))
                || str_is_empty (pod_uid (ost_orphan_pod t))
                || str_is_empty (pod_resource_version (ost_orphan_pod t))))
    "Orphan builder physical identity missing".

Record ComputeAbsenceCheckpoint := {
  abs_context : UserAppExecutionContext;
  abs_compute_absent : bool;
}.

(** ** Actions, states and stages *)

Inductive ComputeControlAction := CStop | CRestart.
#[global] Instance ComputeControlAction_eq_dec : EqDecision ComputeControlAction.
Proof. solve_decision. Defined.

Inductive ComputeControlState :=
  | CPending | CRunning | CRecoveryRequired | CSucceeded | CFailed | CSuperseded.
#[global] Instance ComputeControlState_eq_dec : EqDecision ComputeControlState.
Proof. solve_decision. Defined.

Definition cc_terminal (s : ComputeControlState) : bool :=
  match s with CSucceeded | CFailed | CSuperseded => true | _ => false end.

Definition as_progress_storage_value (s : ComputeControlState) : option string :=
  match s with
  | CRunning => Some "running"
  | CRecoveryRequired => Some "recovery_required"
  | CSucceeded => Some "succeeded"
  | CFailed => Some "failed"
  | CPending | CSuperseded => None
  end.

Inductive ComputeControlStage :=
  | DrainingPrevious | Stopping | Stopped | Starting | Verifying | Completed.
#[global] Instance ComputeControlStage_eq_dec : EqDecision ComputeControlStage.
Proof. solve_decision. Defined.

Definition stage_as_str (s : ComputeControlStage) : string :=
  match s with
  | DrainingPrevious => "draining_previous"
  | Stopping => "stopping"
  | Stopped => "stopped"
  | Starting => "starting"
  | Verifying => "verifying"
  | Completed => "completed"
  end.

Definition stage_from_storage (value : string) : option ComputeControlStage :=
  if bool_decide (value = "draining_previous") then Some DrainingPrevious
  else if bool_decide (value = "stopping") then Some Stopping
  else if bool_decide (value = "stopped") then Some Stopped
  else if bool_decide (value = "starting") then Some Starting
  else if bool_decide (value = "verifying") then Some Verifying
  else if bool_decide (value = "completed") then Some Completed
  else None.

(** Unknown text is no stage, and a stage reads back as itself. *)
Lemma stage_from_storage_Some value s : stage_from_storage value = Some s ↔ value = stage_as_str s.
Proof.
  unfold stage_from_storage. split.
  - intros Hs. repeat case_bool_decide; simplify_eq; done.
  - intros ->. by destruct s.
Qed.

(** ** Records *)

Record ComputeControlRequest := {
  ccq_app_id : string;
  ccq_lifecycle_id : string;
  ccq_scope : UserAppOperationScope;
  ccq_operation_id : string;
  ccq_request_id : string;
  ccq_request_fingerprint : string;
  ccq_action : ComputeControlAction;
  ccq_restart_image_roll : bool;
  ccq_builder_startup_mode : BuilderStartupMode;
}.

Record ComputeControlRecord := mkControl {
  cc_created_at : Z;
  cc_app_id : string;
  cc_lifecycle_id : string;
  cc_request_id : string;
  cc_scope : UserAppOperationScope;
  cc_operation_id : string;
  cc_request_fingerprint : string;
  cc_generation : Z;
  cc_action : ComputeControlAction;
  cc_interrupted_operations : list string;
  cc_revision : Z;
  cc_state : ComputeControlState;
  cc_executor_id : option string;
  cc_stage : string;
  cc_checkpoint : Json;
  cc_error_code : option string;
  cc_error_message : option string;
  cc_lease : option UserAppOperationLeaseReceipt;
}.
#[global] Instance ComputeControlRecord_eq_dec : EqDecision ComputeControlRecord.
Proof. solve_decision. Defined.

Record UserAppComputeStatus := {
  cst_desired_stopped : bool;
  cst_generation : Z;
  cst_revision : Z;
  cst_operation : option ComputeControlRecord;
}.
Definition status_default : UserAppComputeStatus :=
  {| cst_desired_stopped := false; cst_generation := 0; cst_revision := 0; cst_operation := None |}.

Record ComputeExecutorIdentity := {
  cei_app_id : string;
  cei_lifecycle_id : string;
  cei_scope : UserAppOperationScope;
  cei_operation_id : string;
  cei_generation : Z;
  cei_executor_id : string;
}.

Record ComputeControlProgress := {
  ccp_identity : ComputeExecutorIdentity;
  ccp_expected_revision : Z;
  ccp_state : ComputeControlState;
  ccp_stage : ComputeControlStage;
  ccp_checkpoint : Json;
  ccp_error_code : option string;
  ccp_error_message : option string;
}.

(** ** Request identities *)

Definition AUTOMATIC_REPAIR_REQUEST_PREFIX : string := "auto-repair-".
Definition BUILDER_RESTART_STOP_OBSERVATION_KEY : string := "builder_restart_stop_observation".
Definition KUBERNETES_RESTART_STOP_CONFIRMATION_KEY : string := "kubernetes_restart_stop_confirmation".

Definition is_automatic_repair (request_id : string) : bool :=
  starts_with AUTOMATIC_REPAIR_REQUEST_PREFIX request_id.

Definition validate_user_compute_request_id (request_id : string) : result unit string :=
  let? _ := validate_identifier request_id "request_id" in
  ensure (negb (is_automatic_repair request_id))
    "request_id prefix 'auto-repair-' is reserved for internal repair".

(** ** The policy of one progress report *)

Inductive ComputeDiagnosticValue := DiagAbsent | DiagEmpty | DiagNonEmpty.
#[global] Instance ComputeDiagnosticValue_eq_dec : EqDecision ComputeDiagnosticValue.
Proof. solve_decision. Defined.

Definition diagnostic_from_option (value : option string) : ComputeDiagnosticValue :=
  match value with
  | None => DiagAbsent
  | Some EmptyString => DiagEmpty
  | Some _ => DiagNonEmpty
  end.

Inductive ComputeProgressPolicyError :=
  | InvalidState
  | InvalidStageTransition
  | SuccessRequiresCompletedEvidence
  | CompletedRequiresSuccess
  | FailureRequiresDiagnostics
  | ProgressCannotRetainDiagnostics
  | MutationFailureRequiresRecovery
  | MutationRequiresLeaseAndCheckpoint.

Definition policy_message (e : ComputeProgressPolicyError) : string :=
  match e with
  | InvalidState => "Invalid compute execution transition"
  | InvalidStageTransition => "Invalid compute stage transition"
  | SuccessRequiresCompletedEvidence => "Compute success requires completed evidence"
  | CompletedRequiresSuccess => "Completed compute stage requires success"
  | FailureRequiresDiagnostics => "Compute failure requires structured diagnostics"
  | ProgressCannotRetainDiagnostics =>
      "Compute success or progress cannot retain failure diagnostics"
  | MutationFailureRequiresRecovery => "Compute mutation failure requires recovery"
  | MutationRequiresLeaseAndCheckpoint =>
      "Compute mutation requires a lease and structured checkpoint"
  end.

Definition legal_stage (action : ComputeControlAction) (current : option ComputeControlStage)
    (next : ComputeControlStage) : bool :=
  bool_decide (current = Some next)
  || match current, next with
     | Some DrainingPrevious, Stopping | Some Stopping, Stopped
     | Some Stopped, Starting | Some Starting, Verifying => true
     | _, _ => false
     end
  || (bool_decide (action = CRestart) && bool_decide (current = Some Verifying)
      && bool_decide (next = Completed))
  || (bool_decide (action = CStop) && bool_decide (current = Some Stopped)
      && bool_decide (next = Completed)).

Definition validate_compute_progress_transition (action : ComputeControlAction)
    (current_stage : option ComputeControlStage) (state : ComputeControlState)
    (next_stage : ComputeControlStage) (error_code error_message : ComputeDiagnosticValue)
    (lease_present : bool) : result unit ComputeProgressPolicyError :=
  let? _ := ensure (is_some (as_progress_storage_value state)) InvalidState in
  let? _ := ensure (negb (negb (legal_stage action current_stage next_stage)
                          || (bool_decide (action = CStop)
                              && match next_stage with Starting | Verifying => true | _ => false end)))
              InvalidStageTransition in
  let? _ := ensure (negb (bool_decide (state = CSucceeded) && negb (bool_decide (next_stage = Completed))))
              SuccessRequiresCompletedEvidence in
  let? _ := ensure (negb (bool_decide (next_stage = Completed) && negb (bool_decide (state = CSucceeded))))
              CompletedRequiresSuccess in
  let? _ := ensure (negb (match state with CFailed | CRecoveryRequired => true | _ => false end
                          && (negb (bool_decide (error_code = DiagNonEmpty))
                              || negb (bool_decide (error_message = DiagNonEmpty)))))
              FailureRequiresDiagnostics in
  let? _ := ensure (negb (match state with CRunning | CSucceeded => true | _ => false end
                          && (negb (bool_decide (error_code = DiagAbsent))
                              || negb (bool_decide (error_message = DiagAbsent)))))
              ProgressCannotRetainDiagnostics in
  ensure (negb (bool_decide (state = CFailed)
                && (negb (bool_decide (current_stage = Some DrainingPrevious)) || lease_present)))
    MutationFailureRequiresRecovery.

Definition validate_compute_mutation_evidence (stage : ComputeControlStage)
    (lease_present checkpoint_is_object : bool) : result unit ComputeProgressPolicyError :=
  ensure (negb (negb (bool_decide (stage = DrainingPrevious))
                && (negb lease_present || negb checkpoint_is_object)))
    MutationRequiresLeaseAndCheckpoint.

(** ** Observations of a restart's stop boundary *)

Inductive BuilderRestartStopKind := StopReceiptAcknowledged | CapturedContainerAbsent.
#[global] Instance BuilderRestartStopKind_eq_dec : EqDecision BuilderRestartStopKind.
Proof. solve_decision. Defined.

Record BuilderRestartStopObservation := {
  bso_target : BuilderControlTarget;
  bso_volumes : list AppResourceIdentity;
  bso_kind : BuilderRestartStopKind;
}.
#[global] Instance BuilderRestartStopObservation_eq_dec : EqDecision BuilderRestartStopObservation.
Proof. solve_decision. Defined.

(** The mounts, their destinations all different. *)
Fixpoint retained_mounts (destinations : list string) (volumes : list AppResourceIdentity) : bool :=
  match volumes with
  | [] => true
  | v :: rest =>
      bool_decide (res_kind v = HostPath)
      && negb (str_is_empty (res_name v)) && negb (str_is_empty (res_uid v))
      && negb (bool_decide (res_name v ∈ destinations))
      && retained_mounts (res_name v :: destinations) rest
  end.

Definition docker_id (uid : string) : bool :=
  Nat.eqb (String.length uid) 64 && str_all (λ b, is_ascii_digit b || byte_in 97 102 b) uid.

Definition stop_observation_validate (o : BuilderRestartStopObservation) : result unit string :=
  let? _ := builder_target_validate (bso_target o) in
  let? workload := ok_or (bt_workload (bso_target o))
                     "Restart stop observation has no captured Docker Container" in
  let? _ := ensure (bool_decide (res_kind workload = Container) && docker_id (res_uid workload)
                    && is_none (bt_pod (bso_target o))
                    && negb (bool_decide (bso_volumes o = [])))
              "Restart stop observation requires its exact full Docker ID and retained mounts" in
  ensure (retained_mounts [] (bso_volumes o))
    "Restart stop observation has invalid retained Docker mounts".

Inductive BuilderRestartUnrebuildableReason := MissingArchive | UnreadableArchive | ArchiveUnavailable.

(** The one kind of unavailability is a positive inspection. *)
Inductive BuilderRestartArchiveUnavailableKind := PositiveUnavailable.

Record BuilderRestartArchiveUnavailable := {
  bau_template : BuilderRestartTemplate;
  bau_kind : BuilderRestartArchiveUnavailableKind;
}.

Record BuilderRestartUnrebuildableEvidence := {
  bue_reason : BuilderRestartUnrebuildableReason;
  bue_observation : BuilderRestartStopObservation;
  bue_archive_unavailable : option BuilderRestartArchiveUnavailable;
}.

Record BuilderRestartStopRecoveryEvidence := {
  bsr_observation : BuilderRestartStopObservation;
  bsr_original_state : ComputeControlState;
  bsr_original_error_code : option string;
  bsr_original_error_message : option string;
  bsr_original_restart_template : option Json;
  bsr_unrebuildable : option BuilderRestartUnrebuildableEvidence;
  bsr_previous_observation : option Json;
}.

Inductive KubernetesRestartStopEvidence := KubeStopReceiptAcknowledged | KubeObservedStopped.

Record KubernetesRestartStopConfirmation := {
  krc_evidence : KubernetesRestartStopEvidence;
  krc_original_state : ComputeControlState;
  krc_original_error_code : option string;
  krc_original_error_message : option string;
  krc_previous_confirmation : option Json;
}.

(** ** Evidence that a superseded execution has drained *)

Inductive ComputeControlDrainEvidence :=
  | NoMutationSubmitted
  | PersistedRuntimeAcknowledgement (checkpoint : Json)
  | ConditionalStartupFenced (checkpoint : Json)
  | ConditionalStopFenced (checkpoint : Json)
  | PersistedMutationBoundary (checkpoint : Json)
  | MutationCompleted (checkpoint : Json).
#[global] Instance ComputeControlDrainEvidence_eq_dec : EqDecision ComputeControlDrainEvidence.
Proof. solve_decision. Defined.

Record ComputeControlDrainAcknowledgement := {
  cda_identity : ComputeExecutorIdentity;
  cda_expected_revision : Z;
  cda_evidence : ComputeControlDrainEvidence;
}.

(** ** Serialised forms *)

(** The physical fields of a stop checkpoint. *)
Record StopShape := {
  sh_compute_absent : option bool;
  sh_orphan_pod : option BuilderPodIdentity;
  sh_workload : option AppResourceIdentity;
  sh_pod : option BuilderPodIdentity;
  sh_resource : option AppResourceIdentity;
}.

Class ComputeCodec := {
  decode_builder_target : Json → option BuilderControlTarget;
  observe_builder_target : Json → option BuilderControlTarget;
  decode_mutation_target : Json → option UserAppMutationTarget;
  decode_start_target : Json → option UserAppComputeStartTarget;
  decode_resources : Json → option (list AppResourceIdentity);
  decode_restart_template : Json → option BuilderRestartTemplate;
  decode_app_restart_template : Json → option AppRestartTemplate;
  decode_drain_evidence : Json → option ComputeControlDrainEvidence;
  decode_stop_shape : Json → option StopShape;
  decode_absence : Json → option ComputeAbsenceCheckpoint;
  decode_orphan : Json → option BuilderOrphanStopTarget;
  encode_builder_target : BuilderControlTarget → list (string * Json);
  encode_resource : AppResourceIdentity → Json;
  encode_restart_template : BuilderRestartTemplate → Json;
  encode_stop_recovery : BuilderRestartStopRecoveryEvidence → Json;
  encode_stop_confirmation : KubernetesRestartStopConfirmation → Json;
  encode_drain_evidence : ComputeControlDrainEvidence → Json;
}.

(** ** Reading a submitted stop *)

Inductive ComputeStopObservation :=
  | ObsAbsent (c : ComputeAbsenceCheckpoint)
  | ObsOrphan (t : BuilderOrphanStopTarget)
  | ObsBuilder (t : BuilderControlTarget)
  | ObsApplication (t : UserAppMutationTarget).

Definition observation_context (o : ComputeStopObservation) : UserAppExecutionContext :=
  match o with
  | ObsAbsent c => abs_context c
  | ObsOrphan t => ost_context t
  | ObsBuilder t => bt_context t
  | ObsApplication t => mt_context t
  end.

Section codec.
Context `{ComputeCodec}.

Definition stop_observation_from_checkpoint (checkpoint : Json) (scope : UserAppOperationScope)
    : result ComputeStopObservation string :=
  let? shape := ok_or (decode_stop_shape checkpoint) "stop checkpoint" in
  let absence := opt_is (sh_compute_absent shape) true in
  let orphan := is_some (sh_orphan_pod shape) in
  let builder := is_some (sh_workload shape) || is_some (sh_pod shape) in
  let application := is_some (sh_resource shape) in
  let? _ := ensure (Nat.eqb (length (List.filter id [absence; orphan; builder; application])) 1)
              "Stop checkpoint has missing or conflicting physical targets" in
  if absence then
    let? _ := ensure (match scope with Dev | Prod => true | Application => false end)
                "Stop absence has conflicting scope" in
    let? c := ok_or (decode_absence checkpoint) "absence checkpoint" in
    Ok (ObsAbsent c)
  else if orphan then
    let? _ := ensure (bool_decide (scope = Dev))
                "Orphan stop requires the original development scope" in
    let? t := ok_or (decode_orphan checkpoint) "orphan checkpoint" in
    Ok (ObsOrphan t)
  else if builder && bool_decide (scope = Dev) then
    let? t := ok_or (observe_builder_target checkpoint) "builder checkpoint" in
    Ok (ObsBuilder t)
  else if application && bool_decide (scope = Prod) then
    let? t := ok_or (decode_mutation_target checkpoint) "application checkpoint" in
    Ok (ObsApplication t)
  else Err "Stop target differs from its original compute scope".

(** ** What a control record says of its execution *)

Definition execution_context (c : ComputeControlRecord) : result UserAppExecutionContext string :=
  let? executor := ok_or (cc_executor_id c) "Compute executor is not claimed" in
  let context := {| ctx_app_id := cc_app_id c; ctx_lifecycle_id := cc_lifecycle_id c;
                    ctx_operation_id := cc_operation_id c; ctx_executor_id := executor;
                    ctx_request_fingerprint := cc_request_fingerprint c |} in
  let? _ := validate_identity context (cc_app_id c) in
  Ok context.

(** [record.execution_context().is_ok_and(|context| context == other)]. *)
Definition context_is (c : ComputeControlRecord) (other : UserAppExecutionContext) : bool :=
  match execution_context c with Ok context => bool_decide (other = context) | Err _ => false end.

Definition has_docker_compute_target (c : ComputeControlRecord) : bool :=
  match execution_context c with
  | Err _ => false
  | Ok context =>
      match cc_scope c with
      | Dev =>
          match decode_builder_target (cc_checkpoint c) with
          | Some t => bool_decide (bt_context t = context) && is_ok (builder_target_validate t)
                      && workload_is Container (bt_workload t)
          | None => false
          end
      | Prod =>
          match decode_mutation_target (cc_checkpoint c) with
          | Some t => bool_decide (mt_context t = context)
                      && bool_decide (res_kind (mt_resource t) = Container)
                      && negb (str_is_empty (res_uid (mt_resource t)))
                      && negb (str_is_empty (res_name (mt_resource t)))
          | None => false
          end
      | Application => false
      end
  end.

Definition has_conditional_compute_write (c : ComputeControlRecord) : bool :=
  let flag field := opt_is (json_get field (cc_checkpoint c) ≫= json_as_bool) true in
  match cc_scope c with
  | Dev => flag "builder_compute_single_write"
  | Prod => flag "compute_start_single_write"
  | Application => false
  end.

(** *** The early phase ([compute_recovery.rs]) *)

Inductive EarlyComputeBoundary := BeforeContainerSubmission | OutcomeUnconfirmed | OutsideEarlyPhase.
#[global] Instance EarlyComputeBoundary_eq_dec : EqDecision EarlyComputeBoundary.
Proof. solve_decision. Defined.

(** [LegacyEarlyCheckpoint]: one optional flag, other fields ignored. *)
Definition decode_early_checkpoint (v : Json) : option (option bool) :=
  let flag x := match x with JNull => Some None | JBool b => Some (Some b) | _ => None end in
  match v with
  | JObj fields => match obj_get "unknown_write" fields with None => Some None | Some x => flag x end
  | JArr [] => Some None
  | JArr [x] => flag x
  | _ => None
  end.

Definition legacy_boundary (v : Json) : EarlyComputeBoundary :=
  if json_is_null v then BeforeContainerSubmission else
  match decode_early_checkpoint v with
  | Some (Some true) | None => OutcomeUnconfirmed
  | Some _ => BeforeContainerSubmission
  end.

Definition compute_unstarted_checkpoint (v : Json) : bool :=
  bool_decide (legacy_boundary v = BeforeContainerSubmission).

Definition early_compute_boundary (c : ComputeControlRecord) : EarlyComputeBoundary :=
  if negb (bool_decide (stage_from_storage (cc_stage c) = Some DrainingPrevious))
     || is_none (cc_executor_id c)
  then OutsideEarlyPhase
  else legacy_boundary (cc_checkpoint c).

Definition can_observe_superseded_compute_drain (c : ComputeControlRecord) : bool :=
  bool_decide (cc_state c = CSuperseded) && bool_decide (cc_action c = CRestart)
  && bool_decide (early_compute_boundary c = BeforeContainerSubmission).

Definition has_unsubmitted_compute_drain_ack (c : ComputeControlRecord) : bool :=
  bool_decide (cc_state c = CFailed) && bool_decide (cc_stage c = "superseded_drained")
  && opt_is (cc_error_code c) "ERR_CANCELLED" && is_some (cc_executor_id c)
  && match json_get "drain" (cc_checkpoint c) with
     | Some v => opt_is (decode_drain_evidence v) NoMutationSubmitted
     | None => false
     end
  && match json_get "previous" (cc_checkpoint c) with
     | Some v => compute_unstarted_checkpoint v
     | None => false
     end.

Definition can_recover_compute_drain (c : ComputeControlRecord) : bool :=
  match cc_state c with CRunning | CRecoveryRequired => true | _ => false end
  && bool_decide (early_compute_boundary c = BeforeContainerSubmission).

Definition compute_lease_family (scope : UserAppOperationScope) : result ServiceType string :=
  match scope with
  | Dev => Ok UserappBuilder
  | Prod => Ok Userapp
  | Application => Err "Compute lease requires dev or prod scope"
  end.

(** ** Retained volumes and absent controllers
    ([rcoder-storage/.../compute_restart_absence.rs]) *)

(** The loop over the volumes, with the names and uids seen so far. *)
Fixpoint distinct_volumes (names uids : list string) (volumes : list AppResourceIdentity) : bool :=
  match volumes with
  | [] => true
  | v :: rest =>
      bool_decide (res_kind v = PersistentVolumeClaim)
      && negb (str_is_empty (res_name v)) && negb (str_is_empty (res_uid v))
      && negb (bool_decide (res_name v ∈ names)) && negb (bool_decide (res_uid v ∈ uids))
      && distinct_volumes (res_name v :: names) (res_uid v :: uids) rest
  end.

Definition retained_builder_volume_evidence (c : ComputeControlRecord) : bool :=
  match json_get "builder_volumes" (cc_checkpoint c) ≫= decode_resources with
  | None => false
  | Some volumes =>
      bool_decide (cc_action c = CRestart) && bool_decide (cc_scope c = Dev)
      && match cc_lease c with Some (KubernetesLease UserappBuilder _ _ _ _ _) => true | _ => false end
      && negb (bool_decide (volumes = [])) && distinct_volumes [] [] volumes
  end.

Definition retained_builder_creation (c : ComputeControlRecord) : bool :=
  match decode_builder_target (cc_checkpoint c) with
  | None => false
  | Some target =>
      retained_builder_volume_evidence c && context_is c (bt_context target)
      && is_ok (builder_target_validate target) && is_none (bt_workload target)
      && is_none (bt_pod target) && is_none (bt_resource_binding target)
  end.

Definition stopped_builder_absence (c : ComputeControlRecord) (next : BuilderControlTarget) : bool :=
  match decode_builder_target (cc_checkpoint c) with
  | None => false
  | Some old =>
      bool_decide (cc_stage c = "stopped") && retained_builder_volume_evidence c
      && is_ok (builder_target_validate old) && is_ok (builder_target_validate next)
      && context_is c (bt_context old) && context_is c (bt_context next)
      && workload_is StatefulSet (bt_workload old) && is_none (bt_workload next)
      && is_none (bt_pod next) && is_none (bt_resource_binding next)
      && bool_decide (bt_restart_image old = bt_restart_image next)
      && bool_decide (bt_builder_startup_mode old = bt_builder_startup_mode next)
      && match bt_restart_runtime_workspace old with
         | Some workspace => bool_decide (workspace = userapp_dev_workspace (cc_app_id c))
         | None => true
         end
      && is_none (bt_restart_runtime_workspace next)
  end.
End codec.
