(* ===== verification/ComputeStore.v ===== *)
(** * Compute control in the store: intents and admission
    ([rcoder-storage/src/userapp_lifecycle/common/compute.rs],
    [common/ops/operation.rs], [common/ops/recovery.rs],
    [schema/userapp-compute-control-v2.sql])

    The tables of [LifecycleStore.v] with those of compute control: one control
    per stop or restart, one intent (the current pointer) per environment, the
    lease receipts of ordinary operations, and deadlines.  A table is keyed by
    operation id over all applications; the application in focus is [st_app],
    and rows of others do not count.  As there, a transaction that fails is
    rolled back, and writers are taken one at a time, in the order in which they
    claim the application row.

    A JSON column holds its value and an enumeration column its constructor;
    text that no writer produces is not considered.  [revision + 1] in SQL fails
    beyond 64 bits, as PostgreSQL does.  Columns nothing reads back
    ([updated_at_us], [terminal_at_us]) are left out; the private inputs of
    operations are in [LifecycleRecovery.v]. *)
From stdpp Require Import sorting countable.
From S2P Require Import Prelude Validation Lifecycle Evidence LifecycleDomain LifecycleStore.
From S2P Require Import OperationLease ComputeControl.
From Stdlib Require Import Ascii.
Import Text Identifier.
Local Open Scope rust_scope.

(** ** Tables *)

#[global] Instance UserAppOperationScope_countable : Countable UserAppOperationScope.
Proof.
  refine (inj_countable' (λ s, match s with Dev => 0 | Prod => 1 | Application => 2 end)
            (λ n, match n with 0 => Dev | 1 => Prod | _ => Application end) _).
  by intros [].
Defined.

Record ComputeIntent := mkIntent {
  ci_app_id : string;
  ci_scope : UserAppOperationScope;
  ci_lifecycle_id : string;
  ci_generation : Z;
  ci_revision : Z;
  ci_desired_state : string;
  ci_control_operation_id : option string;
}.
#[global] Instance ComputeIntent_eq_dec : EqDecision ComputeIntent.
Proof. solve_decision. Defined.

Record ComputeControlDeadline := mkDeadline {
  cd_app_id : string;
  cd_lifecycle_id : string;
  cd_deadline_ms : Z;
  cd_unheld_observed_ms : option Z;
}.

Record ComputeStore := mkComputeStore {
  cs_store : AppStore;
  cs_leases : gmap string UserAppOperationLeaseBinding;
  cs_controls : gmap string ComputeControlRecord;
  cs_intents : gmap UserAppOperationScope ComputeIntent;
  cs_deadlines : gmap string ComputeControlDeadline;
}.

Definition with_store (st : AppStore) (cs : ComputeStore) : ComputeStore :=
  mkComputeStore st (cs_leases cs) (cs_controls cs) (cs_intents cs) (cs_deadlines cs).
Definition with_leases (l : gmap string UserAppOperationLeaseBinding) (cs : ComputeStore)
    : ComputeStore :=
  mkComputeStore (cs_store cs) l (cs_controls cs) (cs_intents cs) (cs_deadlines cs).
Definition with_controls (c : gmap string ComputeControlRecord) (cs : ComputeStore) : ComputeStore :=
  mkComputeStore (cs_store cs) (cs_leases cs) c (cs_intents cs) (cs_deadlines cs).
Definition with_intents (i : gmap UserAppOperationScope ComputeIntent) (cs : ComputeStore)
    : ComputeStore :=
  mkComputeStore (cs_store cs) (cs_leases cs) (cs_controls cs) i (cs_deadlines cs).
Definition with_deadlines (d : gmap string ComputeControlDeadline) (cs : ComputeStore)
    : ComputeStore :=
  mkComputeStore (cs_store cs) (cs_leases cs) (cs_controls cs) (cs_intents cs) d.

Abbreviation Tx A := (ComputeStore → result (A * ComputeStore) UserAppStoreError).

Definition cs_app (cs : ComputeStore) : UserAppLifecycleRecord := st_app (cs_store cs).
Definition cs_ops (cs : ComputeStore) : OperationTable := st_ops (cs_store cs).

(** [repo::app]. *)
Definition find_app (cs : ComputeStore) (id : string) : option UserAppLifecycleRecord :=
  if bool_decide (app_id (cs_app cs) = id) then Some (cs_app cs) else None.

(** The mutable columns of a control; its identity never changes. *)
Definition cc_set (c : ComputeControlRecord) (revision : Z) (state : ComputeControlState)
    (executor : option string) (stage : string) (checkpoint : Json)
    (code message : option string) (lease : option UserAppOperationLeaseReceipt)
    : ComputeControlRecord :=
  mkControl (cc_created_at c) (cc_app_id c) (cc_lifecycle_id c) (cc_request_id c) (cc_scope c)
    (cc_operation_id c) (cc_request_fingerprint c) (cc_generation c) (cc_action c)
    (cc_interrupted_operations c) revision state executor stage checkpoint code message lease.

(** [revision=revision+1] in SQL. *)
Definition sql_succ (n : Z) : result Z UserAppStoreError :=
  ok_or (i64_checked_succ n) (StorageFailure "bigint out of range").
(** [checked_add(1)] in Rust. *)
Definition rust_succ (n : Z) : result Z UserAppStoreError :=
  ok_or (i64_checked_succ n) (InvalidOperation "Compute revision exhausted").

(** [UPDATE userapp_compute_controls SET .. WHERE operation_id=.. AND ..]; no
    row changed is a version conflict. *)
Definition update_control (id : string) (guard : ComputeControlRecord → bool)
    (set : ComputeControlRecord → result ComputeControlRecord UserAppStoreError) (cs : ComputeStore)
    : result ComputeStore UserAppStoreError :=
  match cs_controls cs !! id with
  | Some row =>
      if guard row then
        let? row' := set row in
        Ok (with_controls (<[id := row']> (cs_controls cs)) cs)
      else Err VersionConflict
  | None => Err VersionConflict
  end.

(** ** Rows *)

(** The checks [decode] makes of a row. *)
Definition decode (row : ComputeControlRecord) : result ComputeControlRecord UserAppStoreError :=
  let? _ := ensure (negb ((cc_generation row <? 1) || (cc_revision row <? 1))%Z)
              (InvalidOperation "Invalid compute control revision") in
  let? _ :=
    match cc_lease row with
    | None => Ok tt
    | Some receipt =>
        let? _ := map_err InvalidOperation (lease_validate receipt) in
        let? expected := match cc_scope row with
                         | Dev => Ok UserappBuilder
                         | Prod => Ok Userapp
                         | Application => Err (InvalidOperation "Invalid compute receipt scope")
                         end in
        ensure (bool_decide (lease_service_type receipt = expected)
                && negb (match cc_executor_id row with Some e => str_is_empty e | None => true end))
          (InvalidOperation "Invalid compute receipt owner")
    end in
  Ok row.

Definition get (cs : ComputeStore) (app id : string)
    : result (option ComputeControlRecord) UserAppStoreError :=
  match cs_controls cs !! id with
  | Some row =>
      if bool_decide (cc_app_id row = app) then let? c := decode row in Ok (Some c) else Ok None
  | None => Ok None
  end.

Definition persisted_desired_stopped (value : string) : result bool UserAppStoreError :=
  if bool_decide (value = "stopped") then Ok true
  else if bool_decide (value = "running") then Ok false
  else Err (StorageFailure "unknown persisted compute desired state").

(** ** Drained work ([compute_execution.rs]) *)

Definition never_claimed (c : ComputeControlRecord) : bool :=
  bool_decide (cc_state c = CSuperseded) && is_none (cc_executor_id c)
  && bool_decide (cc_stage c = "accepted").

Definition reconciled (record old : ComputeControlRecord) : bool :=
  bool_decide (cc_lifecycle_id old = cc_lifecycle_id record)
  && (match cc_state old with CSucceeded | CFailed => true | _ => false end || never_claimed old)
  && is_none (cc_lease old).

(** One interrupted operation: an ordinary one, else a control. *)
Definition drained_one (cs : ComputeStore) (record : ComputeControlRecord) (id : string)
    : result unit UserAppStoreError :=
  match find_operation (cs_ops cs) (cc_app_id record) id with
  | Some old =>
      let? _ := ensure (bool_decide (op_lifecycle_id old = cc_lifecycle_id record)
                        && op_is_terminal (op_state old))
                  (InvalidOperation "Interrupted business operation is not reconciled") in
      ensure (is_none (cs_leases cs !! id))
        (InvalidOperation "Interrupted business lease is not released")
  | None =>
      let? found := get cs (cc_app_id record) id in
      match found with
      | Some old =>
          ensure (reconciled record old)
            (InvalidOperation "Interrupted compute operation is not reconciled")
      | None => Err (InvalidOperation "Interrupted operation evidence is missing")
      end
  end.

(** The loop of [drained]. *)
Fixpoint drained_all (cs : ComputeStore) (record : ComputeControlRecord) (ids : list string)
    : result unit UserAppStoreError :=
  match ids with
  | [] => Ok tt
  | id :: rest => let? _ := drained_one cs record id in drained_all cs record rest
  end.

Definition drained (cs : ComputeStore) (record : ComputeControlRecord)
    : result unit UserAppStoreError :=
  drained_all cs record (cc_interrupted_operations record).

(** ** Heads *)

Inductive ScopedComputeHead :=
  | HeadAbsent
  | HeadCurrent (head : ComputeIntent)
  | HeadHistorical (head : ComputeIntent).

(** The controls of one lifecycle and scope; the database gives them in no
    particular order. *)
Definition scope_controls (app life : string) (scope : UserAppOperationScope)
    (controls : gmap string ComputeControlRecord) : list ComputeControlRecord :=
  filter (λ c, cc_app_id c = app ∧ cc_lifecycle_id c = life ∧ cc_scope c = scope)
    (map_to_list controls).*2.

Definition settled_one (cs : ComputeStore) (head : ComputeIntent) (row : ComputeControlRecord)
    : result unit UserAppStoreError :=
  let? control := decode row in
  let? _ :=
    if opt_is (ci_control_operation_id head) (cc_operation_id control) then
      ensure (bool_decide (cc_app_id control = ci_app_id head)
              && bool_decide (cc_lifecycle_id control = ci_lifecycle_id head)
              && bool_decide (cc_scope control = ci_scope head)
              && (cc_generation control =? ci_generation head)%Z)
        (InvalidOperation "Compute intent operation identity mismatch")
    else Ok tt in
  let? _ :=
    match cc_state control with
    | CSucceeded | CFailed => Ok tt
    | CSuperseded =>
        ensure (is_none (cc_executor_id control) && bool_decide (cc_stage control = "accepted")
                && is_none (cc_lease control)) LifecycleConflict
    | CPending | CRunning | CRecoveryRequired => Err LifecycleConflict
    end in
  drained cs control.

Fixpoint settled_all (cs : ComputeStore) (head : ComputeIntent) (rows : list ComputeControlRecord)
    : result unit UserAppStoreError :=
  match rows with
  | [] => Ok tt
  | row :: rest => let? _ := settled_one cs head row in settled_all cs head rest
  end.

Definition validate_settled_head (cs : ComputeStore) (head : ComputeIntent)
    : result unit UserAppStoreError :=
  let? _ := ensure (negb ((ci_generation head <? 1) || (ci_revision head <? 1))%Z)
              (InvalidOperation "Invalid compute intent revision") in
  let? _ := ensure (match ci_scope head with Dev | Prod => true | Application => false end)
              (InvalidOperation "Invalid compute intent scope") in
  let controls := scope_controls (ci_app_id head) (ci_lifecycle_id head) (ci_scope head)
                    (cs_controls cs) in
  let? _ := settled_all cs head controls in
  ensure (match ci_control_operation_id head with
          | None => true
          | Some id => existsb (λ c, bool_decide (cc_operation_id c = id)) controls
          end)
    (InvalidOperation "Compute intent operation missing or outside its scope").

Definition classify_scoped_head (cs : ComputeStore) (app : UserAppLifecycleRecord)
    (scope : UserAppOperationScope) (head : ComputeIntent)
    : result ScopedComputeHead UserAppStoreError :=
  let? _ := ensure (bool_decide (ci_app_id head = app_id app) && bool_decide (ci_scope head = scope))
              (InvalidOperation "Compute intent scope identity mismatch") in
  if bool_decide (ci_lifecycle_id head = app_lifecycle_id app) then Ok (HeadCurrent head) else
  let? _ := validate_settled_head cs head in
  Ok (HeadHistorical head).

Definition read_scoped_head (cs : ComputeStore) (app : UserAppLifecycleRecord)
    (scope : UserAppOperationScope) : result ScopedComputeHead UserAppStoreError :=
  match cs_intents cs !! scope with
  | Some head => classify_scoped_head cs app scope head
  | None => Ok HeadAbsent
  end.

(** [DELETE FROM userapp_compute_intents WHERE ..]: the pointer, not the
    controls. *)
Definition retire_head (head : ComputeIntent) (cs : ComputeStore)
    : result ComputeStore UserAppStoreError :=
  match cs_intents cs !! ci_scope head with
  | Some row =>
      if bool_decide (ci_app_id row = ci_app_id head)
         && bool_decide (ci_lifecycle_id row = ci_lifecycle_id head)
         && (ci_revision row =? ci_revision head)%Z && (ci_generation row =? ci_generation head)%Z
      then Ok (with_intents (delete (ci_scope head) (cs_intents cs)) cs)
      else Err VersionConflict
  | None => Err VersionConflict
  end.

Definition retire_scope (app : UserAppLifecycleRecord) (scope : UserAppOperationScope)
    (cs : ComputeStore) : result ComputeStore UserAppStoreError :=
  let? head := read_scoped_head cs app scope in
  match head with
  | HeadCurrent head => let? _ := validate_settled_head cs head in retire_head head cs
  | HeadHistorical head => retire_head head cs
  | HeadAbsent => Ok cs
  end.

Definition retire_lifecycle_heads (app : UserAppLifecycleRecord) (cs : ComputeStore)
    : result ComputeStore UserAppStoreError :=
  let? cs := retire_scope app Dev cs in
  retire_scope app Prod cs.

(** ** Reading the state of a scope *)

Definition read_status (cs : ComputeStore) (app lifecycle : string) (scope : UserAppOperationScope)
    : result UserAppComputeStatus UserAppStoreError :=
  let? _ := ensure (negb (bool_decide (scope = Application)))
              (InvalidOperation "Compute status requires dev or prod scope") in
  let? a := ok_or (find_app cs app) NotFound in
  let? _ := ensure (negb (bool_decide (app_state a = Deleted))) NotFound in
  let? _ := ensure (bool_decide (app_lifecycle_id a = lifecycle)) LifecycleConflict in
  let? head := read_scoped_head cs a scope in
  match head with
  | HeadHistorical _ | HeadAbsent => Ok status_default
  | HeadCurrent head =>
      let? _ := ensure (negb ((ci_generation head <? 1) || (ci_revision head <? 1))%Z)
                  (InvalidOperation "Invalid compute intent revision") in
      let? desired := persisted_desired_stopped (ci_desired_state head) in
      let? operation :=
        match ci_control_operation_id head with
        | Some id =>
            let? found := get cs app id in
            let? control := ok_or found (InvalidOperation "Compute intent operation missing") in
            let? _ := ensure (bool_decide (cc_lifecycle_id control = lifecycle)
                              && bool_decide (cc_scope control = scope)
                              && (cc_generation control =? ci_generation head)%Z)
                        (InvalidOperation "Compute intent operation identity mismatch") in
            Ok (Some control)
        | None => Ok None
        end in
      Ok {| cst_desired_stopped := desired; cst_generation := ci_generation head;
            cst_revision := ci_revision head; cst_operation := operation |}
  end.

(** The live controls of an application, oldest first. *)
Definition older (c c' : ComputeControlRecord) : Prop := (cc_created_at c ≤ cc_created_at c')%Z.
#[global] Instance older_dec c c' : Decision (older c c').
Proof. unfold older. apply _. Defined.

Fixpoint decode_all (rows : list ComputeControlRecord)
    : result (list ComputeControlRecord) UserAppStoreError :=
  match rows with
  | [] => Ok []
  | row :: rest => let? c := decode row in let? cs := decode_all rest in Ok (c :: cs)
  end.

Definition active_controls (cs : ComputeStore) (app : string)
    : result (list ComputeControlRecord) UserAppStoreError :=
  decode_all (merge_sort older
    (filter (λ c, cc_app_id c = app ∧ cc_terminal (cc_state c) = false) (map_to_list (cs_controls cs)).*2)).

Definition desired_stopped (cs : ComputeStore) (app lifecycle : string)
    (scope : UserAppOperationScope) : result bool UserAppStoreError :=
  let? _ := ensure (negb (bool_decide (scope = Application)))
              (InvalidOperation "Compute intent requires dev or prod scope") in
  match find_app cs app with
  | None =>
      (* a head of an application that is gone has no lifecycle to belong to *)
      match cs_intents cs !! scope with
      | Some head => if bool_decide (ci_app_id head = app) then Err LifecycleConflict else Ok false
      | None => Ok false
      end
  | Some a =>
      let? _ := ensure (bool_decide (app_lifecycle_id a = lifecycle)) LifecycleConflict in
      let? head := read_scoped_head cs a scope in
      match head with
      | HeadCurrent head => persisted_desired_stopped (ci_desired_state head)
      | HeadHistorical _ | HeadAbsent => Ok false
      end
  end.

(** ** Conflicts with a live control *)

Definition control_conflict (c : ComputeControlRecord) : UserAppStoreError :=
  OperationInProgress
    {| blk_scope := cc_scope c; blk_operation_id := cc_operation_id c;
       blk_kind := match cc_scope c, cc_action c with
                   | Dev, CStop => StopBuilder
                   | Dev, CRestart => RestartBuilder
                   | (Prod | Application), CStop => Stop
                   | (Prod | Application), CRestart => Restart
                   end;
       blk_state := match cc_state c with
                    | CPending => Pending
                    | CRecoveryRequired => RecoveryRequired
                    | CRunning | CSucceeded | CFailed | CSuperseded => Running
                    end;
       blk_step := cc_stage c |}.

(** The scopes a business operation of [scope] competes in. *)
Definition compute_scopes (scope : UserAppOperationScope) : list UserAppOperationScope :=
  match scope with Application => [Dev; Prod] | Dev => [Dev] | Prod => [Prod] end.

(** The control the current head of a scope points to. *)
Definition head_control (cs : ComputeStore) (app : UserAppLifecycleRecord)
    (scope : UserAppOperationScope) : result (option ComputeControlRecord) UserAppStoreError :=
  let? head := read_scoped_head cs app scope in
  match head with
  | HeadHistorical _ | HeadAbsent => Ok None
  | HeadCurrent head =>
      match ci_control_operation_id head with
      | None => Ok None
      | Some id =>
          let? found := get cs (app_id app) id in
          let? control := ok_or found (InvalidOperation "Compute intent target is missing") in
          Ok (Some control)
      end
  end.

Fixpoint guard_scopes (cs : ComputeStore) (app : UserAppLifecycleRecord)
    (refuse : ComputeControlRecord → option UserAppStoreError)
    (scopes : list UserAppOperationScope) : result unit UserAppStoreError :=
  match scopes with
  | [] => Ok tt
  | scope :: rest =>
      let? control := head_control cs app scope in
      let? _ := match control ≫= refuse with Some e => Err e | None => Ok tt end in
      guard_scopes cs app refuse rest
  end.

(** No new business operation while a control is live in its scope. *)
Definition guard_admission (cs : ComputeStore) (app : UserAppLifecycleRecord)
    (scope : UserAppOperationScope) : result unit UserAppStoreError :=
  guard_scopes cs app
    (λ c, if cc_terminal (cc_state c) then None else Some (control_conflict c))
    (compute_scopes scope).

(** No success for an operation that the head's control interrupted. *)
Definition check_business_authority (cs : ComputeStore) (o : UserAppOperationRecord)
    : result unit UserAppStoreError :=
  let? app := ok_or (find_app cs (op_app_id o)) NotFound in
  let? _ := ensure (bool_decide (app_lifecycle_id app = op_lifecycle_id o)) LifecycleConflict in
  guard_scopes cs app
    (λ c, if bool_decide (op_operation_id o ∈ cc_interrupted_operations c)
          then Some VersionConflict else None)
    (compute_scopes (op_scope o)).

(** [ops::operation::owns]. *)
Definition op_owns (context : UserAppExecutionContext) (o : UserAppOperationRecord) : bool :=
  bool_decide (op_app_id o = ctx_app_id context)
  && bool_decide (op_operation_id o = ctx_operation_id context)
  && bool_decide (op_lifecycle_id o = ctx_lifecycle_id context)
  && opt_is (op_executor_id o) (ctx_executor_id context)
  && bool_decide (op_request_fingerprint o = ctx_request_fingerprint context).

Definition check_business_execution (cs : ComputeStore) (context : UserAppExecutionContext)
    : result unit UserAppStoreError :=
  let? _ := checked (validate_identity context (ctx_app_id context)) in
  let? app := ok_or (find_app cs (ctx_app_id context)) NotFound in
  let? _ := ensure (bool_decide (app_lifecycle_id app = ctx_lifecycle_id context)) LifecycleConflict in
  let? o := ok_or (find_operation (cs_ops cs) (ctx_app_id context) (ctx_operation_id context)) NotFound in
  let? _ := ensure (op_owns context o && bool_decide (op_state o = Running)
                    && slot_matches_operation app o) VersionConflict in
  check_business_authority cs o.
