(* ===== verification/ComputeAdmission.v ===== *)
(** * Compute control in the store: admission, claims and business work
    ([common/compute.rs], [common/ops/operation.rs], [common/ops/application.rs],
    [common/ops/recovery.rs])

    A stop or restart is admitted over ordinary work, which it lists as
    interrupted; an executor claims it; business transactions consult it.  The
    verdict of [configuration::validate_terminal] on an operation is the input
    [uncertain] of the transactions that end one. *)
From stdpp Require Import sorting.
From S2P Require Import Prelude Validation Lifecycle Evidence LifecycleDomain LifecycleStore.
From S2P Require Import OperationLease ComputeControl ComputeStore.
From Stdlib Require Import Ascii.
Import Text Identifier.
Local Open Scope rust_scope.

Module Compute.

(** ** Admission *)

Fixpoint validate_identifiers (fields : list (string * string)) : result unit string :=
  match fields with
  | [] => Ok tt
  | (value, name) :: rest => let? _ := validate_identifier value name in validate_identifiers rest
  end.

(** The checks on the request itself, in source order. *)
Definition admit_checks (request : ComputeControlRequest) (idle_only : bool)
    : result unit UserAppStoreError :=
  let? _ := checked (validate_identifiers
              [(ccq_app_id request, "app_id"); (ccq_lifecycle_id request, "lifecycle_id");
               (ccq_operation_id request, "operation_id"); (ccq_request_id request, "request_id")]) in
  let? _ := if negb idle_only then checked (validate_user_compute_request_id (ccq_request_id request))
            else ensure (is_automatic_repair (ccq_request_id request))
                   (InvalidOperation "Automatic repair requires an internal request identity") in
  let? _ := ensure (negb (bool_decide (ccq_scope request = Application)))
              (InvalidOperation "Compute control requires dev or prod scope") in
  ensure (Nat.eqb (String.length (ccq_request_fingerprint request)) 64
          && str_all is_ascii_hexdigit (ccq_request_fingerprint request))
    (InvalidOperation "Invalid compute request fingerprint").

(** The row an earlier admission of the same request left. *)
Definition find_replay (controls : gmap string ComputeControlRecord) (request : ComputeControlRequest)
    : option ComputeControlRecord :=
  head (filter (λ c, cc_app_id c = ccq_app_id request ∧ cc_scope c = ccq_scope request
                     ∧ cc_request_id c = ccq_request_id request) (map_to_list controls).*2).

Definition same_input (c : ComputeControlRecord) (request : ComputeControlRequest) : bool :=
  bool_decide (cc_lifecycle_id c = ccq_lifecycle_id request)
  && bool_decide (cc_request_fingerprint c = ccq_request_fingerprint request)
  && bool_decide (cc_action c = ccq_action request).

(** [SELECT COALESCE(MAX(generation),0)] of a scope, over all lifecycles. *)
Definition max_generation (controls : gmap string ComputeControlRecord) (app : string)
    (scope : UserAppOperationScope) : Z :=
  foldr (λ c acc, Z.max (cc_generation c) acc) 0%Z
    (filter (λ c, cc_app_id c = app ∧ cc_scope c = scope) (map_to_list controls).*2).

Definition next_generation (controls : gmap string ComputeControlRecord) (app : string)
    (scope : UserAppOperationScope) : result Z UserAppStoreError :=
  ok_or (i64_checked_succ (max_generation controls app scope))
    (InvalidOperation "Compute generation exhausted").

(** Which request may take a scope from a live control. *)
Definition may_supersede (request : ComputeControlRequest) (idle_only : bool)
    (old : ComputeControlRecord) : bool :=
  (bool_decide (ccq_action request = CStop) && bool_decide (cc_action old = CRestart))
  || (negb idle_only && bool_decide (ccq_action request = CRestart)
      && is_automatic_repair (cc_request_id old)).

(** What the control a head points to hands over: the operations it
    interrupted, and itself if it is live. *)
Definition inherit (cs : ComputeStore) (request : ComputeControlRequest) (idle_only : bool)
    (head : ComputeIntent) : result (list string * option string) UserAppStoreError :=
  match ci_control_operation_id head with
  | None => Ok ([], None)
  | Some id =>
      let? found := get cs (ccq_app_id request) id in
      let? old := ok_or found (InvalidOperation "Compute intent target is missing") in
      if cc_terminal (cc_state old) then Ok (cc_interrupted_operations old, None) else
      let? _ := ensure (may_supersede request idle_only old) (control_conflict old) in
      Ok (cc_interrupted_operations old ++ [cc_operation_id old], Some (cc_operation_id old))
  end.

(** [sort] and [dedup]. *)
Fixpoint dedup (l : list string) : list string :=
  match l with
  | x :: (y :: _) as rest => if bool_decide (x = y) then dedup rest else x :: dedup rest
  | l => l
  end.
Definition sort_dedup (l : list string) : list string := dedup (merge_sort String.le l).

Definition opt_list {A} (o : option A) : list A := match o with Some a => [a] | None => [] end.

(** The control a request inserts. *)
Definition admitted_control (request : ComputeControlRequest) (generation : Z)
    (interrupted : list string) (now : Z) : ComputeControlRecord :=
  mkControl now (ccq_app_id request) (ccq_lifecycle_id request) (ccq_request_id request)
    (ccq_scope request) (ccq_operation_id request) (ccq_request_fingerprint request) generation
    (ccq_action request) interrupted 1 CPending None "accepted"
    (JObj [("builder_startup_mode", startup_mode_json (ccq_builder_startup_mode request));
           ("restart_image_roll", JBool (ccq_restart_image_roll request))])
    None None None.

(** The update that takes authority from the old control. *)
Definition supersede (id : option string) (cs : ComputeStore)
    : result ComputeStore UserAppStoreError :=
  match id with
  | None => Ok cs
  | Some id =>
      match cs_controls cs !! id with
      | Some c =>
          if cc_terminal (cc_state c) then Ok cs else
          let? revision := sql_succ (cc_revision c) in
          Ok (with_controls (<[id := cc_set c revision CSuperseded (cc_executor_id c) (cc_stage c)
                (cc_checkpoint c) (cc_error_code c) (cc_error_message c) (cc_lease c)]>
                (cs_controls cs)) cs)
      | None => Ok cs
      end
  end.

(** The insertion and its unique keys. *)
Definition insert_control (c : ComputeControlRecord) (cs : ComputeStore)
    : result ComputeStore UserAppStoreError :=
  let? _ := ensure (is_none (cs_controls cs !! cc_operation_id c)
                    && forallb (λ d, negb (bool_decide (cc_app_id d = cc_app_id c)
                                           && bool_decide (cc_scope d = cc_scope c)
                                           && (bool_decide (cc_request_id d = cc_request_id c)
                                               || (cc_generation d =? cc_generation c)%Z)))
                         (map_to_list (cs_controls cs)).*2)
              (StorageFailure "duplicate compute control") in
  Ok (with_controls (<[cc_operation_id c := c]> (cs_controls cs)) cs).

Definition desired_of (action : ComputeControlAction) : string :=
  match action with CStop => "stopped" | CRestart => "running" end.

(** The head is moved under its revision, or created. *)
Definition point_head (request : ComputeControlRequest) (head : option ComputeIntent)
    (generation revision : Z) (cs : ComputeStore) : result ComputeStore UserAppStoreError :=
  let row := mkIntent (ccq_app_id request) (ccq_scope request) (ccq_lifecycle_id request)
               generation revision (desired_of (ccq_action request))
               (Some (ccq_operation_id request)) in
  let? _ := match head with
            | Some head =>
                ensure (match cs_intents cs !! ccq_scope request with
                        | Some row =>
                            bool_decide (ci_app_id row = ccq_app_id request)
                            && bool_decide (ci_lifecycle_id row = ccq_lifecycle_id request)
                            && (ci_revision row =? ci_revision head)%Z
                            && (ci_generation row =? ci_generation head)%Z
                        | None => false
                        end) VersionConflict
            | None => ensure (is_none (cs_intents cs !! ccq_scope request))
                        (StorageFailure "duplicate compute intent")
            end in
  Ok (with_intents (<[ccq_scope request := row]> (cs_intents cs)) cs).

(** The current head; a settled one of an older lifecycle is retired. *)
Definition take_head (cs : ComputeStore) (app : UserAppLifecycleRecord)
    (scope : UserAppOperationScope) : result (option ComputeIntent * ComputeStore) UserAppStoreError :=
  let? head := read_scoped_head cs app scope in
  match head with
  | HeadCurrent head => Ok (Some head, cs)
  | HeadHistorical head => let? cs := retire_head head cs in Ok (None, cs)
  | HeadAbsent => Ok (None, cs)
  end.

Definition idle_request_ok (request : ComputeControlRequest)
    (records : UserAppActiveOperationRecords) : bool :=
  bool_decide (ccq_scope request = Dev) && bool_decide (ccq_action request = CRestart)
  && is_none (rec_dev records) && is_none (rec_application records).

(** The admission of a request that is not a replay. *)
Definition admit_new (request : ComputeControlRequest) (idle_only : bool) (now : Z)
    (app : UserAppLifecycleRecord) : Tx ComputeControlRecord := λ cs,
  let? records := active (cs_ops cs) app in
  let? _ := ensure (negb idle_only || idle_request_ok request records) VersionConflict in
  let? _ := ensure (match rec_application records with
                    | Some o => negb (ends_lifecycle (op_kind o))
                    | None => true end) LifecycleConflict in
  let? (head, cs) := take_head cs app (ccq_scope request) in
  let? _ := match head with
            | Some head =>
                if idle_only then
                  let? stopped := persisted_desired_stopped (ci_desired_state head) in
                  ensure (negb stopped) VersionConflict
                else Ok tt
            | None => Ok tt
            end in
  let? (inherited, supersedes) :=
    match head with
    | Some head =>
        let? _ := ensure (bool_decide (ci_lifecycle_id head = ccq_lifecycle_id request))
                    LifecycleConflict in
        inherit cs request idle_only head
    | None => Ok ([], None)
    end in
  let? generation := next_generation (cs_controls cs) (ccq_app_id request) (ccq_scope request) in
  let? revision := match head with Some head => rust_succ (ci_revision head) | None => Ok 1%Z end in
  let interrupted :=
    sort_dedup (inherited ++ opt_list (slot (active_operations app) (ccq_scope request))
                ++ opt_list (slot (active_operations app) Application)) in
  let? cs := supersede supersedes cs in
  let? cs := insert_control (admitted_control request generation interrupted now) cs in
  let? cs := point_head request head generation revision cs in
  let? found := get cs (ccq_app_id request) (ccq_operation_id request) in
  let? c := ok_or found NotFound in
  Ok (c, cs).

Definition admit_control (request : ComputeControlRequest) (idle_only : bool) (now : Z)
    : Tx ComputeControlRecord := λ cs,
  let? _ := admit_checks request idle_only in
  let? app := ok_or (find_app cs (ccq_app_id request)) NotFound in
  let? _ := validate_active app in
  let? _ := ensure (bool_decide (app_lifecycle_id app = ccq_lifecycle_id request)) LifecycleConflict in
  match find_replay (cs_controls cs) request with
  | Some replay =>
      let? _ := ensure (same_input replay request)
                  (RequestReplayConflict "Compute request identity was reused with different input") in
      let? c := decode replay in
      Ok (c, cs)
  | None => admit_new request idle_only now app cs
  end.

(** ** The live control an executor acts for *)

Definition current (cs : ComputeStore) (identity : ComputeExecutorIdentity)
    : result ComputeControlRecord UserAppStoreError :=
  let? _ := ensure (negb (bool_decide (cei_scope identity = Application) || (cei_generation identity <? 1)%Z))
              (InvalidOperation "Invalid compute executor scope or generation") in
  let? _ := checked (validate_identifier (cei_executor_id identity) "executor_id") in
  let? app := ok_or (find_app cs (cei_app_id identity)) NotFound in
  let? _ := validate_active app in
  let? _ := ensure (bool_decide (app_lifecycle_id app = cei_lifecycle_id identity)) LifecycleConflict in
  let? head := ok_or (cs_intents cs !! cei_scope identity) NotFound in
  let? _ := ensure (bool_decide (ci_lifecycle_id head = cei_lifecycle_id identity)
                    && (ci_generation head =? cei_generation identity)%Z
                    && opt_is (ci_control_operation_id head) (cei_operation_id identity))
              VersionConflict in
  let? found := get cs (cei_app_id identity) (cei_operation_id identity) in
  let? record := ok_or found NotFound in
  let? _ := ensure (bool_decide (cc_lifecycle_id record = cei_lifecycle_id identity)
                    && bool_decide (cc_scope record = cei_scope identity)
                    && (cc_generation record =? cei_generation identity)%Z
                    && negb (cc_terminal (cc_state record)))
              VersionConflict in
  Ok record.

Definition check (cs : ComputeStore) (identity : ComputeExecutorIdentity)
    : result unit UserAppStoreError :=
  let? record := current cs identity in
  ensure (bool_decide (cc_state record = CRunning)
          && opt_is (cc_executor_id record) (cei_executor_id identity)) VersionConflict.

(** ** Claims *)

Section claims.
Context `{CheckpointCodec, ComputeCodec}.

(** The columns of an operation a cancellation writes. *)
Definition op_set (o : UserAppOperationRecord) (state : UserAppOperationState) (revision : Z)
    (step : string) (checkpoint : Json) (code message : option string) : UserAppOperationRecord :=
  {| op_runtime_policy_on_success := op_runtime_policy_on_success o; op_command := op_command o;
     op_admitted_metadata := op_admitted_metadata o; op_operation_id := op_operation_id o;
     op_app_id := op_app_id o; op_lifecycle_id := op_lifecycle_id o;
     op_request_id := op_request_id o; op_request_fingerprint := op_request_fingerprint o;
     op_kind := op_kind o; op_scope := op_scope o; op_state := state; op_revision := revision;
     op_executor_id := op_executor_id o; op_step := step; op_checkpoint := checkpoint;
     op_error_code := code; op_error_message := message; op_created_at := op_created_at o |}.

(** A wake that has returned from its writes and only watches for readiness. *)
Definition confirmed_wake (o : UserAppOperationRecord) : bool :=
  bool_decide (op_kind o = Start)
  && match op_state o with Running | RecoveryRequired => true | _ => false end
  && bool_decide (op_step o = "traffic_wake_observing")
  && bool_decide (json_get "start_write_acknowledged" (op_checkpoint o) = Some (JBool true))
  && match json_get "target" (op_checkpoint o) ≫= decode_mutation_target with
     | Some target =>
         bool_decide (ctx_app_id (mt_context target) = op_app_id o)
         && context_owns (mt_context target) o
     | None => false
     end.

Definition uncertain_verdict (uncertain : string → option UserAppStoreError) (id : string)
    : result unit UserAppStoreError :=
  match uncertain id with Some e => Err e | None => Ok tt end.

(** The failure report that ends an observed wake. *)
Definition wake_failure (control : ComputeControlRecord) (o : UserAppOperationRecord)
    (executor : string) : UserAppOperationProgress :=
  {| pr_app_id := op_app_id o; pr_operation_id := op_operation_id o;
     pr_lifecycle_id := op_lifecycle_id o; pr_expected_revision := op_revision o;
     pr_executor_id := executor; pr_state := Failed; pr_step := "traffic_wake_observation_failed";
     pr_checkpoint := json_set "compute_operation_id" (JStr (cc_operation_id control)) (op_checkpoint o);
     pr_error_code := Some "ERR_OPERATION_CANCELLED";
     pr_error_message := Some "Read-only wake observation interrupted by explicit compute control" |}.

Definition cancel_wake (control : ComputeControlRecord) (o : UserAppOperationRecord)
    (app : UserAppLifecycleRecord) : result (UserAppLifecycleRecord * UserAppOperationRecord) UserAppStoreError :=
  let? executor := ok_or (op_executor_id o) VersionConflict in
  let running := op_set o Running (op_revision o) (op_step o) (op_checkpoint o)
                   (op_error_code o) (op_error_message o) in
  let '(r, (app', o')) := advance (wake_failure control o executor) (app, running) in
  let? _ := r in
  Ok (app', o').

(** An operation no executor has claimed. *)
Definition cancel_pending (cs : ComputeStore) (control : ComputeControlRecord) (id : string)
    (o : UserAppOperationRecord) (app : UserAppLifecycleRecord)
    : result (UserAppLifecycleRecord * UserAppOperationRecord) UserAppStoreError :=
  let? _ := ensure ((op_revision o =? 1)%Z && is_none (op_executor_id o)
                    && negb (ends_lifecycle (op_kind o)) && slot_matches_operation app o
                    && is_none (cs_leases cs !! id))
              (InvalidOperation "Unclaimed operation has inconsistent execution evidence") in
  Ok (with_slots (slot_set (op_scope o) None (active_operations app)) app,
      op_set o Failed (op_revision o + 1) "cancelled_before_execution"
        (JObj [("compute_operation_id", JStr (cc_operation_id control));
               ("no_execution_claim", JBool true)])
        (Some "ERR_OPERATION_CANCELLED")
        (Some "Superseded by an explicit compute control before execution")).

(** One interrupted operation: ended if that is safe, else left to drain. *)
Definition cancel_one (cs : ComputeStore) (control : ComputeControlRecord)
    (uncertain : string → option UserAppStoreError) (id : string)
    (st : UserAppLifecycleRecord * OperationTable)
    : result (UserAppLifecycleRecord * OperationTable) UserAppStoreError :=
  let '(app, ops) := st in
  match find_operation ops (cc_app_id control) id with
  | None => Ok st
  | Some o =>
      let? _ := ensure (bool_decide (op_lifecycle_id o = cc_lifecycle_id control)) LifecycleConflict in
      if confirmed_wake o then
        let? _ := uncertain_verdict uncertain id in
        let? (app', o') := cancel_wake control o app in
        Ok (app', <[id := o']> ops)
      else if negb (bool_decide (op_state o = Pending)) then Ok st
      else
        let? (app', o') := cancel_pending cs control id o app in
        let? _ := uncertain_verdict uncertain id in
        Ok (app', <[id := o']> ops)
  end.

Fixpoint cancel_all (cs : ComputeStore) (control : ComputeControlRecord)
    (uncertain : string → option UserAppStoreError) (ids : list string)
    (st : UserAppLifecycleRecord * OperationTable)
    : result (UserAppLifecycleRecord * OperationTable) UserAppStoreError :=
  match ids with
  | [] => Ok st
  | id :: rest => let? st := cancel_one cs control uncertain id st in cancel_all cs control uncertain rest st
  end.

(** Of the application only the slots are saved. *)
Definition cancel_interruptible_business (control : ComputeControlRecord)
    (uncertain : string → option UserAppStoreError) (cs : ComputeStore)
    : result ComputeStore UserAppStoreError :=
  let? app := ok_or (find_app cs (cc_app_id control)) NotFound in
  let? (app', ops) := cancel_all cs control uncertain (cc_interrupted_operations control)
                        (app, cs_ops cs) in
  Ok (with_store (mkAppStore (with_slots (active_operations app') app) ops
                    (st_requests (cs_store cs))) cs).

Definition claim (identity : ComputeExecutorIdentity) (revision : Z)
    (uncertain : string → option UserAppStoreError) : Tx ComputeControlRecord := λ cs,
  let? record := current cs identity in
  let? _ := ensure ((cc_revision record =? revision)%Z && bool_decide (cc_state record = CPending)
                    && is_none (cc_executor_id record)) VersionConflict in
  let? next := rust_succ revision in
  let? cs := update_control (cei_operation_id identity)
    (λ c, (cc_revision c =? revision)%Z && is_none (cc_executor_id c)
          && bool_decide (cc_state c = CPending)
          && bool_decide (cc_lifecycle_id c = cei_lifecycle_id identity)
          && (cc_generation c =? cei_generation identity)%Z)
    (λ c, Ok (cc_set c next CRunning (Some (cei_executor_id identity))
                (stage_as_str DrainingPrevious) (cc_checkpoint c) (cc_error_code c)
                (cc_error_message c) (cc_lease c))) cs in
  let? cs := cancel_interruptible_business record uncertain cs in
  let? found := get cs (cei_app_id identity) (cei_operation_id identity) in
  let? c := ok_or found NotFound in
  Ok (c, cs).
End claims.

(** ** Access *)

(** [explicit_start] comes from chat and workspace entry points only. *)
Definition check_access (app : string) (scope : UserAppOperationScope) (explicit_start : bool)
    : Tx unit := λ cs,
  match (if bool_decide (app_id (cs_app cs) = app) then cs_intents cs !! scope else None) with
  | None => Ok (tt, cs)
  | Some head =>
      let? a := ok_or (find_app cs app) LifecycleConflict in
      let? _ := if explicit_start then validate_active a else Ok tt in
      let? head := classify_scoped_head cs a scope head in
      match head with
      | HeadHistorical _ | HeadAbsent => Ok (tt, cs)
      | HeadCurrent head =>
          let? _ := match ci_control_operation_id head with
                    | Some id =>
                        let? found := get cs app id in
                        let? control := ok_or found (InvalidOperation "Compute intent operation missing") in
                        ensure (cc_terminal (cc_state control)) (control_conflict control)
                    | None => Ok tt
                    end in
          let? stopped := persisted_desired_stopped (ci_desired_state head) in
          if stopped then
            let? _ := ensure explicit_start
                        (InvalidOperation "Compute is stopped; explicitly start or restart it before accessing this service") in
            let? revision := sql_succ (ci_revision head) in
            Ok (tt, with_intents (<[scope := mkIntent (ci_app_id head) (ci_scope head)
                      (ci_lifecycle_id head) (ci_generation head) revision "running" None]>
                      (cs_intents cs)) cs)
          else Ok (tt, cs)
      end
  end.
End Compute.

(** ** Business transactions, with their guards *)

Definition verdict {A} (r : result A UserAppStoreError) : option UserAppStoreError :=
  match r with Ok _ => None | Err e => Some e end.

Section business.
Context `{CheckpointCodec}.

Definition business_admit (request : UserAppAdmission) (input_digest : option string) (now : Z)
    : Tx UserAppAdmissionOutcome := λ cs,
  let guard := verdict (guard_admission cs (cs_app cs) (kind_scope (adm_kind request))) in
  let? (out, st) := admit_tx request input_digest guard now (cs_store cs) in
  Ok (out, with_store st cs).

Definition business_advance (p : UserAppOperationProgress) (uncertain : option UserAppStoreError)
    : Tx UserAppOperationRecord := λ cs,
  let guard := match find_operation (cs_ops cs) (app_id (cs_app cs)) (pr_operation_id p) with
               | Some o => verdict (check_business_authority cs o)
               | None => None
               end in
  let? (o, st) := advance_tx p guard uncertain (cs_store cs) in
  Ok (o, with_store st cs).

Definition business_patch (patch : UserAppMetadataPatch) : Tx UserAppLifecycleRecord := λ cs,
  let? (a, st) := patch_tx patch (cs_store cs) in
  Ok (a, with_store st cs).
End business.

(** *** Leases of ordinary operations ([common/ops/operation.rs]) *)

Definition current_operation (cs : ComputeStore) (app id lifecycle : string)
    : result (UserAppLifecycleRecord * UserAppOperationRecord) UserAppStoreError :=
  let? a := ok_or (find_app cs app) NotFound in
  let? _ := ensure (bool_decide (app_lifecycle_id a = lifecycle) && operation_owns_any_slot a id)
              LifecycleConflict in
  let? o := ok_or (find_operation (cs_ops cs) app id) NotFound in
  let? _ := ensure (slot_matches_operation a o) LifecycleConflict in
  Ok (a, o).

(** The receipt of an operation, read back and checked. *)
Definition get_operation_lease (cs : ComputeStore) (app id : string)
    : result (option UserAppOperationLeaseBinding) UserAppStoreError :=
  match cs_leases cs !! id with
  | Some b =>
      if bool_decide (ctx_app_id (lb_context b) = app) then
        let? _ := checked (validate_identity (lb_context b) (ctx_app_id (lb_context b))) in
        let? _ := checked (lease_validate (lb_receipt b)) in
        Ok (Some b)
      else Ok None
  | None => Ok None
  end.

Definition bind_operation_lease (context : UserAppExecutionContext)
    (receipt : UserAppOperationLeaseReceipt) : Tx unit := λ cs,
  let? _ := checked (validate_identity context (ctx_app_id context)) in
  let? _ := checked (lease_validate receipt) in
  let? (_, o) := current_operation cs (ctx_app_id context) (ctx_operation_id context)
                   (ctx_lifecycle_id context) in
  let? _ := ensure (op_owns context o && bool_decide (op_state o = Running)
                    && Bool.eqb (bool_decide (op_scope o = Dev))
                         (bool_decide (lease_service_type receipt = UserappBuilder)))
              VersionConflict in
  let? _ := check_business_authority cs o in
  let desired := {| lb_context := context; lb_receipt := receipt |} in
  let? previous := get_operation_lease cs (ctx_app_id context) (ctx_operation_id context) in
  match previous with
  | Some previous => let? _ := ensure (bool_decide (previous = desired)) VersionConflict in Ok (tt, cs)
  | None =>
      let? _ := ensure (is_none (cs_leases cs !! ctx_operation_id context))
                  (StorageFailure "duplicate operation lease") in
      Ok (tt, with_leases (<[ctx_operation_id context := desired]> (cs_leases cs)) cs)
  end.

Definition forget_operation_lease (binding : UserAppOperationLeaseBinding) : Tx unit := λ cs,
  let context := lb_context binding in
  let? o := ok_or (find_operation (cs_ops cs) (ctx_app_id context) (ctx_operation_id context)) NotFound in
  let? _ := ensure (op_is_terminal (op_state o) && op_owns context o) VersionConflict in
  let? stored := get_operation_lease cs (ctx_app_id context) (ctx_operation_id context) in
  match stored with
  | None => Ok (tt, cs)
  | Some stored =>
      let? _ := ensure (bool_decide (stored = binding)) VersionConflict in
      Ok (tt, with_leases (delete (ctx_operation_id context) (cs_leases cs)) cs)
  end.

(** *** A new lifecycle of a deleted application ([common/ops/recovery.rs])

    [fresh] is the new lifecycle id; the activity table, which recreation clears,
    is not modelled.  A repeated request answers with the application. *)
Definition recreate (app expected_lifecycle request_id fresh : string) (now : Z)
    : Tx UserAppLifecycleRecord := λ cs,
  let? _ := validate_request_id request_id in
  let? a := ok_or (find_app cs app) NotFound in
  match st_requests (cs_store cs) !! request_id with
  | Some previous =>
      let? _ := ensure (bool_decide (row_target_kind previous = "recreate"))
                  (InvalidOperation "request identity was already used for a control operation") in
      let? _ := ensure (opt_is (row_previous_lifecycle_id previous) expected_lifecycle
                        && opt_is (row_new_lifecycle_id previous) (app_lifecycle_id a)) LifecycleConflict in
      Ok (a, cs)
  | None =>
      let? _ := ensure (bool_decide (app_lifecycle_id a = expected_lifecycle)
                        && bool_decide (app_state a = Deleted) && slots_empty (active_operations a))
                  LifecycleConflict in
      let? cs := retire_lifecycle_heads a cs in
      let? epoch := ok_or (i64_checked_succ (lifecycle_epoch a))
                      (InvalidOperation "lifecycle epoch exhausted") in
      let a' := {| app_runtime_policy := policy_default; app_id := app_id a; app_lifecycle_id := fresh;
                   lifecycle_epoch := epoch; metadata_revision := 1; app_state := Active;
                   app_name := None; tenant_id := None; space_id := None; app_created_at := now;
                   active_operations := slots_default |} in
      let row := {| row_target_kind := "recreate"; row_operation_id := None; row_lifecycle_id := None;
                    row_previous_lifecycle_id := Some expected_lifecycle; row_new_lifecycle_id := Some fresh |} in
      Ok (a', with_store (mkAppStore a' (cs_ops cs) (<[request_id := row]> (st_requests (cs_store cs)))) cs)
  end.
