(* ===== verification/ComputeExecution.v ===== *)
(** * The execution ledger of compute control
    ([rcoder-storage/src/userapp_lifecycle/common/compute_execution.rs])

    What an executor and the recovery observers may record about a claimed
    control: the lease, progress, completion from evidence, the stop boundary of
    a restart, and the drain of a superseded execution. *)
From S2P Require Import Prelude Validation Lifecycle Evidence LifecycleDomain LifecycleStore.
From S2P Require Import OperationLease ComputeControl ComputeStore ComputeAdmission.
Import Text Identifier.
Local Open Scope rust_scope.

Module Execution.

Definition owns (record : ComputeControlRecord) (identity : ComputeExecutorIdentity) : bool :=
  bool_decide (cc_app_id record = cei_app_id identity)
  && bool_decide (cc_lifecycle_id record = cei_lifecycle_id identity)
  && bool_decide (cc_scope record = cei_scope identity)
  && bool_decide (cc_operation_id record = cei_operation_id identity)
  && (cc_generation record =? cei_generation identity)%Z
  && opt_is (cc_executor_id record) (cei_executor_id identity).

Definition validate_receipt (identity : ComputeExecutorIdentity)
    (receipt : UserAppOperationLeaseReceipt) : result unit UserAppStoreError :=
  let? _ := checked (lease_validate receipt) in
  let? family := match cei_scope identity with
                 | Dev => Ok UserappBuilder
                 | Prod => Ok Userapp
                 | Application => invalid "Invalid compute scope"
                 end in
  ensure (bool_decide (lease_service_type receipt = family))
    (InvalidOperation "Compute lease scope differs").

(** The identity a control's own executor has. *)
Definition identity_of (c : ComputeControlRecord) (executor : string) : ComputeExecutorIdentity :=
  {| cei_app_id := cc_app_id c; cei_lifecycle_id := cc_lifecycle_id c; cei_scope := cc_scope c;
     cei_operation_id := cc_operation_id c; cei_generation := cc_generation c;
     cei_executor_id := executor |}.

(** [compute::get(..).ok_or(NotFound)], the last step of most transactions. *)
Definition reread (app id : string) (cs : ComputeStore)
    : result (ComputeControlRecord * ComputeStore) UserAppStoreError :=
  let? found := get cs app id in
  let? c := ok_or found NotFound in
  Ok (c, cs).
(** [compute::current(tx, &identity)] as the last step. *)
Definition reread_current (identity : ComputeExecutorIdentity) (cs : ComputeStore)
    : result (ComputeControlRecord * ComputeStore) UserAppStoreError :=
  let? c := Compute.current cs identity in
  Ok (c, cs).

Definition live_claimed (s : ComputeControlState) : bool :=
  match s with CRunning | CRecoveryRequired => true | _ => false end.

(** ** Leases *)

Definition bind (identity : ComputeExecutorIdentity) (receipt : UserAppOperationLeaseReceipt)
    : Tx ComputeControlRecord := λ cs,
  let? _ := validate_receipt identity receipt in
  let? _ := Compute.check cs identity in
  let? record := Compute.current cs identity in
  match cc_lease record with
  | Some previous =>
      let? _ := ensure (bool_decide (previous = receipt))
                  (InvalidOperation "Compute lease is immutable") in
      Ok (record, cs)
  | None =>
      let? cs := update_control (cei_operation_id identity)
        (λ c, (cc_revision c =? cc_revision record)%Z && is_none (cc_lease c))
        (λ c, let? revision := sql_succ (cc_revision c) in
              Ok (cc_set c revision (cc_state c) (cc_executor_id c) (cc_stage c) (cc_checkpoint c)
                    (cc_error_code c) (cc_error_message c) (Some receipt))) cs in
      reread (cei_app_id identity) (cei_operation_id identity) cs
  end.

(** A receipt is forgotten once its control has ended, whatever the head. *)
Definition forget (identity : ComputeExecutorIdentity) (receipt : UserAppOperationLeaseReceipt)
    : Tx unit := λ cs,
  let? _ := validate_receipt identity receipt in
  let? found := get cs (cei_app_id identity) (cei_operation_id identity) in
  let? record := ok_or found NotFound in
  let? _ := ensure (owns record identity
                    && match cc_state record with CSucceeded | CFailed => true | _ => false end)
              VersionConflict in
  match cc_lease record with
  | None => Ok (tt, cs)
  | Some stored =>
      let? _ := ensure (bool_decide (stored = receipt)) VersionConflict in
      let? cs := update_control (cei_operation_id identity)
        (λ c, (cc_revision c =? cc_revision record)%Z)
        (λ c, let? revision := sql_succ (cc_revision c) in
              Ok (cc_set c revision (cc_state c) (cc_executor_id c) (cc_stage c) (cc_checkpoint c)
                    (cc_error_code c) (cc_error_message c) None)) cs in
      Ok (tt, cs)
  end.

Section execution.
Context `{CheckpointCodec, CreationCodec, ComputeCodec}.

(** ** Progress *)

(** A builder's restart target may lose its workload, or its workspace, only
    across a stopped boundary with its volumes retained. *)
Definition builder_progress_ok (record : ComputeControlRecord) (p : ComputeControlProgress)
    : result unit UserAppStoreError :=
  if bool_decide (cc_scope record = Dev) && bool_decide (cc_action record = CRestart)
     && is_some (json_get "context" (cc_checkpoint record))
  then
    let terminal_observation :=
      bool_decide (stage_from_storage (cc_stage record) = Some Verifying)
      && bool_decide (ccp_stage p = Completed) && bool_decide (ccp_state p = CSucceeded)
      && bool_decide (cc_checkpoint record = ccp_checkpoint p) in
    let read_target v :=
      ok_or (if terminal_observation then observe_builder_target v else decode_builder_target v)
        (StorageFailure "builder target") in
    let? original := read_target (cc_checkpoint record) in
    let? next := read_target (ccp_checkpoint p) in
    let confirmed_absence :=
      bool_decide (ccp_stage p = Starting) && stopped_builder_absence record next
      && bool_decide (json_get "builder_volumes" (cc_checkpoint record)
                      = json_get "builder_volumes" (ccp_checkpoint p)) in
    let? _ := ensure (negb (is_some (bt_workload original) && is_none (bt_workload next)
                            && negb confirmed_absence))
                (InvalidOperation "Builder recreation requires a stopped retained-volume boundary") in
    ensure (negb (negb (bool_decide (bt_restart_runtime_workspace original
                                     = bt_restart_runtime_workspace next))
                  && negb confirmed_absence))
      (InvalidOperation "Builder restart workspace intent is immutable")
  else Ok tt.

(** A production restart that succeeded wakes on traffic again. *)
Definition wake_after_restart (record : ComputeControlRecord) (p : ComputeControlProgress)
    (cs : ComputeStore) : result ComputeStore UserAppStoreError :=
  if bool_decide (ccp_state p = CSucceeded) && bool_decide (cc_action record = CRestart)
     && bool_decide (cei_scope (ccp_identity p) = Prod)
  then
    let? app := ok_or (find_app cs (cei_app_id (ccp_identity p))) NotFound in
    let? revision := ok_or (i64_checked_succ (metadata_revision app))
                       (InvalidOperation "Metadata revision exhausted") in
    let policy := {| recycle_enabled := recycle_enabled (app_runtime_policy app);
                     idle_timeout_seconds := idle_timeout_seconds (app_runtime_policy app);
                     wake_on_traffic := Some true |} in
    Ok (with_store (mkAppStore (with_policy policy revision app) (cs_ops cs)
                      (st_requests (cs_store cs))) cs)
  else Ok cs.

(** The checks of a report against the record it continues. *)
Definition progress_ok (cs : ComputeStore) (record : ComputeControlRecord)
    (p : ComputeControlProgress) : result unit UserAppStoreError :=
  let policy r := map_err (λ e, InvalidOperation (policy_message e)) r in
  let? _ := ensure (cc_revision record =? ccp_expected_revision p)%Z VersionConflict in
  let? _ := ensure (is_some (as_progress_storage_value (ccp_state p)))
              (InvalidOperation (policy_message InvalidState)) in
  let? _ := policy (validate_compute_progress_transition (cc_action record)
              (stage_from_storage (cc_stage record)) (ccp_state p) (ccp_stage p)
              (diagnostic_from_option (ccp_error_code p))
              (diagnostic_from_option (ccp_error_message p)) (is_some (cc_lease record))) in
  let? _ := if negb (bool_decide (ccp_stage p = DrainingPrevious)) then
              let? _ := drained cs record in
              policy (validate_compute_mutation_evidence (ccp_stage p) (is_some (cc_lease record))
                        (json_is_object (ccp_checkpoint p)))
            else Ok tt in
  builder_progress_ok record p.

Definition advance (p : ComputeControlProgress) : Tx ComputeControlRecord := λ cs,
  let identity := ccp_identity p in
  let? _ := Compute.check cs identity in
  let? record := Compute.current cs identity in
  let? _ := progress_ok cs record p in
  let? cs := update_control (cei_operation_id identity)
    (λ c, (cc_revision c =? cc_revision record)%Z
          && opt_is (cc_executor_id c) (cei_executor_id identity)
          && bool_decide (cc_state c = CRunning))
    (λ c, let? revision := sql_succ (cc_revision c) in
          Ok (cc_set c revision (ccp_state p) (cc_executor_id c) (stage_as_str (ccp_stage p))
                (ccp_checkpoint p) (ccp_error_code p) (ccp_error_message p) (cc_lease c))) cs in
  let? cs := wake_after_restart record p cs in
  reread (cei_app_id identity) (cei_operation_id identity) cs.

(** ** The drain of a superseded execution *)

(** The conditional write of a fenced restart, still the one recorded. *)
Definition fenced_target (c : ComputeControlRecord) (checkpoint : Json) : bool :=
  match cc_scope c with
  | Prod =>
      match decode_start_target checkpoint with
      | Some t => negb (bool_decide (cst_volumes t = [])) && context_is c (mt_context (cst_target t))
      | None => false
      end
  | Dev =>
      match decode_builder_target checkpoint with
      | Some t => is_ok (builder_target_validate t) && workload_is StatefulSet (bt_workload t)
                  && context_is c (bt_context t)
      | None => false
      end
  | Application => false
  end.

Definition fenced_ok (c : ComputeControlRecord) (stage : string) (checkpoint : Json) : bool :=
  bool_decide (cc_action c = CRestart) && bool_decide (cc_stage c = stage)
  && is_some (cc_lease c) && bool_decide (checkpoint = cc_checkpoint c)
  && has_conditional_compute_write c && fenced_target c checkpoint.

Definition drain_evidence_ok (c : ComputeControlRecord) (e : ComputeControlDrainEvidence) : bool :=
  match e with
  | PersistedRuntimeAcknowledgement checkpoint =>
      bool_decide (cc_action c = CRestart)
      && (bool_decide (cc_stage c = "starting") || bool_decide (cc_stage c = "stopping"))
      && is_some (cc_lease c) && bool_decide (checkpoint = cc_checkpoint c)
      && (has_docker_compute_target c
          || (bool_decide (cc_stage c = "starting") && retained_builder_creation c))
  | NoMutationSubmitted => bool_decide (cc_stage c = "draining_previous")
  | MutationCompleted checkpoint => is_some (cc_lease c) && json_is_object checkpoint
  | ConditionalStartupFenced checkpoint => fenced_ok c "starting" checkpoint
  | ConditionalStopFenced checkpoint => fenced_ok c "stopping" checkpoint
  | PersistedMutationBoundary checkpoint =>
      bool_decide (cc_action c = CRestart)
      && (bool_decide (cc_stage c = "stopped") || bool_decide (cc_stage c = "verifying"))
      && is_some (cc_lease c) && json_is_object checkpoint
      && bool_decide (checkpoint = cc_checkpoint c)
  end.

Definition acknowledge_drain (ack : ComputeControlDrainAcknowledgement)
    : Tx ComputeControlRecord := λ cs,
  let identity := cda_identity ack in
  let? found := get cs (cei_app_id identity) (cei_operation_id identity) in
  let? record := ok_or found NotFound in
  let? _ := ensure (owns record identity && (cc_revision record =? cda_expected_revision ack)%Z
                    && bool_decide (cc_state record = CSuperseded)) VersionConflict in
  let? _ := ensure (drain_evidence_ok record (cda_evidence ack))
              (InvalidOperation "Superseded compute executor has no confirmed drain evidence") in
  let checkpoint := JObj [("drain", encode_drain_evidence (cda_evidence ack));
                          ("previous", cc_checkpoint record)] in
  let? cs := update_control (cei_operation_id identity)
    (λ c, (cc_revision c =? cc_revision record)%Z && bool_decide (cc_state c = CSuperseded)
          && opt_is (cc_executor_id c) (cei_executor_id identity))
    (λ c, let? revision := sql_succ (cc_revision c) in
          Ok (cc_set c revision CFailed (cc_executor_id c) "superseded_drained" checkpoint
                (Some "ERR_CANCELLED") (Some "Superseded executor confirmed drained") (cc_lease c))) cs in
  reread (cei_app_id identity) (cei_operation_id identity) cs.

(** The WHERE clause of the recovery scan, without its page.  The backends
    read JSON differently: to PostgreSQL a JSON null is a value. *)
Inductive Backend := PostgresBackend | TursoBackend.

Definition archive_pending (backend : Backend) (checkpoint : Json) : bool :=
  let template := json_get "builder_restart_template" checkpoint in
  let cleaned := json_get "builder_restart_archive_cleaned" checkpoint in
  match backend with
  | PostgresBackend =>
      is_some template
      && negb (match cleaned with
               | Some (JBool b) => b
               | Some (JStr s) => bool_decide (s = "true")
               | _ => false end)
  | TursoBackend =>
      match template with None | Some JNull => false | Some _ => true end
      && negb (match cleaned with
               | Some (JBool b) => b
               | Some (JNum n) => (n =? 1)%Z
               | _ => false end)
  end.

Definition scan_selects (backend : Backend) (c : ComputeControlRecord) : bool :=
  negb (cc_terminal (cc_state c))
  || (bool_decide (cc_state c = CSuperseded) && is_some (cc_executor_id c))
  || is_some (cc_lease c)
  || (bool_decide (cc_state c = CSucceeded) && archive_pending backend (cc_checkpoint c)).

(** ** Closing an interrupted business operation on its final evidence *)

Definition finalize_interrupted (identity : ComputeExecutorIdentity)
    (snapshot : UserAppOperationRecord) (uncertain : option UserAppStoreError)
    : Tx UserAppOperationRecord := λ cs,
  let? control := Compute.current cs identity in
  let? _ := ensure (owns control identity
                    && (bool_decide (cc_state control = CRunning)
                        || (bool_decide (cc_state control = CRecoveryRequired)
                            && can_recover_compute_drain control))) VersionConflict in
  let? o := ok_or (find_operation (cs_ops cs) (cei_app_id identity) (op_operation_id snapshot)) NotFound in
  let? _ := ensure (bool_decide (o = snapshot)
                    && bool_decide (op_lifecycle_id o = cei_lifecycle_id identity)
                    && negb (ends_lifecycle (op_kind o))
                    && bool_decide (op_operation_id o ∈ cc_interrupted_operations control)
                    && match op_state o with Running | RecoveryRequired => true | _ => false end
                    && userapp_operation_has_drain_evidence o) VersionConflict in
  let? o :=
    if bool_decide (op_state o = RecoveryRequired) then
      let? revision := ok_or (i64_checked_succ (op_revision o))
                         (InvalidOperation "Operation revision exhausted") in
      Ok (Compute.op_set o Running revision (op_step o) (op_checkpoint o)
            (op_error_code o) (op_error_message o))
    else Ok o in
  let cs := with_store (mkAppStore (cs_app cs) (<[op_operation_id o := o]> (cs_ops cs))
                          (st_requests (cs_store cs))) cs in
  let? executor := ok_or (op_executor_id o) VersionConflict in
  business_advance
    {| pr_app_id := op_app_id o; pr_operation_id := op_operation_id o;
       pr_lifecycle_id := op_lifecycle_id o; pr_expected_revision := op_revision o;
       pr_executor_id := executor; pr_state := Failed; pr_step := "interrupted_effects_confirmed";
       pr_checkpoint := op_checkpoint o; pr_error_code := Some "COMPUTE_INTERRUPTED";
       pr_error_message := Some ("Interrupted by compute operation " +:+ cei_operation_id identity
                                 +:+ " after effects were confirmed") |} uncertain cs.

(** ** Completion from a durable boundary *)

(** [UPDATE .. SET state='running', revision=.. WHERE operation_id AND revision]. *)
Definition take_boundary (c : ComputeControlRecord) (revision : Z) (stage : string)
    (checkpoint : Json) (cs : ComputeStore) : result ComputeStore UserAppStoreError :=
  update_control (cc_operation_id c) (λ row, (cc_revision row =? cc_revision c)%Z)
    (λ row, Ok (cc_set row revision CRunning (cc_executor_id row) stage checkpoint
                  (cc_error_code row) (cc_error_message row) (cc_lease row))) cs.

Definition finalize_confirmed (snapshot : ComputeControlRecord) : Tx ComputeControlRecord := λ cs,
  let? executor := ok_or (cc_executor_id snapshot) VersionConflict in
  let identity := identity_of snapshot executor in
  let? current := Compute.current cs identity in
  let? _ := ensure (bool_decide (current = snapshot) && is_some (cc_lease current)
                    && live_claimed (cc_state current)
                    && match cc_action current with
                       | CStop => bool_decide (cc_stage current = "stopped")
                       | CRestart => bool_decide (cc_stage current = "verifying")
                       end) VersionConflict in
  let? revision := rust_succ (cc_revision current) in
  let? cs := take_boundary current revision (cc_stage current) (cc_checkpoint current) cs in
  advance {| ccp_identity := identity; ccp_expected_revision := revision; ccp_state := CSucceeded;
             ccp_stage := Completed; ccp_checkpoint := cc_checkpoint current;
             ccp_error_code := None; ccp_error_message := None |} cs.

(** The physical target an observed stop or start must have. *)
Definition observed_target_ok (snapshot : ComputeControlRecord) (action : ComputeControlAction)
    (creation : bool) (context : UserAppExecutionContext) : result bool UserAppStoreError :=
  match action with
  | CStop =>
      let? observed := map_err StorageFailure
        (stop_observation_from_checkpoint (cc_checkpoint snapshot) (cc_scope snapshot)) in
      let same_context := bool_decide (observation_context observed = context) in
      match observed with
      | ObsAbsent _ => Ok same_context
      | ObsOrphan orphan => let? _ := checked (orphan_validate orphan) in Ok same_context
      | ObsBuilder target =>
          let? _ := checked (builder_target_validate target) in
          Ok (same_context && (workload_is StatefulSet (bt_workload target)
                               || workload_is Container (bt_workload target)))
      | ObsApplication target =>
          Ok (same_context && (bool_decide (res_kind (mt_resource target) = Deployment)
                               || bool_decide (res_kind (mt_resource target) = Container)))
      end
  | CRestart =>
      match cc_scope snapshot with
      | Prod =>
          let? target := ok_or (decode_mutation_target (cc_checkpoint snapshot))
                           (StorageFailure "mutation target") in
          Ok (bool_decide (mt_context target = context)
              && (bool_decide (res_kind (mt_resource target) = Deployment)
                  || bool_decide (res_kind (mt_resource target) = Container)))
      | Dev =>
          let? target := ok_or (observe_builder_target (cc_checkpoint snapshot))
                           (StorageFailure "builder target") in
          let? _ := checked (builder_target_validate target) in
          Ok (bool_decide (bt_context target = context)
              && (creation || workload_is StatefulSet (bt_workload target)
                  || workload_is Container (bt_workload target)))
      | Application => Ok false
      end
  end.

Definition set_fields (fields : list (string * Json)) (v : Json) : Json :=
  foldl (λ v f, json_set f.1 f.2 v) v fields.

Definition finalize_observed (snapshot : ComputeControlRecord) (action : ComputeControlAction)
    (creation : option BuilderControlTarget) : Tx ComputeControlRecord := λ cs,
  let '(expected_stage, confirmed_stage) :=
    match action with CStop => ("stopping", "stopped") | CRestart => ("starting", "verifying") end in
  let? context := map_err InvalidOperation (execution_context snapshot) in
  let? valid_target := observed_target_ok snapshot action (is_some creation) context in
  let? _ := ensure (bool_decide (cc_action snapshot = action)
                    && bool_decide (cc_stage snapshot = expected_stage)
                    && is_some (cc_lease snapshot) && live_claimed (cc_state snapshot)
                    && valid_target)
              (InvalidOperation "Invalid observed compute recovery snapshot") in
  let identity := identity_of snapshot (ctx_executor_id context) in
  let? current := Compute.current cs identity in
  let? _ := ensure (bool_decide (current = snapshot)) VersionConflict in
  let? revision := rust_succ (cc_revision snapshot) in
  let checkpoint := match creation with
                    | Some observed => set_fields (encode_builder_target observed) (cc_checkpoint snapshot)
                    | None => cc_checkpoint snapshot
                    end in
  let? cs := take_boundary snapshot revision confirmed_stage checkpoint cs in
  let? confirmed := Compute.current cs identity in
  finalize_confirmed confirmed cs.

Definition finalize_observed_stop (snapshot : ComputeControlRecord) : Tx ComputeControlRecord :=
  finalize_observed snapshot CStop None.
Definition finalize_observed_restart (snapshot : ComputeControlRecord) : Tx ComputeControlRecord :=
  finalize_observed snapshot CRestart None.

Definition finalize_observed_creation (snapshot : ComputeControlRecord)
    (observed : BuilderControlTarget) (volumes : list AppResourceIdentity)
    : Tx ComputeControlRecord := λ cs,
  let? original := ok_or (observe_builder_target (cc_checkpoint snapshot)) (StorageFailure "builder target") in
  let? _ := checked (builder_target_validate original) in
  let? _ := checked (builder_target_validate observed) in
  let? value := ok_or (json_get "builder_volumes" (cc_checkpoint snapshot))
                  (InvalidOperation "Original retained volumes missing") in
  let? expected := ok_or (decode_resources value) (StorageFailure "volumes") in
  let? _ := ensure (retained_builder_volume_evidence snapshot
                    && is_none (bt_workload original) && is_none (bt_pod original)
                    && is_none (bt_resource_binding original)
                    && bool_decide (bt_context observed = bt_context original)
                    && workload_is StatefulSet (bt_workload observed)
                    && is_some (bt_pod observed)
                    && match bt_resource_binding observed with
                       | Some b => bool_decide (bind_service_type b = UserappBuilder)
                       | None => true end
                    && bool_decide (bt_restart_image observed = bt_restart_image original)
                    && bool_decide (bt_restart_runtime_workspace observed
                                    = bt_restart_runtime_workspace original)
                    && bool_decide (bt_builder_startup_mode observed = bt_builder_startup_mode original)
                    && bool_decide (volumes = expected))
              (InvalidOperation "Observed builder creation differs from original intent or retained data") in
  finalize_observed snapshot CRestart (Some observed) cs.

(** ** The stop boundary of a builder restart *)

Definition docker_builder_lease (r : UserAppOperationLeaseReceipt) : bool :=
  match r with DockerLease UserappBuilder _ _ _ => true | _ => false end.

(** What the two Docker observations check before they compare records: the
    context, its identity, the captured target and its volumes. *)
Definition docker_boundary (snapshot : ComputeControlRecord) (observation : BuilderRestartStopObservation)
    (missing : string)
    : result (UserAppExecutionContext * ComputeExecutorIdentity * UserAppOperationLeaseReceipt
              * BuilderControlTarget * list AppResourceIdentity) UserAppStoreError :=
  let? _ := checked (stop_observation_validate observation) in
  let? context := map_err InvalidOperation (execution_context snapshot) in
  let identity := identity_of snapshot (ctx_executor_id context) in
  let? lease := ok_or (cc_lease snapshot) VersionConflict in
  let? _ := validate_receipt identity lease in
  let? original := ok_or (observe_builder_target (cc_checkpoint snapshot)) (StorageFailure "builder target") in
  let? value := ok_or (json_get "builder_volumes" (cc_checkpoint snapshot)) (InvalidOperation missing) in
  let? volumes := ok_or (decode_resources value) (StorageFailure "volumes") in
  Ok (context, identity, lease, original, volumes).

(** The condition both share. *)
Definition docker_boundary_ok (snapshot : ComputeControlRecord)
    (observation : BuilderRestartStopObservation) (context : UserAppExecutionContext)
    (lease : UserAppOperationLeaseReceipt) (original : BuilderControlTarget)
    (volumes : list AppResourceIdentity) : bool :=
  bool_decide (cc_scope snapshot = Dev) && bool_decide (cc_action snapshot = CRestart)
  && bool_decide (cc_stage snapshot = "stopping") && live_claimed (cc_state snapshot)
  && docker_builder_lease lease && bool_decide (original = bso_target observation)
  && bool_decide (bt_context original = context) && bool_decide (volumes = bso_volumes observation).

(** [.. WHERE operation_id AND revision AND executor_id AND stage='stopping'
    AND state IN ('running','recovery_required')]. *)
Definition stopping_guard (snapshot : ComputeControlRecord) (executor : string)
    (c : ComputeControlRecord) : bool :=
  (cc_revision c =? cc_revision snapshot)%Z && opt_is (cc_executor_id c) executor
  && bool_decide (cc_stage c = "stopping") && live_claimed (cc_state c).

(** The first diagnosis of the boundary, kept with what was there before. *)
Definition stop_recovery (snapshot : ComputeControlRecord) (observation : BuilderRestartStopObservation)
    (unrebuildable : option BuilderRestartUnrebuildableEvidence) : BuilderRestartStopRecoveryEvidence :=
  {| bsr_observation := observation; bsr_original_state := cc_state snapshot;
     bsr_original_error_code := cc_error_code snapshot;
     bsr_original_error_message := cc_error_message snapshot;
     bsr_original_restart_template := json_get "builder_restart_template" (cc_checkpoint snapshot);
     bsr_unrebuildable := unrebuildable;
     bsr_previous_observation := json_get BUILDER_RESTART_STOP_OBSERVATION_KEY (cc_checkpoint snapshot) |}.

Definition confirm_builder_restart_stopped (snapshot : ComputeControlRecord)
    (observation : BuilderRestartStopObservation) : Tx ComputeControlRecord := λ cs,
  let? (context, identity, lease, original, volumes) :=
    docker_boundary snapshot observation "Original builder mount witness missing" in
  let? _ := ensure (docker_boundary_ok snapshot observation context lease original volumes)
              (InvalidOperation "Invalid original Docker Restart stop observation") in
  let? current := Compute.current cs identity in
  let? _ := ensure (bool_decide (current = snapshot)) VersionConflict in
  let? _ := drained cs snapshot in
  let? revision := rust_succ (cc_revision snapshot) in
  let? _ := ensure (json_is_object (cc_checkpoint snapshot))
              (InvalidOperation "Builder checkpoint must be an object") in
  let checkpoint := json_set BUILDER_RESTART_STOP_OBSERVATION_KEY
                      (encode_stop_recovery (stop_recovery snapshot observation None))
                      (cc_checkpoint snapshot) in
  let? cs := update_control (cc_operation_id snapshot) (stopping_guard snapshot (ctx_executor_id context))
    (λ c, Ok (cc_set c revision (cc_state c) (cc_executor_id c) "stopped" checkpoint
                (cc_error_code c) (cc_error_message c) (cc_lease c))) cs in
  reread_current identity cs.

Definition confirm_kubernetes_restart_stopped (snapshot : ComputeControlRecord)
    (evidence : KubernetesRestartStopEvidence) : Tx ComputeControlRecord := λ cs,
  let? context := map_err InvalidOperation (execution_context snapshot) in
  let identity := identity_of snapshot (ctx_executor_id context) in
  let? lease := ok_or (cc_lease snapshot) VersionConflict in
  let? _ := validate_receipt identity lease in
  let? original := ok_or (observe_builder_target (cc_checkpoint snapshot)) (StorageFailure "builder target") in
  let? _ := ensure (bool_decide (cc_scope snapshot = Dev) && bool_decide (cc_action snapshot = CRestart)
                    && bool_decide (cc_stage snapshot = "stopping") && live_claimed (cc_state snapshot)
                    && match lease with KubernetesLease _ _ _ _ _ _ => true | DockerLease _ _ _ _ => false end
                    && workload_is StatefulSet (bt_workload original)
                    && bool_decide (bt_context original = context))
              (InvalidOperation "Invalid original Kubernetes Restart stop confirmation") in
  let? current := Compute.current cs identity in
  let? _ := ensure (bool_decide (current = snapshot)) VersionConflict in
  let? _ := drained cs snapshot in
  let? revision := rust_succ (cc_revision snapshot) in
  let? _ := ensure (json_is_object (cc_checkpoint snapshot))
              (InvalidOperation "Builder checkpoint must be an object") in
  let confirmation :=
    {| krc_evidence := evidence; krc_original_state := cc_state snapshot;
       krc_original_error_code := cc_error_code snapshot;
       krc_original_error_message := cc_error_message snapshot;
       krc_previous_confirmation := json_get KUBERNETES_RESTART_STOP_CONFIRMATION_KEY (cc_checkpoint snapshot) |} in
  let checkpoint := json_set KUBERNETES_RESTART_STOP_CONFIRMATION_KEY
                      (encode_stop_confirmation confirmation) (cc_checkpoint snapshot) in
  let? cs := update_control (cc_operation_id snapshot) (stopping_guard snapshot (ctx_executor_id context))
    (λ c, Ok (cc_set c revision (cc_state c) (cc_executor_id c) "stopped" checkpoint
                (cc_error_code c) (cc_error_message c) (cc_lease c))) cs in
  reread_current identity cs.

(** A template that belongs to this restart: its source, volumes and private
    archive file. *)
Definition template_bound (template : BuilderRestartTemplate) (original : BuilderControlTarget)
    (volumes : list AppResourceIdentity) : bool :=
  bool_decide (brt_source template = original) && bool_decide (brt_volumes template = volumes)
  && bool_decide (res_kind (brt_archive template) = File)
  && negb (str_is_empty (res_name (brt_archive template)))
  && negb (str_is_empty (res_uid (brt_archive template))).

(** Why the recorded archive cannot rebuild the container. *)
Definition unrebuildable_reason (reference : option Json) (original : BuilderControlTarget)
    (volumes : list AppResourceIdentity) (unavailable : option BuilderRestartArchiveUnavailable)
    : result BuilderRestartUnrebuildableReason UserAppStoreError :=
  match reference with
  | None =>
      let? _ := ensure (is_none unavailable)
                  (InvalidOperation "Unavailable recipe witness has no original reference") in
      Ok MissingArchive
  | Some value =>
      match decode_restart_template value with
      | None =>
          let? _ := ensure (is_none unavailable)
                      (InvalidOperation "Unavailable recipe witness cannot replace an unreadable reference") in
          Ok UnreadableArchive
      | Some template =>
          if negb (template_bound template original volumes) then
            let? _ := ensure (is_none unavailable)
                        (InvalidOperation "An unbound historical recipe cannot borrow a runtime witness") in
            Ok UnreadableArchive
          else
            let? witness := ok_or unavailable
                              (InvalidOperation "A readable recipe needs positive runtime unavailability") in
            let? _ := ensure (bool_decide (bau_template witness = template)
                              && bool_decide (encode_restart_template (bau_template witness) = value)
                              && template_bound (bau_template witness) original volumes)
                        (InvalidOperation "Unavailable recipe witness differs from the original private archive") in
            Ok ArchiveUnavailable
      end
  end.

Definition fail_unrebuildable_builder_restart (snapshot : ComputeControlRecord)
    (observation : BuilderRestartStopObservation) (unavailable : option BuilderRestartArchiveUnavailable)
    : Tx ComputeControlRecord := λ cs,
  let? (context, identity, lease, original, volumes) :=
    docker_boundary snapshot observation "Original builder mounts missing" in
  let? _ := ensure (docker_boundary_ok snapshot observation context lease original volumes
                    && bool_decide (bso_kind observation = CapturedContainerAbsent))
              (InvalidOperation "Unrebuildable restart requires original pre-start Docker Container absence") in
  let? reason := unrebuildable_reason (json_get "builder_restart_template" (cc_checkpoint snapshot))
                   original volumes unavailable in
  let? current := Compute.current cs identity in
  let? _ := ensure (bool_decide (current = snapshot)) VersionConflict in
  let? _ := drained cs snapshot in
  let unrebuildable := {| bue_reason := reason; bue_observation := observation;
                          bue_archive_unavailable := unavailable |} in
  let checkpoint := json_set BUILDER_RESTART_STOP_OBSERVATION_KEY
                      (encode_stop_recovery (stop_recovery snapshot observation (Some unrebuildable)))
                      (cc_checkpoint snapshot) in
  let? revision := rust_succ (cc_revision snapshot) in
  let? cs := update_control (cc_operation_id snapshot) (stopping_guard snapshot (ctx_executor_id context))
    (λ c, Ok (cc_set c revision CFailed (cc_executor_id c) "stopped" checkpoint
                (cc_error_code c) (cc_error_message c) (cc_lease c))) cs in
  reread (cc_app_id snapshot) (cc_operation_id snapshot) cs.

(** ** Continuing a restart after its stop boundary *)

(** [.. SET state='running', stage='starting', checkpoint, error NULL ..]. *)
Definition start_again (snapshot : ComputeControlRecord) (revision : Z) (checkpoint : Json)
    (cs : ComputeStore) : result ComputeStore UserAppStoreError :=
  update_control (cc_operation_id snapshot) (λ c, (cc_revision c =? cc_revision snapshot)%Z)
    (λ c, Ok (cc_set c revision CRunning (cc_executor_id c) "starting" checkpoint None None
                (cc_lease c))) cs.

(** A workload that was archived and restored under a new uid. *)
Definition app_restored (snapshot : ComputeControlRecord) (old target : UserAppMutationTarget) : bool :=
  bool_decide (cc_stage snapshot = "stopped")
  && negb (bool_decide (res_uid (mt_resource old) = res_uid (mt_resource target)))
  && match res_kind (mt_resource old) with
     | Deployment =>
         match json_get "app_restart_template" (cc_checkpoint snapshot) ≫= decode_app_restart_template with
         | Some archive => bool_decide (art_source archive = old)
                           && bool_decide (res_kind (art_archive archive) = Secret)
                           && negb (str_is_empty (res_uid (art_archive archive)))
         | None => false
         end
     | Container =>
         match decode_start_target (cc_checkpoint snapshot) with
         | Some captured => negb (bool_decide (cst_volumes captured = []))
                            && negb (opt_str_empty (cst_restart_image captured))
         | None => false
         end
     | _ => false
     end.

Definition resume_stopped_restart (snapshot : ComputeControlRecord) (target : UserAppMutationTarget)
    : Tx ComputeControlRecord := λ cs,
  let? context := map_err InvalidOperation (execution_context snapshot) in
  let? old := ok_or (decode_mutation_target (cc_checkpoint snapshot)) (StorageFailure "mutation target") in
  let? _ := ensure (bool_decide (cc_action snapshot = CRestart) && bool_decide (cc_scope snapshot = Prod)
                    && (bool_decide (cc_stage snapshot = "stopped") || bool_decide (cc_stage snapshot = "starting"))
                    && is_some (cc_lease snapshot) && live_claimed (cc_state snapshot)
                    && bool_decide (mt_context old = context) && bool_decide (mt_context target = context)
                    && (bool_decide (res_kind (mt_resource target) = Deployment)
                        || (bool_decide (cc_stage snapshot = "stopped")
                            && bool_decide (res_kind (mt_resource target) = Container)))
                    && bool_decide (res_kind (mt_resource old) = res_kind (mt_resource target))
                    && negb (str_is_empty (res_uid (mt_resource target)))
                    && (bool_decide (res_uid (mt_resource old) = res_uid (mt_resource target))
                        || app_restored snapshot old target)
                    && bool_decide (res_name (mt_resource old) = res_name (mt_resource target)))
              (InvalidOperation "Invalid restart continuation target") in
  let? _ := if bool_decide (cc_stage snapshot = "starting") then
              let? captured := ok_or (decode_start_target (cc_checkpoint snapshot)) (StorageFailure "start target") in
              ensure (cst_single_write captured && negb (bool_decide (cst_volumes captured = [])))
                (InvalidOperation "Restart retry requires the original single-write volume witness")
            else Ok tt in
  let identity := identity_of snapshot (ctx_executor_id context) in
  let? current := Compute.current cs identity in
  let? _ := ensure (bool_decide (current = snapshot)) VersionConflict in
  let? revision := rust_succ (cc_revision snapshot) in
  let checkpoint := json_set "resource" (encode_resource (mt_resource target)) (cc_checkpoint snapshot) in
  let? cs := start_again snapshot revision checkpoint cs in
  reread_current identity cs.

Definition capture_guard (snapshot : ComputeControlRecord) (context : UserAppExecutionContext)
    (original source : BuilderControlTarget) (old current : AppResourceIdentity)
    (template : BuilderRestartTemplate) (volumes : list AppResourceIdentity) : bool :=
  bool_decide (cc_scope snapshot = Dev) && bool_decide (cc_action snapshot = CRestart)
  && bool_decide (cc_stage snapshot = "stopped") && live_claimed (cc_state snapshot)
  && is_some (cc_lease snapshot) && bool_decide (res_kind old = Container)
  && bool_decide (res_kind old = res_kind current) && bool_decide (res_uid old = res_uid current)
  && bool_decide (res_name old = res_name current)
  && bool_decide (bt_context original = context) && bool_decide (bt_context source = context)
  && bool_decide (bt_resource_binding original = bt_resource_binding source)
  && bool_decide (bt_restart_image original = bt_restart_image source)
  && bool_decide (bt_restart_runtime_workspace original = bt_restart_runtime_workspace source)
  && bool_decide (bt_builder_startup_mode original = bt_builder_startup_mode source)
  && is_none (bt_pod source) && template_bound template source volumes
  && negb (bool_decide (volumes = [])).

(** The reference a template replaces goes to the history. *)
Definition push_history (prior : option Json) (v : Json) : result Json UserAppStoreError :=
  let entry := JObj [("value", match prior with Some p => p | None => JNull end);
                     ("was_present", JBool (is_some prior))] in
  match json_get "builder_restart_template_history" v with
  | None => Ok (json_set "builder_restart_template_history" (JArr [entry]) v)
  | Some (JArr xs) => Ok (json_set "builder_restart_template_history" (JArr (xs ++ [entry])) v)
  | Some _ => invalid "Builder restart reference history must be an array"
  end.

Definition capture_stopped_builder_template (snapshot : ComputeControlRecord)
    (source : BuilderControlTarget) (template : BuilderRestartTemplate)
    : Tx ComputeControlRecord := λ cs,
  let? context := map_err InvalidOperation (execution_context snapshot) in
  let? original := ok_or (decode_builder_target (cc_checkpoint snapshot)) (StorageFailure "builder target") in
  let? _ := checked (builder_target_validate original) in
  let? _ := checked (builder_target_validate source) in
  let? old := ok_or (bt_workload original) (InvalidOperation "Original retained builder missing") in
  let? workload := ok_or (bt_workload source) (InvalidOperation "Retained builder source missing") in
  let? value := ok_or (json_get "builder_volumes" (cc_checkpoint snapshot))
                  (InvalidOperation "Original builder volume witness missing") in
  let? volumes := ok_or (decode_resources value) (StorageFailure "volumes") in
  let? _ := ensure (capture_guard snapshot context original source old workload template volumes)
              (InvalidOperation "Invalid stopped builder archive capture witness") in
  let identity := identity_of snapshot (ctx_executor_id context) in
  let? current := Compute.current cs identity in
  let? _ := ensure (bool_decide (current = snapshot)) VersionConflict in
  let? _ := drained cs snapshot in
  let? revision := rust_succ (cc_revision snapshot) in
  let? _ := ensure (json_is_object (cc_checkpoint snapshot))
              (InvalidOperation "Builder checkpoint must be an object") in
  let? checkpoint := push_history (json_get "builder_restart_template" (cc_checkpoint snapshot))
                       (cc_checkpoint snapshot) in
  let checkpoint := set_fields (encode_builder_target source)
                      (json_set "builder_restart_template" (encode_restart_template template) checkpoint) in
  let? cs := update_control (cc_operation_id snapshot) (λ c, (cc_revision c =? cc_revision snapshot)%Z)
    (λ c, Ok (cc_set c revision (cc_state c) (cc_executor_id c) (cc_stage c) checkpoint
                (cc_error_code c) (cc_error_message c) (cc_lease c))) cs in
  reread_current identity cs.

(** A builder restored under a new uid from its archive. *)
Definition builder_restored (snapshot : ComputeControlRecord) (old target : BuilderControlTarget)
    (original workload : AppResourceIdentity) : result bool UserAppStoreError :=
  if bool_decide (cc_stage snapshot = "stopped")
     && negb (bool_decide (res_uid original = res_uid workload))
  then
    let? value := ok_or (json_get "builder_restart_template" (cc_checkpoint snapshot))
                    (InvalidOperation "Restart template missing") in
    let? template := ok_or (decode_restart_template value) (StorageFailure "restart template") in
    Ok (bool_decide (brt_source template = old)
        && match res_kind original, res_kind (brt_archive template) with
           | StatefulSet, Secret | Container, File => true
           | _, _ => false
           end
        && negb (str_is_empty (res_uid (brt_archive template)))
        && negb (bool_decide (brt_volumes template = []))
        && is_none (bt_resource_binding target))
  else Ok false.

Definition same_physical_intent (snapshot : ComputeControlRecord) (old target : BuilderControlTarget)
    : result bool UserAppStoreError :=
  match bt_workload old, bt_workload target with
  | Some original, Some workload =>
      let? restored := builder_restored snapshot old target original workload in
      Ok ((bool_decide (res_kind workload = StatefulSet)
           || (bool_decide (cc_stage snapshot = "stopped") && bool_decide (res_kind workload = Container)))
          && bool_decide (res_kind original = res_kind workload)
          && (bool_decide (res_uid original = res_uid workload) || restored)
          && bool_decide (res_name original = res_name workload)
          && (bool_decide (bt_resource_binding old = bt_resource_binding target) || restored))
  | None, None => Ok (retained_builder_creation snapshot && is_none (bt_resource_binding target))
  | Some _, None => Ok (stopped_builder_absence snapshot target)
  | None, Some _ => Ok false
  end.

(** [if let Some(value) = old.get(key) { new[key] = value }]. *)
Definition keep_field (old : Json) (key : string) (v : Json) : Json :=
  match json_get key old with Some field => json_set key field v | None => v end.

Definition resumed_checkpoint (snapshot : ComputeControlRecord) (target : BuilderControlTarget) : Json :=
  let v := JObj (encode_builder_target target) in
  let v := if is_some (bt_workload target) && has_conditional_compute_write snapshot
           then json_set "builder_compute_single_write" (JBool true) v else v in
  foldl (λ v key, keep_field (cc_checkpoint snapshot) key v) v
    ["builder_volumes"; "builder_restart_template"; "builder_restart_template_history";
     "builder_startup_mode"; BUILDER_RESTART_STOP_OBSERVATION_KEY;
     KUBERNETES_RESTART_STOP_CONFIRMATION_KEY].

Definition resume_builder_restart (snapshot : ComputeControlRecord) (target : BuilderControlTarget)
    : Tx ComputeControlRecord := λ cs,
  let? context := map_err InvalidOperation (execution_context snapshot) in
  let? old := ok_or (decode_builder_target (cc_checkpoint snapshot)) (StorageFailure "builder target") in
  let? _ := checked (builder_target_validate old) in
  let? _ := checked (builder_target_validate target) in
  let? same := same_physical_intent snapshot old target in
  let? _ := ensure (bool_decide (cc_action snapshot = CRestart) && bool_decide (cc_scope snapshot = Dev)
                    && (bool_decide (cc_stage snapshot = "stopped")
                        || (bool_decide (cc_stage snapshot = "starting")
                            && (has_conditional_compute_write snapshot
                                || (is_none (bt_workload old) && is_none (bt_workload target)))))
                    && is_some (cc_lease snapshot) && live_claimed (cc_state snapshot)
                    && bool_decide (bt_context old = context) && bool_decide (bt_context target = context)
                    && same && bool_decide (bt_restart_image target = bt_restart_image old)
                    && (bool_decide (bt_restart_runtime_workspace target = bt_restart_runtime_workspace old)
                        || stopped_builder_absence snapshot target)
                    && bool_decide (bt_builder_startup_mode target = bt_builder_startup_mode old)
                    && is_none (bt_pod target))
              (InvalidOperation "Invalid stopped builder continuation witness") in
  let identity := identity_of snapshot (ctx_executor_id context) in
  let? current := Compute.current cs identity in
  let? _ := ensure (bool_decide (current = snapshot)) VersionConflict in
  let? revision := rust_succ (cc_revision snapshot) in
  let? cs := start_again snapshot revision (resumed_checkpoint snapshot target) cs in
  reread_current identity cs.
End execution.

(** ** Bookkeeping of a deleted archive *)

Definition mark_archive_cleaned (snapshot : ComputeControlRecord) : Tx unit := λ cs,
  let? found := get cs (cc_app_id snapshot) (cc_operation_id snapshot) in
  let? record := ok_or found NotFound in
  let? _ := ensure (bool_decide (record = snapshot) && bool_decide (cc_state record = CSucceeded)
                    && is_none (cc_lease record)
                    && is_some (json_get "builder_restart_template" (cc_checkpoint record)))
              VersionConflict in
  let checkpoint := json_set "builder_restart_archive_cleaned" (JBool true) (cc_checkpoint record) in
  let? cs := update_control (cc_operation_id record)
    (λ c, (cc_revision c =? cc_revision record)%Z && bool_decide (cc_state c = CSucceeded)
          && is_none (cc_lease c))
    (λ c, let? revision := sql_succ (cc_revision c) in
          Ok (cc_set c revision (cc_state c) (cc_executor_id c) (cc_stage c) checkpoint
                (cc_error_code c) (cc_error_message c) (cc_lease c))) cs in
  Ok (tt, cs).
End Execution.
