(* ===== verification/ComputeRecovery.v ===== *)
(** * Early handoff and deadlines of compute control
    ([rcoder-storage/src/userapp_lifecycle/common/compute_recovery.rs])

    Before anything was submitted to a container, a control may be handed to a
    new executor.  A control that outlives its deadline is failed, but only by an
    observer whose quiet-window anchor is still the recorded one. *)
From S2P Require Import Prelude Validation Lifecycle Evidence LifecycleDomain LifecycleStore.
From S2P Require Import OperationLease ComputeControl ComputeStore ComputeAdmission ComputeExecution.
Import Text Identifier.
Local Open Scope rust_scope.

Module Recovery.

(** The live head, exactly as observed, in the early phase. *)
Definition current (cs : ComputeStore) (snapshot : ComputeControlRecord)
    : result ComputeControlRecord UserAppStoreError :=
  let? executor := ok_or (cc_executor_id snapshot) VersionConflict in
  let? actual := Compute.current cs (Execution.identity_of snapshot executor) in
  let? _ := ensure (bool_decide (actual = snapshot) && can_recover_compute_drain actual)
              VersionConflict in
  Ok actual.

(** [UPDATE .. SET state, executor, stage, error, lease, revision=revision+1
    WHERE operation_id AND revision AND ..], and the row read back. *)
Definition update_row (snapshot : ComputeControlRecord) (guard : ComputeControlRecord → bool)
    (set : Z → ComputeControlRecord → ComputeControlRecord) : Tx ComputeControlRecord := λ cs,
  let? cs := update_control (cc_operation_id snapshot)
    (λ c, (cc_revision c =? cc_revision snapshot)%Z && guard c)
    (λ c, let? revision := sql_succ (cc_revision c) in Ok (set revision c)) cs in
  Execution.reread (cc_app_id snapshot) (cc_operation_id snapshot) cs.

Definition with_error (state : ComputeControlState) (code message : option string) (revision : Z)
    (c : ComputeControlRecord) : ComputeControlRecord :=
  cc_set c revision state (cc_executor_id c) (cc_stage c) (cc_checkpoint c) code message (cc_lease c).

Definition reserve (snapshot : ComputeControlRecord) : Tx ComputeControlRecord := λ cs,
  let? actual := current cs snapshot in
  update_row snapshot
    (λ c, bool_decide (cc_state c = if bool_decide (cc_state actual = CRunning) then CRunning
                                    else CRecoveryRequired)
          && bool_decide (cc_executor_id c = cc_executor_id snapshot))
    (with_error CRecoveryRequired (Some "COMPUTE_RECOVERING")
       (Some "Continuing original compute operation after early execution handoff")) cs.

(** A lease that an earlier attempt of the same operation took. *)
Definition capture (snapshot : ComputeControlRecord) (receipt : UserAppOperationLeaseReceipt)
    (attempt : UserAppExecutionContext) : Tx ComputeControlRecord := λ cs,
  let? _ := checked (validate_identity attempt (cc_app_id snapshot)) in
  let? actual := current cs snapshot in
  let? _ := ensure (bool_decide (cc_state actual = CRecoveryRequired)) VersionConflict in
  let? _ := checked (lease_validate receipt) in
  let? family := map_err InvalidOperation (compute_lease_family (cc_scope snapshot)) in
  let? _ := ensure (bool_decide (lease_service_type receipt = family)
                    && bool_decide (ctx_lifecycle_id attempt = cc_lifecycle_id snapshot)
                    && bool_decide (ctx_operation_id attempt = cc_operation_id snapshot)
                    && bool_decide (ctx_request_fingerprint attempt = cc_request_fingerprint snapshot)
                    && bool_decide (ctx_executor_id attempt = lease_token receipt))
              (InvalidOperation "Recovered compute lease belongs to another attempt") in
  match cc_lease actual with
  | Some previous =>
      let? _ := ensure (bool_decide (previous = receipt)) VersionConflict in
      Ok (actual, cs)
  | None =>
      update_row snapshot
        (λ c, bool_decide (cc_state c = CRecoveryRequired) && is_none (cc_lease c))
        (λ revision c, cc_set c revision (cc_state c) (cc_executor_id c) (cc_stage c)
                         (cc_checkpoint c) (cc_error_code c) (cc_error_message c) (Some receipt)) cs
  end.

(** Back to the start, with no executor and no lease. *)
Definition resume (snapshot : ComputeControlRecord) (released : option UserAppOperationLeaseReceipt)
    : Tx ComputeControlRecord := λ cs,
  let? actual := current cs snapshot in
  let? _ := ensure (bool_decide (cc_state actual = CRecoveryRequired)
                    && bool_decide (cc_lease actual = released)) VersionConflict in
  let? _ := drained cs actual in
  update_row snapshot (λ c, bool_decide (cc_state c = CRecoveryRequired))
    (λ revision c, cc_set c revision CPending None "accepted" (cc_checkpoint c) None None None) cs.

Definition problem (snapshot : ComputeControlRecord) (code message : string)
    : Tx ComputeControlRecord := λ cs,
  let? actual := current cs snapshot in
  let? _ := ensure (bool_decide (cc_state actual = CRecoveryRequired)) VersionConflict in
  if opt_is (cc_error_code actual) code && opt_is (cc_error_message actual) message
  then Ok (actual, cs)
  else update_row snapshot (λ c, bool_decide (cc_state c = CRecoveryRequired))
         (λ revision c, with_error (cc_state c) (Some code) (Some message) revision c) cs.

Definition fail_unrecoverable (snapshot : ComputeControlRecord) (code message : string)
    : Tx ComputeControlRecord := λ cs,
  let? actual := current cs snapshot in
  let? _ := ensure (negb (cc_terminal (cc_state actual))) VersionConflict in
  update_row snapshot (λ c, bool_decide (cc_state c = CRecoveryRequired))
    (with_error CFailed (Some code) (Some message)) cs.

(** ** Deadlines *)

Definition bind_deadline (snapshot : ComputeControlRecord) (deadline_epoch_ms : Z) : Tx Z := λ cs,
  let? _ := ensure (0 <? deadline_epoch_ms)%Z
              (InvalidOperation "Compute control deadline must be positive") in
  match cs_deadlines cs !! cc_operation_id snapshot with
  | Some row =>
      let? _ := ensure (bool_decide (cd_app_id row = cc_app_id snapshot)
                        && bool_decide (cd_lifecycle_id row = cc_lifecycle_id snapshot))
                  LifecycleConflict in
      Ok (cd_deadline_ms row, cs)
  | None =>
      let? found := get cs (cc_app_id snapshot) (cc_operation_id snapshot) in
      let? actual := ok_or found NotFound in
      let? _ := ensure (bool_decide (cc_lifecycle_id actual = cc_lifecycle_id snapshot)
                        && (cc_generation actual =? cc_generation snapshot)%Z
                        && bool_decide (cc_scope actual = cc_scope snapshot)
                        && negb (cc_terminal (cc_state actual))) VersionConflict in
      Ok (deadline_epoch_ms,
          with_deadlines (<[cc_operation_id snapshot :=
            mkDeadline (cc_app_id snapshot) (cc_lifecycle_id snapshot) deadline_epoch_ms None]>
            (cs_deadlines cs)) cs)
  end.

Definition read_deadline (cs : ComputeStore) (app id : string) : option Z :=
  match cs_deadlines cs !! id with
  | Some row => if bool_decide (cd_app_id row = app) then Some (cd_deadline_ms row) else None
  | None => None
  end.

(** [now] is the clock of the transaction, in milliseconds. *)
Definition expire (snapshot : ComputeControlRecord) (code message : string)
    (expected_unheld_observed_ms now : Z) : Tx ComputeControlRecord := λ cs,
  let? found := get cs (cc_app_id snapshot) (cc_operation_id snapshot) in
  let? actual := ok_or found NotFound in
  let? _ := ensure (bool_decide (actual = snapshot) && negb (cc_terminal (cc_state actual)))
              VersionConflict in
  let? _ := ensure (match read_deadline cs (cc_app_id snapshot) (cc_operation_id snapshot) with
                    | Some deadline => (deadline <=? now)%Z
                    | None => false end)
              (InvalidOperation "Compute control deadline has not expired") in
  let? _ := ensure (match cs_deadlines cs !! cc_operation_id snapshot with
                    | Some row => opt_is (cd_unheld_observed_ms row) expected_unheld_observed_ms
                    | None => false end) VersionConflict in
  update_row snapshot (λ c, Execution.live_claimed (cc_state c))
    (with_error CFailed (Some code) (Some message)) cs.

Definition mark_unheld (snapshot : ComputeControlRecord) (observed_ms : Z) : Tx Z := λ cs,
  let? row := ok_or (cs_deadlines cs !! cc_operation_id snapshot)
                (InvalidOperation "Unheld observation requires a bound compute control deadline") in
  let? _ := ensure (bool_decide (cd_app_id row = cc_app_id snapshot)
                    && bool_decide (cd_lifecycle_id row = cc_lifecycle_id snapshot))
              LifecycleConflict in
  match cd_unheld_observed_ms row with
  | Some anchor => Ok (anchor, cs)
  | None =>
      let? found := get cs (cc_app_id snapshot) (cc_operation_id snapshot) in
      let? actual := ok_or found NotFound in
      let? _ := ensure (bool_decide (actual = snapshot) && negb (cc_terminal (cc_state actual)))
                  VersionConflict in
      Ok (observed_ms,
          with_deadlines (<[cc_operation_id snapshot :=
            mkDeadline (cd_app_id row) (cd_lifecycle_id row) (cd_deadline_ms row) (Some observed_ms)]>
            (cs_deadlines cs)) cs)
  end.

Definition clear_unheld (snapshot : ComputeControlRecord) : Tx unit := λ cs,
  match cs_deadlines cs !! cc_operation_id snapshot with
  | Some row =>
      if is_some (cd_unheld_observed_ms row) then
        Ok (tt, with_deadlines (<[cc_operation_id snapshot :=
                  mkDeadline (cd_app_id row) (cd_lifecycle_id row) (cd_deadline_ms row) None]>
                  (cs_deadlines cs)) cs)
      else Ok (tt, cs)
  | None => Ok (tt, cs)
  end.
End Recovery.
