(* ===== verification/ComputeSpec.v ===== *)
(** * Compute control: the abstract ledger

    Every compute and business transaction over the store, as one type of calls,
    and what they are meant to do: a control moves by a few kinds of row moves,
    heads are pointed, cleared or retired, and business rows move under the
    authority the heads leave them.  [ComputeRefine.v] shows that each
    transaction is a sequence of these steps; what holds of the ledger then
    holds of the code. *)
From S2P Require Import Prelude Validation Lifecycle Evidence LifecycleDomain LifecycleStore.
From S2P Require Import OperationLease ComputeControl ComputeStore ComputeAdmission.
From S2P Require Import ComputeExecution ComputeRecovery.
Local Open Scope rust_scope.

(** ** Calls and runs *)

(** The calls of compute control and the business calls it guards, recreation
    included.  The calls that finish an operation from an observation are not
    among them: [ROp] of [LifecycleRecovery.v] has all of these and those. *)
Inductive COp :=
  | CAdmit (request : ComputeControlRequest) (idle_only : bool) (now : Z)
  | CClaim (identity : ComputeExecutorIdentity) (revision : Z)
      (uncertain : string → option UserAppStoreError)
  | CAccess (app : string) (scope : UserAppOperationScope) (explicit_start : bool)
  | CBind (identity : ComputeExecutorIdentity) (receipt : UserAppOperationLeaseReceipt)
  | CAdvance (p : ComputeControlProgress)
  | CForget (identity : ComputeExecutorIdentity) (receipt : UserAppOperationLeaseReceipt)
  | CAcknowledge (ack : ComputeControlDrainAcknowledgement)
  | CFinalizeInterrupted (identity : ComputeExecutorIdentity) (o : UserAppOperationRecord)
      (uncertain : option UserAppStoreError)
  | CFinalizeConfirmed (snapshot : ComputeControlRecord)
  | CFinalizeStop (snapshot : ComputeControlRecord)
  | CFinalizeRestart (snapshot : ComputeControlRecord)
  | CFinalizeCreation (snapshot : ComputeControlRecord) (observed : BuilderControlTarget)
      (volumes : list AppResourceIdentity)
  | CConfirmDocker (snapshot : ComputeControlRecord) (observation : BuilderRestartStopObservation)
  | CConfirmKubernetes (snapshot : ComputeControlRecord) (evidence : KubernetesRestartStopEvidence)
  | CUnrebuildable (snapshot : ComputeControlRecord) (observation : BuilderRestartStopObservation)
      (unavailable : option BuilderRestartArchiveUnavailable)
  | CResumeRestart (snapshot : ComputeControlRecord) (target : UserAppMutationTarget)
  | CCaptureTemplate (snapshot : ComputeControlRecord) (source : BuilderControlTarget)
      (template : BuilderRestartTemplate)
  | CResumeBuilder (snapshot : ComputeControlRecord) (target : BuilderControlTarget)
  | CArchiveCleaned (snapshot : ComputeControlRecord)
  | CReserve (snapshot : ComputeControlRecord)
  | CCapture (snapshot : ComputeControlRecord) (receipt : UserAppOperationLeaseReceipt)
      (attempt : UserAppExecutionContext)
  | CResume (snapshot : ComputeControlRecord) (released : option UserAppOperationLeaseReceipt)
  | CProblem (snapshot : ComputeControlRecord) (code message : string)
  | CFailUnrecoverable (snapshot : ComputeControlRecord) (code message : string)
  | CBindDeadline (snapshot : ComputeControlRecord) (deadline : Z)
  | CExpire (snapshot : ComputeControlRecord) (code message : string) (expected now : Z)
  | CMarkUnheld (snapshot : ComputeControlRecord) (observed : Z)
  | CClearUnheld (snapshot : ComputeControlRecord)
  | BAdmit (request : UserAppAdmission) (input_digest : option string) (now : Z)
  | BAdvance (p : UserAppOperationProgress) (uncertain : option UserAppStoreError)
  | BPatch (patch : UserAppMetadataPatch)
  | BBindLease (context : UserAppExecutionContext) (receipt : UserAppOperationLeaseReceipt)
  | BForgetLease (binding : UserAppOperationLeaseBinding)
  | BRecreate (app expected_lifecycle request_id fresh : string) (now : Z).

(** The store after a transaction; a failed one is rolled back. *)
Definition after {A} (tx : Tx A) (cs : ComputeStore) : ComputeStore :=
  match tx cs with Ok (_, cs') => cs' | Err _ => cs end.

Section runs.
Context `{CheckpointCodec, CreationCodec, ComputeCodec}.

Definition cstep (op : COp) (cs : ComputeStore) : ComputeStore :=
  match op with
  | CAdmit request idle_only now => after (Compute.admit_control request idle_only now) cs
  | CClaim identity revision uncertain => after (Compute.claim identity revision uncertain) cs
  | CAccess app scope explicit_start => after (Compute.check_access app scope explicit_start) cs
  | CBind identity receipt => after (Execution.bind identity receipt) cs
  | CAdvance p => after (Execution.advance p) cs
  | CForget identity receipt => after (Execution.forget identity receipt) cs
  | CAcknowledge ack => after (Execution.acknowledge_drain ack) cs
  | CFinalizeInterrupted identity o uncertain =>
      after (Execution.finalize_interrupted identity o uncertain) cs
  | CFinalizeConfirmed snapshot => after (Execution.finalize_confirmed snapshot) cs
  | CFinalizeStop snapshot => after (Execution.finalize_observed_stop snapshot) cs
  | CFinalizeRestart snapshot => after (Execution.finalize_observed_restart snapshot) cs
  | CFinalizeCreation snapshot observed volumes =>
      after (Execution.finalize_observed_creation snapshot observed volumes) cs
  | CConfirmDocker snapshot observation =>
      after (Execution.confirm_builder_restart_stopped snapshot observation) cs
  | CConfirmKubernetes snapshot evidence =>
      after (Execution.confirm_kubernetes_restart_stopped snapshot evidence) cs
  | CUnrebuildable snapshot observation unavailable =>
      after (Execution.fail_unrebuildable_builder_restart snapshot observation unavailable) cs
  | CResumeRestart snapshot target => after (Execution.resume_stopped_restart snapshot target) cs
  | CCaptureTemplate snapshot source template =>
      after (Execution.capture_stopped_builder_template snapshot source template) cs
  | CResumeBuilder snapshot target => after (Execution.resume_builder_restart snapshot target) cs
  | CArchiveCleaned snapshot => after (Execution.mark_archive_cleaned snapshot) cs
  | CReserve snapshot => after (Recovery.reserve snapshot) cs
  | CCapture snapshot receipt attempt => after (Recovery.capture snapshot receipt attempt) cs
  | CResume snapshot released => after (Recovery.resume snapshot released) cs
  | CProblem snapshot code message => after (Recovery.problem snapshot code message) cs
  | CFailUnrecoverable snapshot code message =>
      after (Recovery.fail_unrecoverable snapshot code message) cs
  | CBindDeadline snapshot deadline => after (Recovery.bind_deadline snapshot deadline) cs
  | CExpire snapshot code message expected now =>
      after (Recovery.expire snapshot code message expected now) cs
  | CMarkUnheld snapshot observed => after (Recovery.mark_unheld snapshot observed) cs
  | CClearUnheld snapshot => after (Recovery.clear_unheld snapshot) cs
  | BAdmit request input_digest now => after (business_admit request input_digest now) cs
  | BAdvance p uncertain => after (business_advance p uncertain) cs
  | BPatch patch => after (business_patch patch) cs
  | BBindLease context receipt => after (bind_operation_lease context receipt) cs
  | BForgetLease binding => after (forget_operation_lease binding) cs
  | BRecreate app expected request_id fresh now =>
      after (recreate app expected request_id fresh now) cs
  end.

Definition crun (ops : list COp) (cs : ComputeStore) : ComputeStore :=
  foldl (λ cs op, cstep op cs) cs ops.

(** Operation ids are fresh UUIDs: an admission does not reuse the id of a
    record of the other kind. *)
Definition fresh_id (op : COp) (cs : ComputeStore) : Prop :=
  match op with
  | CAdmit request _ _ => cs_ops cs !! ccq_operation_id request = None
  | BAdmit request _ _ => cs_controls cs !! adm_operation_id request = None
  | _ => True
  end.
Fixpoint fresh_run (ops : list COp) (cs : ComputeStore) : Prop :=
  match ops with
  | [] => True
  | op :: rest => fresh_id op cs ∧ fresh_run rest (cstep op cs)
  end.
End runs.

(** What a call may do to heads: start stopped compute, point a head to a new
    control, retire the heads of a lifecycle that has ended; which operations it
    may end, and how: those the receipts of their credentials allow; and of which
    operation it may record a success that it has observed, whatever has
    interrupted the operation.  No call of [COp] may do the last. *)
Record HeadRights := mkRights {
  hr_start : bool;
  hr_point : option ComputeControlAction;
  hr_retire : bool;
  hr_end : string → UserAppOperationState → Prop;
  hr_observed : string → Prop;
}.
Definition of_none : string → Prop := λ _, False.
Definition rights (op : COp) : HeadRights :=
  match op with
  | CAccess _ _ explicit_start => mkRights explicit_start None false (λ _ _, False) of_none
  | CAdmit request _ _ => mkRights false (Some (ccq_action request)) false (λ _ _, False) of_none
  | BRecreate _ _ _ _ _ => mkRights false None true (λ _ _, False) of_none
  | CClaim _ _ uncertain => mkRights false None false (λ id s, s = Failed ∧ uncertain id = None) of_none
  | CFinalizeInterrupted _ o uncertain =>
      mkRights false None false (λ id s, s = Failed ∧ id = op_operation_id o ∧ uncertain = None) of_none
  | BAdvance p uncertain =>
      mkRights false None false (λ id s, s = pr_state p ∧ id = pr_operation_id p ∧ uncertain = None) of_none
  | _ => mkRights false None false (λ _ _, False) of_none
  end.

(** An application without compute history. *)
Definition new_compute_store (st : AppStore) : ComputeStore := mkComputeStore st ∅ ∅ ∅ ∅.

(** ** The ledger *)

(** The stages in which containers are touched. *)
Definition physical (stage : string) : bool :=
  match stage_from_storage stage with
  | Some DrainingPrevious | None => false
  | Some _ => true
  end.

(** The stage that follows, for a stop and for a restart. *)
Definition next_stage (action : ComputeControlAction) (s : ComputeControlStage)
    : option ComputeControlStage :=
  match action, s with
  | _, DrainingPrevious => Some Stopping
  | _, Stopping => Some Stopped
  | CStop, Stopped => Some Completed
  | CRestart, Stopped => Some Starting
  | CRestart, Starting => Some Verifying
  | CRestart, Verifying => Some Completed
  | _, _ => None
  end.
Definition stage_moves (c : ComputeControlRecord) (stage : string) : Prop :=
  stage = cc_stage c
  ∨ ∃ s s', cc_stage c = stage_as_str s ∧ next_stage (cc_action c) s = Some s' ∧ stage = stage_as_str s'.

Definition ended (s : ComputeControlState) : bool :=
  match s with CSucceeded | CFailed => true | _ => false end.

(** What may happen to one control. *)
Inductive move (cs : ComputeStore) (c : ComputeControlRecord) : ComputeControlRecord → Prop :=
  (** an executor claims it *)
  | mv_claim revision executor :
      (cc_revision c < revision)%Z → cc_state c = CPending → cc_executor_id c = None →
      move cs c (cc_set c revision CRunning (Some executor) (stage_as_str DrainingPrevious)
                   (cc_checkpoint c) (cc_error_code c) (cc_error_message c) (cc_lease c))
  (** its execution reports, or is reported on; containers are touched only
      under a lease and after the interrupted work has drained *)
  | mv_progress revision state stage checkpoint code message :
      (cc_revision c < revision)%Z → Execution.live_claimed (cc_state c) = true →
      cc_terminal state = false ∨ ended state = true → state ≠ CPending →
      stage_moves c stage →
      (physical stage = true →
       is_Some (cc_lease c) ∧ (drained cs c = Ok tt ∨ physical (cc_stage c) = true)
       ∨ stage = cc_stage c) →
      (state = CSucceeded → stage = stage_as_str Completed ∧ is_Some (cc_lease c)) →
      move cs c (cc_set c revision state (cc_executor_id c) stage checkpoint code message (cc_lease c))
  (** its lease is recorded *)
  | mv_lease revision receipt :
      (cc_revision c < revision)%Z → Execution.live_claimed (cc_state c) = true →
      cc_lease c = None →
      let c' := cc_set c revision (cc_state c) (cc_executor_id c) (cc_stage c) (cc_checkpoint c)
                  (cc_error_code c) (cc_error_message c) (Some receipt) in
      decode c' = Ok c' → move cs c c'
  (** it is handed to a new executor before it touched anything *)
  | mv_resume revision :
      (cc_revision c < revision)%Z → cc_state c = CRecoveryRequired →
      cc_stage c = stage_as_str DrainingPrevious → drained cs c = Ok tt →
      move cs c (cc_set c revision CPending None "accepted" (cc_checkpoint c) None None None)
  (** its execution, superseded, is proven drained *)
  | mv_drained revision checkpoint code message :
      (cc_revision c < revision)%Z → cc_state c = CSuperseded → is_Some (cc_executor_id c) →
      move cs c (cc_set c revision CFailed (cc_executor_id c) "superseded_drained" checkpoint
                   code message (cc_lease c))
  (** its lease is released after the end *)
  | mv_forget revision :
      (cc_revision c < revision)%Z → ended (cc_state c) = true →
      move cs c (cc_set c revision (cc_state c) (cc_executor_id c) (cc_stage c) (cc_checkpoint c)
                   (cc_error_code c) (cc_error_message c) None)
  (** bookkeeping after success *)
  | mv_archive revision checkpoint :
      (cc_revision c < revision)%Z → cc_state c = CSucceeded → cc_lease c = None →
      move cs c (cc_set c revision (cc_state c) (cc_executor_id c) (cc_stage c) checkpoint
                   (cc_error_code c) (cc_error_message c) (cc_lease c)).

(** Controls are stored under their ids. *)
Definition keyed (cs : ComputeStore) : Prop :=
  ∀ id c, cs_controls cs !! id = Some c → cc_operation_id c = id.

(** The control a head names. *)
Definition named_by (cs : ComputeStore) (h : ComputeIntent) (c : ComputeControlRecord) : Prop :=
  ∃ id, ci_control_operation_id h = Some id ∧ cs_controls cs !! id = Some c.

(** What an admission must find and leave: the new control lists the live
    operations of its scope and whatever the head's control had to drain, and
    that control, if it is live. *)
Record admits (cs : ComputeStore) (c : ComputeControlRecord)
    (old : option ComputeControlRecord) : Prop := {
  ad_fresh : cs_controls cs !! cc_operation_id c = None;
  ad_scope : cc_scope c ≠ Application;
  ad_app : cc_app_id c = app_id (cs_app cs) ∧ cc_lifecycle_id c = app_lifecycle_id (cs_app cs);
  ad_unique : ∀ id d, cs_controls cs !! id = Some d → cc_app_id d = cc_app_id c →
    cc_scope d = cc_scope c →
    cc_request_id d ≠ cc_request_id c ∧ (cc_generation d < cc_generation c)%Z;
  ad_generation : (1 ≤ cc_generation c)%Z;
  ad_pending : cc_state c = CPending ∧ cc_executor_id c = None ∧ cc_stage c = "accepted"
               ∧ cc_lease c = None ∧ cc_revision c = 1%Z;
  ad_repair : is_automatic_repair (cc_request_id c) = true → cc_action c = CRestart;
  ad_old : match old with
           | Some o => cs_controls cs !! cc_operation_id o = Some o
               ∧ (∃ h, cs_intents cs !! cc_scope c = Some h
                    ∧ ci_control_operation_id h = Some (cc_operation_id o)
                    ∧ ci_lifecycle_id h = cc_lifecycle_id c)
               ∧ (∀ id, id ∈ cc_interrupted_operations o → id ∈ cc_interrupted_operations c)
               ∧ (cc_terminal (cc_state o) = false →
                  cc_operation_id o ∈ cc_interrupted_operations c
                  ∧ is_automatic_repair (cc_request_id c) = false
                  ∧ (cc_action c = CStop ∧ cc_action o = CRestart
                     ∨ is_automatic_repair (cc_request_id o) = true))
           | None => ∀ h, cs_intents cs !! cc_scope c = Some h →
               ci_control_operation_id h = None ∧ ci_lifecycle_id h = cc_lifecycle_id c
           end;
  ad_slots : ∀ s id, s = cc_scope c ∨ s = Application →
    slot (active_operations (cs_app cs)) s = Some id → id ∈ cc_interrupted_operations c;
  ad_listed : ∀ id, id ∈ cc_interrupted_operations c →
    match old with
    | Some o => id ∈ cc_interrupted_operations o ∨ id = cc_operation_id o
    | None => False
    end
    ∨ ∃ o, find_operation (cs_ops cs) (cc_app_id c) id = Some o ∧ op_is_terminal (op_state o) = false
        ∧ op_lifecycle_id o = cc_lifecycle_id c ∧ (op_scope o = cc_scope c ∨ op_scope o = Application);
}.

(** The old control after the admission. *)
Definition superseded (o : ComputeControlRecord) (revision : Z) : ComputeControlRecord :=
  cc_set o revision CSuperseded (cc_executor_id o) (cc_stage o) (cc_checkpoint o)
    (cc_error_code o) (cc_error_message o) (cc_lease o).

(** Operations are stored under their ids, and live ones own their slot. *)
Definition keyed_ops (ops : OperationTable) : Prop :=
  ∀ id o, ops !! id = Some o → op_operation_id o = id.
Definition live_own (st : AppStore) : Prop :=
  ∀ id o, st_ops st !! id = Some o → op_app_id o = app_id (st_app st) →
    op_is_terminal (op_state o) = false →
    slot (active_operations (st_app st)) (op_scope o) = Some id.

(** The scope of an operation goes with its kind, conflicting scopes are not
    taken at once, and nothing is in flight once the application is deleted. *)
Record life_ok (st : AppStore) : Prop := {
  li_scope : ∀ id o, st_ops st !! id = Some o → op_scope o = kind_scope (op_kind o);
  li_exclusive : ∀ s s', is_Some (slot (active_operations (st_app st)) s) →
    is_Some (slot (active_operations (st_app st)) s') → s ≠ s' → userapp_scope_blocks_request s s' = false;
  li_deleted : app_state (st_app st) = Deleted → ∀ s, slot (active_operations (st_app st)) s = None;
}.

(** What business transactions may do to the operations: a success needs the
    authority the heads leave, or to have been observed. *)
Record business_moves (observed : string → Prop) (cs : ComputeStore) (st : AppStore) : Prop := {
  bm_app : app_id (st_app st) = app_id (cs_app cs)
           ∧ app_lifecycle_id (st_app st) = app_lifecycle_id (cs_app cs);
  bm_old : ∀ id o, cs_ops cs !! id = Some o → ∃ o', st_ops st !! id = Some o'
    ∧ op_operation_id o' = op_operation_id o ∧ op_app_id o' = op_app_id o
    ∧ op_lifecycle_id o' = op_lifecycle_id o ∧ op_scope o' = op_scope o
    ∧ (op_is_terminal (op_state o) = true → o' = o)
    ∧ (o' = o ∨ op_state o' ≠ Succeeded
       ∨ (op_lifecycle_id o = app_lifecycle_id (cs_app cs) ∧ op_app_id o = app_id (cs_app cs)
          ∧ check_business_authority cs o = Ok tt)
       ∨ observed id);
  bm_new : ∀ id o', st_ops st !! id = Some o' → cs_ops cs !! id = None →
    op_operation_id o' = id ∧ op_app_id o' = app_id (cs_app cs)
    ∧ op_lifecycle_id o' = app_lifecycle_id (cs_app cs) ∧ op_state o' = Pending
    ∧ guard_admission cs (cs_app cs) (op_scope o') = Ok tt
    ∧ cs_controls cs !! id = None ∧ id ≠ EmptyString;
  bm_owner : keyed_ops (cs_ops cs) → live_own (cs_store cs) → live_own st;
  bm_revision : ∀ id o o', cs_ops cs !! id = Some o → st_ops st !! id = Some o' →
    o' = o ∨ (op_revision o < op_revision o')%Z;
  bm_epoch : lifecycle_epoch (st_app st) = lifecycle_epoch (cs_app cs);
  bm_life : life_ok (cs_store cs) → life_ok st
    ∧ (app_state (cs_app cs) = Deleted →
       st_app st = cs_app cs ∧ ∀ id, cs_ops cs !! id = None → st_ops st !! id = None);
}.

Inductive spec_step (e : HeadRights) (cs : ComputeStore) : ComputeStore → Prop :=
  | sp_move id c c' :
      cs_controls cs !! id = Some c → move cs c c' →
      spec_step e cs (with_controls (<[id := c']> (cs_controls cs)) cs)
  | sp_admit c old h :
      hr_point e = Some (cc_action c) → admits cs c old → ci_app_id h = cc_app_id c → ci_scope h = cc_scope c →
      ci_lifecycle_id h = cc_lifecycle_id c → ci_generation h = cc_generation c →
      ci_control_operation_id h = Some (cc_operation_id c) →
      ci_revision h = match cs_intents cs !! cc_scope c with
                      | Some old => (ci_revision old + 1)%Z
                      | None => 1%Z
                      end →
      ci_desired_state h = Compute.desired_of (cc_action c) →
      cs_ops cs !! cc_operation_id c = None →
      ∀ controls,
      match old with
      | Some o => if cc_terminal (cc_state o) then controls = cs_controls cs
                  else ∃ revision, (cc_revision o < revision)%Z
                       ∧ controls = <[cc_operation_id o := superseded o revision]> (cs_controls cs)
      | None => controls = cs_controls cs
      end →
      spec_step e cs
        (with_intents (<[cc_scope c := h]> (cs_intents cs))
           (with_controls (<[cc_operation_id c := c]> controls) cs))
  (** an explicit start of stopped compute *)
  | sp_access scope h revision :
      hr_start e = true → cs_intents cs !! scope = Some h →
      (∀ c, named_by cs h c → cc_terminal (cc_state c) = true) →
      revision = (ci_revision h + 1)%Z →
      spec_step e cs
        (with_intents (<[scope := mkIntent (ci_app_id h) (ci_scope h) (ci_lifecycle_id h)
                                    (ci_generation h) revision "running" None]> (cs_intents cs)) cs)
  (** a settled head is retired *)
  | sp_retire scope h :
      hr_retire e = true ∨ ci_lifecycle_id h ≠ app_lifecycle_id (cs_app cs) →
      cs_intents cs !! scope = Some h → ci_scope h = scope → validate_settled_head cs h = Ok tt →
      spec_step e cs (with_intents (delete scope (cs_intents cs)) cs)
  | sp_business st :
      business_moves (hr_observed e) cs st →
      (∀ id o o', cs_ops cs !! id = Some o → st_ops st !! id = Some o' →
         op_is_terminal (op_state o) = false → op_is_terminal (op_state o') = true →
         hr_end e id (op_state o')) →
      spec_step e cs (with_store st cs)
  (** a lease is recorded for a running operation, or released after its end *)
  | sp_lease id o b :
      cs_ops cs !! id = Some o → op_is_terminal (op_state o) = false →
      spec_step e cs (with_leases (<[id := b]> (cs_leases cs)) cs)
  | sp_release id o :
      cs_ops cs !! id = Some o → op_is_terminal (op_state o) = true →
      spec_step e cs (with_leases (delete id (cs_leases cs)) cs)
  (** deadlines are set once *)
  | sp_deadlines d :
      (∀ id row, cs_deadlines cs !! id = Some row → ∃ row', d !! id = Some row'
         ∧ cd_app_id row' = cd_app_id row ∧ cd_lifecycle_id row' = cd_lifecycle_id row
         ∧ cd_deadline_ms row' = cd_deadline_ms row) →
      spec_step e cs (with_deadlines d cs)
  (** an application that was deleted starts a new life, without operations in flight *)
  | sp_recreate a rows :
      app_id a = app_id (cs_app cs) → (∀ s, slot (active_operations (cs_app cs)) s = None) →
      (∀ s, slot (active_operations a) s = None) →
      app_state (cs_app cs) = Deleted → app_state a = Active →
      lifecycle_epoch a = (lifecycle_epoch (cs_app cs) + 1)%Z →
      hr_retire e = true → cs_intents cs !! Dev = None → cs_intents cs !! Prod = None →
      spec_step e cs (with_store (mkAppStore a (cs_ops cs) rows) cs).

Definition spec_steps (e : HeadRights) : relation ComputeStore := rtc (spec_step e).
