(* ===== verification/ComputeRefine.v ===== *)
(** * Every transaction is a sequence of ledger steps

    One lemma per transaction, then the refinement of a call. *)
From S2P Require Import Prelude Validation Lifecycle Evidence LifecycleDomain LifecycleStore.
From S2P Require Import LifecycleSafety OperationLease ComputeControl ComputeStore ComputeAdmission.
From S2P Require Import ComputeExecution ComputeRecovery ComputeSpec.
Local Open Scope rust_scope.

(** ** Reading *)

Lemma decode_Ok row c : decode row = Ok c → c = row ∧ (1 ≤ cc_generation row)%Z ∧ (1 ≤ cc_revision row)%Z.
Proof. unfold decode. intros Hd. unbind Hd. unbind Hd. bools. by simplify_eq. Qed.

Lemma get_Some cs app id c :
  get cs app id = Ok (Some c) →
  cs_controls cs !! id = Some c ∧ cc_app_id c = app ∧ decode c = Ok c.
Proof.
  unfold get. intros Hg. destruct (cs_controls cs !! id) as [row|] eqn:Hrow; [|done].
  case_bool_decide; [|done]. unbind Hg. simplify_eq. by pose proof (decode_Ok _ _ Ha) as [-> _].
Qed.

Lemma find_app_Some cs id a : find_app cs id = Some a → a = cs_app cs ∧ id = app_id (cs_app cs).
Proof. unfold find_app. case_bool_decide; naive_solver. Qed.

Lemma sql_succ_Ok n m : sql_succ n = Ok m → m = (n + 1)%Z.
Proof.
  unfold sql_succ, ok_or. destruct (i64_checked_succ n) eqn:Hs; [|done].
  apply i64_checked_succ_Some in Hs. by intros [= <-].
Qed.
Lemma rust_succ_Ok n m : rust_succ n = Ok m → m = (n + 1)%Z.
Proof.
  unfold rust_succ, ok_or. destruct (i64_checked_succ n) eqn:Hs; [|done].
  apply i64_checked_succ_Some in Hs. by intros [= <-].
Qed.

(** The record [Compute.current] finds. *)
Record acts_for (cs : ComputeStore) (identity : ComputeExecutorIdentity)
    (c : ComputeControlRecord) : Prop := {
  act_row : cs_controls cs !! cei_operation_id identity = Some c;
  act_live : cc_terminal (cc_state c) = false;
  act_ids : cc_app_id c = cei_app_id identity ∧ cc_lifecycle_id c = cei_lifecycle_id identity
           ∧ cc_scope c = cei_scope identity ∧ cc_generation c = cei_generation identity;
  act_head : ∃ h, cs_intents cs !! cei_scope identity = Some h
              ∧ ci_control_operation_id h = Some (cei_operation_id identity);
  act_current : cc_app_id c = app_id (cs_app cs) ∧ cc_lifecycle_id c = app_lifecycle_id (cs_app cs)
               ∧ app_state (cs_app cs) = Active;
}.

Lemma current_Ok cs identity c : Compute.current cs identity = Ok c → acts_for cs identity c.
Proof.
  unfold Compute.current. intros Hc. do 2 unbind Hc. unbind Hc. do 3 unbind Hc. unbind Hc. unbind Hc.
  unbind Hc. unbind Hc. simplify_eq. bools.
  apply find_app_Some in Ha0 as [-> Happ].
  unfold validate_active in Ha1. destruct (bool_decide (app_state _ = Active)) eqn:Hact; [|done].
  apply bool_decide_eq_true in Hact.
  subst. apply get_Some in Ha3 as (Hrow & Hca & _).
  split; naive_solver congruence.
Qed.

(** ** Row updates *)

Lemma update_control_Ok id guard set cs cs' :
  update_control id guard set cs = Ok cs' →
  ∃ c c', cs_controls cs !! id = Some c ∧ guard c = true ∧ set c = Ok c'
    ∧ cs' = with_controls (<[id := c']> (cs_controls cs)) cs.
Proof.
  unfold update_control. intros Hu. destruct (cs_controls cs !! id) as [c|] eqn:Hrow; [|done].
  destruct (guard c) eqn:Hg; [|done]. unbind Hu. simplify_eq. naive_solver.
Qed.

(** An update whose rows move is a step. *)
Lemma refine_update e id guard set cs cs' :
  update_control id guard set cs = Ok cs' →
  (∀ c c', cs_controls cs !! id = Some c → guard c = true → set c = Ok c' → move cs c c') →
  spec_steps e cs cs'.
Proof.
  intros (c & c' & Hrow & Hg & Hset & ->)%update_control_Ok Hmove.
  apply rtc_once. eapply sp_move; eauto.
Qed.

(** The same, when the row is read back. *)
Lemma refine_update_read e id guard set cs cs' c' :
  update_control id guard set cs = Ok cs' → cs_controls cs' !! id = Some c' →
  (∀ c, cs_controls cs !! id = Some c → guard c = true → set c = Ok c' → move cs c c') →
  spec_steps e cs cs'.
Proof.
  intros (c & c1 & Hrow & Hg & Hset & ->)%update_control_Ok Hr Hmove. simpl in Hr.
  rewrite lookup_insert_eq in Hr. injection Hr as ->.
  apply rtc_once. eapply sp_move; eauto.
Qed.

Lemma reread_Ok app id cs c cs' :
  Execution.reread app id cs = Ok (c, cs') → cs' = cs ∧ cs_controls cs !! id = Some c ∧ decode c = Ok c.
Proof. unfold Execution.reread. intros Hr. do 2 unbind Hr. simplify_eq. by apply get_Some in Ha as (? & _ & ?). Qed.
Lemma reread_current_Ok identity cs c cs' :
  Execution.reread_current identity cs = Ok (c, cs') → cs' = cs.
Proof. unfold Execution.reread_current. intros Hr. unbind Hr. by simplify_eq. Qed.

(** A report that keeps the stage. *)
Lemma mv_same_stage cs c revision state checkpoint code message :
  (cc_revision c < revision)%Z → Execution.live_claimed (cc_state c) = true →
  cc_terminal state = false ∨ state = CFailed → state ≠ CPending →
  move cs c (cc_set c revision state (cc_executor_id c) (cc_stage c) checkpoint code message (cc_lease c)).
Proof.
  intros Hrev Hlive Hst Hp. apply mv_progress; auto.
  - destruct Hst as [?| ->]; [by left|by right].
  - by left.
  - intros ->. by destruct Hst.
Qed.

(** A report that makes the next step under a lease, with the work drained. *)
Lemma mv_next_stage cs c revision state s s' checkpoint code message :
  (cc_revision c < revision)%Z → Execution.live_claimed (cc_state c) = true →
  cc_terminal state = false ∨ state = CFailed → state ≠ CPending →
  cc_stage c = stage_as_str s → next_stage (cc_action c) s = Some s' →
  is_Some (cc_lease c) → drained cs c = Ok tt ∨ s ≠ DrainingPrevious →
  move cs c (cc_set c revision state (cc_executor_id c) (stage_as_str s') checkpoint code message (cc_lease c)).
Proof.
  intros Hrev Hlive Hst Hp Hs Hn Hl Hd. apply mv_progress; auto.
  - destruct Hst as [?| ->]; [by left|by right].
  - right. eauto.
  - intros _. left. split; [done|]. destruct Hd as [?|Hne]; [by left|right].
    unfold physical. rewrite Hs, (proj2 (stage_from_storage_Some _ s) eq_refl). by destruct s.
  - intros ->. by destruct Hst.
Qed.

(** ** Leases, drains and bookkeeping *)

Lemma check_Ok cs identity u :
  Compute.check cs identity = Ok u →
  ∃ c, Compute.current cs identity = Ok c ∧ cc_state c = CRunning
     ∧ cc_executor_id c = Some (cei_executor_id identity).
Proof.
  unfold Compute.check. intros Hc. peel Hc as c Hcur. exists c.
  unfold ensure in Hc. destruct (_ && _) eqn:Hb; [|done]. by bools.
Qed.

Lemma refine_bind e identity receipt cs c cs' :
  Execution.bind identity receipt cs = Ok (c, cs') → spec_steps e cs cs'.
Proof.
  unfold Execution.bind. intros H. peel H as u Hv. peel H as u' Hchk. peel H as r Hcur.
  apply check_Ok in Hchk as (r' & Hcur' & Hst & Hex). assert (r' = r) as -> by congruence.
  destruct (cc_lease r) eqn:Hl; [peel H as Heq; by simplify_eq|].
  peel H as cs1 Hu. apply reread_Ok in H as (-> & Hrr & Hdec).
  eapply refine_update_read; [done|exact Hrr|]. intros c0 Hrow Hg Hset. cbv beta in *.
  peel Hset as rev Hrev. apply sql_succ_Ok in Hrev as ->. injection Hset as <-.
  pose proof (act_row _ _ _ (current_Ok _ _ _ Hcur)). assert (c0 = r) as -> by congruence.
  apply mv_lease; [lia|by rewrite Hst|done|done].
Qed.

Lemma refine_forget e identity receipt cs cs' :
  Execution.forget identity receipt cs = Ok (tt, cs') → spec_steps e cs cs'.
Proof.
  unfold Execution.forget. intros H. peel H as u Hv. peel H as found Hget. peel H as r Hr.
  simplify_eq. peel H as Hb. bools. destruct (cc_lease r) eqn:Hl; [|by simplify_eq].
  peel H as Heq. peel H as cs1 Hu. simplify_eq.
  eapply refine_update; [done|]. intros c0 c' Hrow Hg Hset. cbv beta in *.
  peel Hset as rev Hrev. apply sql_succ_Ok in Hrev as ->. simplify_eq.
  apply get_Some in Hget as [? _]. simplify_eq.
  apply mv_forget; [lia|]. by destruct (cc_state _).
Qed.

Lemma refine_acknowledge `{ComputeCodec} e ack cs c cs' :
  Execution.acknowledge_drain ack cs = Ok (c, cs') → spec_steps e cs cs'.
Proof.
  unfold Execution.acknowledge_drain. intros H'. peel H' as found Hget. peel H' as r Hr.
  peel H' as Hb. peel H' as Hev. peel H' as cs1 Hu. apply reread_Ok in H' as (-> & _).
  eapply refine_update; [done|]. intros c0 c' Hrow Hg Hset. cbv beta in *.
  peel Hset as rev Hrev. apply sql_succ_Ok in Hrev as ->. injection Hset as <-.
  bools. apply mv_drained; [lia|done|by eexists].
Qed.

Lemma refine_archive e snapshot cs cs' :
  Execution.mark_archive_cleaned snapshot cs = Ok (tt, cs') → spec_steps e cs cs'.
Proof.
  unfold Execution.mark_archive_cleaned. intros H. peel H as found Hget. peel H as r Hr.
  peel H as Hb. peel H as cs1 Hu. injection H as <-.
  eapply refine_update; [done|]. intros c0 c' Hrow Hg Hset. cbv beta in *.
  peel Hset as rev Hrev. apply sql_succ_Ok in Hrev as ->. injection Hset as <-.
  bools. apply mv_archive; [lia|done|done].
Qed.

(** ** Progress *)

Lemma policy_moves action current state next code message lease :
  validate_compute_progress_transition action current state next code message lease = Ok tt →
  (current = Some next ∨ ∃ s, current = Some s ∧ next_stage action s = Some next)
  ∧ (cc_terminal state = false ∨ ended state = true) ∧ state ≠ CPending
  ∧ (state = CSucceeded → next = Completed)
  ∧ (state = CFailed → current = Some DrainingPrevious ∧ lease = false).
Proof.
  unfold validate_compute_progress_transition. intros H.
  peel H as H1. peel H as H2. peel H as H3. peel H as H4. peel H as H5. peel H as H6.
  unfold ensure in H. destruct (negb _) eqn:H7 in H; [|done]. clear H H4 H5 H6.
  apply negb_true_iff, orb_false_iff in H2 as [Hleg Hstop]. apply negb_false_iff in Hleg.
  split_and!.
  - unfold legal_stage in Hleg. destruct action, current as [[]|], next; simpl in *; eauto; naive_solver.
  - destruct state; naive_solver.
  - by intros ->.
  - intros ->. rewrite bool_decide_eq_true_2 in H3 by done. simpl in H3. bools. done.
  - intros ->. rewrite bool_decide_eq_true_2 in H7 by done. simpl in H7. by bools.
Qed.

Lemma wake_after_restart_steps e record p cs cs' :
  app_state (cs_app cs) = Active →
  Execution.wake_after_restart record p cs = Ok cs' → spec_steps e cs cs' ∧ cs_controls cs' = cs_controls cs.
Proof.
  unfold Execution.wake_after_restart. intros Hact H. destruct (_ && _); [|by simplify_eq].
  peel H as a Ha. peel H as rev Hrev. injection H as <-. split; [|done].
  apply find_app_Some in Ha as [-> _].
  apply rtc_once, sp_business; [|simpl; congruence]. split; simpl; try done.
  - intros id o Ho. exists o. naive_solver.
  - intros id o' Ho' Hn. congruence.
  - intros id o o' Ho Ho'. left. congruence.
  - intros [Hs Hx _]. split; [|congruence]. split; simpl; [done|done|]. change (app_state (cs_app cs) = Deleted → ∀ s, slot (active_operations (cs_app cs)) s = None). congruence.
Qed.

Lemma refine_advance `{ComputeCodec} e p cs c cs' :
  Execution.advance p cs = Ok (c, cs') → spec_steps e cs cs'.
Proof.
  unfold Execution.advance. intros H'. peel H' as u Hchk. peel H' as r Hcur. peel H' as u' Hp.
  apply check_Ok in Hchk as (r' & Hcur' & Hst & Hex). assert (r' = r) as -> by congruence.
  peel H' as cs1 Hu. peel H' as cs2 Hw. apply reread_Ok in H' as (-> & _).
  pose proof (act_current _ _ _ (current_Ok _ _ _ Hcur)) as (_ & _ & Hact).
  etrans; [|eapply wake_after_restart_steps; [|done]; by apply update_control_Ok in Hu as (? & ? & _ & _ & _ & ->)].
  eapply refine_update; [done|]. intros c0 c' Hrow Hg Hset. cbv beta in *.
  peel Hset as rev Hrev. apply sql_succ_Ok in Hrev as ->. injection Hset as <-.
  pose proof (act_row _ _ _ (current_Ok _ _ _ Hcur)). assert (c0 = r) as -> by congruence.
  clear Hrow Hg Hu Hw Hcur'. unfold Execution.progress_ok in Hp.
  peel Hp as Hrev. peel Hp as Hval. peel Hp as v Hpol. apply map_err_Ok in Hpol. destruct v.
  apply policy_moves in Hpol as (Hstage & Hstate & Hnp & Hsucc & Hfail). peel Hp as v Hmut. clear Hp.
  apply mv_progress; try done; [lia|by rewrite Hst| | |].
  - destruct Hstage as [Hs|(s & Hs & Hn)]; apply stage_from_storage_Some in Hs; [by left|right; eauto].
  - intros Hph. destruct (bool_decide (ccp_stage p = DrainingPrevious)) eqn:Hd.
    { bools. rewrite Hd in Hph. by vm_compute in Hph. }
    simpl in Hmut. peel Hmut as w Hdr. destruct w. apply map_err_Ok in Hmut.
    unfold validate_compute_mutation_evidence, ensure in Hmut. rewrite Hd in Hmut. simpl in Hmut.
    destruct (is_some (cc_lease r)) eqn:Hl; [|done]. bools. left. naive_solver.
  - intros Hs. rewrite (Hsucc Hs) in *. split; [done|].
    simpl in Hmut. peel Hmut as w Hdr. apply map_err_Ok in Hmut.
    unfold validate_compute_mutation_evidence, ensure in Hmut. simpl in Hmut.
    destruct (is_some (cc_lease r)) eqn:Hl; [|done]. by bools.
Qed.

(** ** Observers

    They act on the head exactly as they saw it. *)
Lemma current_snapshot cs snapshot executor actual :
  Compute.current cs (Execution.identity_of snapshot executor) = Ok actual → actual = snapshot →
  cs_controls cs !! cc_operation_id snapshot = Some snapshot.
Proof. intros Hc ->. exact (act_row _ _ _ (current_Ok _ _ _ Hc)). Qed.

Lemma refine_boundary e c revision s s' checkpoint cs cs' :
  Execution.take_boundary c revision (stage_as_str s') checkpoint cs = Ok cs' →
  cs_controls cs !! cc_operation_id c = Some c → revision = (cc_revision c + 1)%Z →
  Execution.live_claimed (cc_state c) = true → is_Some (cc_lease c) →
  cc_stage c = stage_as_str s → next_stage (cc_action c) s = Some s' → s ≠ DrainingPrevious →
  spec_steps e cs cs'.
Proof.
  intros Hu Hrow -> Hlive Hl Hs Hn Hne. eapply refine_update; [exact Hu|].
  intros c0 c' Hrow' _ Hset. assert (c0 = c) as -> by congruence. injection Hset as <-.
  eapply mv_next_stage; eauto; try lia; by left.
Qed.

Lemma refine_finalize_confirmed `{ComputeCodec} e snapshot cs c cs' :
  Execution.finalize_confirmed snapshot cs = Ok (c, cs') → spec_steps e cs cs'.
Proof.
  unfold Execution.finalize_confirmed. intros H'. peel H' as ex Hex. peel H' as cur Hcur.
  peel H' as Hb. peel H' as rev Hrev. apply rust_succ_Ok in Hrev as ->. peel H' as cs1 Hu.
  apply refine_advance with (e := e) in H'. etrans; [|exact H'].
  bools. subst cur. pose proof (current_snapshot _ _ _ _ Hcur eq_refl) as Hrow.
  eapply refine_update; [exact Hu|]. intros c0 c' Hrow' _ Hset.
  assert (c0 = snapshot) as -> by congruence. injection Hset as <-.
  apply mv_same_stage; try done; [lia|by left].
Qed.

Lemma refine_finalize_observed `{ComputeCodec} e snapshot action creation cs c cs' :
  Execution.finalize_observed snapshot action creation cs = Ok (c, cs') → spec_steps e cs cs'.
Proof.
  unfold Execution.finalize_observed.
  destruct (match action with CStop => _ | CRestart => _ end) as [expected confirmed] eqn:Hst.
  intros H'. peel H' as context Hctx. peel H' as valid Hv. peel H' as Hb. peel H' as cur Hcur.
  peel H' as Heq. peel H' as rev Hrev. apply rust_succ_Ok in Hrev as ->. peel H' as cs1 Hu.
  peel H' as conf Hconf. apply refine_finalize_confirmed with (e := e) in H'. etrans; [|exact H'].
  bools. pose proof (current_snapshot _ _ _ _ Hcur Heq) as Hrow.
  destruct action; injection Hst as <- <-.
  - eapply (refine_boundary e snapshot _ Stopping Stopped); eauto. by rewrite Hb.
  - eapply (refine_boundary e snapshot _ Starting Verifying); eauto. by rewrite Hb.
Qed.

Lemma refine_finalize_creation `{ComputeCodec} e snapshot observed volumes cs c cs' :
  Execution.finalize_observed_creation snapshot observed volumes cs = Ok (c, cs') → spec_steps e cs cs'.
Proof.
  unfold Execution.finalize_observed_creation. intros H'. do 6 unbind H'.
  by eapply refine_finalize_observed.
Qed.

(** The three confirmations of a restart's stop boundary. *)
Lemma refine_stop_boundary e snapshot executor revision state checkpoint code message cs cs' :
  cs_controls cs !! cc_operation_id snapshot = Some snapshot →
  update_control (cc_operation_id snapshot) (Execution.stopping_guard snapshot executor)
    (λ c, Ok (cc_set c revision (state c) (cc_executor_id c) "stopped" checkpoint
                (code c) (message c) (cc_lease c))) cs = Ok cs' →
  drained cs snapshot = Ok tt → revision = (cc_revision snapshot + 1)%Z → is_Some (cc_lease snapshot) →
  cc_terminal (state snapshot) = false ∨ state snapshot = CFailed → state snapshot ≠ CPending →
  spec_steps e cs cs'.
Proof.
  intros Hrow Hu Hd -> Hl Hst Hp. eapply refine_update; [exact Hu|]. intros c0 c' Hrow' Hg Hset.
  assert (c0 = snapshot) as -> by congruence. cbv beta in *. injection Hset as <-.
  unfold Execution.stopping_guard in Hg. bools.
  eapply (mv_next_stage _ _ _ _ Stopping Stopped); eauto; [lia|by destruct (cc_action snapshot)].
Qed.

Lemma live_claimed_spec s : Execution.live_claimed s = true → cc_terminal s = false ∧ s ≠ CPending.
Proof. by destruct s. Qed.

Lemma refine_confirm_docker `{ComputeCodec} e snapshot observation cs c cs' :
  Execution.confirm_builder_restart_stopped snapshot observation cs = Ok (c, cs') → spec_steps e cs cs'.
Proof.
  unfold Execution.confirm_builder_restart_stopped. intros H'.
  peel H' as t Hb. destruct t as [[[[context identity] lease] original] volumes].
  unfold Execution.docker_boundary in Hb. peel Hb as u1 Ho. peel Hb as ctx Hctx.
  peel Hb as l Hl. do 4 unbind Hb. simplify_eq.
  peel H' as Hok. peel H' as cur Hcur. peel H' as Heq. peel H' as u Hd. destruct u.
  peel H' as rev Hrev. apply rust_succ_Ok in Hrev. peel H' as Hobj. peel H' as cs1 Hu.
  apply reread_current_Ok in H' as ->. unfold Execution.docker_boundary_ok in Hok. bools.
  eapply (refine_stop_boundary e snapshot _ _ cc_state _ cc_error_code cc_error_message);
    [by eapply current_snapshot|exact Hu|done|done|done|left|]; by apply live_claimed_spec.
Qed.

Lemma refine_confirm_kubernetes `{ComputeCodec} e snapshot evidence cs c cs' :
  Execution.confirm_kubernetes_restart_stopped snapshot evidence cs = Ok (c, cs') → spec_steps e cs cs'.
Proof.
  unfold Execution.confirm_kubernetes_restart_stopped. intros H'.
  peel H' as context Hctx. peel H' as lease Hl. do 2 unbind H'. peel H' as Hok.
  peel H' as cur Hcur. peel H' as Heq. peel H' as u Hd. destruct u.
  peel H' as rev Hrev. apply rust_succ_Ok in Hrev. peel H' as Hobj. peel H' as cs1 Hu.
  apply reread_current_Ok in H' as ->. bools.
  eapply (refine_stop_boundary e snapshot _ _ cc_state _ cc_error_code cc_error_message);
    [by eapply current_snapshot|exact Hu|done|done|done|left|]; by apply live_claimed_spec.
Qed.

Lemma refine_unrebuildable `{ComputeCodec} e snapshot observation unavailable cs c cs' :
  Execution.fail_unrebuildable_builder_restart snapshot observation unavailable cs = Ok (c, cs') →
  spec_steps e cs cs'.
Proof.
  unfold Execution.fail_unrebuildable_builder_restart. intros H'.
  peel H' as t Hb. destruct t as [[[[context identity] lease] original] volumes].
  unfold Execution.docker_boundary in Hb. peel Hb as u1 Ho. peel Hb as ctx Hctx.
  peel Hb as l Hl. do 4 unbind Hb. simplify_eq.
  peel H' as Hok. peel H' as reason Hreason. peel H' as cur Hcur. peel H' as Heq.
  peel H' as u Hd. destruct u. peel H' as rev Hrev. apply rust_succ_Ok in Hrev.
  peel H' as cs1 Hu. apply reread_Ok in H' as (-> & _). bools.
  eapply (refine_stop_boundary e snapshot _ _ (λ _, CFailed) _ cc_error_code cc_error_message);
    [by eapply current_snapshot|exact Hu|done|done|done|by right|done].
Qed.

(** Continuing after the boundary. *)
Lemma refine_start_again e snapshot checkpoint cs cs' revision :
  cs_controls cs !! cc_operation_id snapshot = Some snapshot →
  Execution.start_again snapshot revision checkpoint cs = Ok cs' →
  revision = (cc_revision snapshot + 1)%Z → cc_action snapshot = CRestart →
  cc_stage snapshot = "stopped" ∨ cc_stage snapshot = "starting" →
  Execution.live_claimed (cc_state snapshot) = true → is_Some (cc_lease snapshot) →
  spec_steps e cs cs'.
Proof.
  intros Hrow Hu -> Hact Hst Hlive Hl. eapply refine_update; [exact Hu|]. intros c0 c' Hrow' _ Hset.
  assert (c0 = snapshot) as -> by congruence. cbv beta in *. injection Hset as <-.
  destruct Hst as [Hst|Hst].
  - eapply (mv_next_stage _ _ _ _ Stopped Starting); eauto; [lia|by rewrite Hact].
  - rewrite <- Hst. apply mv_same_stage; try done; [lia|by left].
Qed.

(** What the guards of both continuations say of the snapshot. *)
Ltac continuation Hok :=
  repeat (apply andb_true_iff in Hok as [Hok ?]); bools; split_and!; try done;
  match goal with
  | H : (bool_decide (cc_stage _ = "stopped") || _) = true |- _ ∨ _ =>
      apply orb_true_iff in H as [H|H]; bools; auto
  end.

Lemma refine_resume_restart `{ComputeCodec} e snapshot target cs c cs' :
  Execution.resume_stopped_restart snapshot target cs = Ok (c, cs') → spec_steps e cs cs'.
Proof.
  unfold Execution.resume_stopped_restart. intros H'. peel H' as context Hctx. peel H' as old Hold.
  peel H' as Hok. peel H' as u Hw. peel H' as cur Hcur. peel H' as Heq. peel H' as rev Hrev.
  apply rust_succ_Ok in Hrev. peel H' as cs1 Hu. apply reread_current_Ok in H' as ->.
  assert (cc_action snapshot = CRestart ∧ (cc_stage snapshot = "stopped" ∨ cc_stage snapshot = "starting")
          ∧ Execution.live_claimed (cc_state snapshot) = true ∧ is_Some (cc_lease snapshot))
    as (? & ? & ? & ?) by continuation Hok.
  bools. eapply refine_start_again; try done. by eapply current_snapshot.
Qed.

Lemma refine_resume_builder `{ComputeCodec} e snapshot target cs c cs' :
  Execution.resume_builder_restart snapshot target cs = Ok (c, cs') → spec_steps e cs cs'.
Proof.
  unfold Execution.resume_builder_restart. intros H'. peel H' as context Hctx. peel H' as old Hold.
  do 2 unbind H'. peel H' as same Hsame. peel H' as Hok. peel H' as cur Hcur. peel H' as Heq.
  peel H' as rev Hrev. apply rust_succ_Ok in Hrev. peel H' as cs1 Hu.
  apply reread_current_Ok in H' as ->.
  assert (cc_action snapshot = CRestart ∧ (cc_stage snapshot = "stopped" ∨ cc_stage snapshot = "starting")
          ∧ Execution.live_claimed (cc_state snapshot) = true ∧ is_Some (cc_lease snapshot))
    as (? & ? & ? & ?) by continuation Hok.
  bools. eapply refine_start_again; try done. by eapply current_snapshot.
Qed.

Lemma refine_capture_template `{ComputeCodec} e snapshot source template cs c cs' :
  Execution.capture_stopped_builder_template snapshot source template cs = Ok (c, cs') →
  spec_steps e cs cs'.
Proof.
  unfold Execution.capture_stopped_builder_template. intros H'. do 8 unbind H'. peel H' as Hok.
  peel H' as cur Hcur. peel H' as Heq. peel H' as u Hd. peel H' as rev Hrev.
  apply rust_succ_Ok in Hrev. peel H' as Hobj. peel H' as cp Hcp. peel H' as cs1 Hu.
  apply reread_current_Ok in H' as ->. unfold Execution.capture_guard in Hok. bools.
  pose proof (current_snapshot _ _ _ _ Hcur Heq) as Hrow.
  eapply refine_update; [exact Hu|]. intros c0 c' Hrow' _ Hset.
  assert (c0 = snapshot) as -> by congruence. cbv beta in *. injection Hset as <-.
  apply mv_same_stage; try done; [lia|left|]; by apply live_claimed_spec.
Qed.

(** ** Handoff and deadlines *)

Record early (cs : ComputeStore) (snapshot actual : ComputeControlRecord) : Prop := {
  ey_same : actual = snapshot;
  ey_row : cs_controls cs !! cc_operation_id snapshot = Some snapshot;
  ey_live : Execution.live_claimed (cc_state snapshot) = true;
  ey_stage : cc_stage snapshot = stage_as_str DrainingPrevious;
}.

Lemma recovery_current_Ok cs snapshot actual :
  Recovery.current cs snapshot = Ok actual → early cs snapshot actual.
Proof.
  unfold Recovery.current. intros H. peel H as ex Hex. peel H as cur Hcur. peel H as Hb.
  injection H as ->. bools. subst actual. split; [done|by eapply current_snapshot| |];
    unfold can_recover_compute_drain in Hb0; bools.
  - by destruct (cc_state snapshot).
  - unfold early_compute_boundary in Hb1. apply stage_from_storage_Some.
    destruct (bool_decide (stage_from_storage _ = _)) eqn:Hs; [by bools|]. done.
Qed.

Lemma refine_update_row e snapshot guard set cs c cs' :
  Recovery.update_row snapshot guard set cs = Ok (c, cs') →
  cs_controls cs !! cc_operation_id snapshot = Some snapshot →
  (let c' := set (cc_revision snapshot + 1)%Z snapshot in
   guard snapshot = true → decode c' = Ok c' → move cs snapshot c') →
  spec_steps e cs cs'.
Proof.
  unfold Recovery.update_row. intros H Hrow Hmv. peel H as cs1 Hu. apply reread_Ok in H as (-> & Hrr & Hdec).
  eapply refine_update_read; [exact Hu|exact Hrr|]. intros c0 Hrow' Hg Hset.
  assert (c0 = snapshot) as -> by congruence. cbv beta in *.
  peel Hset as rev Hrev. apply sql_succ_Ok in Hrev as ->. injection Hset as <-. bools. auto.
Qed.

Lemma mv_error cs c state code message :
  Execution.live_claimed (cc_state c) = true → state = CRecoveryRequired ∨ state = CFailed →
  move cs c (Recovery.with_error state code message (cc_revision c + 1) c).
Proof. intros Hl Hs. apply mv_same_stage; [lia|done| |]; destruct Hs as [-> | ->]; naive_solver. Qed.

Lemma refine_reserve e snapshot cs c cs' :
  Recovery.reserve snapshot cs = Ok (c, cs') → spec_steps e cs cs'.
Proof.
  unfold Recovery.reserve. intros H. peel H as actual Hcur. apply recovery_current_Ok in Hcur as [-> Hrow Hl Hs].
  eapply refine_update_row; [exact H|done|]. intros c' _ _. apply mv_error; auto.
Qed.

Lemma refine_capture e snapshot receipt attempt cs c cs' :
  Recovery.capture snapshot receipt attempt cs = Ok (c, cs') → spec_steps e cs cs'.
Proof.
  unfold Recovery.capture. intros H. peel H as u Hid. peel H as actual Hcur.
  apply recovery_current_Ok in Hcur as [-> Hrow Hl Hs]. peel H as Hst. do 3 unbind H.
  destruct (cc_lease snapshot); [unbind H; by simplify_eq|].
  eapply refine_update_row; [exact H|done|]. intros c' Hg Hdec. cbv beta in *. bools.
  apply mv_lease; [lia|done|done|done].
Qed.

Lemma refine_resume e snapshot released cs c cs' :
  Recovery.resume snapshot released cs = Ok (c, cs') → spec_steps e cs cs'.
Proof.
  unfold Recovery.resume. intros H. peel H as actual Hcur.
  apply recovery_current_Ok in Hcur as [-> Hrow Hl Hs]. peel H as Hb. peel H as u Hd. destruct u.
  eapply refine_update_row; [exact H|done|]. intros c' Hg Hdec. bools. apply mv_resume; [lia|done|done|done].
Qed.

Lemma refine_problem e snapshot code message cs c cs' :
  Recovery.problem snapshot code message cs = Ok (c, cs') → spec_steps e cs cs'.
Proof.
  unfold Recovery.problem. intros H. peel H as actual Hcur.
  apply recovery_current_Ok in Hcur as [-> Hrow Hl Hs]. peel H as Hb. destruct (_ && _); [by simplify_eq|].
  eapply refine_update_row; [exact H|done|]. intros c' Hg Hdec. bools. apply mv_error; auto.
Qed.

Lemma refine_fail_unrecoverable e snapshot code message cs c cs' :
  Recovery.fail_unrecoverable snapshot code message cs = Ok (c, cs') → spec_steps e cs cs'.
Proof.
  unfold Recovery.fail_unrecoverable. intros H. peel H as actual Hcur.
  apply recovery_current_Ok in Hcur as [-> Hrow Hl Hs]. peel H as Hb.
  eapply refine_update_row; [exact H|done|]. intros c' Hg Hdec. apply mv_error; auto.
Qed.

Lemma refine_expire e snapshot code message expected now cs c cs' :
  Recovery.expire snapshot code message expected now cs = Ok (c, cs') → spec_steps e cs cs'.
Proof.
  unfold Recovery.expire. intros H. peel H as found Hget. peel H as actual Ha. subst found.
  apply get_Some in Hget as (Hrow & _). peel H as Hb. bools. subst actual. do 2 unbind H.
  eapply refine_update_row; [exact H|done|]. intros c' Hg Hdec. apply mv_error; auto.
Qed.

(** Writing a deadline row that keeps the deadline, or the first one. *)
Lemma refine_deadline e cs id row :
  (∀ old, cs_deadlines cs !! id = Some old → cd_app_id row = cd_app_id old
     ∧ cd_lifecycle_id row = cd_lifecycle_id old ∧ cd_deadline_ms row = cd_deadline_ms old) →
  spec_steps e cs (with_deadlines (<[id := row]> (cs_deadlines cs)) cs).
Proof.
  intros Hrow. apply rtc_once, sp_deadlines. intros id' old Hold. destruct (decide (id' = id)) as [->|Hne].
  - exists row. rewrite lookup_insert_eq. naive_solver.
  - exists old. by rewrite lookup_insert_ne.
Qed.

Lemma refine_bind_deadline e snapshot deadline cs z cs' :
  Recovery.bind_deadline snapshot deadline cs = Ok (z, cs') → spec_steps e cs cs'.
Proof.
  unfold Recovery.bind_deadline. intros H. unbind H. case_match.
  - unbind H. by simplify_eq.
  - do 3 unbind H. injection H as <- <-. apply refine_deadline. congruence.
Qed.
Lemma refine_mark_unheld e snapshot observed cs z cs' :
  Recovery.mark_unheld snapshot observed cs = Ok (z, cs') → spec_steps e cs cs'.
Proof.
  unfold Recovery.mark_unheld. intros H. peel H as row Hrow. unbind H. case_match; [by simplify_eq|].
  do 3 unbind H. injection H as <- <-. apply refine_deadline. naive_solver congruence.
Qed.
Lemma refine_clear_unheld e snapshot cs u cs' :
  Recovery.clear_unheld snapshot cs = Ok (u, cs') → spec_steps e cs cs'.
Proof.
  unfold Recovery.clear_unheld. intros H. destruct (cs_deadlines cs !! _) as [row|] eqn:Hrow; [|by simplify_eq].
  case_match; [|by simplify_eq]. injection H as <- <-. apply refine_deadline. naive_solver congruence.
Qed.

(** ** Access and retired heads *)

Lemma classify_current cs a scope head h :
  classify_scoped_head cs a scope head = Ok (HeadCurrent h) →
  h = head ∧ ci_app_id h = app_id a ∧ ci_scope h = scope ∧ ci_lifecycle_id h = app_lifecycle_id a.
Proof.
  unfold classify_scoped_head. intros H. peel H as Hb. bools.
  case_bool_decide; [by simplify_eq|]. unbind H. done.
Qed.
Lemma classify_historical cs a scope head h :
  classify_scoped_head cs a scope head = Ok (HeadHistorical h) →
  h = head ∧ ci_scope h = scope ∧ validate_settled_head cs h = Ok tt
  ∧ ci_lifecycle_id h ≠ app_lifecycle_id a.
Proof.
  unfold classify_scoped_head. intros H. peel H as Hb. bools. case_bool_decide; [by simplify_eq|].
  peel H as u Hs. destruct u. by simplify_eq.
Qed.

Lemma refine_access e app scope explicit cs u cs' :
  hr_start e = explicit →
  Compute.check_access app scope explicit cs = Ok (u, cs') → spec_steps e cs cs'.
Proof.
  unfold Compute.check_access. intros Hright H.
  destruct (if bool_decide _ then cs_intents cs !! scope else None) as [h|] eqn:Hh; [|by simplify_eq].
  case_bool_decide as Happ; [|done]. subst app.
  peel H as a Ha. apply find_app_Some in Ha as [-> _]. peel H as v Hact. peel H as head Hcl.
  destruct head as [|h'|h']; [by simplify_eq| |by simplify_eq].
  apply classify_current in Hcl as (-> & _ & Hsc & _). peel H as w Hctl.
  peel H as stopped Hst. destruct stopped; [|by simplify_eq]. peel H as He.
  peel H as rev Hrev. injection H as <- <-. apply rtc_once. eapply sp_access; [congruence|done| |].
  - intros c (id & Hid & Hrow). rewrite Hid in Hctl. peel Hctl as found Hget. peel Hctl as c' Hc. subst found.
    apply get_Some in Hget as (Hrow' & _). assert (c' = c) as -> by congruence.
    unfold ensure in Hctl. by destruct (cc_terminal (cc_state c)).
  - by apply sql_succ_Ok in Hrev.
Qed.

Lemma refine_retire_head e h cs cs' :
  hr_retire e = true ∨ ci_lifecycle_id h ≠ app_lifecycle_id (cs_app cs) →
  retire_head h cs = Ok cs' → cs_intents cs !! ci_scope h = Some h →
  validate_settled_head cs h = Ok tt →
  spec_step e cs cs' ∧ cs' = with_intents (delete (ci_scope h) (cs_intents cs)) cs.
Proof.
  unfold retire_head. intros He H Hh Hs. rewrite Hh in H. destruct (_ && _); [|done].
  injection H as <-. split; [by eapply sp_retire|done].
Qed.

Lemma read_head cs a scope head :
  read_scoped_head cs a scope = Ok head →
  match head with
  | HeadAbsent => cs_intents cs !! scope = None
  | HeadCurrent h => cs_intents cs !! scope = Some h ∧ ci_app_id h = app_id a ∧ ci_scope h = scope
                     ∧ ci_lifecycle_id h = app_lifecycle_id a
  | HeadHistorical h => cs_intents cs !! scope = Some h ∧ ci_scope h = scope
                        ∧ validate_settled_head cs h = Ok tt
                        ∧ ci_lifecycle_id h ≠ app_lifecycle_id a
  end.
Proof.
  unfold read_scoped_head. destruct (cs_intents cs !! scope) as [h0|]; [|by intros [= <-]].
  destruct head as [|h|h]; intros Hc.
  - unfold classify_scoped_head in Hc. unbind Hc. case_bool_decide; [done|]. by unbind Hc.
  - by apply classify_current in Hc as (-> & ? & ? & ?).
  - by apply classify_historical in Hc as (-> & ? & ? & ?).
Qed.

Lemma refine_retire_scope e a scope cs cs' :
  hr_retire e = true → retire_scope a scope cs = Ok cs' →
  spec_steps e cs cs' ∧ cs_store cs' = cs_store cs ∧ cs_intents cs' !! scope = None
  ∧ ∀ s, cs_intents cs !! s = None → cs_intents cs' !! s = None.
Proof.
  unfold retire_scope. intros He H. peel H as head Hh. apply read_head in Hh.
  assert (∀ h, cs_intents cs !! scope = Some h → ci_scope h = scope → validate_settled_head cs h = Ok tt →
    retire_head h cs = Ok cs' →
    spec_steps e cs cs' ∧ cs_store cs' = cs_store cs ∧ cs_intents cs' !! scope = None
    ∧ ∀ s, cs_intents cs !! s = None → cs_intents cs' !! s = None) as Hret.
  { intros h Hrow <- Hset Hr. apply refine_retire_head with (e := e) in Hr as [Hr ->]; [|by auto..].
    split_and!; [by apply rtc_once|done|apply lookup_delete_eq|].
    intros s Hs. simpl. apply lookup_delete_None. auto. }
  destruct head as [|h|h].
  - by injection H as <-.
  - destruct Hh as (? & ? & ? & ?). peel H as u Hs. destruct u. by eapply Hret.
  - destruct Hh as (? & ? & ? & ?). by eapply Hret.
Qed.

Lemma take_head_Ok e cs scope head cs' :
  Compute.take_head cs (cs_app cs) scope = Ok (head, cs') →
  spec_steps e cs cs' ∧ cs_store cs' = cs_store cs ∧ cs_controls cs' = cs_controls cs
  ∧ cs_intents cs' !! scope = head.
Proof.
  unfold Compute.take_head. intros H. peel H as hd Hh. apply read_head in Hh.
  destruct hd as [|h|h].
  - by injection H as <- <-.
  - injection H as <- <-. destruct Hh as (? & ? & ? & ?). split_and!; naive_solver.
  - destruct Hh as (Hrow & <- & Hs & Hne). peel H as cs1 Hr. injection H as <- <-.
    apply refine_retire_head with (e := e) in Hr as [Hr ->]; [|by auto..].
    split_and!; try done; [by apply rtc_once|apply lookup_delete_eq].
Qed.
