(* ===== verification/ComputeBusiness.v ===== *)
(** * Admissions and business work are ledger steps too

    The rest of the refinement: the admission of a control, the claim that ends
    what it can of the interrupted work, and the business transactions; then the
    refinement of a call. *)
From stdpp Require Import sorting.
From S2P Require Import Prelude Validation Lifecycle Evidence LifecycleDomain LifecycleStore.
From S2P Require Import LifecycleSafety OperationLease ComputeControl ComputeStore ComputeAdmission.
From S2P Require Import ComputeExecution ComputeRecovery ComputeSpec ComputeRefine.
Local Open Scope rust_scope.

(** ** Admission *)

Lemma elem_of_dedup l x : x ∈ Compute.dedup l ↔ x ∈ l.
Proof.
  induction l as [|y [|z l] IH]; [done|done|].
  change (Compute.dedup (y :: z :: l)) with
    (if bool_decide (y = z) then Compute.dedup (z :: l) else y :: Compute.dedup (z :: l)).
  case_bool_decide; [subst|]; rewrite ?elem_of_cons, IH, ?elem_of_cons; naive_solver.
Qed.
Lemma elem_of_sort_dedup l x : x ∈ Compute.sort_dedup l ↔ x ∈ l.
Proof. unfold Compute.sort_dedup. by rewrite elem_of_dedup, merge_sort_Permutation. Qed.

Lemma elem_of_controls (controls : gmap string ComputeControlRecord) c :
  c ∈ (map_to_list controls).*2 ↔ ∃ id, controls !! id = Some c.
Proof.
  rewrite list_elem_of_fmap. split.
  - intros ([id c'] & -> & Hin). exists id. by apply elem_of_map_to_list.
  - intros [id Hid]. exists (id, c). split; [done|]. by apply elem_of_map_to_list.
Qed.

Lemma head_filter_none {A} (P : A → Prop) `{∀ x, Decision (P x)} (l : list A) :
  head (filter P l) = None → ∀ x, x ∈ l → ¬ P x.
Proof.
  intros Hh x Hx HP. destruct (filter P l) as [|y r] eqn:Hf; [|done].
  assert (x ∈ filter P l) as Hin by (apply list_elem_of_filter; done). rewrite Hf in Hin. set_solver.
Qed.

Lemma foldr_max_ge {A} (f : A → Z) (l : list A) :
  (0 ≤ foldr (λ c acc, Z.max (f c) acc) 0 l)%Z
  ∧ ∀ x, x ∈ l → (f x ≤ foldr (λ c acc, Z.max (f c) acc) 0 l)%Z.
Proof.
  induction l as [|y l [IH1 IH2]]; simpl; [split; [lia|set_solver]|].
  split; [lia|]. intros x [->|Hx]%elem_of_cons; [lia|]. specialize (IH2 x Hx). lia.
Qed.

Lemma next_generation_Ok controls app scope g :
  Compute.next_generation controls app scope = Ok g →
  (1 ≤ g)%Z ∧ ∀ id d, controls !! id = Some d → cc_app_id d = app → cc_scope d = scope → (cc_generation d < g)%Z.
Proof.
  unfold Compute.next_generation, ok_or.
  destruct (i64_checked_succ _) as [z|] eqn:Hz; [|done]. intros [= <-].
  apply i64_checked_succ_Some in Hz as ->. unfold Compute.max_generation.
  destruct (foldr_max_ge cc_generation
    (filter (λ c, cc_app_id c = app ∧ cc_scope c = scope) (map_to_list controls).*2)) as [H0 Hle].
  split; [lia|]. intros id d Hd Ha Hs. specialize (Hle d).
  assert (cc_generation d ≤ foldr (λ c acc, Z.max (cc_generation c) acc) 0
    (filter (λ c, cc_app_id c = app ∧ cc_scope c = scope) (map_to_list controls).*2))%Z; [|lia].
  apply Hle, list_elem_of_filter. split; [done|]. apply elem_of_controls. eauto.
Qed.

Lemma insert_control_Ok c cs cs' :
  Compute.insert_control c cs = Ok cs' →
  cs_controls cs !! cc_operation_id c = None
  ∧ cs' = with_controls (<[cc_operation_id c := c]> (cs_controls cs)) cs.
Proof. unfold Compute.insert_control. intros H. peel H as Hb. bools. by simplify_eq. Qed.

(** The operation in a slot, loaded. *)
Lemma load_slot_Some ops a s o :
  load_slot ops a s = Ok o → ∀ id, slot (active_operations a) s = Some id →
  ∃ r, o = Some r ∧ find_operation ops (app_id a) id = Some r
     ∧ op_lifecycle_id r = app_lifecycle_id a ∧ op_scope r = s ∧ op_is_terminal (op_state r) = false.
Proof.
  unfold load_slot. intros H id Hs. rewrite Hs in H. peel H as r Hr. peel H as Hb. bools.
  injection H as <-. naive_solver.
Qed.

(** What a head's control hands over. *)
Lemma inherit_Ok cs request idle_only h inherited supersedes :
  keyed cs → Compute.inherit cs request idle_only h = Ok (inherited, supersedes) →
  match ci_control_operation_id h with
  | None => inherited = [] ∧ supersedes = None
  | Some id => ∃ o, cs_controls cs !! id = Some o ∧ cc_operation_id o = id
      ∧ if cc_terminal (cc_state o)
        then inherited = cc_interrupted_operations o ∧ supersedes = None
        else inherited = cc_interrupted_operations o ++ [id] ∧ supersedes = Some id
             ∧ Compute.may_supersede request idle_only o = true
  end.
Proof.
  intros Hk. unfold Compute.inherit. destruct (ci_control_operation_id h) as [id|]; [|naive_solver].
  intros H. peel H as found Hget. peel H as o Ho. subst found.
  apply get_Some in Hget as (Hrow & _). exists o. split; [done|]. pose proof (Hk _ _ Hrow) as Hid.
  split; [done|]. destruct (cc_terminal (cc_state o)); [naive_solver|].
  peel H as Hm. rewrite Hid in H. naive_solver.
Qed.

Lemma supersede_Ok sup cs cs' :
  Compute.supersede sup cs = Ok cs' →
  (sup = None → cs' = cs)
  ∧ ∀ id o, sup = Some id → cs_controls cs !! id = Some o → cc_terminal (cc_state o) = false →
      cs' = with_controls (<[id := superseded o (cc_revision o + 1)]> (cs_controls cs)) cs.
Proof.
  unfold Compute.supersede. intros H. split; [intros ->; by simplify_eq|].
  intros id o -> Hrow Hl. rewrite Hrow, Hl in H. peel H as rev Hrev.
  apply sql_succ_Ok in Hrev as ->. by injection H as <-.
Qed.

Lemma point_head_Ok request head generation revision cs cs' :
  Compute.point_head request head generation revision cs = Ok cs' →
  cs' = with_intents (<[ccq_scope request := mkIntent (ccq_app_id request) (ccq_scope request)
          (ccq_lifecycle_id request) generation revision (Compute.desired_of (ccq_action request))
          (Some (ccq_operation_id request))]> (cs_intents cs)) cs.
Proof. unfold Compute.point_head. intros H. unbind H. by injection H as <-. Qed.

(** An internal repair is a restart and takes nothing from a live control. *)
Lemma admit_checks_repair request idle_only u :
  Compute.admit_checks request idle_only = Ok u →
  is_automatic_repair (ccq_request_id request) = idle_only ∧ ccq_scope request ≠ Application.
Proof.
  unfold Compute.admit_checks. intros H. unbind H. peel H as v Hv. peel H as Hs. bools.
  split; [|done]. destruct idle_only; simpl in Hv.
  - unfold ensure in Hv. by destruct (is_automatic_repair _).
  - unfold checked, validate_user_compute_request_id in Hv. destruct (let? _ := _ in _) as [w|] eqn:Hw in Hv; [|done].
    unbind Hw. unfold ensure in Hw. by destruct (is_automatic_repair _).
Qed.

(** The control that hands over to a new one. *)
Definition handing_over (cs : ComputeStore) (head : option ComputeIntent) : option ComputeControlRecord :=
  h ← head; id ← ci_control_operation_id h; cs_controls cs !! id.

(** What the admission computes before it writes. *)
Record prepared (request : ComputeControlRequest) (idle_only : bool) (cs : ComputeStore)
    (head : option ComputeIntent) (inherited : list string) (supersedes : option string) : Prop := {
  pp_head : cs_intents cs !! ccq_scope request = head;
  pp_life : ∀ h, head = Some h → ci_lifecycle_id h = ccq_lifecycle_id request;
  pp_old : match handing_over cs head with
           | Some o => (∃ h, head = Some h ∧ ci_control_operation_id h = Some (cc_operation_id o))
               ∧ cs_controls cs !! cc_operation_id o = Some o
               ∧ if cc_terminal (cc_state o)
                 then inherited = cc_interrupted_operations o ∧ supersedes = None
                 else inherited = cc_interrupted_operations o ++ [cc_operation_id o]
                      ∧ supersedes = Some (cc_operation_id o)
                      ∧ Compute.may_supersede request idle_only o = true
           | None => inherited = [] ∧ supersedes = None
               ∧ ∀ h, head = Some h → ci_control_operation_id h = None
           end;
}.

Lemma prepared_Ok request idle_only cs head inherited supersedes :
  keyed cs → cs_intents cs !! ccq_scope request = head →
  match head with
  | Some h => let? _ := ensure (bool_decide (ci_lifecycle_id h = ccq_lifecycle_id request)) LifecycleConflict in
              Compute.inherit cs request idle_only h
  | None => Ok ([], None)
  end = Ok (inherited, supersedes) →
  prepared request idle_only cs head inherited supersedes.
Proof.
  intros Hk Hh H. destruct head as [h|].
  2: { injection H as <- <-. by split. }
  peel H as Hl. bools. apply inherit_Ok in H; [|done].
  split; [done|by intros ? [= <-]|]. unfold handing_over. simpl.
  destruct (ci_control_operation_id h) as [id|] eqn:Hid; simpl.
  - destruct H as (o & Hrow & Ho & H). rewrite Hrow, Ho. split_and!; [eauto|done|].
    by destruct (cc_terminal (cc_state o)).
  - split_and!; [by destruct H..|]. by intros ? [= <-].
Qed.

(** The slots the admission reads are live operations of its scope. *)
Lemma slot_listed cs request records s id :
  active (cs_ops cs) (cs_app cs) = Ok records →
  s = ccq_scope request ∨ s = Application → slot (active_operations (cs_app cs)) s = Some id →
  ∃ o, find_operation (cs_ops cs) (app_id (cs_app cs)) id = Some o ∧ op_is_terminal (op_state o) = false
     ∧ op_lifecycle_id o = app_lifecycle_id (cs_app cs) ∧ (op_scope o = ccq_scope request ∨ op_scope o = Application).
Proof.
  intros Ha Hs Hslot. pose proof (active_slot _ _ _ s Ha) as Hload.
  destruct (load_slot_Some _ _ _ _ Hload _ Hslot) as (r & _ & ? & ? & <- & ?).
  exists r. naive_solver.
Qed.

Lemma elem_of_opt_list {A} (x : A) o : x ∈ Compute.opt_list o ↔ o = Some x.
Proof. destruct o; simpl; set_solver. Qed.

Lemma find_replay_none controls request :
  Compute.find_replay controls request = None →
  ∀ id d, controls !! id = Some d → cc_app_id d = ccq_app_id request → cc_scope d = ccq_scope request →
    cc_request_id d ≠ ccq_request_id request.
Proof.
  intros Hf id d Hd Ha Hs Hr. eapply head_filter_none; [exact Hf| |done].
  apply elem_of_controls. eauto.
Qed.

(** The control that is written is one the ledger admits. *)
Lemma admits_new request idle_only now cs records head inherited supersedes g :
  let interrupted :=
    Compute.sort_dedup (inherited ++ Compute.opt_list (slot (active_operations (cs_app cs)) (ccq_scope request))
                ++ Compute.opt_list (slot (active_operations (cs_app cs)) Application)) in
  prepared request idle_only cs head inherited supersedes →
  active (cs_ops cs) (cs_app cs) = Ok records →
  negb idle_only || Compute.idle_request_ok request records = true →
  is_automatic_repair (ccq_request_id request) = idle_only → ccq_scope request ≠ Application →
  ccq_app_id request = app_id (cs_app cs) → app_lifecycle_id (cs_app cs) = ccq_lifecycle_id request →
  Compute.find_replay (cs_controls cs) request = None →
  Compute.next_generation (cs_controls cs) (ccq_app_id request) (ccq_scope request) = Ok g →
  cs_controls cs !! ccq_operation_id request = None →
  admits cs (Compute.admitted_control request g interrupted now) (handing_over cs head).
Proof.
  intros interrupted [Hh Hlife Hold] Hact Hidle Hrep Hsc Happ Hlif Hnew Hgen Hfree.
  apply next_generation_Ok in Hgen as [Hg1 Hg].
  assert (∀ id, id ∈ interrupted ↔ id ∈ inherited
    ∨ slot (active_operations (cs_app cs)) (ccq_scope request) = Some id
    ∨ slot (active_operations (cs_app cs)) Application = Some id) as Hin.
  { intros id. unfold interrupted. by rewrite elem_of_sort_dedup, !elem_of_app, !elem_of_opt_list. }
  assert (idle_only = true → ccq_action request = CRestart) as Hrestart.
  { intros ->. simpl in Hidle. unfold Compute.idle_request_ok in Hidle. by bools. }
  split; simpl; try done.
  - intros id d Hd Ha Hs. split; [by eapply find_replay_none|by eapply Hg].
  - intros Hr. apply Hrestart. congruence.
  - destruct (handing_over cs head) as [o|].
    + destruct Hold as ((h & -> & Hid) & Hrow & Hold). split_and!; [done|naive_solver| |].
      * intros id Ho. apply Hin. left. destruct (cc_terminal (cc_state o)); destruct Hold as [-> ?]; set_solver.
      * intros Hl. rewrite Hl in Hold. destruct Hold as (-> & _ & Hm). split; [apply Hin; set_solver|].
        unfold Compute.may_supersede in Hm. rewrite Hrep. destruct idle_only; simpl in Hm.
        { rewrite orb_false_r in Hm. bools. rewrite Hrestart in Hm by done. done. }
        split; [done|]. apply orb_true_iff in Hm as [Hm|Hm]; bools; auto.
    + destruct Hold as (_ & _ & Hn). intros h Hh'. rewrite Hh in Hh'. naive_solver.
  - intros s id [-> | ->] Hs; apply Hin; auto.
  - intros id [Hi|Hs]%Hin.
    + left. destruct (handing_over cs head) as [o|]; [|destruct Hold as [-> _]; set_solver].
      destruct Hold as (_ & _ & Hold). destruct (cc_terminal (cc_state o)); destruct Hold as [-> _]; [auto|].
      apply elem_of_app in Hi as [?|?%list_elem_of_singleton]; auto.
    + right. rewrite Happ, <- Hlif. destruct Hs as [Hs|Hs]; (eapply slot_listed; [done| |done]); auto.
Qed.

(** The four writes of an admission, as one step. *)
Lemma refine_admit_writes e request idle_only now cs head inherited supersedes interrupted g rev cs1 cs2 cs3 :
  hr_point e = Some (ccq_action request) →
  prepared request idle_only cs head inherited supersedes →
  admits cs (Compute.admitted_control request g interrupted now) (handing_over cs head) →
  cs_ops cs !! ccq_operation_id request = None →
  rev = match head with Some h => (ci_revision h + 1)%Z | None => 1%Z end →
  Compute.supersede supersedes cs = Ok cs1 →
  Compute.insert_control (Compute.admitted_control request g interrupted now) cs1 = Ok cs2 →
  Compute.point_head request head g rev cs2 = Ok cs3 → spec_step e cs cs3.
Proof.
  intros He [Hh _ Hold] Had Hops Hrev Hsup [_ ->]%insert_control_Ok ->%point_head_Ok.
  set (c := Compute.admitted_control request g interrupted now) in *.
  set (h := mkIntent _ _ _ _ _ _ _).
  apply supersede_Ok in Hsup as [Hsame Hsup].
  assert (cs_intents cs1 = cs_intents cs ∧ cs_store cs1 = cs_store cs ∧ cs_leases cs1 = cs_leases cs
          ∧ cs_deadlines cs1 = cs_deadlines cs
          ∧ match handing_over cs head with
            | Some o => if cc_terminal (cc_state o) then cs_controls cs1 = cs_controls cs
                  else ∃ revision, (cc_revision o < revision)%Z
                       ∧ cs_controls cs1 = <[cc_operation_id o := superseded o revision]> (cs_controls cs)
            | None => cs_controls cs1 = cs_controls cs
            end) as (Hi & Hst & Hle & Hde & Hc).
  { destruct (handing_over cs head) as [o|]; [|rewrite Hsame by (by destruct Hold as (_ & -> & _)); done].
    destruct Hold as (_ & Hrow & Hold). destruct (cc_terminal (cc_state o)) eqn:Hl.
    - rewrite Hsame by (by destruct Hold as (_ & ->)). done.
    - destruct Hold as (_ & -> & _). rewrite (Hsup _ _ eq_refl Hrow Hl). simpl.
      split_and!; try done. eexists. split; [|done]. lia. }
  replace (with_intents _ _) with
    (with_intents (<[cc_scope c := h]> (cs_intents cs))
       (with_controls (<[cc_operation_id c := c]> (cs_controls cs1)) cs)).
  - eapply sp_admit; try done. simpl. by rewrite Hh.
  - unfold with_intents, with_controls. simpl. by rewrite Hi, Hst, Hle, Hde.
Qed.

Lemma refine_admit e request idle_only now cs c cs' :
  hr_point e = Some (ccq_action request) →
  keyed cs → cs_ops cs !! ccq_operation_id request = None →
  Compute.admit_control request idle_only now cs = Ok (c, cs') → spec_steps e cs cs'.
Proof.
  intros He Hk Hops. unfold Compute.admit_control. intros H. peel H as u Hchk.
  apply admit_checks_repair in Hchk as [Hrep Hsc]. peel H as a Ha.
  apply find_app_Some in Ha as [-> Happ]. peel H as v Hact. peel H as Hlif. bools.
  destruct (Compute.find_replay _ _) as [replay|] eqn:Hreplay.
  { do 2 unbind H. by injection H as <- <-. }
  unfold Compute.admit_new in H. peel H as records Hrec. peel H as Hidle. peel H as Hend.
  peel H as t Hhead. destruct t as [head cs1].
  apply take_head_Ok with (e := e) in Hhead as (Hsteps & Hst & Hctl & Hh).
  unbind H. peel H as t Hinh. destruct t as [inherited supersedes].
  apply prepared_Ok in Hinh; [|by intros ??; rewrite Hctl; apply Hk|done].
  peel H as g Hg. peel H as rev Hrev. peel H as cs2 Hsup. peel H as cs3 Hins. peel H as cs4 Hpt.
  do 2 unbind H. injection H as <- <-. etrans; [exact Hsteps|]. apply rtc_once.
  assert (cs_app cs1 = cs_app cs ∧ cs_ops cs1 = cs_ops cs) as [Eapp Eops]
    by (unfold cs_app, cs_ops; by rewrite Hst).
  rewrite <- Eapp in *. rewrite <- Eops in *. rewrite <- Hctl in Hreplay.
  pose proof (insert_control_Ok _ _ _ Hins) as [Hfree _].
  eapply refine_admit_writes; try done.
  - eapply admits_new; try done.
    apply supersede_Ok in Hsup as [Hsame Hsup]. destruct Hinh as [_ _ Hold].
    destruct (handing_over cs1 head) as [o|].
    2: { destruct Hold as (_ & Hn & _). by rewrite (Hsame Hn) in Hfree. }
    destruct Hold as (_ & Hrow & Hold). destruct (cc_terminal (cc_state o)) eqn:Hl.
    { destruct Hold as (_ & Hn). by rewrite (Hsame Hn) in Hfree. }
    destruct Hold as (_ & Hn & _). rewrite (Hsup _ _ Hn Hrow Hl) in Hfree. simpl in Hfree.
    by apply lookup_insert_None in Hfree as [? _].
  - destruct head; [apply rust_succ_Ok in Hrev|injection Hrev as <-]; congruence.
Qed.

(** ** Business work *)

Lemma live_own_set a ops rows id o o' a' :
  ops !! id = Some o → op_operation_id o = id → op_scope o' = op_scope o → op_app_id o' = op_app_id o →
  op_is_terminal (op_state o) = false →
  app_id a' = app_id a →
  (op_is_terminal (op_state o') = true → slot (active_operations a) (op_scope o) = Some (op_operation_id o)) →
  (if op_is_terminal (op_state o') then active_operations a' = slot_set (op_scope o) None (active_operations a)
   else active_operations a' = active_operations a) →
  live_own (mkAppStore a ops rows) → live_own (mkAppStore a' (<[id := o']> ops) rows).
Proof.
  intros Ho Hid Hsc Hap Hl Ha Hs Hslots Hown id' o2 Ho2 Hap2 Hl2. simpl in *.
  destruct (decide (id' = id)) as [->|Hne].
  - rewrite lookup_insert_eq in Ho2. injection Ho2 as <-. rewrite Hl2 in Hslots.
    rewrite Hslots, Hsc. apply Hown; [done|simpl; congruence|done].
  - rewrite lookup_insert_ne in Ho2 by done. rewrite Ha in Hap2.
    specialize (Hown _ _ Ho2 Hap2 Hl2) as Hsl. simpl in Hsl.
    destruct (op_is_terminal (op_state o')); rewrite Hslots; [|done]. specialize (Hs eq_refl).
    destruct (decide (op_scope o = op_scope o2)) as [Heq|Hne'].
    + rewrite <- Heq in Hsl. congruence.
    + by rewrite slot_set_ne.
Qed.

(** One operation of the application, moved on its way. *)
Record business_move (observed : string → Prop) (cs : ComputeStore) (id : string)
    (o o' : UserAppOperationRecord) : Prop := {
  bo_row : cs_ops cs !! id = Some o;
  bo_ids : op_operation_id o' = op_operation_id o ∧ op_app_id o' = op_app_id o
           ∧ op_lifecycle_id o' = op_lifecycle_id o ∧ op_scope o' = op_scope o;
  bo_live : op_is_terminal (op_state o) = false;
  bo_success : op_state o' ≠ Succeeded
    ∨ (op_lifecycle_id o = app_lifecycle_id (cs_app cs) ∧ op_app_id o = app_id (cs_app cs)
       ∧ check_business_authority cs o = Ok tt)
    ∨ observed id;
  bo_revision : (op_revision o < op_revision o')%Z;
  bo_kind : op_kind o' = op_kind o;
  bo_held : app_state (cs_app cs) = Deleted →
    slot (active_operations (cs_app cs)) (op_scope o) = Some (op_operation_id o);
}.

(** The application after the move: deleted only by the end of a deletion. *)
Record app_moved (o o' : UserAppOperationRecord) (a a' : UserAppLifecycleRecord) : Prop := {
  am_ids : app_id a' = app_id a ∧ app_lifecycle_id a' = app_lifecycle_id a
           ∧ lifecycle_epoch a' = lifecycle_epoch a;
  am_slots : if op_is_terminal (op_state o')
             then active_operations a' = slot_set (op_scope o) None (active_operations a)
             else active_operations a' = active_operations a;
  am_owner : op_is_terminal (op_state o') = true → slot (active_operations a) (op_scope o) = Some (op_operation_id o);
  am_state : app_state a' = app_state a
             ∨ op_is_terminal (op_state o') = true ∧ ends_lifecycle (op_kind o) = true;
}.

Lemma moved_slot o o' a a' s :
  app_moved o o' a a' → is_Some (slot (active_operations a') s) → is_Some (slot (active_operations a) s).
Proof.
  intros [_ Hs _ _]. destruct (op_is_terminal (op_state o')); rewrite Hs; [|done].
  destruct (decide (op_scope o = s)) as [->|Hne]; [rewrite slot_set_eq; by intros []|by rewrite slot_set_ne].
Qed.

(** The end of a deletion leaves no slot taken. *)
Lemma deletion_alone o o' a a' s :
  app_moved o o' a a' → op_is_terminal (op_state o') = true → ends_lifecycle (op_kind o) = true →
  op_scope o = kind_scope (op_kind o) →
  (∀ s s', is_Some (slot (active_operations a) s) → is_Some (slot (active_operations a) s') → s ≠ s' →
     userapp_scope_blocks_request s s' = false) →
  slot (active_operations a') s = None.
Proof.
  intros Hm Ht He Hsc Hx. destruct (slot (active_operations a') s) as [i|] eqn:Hs; [exfalso|done].
  pose proof (moved_slot _ _ _ _ s Hm ltac:(by rewrite Hs)) as Hold. destruct Hm as [_ Hsl Hown _].
  rewrite Ht in Hsl. assert (op_scope o = Application) as Ha by (rewrite Hsc; by destruct (op_kind o)).
  assert (s ≠ Application) as Hne by (intros ->; by rewrite Hsl, Ha, slot_set_eq in Hs).
  specialize (Hx s Application Hold). rewrite <- Ha, (Hown Ht) in Hx. specialize (Hx ltac:(done) ltac:(congruence)).
  rewrite Ha in Hx. by destruct s.
Qed.

Lemma life_ok_move cs id o o' a' :
  cs_ops cs !! id = Some o → op_scope o' = op_scope o → op_kind o' = op_kind o →
  (app_state (cs_app cs) = Deleted → slot (active_operations (cs_app cs)) (op_scope o) = Some (op_operation_id o)) →
  app_moved o o' (cs_app cs) a' → life_ok (cs_store cs) →
  app_state (cs_app cs) ≠ Deleted
  ∧ life_ok (mkAppStore a' (<[id := o']> (cs_ops cs)) (st_requests (cs_store cs))).
Proof.
  intros Ho Hsc Hk Hheld Hm [Hs Hx Hd].
  assert (app_state (cs_app cs) ≠ Deleted) as Hnd.
  { intros Hdel. specialize (Hheld Hdel). unfold cs_app in Hheld, Hdel. by rewrite Hd in Hheld. }
  split; [done|]. split; simpl.
  - intros id' o2 Ho2. apply lookup_insert_Some in Ho2 as [[<- <-]|[_ Ho2]]; [|by eapply Hs].
    rewrite Hsc, Hk. by eapply Hs.
  - intros s s' H1 H2. apply Hx; by eapply moved_slot.
  - intros Hdel s. destruct (am_state _ _ _ _ Hm) as [Hst|[Ht He]]; [congruence|].
    eapply deletion_alone; try done. by eapply Hs.
Qed.

Lemma refine_business_move e cs id o o' a' :
  business_move (hr_observed e) cs id o o' → app_moved o o' (cs_app cs) a' →
  (op_is_terminal (op_state o') = true → hr_end e id (op_state o')) →
  spec_step e cs (with_store (mkAppStore a' (<[id := o']> (cs_ops cs)) (st_requests (cs_store cs))) cs).
Proof.
  intros [Hrow Hids Hlive Hsucc Hrev Hkind Hheld] Hm Hend. pose proof Hm as [(Ha & Hl & Hep) Hslots Hslot _].
  apply sp_business; [split; simpl; [done|..]|].
  - intros id' o2 Ho2. destruct (decide (id' = id)) as [->|Hne].
    + rewrite Hrow in Ho2. injection Ho2 as <-. exists o'. rewrite lookup_insert_eq. destruct Hids as (? & ? & ? & ?).
      split_and!; try done; [by rewrite Hlive|by right].
    + exists o2. rewrite lookup_insert_ne by done. split_and!; auto.
  - intros id' o2 Ho2 Hn. rewrite lookup_insert_ne in Ho2; [|naive_solver congruence]. congruence.
  - intros Hkey Hown. destruct cs as [[a ops rows] ? ? ? ?]. unfold cs_ops, cs_app in *. simpl in *.
    eapply live_own_set; try done; naive_solver.
  - intros id' o2 o3 Ho2 Ho3. destruct (decide (id' = id)) as [->|Hne].
    + rewrite lookup_insert_eq in Ho3. right. congruence.
    + rewrite lookup_insert_ne in Ho3 by done. left. congruence.
  - done.
  - intros Hli. destruct (life_ok_move _ _ _ o' a' Hrow ltac:(naive_solver) Hkind Hheld Hm Hli). by split.
  - simpl. intros id' o2 o3 Ho2 Ho3 Hl2 Hl3. destruct (decide (id' = id)) as [->|Hne].
    + rewrite lookup_insert_eq in Ho3. injection Ho3 as <-. auto.
    + rewrite lookup_insert_ne in Ho3 by done. congruence.
Qed.

Lemma refine_business_advance `{CheckpointCodec} e p uncertain cs o cs' :
  (uncertain = None → hr_end e (pr_operation_id p) (pr_state p)) →
  business_advance p uncertain cs = Ok (o, cs') → spec_steps e cs cs'.
Proof.
  intros Hend. unfold business_advance. intros H'. peel H' as t Htx. destruct t as [o' st].
  injection H' as <- <-.
  pose proof (advance_tx_spec _ _ _ _ _ _ Htx) as (o0 & Hrow & Hadv & Hops & Hrows).
  unfold advance_tx in Htx. peel Htx as o1 Hf. apply find_operation_some in Hf as [Hrow' Happ].
  assert (o1 = o0) as -> by congruence. peel Htx as v Hauth.
  assert (op_is_terminal (pr_state p) = true → uncertain = None) as Hunc.
  { intros Ht. destruct (advance p _) as [? [? ?]]. unbind Htx. peel Htx as w Hw.
    destruct uncertain; [|done]. by rewrite Ht in Hw. }
  clear Htx.
  destruct st as [a' ops' rows']. simpl in *. subst ops' rows'.
  destruct Hadv as [Hslot Hlife _ Hlive _ _ -> _ Hids Hslots Hstate].
  apply rtc_once. eapply refine_business_move; try done.
  - split; simpl; try done; [|lia]. destruct (decide (pr_state p = Succeeded)) as [Hs|]; [right; left|by left].
    split_and!; [unfold cs_app; naive_solver congruence|done|].
    unfold find_operation in Hauth. unfold cs_ops, cs_app in Hauth. rewrite Hrow, Happ in Hauth.
    rewrite bool_decide_eq_true_2 in Hauth by done. unfold needs_authority in Hauth. rewrite Hs in Hauth.
    destruct (check_business_authority cs o0) as [[]|]; [done|]. done.
  - split; simpl; try done; [by destruct (op_is_terminal (pr_state p))|].
    change (cs_app cs) with (st_app (cs_store cs)). rewrite Hstate.
    destruct (_ && _) eqn:Hb; [right; by bools|by left].
  - simpl. auto.
Qed.

Lemma refine_business_patch e patch cs a cs' :
  business_patch patch cs = Ok (a, cs') → spec_steps e cs cs'.
Proof.
  unfold business_patch. intros H. peel H as t Htx. destruct t as [a' st]. injection H as <- <-.
  apply patch_tx_spec in Htx as ((Ha & Hl & Hst & Hslots & Hep) & Hact & ->).
  apply rtc_once, sp_business; [split; simpl; [done|..]|].
  - intros id o Ho. exists o. split_and!; auto.
  - intros id o Ho Hn. unfold cs_ops in Hn. congruence.
  - intros _ Hown id o Ho Hap Hlive. simpl in *. rewrite Hslots. rewrite Ha in Hap. by apply Hown.
  - intros id o o' Ho Ho'. left. unfold cs_ops in *. congruence.
  - done.
  - change (cs_app cs) with (st_app (cs_store cs)). intros [Hs Hx _]. split; [|congruence].
    split; simpl; [done|by rewrite Hslots|congruence].
  - simpl. unfold cs_ops. congruence.
Qed.

(** An accepted operation has passed the guard. *)
Lemma admit_guard request input_digest guard now st o st' :
  admit_tx request input_digest (verdict guard) now st = Ok (AdmAccepted o, st') → guard = Ok tt.
Proof.
  unfold admit_tx. intros Htx. unbind Htx. peel Htx as t Hdup. destruct t. peel Htx as r Hr.
  destruct (admission _ _ _ _ _) as [oc ax] eqn:Hax. peel Htx as oc' Hoc.
  destruct oc' as [ox|ox]; [|by unbind Htx]. peel Htx as ops Hi. unbind Htx.
  unfold insert_accepted in Hi. by destruct guard as [[]|].
Qed.

(** Admitted operations have an identity. *)
Lemma checked_id request : admission_request_checks request = Ok tt → adm_operation_id request ≠ EmptyString.
Proof.
  unfold admission_request_checks. intros H. do 5 unbind H. apply ensure_Ok in H. bools.
  intros He. by rewrite He in *.
Qed.

Lemma refine_business_admit e request input_digest now cs out cs' :
  cs_controls cs !! adm_operation_id request = None →
  business_admit request input_digest now cs = Ok (out, cs') → spec_steps e cs cs'.
Proof.
  intros Hfresh. unfold business_admit. intros H. peel H as t Htx. destruct t as [out' st].
  injection H as <- <-. pose proof (admit_tx_spec _ _ _ _ _ _ _ Htx) as Hspec.
  apply rtc_once, sp_business; cycle 1.
  { intros id o1 o2 Ho1 Ho2 Hl1 Hl2. simpl in *. exfalso. unfold cs_ops in *. destruct out' as [o|o].
    - destruct Hspec as [_ _ Hnew Hins _ _]. rewrite Hins, lookup_insert_ne in Ho2; congruence.
    - destruct Hspec as (_ & Ho & _). congruence. }
  destruct out' as [o|o].
  - destruct Hspec as [(records & Hact & Hacc) [Hchk _] Hnew Hins _ _].
    pose proof (checked_id _ Hchk) as Hne0.
    pose proof (λ s, unblocked_slots (kind_scope (adm_kind request)) _ _ _ s Hact (af_free _ _ _ _ _ Hacc)) as Hfree.
    destruct Hacc as [Hact0 _ Hid Hkd Hsc Hst _ _ Hap Hlf _ (Ha & Hl & Hep) _ Hslots Hstate].
    assert (guard_admission cs (cs_app cs) (op_scope o) = Ok tt) as Hg
      by (rewrite Hsc; by eapply admit_guard).
    split; simpl; [done|..].
    + intros id o2 Ho2. exists o2. rewrite Hins, lookup_insert_ne; [split_and!; auto|].
      intros <-. unfold cs_ops in Ho2. congruence.
    + intros id o2 Ho2 Hn. rewrite Hins in Ho2. destruct (decide (id = op_operation_id o)) as [->|Hne].
      * rewrite lookup_insert_eq in Ho2. injection Ho2 as <-. split_and!; try done; by rewrite Hid.
      * rewrite lookup_insert_ne in Ho2 by done. unfold cs_ops in Hn. congruence.
    + intros _ Hown id o2 Ho2 Hap2 Hlive. rewrite Hins in Ho2. rewrite Ha in Hap2. rewrite Hslots.
      destruct (decide (id = op_operation_id o)) as [->|Hne].
      * rewrite lookup_insert_eq in Ho2. injection Ho2 as <-. by rewrite Hsc, slot_set_eq, Hid.
      * rewrite lookup_insert_ne in Ho2 by done. pose proof (Hown _ _ Ho2 Hap2 Hlive) as Hs.
        rewrite slot_set_ne; [done|]. intros Heq.
        rewrite <- Heq, (Hfree _ (blocks_self _)) in Hs. done.
    + intros id o2 o3 Ho2 Ho3. left. unfold cs_ops in *.
      rewrite Hins, lookup_insert_ne in Ho3; congruence.
    + done.
    + change (cs_app cs) with (st_app (cs_store cs)). intros [Hs Hx _]. split; [|congruence]. split.
      * intros id o2 Ho2. rewrite Hins in Ho2.
        apply lookup_insert_Some in Ho2 as [[_ <-]|[_ Ho2]]; [by rewrite Hsc, Hkd|by eapply Hs].
      * rewrite Hslots. by apply exclusive_set.
      * rewrite Hstate. by destruct (ends_lifecycle (adm_kind request)).
  - destruct Hspec as (Ha & Ho & _). split; simpl; rewrite ?Ha, ?Ho; [done|..].
    + intros id o2 Ho2. exists o2. split_and!; auto.
    + intros id o2 Ho2 Hn. unfold cs_ops in Hn. congruence.
    + intros _ Hown id o2. rewrite Ha, Ho. apply Hown.
    + intros id o2 o3 Ho2 Ho3. left. unfold cs_ops in *. congruence.
    + done.
    + intros [Hs Hx Hd]. split; [split; by rewrite ?Ha, ?Ho|done].
Qed.

(** ** What a claim cancels *)

(** The store with the slots and operations of a working copy. *)
Definition with_work (w : UserAppLifecycleRecord * OperationTable) (cs : ComputeStore) : ComputeStore :=
  with_store (mkAppStore (with_slots (active_operations w.1) (cs_app cs)) w.2 (st_requests (cs_store cs))) cs.
Definition working (cs : ComputeStore) (w : UserAppLifecycleRecord * OperationTable) : Prop :=
  app_id w.1 = app_id (cs_app cs) ∧ app_lifecycle_id w.1 = app_lifecycle_id (cs_app cs)
  ∧ active_operations w.1 = active_operations (cs_app cs) ∧ w.2 = cs_ops cs.

Lemma with_work_same cs w : working cs w → with_work w cs = cs.
Proof. intros (_ & _ & Hs & Ho). unfold with_work. rewrite Hs, Ho. by destruct cs as [[[] ? ?] ? ? ? ?]. Qed.
Lemma working_with cs w : 
  app_id w.1 = app_id (cs_app cs) → app_lifecycle_id w.1 = app_lifecycle_id (cs_app cs) →
  working (with_work w cs) w.
Proof. done. Qed.
Lemma with_work_twice cs w w' : with_work w' (with_work w cs) = with_work w' cs.
Proof. done. Qed.

(** A cancellation ends one live operation and frees its slot. *)
Lemma refine_cancelled e cs a ops id o a' o' :
  working cs (a, ops) → ops !! id = Some o →
  op_operation_id o' = op_operation_id o ∧ op_app_id o' = op_app_id o
    ∧ op_lifecycle_id o' = op_lifecycle_id o ∧ op_scope o' = op_scope o → op_kind o' = op_kind o →
  op_is_terminal (op_state o) = false → op_state o' = Failed →
  slot (active_operations a) (op_scope o) = Some (op_operation_id o) →
  active_operations a' = slot_set (op_scope o) None (active_operations a) →
  (op_revision o < op_revision o')%Z → hr_end e id Failed →
  spec_step e cs (with_work (a', <[id := o']> ops) cs).
Proof.
  intros (_ & _ & Hs & Ho) Hrow Hids Hk Hl Hf Hslot Hslots Hrev Hend. simpl in *. subst ops.
  apply (refine_business_move e cs id o o'); simpl.
  - split; try done; [left; by rewrite Hf|by rewrite <- Hs].
  - split; simpl; try done; [by rewrite Hf, Hslots, Hs|by rewrite <- Hs|by left].
  - by rewrite Hf.
Qed.

Section cancel.
Context `{CheckpointCodec, CreationCodec, ComputeCodec}.

Lemma cancel_wake_Ok control o a a' o' :
  Compute.confirmed_wake o = true → Compute.cancel_wake control o a = Ok (a', o') →
  (op_operation_id o' = op_operation_id o ∧ op_app_id o' = op_app_id o
    ∧ op_lifecycle_id o' = op_lifecycle_id o ∧ op_scope o' = op_scope o) ∧ op_kind o' = op_kind o
  ∧ op_is_terminal (op_state o) = false ∧ op_state o' = Failed
  ∧ slot (active_operations a) (op_scope o) = Some (op_operation_id o)
  ∧ active_operations a' = slot_set (op_scope o) None (active_operations a)
  ∧ app_id a' = app_id a ∧ app_lifecycle_id a' = app_lifecycle_id a ∧ (op_revision o < op_revision o')%Z.
Proof.
  unfold Compute.cancel_wake. intros Hw H'. peel H' as ex Hex.
  set (running := Compute.op_set o Running _ _ _ _ _) in *.
  set (p := Compute.wake_failure control o ex) in *.
  pose proof (advance_spec p a running) as Hs. unfold wp in Hs.
  destruct (advance p (a, running)) as [[[]|] [a1 o1]]; [|done].
  peel H' as u Hu. injection H' as <- <-.
  destruct Hs as [Hslot _ _ _ _ _ Ho1 _ (Hid & Hlf & _) Hslots _].
  simpl in *. subst o1. simpl. split_and!; try done; [|lia].
  unfold Compute.confirmed_wake in Hw. bools. by destruct (op_state o).
Qed.

Lemma uncertain_none uncertain id u :
  Compute.uncertain_verdict uncertain id = Ok u → uncertain id = None.
Proof. unfold Compute.uncertain_verdict. by destruct (uncertain id). Qed.

Section ending.
Context (e : HeadRights) (uncertain : string → option UserAppStoreError).
Hypothesis may_end : ∀ id, uncertain id = None → hr_end e id Failed.

Lemma refine_cancel_one cs cs0 control id w w' :
  working cs w → Compute.cancel_one cs0 control uncertain id w = Ok w' →
  spec_steps e cs (with_work w' cs) ∧ working (with_work w' cs) w'.
Proof.
  intros Hw H'. pose proof Hw as (Ha & Hl & Hs & Ho). destruct w as [a ops]. simpl in *.
  assert (w' = (a, ops) → spec_steps e cs (with_work w' cs) ∧ working (with_work w' cs) w') as Hsame.
  { intros ->. rewrite with_work_same by done. by split. }
  destruct (find_operation ops (cc_app_id control) id) as [o|] eqn:Hf; [|apply Hsame; by injection H'].
  apply find_operation_some in Hf as [Hrow _]. peel H' as Hlife.
  destruct (Compute.confirmed_wake o) eqn:Hcw.
  - peel H' as u Hu. apply uncertain_none, may_end in Hu.
    peel H' as t Ht. destruct t as [a' o']. injection H' as <-.
    apply cancel_wake_Ok in Ht as (Hids & Hkd & Hlive & Hfail & Hslot & Hslots & Ha' & Hl' & Hrev); [|done].
    split; [by eapply rtc_once, refine_cancelled|apply working_with; simpl; congruence].
  - destruct (bool_decide (op_state o = Pending)) eqn:Hp; simpl in H'; [|apply Hsame; by injection H'].
    bools. peel H' as t Ht. destruct t as [a' o']. peel H' as u Hu. injection H' as <-.
    apply uncertain_none, may_end in Hu.
    unfold Compute.cancel_pending in Ht. peel Ht as Hb. injection Ht as <- <-. bools.
    split; [|by apply working_with].
    eapply rtc_once, refine_cancelled; try done; [by rewrite Hp|by unfold slot_matches_operation in *; bools|].
    simpl. lia.
Qed.

Lemma refine_cancel_all cs cs0 control ids w w' :
  working cs w → Compute.cancel_all cs0 control uncertain ids w = Ok w' →
  spec_steps e cs (with_work w' cs).
Proof.
  revert cs w. induction ids as [|id ids IH]; intros cs w Hw H'; simpl in H'.
  { injection H' as <-. by rewrite with_work_same. }
  peel H' as w1 Hw'. destruct (refine_cancel_one _ _ _ _ _ _ Hw Hw') as [Hs Hw1].
  etrans; [exact Hs|]. apply (IH _ _ Hw1 H').
Qed.

Lemma refine_cancel control cs cs' :
  Compute.cancel_interruptible_business control uncertain cs = Ok cs' → spec_steps e cs cs'.
Proof.
  unfold Compute.cancel_interruptible_business. intros H'. peel H' as a Ha.
  apply find_app_Some in Ha as [-> _]. peel H' as w Hw. destruct w as [a' ops]. injection H' as <-.
  eapply (refine_cancel_all cs cs) with (w' := (a', ops)); [|exact Hw]. done.
Qed.

Lemma refine_claim identity revision cs c cs' :
  Compute.claim identity revision uncertain cs = Ok (c, cs') → spec_steps e cs cs'.
Proof.
  unfold Compute.claim. intros H'. peel H' as r Hcur. peel H' as Hb. peel H' as next Hn.
  apply rust_succ_Ok in Hn as ->. peel H' as cs1 Hu. peel H' as cs2 Hc. do 2 unbind H'.
  injection H' as <- <-. etrans; [|by eapply refine_cancel].
  eapply refine_update; [exact Hu|]. intros c0 c' Hrow Hg Hset. cbv beta in *. injection Hset as <-. bools.
  apply mv_claim; [lia|done|done].
Qed.

End ending.

Lemma refine_finalize_interrupted e identity o uncertain cs o' cs' :
  (uncertain = None → hr_end e (op_operation_id o) Failed) →
  Execution.finalize_interrupted identity o uncertain cs = Ok (o', cs') → spec_steps e cs cs'.
Proof.
  intros Hend. unfold Execution.finalize_interrupted. intros H'. peel H' as r Hcur. peel H' as Hown.
  peel H' as o0 Hf. peel H' as Hb.
  apply find_operation_some in Hf as [Hrow _]. bools. subst o0. peel H' as o1 Ho1.
  peel H' as ex Hex.
  assert (op_operation_id o1 = op_operation_id o) as Hid.
  { case_bool_decide; [|by injection Ho1 as <-]. peel Ho1 as rev Hrev. by injection Ho1 as <-. }
  apply refine_business_advance with (e := e) in H'; [|simpl; by rewrite Hid]. etrans; [|exact H'].
  clear H' Hid. case_bool_decide as Hst.
  - peel Ho1 as rev Hrev. injection Ho1 as <-. simpl. apply rtc_once, (refine_business_move e cs _ o); try done.
    + pose proof (act_current _ _ _ (current_Ok _ _ _ Hcur)) as (_ & _ & Hact).
      split; try done; [by rewrite Hst|by left| |congruence]. apply i64_checked_succ_Some in Hrev as ->. simpl. lia.
    + split; try done. by left.
  - injection Ho1 as <-. rewrite insert_id by done. by destruct cs as [[? ? ?] ? ? ? ?].
Qed.
End cancel.

(** ** Leases of operations, and a new life *)

Lemma refine_bind_lease e context receipt cs u cs' :
  bind_operation_lease context receipt cs = Ok (u, cs') → spec_steps e cs cs'.
Proof.
  unfold bind_operation_lease. intros H. do 2 unbind H. peel H as t Hcur. destruct t as [a1 o].
  peel H as Hb. unbind H. peel H as prev Hprev. destruct prev as [b|].
  { unbind H. by injection H as <- <-. }
  unbind H. injection H as <- <-. bools.
  unfold current_operation in Hcur. unbind Hcur. unbind Hcur. peel Hcur as o' Ho. unbind Hcur.
  injection Hcur as -> ->. apply find_operation_some in Ho as [Hrow _].
  eapply rtc_once, sp_lease; [done|]. match goal with H : op_state o = Running |- _ => by rewrite H end.
Qed.

Lemma refine_forget_lease e binding cs u cs' :
  forget_operation_lease binding cs = Ok (u, cs') → spec_steps e cs cs'.
Proof.
  unfold forget_operation_lease. intros H. peel H as o Ho. peel H as Hb. peel H as st Hst. bools.
  apply find_operation_some in Ho as [Hrow _]. destruct st; [|by injection H as <- <-].
  unbind H. injection H as <- <-. by eapply rtc_once, sp_release.
Qed.

Lemma refine_recreate e app expected request_id fresh now cs a cs' :
  hr_retire e = true →
  recreate app expected request_id fresh now cs = Ok (a, cs') → spec_steps e cs cs'.
Proof.
  unfold recreate. intros He H. peel H as u Hreq. peel H as a0 Ha. apply find_app_Some in Ha as [-> _].
  destruct (st_requests (cs_store cs) !! request_id) as [row|]; [do 2 unbind H; by injection H as _ <-|].
  peel H as Hb. peel H as cs1 Hret. peel H as epoch Hep. injection H as <- <-.
  unfold retire_lifecycle_heads in Hret. peel Hret as cs2 Hd.
  apply refine_retire_scope with (e := e) in Hd as (Hd & Es & Hdev & _); [|done].
  apply refine_retire_scope with (e := e) in Hret as (Hp & Es' & Hprod & Hkept); [|done].
  etrans; [exact Hd|]. etrans; [exact Hp|]. bools.
  assert (cs_app cs1 = cs_app cs) as Ea by (unfold cs_app; congruence).
  unfold ok_or in Hep. destruct (i64_checked_succ _) eqn:Hsucc in Hep; [|done]. injection Hep as <-.
  apply i64_checked_succ_Some in Hsucc as ->.
  apply rtc_once. eapply sp_recreate; simpl; rewrite ?Ea; [done| |by intros []|done|done|done|done|by auto|done].
  intros s. unfold slots_empty in *. bools. by destruct s.
Qed.

(** ** Calls *)

Lemma after_steps {A} e (tx : Tx A) cs :
  (∀ a cs', tx cs = Ok (a, cs') → spec_steps e cs cs') → spec_steps e cs (after tx cs).
Proof. intros H. unfold after. destruct (tx cs) as [[a cs']|] eqn:Htx; [by eapply H|done]. Qed.

Section calls.
Context `{CheckpointCodec, CreationCodec, ComputeCodec}.

Lemma cstep_steps op cs :
  keyed cs → fresh_id op cs → spec_steps (rights op) cs (cstep op cs).
Proof.
  intros Hk Hf. destruct op; simpl in *; apply after_steps; intros a cs' Htx;
    [by eapply refine_admit|eapply refine_claim; [|done]; simpl; auto|by eapply refine_access|by eapply refine_bind
    |by eapply refine_advance|destruct a; by eapply refine_forget|by eapply refine_acknowledge
    |eapply refine_finalize_interrupted; [|done]; simpl; auto|by eapply refine_finalize_confirmed
    |exact (refine_finalize_observed _ _ CStop None _ _ _ Htx)
    |exact (refine_finalize_observed _ _ CRestart None _ _ _ Htx)
    |by eapply refine_finalize_creation|by eapply refine_confirm_docker
    |by eapply refine_confirm_kubernetes|by eapply refine_unrebuildable|by eapply refine_resume_restart
    |by eapply refine_capture_template|by eapply refine_resume_builder
    |destruct a; by eapply refine_archive
    |by eapply refine_reserve|by eapply refine_capture|by eapply refine_resume|by eapply refine_problem
    |by eapply refine_fail_unrecoverable|by eapply refine_bind_deadline|by eapply refine_expire
    |by eapply refine_mark_unheld|by eapply refine_clear_unheld|by eapply refine_business_admit
    |eapply refine_business_advance; [|done]; simpl; auto|by eapply refine_business_patch|by eapply refine_bind_lease
    |by eapply refine_forget_lease|by eapply refine_recreate].
Qed.
End calls.
