(* ===== verification/ComputeMono.v ===== *)
(** * What never goes back

    Identities and ends of controls, the ends of operations, and the drained
    state of interrupted work are kept by every step of the ledger. *)
From S2P Require Import Prelude Validation Lifecycle Evidence LifecycleDomain LifecycleStore.
From S2P Require Import LifecycleSafety OperationLease ComputeControl ComputeStore ComputeAdmission.
From S2P Require Import ComputeExecution ComputeRecovery ComputeSpec ComputeRefine ComputeBusiness.
Local Open Scope rust_scope.

(** The columns of a control that no statement writes. *)
Definition cc_identity (c : ComputeControlRecord) :=
  (cc_created_at c, cc_app_id c, cc_lifecycle_id c, cc_request_id c, cc_scope c, cc_operation_id c,
   cc_request_fingerprint c, cc_generation c, cc_action c, cc_interrupted_operations c).

Record later (c c' : ComputeControlRecord) : Prop := {
  lt_identity : cc_identity c' = cc_identity c;
  lt_revision : c' = c ∨ (cc_revision c < cc_revision c')%Z;
  lt_ended : ended (cc_state c) = true → cc_state c' = cc_state c ∧ cc_stage c' = cc_stage c
             ∧ (cc_lease c = None → cc_lease c' = None);
  lt_superseded : cc_state c = CSuperseded → cc_state c' = CSuperseded ∨ cc_state c' = CFailed;
  lt_unclaimed : never_claimed c = true → c' = c;
}.

Lemma later_refl c : later c c.
Proof. split; auto. Qed.

Lemma ended_failed : ended CFailed = true.
Proof. done. Qed.

#[global] Instance later_preorder : PreOrder later.
Proof.
  split; [exact later_refl|]. intros c1 c2 c3 [I1 R1 E1 S1 U1] [I2 R2 E2 S2 U2]. split.
  - congruence.
  - destruct R1 as [->|?], R2 as [->|?]; auto; right; lia.
  - intros He. destruct (E1 He) as (Hs1 & Hst1 & Hl1). rewrite Hs1 in E2.
    destruct (E2 He) as (Hs2 & Hst2 & Hl2). split_and!; [congruence..|auto].
  - intros [Hs|Hs]%S1; [by apply S2|]. right. rewrite Hs in E2. by destruct E2 as (-> & _ & _).
  - intros Hu. pose proof (U1 Hu) as ->. by apply U2.
Qed.

Lemma move_later cs c c' : move cs c c' → later c c'.
Proof.
  intros Hm. destruct Hm as [revision ex Hr Hs He|revision state stage cp code msg Hr Hl Hst Hp Hsm Hph Hsu
    |revision receipt Hr Hl Hle c0 Hdec|revision Hr Hs Hst Hd|revision cp code msg Hr Hs Hex|revision Hr Hs
    |revision cp Hr Hs Hle]; split; simpl; try done; try (by right); unfold never_claimed;
    try (rewrite Hs; naive_solver); destruct (cc_state c) eqn:Hc; try done; try naive_solver.
  - destruct Hex as [? ->]. done.
Qed.

Lemma superseded_later o revision :
  (cc_revision o < revision)%Z → cc_terminal (cc_state o) = false → later o (superseded o revision).
Proof.
  intros Hr Ht. split; simpl; try done; try (by right); unfold never_claimed; by destruct (cc_state o).
Qed.

(** What a step keeps of the whole store. *)
Record keeps (cs cs' : ComputeStore) : Prop := {
  kp_app : app_id (cs_app cs') = app_id (cs_app cs);
  kp_control : ∀ id c, cs_controls cs !! id = Some c →
    ∃ c', cs_controls cs' !! id = Some c' ∧ later c c';
  kp_operation : ∀ id o, cs_ops cs !! id = Some o → ∃ o', cs_ops cs' !! id = Some o'
    ∧ op_operation_id o' = op_operation_id o ∧ op_app_id o' = op_app_id o
    ∧ op_lifecycle_id o' = op_lifecycle_id o ∧ op_scope o' = op_scope o
    ∧ (op_is_terminal (op_state o) = true → o' = o);
  kp_lease : ∀ id o, cs_ops cs !! id = Some o → op_is_terminal (op_state o) = true →
    cs_leases cs !! id = None → cs_leases cs' !! id = None;
  kp_deadline : ∀ id row, cs_deadlines cs !! id = Some row → ∃ row', cs_deadlines cs' !! id = Some row'
    ∧ cd_app_id row' = cd_app_id row ∧ cd_lifecycle_id row' = cd_lifecycle_id row
    ∧ cd_deadline_ms row' = cd_deadline_ms row;
  kp_apart : ∀ id, is_Some (cs_controls cs !! id) → cs_ops cs !! id = None → cs_ops cs' !! id = None;
  kp_revision : ∀ id o o', cs_ops cs !! id = Some o → cs_ops cs' !! id = Some o' →
    o' = o ∨ (op_revision o < op_revision o')%Z;
  kp_epoch : (lifecycle_epoch (cs_app cs) ≤ lifecycle_epoch (cs_app cs'))%Z;
}.

Lemma keeps_refl cs : keeps cs cs.
Proof.
  split; try done; [eauto using later_refl|intros id x Hx; exists x; split_and!; auto|eauto|].
  intros id x y Hx Hy. left. congruence.
Qed.
#[global] Instance keeps_preorder : PreOrder keeps.
Proof.
  split; [exact keeps_refl|]. intros cs1 cs2 cs3 [A1 C1 O1 L1 D1 P1 R1 E1] [A2 C2 O2 L2 D2 P2 R2 E2]. split.
  - congruence.
  - intros id c (c2 & H2 & Hl)%C1. destruct (C2 _ _ H2) as (c3 & H3 & Hl3). exists c3. split; [done|]. by etrans.
  - intros id o (o2 & H2 & ? & ? & ? & ? & Ht)%O1. destruct (O2 _ _ H2) as (o3 & Ho3 & ? & ? & ? & ? & Ht3).
    exists o3. split_and!; try congruence. intros Hterm. pose proof (Ht Hterm) as ->. auto.
  - intros id o Ho Ht Hl. destruct (O1 _ _ Ho) as (o2 & H2 & _ & _ & _ & _ & Heq). rewrite (Heq Ht) in H2.
    eapply L2; [done|done|]. by eapply L1.
  - intros id row (row2 & H2 & ? & ? & ?)%D1. destruct (D2 _ _ H2) as (row3 & Hr3 & ? & ? & ?).
    exists row3. split_and!; congruence.
  - intros id Hc Hn. apply P2; [|by apply P1]. destruct Hc as [c Hc].
    destruct (C1 _ _ Hc) as (c2 & -> & _). eauto.
  - intros id o o3 Ho Ho3. destruct (O1 _ _ Ho) as (o2 & H2 & _).
    destruct (R1 _ _ _ Ho H2) as [->|?], (R2 _ _ _ H2 Ho3) as [->|?]; auto; right; lia.
  - lia.
Qed.

(** The steps that touch one table only. *)
Lemma keeps_controls cs controls intents :
  (∀ id c, cs_controls cs !! id = Some c → ∃ c', controls !! id = Some c' ∧ later c c') →
  keeps cs (with_intents intents (with_controls controls cs)).
Proof.
  intros H. split; try done; intros id o; [intros Ho; exists o; split_and!; auto|eauto|].
  intros o' Ho Ho'. left. unfold cs_ops in *. simpl in *. congruence.
Qed.

Lemma insert_later (controls : gmap string ComputeControlRecord) id c' :
  (∀ d, controls !! id = Some d → later d c') →
  ∀ id' d, controls !! id' = Some d → ∃ d', <[id := c']> controls !! id' = Some d' ∧ later d d'.
Proof.
  intros H id' d Hd. destruct (decide (id' = id)) as [->|Hne].
  - exists c'. rewrite lookup_insert_eq. auto.
  - exists d. rewrite lookup_insert_ne by done. split; [done|apply later_refl].
Qed.

Lemma step_keeps e cs cs' : spec_step e cs cs' → keeps cs cs'.
Proof.
  intros Hs. destruct Hs as [id c c' Hrow Hm|c old h He Had Ha Hsc Hl Hg Hid Hr Hdes Hops controls Hctl
    |scope h rev He Hh Ht Hr|scope h He Hh Hsc Hset|st Hb|id o b Ho Ht|id o Ho Ht|d|a rows Ha Hsl Hsl' Hdel Hact Hep He Hd Hp].
  - apply (keeps_controls cs _ (cs_intents cs)). apply insert_later.
    intros d Hd. assert (d = c) as -> by congruence. by eapply move_later.
  - apply (keeps_controls cs). pose proof (ad_fresh _ _ _ Had) as Hf. pose proof (ad_old _ _ _ Had) as Hold.
    assert (∀ id d, cs_controls cs !! id = Some d → ∃ d', controls !! id = Some d' ∧ later d d') as Hsame.
    { assert (controls = cs_controls cs → ∀ id d, cs_controls cs !! id = Some d →
              ∃ d', controls !! id = Some d' ∧ later d d') as Heq
        by (intros ->; eauto using later_refl).
      destruct old as [o|]; [|by apply Heq]. destruct (cc_terminal (cc_state o)) eqn:Ht; [by apply Heq|].
      destruct Hctl as (rev & Hrev & ->). apply insert_later. intros d Hd.
      destruct Hold as [Hrow _]. assert (d = o) as -> by congruence. by apply superseded_later. }
    intros id d Hd. destruct (decide (id = cc_operation_id c)) as [->|Hne]; [congruence|].
    rewrite lookup_insert_ne by done. by apply Hsame.
  - by apply (keeps_controls cs (cs_controls cs)); eauto using later_refl.
  - by apply (keeps_controls cs (cs_controls cs)); eauto using later_refl.
  - destruct Hb as [[Ha Hl] Hold Hnew _ Hrev Hep _]. split; simpl; try done; [..|change (cs_app (with_store st cs)) with (st_app st); lia].
    + eauto using later_refl.
    + intros id o Ho. destruct (Hold _ _ Ho) as (o' & ? & ? & ? & ? & ? & ? & _). eauto 10.
    + eauto.
    + intros id Hc Hn. destruct (cs_ops (with_store st cs) !! id) as [o'|] eqn:Ho'; [|done].
      destruct (Hnew _ _ Ho' Hn) as (_ & _ & _ & _ & _ & Hctl & _). rewrite Hctl in Hc. by destruct Hc.
  - split; simpl; try done; [eauto using later_refl|intros ? x ?; exists x; split_and!; auto| |eauto|by intros ? x y Hx Hy; left; unfold cs_ops in *; simpl in *; congruence].
    intros id' o' Ho' Ht' Hl. rewrite lookup_insert_ne; [done|]. unfold cs_ops in *. naive_solver congruence.
  - split; simpl; try done; [eauto using later_refl|intros ? x ?; exists x; split_and!; auto| |eauto|by intros ? x y Hx Hy; left; unfold cs_ops in *; simpl in *; congruence].
    intros id' o' Ho' Ht' Hl. by apply lookup_delete_None; auto.
  - split; simpl; try done; [eauto using later_refl|intros ? x ?; exists x; split_and!; auto|by intros ? x y Hx Hy; left; unfold cs_ops in *; simpl in *; congruence].
  - split; simpl; try done; [eauto using later_refl|intros ? x ?; exists x; split_and!; auto|eauto|by intros ? x y Hx Hy; left; unfold cs_ops in *; simpl in *; congruence|change (cs_app (with_store _ cs)) with a; lia].
Qed.

(** ** Drained work stays drained *)

Definition positive (c : ComputeControlRecord) : Prop :=
  (1 ≤ cc_generation c)%Z ∧ (1 ≤ cc_revision c)%Z.

(** A row reads back if its columns are those of one that does. *)
Lemma decode_same c c' :
  decode c = Ok c → positive c' → cc_scope c' = cc_scope c → cc_executor_id c' = cc_executor_id c →
  cc_lease c' = cc_lease c → decode c' = Ok c'.
Proof.
  unfold decode. intros H [Hg Hr] Hs He Hl. rewrite Hs, He, Hl.
  rewrite (proj2 (Z.ltb_ge _ _) Hg), (proj2 (Z.ltb_ge _ _) Hr). simpl. unbind H. peel H as u Hu. by rewrite Hu.
Qed.
Lemma decode_unleased c : positive c → cc_lease c = None → decode c = Ok c.
Proof.
  intros [Hg Hr] Hl. unfold decode. rewrite Hl.
  by rewrite (proj2 (Z.ltb_ge _ _) Hg), (proj2 (Z.ltb_ge _ _) Hr).
Qed.
Lemma get_decoded cs app id c :
  cs_controls cs !! id = Some c → cc_app_id c = app → decode c = Ok c → get cs app id = Ok (Some c).
Proof. intros Hrow Happ Hd. unfold get. by rewrite Hrow, bool_decide_eq_true_2, Hd. Qed.
Lemma get_unleased cs app id c :
  cs_controls cs !! id = Some c → cc_app_id c = app → positive c → cc_lease c = None →
  get cs app id = Ok (Some c).
Proof. intros. apply get_decoded; auto using decode_unleased. Qed.

Lemma later_positive c c' : later c c' → positive c → positive c'.
Proof. intros [Hi Hr _ _ _] [Hg Hrev]. unfold cc_identity in Hi. split; [|destruct Hr as [->|]]; [congruence|lia|lia]. Qed.

(** What a drained entry of the list is. *)
Definition drained_entry (cs : ComputeStore) (record : ComputeControlRecord) (id : string) : Prop :=
  (∃ o, find_operation (cs_ops cs) (cc_app_id record) id = Some o
     ∧ op_lifecycle_id o = cc_lifecycle_id record ∧ op_is_terminal (op_state o) = true
     ∧ cs_leases cs !! id = None)
  ∨ find_operation (cs_ops cs) (cc_app_id record) id = None
    ∧ ∃ c, cs_controls cs !! id = Some c ∧ cc_app_id c = cc_app_id record
       ∧ cc_lifecycle_id c = cc_lifecycle_id record ∧ positive c ∧ cc_lease c = None
       ∧ (ended (cc_state c) = true ∨ never_claimed c = true).

Lemma drained_one_spec cs record id :
  drained_one cs record id = Ok tt ↔ drained_entry cs record id.
Proof.
  unfold drained_one. split.
  - intros H. unfold drained_entry. destruct (find_operation _ _ _) as [o|] eqn:Hf.
    + left. exists o. peel H as Hb. bools. unfold ensure in H. destruct (is_none _) eqn:Hl; [|done]. by bools.
    + right. split; [done|]. peel H as found Hget. destruct found as [c|]; [|done]. exists c.
      apply get_Some in Hget as (Hrow & Happ & Hd). apply decode_Ok in Hd as (_ & Hg & Hr).
      unfold ensure in H. destruct (reconciled record c) eqn:Hb; [|done]. unfold reconciled in Hb. bools.
      split_and!; try done. apply orb_true_iff in Hb1 as [Hb1|Hb1]; [left|by right]. by destruct (cc_state c).
  - intros [(o & -> & Hl & Ht & Hle)|(-> & c & Hrow & Happ & Hl & Hp & Hle & Hs)].
    + rewrite bool_decide_eq_true_2, Ht, Hle by done. done.
    + rewrite (get_unleased _ _ _ c) by done. simpl. unfold reconciled.
      rewrite bool_decide_eq_true_2, Hle by done.
      destruct Hs as [Hs|Hs]; [by destruct (cc_state c)|]. by rewrite Hs, orb_true_r.
Qed.

Lemma drained_spec cs record :
  drained cs record = Ok tt ↔ Forall (drained_entry cs record) (cc_interrupted_operations record).
Proof.
  unfold drained. induction (cc_interrupted_operations record) as [|id l IH]; simpl.
  - split; [by constructor|done].
  - rewrite Forall_cons, <- IH, <- drained_one_spec. destruct (drained_one cs record id) as [[]|]; simpl; naive_solver.
Qed.

Lemma drained_keeps cs cs' c c' :
  keeps cs cs' → cc_identity c' = cc_identity c → drained cs c = Ok tt → drained cs' c' = Ok tt.
Proof.
  intros [_ C O L _ P] Hid. unfold cc_identity in Hid. injection Hid as _ Ha Hl _ _ _ _ _ _ Hint.
  rewrite !drained_spec, Hint. intros Hall. eapply Forall_impl; [exact Hall|].
  intros id Hd. unfold drained_entry. rewrite Ha, Hl.
  destruct Hd as [(o & Hf & Hlo & Ht & Hle)|(Hf & d & Hrow & Hda & Hdl & Hp & Hle & Hs)].
  - left. apply find_operation_some in Hf as [Ho Hoa]. exists o.
    destruct (O _ _ Ho) as (o' & Ho' & _ & _ & _ & _ & Heq). rewrite (Heq Ht) in Ho'.
    unfold find_operation. rewrite Ho', bool_decide_eq_true_2 by done. split_and!; try done. by eapply L.
  - right. split.
    + unfold find_operation in *. destruct (cs_ops cs !! id) as [o|] eqn:Ho.
      * destruct (O _ _ Ho) as (o' & -> & _ & Hoa & _). rewrite Hoa. by case_bool_decide.
      * rewrite P; [done|by rewrite Hrow|done].
    + destruct (C _ _ Hrow) as (d' & Hrow' & Hlater). exists d'. pose proof (later_positive _ _ Hlater Hp).
      destruct Hlater as [Hi _ He _ Hu]. unfold cc_identity in Hi.
      split_and!; [done|congruence|congruence|done| |]; destruct Hs as [Hs|Hs].
      * by apply (He Hs).
      * by rewrite (Hu Hs).
      * left. by rewrite (proj1 (He Hs)).
      * right. by rewrite (Hu Hs).
Qed.
