(* ===== verification/ComputeInv.v ===== *)
(** * What holds of every ledger

    The invariant: heads and live controls name each other, containers are
    touched only after interrupted work has drained, what a control interrupts is
    in its list, and superseded executors are waited for.  Kept apart from it:
    interrupted work succeeds only if its success has been observed. *)
From S2P Require Import Prelude Validation Lifecycle Evidence LifecycleDomain LifecycleStore.
From S2P Require Import LifecycleSafety OperationLease ComputeControl ComputeStore ComputeAdmission.
From S2P Require Import ComputeExecution ComputeRecovery ComputeSpec ComputeRefine ComputeBusiness ComputeMono.
Local Open Scope rust_scope.

(** ** The invariant *)

Record control_ok (cs : ComputeStore) (c : ComputeControlRecord) : Prop := {
  co_app : cc_app_id c = app_id (cs_app cs);
  co_positive : positive c;
  co_decodes : decode c = Ok c;
  co_scope : cc_scope c ≠ Application;
  co_pending : cc_state c = CPending →
    cc_executor_id c = None ∧ cc_lease c = None ∧ cc_stage c = "accepted";
  co_repair : is_automatic_repair (cc_request_id c) = true → cc_action c = CRestart;
  co_superseded : cc_state c = CSuperseded → cc_action c = CRestart;
  co_physical : physical (cc_stage c) = true →
    drained cs c = Ok tt ∧ (ended (cc_state c) = false → is_Some (cc_lease c));
  co_listed : ∀ id, id ∈ cc_interrupted_operations c →
    is_Some (cs_ops cs !! id) ∨ is_Some (cs_controls cs !! id);
}.

Definition names (h : ComputeIntent) (id : string) : Prop := ci_control_operation_id h = Some id.

Record head_ok (cs : ComputeStore) (s : UserAppOperationScope) (h : ComputeIntent) : Prop := {
  ho_scope : ci_scope h = s ∧ s ≠ Application;
  ho_app : ci_app_id h = app_id (cs_app cs) ∧ ci_lifecycle_id h = app_lifecycle_id (cs_app cs);
  ho_positive : (1 ≤ ci_generation h)%Z ∧ (1 ≤ ci_revision h)%Z;
  ho_control : ∀ id, names h id → ∃ c, cs_controls cs !! id = Some c ∧ cc_scope c = s
    ∧ cc_lifecycle_id c = ci_lifecycle_id h ∧ cc_generation c = ci_generation h;
}.

(** A business operation competes with the controls of these scopes. *)
Definition touches (o : UserAppOperationRecord) (s : UserAppOperationScope) : Prop :=
  op_scope o = s ∨ op_scope o = Application.

Record ledger_ok (cs : ComputeStore) : Prop := {
  lk_keyed : keyed cs;
  lk_ops : keyed_ops (cs_ops cs) ∧ live_own (cs_store cs);
  lk_app : ∀ id o, cs_ops cs !! id = Some o → op_app_id o = app_id (cs_app cs);
  lk_apart : ∀ id, is_Some (cs_controls cs !! id) → cs_ops cs !! id = None;
  lk_control : ∀ id c, cs_controls cs !! id = Some c → control_ok cs c;
  lk_unique : ∀ id c id' c', cs_controls cs !! id = Some c → cs_controls cs !! id' = Some c' →
    cc_scope c = cc_scope c' →
    cc_request_id c = cc_request_id c' ∨ cc_generation c = cc_generation c' → id = id';
  lk_head : ∀ s h, cs_intents cs !! s = Some h → head_ok cs s h;
  lk_live : ∀ id c, cs_controls cs !! id = Some c → cc_terminal (cc_state c) = false →
    ∃ h, cs_intents cs !! cc_scope c = Some h ∧ names h id;
  (** the live work of a scope is known to its live control *)
  lk_interrupted : ∀ id c oid o, cs_controls cs !! id = Some c → cc_terminal (cc_state c) = false →
    cs_ops cs !! oid = Some o → op_is_terminal (op_state o) = false → touches o (cc_scope c) →
    oid ∈ cc_interrupted_operations c;
  (** and what a head's control has interrupted is of its scope and lifecycle *)
  lk_stopped : ∀ s h id c oid o, cs_intents cs !! s = Some h → names h id → cs_controls cs !! id = Some c →
    oid ∈ cc_interrupted_operations c → cs_ops cs !! oid = Some o →
    touches o s ∧ op_lifecycle_id o = ci_lifecycle_id h;
}.

(** Of the operations a head's control has interrupted, only these have succeeded. *)
Definition interrupted_success (allowed : string → Prop) (cs : ComputeStore) : Prop :=
  ∀ s h id c oid o, cs_intents cs !! s = Some h → names h id → cs_controls cs !! id = Some c →
    oid ∈ cc_interrupted_operations c → cs_ops cs !! oid = Some o → op_state o = Succeeded → allowed oid.

(** *** Where the rows of the next store come from *)

Inductive control_from (cs : ComputeStore) (id : string) (c' : ComputeControlRecord) : Prop :=
  | cf_same : cs_controls cs !! id = Some c' → control_from cs id c'
  | cf_move c : cs_controls cs !! id = Some c → move cs c c' → control_from cs id c'
  | cf_superseded c rev : cs_controls cs !! id = Some c → cc_terminal (cc_state c) = false →
      (cc_revision c < rev)%Z → cc_action c = CRestart ∨ is_automatic_repair (cc_request_id c) = true →
      c' = superseded c rev → control_from cs id c'
  | cf_new old : cs_controls cs !! id = None → cs_ops cs !! id = None → id = cc_operation_id c' →
      admits cs c' old → control_from cs id c'.

Lemma step_control e cs cs' id c' :
  spec_step e cs cs' → cs_controls cs' !! id = Some c' → control_from cs id c'.
Proof.
  intros Hs Hc'. destruct Hs as [id0 c c1 Hrow Hm|c old h He Had Ha Hsc Hl Hg Hid Hr Hdes Hops controls Hctl
    |? ? ? ? ? ?|? ? ? ?|? ?|? ? ? ? ?|? ? ? ?|?|? ? ? ? ?]; simpl in Hc'; try by apply cf_same.
  - destruct (decide (id = id0)) as [->|Hne].
    + rewrite lookup_insert_eq in Hc'. injection Hc' as <-. by eapply cf_move.
    + rewrite lookup_insert_ne in Hc' by done. by apply cf_same.
  - destruct (decide (id = cc_operation_id c)) as [->|Hne].
    + rewrite lookup_insert_eq in Hc'. injection Hc' as <-.
      eapply cf_new; try done. exact (ad_fresh _ _ _ Had).
    + rewrite lookup_insert_ne in Hc' by done. pose proof (ad_old _ _ _ Had) as Hold.
      destruct old as [o|]; [|subst controls; by apply cf_same].
      destruct (cc_terminal (cc_state o)) eqn:Ht; [subst controls; by apply cf_same|].
      destruct Hctl as (rev & Hrev & ->). destruct Hold as (Hrow & _ & _ & Hprio).
      destruct (decide (id = cc_operation_id o)) as [->|Hne'].
      * rewrite lookup_insert_eq in Hc'. injection Hc' as <-.
        eapply cf_superseded; try done. destruct (Hprio eq_refl) as (_ & _ & [[_ ?]|?]); auto.
      * rewrite lookup_insert_ne in Hc' by done. by apply cf_same.
Qed.

Inductive operation_from (observed : string → Prop) (cs : ComputeStore) (id : string)
    (o' : UserAppOperationRecord) : Prop :=
  | of_old o : cs_ops cs !! id = Some o →
      op_operation_id o' = op_operation_id o ∧ op_app_id o' = op_app_id o
      ∧ op_lifecycle_id o' = op_lifecycle_id o ∧ op_scope o' = op_scope o →
      (op_is_terminal (op_state o) = true → o' = o) →
      (o' = o ∨ op_state o' ≠ Succeeded
       ∨ (op_lifecycle_id o = app_lifecycle_id (cs_app cs) ∧ op_app_id o = app_id (cs_app cs)
          ∧ check_business_authority cs o = Ok tt)
       ∨ observed id) →
      operation_from observed cs id o'
  | of_new : cs_ops cs !! id = None → op_operation_id o' = id → op_app_id o' = app_id (cs_app cs) →
      op_lifecycle_id o' = app_lifecycle_id (cs_app cs) → op_state o' = Pending →
      guard_admission cs (cs_app cs) (op_scope o') = Ok tt → cs_controls cs !! id = None →
      operation_from observed cs id o'.

Lemma step_operation e cs cs' id o' :
  spec_step e cs cs' → cs_ops cs' !! id = Some o' → operation_from (hr_observed e) cs id o'.
Proof.
  intros Hs Ho'.
  assert (cs_ops cs !! id = Some o' → operation_from (hr_observed e) cs id o') as Hsame.
  { intros Ho. eapply of_old; [exact Ho|..]; auto. }
  destruct Hs as [| | | |st Hb| | | |]; unfold cs_ops in *; simpl in Ho'; try (by apply Hsame).
  destruct Hb as [_ Hold Hnew _]. unfold cs_ops in *. destruct (st_ops (cs_store cs) !! id) as [o|] eqn:Ho.
  - destruct (Hold _ _ Ho) as (o2 & Ho2 & ? & ? & ? & ? & ? & ?).
    assert (o2 = o') as -> by congruence. by eapply of_old.
  - destruct (Hnew _ _ Ho' Ho) as (? & ? & ? & ? & ? & ? & _). by apply of_new.
Qed.

Inductive head_from (e : HeadRights) (cs cs' : ComputeStore) (s : UserAppOperationScope)
    (h' : ComputeIntent) : Prop :=
  | hf_same : cs_intents cs !! s = Some h' → head_from e cs cs' s h'
  | hf_cleared h : hr_start e = true → cs_intents cs !! s = Some h →
      h' = mkIntent (ci_app_id h) (ci_scope h) (ci_lifecycle_id h) (ci_generation h)
             (ci_revision h + 1) "running" None →
      head_from e cs cs' s h'
  | hf_pointed c old : hr_point e = Some (cc_action c) → admits cs c old → s = cc_scope c →
      cs_controls cs' !! cc_operation_id c = Some c → names h' (cc_operation_id c) →
      ci_app_id h' = cc_app_id c → ci_scope h' = cc_scope c →
      ci_lifecycle_id h' = cc_lifecycle_id c → ci_generation h' = cc_generation c →
      ci_revision h' = match cs_intents cs !! s with Some h => (ci_revision h + 1)%Z | None => 1%Z end →
      ci_desired_state h' = Compute.desired_of (cc_action c) →
      head_from e cs cs' s h'.

Lemma step_head e cs cs' s h' :
  spec_step e cs cs' → cs_intents cs' !! s = Some h' → head_from e cs cs' s h'.
Proof.
  intros Hs Hh'. destruct Hs as [|c old h He Had Ha Hsc Hl Hg Hid Hr Hdes Hops controls Hctl
    |scope h rev He Hh Ht Hr|scope h He Hh Hsc Hset| | | | |]; simpl in Hh'; try by apply hf_same.
  - destruct (decide (s = cc_scope c)) as [->|Hne].
    + rewrite lookup_insert_eq in Hh'. injection Hh' as <-. eapply hf_pointed; try done.
      simpl. by rewrite lookup_insert_eq.
    + rewrite lookup_insert_ne in Hh' by done. by apply hf_same.
  - destruct (decide (s = scope)) as [->|Hne].
    + rewrite lookup_insert_eq in Hh'. injection Hh' as <-. subst rev. by eapply hf_cleared.
    + rewrite lookup_insert_ne in Hh' by done. by apply hf_same.
  - apply lookup_delete_Some in Hh' as [_ Hh']. by apply hf_same.
Qed.

(** *** What guards say *)

Lemma guard_scopes_Ok cs app refuse scopes :
  guard_scopes cs app refuse scopes = Ok tt →
  ∀ s h id c, s ∈ scopes → cs_intents cs !! s = Some h → ci_lifecycle_id h = app_lifecycle_id app →
    names h id → cs_controls cs !! id = Some c → refuse c = None.
Proof.
  induction scopes as [|s0 scopes IH]; simpl; intros H s h id c Hin Hh Hlf Hn Hc; [set_solver|].
  peel H as control Hctl. peel H as u Href. apply elem_of_cons in Hin as [->|Hin]; [|by eapply IH].
  clear IH H. unfold head_control in Hctl. peel Hctl as hd Hhd. unfold read_scoped_head in Hhd.
  rewrite Hh in Hhd. destruct hd as [|h'|h'].
  - unfold classify_scoped_head in Hhd. unbind Hhd. case_bool_decide; [done|]. by unbind Hhd.
  - apply classify_current in Hhd as (-> & _). rewrite Hn in Hctl.
    peel Hctl as found Hget. peel Hctl as c' Hc'. subst found. injection Hctl as <-.
    apply get_Some in Hget as [Hrow _]. assert (c' = c) as -> by congruence.
    simpl in Href. by destruct (refuse c).
  - by apply classify_historical in Hhd as (-> & _ & _ & Hne).
Qed.

Lemma touches_scopes o s : touches o s → s ≠ Application → s ∈ compute_scopes (op_scope o).
Proof. intros [<-| ->]; [destruct (op_scope o)|destruct s]; simpl; set_solver. Qed.

(** What a settled head says of every control of its scope. *)
Lemma settled_Ok cs h :
  validate_settled_head cs h = Ok tt →
  ∀ id c, cs_controls cs !! id = Some c → cc_app_id c = ci_app_id h →
    cc_lifecycle_id c = ci_lifecycle_id h → cc_scope c = ci_scope h →
    (ended (cc_state c) = true ∨ never_claimed c = true ∧ cc_lease c = None) ∧ drained cs c = Ok tt.
Proof.
  unfold validate_settled_head. intros H. peel H as Hpos. peel H as Hscope. peel H as u Hall.
  clear H Hpos Hscope. intros id c Hc Ha Hl Hs.
  assert (c ∈ scope_controls (ci_app_id h) (ci_lifecycle_id h) (ci_scope h) (cs_controls cs)) as Hin.
  { apply list_elem_of_filter. split; [done|]. apply elem_of_controls. eauto. }
  destruct u. induction (scope_controls _ _ _ _) as [|d l IH]; simpl in Hall; [set_solver|].
  peel Hall as u Hone. destruct u. apply elem_of_cons in Hin as [->|Hin]; [|by apply IH].
  unfold settled_one in Hone. peel Hone as d' Hd. apply decode_Ok in Hd as [-> _]. unbind Hone.
  peel Hone as w Hst. split; [|done]. unfold never_claimed. destruct (cc_state d); try done; try (by left).
  right. unfold ensure in Hst. destruct (_ && _) eqn:Hb in Hst; [|done]. bools. rewrite Hb.
  rewrite bool_decide_eq_true_2 by done. simpl. by rewrite bool_decide_eq_true_2.
Qed.

(** *** One step *)

Lemma control_from_later cs id c' :
  control_from cs id c' →
  (∃ c, cs_controls cs !! id = Some c ∧ later c c')
  ∨ (cs_controls cs !! id = None ∧ cs_ops cs !! id = None ∧ id = cc_operation_id c' ∧ ∃ old, admits cs c' old).
Proof.
  intros [Hrow|c Hrow Hm|c rev Hrow Ht Hr _ ->|old Hn Ho Hid Had].
  - left. eauto using later_refl.
  - left. eauto using move_later.
  - left. eauto using superseded_later.
  - right. eauto.
Qed.

Lemma later_live c c' : later c c' → cc_terminal (cc_state c') = false → cc_terminal (cc_state c) = false.
Proof.
  intros [_ _ He Hs _] Ht. destruct (cc_state c) eqn:Hc; try done.
  - destruct He as (He & _); [done|]. by rewrite He in Ht.
  - destruct He as (He & _); [done|]. by rewrite He in Ht.
  - destruct Hs as [Hs|Hs]; [done|..]; by rewrite Hs in Ht.
Qed.

Section step.
Context (e : HeadRights) (cs cs' : ComputeStore) (Hok : ledger_ok cs) (Hstep : spec_step e cs cs').

Lemma one_side : cs_controls cs' = cs_controls cs ∨ cs_store cs' = cs_store cs.
Proof. destruct Hstep; auto. Qed.

Lemma one_new id id' :
  cs_controls cs !! id = None → cs_controls cs !! id' = None →
  is_Some (cs_controls cs' !! id) → is_Some (cs_controls cs' !! id') → id = id'.
Proof.
  intros Hn Hn' Hs Hs'. destruct Hs as [c Hc], Hs' as [c' Hc'].
  destruct Hstep as [id0 c0 c1 Hrow Hm|c0 old h He Had Ha Hsc Hl Hg Hid Hr Hdes Hops controls Hctl
    | | | | | | |]; simpl in Hc, Hc'; try congruence.
  - exfalso. destruct (decide (id = id0)) as [->|Hne]; [congruence|].
    rewrite lookup_insert_ne in Hc by done. congruence.
  - assert (∀ i x, cs_controls cs !! i = None → <[cc_operation_id c0 := c0]> controls !! i = Some x →
              i = cc_operation_id c0) as Hnew; [|by rewrite (Hnew _ _ Hn Hc), (Hnew _ _ Hn' Hc')].
    intros i x Hi Hx. destruct (decide (i = cc_operation_id c0)) as [|Hne]; [done|].
    rewrite lookup_insert_ne in Hx by done. pose proof (ad_old _ _ _ Had) as Hold.
    destruct old as [o|]; [|congruence]. destruct (cc_terminal (cc_state o)); [congruence|].
    destruct Hctl as (rev & _ & ->). destruct Hold as [Hrow _].
    rewrite lookup_insert_ne in Hx; congruence.
Qed.

(** The lifecycle changes only when no head is left. *)
Lemma same_lifecycle :
  app_lifecycle_id (cs_app cs') = app_lifecycle_id (cs_app cs)
  ∨ cs_intents cs' = cs_intents cs ∧ cs_intents cs !! Dev = None ∧ cs_intents cs !! Prod = None
    ∧ cs_controls cs' = cs_controls cs.
Proof.
  destruct Hstep as [| | | |st [[_ Hl] _ _ _]| | | |]; simpl; auto.
Qed.

Lemma step_keyed : keyed cs'.
Proof using Hok Hstep.
  intros id c' Hc'. destruct (control_from_later _ _ _ (step_control _ _ _ _ _ Hstep Hc')) as [(c & Hc & [Hi])|(_ & _ & -> & _)].
  - pose proof (lk_keyed _ Hok _ _ Hc). unfold cc_identity in Hi. congruence.
  - done.
Qed.

Lemma step_ops : keyed_ops (cs_ops cs') ∧ live_own (cs_store cs').
Proof using Hok Hstep.
  pose proof (lk_ops _ Hok) as [Hk Ho]. split.
  - intros id o' Ho'. destruct (step_operation _ _ _ _ _ Hstep Ho') as [o Hrow (-> & _) _ _|]; [by apply Hk|done].
  - pose proof (lk_app _ Hok) as Happ.
    destruct Hstep as [| | | |st [_ _ _ Hb]| | | |a rows Ha Hsl Hsl' _ _ _]; simpl; auto.
    intros id o Hrow Hap Hl. simpl in *. exfalso.
    specialize (Ho _ _ Hrow (Happ _ _ Hrow) Hl). unfold cs_app in Hsl. by rewrite Hsl in Ho.
Qed.

Lemma step_app id o : cs_ops cs' !! id = Some o → op_app_id o = app_id (cs_app cs').
Proof using Hok Hstep.
  intros Ho. rewrite (kp_app _ _ (step_keeps _ _ _ Hstep)).
  destruct (step_operation _ _ _ _ _ Hstep Ho) as [o0 Hrow (_ & -> & _) _ _|]; [|done].
  by eapply lk_app.
Qed.

Lemma step_apart id : is_Some (cs_controls cs' !! id) → cs_ops cs' !! id = None.
Proof using Hok Hstep.
  intros [c' Hc']. destruct (step_control _ _ _ _ _ Hstep Hc') as [Hrow|c Hrow _|c rev Hrow _ _ _ _|old Hn Ho _ _];
    try (apply (kp_apart _ _ (step_keeps _ _ _ Hstep)); [|apply (lk_apart _ Hok)]; by rewrite Hrow).
  destruct one_side as [Heq|Heq]; [congruence|]. unfold cs_ops in *. by rewrite Heq.
Qed.

Lemma step_unique id c id' c' :
  cs_controls cs' !! id = Some c → cs_controls cs' !! id' = Some c' → cc_scope c = cc_scope c' →
  cc_request_id c = cc_request_id c' ∨ cc_generation c = cc_generation c' → id = id'.
Proof using Hok Hstep.
  intros Hc Hc' Hs Hr.
  assert (∀ i x y old, cs_controls cs !! i = Some x → admits cs y old → cc_scope x = cc_scope y →
    cc_request_id x = cc_request_id y ∨ cc_generation x = cc_generation y → False) as Hold.
  { intros i x y old Hx Had Hsc Hrg. destruct (ad_unique _ _ _ Had _ _ Hx) as [Hq Hg]; [|done|naive_solver lia].
    rewrite (co_app _ _ (lk_control _ Hok _ _ Hx)). by destruct (ad_app _ _ _ Had) as [-> _]. }
  pose proof (control_from_later _ _ _ (step_control _ _ _ _ _ Hstep Hc)) as Hf.
  pose proof (control_from_later _ _ _ (step_control _ _ _ _ _ Hstep Hc')) as Hf'.
  destruct Hf as [(d & Hd & [Hi])|(Hn & _ & _ & old & Had)], Hf' as [(d' & Hd' & [Hi'])|(Hn' & _ & _ & old' & Had')].
  - unfold cc_identity in *. eapply (lk_unique _ Hok); [done|done|congruence|].
    destruct Hr; [left|right]; congruence.
  - exfalso. unfold cc_identity in Hi. eapply (Hold id d); [done|exact Had'|congruence|].
    destruct Hr; [left|right]; congruence.
  - exfalso. unfold cc_identity in Hi'. eapply (Hold id' d'); [done|exact Had|congruence|].
    destruct Hr; [left|right]; congruence.
  - eapply one_new; eauto.
Qed.

(** *** Controls *)

Lemma listed_keeps id :
  is_Some (cs_ops cs !! id) ∨ is_Some (cs_controls cs !! id) →
  is_Some (cs_ops cs' !! id) ∨ is_Some (cs_controls cs' !! id).
Proof using Hstep.
  pose proof (step_keeps _ _ _ Hstep) as Hkp. intros [[o Ho]|[c Hc]].
  - left. destruct (kp_operation _ _ Hkp _ _ Ho) as (? & -> & _). eauto.
  - right. destruct (kp_control _ _ Hkp _ _ Hc) as (? & -> & _). eauto.
Qed.

(** A control of the same identity that is no further than its work allows. *)
Lemma control_ok_later c c' :
  control_ok cs c → later c c' → decode c' = Ok c' →
  (cc_state c' = CPending → cc_executor_id c' = None ∧ cc_lease c' = None ∧ cc_stage c' = "accepted") →
  (cc_state c' = CSuperseded → cc_action c = CRestart) →
  (physical (cc_stage c') = true →
     drained cs c = Ok tt ∧ (ended (cc_state c') = false → is_Some (cc_lease c'))) →
  control_ok cs' c'.
Proof using Hstep.
  intros Hc Hl Hdec Hpend Hsup Hph. pose proof (step_keeps _ _ _ Hstep) as Hkp.
  pose proof (lt_identity _ _ Hl) as Hi. pose proof Hi as Hi'. unfold cc_identity in Hi'.
  injection Hi' as _ Ha Hlf Hr Hs Hid Hf Hg Hact Hint. destruct Hc. split.
  - by rewrite Ha, (kp_app _ _ Hkp).
  - by eapply later_positive.
  - done.
  - by rewrite Hs.
  - done.
  - by rewrite Hr, Hact.
  - by rewrite Hact.
  - intros Hp. destruct (Hph Hp) as [Hd ?]. split; [by eapply drained_keeps|done].
  - intros id. rewrite Hint. intros Hin. by apply listed_keeps, co_listed0.
Qed.

Lemma physical_accepted : physical "accepted" = false.
Proof using Type. by vm_compute. Qed.
Lemma physical_draining : physical (stage_as_str DrainingPrevious) = false.
Proof using Type. by vm_compute. Qed.

Lemma move_decodes c c' : control_ok cs c → move cs c c' → decode c' = Ok c'.
Proof using Type.
  intros Hc Hm. pose proof (later_positive _ _ (move_later _ _ _ Hm) (co_positive _ _ Hc)) as Hp.
  destruct Hm; try done; try (by apply decode_unleased); try (eapply decode_same; [apply (co_decodes _ _ Hc)|done..]).
  apply decode_unleased; [done|]. by destruct (co_pending _ _ Hc) as (_ & ? & _).
Qed.

Lemma control_ok_move c c' : control_ok cs c → move cs c c' → control_ok cs' c'.
Proof using Hstep.
  intros Hc Hm. pose proof (move_later _ _ _ Hm) as Hl.
  eapply control_ok_later; [done|done|by eapply move_decodes|..];
    pose proof (co_physical _ _ Hc) as Hph; pose proof (co_superseded _ _ Hc) as Hsu;
    destruct Hm as [revision ex Hr Hs He|revision state stage cp code msg Hr Hl' Hst Hp Hsm Hph' Hsucc
      |revision receipt Hr Hl' Hle c0 Hdec|revision Hr Hs Hst Hd|revision cp code msg Hr Hs Hex|revision Hr Hs
      |revision cp Hr Hs Hle]; simpl in *; try done.
  - intros Heq. rewrite Heq in Hl'. done.
  - intros Heq. rewrite Heq in Hs. done.
  - intros Heq. rewrite Heq in Hs. done.
  - intros ->. destruct Hst as [Hst|Hst]; done.
  - intros Heq. destruct (Hph' Heq) as [[Hlease [Hd|Hd]]| ->]; [done| |]; destruct (Hph ltac:(done)) as [? Hx];
      (split; [done|]); intros _; try done. apply Hx. by destruct (cc_state c).
  - intros Heq. by destruct (Hph Heq).
  - intros Heq. destruct (Hph Heq). split; [done|]. by rewrite Hs.
Qed.

Lemma control_ok_new c old :
  admits cs c old → cs_controls cs' !! cc_operation_id c = Some c → control_ok cs' c.
Proof using Hok Hstep.
  intros Had Hc. pose proof (step_keeps _ _ _ Hstep) as Hkp.
  destruct Had as [Hfr Hsc [Happ Hlf] _ Hg (Hst & Hex & Hstage & Hle & Hrev) Hrep Hold _ Hlist].
  split; try congruence; try done.
  - by rewrite (kp_app _ _ Hkp).
  - unfold positive. lia.
  - apply decode_unleased; [unfold positive; lia|done].
  - by rewrite Hstage, physical_accepted.
  - intros id [Ho|(o & Ho & _)]%Hlist; apply listed_keeps.
    + destruct old as [o|]; [|done]. destruct Hold as (Hrow & _). destruct Ho as [Ho| ->].
      * by apply (co_listed _ _ (lk_control _ Hok _ _ Hrow)).
      * right. by rewrite Hrow.
    + left. apply find_operation_some in Ho as [-> _]. eauto.
Qed.

Lemma step_control_ok id c' : cs_controls cs' !! id = Some c' → control_ok cs' c'.
Proof using Hok Hstep.
  intros Hc'. pose proof (lk_control _ Hok) as Hctl.
  destruct (step_control _ _ _ _ _ Hstep Hc') as [Hrow|c Hrow Hm|c rev Hrow Ht Hr Hprio ->|old Hn Ho -> Had].
  - pose proof (Hctl _ _ Hrow) as Hc. apply (control_ok_later c' c'); try apply Hc; apply later_refl.
  - eapply control_ok_move; eauto.
  - pose proof (Hctl _ _ Hrow) as Hc. pose proof (superseded_later _ _ Hr Ht) as Hlt.
    eapply control_ok_later; [done|done| |done|..]; simpl.
    + eapply decode_same; [apply (co_decodes _ _ Hc)| |done..]. by eapply later_positive, Hc.
    + intros _. destruct Hprio as [?|Hrep]; [done|by apply (co_repair _ _ Hc)].
    + intros Hp. destruct (co_physical _ _ Hc Hp) as [? Hle]. split; [done|]. intros _. apply Hle.
      by destruct (cc_state c).
  - by eapply control_ok_new.
Qed.

(** *** Heads *)

Lemma step_head_ok s h' : cs_intents cs' !! s = Some h' → head_ok cs' s h'.
Proof using Hok Hstep.
  intros Hh'. pose proof (step_keeps _ _ _ Hstep) as Hkp.
  assert (∀ h, cs_intents cs !! s = Some h → app_lifecycle_id (cs_app cs') = app_lifecycle_id (cs_app cs)) as Hlife.
  { intros h Hh. destruct same_lifecycle as [?|(_ & Hd & Hp & _)]; [done|].
    destruct (ho_scope _ _ _ (lk_head _ Hok _ _ Hh)). destruct s; congruence. }
  destruct (step_head _ _ _ _ _ Hstep Hh') as [Hh|h He Hh ->|c old He Had -> Hc Hn Ha Hs Hl Hg Hr Hd].
  - destruct (lk_head _ Hok _ _ Hh) as [Hs [Ha Hl] Hp Hc].
    split; [done|by rewrite (kp_app _ _ Hkp), (Hlife _ Hh)|done|].
    intros id (c & Hrow & ? & ? & ?)%Hc. destruct (kp_control _ _ Hkp _ _ Hrow) as (c' & Hc' & [Hi]).
    exists c'. unfold cc_identity in Hi. split_and!; congruence.
  - destruct (lk_head _ Hok _ _ Hh) as [Hs [Ha Hl] Hp Hc].
    split; simpl; [done|by rewrite (kp_app _ _ Hkp), (Hlife _ Hh)|lia|done].
  - destruct (ad_app _ _ _ Had) as [Hca Hcl].
    assert (app_lifecycle_id (cs_app cs') = app_lifecycle_id (cs_app cs)) as Hsame.
    { destruct same_lifecycle as [?|(Hi & Hde & Hpr & _)]; [done|].
      rewrite Hi in Hh'. by apply Hlife in Hh'. }
    split.
    + split; [done|apply (ad_scope _ _ _ Had)].
    + rewrite (kp_app _ _ Hkp), Hsame. split; congruence.
    + rewrite Hg, Hr. split; [apply (ad_generation _ _ _ Had)|].
      destruct (cs_intents cs !! cc_scope c) as [h|] eqn:Hh; [|lia].
      destruct (ho_positive _ _ _ (lk_head _ Hok _ _ Hh)). lia.
    + intros id Hid. unfold names in *. assert (id = cc_operation_id c) as -> by congruence.
      exists c. split_and!; congruence.
Qed.

(** A live control keeps the head of its scope. *)
Lemma step_live id c' :
  cs_controls cs' !! id = Some c' → cc_terminal (cc_state c') = false →
  ∃ h, cs_intents cs' !! cc_scope c' = Some h ∧ names h id.
Proof using Hok Hstep.
  intros Hc' Ht. destruct (control_from_later _ _ _ (step_control _ _ _ _ _ Hstep Hc'))
    as [(c & Hrow & Hl)|(Hn & _ & Hid & _)].
  - pose proof (later_live _ _ Hl Ht) as Hlive. destruct (lk_live _ Hok _ _ Hrow Hlive) as (h & Hh & Hnm).
    assert (cc_scope c' = cc_scope c) as -> by (pose proof (lt_identity _ _ Hl); unfold cc_identity in *; congruence).
    destruct Hstep as [|d old h0 He Had Ha Hsc Hlf Hg Hid Hr Hdes Hops controls Hctl
      |scope h0 rev He Hh0 Hterm Hr|scope h0 He Hh0 Hsc Hset| | | | |]; simpl in *; eauto.
    + destruct (decide (cc_scope c = cc_scope d)) as [Heq|Hne].
      2: { rewrite lookup_insert_ne by done. eauto. }
      exfalso. pose proof (ad_old _ _ _ Had) as Hold. pose proof (ad_fresh _ _ _ Had) as Hfr.
      rewrite <- Heq in Hold. destruct old as [o|].
      2: { destruct (Hold _ Hh). unfold names in Hnm. congruence. }
      destruct Hold as (Horow & (h1 & Hh1 & Hn1 & _) & _). assert (h1 = h) as -> by congruence.
      unfold names in Hnm. assert (id = cc_operation_id o) as -> by congruence.
      assert (o = c) as -> by congruence. rewrite Hlive in Hctl. destruct Hctl as (rev & _ & ->).
      rewrite lookup_insert_ne, lookup_insert_eq in Hc' by congruence. by injection Hc' as <-.
    + destruct (decide (cc_scope c = scope)) as [<-|Hne]; [|rewrite lookup_insert_ne by done; eauto].
      exfalso. assert (h0 = h) as -> by congruence. rewrite (Hterm c) in Hlive; [done|]. by exists id.
    + destruct (decide (cc_scope c = scope)) as [<-|Hne]; [|rewrite lookup_delete_ne by done; eauto].
      exfalso. assert (h0 = h) as -> by congruence.
      destruct (lk_head _ Hok _ _ Hh) as [_ [Hha _] _ Hhc]. destruct (Hhc _ Hnm) as (c1 & Hc1 & Hs1 & Hl1 & _).
      assert (c1 = c) as -> by congruence.
      destruct (settled_Ok _ _ Hset _ _ Hrow) as [[Hs|[Hs _]] _]; try congruence.
      * rewrite Hha. apply (co_app _ _ (lk_control _ Hok _ _ Hrow)).
      * by destruct (cc_state c).
      * unfold never_claimed in Hs. bools. by rewrite Hs in Hlive.
  - pose proof (one_new id) as Hone.
    destruct Hstep as [id0 c c1 Hrow Hm|d old h0 He Had Ha Hsc Hlf Hg Hd Hr Hdes Hops controls Hctl
      | | | | | | |]; simpl in *; try congruence.
    { destruct (decide (id = id0)) as [->|]; [congruence|]. rewrite lookup_insert_ne in Hc' by done. congruence. }
    assert (id = cc_operation_id d) as ->.
    { apply Hone; [done|apply (ad_fresh _ _ _ Had)|by rewrite Hc'|by rewrite lookup_insert_eq]. }
    rewrite lookup_insert_eq in Hc'. injection Hc' as <-. exists h0. by rewrite lookup_insert_eq.
Qed.

(** *** Interrupted work *)

(** A new operation finds no live control in its scopes. *)
Lemma guard_not_live id c o :
  cs_controls cs !! id = Some c → cc_terminal (cc_state c) = false → touches o (cc_scope c) →
  guard_admission cs (cs_app cs) (op_scope o) ≠ Ok tt.
Proof using Hok.
  intros Hc Hl Ht Hg. destruct (lk_live _ Hok _ _ Hc Hl) as (h & Hh & Hn).
  destruct (lk_head _ Hok _ _ Hh) as [[_ Hna] [_ Hlf] _ _].
  eapply guard_scopes_Ok in Hg; [|by eapply touches_scopes|done|done|done|done].
  cbv beta in Hg. by rewrite Hl in Hg.
Qed.

Lemma step_interrupted id c' oid o' :
  cs_controls cs' !! id = Some c' → cc_terminal (cc_state c') = false →
  cs_ops cs' !! oid = Some o' → op_is_terminal (op_state o') = false → touches o' (cc_scope c') →
  oid ∈ cc_interrupted_operations c'.
Proof using Hok Hstep.
  intros Hc' Hl' Ho' Hlo' Ht'.
  destruct (control_from_later _ _ _ (step_control _ _ _ _ _ Hstep Hc')) as [(c & Hc & Hlt)|(Hn & _ & Hid & old & Had)].
  - pose proof (later_live _ _ Hlt Hl') as Hl. pose proof (lt_identity _ _ Hlt) as Hi. unfold cc_identity in Hi.
    assert (cc_scope c' = cc_scope c ∧ cc_interrupted_operations c' = cc_interrupted_operations c) as [Hsc ->]
      by (split; congruence). rewrite Hsc in Ht'.
    destruct (step_operation _ _ _ _ _ Hstep Ho') as [o Ho (_ & _ & _ & Hos) Hterm _|Hno _ _ _ _ Hg _].
    + eapply lk_interrupted; try done; [|unfold touches in *; by rewrite <- Hos].
      destruct (op_is_terminal (op_state o)) eqn:Hlo; [|done]. pose proof (Hterm eq_refl). congruence.
    + by eapply guard_not_live in Hg.
  - destruct one_side as [Heq|Heq]; [congruence|]. unfold cs_ops in Ho'. rewrite Heq in Ho'.
    destruct (lk_ops _ Hok) as [_ Hown].
    apply (ad_slots _ _ _ Had (op_scope o')); [done|]. apply Hown; [done|by eapply lk_app|done].
Qed.

(** What the head's control lists cannot report success. *)
Lemma authority_lists s h id c oid o :
  cs_intents cs !! s = Some h → names h id → cs_controls cs !! id = Some c →
  oid ∈ cc_interrupted_operations c → cs_ops cs !! oid = Some o → touches o s →
  check_business_authority cs o ≠ Ok tt.
Proof using Hok.
  intros Hh Hn Hc Hin Ho Ht Hb. destruct (lk_head _ Hok _ _ Hh) as [[_ Hna] [_ Hlf] _ _].
  unfold check_business_authority in Hb. peel Hb as a Ha. apply find_app_Some in Ha as [-> _]. unbind Hb.
  eapply guard_scopes_Ok in Hb; [|by eapply touches_scopes|done|done|done|done].
  cbv beta in Hb. rewrite (proj1 (lk_ops _ Hok) _ _ Ho), bool_decide_eq_true_2 in Hb by done. done.
Qed.

(** The entries of an admitted control, and the entries of the head it takes. *)
Lemma admitted_entries c old oid o :
  admits cs c old → oid ∈ cc_interrupted_operations c → cs_ops cs !! oid = Some o →
  touches o (cc_scope c) ∧ op_lifecycle_id o = cc_lifecycle_id c.
Proof using Hok.
  intros Had Hin Ho. destruct (ad_listed _ _ _ Had _ Hin) as [Hold|(o1 & Hf & Ht & Hl & Hs)].
  - pose proof (ad_old _ _ _ Had) as Hao. destruct old as [d|]; [|done].
    destruct Hao as (Hrow & (h & Hh & Hn & Hlf) & _). destruct Hold as [Hold| ->].
    + rewrite <- Hlf. by eapply (lk_stopped _ Hok).
    + pose proof (lk_apart _ Hok (cc_operation_id d)) as Hap. rewrite Hap in Ho; [done|by rewrite Hrow].
  - apply find_operation_some in Hf as [Hf _]. by assert (o1 = o) as -> by congruence.
Qed.

Lemma step_stopped s h' id c' oid o' :
  cs_intents cs' !! s = Some h' → names h' id → cs_controls cs' !! id = Some c' →
  oid ∈ cc_interrupted_operations c' → cs_ops cs' !! oid = Some o' →
  touches o' s ∧ op_lifecycle_id o' = ci_lifecycle_id h'.
Proof using Hok Hstep.
  intros Hh' Hn' Hc' Hin' Ho'.
  destruct (step_head _ _ _ _ _ Hstep Hh') as [Hh|h He Hh ->|c old He Had -> Hc Hn Ha Hs Hl Hg Hr Hd]; [|done|].
  - destruct (ho_control _ _ _ (lk_head _ Hok _ _ Hh) _ Hn') as (c & Hc & _).
    destruct (kp_control _ _ (step_keeps _ _ _ Hstep) _ _ Hc) as (c1 & Hc1 & [Hi]).
    assert (c1 = c') as -> by congruence. unfold cc_identity in Hi.
    assert (cc_interrupted_operations c' = cc_interrupted_operations c) as Hint by congruence. rewrite Hint in Hin'.
    destruct (step_operation _ _ _ _ _ Hstep Ho') as [o Ho (Hid & _ & Hlo & Hos) _ _|Hno _ _ _ _ _ Hnc].
    + destruct (lk_stopped _ Hok _ _ _ _ _ _ Hh Hn' Hc Hin' Ho) as (Ht & Hlf).
      split_and!; [unfold touches in *; by rewrite Hos|congruence].
    + destruct (co_listed _ _ (lk_control _ Hok _ _ Hc) _ Hin') as [[? ?]|[? ?]]; congruence.
  - unfold names in *. assert (id = cc_operation_id c) as -> by congruence.
    assert (c' = c) as -> by congruence. destruct one_side as [Heq|Heq].
    + rewrite Heq in Hc. pose proof (ad_fresh _ _ _ Had). congruence.
    + unfold cs_ops in Ho'. rewrite Heq in Ho'. rewrite Hl. by eapply admitted_entries.
Qed.

(** Interrupted work succeeds only by a call that has observed it. *)
Lemma step_interrupted_success allowed :
  interrupted_success allowed cs → (∀ id, hr_observed e id → allowed id) → interrupted_success allowed cs'.
Proof using Hok Hstep.
  intros Hall Hsub s h' id c' oid o' Hh' Hn' Hc' Hin' Ho' Hs'.
  destruct (step_head _ _ _ _ _ Hstep Hh') as [Hh|h He Hh ->|c old He Had -> Hc Hn Ha Hs Hl Hg Hr Hd]; [|done|].
  - destruct (ho_control _ _ _ (lk_head _ Hok _ _ Hh) _ Hn') as (c & Hc & _).
    destruct (kp_control _ _ (step_keeps _ _ _ Hstep) _ _ Hc) as (c1 & Hc1 & [Hi]).
    assert (c1 = c') as -> by congruence. unfold cc_identity in Hi.
    assert (cc_interrupted_operations c' = cc_interrupted_operations c) as Hint by congruence. rewrite Hint in Hin'.
    destruct (step_operation _ _ _ _ _ Hstep Ho') as [o Ho _ _ Hsucc|_ _ _ _ Hp _ _]; [|congruence].
    destruct Hsucc as [->|[?|[(_ & _ & Hb)|?]]]; [by eapply Hall|done| |auto].
    destruct (lk_stopped _ Hok _ _ _ _ _ _ Hh Hn' Hc Hin' Ho) as (Ht & _). by eapply authority_lists in Hb.
  - unfold names in *. assert (id = cc_operation_id c) as -> by congruence.
    assert (c' = c) as -> by congruence. destruct one_side as [Heq|Heq].
    { rewrite Heq in Hc. pose proof (ad_fresh _ _ _ Had). congruence. }
    unfold cs_ops in Ho'. rewrite Heq in Ho'.
    destruct (ad_listed _ _ _ Had _ Hin') as [Hold|(o1 & Hf & Ht & _)].
    + pose proof (ad_old _ _ _ Had) as Hao. destruct old as [d|]; [|done].
      destruct Hao as (Hrow & (h & Hh & Hn0 & Hlf) & _). destruct Hold as [Hold| ->]; [by eapply Hall|].
      pose proof (lk_apart _ Hok (cc_operation_id d)) as Hap. unfold cs_ops in Hap. by rewrite Hap in Ho'; [|rewrite Hrow].
    + apply find_operation_some in Hf as [Hf _]. unfold cs_ops in Hf. assert (o1 = o') as -> by congruence.
      by rewrite Hs' in Ht.
Qed.

Lemma ledger_ok_step : ledger_ok cs'.
Proof using Hok Hstep.
  split; [apply step_keyed|apply step_ops|apply step_app|apply step_apart|apply step_control_ok
         |apply step_unique|apply step_head_ok|apply step_live|apply step_interrupted|apply step_stopped].
Qed.
End step.

Lemma ledger_ok_steps e cs cs' : ledger_ok cs → spec_steps e cs cs' → ledger_ok cs'.
Proof.
  intros Hok Hs. induction Hs as [|cs1 cs2 cs3 H1 _ IH]; [done|]. by eapply IH, ledger_ok_step.
Qed.

Lemma steps_interrupted allowed e cs cs' :
  ledger_ok cs → spec_steps e cs cs' → interrupted_success allowed cs →
  (∀ id, hr_observed e id → allowed id) → interrupted_success allowed cs'.
Proof.
  intros Hok Hs Hi Hall. induction Hs as [|x y z Hxy _ IH]; [done|].
  apply IH; [by eapply ledger_ok_step|by eapply step_interrupted_success].
Qed.

(** ** The life of the application *)

Lemma life_step e cs cs' : spec_step e cs cs' → life_ok (cs_store cs) → life_ok (cs_store cs').
Proof.
  intros Hs Hli. destruct Hs as [| | | |st [_ _ _ _ _ _ Hb] _| | | |a rows Happ Hsl Hsl' Hdel Hact Hep He Hd Hp]; try done.
  - by apply Hb.
  - split; simpl; [apply Hli| |by rewrite Hact]. intros s s' H1. rewrite Hsl' in H1. by destruct H1.
Qed.
Lemma life_steps e cs cs' : spec_steps e cs cs' → life_ok (cs_store cs) → life_ok (cs_store cs').
Proof. induction 1 as [|x y z Hxy _ IH]; [done|]. intros. by eapply IH, life_step. Qed.
Lemma store_ok_life st : store_ok st → life_ok st.
Proof. intros [K _ _ X _ D]. split; [|done..]. intros id o Ho. by destruct (K _ _ Ho) as (_ & ? & _). Qed.

(** Nothing of a deleted application is in flight. *)
Lemma deleted_idle cs id o :
  ledger_ok cs → life_ok (cs_store cs) → app_state (cs_app cs) = Deleted →
  cs_ops cs !! id = Some o → op_is_terminal (op_state o) = true.
Proof.
  intros Hok Hli Hdel Ho. destruct (op_is_terminal (op_state o)) eqn:Hl; [done|].
  pose proof (proj2 (lk_ops _ Hok) _ _ Ho (lk_app _ Hok _ _ Ho) Hl) as Hs.
  by rewrite (li_deleted _ Hli Hdel) in Hs.
Qed.

(** Its record and its operations stay as they are, until it is recreated. *)
Lemma deleted_step e cs cs' :
  ledger_ok cs → life_ok (cs_store cs) → app_state (cs_app cs) = Deleted → spec_step e cs cs' →
  (cs_app cs' = cs_app cs ∧ cs_ops cs' = cs_ops cs)
  ∨ hr_retire e = true ∧ (lifecycle_epoch (cs_app cs) < lifecycle_epoch (cs_app cs'))%Z.
Proof.
  intros Hok Hli Hdel Hs. pose proof (λ id o, deleted_idle cs id o Hok Hli Hdel) as Hidle.
  destruct Hs as [| | | |st [_ Hold _ _ _ _ Hb] _| | | |a rows Happ Hsl Hsl' _ Hact Hep He Hd Hp]; try (by left).
  - left. destruct (proj2 (Hb Hli) Hdel) as [Ha Hnew]. split; [done|]. apply map_eq. intros id.
    change (st_ops st !! id = cs_ops cs !! id).
    destruct (cs_ops cs !! id) as [o|] eqn:Ho; [|by rewrite (Hnew _ Ho)].
    destruct (Hold _ _ Ho) as (o' & Ho' & _ & _ & _ & _ & Hsame & _). rewrite Ho'.
    f_equal. apply Hsame. by eapply Hidle.
  - right. split; [done|]. simpl. change (cs_app (with_store _ cs)) with a. lia.
Qed.
Lemma deleted_steps e cs cs' :
  ledger_ok cs → life_ok (cs_store cs) → app_state (cs_app cs) = Deleted → spec_steps e cs cs' →
  (cs_app cs' = cs_app cs ∧ cs_ops cs' = cs_ops cs)
  ∨ hr_retire e = true ∧ (lifecycle_epoch (cs_app cs) < lifecycle_epoch (cs_app cs'))%Z.
Proof.
  intros Hok Hli Hdel Hs. induction Hs as [|x y z Hxy Hyz IH]; [by left|].
  destruct (deleted_step _ _ _ Hok Hli Hdel Hxy) as [[Ha Ho]|[He Hep]].
  - rewrite <- Ha, <- Ho. apply IH; [by eapply ledger_ok_step|by eapply life_step|congruence].
  - right. split; [done|]. eapply Z.lt_le_trans; [exact Hep|].
    assert (keeps y z) as Hk by (eapply rtc_preorder; [apply keeps_preorder|apply step_keeps|exact Hyz]). apply Hk.
Qed.

Lemma new_ledger_ok st :
  keyed_ops (st_ops st) → live_own st → (∀ id o, st_ops st !! id = Some o → op_app_id o = app_id (st_app st)) →
  ledger_ok (new_compute_store st).
Proof. intros Hk Hl Ha. split; try done; intros ? []; done. Qed.
Lemma store_ok_ledger st : store_ok st → ledger_ok (new_compute_store st).
Proof.
  intros [K O _ _ _ _]. apply new_ledger_ok.
  - intros id o Ho. by destruct (K _ _ Ho).
  - intros id o Ho _ Hl. by apply O.
  - intros id o Ho. by destruct (K _ _ Ho) as (_ & _ & ? & _).
Qed.

(** ** Executors that lost their scope

    A superseded control that had an executor may still be at work.  As long as
    nobody starts stopped compute explicitly, the control the head names waits
    for it. *)
Definition waits_for (cs : ComputeStore) (id : string) (c : ComputeControlRecord) : Prop :=
  ∃ h hid d, cs_intents cs !! cc_scope c = Some h ∧ names h hid ∧ cs_controls cs !! hid = Some d
    ∧ id ∈ cc_interrupted_operations d ∧ cc_lifecycle_id c = ci_lifecycle_id h.
Definition awaited (cs : ComputeStore) : Prop :=
  ∀ id c, cs_controls cs !! id = Some c → cc_state c = CSuperseded → is_Some (cc_executor_id c) →
    waits_for cs id c.

(** No row move ends in that state. *)
Lemma move_not_superseded cs c c' : move cs c c' → cc_state c' ≠ CSuperseded.
Proof.
  intros Hm Hs. destruct Hm as [revision ex Hr Hst He|revision state stage cp code msg Hr Hl Hst Hp Hsm Hph Hsu
    |revision receipt Hr Hl Hle c0 Hdec|revision Hr Hst Hstage Hd|revision cp code msg Hr Hst Hx|revision Hr Hst
    |revision cp Hr Hst Hle]; simpl in *; try done; try by rewrite Hs in *.
  subst state. by destruct Hst.
Qed.

(** A superseded control was one before the step, or lost its scope in it to a
    control that lists it. *)
Lemma superseded_before e cs cs' id c' :
  ledger_ok cs → spec_step e cs cs' → cs_controls cs' !! id = Some c' → cc_state c' = CSuperseded →
  cs_controls cs !! id = Some c' ∨ waits_for cs' id c'.
Proof.
  intros Hok Hstep Hc' Hs.
  destruct Hstep as [id0 d d' Hd Hm|n old h He Had Ha Hsc Hl Hg Hid Hrv Hdes Hops controls Hctl| | | | | | |];
    simpl in *; try (left; congruence).
  - destruct (decide (id = id0)) as [->|]; [|left; rewrite lookup_insert_ne in Hc' by done; congruence].
    rewrite lookup_insert_eq in Hc'. injection Hc' as ->. by apply move_not_superseded in Hm.
  - destruct (decide (id = cc_operation_id n)) as [->|Hne].
    { rewrite lookup_insert_eq in Hc'. injection Hc' as <-.
      destruct (ad_pending _ _ _ Had) as (Hp & _). congruence. }
    rewrite lookup_insert_ne in Hc' by done. pose proof (ad_old _ _ _ Had) as Hold.
    destruct old as [o|]; [|left; congruence]. destruct (cc_terminal (cc_state o)) eqn:Ht; [left; congruence|].
    destruct Hctl as (rev & Hrev & ->). destruct Hold as (Hrow & (h0 & Hh0 & Hn0 & Hlf0) & _ & Hprio).
    destruct (decide (id = cc_operation_id o)) as [->|]; [|left; by rewrite lookup_insert_ne in Hc'].
    rewrite lookup_insert_eq in Hc'. injection Hc' as <-. right.
    destruct (lk_head _ Hok _ _ Hh0) as [_ _ _ Hc0]. destruct (Hc0 _ Hn0) as (o1 & Ho1 & Hs1 & Hl1 & _).
    assert (o1 = o) as -> by congruence. exists h, (cc_operation_id n), n. simpl.
    rewrite Hs1, !lookup_insert_eq. split_and!; try done; [by destruct (Hprio eq_refl)|congruence].
Qed.

(** A head that goes was settled. *)
Lemma head_gone e cs cs' s h :
  spec_step e cs cs' → cs_intents cs !! s = Some h → cs_intents cs' !! s = None →
  validate_settled_head cs h = Ok tt ∧ (hr_retire e = true ∨ ci_lifecycle_id h ≠ app_lifecycle_id (cs_app cs)).
Proof.
  intros Hstep Hh Hn. destruct Hstep as [| | |scope h0 He Hh0 Hsc Hset| | | | |]; simpl in Hn; try congruence.
  - by apply lookup_insert_None in Hn as [? _]; congruence.
  - by apply lookup_insert_None in Hn as [? _]; congruence.
  - apply lookup_delete_None in Hn as [<-|?]; [|congruence]. assert (h0 = h) as -> by congruence. done.
Qed.

Lemma awaited_step e cs cs' :
  ledger_ok cs → awaited cs → hr_start e = false → spec_step e cs cs' → awaited cs'.
Proof.
  intros Hok Haw He Hstep id c Hc' Hs Hex.
  destruct (superseded_before _ _ _ _ _ Hok Hstep Hc' Hs) as [Hc|?]; [|done].
  destruct (Haw _ _ Hc Hs Hex) as (h & hid & d & Hh & Hn & Hd & Hin & Hlf).
  destruct (kp_control _ _ (step_keeps _ _ _ Hstep) _ _ Hd) as (d' & Hd' & [Hi]). unfold cc_identity in Hi.
  destruct (cs_intents cs' !! cc_scope c) as [h'|] eqn:Hh'.
  - destruct (step_head _ _ _ _ _ Hstep Hh') as [Hh1|h1 He1 _ _|n old _ Had Hsn Hcn Hnn _ _ Hln _ _ _]; [|congruence|].
    + assert (h' = h) as -> by congruence. exists h, hid, d'. split_and!; try done.
      assert (cc_interrupted_operations d' = cc_interrupted_operations d) as -> by congruence. done.
    + pose proof (ad_old _ _ _ Had) as Hold. rewrite <- Hsn in Hold. unfold names in *.
      destruct old as [o|]; [|destruct (Hold _ Hh); congruence].
      destruct Hold as (Hrow & (h1 & Hh1 & Hn1 & Hl1) & Hsub & _). assert (h1 = h) as -> by congruence.
      assert (o = d) as -> by congruence. exists h', (cc_operation_id n), n. split_and!; try done; [by apply Hsub|].
      congruence.
  - exfalso. destruct (head_gone _ _ _ _ _ Hstep Hh Hh') as [Hset _].
    destruct (lk_head _ Hok _ _ Hh) as [[Hsc _] [Happ _] _ _].
    destruct (settled_Ok _ _ Hset _ _ Hc) as [[Hse|[Hse _]] _]; try congruence.
    + rewrite Happ. apply (co_app _ _ (lk_control _ Hok _ _ Hc)).
    + by rewrite Hs in Hse.
    + unfold never_claimed in Hse. bools. destruct Hex; congruence.
Qed.

(** ** Runs *)

Section runs.
Context `{CheckpointCodec, CreationCodec, ComputeCodec}.

Lemma cstep_ledger_ok op cs : ledger_ok cs → fresh_id op cs → ledger_ok (cstep op cs).
Proof. intros Hok Hf. eapply ledger_ok_steps; [done|]. by apply cstep_steps; [apply lk_keyed|]. Qed.

Lemma crun_ledger_ok ops cs : ledger_ok cs → fresh_run ops cs → ledger_ok (crun ops cs).
Proof.
  revert cs. induction ops as [|op ops IH]; intros cs Hok Hf; [done|]. destruct Hf as [Hf Hr].
  by apply IH; [apply cstep_ledger_ok|].
Qed.

Lemma cstep_awaited op cs :
  ledger_ok cs → awaited cs → fresh_id op cs → hr_start (rights op) = false → awaited (cstep op cs).
Proof.
  intros Hok Haw Hf He. assert (spec_steps (rights op) cs (cstep op cs)) as Hs
    by (by apply cstep_steps; [apply lk_keyed|]).
  clear Hf. revert Hok Haw. induction Hs as [|cs1 cs2 cs3 Hone _ IH]; [done|]. intros Hok Haw.
  apply IH; [by eapply ledger_ok_step|by eapply awaited_step].
Qed.

Definition no_explicit_start (op : COp) : Prop := hr_start (rights op) = false.

Lemma crun_awaited ops cs :
  ledger_ok cs → awaited cs → fresh_run ops cs → Forall no_explicit_start ops → awaited (crun ops cs).
Proof.
  revert cs. induction ops as [|op ops IH]; intros cs Hok Haw Hf Hns; [done|].
  destruct Hf as [Hf Hr]. apply Forall_cons in Hns as [Hn Hns].
  by apply IH; [apply cstep_ledger_ok|apply cstep_awaited|..].
Qed.

Lemma cstep_keeps op cs : ledger_ok cs → fresh_id op cs → keeps cs (cstep op cs).
Proof.
  intros Hok Hf. assert (spec_steps (rights op) cs (cstep op cs)) as Hs by (by apply cstep_steps; [apply lk_keyed|]).
  eapply rtc_preorder; [apply keeps_preorder|apply step_keeps|exact Hs].
Qed.

Lemma crun_keeps ops cs : ledger_ok cs → fresh_run ops cs → keeps cs (crun ops cs).
Proof.
  revert cs. induction ops as [|op ops IH]; intros cs Hok Hf; [apply keeps_refl|]. destruct Hf as [Hf Hr].
  etrans; [by apply cstep_keeps|by apply IH; [apply cstep_ledger_ok|]].
Qed.
End runs.
