(* ===== verification/ComputePolicy.v ===== *)
(** * Policies and evidence of compute control

    What the checks on progress reports and on stop checkpoints accept, as
    reference definitions. *)
From S2P Require Import Prelude Lifecycle Evidence OperationLease ComputeControl.
From S2P Require Import ComputeStore ComputeAdmission ComputeExecution ComputeRecovery ComputeSpec.
Local Open Scope rust_scope.

(** The reports an executor may make, as an automaton: the stage stays or makes
    its next step, and the state says what the diagnostics must be. *)
Definition policy_accepts (action : ComputeControlAction) (current : option ComputeControlStage)
    (state : ComputeControlState) (next : ComputeControlStage) (code message : ComputeDiagnosticValue)
    (lease : bool) : bool :=
  match current with
  | None => false
  | Some s =>
      (bool_decide (s = next) || bool_decide (next_stage action s = Some next))
      && (match action, next with CStop, (Starting | Verifying) => false | _, _ => true end)
      && match state, code, message with
         | CRunning, DiagAbsent, DiagAbsent => negb (bool_decide (next = Completed))
         | CRecoveryRequired, DiagNonEmpty, DiagNonEmpty => negb (bool_decide (next = Completed))
         | CSucceeded, DiagAbsent, DiagAbsent => bool_decide (next = Completed)
         | CFailed, DiagNonEmpty, DiagNonEmpty =>
             negb (bool_decide (next = Completed)) && bool_decide (s = DrainingPrevious) && negb lease
         | _, _, _ => false
         end
  end.

(** The checks on a progress report accept exactly what the stage automaton
    of the action allows; a stop never starts anything, and a failure is final
    only before anything was touched. *)
Theorem progress_policy_is_automaton action current state next code message lease :
  validate_compute_progress_transition action current state next code message lease = Ok tt
  ↔ policy_accepts action current state next code message lease = true.
Proof.
  destruct action, current as [[]|], next; try done; destruct state; try done; destruct code, message; try done; by destruct lease.
Qed.

(** a stop checkpoint is read if and only if it describes exactly one
    physical target, and one that its scope can have. *)
Theorem stop_observation_has_one_target `{ComputeCodec} checkpoint scope obs :
  stop_observation_from_checkpoint checkpoint scope = Ok obs
  ↔ ∃ shape, decode_stop_shape checkpoint = Some shape
    ∧ match obs with
      | ObsAbsent c => sh_compute_absent shape = Some true ∧ sh_orphan_pod shape = None
          ∧ sh_workload shape = None ∧ sh_pod shape = None ∧ sh_resource shape = None
          ∧ scope ≠ Application ∧ decode_absence checkpoint = Some c
      | ObsOrphan t => sh_compute_absent shape ≠ Some true ∧ is_Some (sh_orphan_pod shape)
          ∧ sh_workload shape = None ∧ sh_pod shape = None ∧ sh_resource shape = None
          ∧ scope = Dev ∧ decode_orphan checkpoint = Some t
      | ObsBuilder t => sh_compute_absent shape ≠ Some true ∧ sh_orphan_pod shape = None
          ∧ (is_Some (sh_workload shape) ∨ is_Some (sh_pod shape)) ∧ sh_resource shape = None
          ∧ scope = Dev ∧ observe_builder_target checkpoint = Some t
      | ObsApplication t => sh_compute_absent shape ≠ Some true ∧ sh_orphan_pod shape = None
          ∧ sh_workload shape = None ∧ sh_pod shape = None ∧ is_Some (sh_resource shape)
          ∧ scope = Prod ∧ decode_mutation_target checkpoint = Some t
      end.
Proof.
  unfold stop_observation_from_checkpoint. destruct (decode_stop_shape checkpoint) as [shape|]; simpl; [|naive_solver].
  split.
  - intros H'. exists shape. split; [done|].
    destruct shape as [[[]|] [orphan|] [wl|] [pod|] [res|]]; simpl in *; try done;
      destruct scope; simpl in *; try done; unbind H'; injection H' as <-; split_and!; try done; eauto.
  - intros (shape' & [= <-] & Hobs).
    destruct shape as [[[]|] [orphan|] [wl|] [pod|] [res|]], obs; simpl in *;
      destruct scope; simpl; try naive_solver;
      repeat match goal with H : _ ∧ _ |- _ => destruct H | H : _ ∨ _ |- _ => destruct H
             | H : is_Some None |- _ => by destruct H | H : decode_absence _ = _ |- _ => rewrite H
             | H : decode_orphan _ = _ |- _ => rewrite H | H : observe_builder_target _ = _ |- _ => rewrite H
             | H : decode_mutation_target _ = _ |- _ => rewrite H end; try done.
Qed.
