(* ===== verification/ComputeSamples.v ===== *)
(** * Stops and restarts of the sample application

    Requests, executors, reports and runs on which the theorems on compute
    control are evaluated.  The codec reads a production target and a stop shape
    from the presence of a field; what no sample uses decodes to nothing. *)
From S2P Require Import Prelude Validation Lifecycle Evidence LifecycleDomain LifecycleStore.
From S2P Require Import LifecycleSafety LifecycleSamples OperationLease ComputeControl ComputeStore ComputeAdmission.
From S2P Require Import ComputeExecution ComputeRecovery ComputeSpec ComputeBusiness ComputeInv.
Local Open Scope rust_scope.

Definition sample_control_context (op executor : string) : UserAppExecutionContext :=
  {| ctx_app_id := "app"; ctx_lifecycle_id := "life-1"; ctx_operation_id := op;
     ctx_executor_id := executor; ctx_request_fingerprint := sample_fingerprint |}.
Definition sample_container : AppResourceIdentity :=
  {| res_kind := Container; res_name := "web"; res_uid := "uid-1"; res_version := None |}.

(** The checkpoint of a stop: the container it is about. *)
Definition sample_target_json : Json := JObj [("resource", JStr "web")].

Definition sample_compute_codec : ComputeCodec :=
  {| decode_builder_target := λ _, None;
     observe_builder_target := λ _, None;
     decode_mutation_target := λ j, (λ _, {| mt_context := sample_control_context "ctl-1" "exec-1";
                                             mt_resource := sample_container |}) <$> json_get "resource" j;
     decode_start_target := λ _, None;
     decode_resources := λ _, None;
     decode_restart_template := λ _, None;
     decode_app_restart_template := λ _, None;
     decode_drain_evidence := λ _, None;
     decode_stop_shape := λ j,
       Some {| sh_compute_absent := (λ _, true) <$> json_get "absent" j; sh_orphan_pod := None;
               sh_workload := None; sh_pod := None;
               sh_resource := (λ _, sample_container) <$> json_get "resource" j |};
     decode_absence := λ j, (λ _, {| abs_context := sample_control_context "ctl-1" "exec-1";
                                     abs_compute_absent := true |}) <$> json_get "absent" j;
     decode_orphan := λ _, None;
     encode_builder_target := λ _, [];
     encode_resource := λ _, JNull;
     encode_restart_template := λ _, JNull;
     encode_stop_recovery := λ _, JNull;
     encode_stop_confirmation := λ _, JNull;
     encode_drain_evidence := λ _, JNull |}.
Definition sample_creation_codec : CreationCodec := {| decode_creation := λ _, None |}.

#[local] Existing Instances sample_codec sample_creation_codec sample_compute_codec.

(** ** Calls *)

Definition sample_control (op request : string) (action : ComputeControlAction) : ComputeControlRequest :=
  {| ccq_app_id := "app"; ccq_lifecycle_id := "life-1"; ccq_scope := Prod; ccq_operation_id := op;
     ccq_request_id := request; ccq_request_fingerprint := sample_fingerprint; ccq_action := action;
     ccq_restart_image_roll := false; ccq_builder_startup_mode := PreserveBusinessIntent |}.
Definition sample_executor (op : string) (generation : Z) (executor : string) : ComputeExecutorIdentity :=
  {| cei_app_id := "app"; cei_lifecycle_id := "life-1"; cei_scope := Prod; cei_operation_id := op;
     cei_generation := generation; cei_executor_id := executor |}.
Definition sample_lease (token : string) : UserAppOperationLeaseReceipt := DockerLease Userapp 1 2 token.
Definition sample_report (identity : ComputeExecutorIdentity) (revision : Z) (state : ComputeControlState)
    (stage : ComputeControlStage) : ComputeControlProgress :=
  {| ccp_identity := identity; ccp_expected_revision := revision; ccp_state := state;
     ccp_stage := stage; ccp_checkpoint := sample_target_json; ccp_error_code := None;
     ccp_error_message := None |}.

(** The control [op] as it is in the store; some record else. *)
Definition sample_row (op : string) (cs : ComputeStore) : ComputeControlRecord :=
  default (Compute.admitted_control (sample_control op "none" CStop) 1 [] 0) (cs_controls cs !! op).

(** A restart that has begun to stop the container. *)
Definition sample_restart_calls : list COp :=
  [CAdmit (sample_control "ctl-1" "req-1" CRestart) false 1;
   CClaim (sample_executor "ctl-1" 1 "exec-1") 1 (λ _, None);
   CBind (sample_executor "ctl-1" 1 "exec-1") (sample_lease "token-1");
   CAdvance (sample_report (sample_executor "ctl-1" 1 "exec-1") 3 CRunning Stopping)].

Definition sample_fresh : ComputeStore := new_compute_store (new_store sample_app).
Definition sample_run (ops : list COp) : ComputeStore := crun ops sample_fresh.

Definition sample_restarting : ComputeStore := sample_run sample_restart_calls.

(** An operation that a restart interrupts before it is claimed. *)
Definition sample_interrupt_calls : list COp :=
  [BAdmit (sample_admission "op-1" Start (Some (CmdStart false))) None 7;
   CAdmit (sample_control "ctl-1" "req-1" CRestart) false 8].

(** A stop takes the scope from the restart, is claimed and runs out of time
    while the restart's executor has not reported back. *)
Definition sample_takeover_calls : list COp :=
  sample_restart_calls ++
  [CAdmit (sample_control "ctl-2" "req-2" CStop) false 2;
   CClaim (sample_executor "ctl-2" 2 "exec-2") 1 (λ _, None)].
Definition sample_taken : ComputeStore := sample_run sample_takeover_calls.
Definition sample_deadline_calls : list COp :=
  [CBindDeadline (sample_row "ctl-2" sample_taken) 1000;
   CMarkUnheld (sample_row "ctl-2" sample_taken) 900].
Definition sample_expire : COp :=
  CExpire (sample_row "ctl-2" sample_taken) "ERR_DEADLINE" "deadline" 900 1000.

(** Then somebody starts the compute explicitly, and asks for a restart. *)
Definition sample_forgotten_calls : list COp :=
  sample_takeover_calls ++ sample_deadline_calls ++
  [sample_expire; CAccess "app" Prod true;
   CAdmit (sample_control "ctl-3" "req-3" CRestart) false 3;
   CClaim (sample_executor "ctl-3" 3 "exec-3") 1 (λ _, None);
   CBind (sample_executor "ctl-3" 3 "exec-3") (sample_lease "token-3");
   CAdvance (sample_report (sample_executor "ctl-3" 3 "exec-3") 3 CRunning Stopping)].

(** ** Evaluation *)

#[global] Instance fresh_id_dec op cs : Decision (fresh_id op cs).
Proof. destruct op; apply _. Defined.
#[global] Instance fresh_run_dec ops cs : Decision (fresh_run ops cs).
Proof. revert cs. induction ops as [|op ops IH]; intros cs; simpl; apply _. Defined.

Lemma sample_store_ok : store_ok (new_store sample_app).
Proof. apply (new_store_ok "life-1" 0 "app"). apply sample_identity_ok. Qed.

Lemma sample_runs : fresh_run sample_forgotten_calls sample_fresh.
Proof. refine (bool_decide_eq_true_1 _ _). by vm_compute. Qed.
Lemma sample_interrupt_runs : fresh_run sample_interrupt_calls sample_fresh.
Proof. refine (bool_decide_eq_true_1 _ _). by vm_compute. Qed.

(** What the samples show of a control. *)
Definition sample_view (op : string) (cs : ComputeStore)
    : option (ComputeControlState * string * option string * list string) :=
  (λ c, (cc_state c, cc_stage c, cc_executor_id c, cc_interrupted_operations c)) <$> cs_controls cs !! op.

Lemma sample_row_found op cs v : sample_view op cs = Some v → cs_controls cs !! op = Some (sample_row op cs).
Proof. unfold sample_view, sample_row. by destruct (cs_controls cs !! op). Qed.
