(* ===== verification/ComputeTheorems.v ===== *)
(** * Theorems on compute control

    What the refinement and the invariant say of the calls the code makes. *)
From S2P Require Import Prelude Validation Lifecycle Evidence LifecycleDomain LifecycleStore.
From S2P Require Import LifecycleSafety LifecycleSamples OperationLease ComputeControl ComputeStore.
From S2P Require Import ComputeAdmission ComputeExecution ComputeRecovery ComputeSpec ComputeRefine.
From S2P Require Import ComputeBusiness ComputeMono ComputeInv ComputeSamples.
Local Open Scope rust_scope.

Lemma new_awaited st : awaited (new_compute_store st).
Proof. intros id c Hc. done. Qed.

Section theorems.
Context `{CheckpointCodec, CreationCodec, ComputeCodec}.

Lemma run_ledger_ok ops st :
  store_ok st → fresh_run ops (new_compute_store st) → ledger_ok (crun ops (new_compute_store st)).
Proof. intros Hst Hf. apply crun_ledger_ok; [by apply store_ok_ledger|done]. Qed.

Lemma crun_app ops more cs : crun (ops ++ more) cs = crun more (crun ops cs).
Proof. unfold crun. apply foldl_app. Qed.
Lemma fresh_run_app ops more cs :
  fresh_run (ops ++ more) cs ↔ fresh_run ops cs ∧ fresh_run more (crun ops cs).
Proof.
  revert cs. induction ops as [|op ops IH]; intros cs; [naive_solver|]. simpl. rewrite IH. naive_solver.
Qed.

(** C1: every call of the compute and business transactions, failed ones
    included, is a sequence of steps of the abstract ledger, within the rights
    its caller has over heads. *)
Theorem calls_refine_ledger op cs :
  keyed cs → fresh_id op cs → spec_steps (rights op) cs (cstep op cs).
Proof. apply cstep_steps. Qed.

(** C2: in every history a scope has at most one live control, of the current
    lifecycle, and the scope's head names it at its generation. *)
Theorem one_live_control_per_scope ops st :
  store_ok st → fresh_run ops (new_compute_store st) →
  let cs := crun ops (new_compute_store st) in
  (∀ id c, cs_controls cs !! id = Some c → cc_terminal (cc_state c) = false →
     cc_lifecycle_id c = app_lifecycle_id (cs_app cs)
     ∧ ∃ h, cs_intents cs !! cc_scope c = Some h ∧ names h id ∧ ci_generation h = cc_generation c)
  ∧ ∀ id c id' c', cs_controls cs !! id = Some c → cs_controls cs !! id' = Some c' →
      cc_terminal (cc_state c) = false → cc_terminal (cc_state c') = false →
      cc_scope c = cc_scope c' → id = id'.
Proof.
  intros Hst Hf cs. pose proof (run_ledger_ok _ _ Hst Hf) as Hok. fold cs in Hok. split.
  - intros id c Hc Hl. destruct (lk_live _ Hok _ _ Hc Hl) as (h & Hh & Hn).
    destruct (lk_head _ Hok _ _ Hh) as [_ [_ Hlf] _ Hhc]. destruct (Hhc _ Hn) as (c1 & Hc1 & _ & Hl1 & Hg1).
    assert (c1 = c) as -> by congruence. split; [congruence|]. exists h. naive_solver.
  - intros id c id' c' Hc Hc' Hl Hl' Hs. destruct (lk_live _ Hok _ _ Hc Hl) as (h & Hh & Hn).
    destruct (lk_live _ Hok _ _ Hc' Hl') as (h' & Hh' & Hn'). unfold names in *. congruence.
Qed.

(** What a live control that touches containers excludes. *)
Lemma physical_excludes cs id c :
  ledger_ok cs → cs_controls cs !! id = Some c → cc_terminal (cc_state c) = false →
  physical (cc_stage c) = true →
  is_Some (cc_lease c)
  ∧ (∀ oid o, cs_ops cs !! oid = Some o → touches o (cc_scope c) → op_is_terminal (op_state o) = true)
  ∧ (∀ oid o, cs_ops cs !! oid = Some o → oid ∈ cc_interrupted_operations c → cs_leases cs !! oid = None).
Proof using Type.
  intros Hok Hc Hl Hp. destruct (co_physical _ _ (lk_control _ Hok _ _ Hc) Hp) as [Hd Hle].
  apply drained_spec in Hd. rewrite Forall_forall in Hd.
  assert (∀ oid o, cs_ops cs !! oid = Some o → oid ∈ cc_interrupted_operations c →
    op_is_terminal (op_state o) = true ∧ cs_leases cs !! oid = None) as Hdr.
  { intros oid o Ho Hin. destruct (Hd _ Hin) as [(o1 & Hf & _ & Ht & Hn)|[Hf _]].
    - apply find_operation_some in Hf as [Hf _]. assert (o1 = o) as -> by congruence. done.
    - unfold find_operation in Hf. rewrite Ho, (lk_app _ Hok _ _ Ho) in Hf.
      rewrite (co_app _ _ (lk_control _ Hok _ _ Hc)), bool_decide_eq_true_2 in Hf by done. done. }
  split_and!.
  - apply Hle. by destruct (cc_state c).
  - intros oid o Ho Ht. destruct (op_is_terminal (op_state o)) eqn:Hlo; [done|].
    pose proof (lk_interrupted _ Hok _ _ _ _ Hc Hl Ho Hlo Ht) as Hin. destruct (Hdr _ _ Ho Hin). congruence.
  - intros oid o Ho Hin. by destruct (Hdr _ _ Ho Hin).
Qed.

(** C3: as long as nobody starts stopped compute explicitly, a control that
    touches containers is alone in its scope: it holds a lease, every other
    control of the scope is over and none is a superseded one whose executor
    may still work, no business operation of the scope or of the whole
    application is live, and what it interrupted holds no lease. *)
Theorem physical_work_is_exclusive ops st :
  store_ok st → fresh_run ops (new_compute_store st) → Forall no_explicit_start ops →
  let cs := crun ops (new_compute_store st) in
  ∀ id c, cs_controls cs !! id = Some c → cc_terminal (cc_state c) = false →
    physical (cc_stage c) = true →
    is_Some (cc_lease c)
    ∧ (∀ id' d, cs_controls cs !! id' = Some d → cc_scope d = cc_scope c → id' ≠ id →
         cc_terminal (cc_state d) = true ∧ (cc_state d = CSuperseded → cc_executor_id d = None))
    ∧ (∀ oid o, cs_ops cs !! oid = Some o → touches o (cc_scope c) → op_is_terminal (op_state o) = true)
    ∧ (∀ oid o, cs_ops cs !! oid = Some o → oid ∈ cc_interrupted_operations c → cs_leases cs !! oid = None).
Proof.
  intros Hst Hf Hns cs id c Hc Hl Hp. pose proof (run_ledger_ok _ _ Hst Hf) as Hok. fold cs in Hok.
  assert (awaited cs) as Haw by (apply crun_awaited; auto using store_ok_ledger, new_awaited).
  destruct (physical_excludes _ _ _ Hok Hc Hl Hp) as (Hle & Hops & Hlea). split_and!; [done| |done|done].
  destruct (lk_live _ Hok _ _ Hc Hl) as (h & Hh & Hn). intros id' d Hd Hs Hne. split.
  - destruct (cc_terminal (cc_state d)) eqn:Hld; [done|].
    destruct (lk_live _ Hok _ _ Hd Hld) as (h' & Hh' & Hn'). unfold names in *. congruence.
  - intros Hsu. destruct (cc_executor_id d) as [ex|] eqn:Hex; [|done]. exfalso.
    destruct (Haw _ _ Hd Hsu ltac:(by rewrite Hex)) as (h' & hid & c' & Hh' & Hn' & Hc' & Hin & _).
    unfold names in *. assert (h' = h) as -> by congruence. assert (hid = id) as -> by congruence.
    assert (c' = c) as -> by congruence.
    destruct (co_physical _ _ (lk_control _ Hok _ _ Hc) Hp) as [Hdr _].
    apply drained_spec in Hdr. rewrite Forall_forall in Hdr.
    destruct (Hdr _ Hin) as [(o & Ho & _)|(_ & d' & Hd' & _ & _ & _ & _ & Hend)].
    + apply find_operation_some in Ho as [Ho _].
      rewrite (lk_apart _ Hok id') in Ho; [done|by rewrite Hd].
    + assert (d' = d) as -> by congruence. rewrite Hsu in Hend. destruct Hend as [?|Hend]; [done|].
      unfold never_claimed in Hend. bools. congruence.
Qed.

(** C13: while a control is live, no business operation is accepted in its scope
    or for the whole application. *)
Theorem live_control_blocks_business ops st request digest now o cs' :
  store_ok st → fresh_run ops (new_compute_store st) →
  let cs := crun ops (new_compute_store st) in
  business_admit request digest now cs = Ok (AdmAccepted o, cs') →
  ∀ id c, cs_controls cs !! id = Some c → cc_terminal (cc_state c) = false → ¬ touches o (cc_scope c).
Proof.
  intros Hst Hf cs Hadm id c Hc Hl Ht. pose proof (run_ledger_ok _ _ Hst Hf) as Hok. fold cs in Hok.
  unfold business_admit in Hadm. peel Hadm as t Htx. destruct t as [out st']. injection Hadm as -> <-.
  pose proof (admit_tx_spec _ _ _ _ _ _ _ Htx) as [(records & _ & Hacc) _ _ _ _ _].
  apply admit_guard in Htx. rewrite <- (af_scope _ _ _ _ _ Hacc) in Htx.
  by eapply guard_not_live in Htx.
Qed.

(** C14: whatever is called later, a control keeps its identity and its row only
    moves forward: an end is final, a superseded control can only be drained,
    and a stop is never superseded. *)
Theorem controls_only_go_forward ops more st :
  store_ok st → fresh_run (ops ++ more) (new_compute_store st) →
  ∀ id c, cs_controls (crun ops (new_compute_store st)) !! id = Some c →
  ∃ c', cs_controls (crun (ops ++ more) (new_compute_store st)) !! id = Some c'
    ∧ cc_identity c' = cc_identity c
    ∧ (c' = c ∨ (cc_revision c < cc_revision c')%Z)
    ∧ (ended (cc_state c) = true → cc_state c' = cc_state c ∧ cc_stage c' = cc_stage c
       ∧ (cc_lease c = None → cc_lease c' = None))
    ∧ (cc_state c = CSuperseded → cc_state c' = CSuperseded ∨ cc_state c' = CFailed)
    ∧ (cc_action c = CStop → cc_state c' ≠ CSuperseded).
Proof.
  intros Hst Hf id c Hc. pose proof (run_ledger_ok _ _ Hst Hf) as Hok'.
  apply fresh_run_app in Hf as [Hf Hm]. rewrite crun_app in *.
  pose proof (crun_keeps _ _ (run_ledger_ok _ _ Hst Hf) Hm) as Hk.
  destruct (kp_control _ _ Hk _ _ Hc) as (c' & Hc' & [Hi Hr He Hs _]). exists c'.
  split_and!; auto. intros Ha Hsu. pose proof (co_superseded _ _ (lk_control _ Hok' _ _ Hc') Hsu) as Hx.
  unfold cc_identity in Hi. congruence.
Qed.

(** C15: the first deadline recorded for a control is the one it expires by,
    whatever is called in between; and only a control that an executor has
    claimed, exactly as observed and under the recorded anchor, expires. *)
Theorem expiry_honours_first_deadline ops more st snapshot code message expected now c cs' row :
  store_ok st → fresh_run (ops ++ more) (new_compute_store st) →
  cs_deadlines (crun ops (new_compute_store st)) !! cc_operation_id snapshot = Some row →
  let cs := crun (ops ++ more) (new_compute_store st) in
  Recovery.expire snapshot code message expected now cs = Ok (c, cs') →
  (cd_deadline_ms row ≤ now)%Z
  ∧ cs_controls cs !! cc_operation_id snapshot = Some snapshot
  ∧ Execution.live_claimed (cc_state snapshot) = true
  ∧ (∃ row', cs_deadlines cs !! cc_operation_id snapshot = Some row'
       ∧ cd_unheld_observed_ms row' = Some expected)
  ∧ c = Recovery.with_error CFailed (Some code) (Some message) (cc_revision snapshot + 1) snapshot
  ∧ cs_controls cs' = <[cc_operation_id snapshot := c]> (cs_controls cs).
Proof.
  intros Hst Hf Hrow cs Hex. apply fresh_run_app in Hf as [Hf Hm].
  pose proof (crun_keeps _ _ (run_ledger_ok _ _ Hst Hf) Hm) as Hk. rewrite <- crun_app in Hk. fold cs in Hk.
  destruct (kp_deadline _ _ Hk _ _ Hrow) as (row' & Hrow' & _ & _ & Hdl).
  unfold Recovery.expire in Hex. peel Hex as found Hget. peel Hex as actual Ha. subst found.
  apply get_Some in Hget as (Hctl & _). peel Hex as Hsame. bools. subst actual.
  peel Hex as Hdead. peel Hex as Hanchor. unfold Recovery.read_deadline in Hdead.
  rewrite Hrow' in Hdead, Hanchor. case_bool_decide; [|done]. bools.
  unfold Recovery.update_row in Hex. peel Hex as cs1 Hu. apply reread_Ok in Hex as (-> & Hrr & _).
  apply update_control_Ok in Hu as (c0 & c' & Hc0 & Hg & Hset & ->). assert (c0 = snapshot) as -> by congruence.
  cbv beta in *. peel Hset as rev Hrev. apply sql_succ_Ok in Hrev as ->. injection Hset as <-. bools.
  simpl in Hrr. rewrite lookup_insert_eq in Hrr. injection Hrr as <-. split_and!; try done; [lia|eauto].
Qed.

(** A manual stop lasts: after any call but an explicit start, the admission
    of a restart and the recreation of the application, a scope that was to be
    stopped still is. *)
Theorem stopped_until_started ops st op s h :
  store_ok st → fresh_run (ops ++ [op]) (new_compute_store st) →
  hr_start (rights op) = false → hr_point (rights op) ≠ Some CRestart → hr_retire (rights op) = false →
  cs_intents (crun ops (new_compute_store st)) !! s = Some h → ci_desired_state h = "stopped" →
  ∃ h', cs_intents (crun (ops ++ [op]) (new_compute_store st)) !! s = Some h'
    ∧ ci_desired_state h' = "stopped".
Proof.
  intros Hst Hf Hs Hp Hr Hh Hd. apply fresh_run_app in Hf as [Hf [Hop _]]. rewrite crun_app.
  pose proof (run_ledger_ok _ _ Hst Hf) as Hok. set (cs := crun ops _) in *. simpl.
  assert (spec_steps (rights op) cs (cstep op cs)) as Hsteps by (by apply cstep_steps; [apply lk_keyed|]).
  clear Hop Hf. clearbody cs. revert h Hh Hd. induction Hsteps as [|cs1 cs2 cs3 Hone _ IH]; [eauto|]. intros h Hh Hd.
  destruct (cs_intents cs2 !! s) as [h'|] eqn:Hh'.
  - apply (IH (ledger_ok_step _ _ _ Hok Hone) h' eq_refl).
    destruct (step_head _ _ _ _ _ Hone Hh') as [Hsame|? He _ _|c old He _ _ _ _ _ _ _ _ _ ->]; [congruence..|].
    by destruct (cc_action c).
  - exfalso. destruct (head_gone _ _ _ _ _ Hone Hh Hh') as [_ [?|Hne]]; [congruence|].
    by destruct (lk_head _ Hok _ _ Hh) as [_ [_ ?] _ _].
Qed.

(** ** Admission *)

(** The control a committed admission answers with. *)
Lemma admit_answer request idle_only now cs c cs' :
  keyed cs → Compute.admit_control request idle_only now cs = Ok (c, cs') →
  cs_controls cs' !! cc_operation_id c = Some c
  ∧ (cc_app_id c = ccq_app_id request ∧ cc_scope c = ccq_scope request
     ∧ cc_request_id c = ccq_request_id request) ∧ Compute.same_input c request = true.
Proof using Type.
  intros Hk. unfold Compute.admit_control. intros H'. unbind H'. unbind H'. unbind H'. unbind H'.
  destruct (Compute.find_replay (cs_controls cs) request) as [r|] eqn:Hr.
  - peel H' as Hsame. peel H' as d Hd. injection H' as <- <-. apply decode_Ok in Hd as [-> _].
    unfold Compute.find_replay in Hr. apply head_Some_elem_of, list_elem_of_filter in Hr as [Hids Hin].
    apply elem_of_controls in Hin as [id Hid]. by rewrite (Hk _ _ Hid).
  - unfold Compute.admit_new in H'. do 3 unbind H'. peel H' as t Ht. destruct t as [head cs1].
    unbind H'. peel H' as t Ht'. destruct t as [inherited supersedes]. peel H' as g Hg. unbind H'.
    peel H' as cs2 Hsup. peel H' as cs3 Hins. peel H' as cs4 Hpt. peel H' as found Hget.
    peel H' as c0 Hc0. subst found. injection H' as <- <-.
    apply insert_control_Ok in Hins as [_ ->]. apply point_head_Ok in Hpt as ->.
    apply get_Some in Hget as (Hrow & _). simpl in Hrow. rewrite lookup_insert_eq in Hrow.
    injection Hrow as <-. simpl. rewrite lookup_insert_eq. split_and!; try done.
    unfold Compute.same_input. simpl. by rewrite !bool_decide_eq_true_2.
Qed.

(** A request that has its control finds it again. *)
Lemma find_replay_again cs request id c :
  ledger_ok cs → cs_controls cs !! id = Some c →
  cc_app_id c = ccq_app_id request ∧ cc_scope c = ccq_scope request ∧ cc_request_id c = ccq_request_id request →
  Compute.find_replay (cs_controls cs) request = Some c.
Proof using Type.
  intros Hok Hc Hids. unfold Compute.find_replay.
  set (l := filter _ _). assert (c ∈ l) as Hin.
  { apply list_elem_of_filter. split; [done|]. apply elem_of_controls. eauto. }
  assert (∀ x, x ∈ l → x = c) as Hall.
  { intros x [Hx Hx']%list_elem_of_filter. apply elem_of_controls in Hx' as [id' Hx'].
    assert (id' = id) as ->; [|congruence].
    eapply (lk_unique _ Hok); [done|done|naive_solver congruence|left; naive_solver congruence]. }
  destruct l as [|x l]; [set_solver|]. simpl. f_equal. apply Hall. set_solver.
Qed.

(** an admission can be repeated: whatever has been called since, the same
    request of the same lifecycle answers with the control it was given and
    changes nothing. *)
Theorem admission_replays ops more st request idle_only now now' c :
  store_ok st →
  let first := ops ++ [CAdmit request idle_only now] in
  fresh_run (first ++ more) (new_compute_store st) →
  (∃ cs1, Compute.admit_control request idle_only now (crun ops (new_compute_store st)) = Ok (c, cs1)) →
  let cs := crun (first ++ more) (new_compute_store st) in
  app_state (cs_app cs) = Active → app_lifecycle_id (cs_app cs) = ccq_lifecycle_id request →
  ∃ c', Compute.admit_control request idle_only now' cs = Ok (c', cs)
    ∧ cs_controls cs !! cc_operation_id c = Some c' ∧ cc_identity c' = cc_identity c.
Proof.
  intros Hst first Hf [cs1 Hadm] cs Hact Hlf. pose proof (run_ledger_ok _ _ Hst Hf) as Hok. fold cs in Hok.
  apply fresh_run_app in Hf as [Hf Hm]. pose proof (run_ledger_ok _ _ Hst Hf) as Hok1.
  apply fresh_run_app in Hf as [Hf _]. pose proof (run_ledger_ok _ _ Hst Hf) as Hok0.
  assert (crun first (new_compute_store st) = cs1) as Hcs1.
  { unfold first. rewrite crun_app. simpl. unfold after. by rewrite Hadm. }
  rewrite Hcs1 in *. pose proof (crun_keeps _ _ Hok1 Hm) as Hk.
  assert (crun more cs1 = cs) as Hcs by (unfold cs; by rewrite crun_app, Hcs1). rewrite Hcs in Hk.
  destruct (admit_answer _ _ _ _ _ _ (lk_keyed _ Hok0) Hadm) as (Hrow & Hids & Hin).
  destruct (kp_control _ _ Hk _ _ Hrow) as (c' & Hc' & [Hi]). exists c'. split_and!; [|done|done].
  assert (cc_app_id c' = ccq_app_id request ∧ cc_scope c' = ccq_scope request
          ∧ cc_request_id c' = ccq_request_id request ∧ Compute.same_input c' request = true) as (Ha' & Hs' & Hr' & Hin').
  { unfold cc_identity in Hi. unfold Compute.same_input in *.
    assert (cc_lifecycle_id c' = cc_lifecycle_id c ∧ cc_request_fingerprint c' = cc_request_fingerprint c
            ∧ cc_action c' = cc_action c) as (-> & -> & ->) by (split_and!; congruence).
    split_and!; naive_solver congruence. }
  unfold Compute.admit_control in Hadm |- *. peel Hadm as u Hchk. rewrite Hchk. simpl.
  unfold find_app. rewrite bool_decide_eq_true_2. 2: { rewrite <- Ha'. symmetry. apply (lk_control _ Hok _ _ Hc'). }
  simpl. unfold validate_active, ensure. rewrite Hact, Hlf, !bool_decide_eq_true_2 by done. simpl.
  rewrite (find_replay_again _ _ _ _ Hok Hc') by done. rewrite Hin'. simpl.
  by rewrite (co_decodes _ _ (lk_control _ Hok _ _ Hc')).
Qed.
End theorems.

(** ** Evaluated *)

#[local] Existing Instances sample_codec sample_creation_codec sample_compute_codec.

(** clearing a stop that failed loses an executor.  A restart is taken over
    by a stop, the stop expires before the restart's executor has reported back,
    and an explicit start clears the head: the next restart is admitted without
    the first one in its list and touches containers while the first one's
    executor still may. *)
Theorem explicit_start_forgets_executor :
  let cs := sample_run sample_forgotten_calls in
  store_ok (new_store sample_app) ∧ fresh_run sample_forgotten_calls sample_fresh
  ∧ (∃ c, cs_controls cs !! "ctl-1" = Some c ∧ cc_scope c = Prod ∧ cc_state c = CSuperseded
       ∧ cc_executor_id c = Some "exec-1" ∧ physical (cc_stage c) = true ∧ is_Some (cc_lease c))
  ∧ ∃ c, cs_controls cs !! "ctl-3" = Some c ∧ cc_scope c = Prod ∧ cc_state c = CRunning
      ∧ physical (cc_stage c) = true ∧ cc_interrupted_operations c = [].
Proof.
  intros cs. split_and!; [apply sample_store_ok|apply sample_runs| |].
  - exists (sample_row "ctl-1" cs). split; [|refine (bool_decide_eq_true_1 _ _); by vm_compute].
    eapply sample_row_found. vm_compute. reflexivity.
  - exists (sample_row "ctl-3" cs). split; [|refine (bool_decide_eq_true_1 _ _); by vm_compute].
    eapply sample_row_found. vm_compute. reflexivity.
Qed.

(** The runs below are parts of the one above. *)
Lemma sample_takeover_runs : fresh_run sample_takeover_calls sample_fresh.
Proof. pose proof sample_runs as Hr. by apply fresh_run_app in Hr as [? _]. Qed.
Lemma sample_restart_runs : fresh_run sample_restart_calls sample_fresh.
Proof. pose proof sample_takeover_runs as Hr. by apply fresh_run_app in Hr as [? _]. Qed.
Lemma sample_expire_runs : fresh_run (sample_takeover_calls ++ sample_deadline_calls ++ [sample_expire]) sample_fresh.
Proof. refine (bool_decide_eq_true_1 _ _). by vm_compute. Qed.

Definition sample_stop_request : COp := CAdmit (sample_control "ctl-2" "req-2" CStop) false 2.

Lemma calls_refine_ledger_witness :
  fresh_id sample_stop_request sample_restarting
  ∧ spec_steps (rights sample_stop_request) sample_restarting (cstep sample_stop_request sample_restarting).
Proof.
  assert (fresh_id sample_stop_request sample_restarting) as Hf by (refine (bool_decide_eq_true_1 _ _); by vm_compute).
  split; [exact Hf|]. apply (calls_refine_ledger sample_stop_request sample_restarting); [|exact Hf].
  apply lk_keyed, (run_ledger_ok sample_restart_calls); [apply sample_store_ok|apply sample_restart_runs].
Defined.

Lemma one_live_control_per_scope_witness :
  cc_state (sample_row "ctl-1" sample_restarting) = CRunning
  ∧ ∃ h, cs_intents sample_restarting !! Prod = Some h ∧ names h "ctl-1" ∧ ci_generation h = 1%Z.
Proof.
  split; [refine (bool_decide_eq_true_1 _ _); by vm_compute|].
  apply (proj1 (one_live_control_per_scope sample_restart_calls (new_store sample_app)
                  sample_store_ok sample_restart_runs) "ctl-1" (sample_row "ctl-1" sample_restarting)).
  - eapply sample_row_found. vm_compute. reflexivity.
  - vm_compute. reflexivity.
Defined.

Lemma physical_work_is_exclusive_witness :
  Forall no_explicit_start sample_restart_calls ∧ is_Some (cc_lease (sample_row "ctl-1" sample_restarting)).
Proof.
  assert (Forall no_explicit_start sample_restart_calls) as Hns by (repeat constructor).
  split; [exact Hns|].
  apply (physical_work_is_exclusive sample_restart_calls (new_store sample_app)
           sample_store_ok sample_restart_runs Hns "ctl-1").
  - eapply sample_row_found. vm_compute. reflexivity.
  - vm_compute. reflexivity.
  - vm_compute. reflexivity.
Defined.

(** The store after the interrupted start, its head, control and operation. *)
Definition sample_interrupted : ComputeStore := sample_run sample_interrupt_calls.
Definition sample_head (s : UserAppOperationScope) (cs : ComputeStore) : ComputeIntent :=
  default (mkIntent "" s "" 0 0 "" None) (cs_intents cs !! s).
Definition sample_op (id : string) (cs : ComputeStore) : UserAppOperationRecord :=
  default (admitted_record sample_app (sample_admission id Start None) 0) (cs_ops cs !! id).

(** A builder operation is accepted beside the production restart. *)
Definition sample_dev_request : UserAppAdmission := sample_admission "op-2" EnsureBuilder None.
Definition sample_dev_admitted : UserAppOperationRecord * ComputeStore :=
  match business_admit sample_dev_request None 9 sample_restarting with
  | Ok (AdmAccepted o, cs) => (o, cs)
  | _ => (sample_op "op-2" sample_restarting, sample_restarting)
  end.
Lemma live_control_blocks_business_witness :
  op_scope sample_dev_admitted.1 = Dev ∧ ¬ touches sample_dev_admitted.1 Prod.
Proof.
  split; [refine (bool_decide_eq_true_1 _ _); by vm_compute|].
  apply (live_control_blocks_business sample_restart_calls (new_store sample_app) sample_dev_request None 9
           sample_dev_admitted.1 sample_dev_admitted.2 sample_store_ok sample_restart_runs)
    with (id := "ctl-1") (c := sample_row "ctl-1" sample_restarting).
  - vm_compute. reflexivity.
  - eapply sample_row_found. vm_compute. reflexivity.
  - vm_compute. reflexivity.
Defined.

Lemma controls_only_go_forward_witness :
  ∃ c', cs_controls sample_taken !! "ctl-1" = Some c'
    ∧ (c' = sample_row "ctl-1" sample_restarting
       ∨ (cc_revision (sample_row "ctl-1" sample_restarting) < cc_revision c')%Z).
Proof.
  destruct (controls_only_go_forward sample_restart_calls
              [sample_stop_request; CClaim (sample_executor "ctl-2" 2 "exec-2") 1 (λ _, None)]
              (new_store sample_app) sample_store_ok sample_takeover_runs
              "ctl-1" (sample_row "ctl-1" sample_restarting)) as (c' & Hc' & _ & Hr & _).
  - eapply sample_row_found. vm_compute. reflexivity.
  - exists c'. split; [exact Hc'|exact Hr].
Defined.

(** The deadline of the stop, and its expiry. *)
Definition sample_waiting : ComputeStore := sample_run (sample_takeover_calls ++ sample_deadline_calls).
Definition sample_expired : ComputeControlRecord * ComputeStore :=
  match Recovery.expire (sample_row "ctl-2" sample_taken) "ERR_DEADLINE" "deadline" 900 1000 sample_waiting with
  | Ok r => r
  | Err _ => (sample_row "ctl-2" sample_taken, sample_waiting)
  end.
Lemma expiry_honours_first_deadline_witness :
  cc_state sample_expired.1 = CFailed ∧ (1000 ≤ 1000)%Z.
Proof.
  split; [refine (bool_decide_eq_true_1 _ _); by vm_compute|].
  apply (expiry_honours_first_deadline
           (sample_takeover_calls ++ [CBindDeadline (sample_row "ctl-2" sample_taken) 1000])
           [CMarkUnheld (sample_row "ctl-2" sample_taken) 900] (new_store sample_app)
           (sample_row "ctl-2" sample_taken) "ERR_DEADLINE" "deadline" 900 1000
           sample_expired.1 sample_expired.2 (mkDeadline "app" "life-1" 1000 None) sample_store_ok).
  - refine (bool_decide_eq_true_1 _ _). by vm_compute.
  - vm_compute. reflexivity.
  - vm_compute. reflexivity.
Defined.

(** The stop is claimed: it stays a stop. *)
Lemma stopped_until_started_witness :
  ∃ h', cs_intents sample_taken !! Prod = Some h' ∧ ci_desired_state h' = "stopped".
Proof.
  apply (stopped_until_started (sample_restart_calls ++ [sample_stop_request]) (new_store sample_app)
           (CClaim (sample_executor "ctl-2" 2 "exec-2") 1 (λ _, None)) Prod
           (sample_head Prod (sample_run (sample_restart_calls ++ [sample_stop_request])))
           sample_store_ok sample_takeover_runs); done.
Defined.

(** The restart is asked for again after it was superseded. *)
Definition sample_first : ComputeControlRecord :=
  Compute.admitted_control (sample_control "ctl-1" "req-1" CRestart) 1 [] 1.
Lemma admission_replays_witness :
  ∃ c', Compute.admit_control (sample_control "ctl-1" "req-1" CRestart) false 77 sample_taken = Ok (c', sample_taken)
    ∧ cs_controls sample_taken !! "ctl-1" = Some c' ∧ cc_identity c' = cc_identity sample_first.
Proof.
  apply (admission_replays []
           [CClaim (sample_executor "ctl-1" 1 "exec-1") 1 (λ _, None);
            CBind (sample_executor "ctl-1" 1 "exec-1") (sample_lease "token-1");
            CAdvance (sample_report (sample_executor "ctl-1" 1 "exec-1") 3 CRunning Stopping);
            sample_stop_request; CClaim (sample_executor "ctl-2" 2 "exec-2") 1 (λ _, None)]
           (new_store sample_app) (sample_control "ctl-1" "req-1" CRestart) false 1 77 sample_first
           sample_store_ok sample_takeover_runs).
  - eexists. vm_compute. reflexivity.
  - vm_compute. reflexivity.
  - vm_compute. reflexivity.
Defined.
