(* ===== verification/ComputeLiveness.v ===== *)
(** * A stop can be carried out

    What a claim does to the interrupted work, and that an accepted stop whose
    interrupted work has drained can be claimed, executed and released. *)
From S2P Require Import Prelude Validation Lifecycle Evidence LifecycleDomain LifecycleStore.
From S2P Require Import LifecycleSafety LifecycleSamples OperationLease ComputeControl ComputeStore.
From S2P Require Import ComputeAdmission ComputeExecution ComputeRecovery ComputeSpec ComputeRefine.
From S2P Require Import ComputeBusiness ComputeMono ComputeInv ComputeSamples ComputeTheorems.
Import Text Identifier.
Local Open Scope rust_scope.

Section claims.
Context `{CheckpointCodec, CreationCodec, ComputeCodec}.

(** ** What a claim cancels *)

Lemma cancel_one_Ok cs control uncertain id a ops a' ops' :
  Compute.cancel_one cs control uncertain id (a, ops) = Ok (a', ops') →
  (∀ i, i ≠ id → ops' !! i = ops !! i)
  ∧ ∀ o, find_operation ops' (cc_app_id control) id = Some o → op_state o ≠ Pending.
Proof.
  simpl. intros H'. destruct (find_operation ops (cc_app_id control) id) as [o|] eqn:Hf.
  2: { injection H' as <- <-. split; [done|]. congruence. }
  assert (∀ o', op_state o' = Failed → (∀ i, i ≠ id → <[id:=o']> ops !! i = ops !! i)
    ∧ ∀ x, find_operation (<[id:=o']> ops) (cc_app_id control) id = Some x → op_state x ≠ Pending) as Hset.
  { intros o' Hst. split; [intros i Hi; by rewrite lookup_insert_ne|]. intros x [Hx _]%find_operation_some.
    rewrite lookup_insert_eq in Hx. injection Hx as <-. by rewrite Hst. }
  unbind H'. destruct (Compute.confirmed_wake o) eqn:Hw.
  - unbind H'. peel H' as t Ht. destruct t as [a1 o1]. injection H' as <- <-. apply Hset.
    by apply cancel_wake_Ok in Ht as (_ & _ & _ & ? & _).
  - case_bool_decide as Hp; simpl in H'.
    + peel H' as t Ht. destruct t as [a1 o1]. unbind H'. injection H' as <- <-. apply Hset.
      unfold Compute.cancel_pending in Ht. unbind Ht. by injection Ht as <- <-.
    + injection H' as <- <-. split; [done|]. congruence.
Qed.

Lemma cancel_all_Ok cs control uncertain ids a ops a' ops' :
  Compute.cancel_all cs control uncertain ids (a, ops) = Ok (a', ops') →
  (∀ i, i ∉ ids → ops' !! i = ops !! i)
  ∧ ∀ i o, i ∈ ids → find_operation ops' (cc_app_id control) i = Some o → op_state o ≠ Pending.
Proof.
  revert a ops. induction ids as [|id ids IH]; intros a ops H'; simpl in H'.
  { injection H' as <- <-. split; [done|]. set_solver. }
  peel H' as t Ht. destruct t as [a1 ops1]. apply cancel_one_Ok in Ht as [Hne Hid].
  apply IH in H' as [Hout Hin]. split.
  - intros i Hi. rewrite Hout, Hne by set_solver. done.
  - intros i o Hi Ho. destruct (decide (i ∈ ids)) as [?|Hni]; [by eapply Hin|].
    assert (i = id) as -> by set_solver. apply Hid. unfold find_operation in *. by rewrite <- Hout.
Qed.

(** a claim hands a control to exactly one executor, and after it none of
    the operations the control interrupted is still waiting to be claimed;
    operations it does not list are untouched. *)
Theorem claim_cancels_unclaimed identity revision uncertain cs c cs' :
  Compute.claim identity revision uncertain cs = Ok (c, cs') →
  (∃ old, cs_controls cs !! cei_operation_id identity = Some old ∧ cc_state old = CPending
     ∧ cc_executor_id old = None ∧ cc_revision old = revision ∧ cc_identity c = cc_identity old)
  ∧ cs_controls cs' !! cei_operation_id identity = Some c
  ∧ cc_state c = CRunning ∧ cc_executor_id c = Some (cei_executor_id identity)
  ∧ cc_revision c = (revision + 1)%Z ∧ cc_stage c = "draining_previous"
  ∧ (∀ id o, id ∈ cc_interrupted_operations c →
       find_operation (cs_ops cs') (cc_app_id c) id = Some o → op_state o ≠ Pending)
  ∧ ∀ id, id ∉ cc_interrupted_operations c → cs_ops cs' !! id = cs_ops cs !! id.
Proof.
  unfold Compute.claim. intros H'. peel H' as r Hcur. peel H' as Hb. peel H' as next Hn.
  apply rust_succ_Ok in Hn as ->. pose proof (act_row _ _ _ (current_Ok _ _ _ Hcur)) as Hrow.
  peel H' as cs1 Hu. apply update_control_Ok in Hu as (c0 & c1 & Hc0 & Hg & Hset & ->).
  assert (c0 = r) as -> by congruence. cbv beta in *. injection Hset as <-.
  peel H' as cs2 Hcan. peel H' as found Hget. peel H' as c2 Hc2. subst found. injection H' as <- <-.
  unfold Compute.cancel_interruptible_business in Hcan. peel Hcan as a Ha. peel Hcan as w Hw.
  destruct w as [a' ops']. injection Hcan as <-. apply get_Some in Hget as (Hrow2 & _). simpl in Hrow2.
  rewrite lookup_insert_eq in Hrow2. injection Hrow2 as <-. apply cancel_all_Ok in Hw as [Hout Hin].
  bools. simpl. rewrite lookup_insert_eq. split_and!; try done. by exists r.
Qed.

(** ** Forward *)

(** A live control whose executor is valid acts for its scope. *)
Lemma current_live cs id c executor :
  ledger_ok cs → cs_controls cs !! id = Some c → cc_terminal (cc_state c) = false →
  app_state (cs_app cs) = Active → is_ok (validate_identifier executor "executor_id") = true →
  Compute.current cs (Execution.identity_of c executor) = Ok c.
Proof using Type.
  intros Hok Hc Hl Hact Hex. pose proof (lk_control _ Hok _ _ Hc) as Hco.
  destruct (lk_live _ Hok _ _ Hc Hl) as (h & Hh & Hn). destruct (lk_head _ Hok _ _ Hh) as [_ [Hha Hhl] _ Hhc].
  destruct (Hhc _ Hn) as (c1 & Hc1 & _ & Hl1 & Hg1). assert (c1 = c) as -> by congruence.
  pose proof (lk_keyed _ Hok _ _ Hc) as Hid. destruct (co_positive _ _ Hco) as [Hg _].
  unfold Compute.current. simpl. rewrite bool_decide_eq_false_2 by apply Hco.
  rewrite (proj2 (Z.ltb_ge _ _) Hg). simpl. unfold checked.
  destruct (validate_identifier executor "executor_id") as [[]|]; [|done]. simpl.
  unfold find_app. rewrite bool_decide_eq_true_2 by (by rewrite (co_app _ _ Hco)). simpl.
  unfold validate_active, ensure. rewrite Hact, !bool_decide_eq_true_2 by congruence. simpl.
  rewrite Hh. simpl. unfold names in Hn. rewrite Hn, Hid, Hl1, Hg1.
  rewrite bool_decide_eq_true_2, Z.eqb_refl by done. unfold opt_is. rewrite bool_decide_eq_true_2 by done. simpl.
  rewrite (get_decoded _ _ _ c) by (auto; apply Hco). simpl.
  by rewrite !bool_decide_eq_true_2, Hg1, Z.eqb_refl, Hl.
Qed.

Lemma i64_room n m : (n + m ≤ i64_max)%Z → (1 ≤ m)%Z → i64_checked_succ n = Some (n + 1)%Z.
Proof using Type. intros. unfold i64_checked_succ. rewrite (proj2 (Z.leb_le _ _)); [done|lia]. Qed.

(** Drained work is not touched by the cancellation. *)
Lemma cancel_drained cs cs0 control uncertain ids a :
  Forall (drained_entry cs control) ids →
  Compute.cancel_all cs0 control uncertain ids (a, cs_ops cs) = Ok (a, cs_ops cs).
Proof.
  induction ids as [|id ids IH]; intros Hd; [done|]. apply Forall_cons in Hd as [Hd Hr]. simpl.
  destruct Hd as [(o & Hf & Hl & Ht & _)|(Hf & _)]; rewrite Hf; simpl; [|by apply IH].
  rewrite bool_decide_eq_true_2 by done. simpl.
  assert (Compute.confirmed_wake o = false) as ->.
  { unfold Compute.confirmed_wake. destruct (op_state o); try done; by rewrite andb_false_r. }
  rewrite bool_decide_eq_false_2 by (by intros Hp; rewrite Hp in Ht). simpl. by apply IH.
Qed.

(** The calls, on the row they concern. *)
Record ready (cs : ComputeStore) (id : string) (c : ComputeControlRecord) (executor : string) : Prop := {
  rd_ok : ledger_ok cs;
  rd_row : cs_controls cs !! id = Some c;
  rd_active : app_state (cs_app cs) = Active;
  rd_drained : drained cs c = Ok tt;
  rd_executor : is_ok (validate_identifier executor "executor_id") = true;
}.

Lemma ready_step op cs id c c' executor :
  ready cs id c executor → fresh_id op cs →
  cs_controls (cstep op cs) !! id = Some c' → app_state (cs_app (cstep op cs)) = Active →
  cc_identity c' = cc_identity c → ready (cstep op cs) id c' executor.
Proof.
  intros [Hok Hrow Hact Hd Hex] Hf Hrow' Hact' Hi. split; try done; [by apply cstep_ledger_ok|].
  eapply drained_keeps; [|exact Hi|exact Hd].
  by apply cstep_keeps.
Qed.

Lemma claim_forward cs id c executor uncertain :
  ready cs id c executor → cc_state c = CPending → (cc_revision c + 1 ≤ i64_max)%Z →
  let c' := cc_set c (cc_revision c + 1) CRunning (Some executor) (stage_as_str DrainingPrevious)
              (cc_checkpoint c) (cc_error_code c) (cc_error_message c) (cc_lease c) in
  ready (cstep (CClaim (Execution.identity_of c executor) (cc_revision c) uncertain) cs) id c' executor.
Proof.
  intros Hrd Hst Hrev c'. pose proof Hrd as [Hok Hrow Hact Hd Hex].
  pose proof (lk_control _ Hok _ _ Hrow) as Hco. destruct (co_pending _ _ Hco Hst) as (Hne & Hle & _).
  pose proof (lk_keyed _ Hok _ _ Hrow) as Hid.
  assert (∃ cs', Compute.claim (Execution.identity_of c executor) (cc_revision c) uncertain cs = Ok (c', cs')
    ∧ cs_controls cs' !! id = Some c' ∧ app_state (cs_app cs') = Active) as (cs' & Htx & Hrow' & Hact').
  { unfold Compute.claim. rewrite (current_live _ _ _ _ Hok Hrow) by (auto; by rewrite Hst).
    simpl. rewrite Z.eqb_refl, Hst, Hne. simpl. unfold rust_succ, ok_or. rewrite (i64_room _ 1) by lia. simpl.
    unfold update_control. rewrite Hid, Hrow, Z.eqb_refl, Hne, Hst, !bool_decide_eq_true_2, Z.eqb_refl by done.
    simpl. unfold Compute.cancel_interruptible_business, find_app. simpl.
    rewrite bool_decide_eq_true_2 by (by rewrite (co_app _ _ Hco)). simpl.
    change (cs_ops (with_controls _ cs)) with (cs_ops cs).
    rewrite (cancel_drained cs) by (by apply drained_spec). simpl.
    rewrite (get_unleased _ _ _ c'); simpl; rewrite ?lookup_insert_eq; try done.
    - eexists. split; [done|]. simpl. by rewrite lookup_insert_eq.
    - destruct (co_positive _ _ Hco). split; simpl; lia. }
  eapply ready_step; try done; simpl; unfold after; by rewrite Htx.
Qed.

(** A receipt its scope can hold. *)
Definition fits (c : ComputeControlRecord) (receipt : UserAppOperationLeaseReceipt) : Prop :=
  is_ok (lease_validate receipt) = true
  ∧ lease_service_type receipt = match cc_scope c with Dev => UserappBuilder | _ => Userapp end.

Lemma receipt_fits c executor receipt :
  cc_scope c ≠ Application → fits c receipt →
  Execution.validate_receipt (Execution.identity_of c executor) receipt = Ok tt.
Proof using Type.
  intros Hs [Hv Hty]. unfold Execution.validate_receipt, checked. simpl.
  destruct (lease_validate receipt) as [[]|]; [|done].
  destruct (cc_scope c); try done; simpl; by rewrite Hty.
Qed.

Lemma executor_not_empty executor :
  is_ok (validate_identifier executor "executor_id") = true → str_is_empty executor = false.
Proof using Type. by destruct executor. Qed.

Lemma decode_leased c executor receipt :
  positive c → cc_scope c ≠ Application → cc_executor_id c = Some executor →
  is_ok (validate_identifier executor "executor_id") = true →
  cc_lease c = Some receipt → fits c receipt → decode c = Ok c.
Proof using Type.
  intros [Hg Hr] Hs He Hv Hl [Hlv Hst]. unfold decode.
  rewrite (proj2 (Z.ltb_ge _ _) Hg), (proj2 (Z.ltb_ge _ _) Hr), Hl, He. simpl.
  destruct (lease_validate receipt) as [[]|]; [|done]. rewrite (executor_not_empty _ Hv). simpl.
  destruct (cc_scope c); try done; simpl; by rewrite Hst.
Qed.

Lemma check_live cs id c executor :
  ready cs id c executor → cc_state c = CRunning → cc_executor_id c = Some executor →
  Compute.check cs (Execution.identity_of c executor) = Ok tt.
Proof using Type.
  intros [Hok Hrow Hact Hd Hex] Hst He. unfold Compute.check.
  rewrite (current_live _ _ _ _ Hok Hrow) by (auto; by rewrite Hst). simpl.
  unfold opt_is. by rewrite Hst, He, !bool_decide_eq_true_2.
Qed.

Lemma bind_forward cs id c executor receipt :
  ready cs id c executor → cc_state c = CRunning → cc_executor_id c = Some executor →
  cc_lease c = None → fits c receipt → (cc_revision c + 1 ≤ i64_max)%Z →
  let c' := cc_set c (cc_revision c + 1) (cc_state c) (cc_executor_id c) (cc_stage c) (cc_checkpoint c)
              (cc_error_code c) (cc_error_message c) (Some receipt) in
  ready (cstep (CBind (Execution.identity_of c executor) receipt) cs) id c' executor.
Proof.
  intros Hrd Hst He Hle Hfit Hrev c'. pose proof Hrd as [Hok Hrow Hact Hd Hex].
  pose proof (lk_control _ Hok _ _ Hrow) as Hco. pose proof (lk_keyed _ Hok _ _ Hrow) as Hid.
  assert (Execution.bind (Execution.identity_of c executor) receipt cs
          = Ok (c', with_controls (<[id := c']> (cs_controls cs)) cs)) as Htx.
  { unfold Execution.bind. rewrite (receipt_fits c) by (auto; apply Hco). simpl.
    rewrite (check_live _ _ _ _ Hrd) by done. simpl.
    rewrite (current_live _ _ _ _ Hok Hrow) by (auto; by rewrite Hst). simpl. rewrite Hle.
    unfold update_control. rewrite Hid, Hrow, Z.eqb_refl, Hle. simpl.
    unfold sql_succ, ok_or. rewrite (i64_room _ 1) by lia. simpl. unfold Execution.reread.
    rewrite (get_decoded _ _ _ c'); simpl; rewrite ?lookup_insert_eq; try done.
    eapply decode_leased; simpl; try done; [|apply Hco].
    destruct (co_positive _ _ Hco). split; simpl; lia. }
  eapply ready_step; try done; simpl; unfold after; rewrite Htx; simpl; [by rewrite lookup_insert_eq|done].
Qed.

(** One report of a stop, under a lease. *)
Definition stop_report (c : ComputeControlRecord) (executor : string) (state : ComputeControlState)
    (stage : ComputeControlStage) (checkpoint : Json) : ComputeControlProgress :=
  {| ccp_identity := Execution.identity_of c executor; ccp_expected_revision := cc_revision c;
     ccp_state := state; ccp_stage := stage; ccp_checkpoint := checkpoint;
     ccp_error_code := None; ccp_error_message := None |}.

Lemma advance_forward cs id c executor receipt state s s' checkpoint :
  ready cs id c executor → cc_state c = CRunning → cc_executor_id c = Some executor →
  cc_action c = CStop → cc_lease c = Some receipt →
  cc_stage c = stage_as_str s → next_stage CStop s = Some s' → json_is_object checkpoint = true →
  state = (if bool_decide (s' = Completed) then CSucceeded else CRunning) →
  (cc_revision c + 1 ≤ i64_max)%Z →
  let c' := cc_set c (cc_revision c + 1) state (cc_executor_id c) (stage_as_str s') checkpoint
              None None (cc_lease c) in
  ready (cstep (CAdvance (stop_report c executor state s' checkpoint)) cs) id c' executor.
Proof.
  intros Hrd Hst He Hact Hle Hs Hn Hcp Hstate Hrev c'. pose proof Hrd as [Hok Hrow Hactive Hd Hex].
  pose proof (lk_control _ Hok _ _ Hrow) as Hco. pose proof (lk_keyed _ Hok _ _ Hrow) as Hid.
  assert (Execution.progress_ok cs c (stop_report c executor state s' checkpoint) = Ok tt) as Hp.
  { unfold Execution.progress_ok. simpl. rewrite Z.eqb_refl, Hact, Hs, Hle, Hd, Hcp. simpl.
    rewrite (proj2 (stage_from_storage_Some _ s) eq_refl). unfold Execution.builder_progress_ok.
    rewrite Hact, andb_false_r. rewrite Hstate. by destruct s; simplify_eq/=. }
  assert (Execution.advance (stop_report c executor state s' checkpoint) cs
          = Ok (c', with_controls (<[id := c']> (cs_controls cs)) cs)) as Htx.
  { unfold Execution.advance. simpl. rewrite (check_live _ _ _ _ Hrd) by done. simpl.
    rewrite (current_live _ _ _ _ Hok Hrow) by (auto; by rewrite Hst). simpl. rewrite Hp. simpl.
    unfold update_control. rewrite Hid, Hrow, Z.eqb_refl, Hst.
    rewrite (proj2 (opt_is_true _ _) He). simpl.
    unfold sql_succ, ok_or. rewrite (i64_room _ 1) by lia. simpl.
    unfold Execution.wake_after_restart. rewrite Hact, andb_false_r. simpl. unfold Execution.reread.
    rewrite (get_decoded _ _ _ c'); simpl; rewrite ?lookup_insert_eq; try done.
    eapply decode_same; [apply (co_decodes _ _ Hco)| |done..].
    destruct (co_positive _ _ Hco). split; simpl; lia. }
  eapply ready_step; try done; simpl; unfold after; rewrite Htx; simpl; [by rewrite lookup_insert_eq|done].
Qed.

Lemma forget_forward cs id c executor receipt :
  ready cs id c executor → ended (cc_state c) = true → cc_executor_id c = Some executor →
  cc_lease c = Some receipt → fits c receipt → (cc_revision c + 1 ≤ i64_max)%Z →
  let c' := cc_set c (cc_revision c + 1) (cc_state c) (cc_executor_id c) (cc_stage c) (cc_checkpoint c)
              (cc_error_code c) (cc_error_message c) None in
  ready (cstep (CForget (Execution.identity_of c executor) receipt) cs) id c' executor.
Proof.
  intros Hrd Hst He Hle Hfit Hrev c'. pose proof Hrd as [Hok Hrow Hact Hd Hex].
  pose proof (lk_control _ Hok _ _ Hrow) as Hco. pose proof (lk_keyed _ Hok _ _ Hrow) as Hid.
  assert (Execution.forget (Execution.identity_of c executor) receipt cs
          = Ok (tt, with_controls (<[id := c']> (cs_controls cs)) cs)) as Htx.
  { unfold Execution.forget. rewrite (receipt_fits c) by (auto; apply Hco). simpl. rewrite Hid.
    rewrite (get_decoded _ _ _ c) by (auto; apply Hco). simpl. unfold Execution.owns. simpl.
    rewrite Hid, Z.eqb_refl, (proj2 (opt_is_true _ _) He), !bool_decide_eq_true_2 by done. simpl.
    assert (match cc_state c with CSucceeded | CFailed => true | _ => false end = true) as -> by done. simpl.
    rewrite Hle, bool_decide_eq_true_2 by done. simpl. unfold update_control. rewrite Hrow, Z.eqb_refl.
    unfold sql_succ, ok_or. rewrite (i64_room _ 1) by lia. done. }
  eapply ready_step; try done; simpl; unfold after; rewrite Htx; simpl; [by rewrite lookup_insert_eq|done].
Qed.

(** The calls of an executor that carries a stop out. *)
Definition stop_calls (c : ComputeControlRecord) (executor : string)
    (receipt : UserAppOperationLeaseReceipt) (checkpoint : Json)
    (uncertain : string → option UserAppStoreError) : list COp :=
  let identity := Execution.identity_of c executor in
  let report n state stage :=
    CAdvance {| ccp_identity := identity; ccp_expected_revision := cc_revision c + n; ccp_state := state;
                ccp_stage := stage; ccp_checkpoint := checkpoint; ccp_error_code := None;
                ccp_error_message := None |} in
  [CClaim identity (cc_revision c) uncertain; CBind identity receipt;
   report 2%Z CRunning Stopping; report 3%Z CRunning Stopped; report 4%Z CSucceeded Completed;
   CForget identity receipt].

(** C16: an accepted stop can be carried out: in every history, if its interrupted
    work has drained and the application is active, six calls of any executor
    with a valid name and a receipt of the right family claim it, record the
    lease, stop, complete with success and release the lease. *)
Theorem accepted_stop_can_complete ops st id c executor receipt checkpoint uncertain :
  store_ok st → fresh_run ops (new_compute_store st) →
  let cs := crun ops (new_compute_store st) in
  cs_controls cs !! id = Some c → cc_state c = CPending → cc_action c = CStop →
  drained cs c = Ok tt → app_state (cs_app cs) = Active →
  is_ok (validate_identifier executor "executor_id") = true → fits c receipt →
  json_is_object checkpoint = true → (cc_revision c + 6 ≤ i64_max)%Z →
  ∃ c', cs_controls (crun (stop_calls c executor receipt checkpoint uncertain) cs) !! id = Some c'
    ∧ cc_identity c' = cc_identity c ∧ cc_state c' = CSucceeded ∧ cc_stage c' = "completed"
    ∧ cc_executor_id c' = Some executor ∧ cc_lease c' = None ∧ cc_checkpoint c' = checkpoint
    ∧ cc_revision c' = (cc_revision c + 6)%Z.
Proof.
  intros Hst Hf cs Hrow Hpend Hact Hd Hactive Hex Hfit Hcp Hrev.
  pose proof (run_ledger_ok _ _ Hst Hf) as Hok. fold cs in Hok. clearbody cs. clear Hst Hf.
  destruct (co_pending _ _ (lk_control _ Hok _ _ Hrow) Hpend) as (_ & Hle & _).
  assert (ready cs id c executor) as R0 by done.
  pose proof (claim_forward _ _ _ _ uncertain R0 Hpend ltac:(lia)) as R1.
  pose proof (bind_forward _ _ _ _ receipt R1 eq_refl eq_refl Hle Hfit ltac:(simpl; lia)) as R2.
  pose proof (advance_forward _ _ _ _ receipt _ DrainingPrevious Stopping checkpoint R2
                eq_refl eq_refl Hact eq_refl eq_refl eq_refl Hcp eq_refl ltac:(simpl; lia)) as R3.
  pose proof (advance_forward _ _ _ _ receipt _ Stopping Stopped checkpoint R3
                eq_refl eq_refl Hact eq_refl eq_refl eq_refl Hcp eq_refl ltac:(simpl; lia)) as R4.
  pose proof (advance_forward _ _ _ _ receipt _ Stopped Completed checkpoint R4
                eq_refl eq_refl Hact eq_refl eq_refl eq_refl Hcp eq_refl ltac:(simpl; lia)) as R5.
  pose proof (forget_forward _ _ _ _ receipt R5 eq_refl eq_refl eq_refl Hfit ltac:(simpl; lia)) as R6.
  assert (cc_revision c + 2 = cc_revision c + 1 + 1 ∧ cc_revision c + 3 = cc_revision c + 1 + 1 + 1
          ∧ cc_revision c + 4 = cc_revision c + 1 + 1 + 1 + 1)%Z as (E2 & E3 & E4) by lia.
  unfold stop_calls. rewrite E2, E3, E4. eexists. split; [exact (rd_row _ _ _ _ R6)|]. simpl.
  split_and!; try done. lia.
Qed.
End claims.

(** ** Evaluated *)

#[local] Existing Instances sample_codec sample_creation_codec sample_compute_codec.

(** The interrupted start was not claimed: the restart's claim ends it. *)
Definition sample_claimed : ComputeControlRecord * ComputeStore :=
  match Compute.claim (sample_executor "ctl-1" 1 "exec-1") 1 (λ _, None) sample_interrupted with
  | Ok r => r
  | Err _ => (sample_row "ctl-1" sample_interrupted, sample_interrupted)
  end.
Lemma claim_cancels_unclaimed_witness :
  op_state (sample_op "op-1" sample_claimed.2) = Failed
  ∧ op_state (sample_op "op-1" sample_claimed.2) ≠ Pending.
Proof.
  split; [refine (bool_decide_eq_true_1 _ _); by vm_compute|].
  assert (Compute.claim (sample_executor "ctl-1" 1 "exec-1") 1 (λ _, None) sample_interrupted
          = Ok (sample_claimed.1, sample_claimed.2)) as Hc by (vm_compute; reflexivity).
  destruct (claim_cancels_unclaimed _ _ _ _ _ _ Hc) as (_ & _ & _ & _ & _ & _ & Hp & _).
  apply (Hp "op-1"); refine (bool_decide_eq_true_1 _ _); by vm_compute.
Defined.

(** A stop of the idle application. *)
Definition sample_stop_calls : list COp := [CAdmit (sample_control "ctl-1" "req-1" CStop) false 1].
Lemma accepted_stop_can_complete_witness :
  ∃ c', cs_controls (crun (stop_calls (sample_row "ctl-1" (sample_run sample_stop_calls)) "exec-1"
                             (sample_lease "token-1") sample_target_json (λ _, None))
                       (sample_run sample_stop_calls)) !! "ctl-1" = Some c'
    ∧ cc_state c' = CSucceeded.
Proof.
  destruct (accepted_stop_can_complete sample_stop_calls (new_store sample_app) "ctl-1"
    (sample_row "ctl-1" (sample_run sample_stop_calls)) "exec-1" (sample_lease "token-1")
    sample_target_json (λ _, None) sample_store_ok) as (c' & Hc' & _ & Hs & _);
    try (vm_compute; reflexivity).
  - split; vm_compute; reflexivity.
  - split; vm_compute; reflexivity.
  - vm_compute. discriminate.
  - exists c'. split; [exact Hc'|exact Hs].
Defined.
