(* ===== verification/RuntimeConfiguration.v ===== *)
(** * Runtime configuration and its credential receipts
    ([rcoder-storage/src/userapp_lifecycle/common/configuration.rs],
    [shared_types/src/userapp/runtime_configuration.rs],
    [common/ops/application.rs])

    Database credentials are saved as immutable versions, one numbered list per
    lifecycle and environment, with a head that says which version is saved,
    applied and being applied.  A deployment captures a version in a receipt,
    binds it to the container it will change, and reports what became of the
    write and of the business start.  An operation whose receipt is unresolved
    cannot end: this is the guard [uncertain] of the transactions below, here
    put in its place.

    A statement that updates a row under the values the transaction has just
    read finds it, and is written as an update.  The schema's foreign keys and
    checks are not tested by the definitions; [ConfigurationTheorems.v] shows
    that no transaction could violate them. *)
From S2P Require Import Prelude Validation RuntimeControl Lifecycle Evidence LifecycleDomain LifecycleStore.
From S2P Require Import OperationLease ComputeControl ComputeStore ComputeAdmission ComputeExecution.
From S2P Require Import ComputeRecovery ComputeSpec.
Import Text Identifier.
Local Open Scope rust_scope.

(** ** The contract *)

Record SaveRuntimeConfigurationRequest := {
  sv_lifecycle_id : string;
  sv_request_id : string;
  sv_expected_revision : Z;
  sv_pg : StartPgCredential;
}.

Record RuntimeConfigurationStatus := {
  rs_lifecycle_id : string;
  rs_scope : UserAppOperationScope;
  rs_revision : Z;
  rs_saved_version : Z;
  rs_applied_version : option Z;
  rs_applying_version : option Z;
  rs_applying_operation_id : option string;
  rs_pending : bool;
}.

Record SavedRuntimeConfiguration := {
  sr_config_version : Z;
  sr_status : RuntimeConfigurationStatus;
}.

Inductive CredentialApplicationState :=
  | CredCaptured | CredApplying | CredApplied | CredFailed | CredUnknown.
#[global] Instance CredentialApplicationState_eq_dec : EqDecision CredentialApplicationState.
Proof. solve_decision. Defined.

Inductive BusinessStartupState :=
  | BusNotStarted | BusStarting | BusReady | BusFailed | BusUnknown.
#[global] Instance BusinessStartupState_eq_dec : EqDecision BusinessStartupState.
Proof. solve_decision. Defined.

Record RuntimeConfigurationCapture := {
  cap_operation_id : string;
  cap_lifecycle_id : string;
  cap_scope : UserAppOperationScope;
  cap_config_version : Z;
  cap_pg : StartPgCredential;
  cap_target : option RuntimeConfigurationTarget;
  cap_credentials : CredentialApplicationState;
  cap_business : BusinessStartupState;
}.

(** ** Rows *)

(** Application, lifecycle, environment. *)
Abbreviation ConfigKey := (string * string * UserAppOperationScope)%type.

Record RuntimeConfigVersion := {
  cv_request_id : string;
  cv_expected_revision : Z;
  cv_payload_version : Z;
  cv_pg_username : string;
  cv_pg_password : string;
}.

Record RuntimeConfig := mkRuntimeConfig {
  cg_revision : Z;
  cg_saved_version : Z;
  cg_applied_version : option Z;
  cg_applying_version : option Z;
  cg_applying_operation_id : option string;
}.

Record OperationConfig := mkOperationConfig {
  oc_app_id : string;
  oc_lifecycle_id : string;
  oc_scope : UserAppOperationScope;
  oc_config_version : Z;
  oc_physical_uid : option string;
  oc_deployment_generation : option string;
  oc_credential_state : string;
  oc_business_state : string;
}.
Definition oc_key (r : OperationConfig) : ConfigKey := (oc_app_id r, oc_lifecycle_id r, oc_scope r).

(** The tables, with those of the lifecycle and of compute control. *)
Record ConfigStore := mkConfigStore {
  cf_base : ComputeStore;
  cf_versions : gmap (ConfigKey * Z) RuntimeConfigVersion;
  cf_heads : gmap ConfigKey RuntimeConfig;
  cf_receipts : gmap string OperationConfig;
}.
Definition with_base (cs : ComputeStore) (cf : ConfigStore) : ConfigStore :=
  mkConfigStore cs (cf_versions cf) (cf_heads cf) (cf_receipts cf).
Definition with_receipts (m : gmap string OperationConfig) (cf : ConfigStore) : ConfigStore :=
  mkConfigStore (cf_base cf) (cf_versions cf) (cf_heads cf) m.

Abbreviation CfTx A := (ConfigStore → result (A * ConfigStore) UserAppStoreError).

Module Configuration.

(** [scope_name]: only an environment has a configuration. *)
Definition environment (scope : UserAppOperationScope) : result unit UserAppStoreError :=
  ensure (negb (bool_decide (scope = Application)))
    (InvalidOperation "Runtime configuration requires dev or prod scope").

Definition current_app (cf : ConfigStore) (app lifecycle : string) : result unit UserAppStoreError :=
  let? a := ok_or (find_app (cf_base cf) app) NotFound in
  let? _ := ensure (bool_decide (app_lifecycle_id a = lifecycle)) LifecycleConflict in
  validate_active a.

Definition head (cf : ConfigStore) (app lifecycle : string) (scope : UserAppOperationScope)
    : result (option RuntimeConfig) UserAppStoreError :=
  let? _ := environment scope in
  Ok (cf_heads cf !! (app, lifecycle, scope)).

(** A version outside [1 .. saved]. *)
Definition stray (saved : Z) (version : option Z) : bool :=
  match version with Some v => ((v <? 1) || (saved <? v))%Z | None => false end.

Definition status (lifecycle : string) (scope : UserAppOperationScope) (row : RuntimeConfig)
    : result RuntimeConfigurationStatus UserAppStoreError :=
  let saved := cg_saved_version row in
  let? _ := ensure (negb ((cg_revision row <? 1)%Z || (saved <? 1)%Z
                          || negb (cg_revision row =? saved)%Z
                          || stray saved (cg_applied_version row)
                          || stray saved (cg_applying_version row)
                          || negb (Bool.eqb (is_some (cg_applying_version row))
                                            (is_some (cg_applying_operation_id row)))))
              (InvalidOperation "Invalid persisted runtime configuration head") in
  Ok {| rs_lifecycle_id := lifecycle; rs_scope := scope; rs_revision := cg_revision row;
        rs_saved_version := saved; rs_applied_version := cg_applied_version row;
        rs_applying_version := cg_applying_version row;
        rs_applying_operation_id := cg_applying_operation_id row;
        rs_pending := negb (opt_is (cg_applied_version row) saved) |}.

Definition read_status (cf : ConfigStore) (app lifecycle : string) (scope : UserAppOperationScope)
    : result (option RuntimeConfigurationStatus) UserAppStoreError :=
  let? _ := current_app cf app lifecycle in
  let? row := head cf app lifecycle scope in
  match row with
  | Some row => let? s := status lifecycle scope row in Ok (Some s)
  | None => Ok None
  end.

(** [crate_validate_pg]. *)
Definition validate_pg (pg : StartPgCredential) : result unit UserAppStoreError :=
  let? _ := map_err InvalidOperation (Pg.validate_pg_identifier (pg_username pg)) in
  ensure (negb (str_is_empty (pg_password pg) || str_has Ascii.zero (pg_password pg)))
    (InvalidOperation "PG password must be nonempty and contain no NUL bytes").

(** ** Saving *)

(** The version a save request has already created, of those of its list. *)
Definition find_saved (cf : ConfigStore) (key : ConfigKey) (request : string)
    : option (Z * RuntimeConfigVersion) :=
  list.head (omap (λ '((k, version), row),
    if bool_decide (k = key) && bool_decide (cv_request_id row = request)
    then Some (version, row) else None) (map_to_list (cf_versions cf))).

Definition same_save (row : RuntimeConfigVersion) (request : SaveRuntimeConfigurationRequest) : bool :=
  (cv_expected_revision row =? sv_expected_revision request)%Z
  && bool_decide (cv_pg_username row = pg_username (sv_pg request))
  && bool_decide (cv_pg_password row = pg_password (sv_pg request))
  && (cv_payload_version row =? 1)%Z.

(** An explicit password write must not race with a save. *)
Definition no_password_reset (cf : ConfigStore) (app : string) (scope : UserAppOperationScope)
    : result unit UserAppStoreError :=
  let? a := ok_or (find_app (cf_base cf) app) NotFound in
  let? records := active (cs_ops (cf_base cf)) a in
  match rec_slot records scope with
  | Some o => match op_command o with
              | Some (CmdResetDatabasePassword _ _) => Err (OperationInProgress (blocker o))
              | _ => Ok tt
              end
  | None => Ok tt
  end.

Definition save_new (app : string) (scope : UserAppOperationScope)
    (request : SaveRuntimeConfigurationRequest) (previous : option RuntimeConfig)
    : CfTx SavedRuntimeConfiguration := λ cf,
  let lifecycle := sv_lifecycle_id request in
  let key := (app, lifecycle, scope) in
  let? _ := no_password_reset cf app scope in
  let? revision := match previous with
                   | Some row => let? s := status lifecycle scope row in Ok (rs_revision s)
                   | None => Ok 0%Z
                   end in
  let? _ := ensure (revision =? sv_expected_revision request)%Z VersionConflict in
  let? version := ok_or (i64_checked_succ revision)
                    (InvalidOperation "Configuration version exhausted") in
  let? _ := ensure (is_none (cf_versions cf !! (key, version)))
              (StorageFailure "duplicate configuration version") in
  let row := {| cv_request_id := sv_request_id request; cv_expected_revision := revision;
                cv_payload_version := 1; cv_pg_username := pg_username (sv_pg request);
                cv_pg_password := pg_password (sv_pg request) |} in
  let new := match previous with
             | None => mkRuntimeConfig version version None None None
             | Some old => mkRuntimeConfig version version (cg_applied_version old)
                             (cg_applying_version old) (cg_applying_operation_id old)
             end in
  let cf := mkConfigStore (cf_base cf) (<[(key, version) := row]> (cf_versions cf))
              (<[key := new]> (cf_heads cf)) (cf_receipts cf) in
  let? s := status lifecycle scope new in
  Ok ({| sr_config_version := version; sr_status := s |}, cf).

Definition save (app : string) (scope : UserAppOperationScope)
    (request : SaveRuntimeConfigurationRequest) : CfTx SavedRuntimeConfiguration := λ cf,
  let lifecycle := sv_lifecycle_id request in
  let? _ := environment scope in
  let? _ := map_err (λ _, InvalidOperation "Invalid configuration save request identity")
              (validate_identifier (sv_request_id request) "request_id") in
  let? _ := validate_pg (sv_pg request) in
  let? _ := ensure (0 <=? sv_expected_revision request)%Z
              (InvalidOperation "Configuration revision must not be negative") in
  let? _ := current_app cf app lifecycle in
  let? previous := head cf app lifecycle scope in
  match find_saved cf (app, lifecycle, scope) (sv_request_id request) with
  | Some (version, replay) =>
      let? _ := ensure (same_save replay request)
                  (InvalidOperation "Configuration save identity was reused with different input") in
      let? previous := ok_or previous (InvalidOperation "Configuration replay has no current head") in
      let? s := status lifecycle scope previous in
      Ok ({| sr_config_version := version; sr_status := s |}, cf)
  | None => save_new app scope request previous cf
  end.

(** ** Receipts *)

Definition credentials (value : string) : result CredentialApplicationState UserAppStoreError :=
  if bool_decide (value = "captured") then Ok CredCaptured
  else if bool_decide (value = "applying") then Ok CredApplying
  else if bool_decide (value = "applied") then Ok CredApplied
  else if bool_decide (value = "failed") then Ok CredFailed
  else if bool_decide (value = "unknown") then Ok CredUnknown
  else Err (InvalidOperation "Unknown persisted credential state").
Definition credential_name (value : CredentialApplicationState) : string :=
  match value with
  | CredCaptured => "captured" | CredApplying => "applying" | CredApplied => "applied"
  | CredFailed => "failed" | CredUnknown => "unknown"
  end.
Definition business (value : string) : result BusinessStartupState UserAppStoreError :=
  if bool_decide (value = "not_started") then Ok BusNotStarted
  else if bool_decide (value = "starting") then Ok BusStarting
  else if bool_decide (value = "ready") then Ok BusReady
  else if bool_decide (value = "failed") then Ok BusFailed
  else if bool_decide (value = "unknown") then Ok BusUnknown
  else Err (InvalidOperation "Unknown persisted business state").
Definition business_name (value : BusinessStartupState) : string :=
  match value with
  | BusNotStarted => "not_started" | BusStarting => "starting" | BusReady => "ready"
  | BusFailed => "failed" | BusUnknown => "unknown"
  end.

Definition receipt (cf : ConfigStore) (o : UserAppOperationRecord)
    : result (option OperationConfig) UserAppStoreError :=
  let row := cf_receipts cf !! op_operation_id o in
  let? _ := ensure (match row with
                    | Some r =>
                        bool_decide (oc_app_id r = op_app_id o)
                        && bool_decide (oc_lifecycle_id r = op_lifecycle_id o)
                        && bool_decide (oc_scope r = op_scope o)
                        && (1 <=? oc_config_version r)%Z
                        && Bool.eqb (is_some (oc_physical_uid r)) (is_some (oc_deployment_generation r))
                    | None => true
                    end) (InvalidOperation "Runtime configuration receipt identity mismatch") in
  Ok row.

Definition verify_version_credentials (cf : ConfigStore) (o : UserAppOperationRecord) (version : Z)
    (pg : StartPgCredential) : result unit UserAppStoreError :=
  let? _ := environment (op_scope o) in
  let? row := ok_or (cf_versions cf !! ((op_app_id o, op_lifecycle_id o, op_scope o), version))
                (InvalidOperation "Deployment configuration version is missing") in
  ensure ((cv_payload_version row =? 1)%Z && bool_decide (cv_pg_username row = pg_username pg)
          && bool_decide (cv_pg_password row = pg_password pg))
    (InvalidOperation "Explicit deployment credentials differ from the saved configuration").

Definition verify_captured_credentials (cf : ConfigStore) (o : UserAppOperationRecord)
    (pg : StartPgCredential) : result unit UserAppStoreError :=
  let? row := receipt cf o in
  let? row := ok_or row (InvalidOperation "Replayed deployment has no captured credentials") in
  verify_version_credentials cf o (oc_config_version row) pg.

(** The kinds whose execution applies credentials. *)
Definition applies_credentials (kind : UserAppOperationKind) : bool :=
  match kind with
  | EnsureBuilder | RestartBuilder | Create | StartDeployment | RestartDeployment
  | Start | Restart | HotDeploy => true
  | _ => false
  end.
(** Work that must not introduce a version nobody has applied. *)
Definition applied_only (o : UserAppOperationRecord) : bool :=
  match op_command o with Some (CmdStart true) => true | _ => false end
  || bool_decide (op_kind o = EnsureBuilder) || bool_decide (op_kind o = HotDeploy).

Definition capture (o : UserAppOperationRecord) (cf : ConfigStore)
    : result ConfigStore UserAppStoreError :=
  if negb (applies_credentials (op_kind o)) then Ok cf else
  let? row := head cf (op_app_id o) (op_lifecycle_id o) (op_scope o) in
  match row with
  | None => Ok cf
  | Some row =>
      let? s := status (op_lifecycle_id o) (op_scope o) row in
      let? _ := ensure (is_none (rs_applying_operation_id s))
                  (InvalidOperation "Runtime credential application requires recovery") in
      let? _ := ensure (negb (bool_decide (op_kind o = HotDeploy) && rs_pending s))
                  (InvalidOperation "Runtime credential changes require a cold deployment") in
      match (if applied_only o then cg_applied_version row else Some (cg_saved_version row)) with
      | None => Ok cf
      | Some version =>
          let? _ := ensure (is_none (cf_receipts cf !! op_operation_id o))
                      (StorageFailure "duplicate configuration receipt") in
          let r := mkOperationConfig (op_app_id o) (op_lifecycle_id o) (op_scope o) version
                     None None "captured" "not_started" in
          Ok (with_receipts (<[op_operation_id o := r]> (cf_receipts cf)) cf)
      end
  end.

Definition owned (cf : ConfigStore) (context : UserAppExecutionContext)
    : result UserAppOperationRecord UserAppStoreError :=
  let? _ := checked (validate_identity context (ctx_app_id context)) in
  let? (_, o) := current_operation (cf_base cf) (ctx_app_id context) (ctx_operation_id context)
                   (ctx_lifecycle_id context) in
  let? _ := ensure (op_owns context o && bool_decide (op_state o = Running)) VersionConflict in
  Ok o.

Definition read (cf : ConfigStore) (context : UserAppExecutionContext)
    : result (option RuntimeConfigurationCapture) UserAppStoreError :=
  let? o := owned cf context in
  let? row := receipt cf o in
  match row with
  | None => Ok None
  | Some row =>
      let? version := ok_or (cf_versions cf !! (oc_key row, oc_config_version row))
                        (InvalidOperation "Captured configuration version is missing") in
      let? _ := ensure (cv_payload_version version =? 1)%Z
                  (InvalidOperation "Unknown runtime configuration payload version") in
      let pg := {| pg_username := cv_pg_username version; pg_password := cv_pg_password version |} in
      let? _ := validate_pg pg in
      let? c := credentials (oc_credential_state row) in
      let? b := business (oc_business_state row) in
      Ok (Some {| cap_operation_id := op_operation_id o; cap_lifecycle_id := oc_lifecycle_id row;
                  cap_scope := op_scope o; cap_config_version := oc_config_version row; cap_pg := pg;
                  cap_target := match oc_physical_uid row, oc_deployment_generation row with
                                | Some u, Some g => Some {| rt_physical_uid := u; rt_deployment_generation := g |}
                                | _, _ => None
                                end;
                  cap_credentials := c; cap_business := b |})
  end.

Definition bind (context : UserAppExecutionContext) (version : Z)
    (target : RuntimeConfigurationTarget) : CfTx unit := λ cf,
  let? _ := ensure (negb (str_is_empty (rt_physical_uid target)
                          || str_is_empty (rt_deployment_generation target)))
              (InvalidOperation "Runtime configuration target identity is empty") in
  let? o := owned cf context in
  let? row := receipt cf o in
  let? row := ok_or row NotFound in
  let? _ := ensure (oc_config_version row =? version)%Z VersionConflict in
  match oc_physical_uid row with
  | Some uid =>
      let? _ := ensure (bool_decide (uid = rt_physical_uid target)
                        && opt_is (oc_deployment_generation row) (rt_deployment_generation target))
                  VersionConflict in
      Ok (tt, cf)
  | None =>
      let? _ := ensure (bool_decide (oc_credential_state row = "captured"))
                  (InvalidOperation "Unbound configuration is not captured") in
      let row' := mkOperationConfig (oc_app_id row) (oc_lifecycle_id row) (oc_scope row)
                    (oc_config_version row) (Some (rt_physical_uid target))
                    (Some (rt_deployment_generation target))
                    (oc_credential_state row) (oc_business_state row) in
      Ok (tt, with_receipts (<[op_operation_id o := row']> (cf_receipts cf)) cf)
  end.

Definition credential_moves (old new : CredentialApplicationState) : bool :=
  bool_decide (old = new)
  || match old, new with
     | CredCaptured, (CredApplying | CredFailed)
     | CredApplying, (CredApplied | CredFailed | CredUnknown)
     | CredUnknown, CredApplied => true
     | _, _ => false
     end.
Definition business_step (before after : BusinessStartupState) : bool :=
  bool_decide (before = after)
  || match before, after with
     | BusNotStarted, (BusStarting | BusFailed)
     | BusStarting, (BusReady | BusFailed | BusUnknown)
     | BusUnknown, (BusReady | BusFailed) => true
     | _, _ => false
     end.
Definition validate_transition (old new : CredentialApplicationState)
    (before after : BusinessStartupState) : result unit UserAppStoreError :=
  ensure (negb (negb (credential_moves old new) || negb (business_step before after)
                || (negb (bool_decide (new = CredApplied))
                    && negb (match after with BusNotStarted | BusFailed => true | _ => false end))))
    (InvalidOperation "Invalid runtime configuration result transition").

Definition is_applying (c : CredentialApplicationState) : bool :=
  match c with CredApplying | CredUnknown => true | _ => false end.

Definition record (context : UserAppExecutionContext) (version : Z)
    (target : RuntimeConfigurationTarget) (credential : CredentialApplicationState)
    (startup : BusinessStartupState) : CfTx unit := λ cf,
  let? o := owned cf context in
  let? row := receipt cf o in
  let? row := ok_or row NotFound in
  let? _ := ensure ((oc_config_version row =? version)%Z
                    && opt_is (oc_physical_uid row) (rt_physical_uid target)
                    && opt_is (oc_deployment_generation row) (rt_deployment_generation target))
              VersionConflict in
  let? c := credentials (oc_credential_state row) in
  let? b := business (oc_business_state row) in
  let? _ := validate_transition c credential b startup in
  let? found := head cf (op_app_id o) (op_lifecycle_id o) (op_scope o) in
  let? h := ok_or found NotFound in
  let? _ := status (op_lifecycle_id o) (op_scope o) h in
  let? _ := ensure (match cg_applying_operation_id h with
                    | Some id => bool_decide (id = op_operation_id o)
                    | None => true end) VersionConflict in
  let row' := mkOperationConfig (oc_app_id row) (oc_lifecycle_id row) (oc_scope row)
                (oc_config_version row) (oc_physical_uid row) (oc_deployment_generation row)
                (credential_name credential) (business_name startup) in
  let applying := is_applying credential in
  let h' := mkRuntimeConfig (cg_revision h) (cg_saved_version h)
              (if bool_decide (credential = CredApplied) then Some version else cg_applied_version h)
              (if applying then Some version else None)
              (if applying then Some (op_operation_id o) else None) in
  Ok (tt, mkConfigStore (cf_base cf) (cf_versions cf)
            (<[(op_app_id o, op_lifecycle_id o, op_scope o) := h']> (cf_heads cf))
            (<[op_operation_id o := row']> (cf_receipts cf))).

(** ** The guard on endings *)

Definition validate_terminal (cf : ConfigStore) (o : UserAppOperationRecord)
    (state : UserAppOperationState) : result unit UserAppStoreError :=
  if negb (op_is_terminal state) then Ok tt else
  let? row := receipt cf o in
  match row with
  | None => Ok tt
  | Some row =>
      let? c := credentials (oc_credential_state row) in
      let? b := business (oc_business_state row) in
      let? _ := ensure (negb (is_applying c
                              || match b with BusStarting | BusUnknown => true | _ => false end))
                  (InvalidOperation "Uncertain runtime configuration outcome requires recovery") in
      ensure (negb (bool_decide (state = Succeeded)
                    && (negb (bool_decide (c = CredApplied)) || negb (bool_decide (b = BusReady)))))
        (InvalidOperation "Runtime credentials and business readiness are not confirmed")
  end.

(** The verdict on ending an operation, by its id. *)
Definition terminal_verdict (cf : ConfigStore) (state : UserAppOperationState) (id : string)
    : option UserAppStoreError :=
  match find_operation (cs_ops (cf_base cf)) (app_id (cs_app (cf_base cf))) id with
  | Some o => verdict (validate_terminal cf o state)
  | None => None
  end.

(** ** Admission with inline credentials *)

(** SHA-256 of a text, in hexadecimal. *)
Class SeedHash := seed_hash : string → string.

Section admission.
Context `{CheckpointCodec, SeedHash}.

Definition seed_deployment_credentials (o : UserAppOperationRecord) (pg : StartPgCredential)
    (cf : ConfigStore) : result ConfigStore UserAppStoreError :=
  let? _ := validate_pg pg in
  let? existing := head cf (op_app_id o) (op_lifecycle_id o) (op_scope o) in
  match existing with
  | Some row =>
      let? s := status (op_lifecycle_id o) (op_scope o) row in
      let? _ := verify_version_credentials cf o (rs_saved_version s) pg in
      Ok cf
  | None =>
      let? (_, cf) := save (op_app_id o) (op_scope o)
        {| sv_lifecycle_id := op_lifecycle_id o;
           sv_request_id := seed_hash ("deployment-configuration:" +:+ op_operation_id o);
           sv_expected_revision := 0; sv_pg := pg |} cf in
      Ok cf
  end.

Definition is_deploy (c : option UserAppControlCommand) : bool :=
  match c with Some (CmdDeploy _ _ _) => true | _ => false end.

(** The operation is inserted, then its credentials are seeded and captured, and
    the application row with its slots is written last; the request row, which
    an accepted operation never fails to write, is taken with the operation. *)
Definition admit_with_configuration (request : UserAppAdmission) (input_digest : option string)
    (pg : option StartPgCredential) (now : Z) : CfTx UserAppAdmissionOutcome := λ cf,
  let? _ := ensure (negb (is_some pg && (negb (is_deploy (adm_command request)) || is_none input_digest)))
              (InvalidOperation "Inline credentials require a private deployment input") in
  let base := cf_base cf in
  let? (out, base') := business_admit request input_digest now base in
  match pg, out with
  | None, _ => Ok (out, with_base base' cf)
  | Some pg, AdmAccepted o =>
      let inserted := with_store (mkAppStore (cs_app base) (cs_ops base') (st_requests (cs_store base'))) base' in
      let? cf := seed_deployment_credentials o pg (with_base inserted cf) in
      let? cf := capture o cf in
      Ok (out, with_base base' cf)
  | Some pg, AdmExisting o =>
      let? _ := verify_captured_credentials cf o pg in
      Ok (out, with_base base' cf)
  end.
End admission.
End Configuration.

(** ** Calls and runs

    The transactions of [ComputeSpec.v], with the guard on endings answered by
    the receipts, and those on configurations.  The calls of recovery, most of
    which end operations without that guard, are added by [ROp] of
    [LifecycleRecovery.v]. *)

Inductive FOp :=
  | FCompute (op : COp)
  | FAdmit (request : UserAppAdmission) (input_digest : option string)
      (pg : option StartPgCredential) (now : Z)
  | FSave (app : string) (scope : UserAppOperationScope) (request : SaveRuntimeConfigurationRequest)
  | FBind (context : UserAppExecutionContext) (version : Z) (target : RuntimeConfigurationTarget)
  | FRecord (context : UserAppExecutionContext) (version : Z) (target : RuntimeConfigurationTarget)
      (credential : CredentialApplicationState) (startup : BusinessStartupState).

(** Every ending asks the receipts. *)
Definition guarded (cf : ConfigStore) (op : COp) : COp :=
  match op with
  | CClaim identity revision _ =>
      CClaim identity revision (Configuration.terminal_verdict cf Failed)
  | CFinalizeInterrupted identity o _ =>
      CFinalizeInterrupted identity o (Configuration.terminal_verdict cf Failed (op_operation_id o))
  | BAdvance p _ =>
      BAdvance p (Configuration.terminal_verdict cf (pr_state p) (pr_operation_id p))
  | op => op
  end.

Definition committed_config {A} (tx : CfTx A) (cf : ConfigStore) : ConfigStore :=
  match tx cf with Ok (_, cf') => cf' | Err _ => cf end.

Section frun.
Context `{CheckpointCodec, CreationCodec, ComputeCodec, Configuration.SeedHash}.

Definition fstep (op : FOp) (cf : ConfigStore) : ConfigStore :=
  match op with
  | FCompute op => with_base (cstep (guarded cf op) (cf_base cf)) cf
  | FAdmit request input_digest pg now =>
      committed_config (Configuration.admit_with_configuration request input_digest pg now) cf
  | FSave app scope request => committed_config (Configuration.save app scope request) cf
  | FBind context version target => committed_config (Configuration.bind context version target) cf
  | FRecord context version target credential startup =>
      committed_config (Configuration.record context version target credential startup) cf
  end.

Definition frun (ops : list FOp) (cf : ConfigStore) : ConfigStore := foldl (λ cf op, fstep op cf) cf ops.

Definition fresh_config (op : FOp) (cf : ConfigStore) : Prop :=
  match op with
  | FCompute op => fresh_id op (cf_base cf)
  | FAdmit request input_digest _ now => fresh_id (BAdmit request input_digest now) (cf_base cf)
  | _ => True
  end.
Fixpoint fresh_config_run (ops : list FOp) (cf : ConfigStore) : Prop :=
  match ops with
  | [] => True
  | op :: rest => fresh_config op cf ∧ fresh_config_run rest (fstep op cf)
  end.
End frun.

(** An application without history. *)
Definition new_config_store (st : AppStore) : ConfigStore :=
  mkConfigStore (new_compute_store st) ∅ ∅ ∅.
