(* ===== verification/ConfigurationInv.v ===== *)
(** * The invariant of runtime configurations

    Heads, versions and receipts agree; an unresolved credential write is known
    to its head; the applied version is never ahead of what a live operation has
    captured.  Every call keeps it.  Kept apart from it: an operation that has
    ended has settled its receipt, but for those that recovery has ended without
    asking. *)
From S2P Require Import Prelude Validation RuntimeControl Lifecycle Evidence LifecycleDomain LifecycleStore.
From S2P Require Import LifecycleSafety OperationLease ComputeControl ComputeStore ComputeAdmission.
From S2P Require Import ComputeExecution ComputeRecovery ComputeSpec ComputeRefine ComputeBusiness ComputeMono ComputeInv.
From S2P Require Import RuntimeConfiguration.
Import Text Identifier.
Local Open Scope rust_scope.

(** ** Which operations a call ends *)

(** Operations are kept, and ended only by right. *)
Record follows (e : HeadRights) (cs cs' : ComputeStore) : Prop := {
  fw_keeps : keeps cs cs';
  fw_end : ∀ id o o', cs_ops cs !! id = Some o → cs_ops cs' !! id = Some o' →
    op_is_terminal (op_state o) = false → op_is_terminal (op_state o') = true → hr_end e id (op_state o');
}.

Lemma follows_refl e cs : follows e cs cs.
Proof. split; [done|congruence]. Qed.
Lemma follows_trans e cs1 cs2 cs3 : follows e cs1 cs2 → follows e cs2 cs3 → follows e cs1 cs3.
Proof.
  intros [K1 E1] [K2 E2]. split; [by etrans|]. intros id o o' Ho Ho' Hl Ht.
  destruct (kp_operation _ _ K1 _ _ Ho) as (o2 & Ho2 & _).
  destruct (op_is_terminal (op_state o2)) eqn:Ht2; [|by eapply E2].
  destruct (kp_operation _ _ K2 _ _ Ho2) as (o3 & Ho3 & _ & _ & _ & _ & Hsame).
  rewrite (Hsame Ht2) in Ho3. assert (o2 = o') as -> by congruence. by eapply E1.
Qed.

Lemma step_follows e cs cs' : spec_step e cs cs' → follows e cs cs'.
Proof.
  intros Hs. split; [by eapply step_keeps|]. intros id o o' Ho Ho' Hl Ht.
  destruct Hs as [| | | |st Hb Hend| | | |]; unfold cs_ops in *; simpl in Ho'; try congruence.
  by eapply Hend.
Qed.
Lemma steps_follow e cs cs' : spec_steps e cs cs' → follows e cs cs'.
Proof.
  induction 1 as [|cs1 cs2 cs3 Hs _ IH]; [apply follows_refl|].
  eapply follows_trans; [by eapply step_follows|done].
Qed.

(** ** Names of states *)

Lemma credentials_name c : Configuration.credentials (Configuration.credential_name c) = Ok c.
Proof. by destruct c. Qed.
Lemma business_name_Ok b : Configuration.business (Configuration.business_name b) = Ok b.
Proof. by destruct b. Qed.
Lemma credentials_Ok v c : Configuration.credentials v = Ok c → v = Configuration.credential_name c.
Proof. unfold Configuration.credentials. intros H. repeat case_bool_decide; by simplify_eq. Qed.
Lemma business_Ok v b : Configuration.business v = Ok b → v = Configuration.business_name b.
Proof. unfold Configuration.business. intros H. repeat case_bool_decide; by simplify_eq. Qed.

(** ** The invariant *)

(** A credential write whose outcome is not known. *)
Definition unresolved (r : OperationConfig) : Prop :=
  oc_credential_state r = "applying" ∨ oc_credential_state r = "unknown".
(** A business start whose outcome is not known. *)
Definition unsettled_start (r : OperationConfig) : Prop :=
  oc_business_state r = "starting" ∨ oc_business_state r = "unknown".
(** What an operation that ends in a state must have recorded. *)
Definition certain (r : OperationConfig) (s : UserAppOperationState) : Prop :=
  ¬ unresolved r ∧ ¬ unsettled_start r
  ∧ (s = Succeeded → oc_credential_state r = "applied" ∧ oc_business_state r = "ready").

Record receipt_ok (cf : ConfigStore) (id : string) (r : OperationConfig) : Prop := {
  ro_op : ∃ o, cs_ops (cf_base cf) !! id = Some o ∧ op_app_id o = oc_app_id r
            ∧ op_lifecycle_id o = oc_lifecycle_id r ∧ op_scope o = oc_scope r;
  ro_scope : oc_scope r ≠ Application;
  ro_head : ∃ h, cf_heads cf !! oc_key r = Some h ∧ (1 ≤ oc_config_version r ≤ cg_saved_version h)%Z;
  ro_pair : is_some (oc_physical_uid r) = is_some (oc_deployment_generation r);
  ro_bound : oc_credential_state r ≠ "captured" → is_Some (oc_physical_uid r);
  ro_named : ∀ s, oc_physical_uid r = Some s ∨ oc_deployment_generation r = Some s → s ≠ "";
  ro_states : ∃ c b, oc_credential_state r = Configuration.credential_name c
                ∧ oc_business_state r = Configuration.business_name b
                ∧ (c ≠ CredApplied → b = BusNotStarted ∨ b = BusFailed);
}.

Definition within (saved : Z) (v : option Z) : Prop := ∀ n, v = Some n → (1 ≤ n ≤ saved)%Z.

Record config_head_ok (cf : ConfigStore) (key : ConfigKey) (h : RuntimeConfig) : Prop := {
  ch_saved : cg_revision h = cg_saved_version h ∧ (1 ≤ cg_saved_version h ≤ i64_max)%Z;
  ch_applied : within (cg_saved_version h) (cg_applied_version h);
  ch_versions : ∀ v, (1 ≤ v ≤ cg_saved_version h)%Z → is_Some (cf_versions cf !! (key, v));
  ch_applying : match cg_applying_operation_id h with
                | Some id => ∃ r, cf_receipts cf !! id = Some r ∧ oc_key r = key ∧ unresolved r
                               ∧ cg_applying_version h = Some (oc_config_version r)
                | None => cg_applying_version h = None
                end;
}.

Record version_ok (cf : ConfigStore) (key : ConfigKey) (v : Z) (row : RuntimeConfigVersion) : Prop := {
  vo_head : ∃ h, cf_heads cf !! key = Some h ∧ (1 ≤ v ≤ cg_saved_version h)%Z;
  vo_scope : key.2 ≠ Application;
  vo_request : cv_request_id row ≠ "";
  vo_row : cv_expected_revision row = (v - 1)%Z ∧ cv_payload_version row = 1%Z;
  vo_pg : Configuration.validate_pg {| pg_username := cv_pg_username row;
                                       pg_password := cv_pg_password row |} = Ok tt;
}.

Record config_ok (cf : ConfigStore) : Prop := {
  fo_base : ledger_ok (cf_base cf);
  fo_versions : ∀ key v row, cf_versions cf !! (key, v) = Some row → version_ok cf key v row;
  fo_requests : ∀ key v row v' row', cf_versions cf !! (key, v) = Some row →
    cf_versions cf !! (key, v') = Some row' → cv_request_id row = cv_request_id row' → v = v';
  fo_heads : ∀ key h, cf_heads cf !! key = Some h → config_head_ok cf key h;
  fo_receipts : ∀ id r, cf_receipts cf !! id = Some r → receipt_ok cf id r;
  (** the head of a list knows its unresolved write *)
  fo_unresolved : ∀ id r h, cf_receipts cf !! id = Some r → unresolved r →
    cf_heads cf !! oc_key r = Some h → cg_applying_operation_id h = Some id;
  (** a live operation has captured nothing older than what is applied *)
  fo_ahead : ∀ id r o h a, cf_receipts cf !! id = Some r → cs_ops (cf_base cf) !! id = Some o →
    op_is_terminal (op_state o) = false → cf_heads cf !! oc_key r = Some h →
    cg_applied_version h = Some a → (a ≤ oc_config_version r)%Z;
}.

(** Operations that have ended have settled their receipts, or are excused. *)
Definition ends_certain (excused : string → Prop) (cf : ConfigStore) : Prop :=
  ∀ id r o, cf_receipts cf !! id = Some r → cs_ops (cf_base cf) !! id = Some o →
    op_is_terminal (op_state o) = true → excused id ∨ certain r (op_state o).

(** A store that starts from nothing. *)
Lemma new_config_ok st : ledger_ok (new_compute_store st) → config_ok (new_config_store st).
Proof. intros H. split; simpl; try done; intros; by rewrite ?lookup_empty in *. Qed.

(** ** Endings *)

Lemma receipt_row cf o r :
  Configuration.receipt cf o = Ok r → r = cf_receipts cf !! op_operation_id o.
Proof. unfold Configuration.receipt. intros H. unbind H. by injection H. Qed.

Lemma validate_terminal_Ok cf o s r :
  op_is_terminal s = true → Configuration.validate_terminal cf o s = Ok tt →
  cf_receipts cf !! op_operation_id o = Some r → certain r s.
Proof.
  unfold Configuration.validate_terminal. intros Ht H Hr. rewrite Ht in H. simpl in H.
  peel H as row Hrow. apply receipt_row in Hrow. rewrite Hr in Hrow. subst row.
  peel H as c Hc. peel H as b Hb. peel H as Hu. apply credentials_Ok in Hc. apply business_Ok in Hb.
  unfold ensure in H. case_match; [|done]. unfold certain, unresolved, unsettled_start. rewrite Hc, Hb.
  destruct c, b; simpl in *; try done; split_and!; try (intros [?|?]; done); try done;
    intros ->; simpl in *; done.
Qed.

Lemma verdict_None {A} (r : result A UserAppStoreError) : verdict r = None → ∃ a, r = Ok a.
Proof. destruct r; naive_solver. Qed.

(** A call that ends an operation has asked its receipt. *)
Lemma guarded_end cf op id o s r :
  ledger_ok (cf_base cf) → cs_ops (cf_base cf) !! id = Some o → op_is_terminal s = true →
  hr_end (rights (guarded cf op)) id s → cf_receipts cf !! id = Some r → certain r s.
Proof.
  intros Hok Ho Ht Hend Hr.
  assert (Configuration.terminal_verdict cf s id = None → certain r s) as Hv.
  { unfold Configuration.terminal_verdict, find_operation. rewrite Ho.
    rewrite (bool_decide_eq_true_2 _ (lk_app _ Hok _ _ Ho)). intros Hn.
    apply verdict_None in Hn as [[] Hn]. eapply validate_terminal_Ok; [done|exact Hn|].
    by rewrite (proj1 (lk_ops _ Hok) _ _ Ho). }
  destruct op; simpl in Hend; try done; naive_solver.
Qed.

(** ** Calls on the lifecycle and on compute control *)

Lemma config_ok_base cf cs' :
  config_ok cf → ledger_ok cs' → keeps (cf_base cf) cs' → config_ok (with_base cs' cf).
Proof.
  intros Hok Hl Hk.
  assert (∀ id r o', cf_receipts cf !! id = Some r → cs_ops cs' !! id = Some o' →
    ∃ o, cs_ops (cf_base cf) !! id = Some o ∧ (op_is_terminal (op_state o) = true → o' = o)) as Hback.
  { intros id r o' Hr Ho'. destruct (ro_op _ _ _ (fo_receipts _ Hok _ _ Hr)) as (o & Ho & _).
    destruct (kp_operation _ _ Hk _ _ Ho) as (o2 & Ho2 & _ & _ & _ & _ & Hsame).
    assert (o2 = o') as -> by congruence. eauto. }
  destruct Hok as [_ Hv Hq Hh Hr Hu Ha]. split; simpl; try done.
  - intros key v row Hrow. by destruct (Hv _ _ _ Hrow).
  - intros key h Hh'. by destruct (Hh _ _ Hh').
  - intros id r Hid. destruct (Hr _ _ Hid) as [(o & Ho & ? & ? & ?) ? ? ? ? ? ?]. split; try done.
    destruct (kp_operation _ _ Hk _ _ Ho) as (o' & Ho' & ? & ? & ? & ? & _).
    exists o'. split_and!; [done|congruence..].
  - intros id r o' h a Hid Ho' Ht Hh' Happ. destruct (Hback _ _ _ Hid Ho') as (o & Ho & Hsame).
    eapply Ha; try done. destruct (op_is_terminal (op_state o)) eqn:Hl0; [|done].
    rewrite (Hsame eq_refl) in Ht. congruence.
Qed.
Lemma ends_base excused cf cs' :
  config_ok cf → keeps (cf_base cf) cs' → ends_certain excused cf →
  (∀ id o o' r, cs_ops (cf_base cf) !! id = Some o → cs_ops cs' !! id = Some o' →
     op_is_terminal (op_state o) = false → op_is_terminal (op_state o') = true →
     cf_receipts cf !! id = Some r → excused id ∨ certain r (op_state o')) →
  ends_certain excused (with_base cs' cf).
Proof.
  intros Hok Hk He Hend id r o' Hr Ho' Ht. destruct (ro_op _ _ _ (fo_receipts _ Hok _ _ Hr)) as (o & Ho & _).
  destruct (kp_operation _ _ Hk _ _ Ho) as (o2 & Ho2 & _ & _ & _ & _ & Hsame). simpl in *.
  assert (o2 = o') as -> by congruence. destruct (op_is_terminal (op_state o)) eqn:Hl; [|by eapply Hend].
  rewrite (Hsame eq_refl) in *. by eapply He.
Qed.

Section calls.
Context `{CheckpointCodec, CreationCodec, ComputeCodec, Configuration.SeedHash}.

Lemma guarded_fresh cf op : fresh_id op (cf_base cf) → fresh_id (guarded cf op) (cf_base cf).
Proof. by destruct op. Qed.

Lemma compute_config_ok cf op :
  config_ok cf → fresh_id op (cf_base cf) → config_ok (fstep (FCompute op) cf).
Proof.
  intros Hok Hf. simpl. apply guarded_fresh in Hf. pose proof (fo_base _ Hok) as Hb.
  pose proof (steps_follow _ _ _ (cstep_steps _ _ (lk_keyed _ Hb) Hf)) as [Hk _].
  by apply config_ok_base; [|apply cstep_ledger_ok|].
Qed.
Lemma compute_ends excused cf op :
  config_ok cf → fresh_id op (cf_base cf) → ends_certain excused cf →
  ends_certain excused (fstep (FCompute op) cf).
Proof.
  intros Hok Hf He. simpl. apply guarded_fresh in Hf. pose proof (fo_base _ Hok) as Hb.
  pose proof (steps_follow _ _ _ (cstep_steps _ _ (lk_keyed _ Hb) Hf)) as [Hk Hend].
  apply ends_base; try done. intros id o o' r Ho Ho' Hl Ht Hr. right. eapply guarded_end; try done. by eapply Hend.
Qed.
End calls.

(** ** Saving *)

Lemma find_saved_Some cf key request v row :
  Configuration.find_saved cf key request = Some (v, row) →
  cf_versions cf !! (key, v) = Some row ∧ cv_request_id row = request.
Proof.
  unfold Configuration.find_saved. intros H. apply head_Some_elem_of in H.
  apply list_elem_of_omap in H as ([[k v'] row'] & Hin & Heq). apply elem_of_map_to_list in Hin.
  case_match eqn:Hb; [|done]. bools. by simplify_eq.
Qed.
Lemma find_saved_None cf key request v row :
  Configuration.find_saved cf key request = None → cf_versions cf !! (key, v) = Some row →
  cv_request_id row ≠ request.
Proof.
  unfold Configuration.find_saved. intros H Hrow Heq. apply head_None in H.
  assert ((v, row) ∈ @nil (Z * RuntimeConfigVersion)) as Hin; [|by apply not_elem_of_nil in Hin].
  rewrite <- H. apply list_elem_of_omap. exists ((key, v), row).
  split; [by apply elem_of_map_to_list|]. by rewrite !bool_decide_eq_true_2.
Qed.

Definition revision_of (previous : option RuntimeConfig) : Z :=
  match previous with Some h => cg_revision h | None => 0%Z end.
(** A new version, and the head that names it. *)
Definition saved_head (previous : option RuntimeConfig) (v : Z) : RuntimeConfig :=
  match previous with
  | None => mkRuntimeConfig v v None None None
  | Some old => mkRuntimeConfig v v (cg_applied_version old) (cg_applying_version old)
                  (cg_applying_operation_id old)
  end.
Lemma saved_head_numbers p v :
  cg_saved_version (saved_head p v) = v ∧ cg_revision (saved_head p v) = v.
Proof. by destruct p. Qed.
Definition add_version (key : ConfigKey) (request : SaveRuntimeConfigurationRequest) (cf : ConfigStore)
    : ConfigStore :=
  let previous := cf_heads cf !! key in
  let v := (revision_of previous + 1)%Z in
  mkConfigStore (cf_base cf)
    (<[(key, v) := {| cv_request_id := sv_request_id request; cv_expected_revision := revision_of previous;
                      cv_payload_version := 1; cv_pg_username := pg_username (sv_pg request);
                      cv_pg_password := pg_password (sv_pg request) |}]> (cf_versions cf))
    (<[key := saved_head previous v]> (cf_heads cf)) (cf_receipts cf).

Lemma status_Ok lifecycle scope h s :
  Configuration.status lifecycle scope h = Ok s →
  s = {| rs_lifecycle_id := lifecycle; rs_scope := scope; rs_revision := cg_revision h;
         rs_saved_version := cg_saved_version h; rs_applied_version := cg_applied_version h;
         rs_applying_version := cg_applying_version h;
         rs_applying_operation_id := cg_applying_operation_id h;
         rs_pending := negb (opt_is (cg_applied_version h) (cg_saved_version h)) |}.
Proof. unfold Configuration.status. intros H. unbind H. by injection H. Qed.

(** What a save that went through did. *)
Record save_done (app : string) (scope : UserAppOperationScope)
    (request : SaveRuntimeConfigurationRequest) (res : SavedRuntimeConfiguration)
    (cf cf' : ConfigStore) : Prop := {
  sd_scope : scope ≠ Application;
  sd_request : sv_request_id request ≠ "";
  sd_pg : Configuration.validate_pg (sv_pg request) = Ok tt;
  sd_effect :
    let key := (app, sv_lifecycle_id request, scope) in
    match Configuration.find_saved cf key (sv_request_id request) with
    | Some (v, row) => cf' = cf ∧ Configuration.same_save row request = true ∧ sr_config_version res = v
    | None => cf' = add_version key request cf
        ∧ sv_expected_revision request = revision_of (cf_heads cf !! key)
        ∧ sr_config_version res = (revision_of (cf_heads cf !! key) + 1)%Z
        ∧ (revision_of (cf_heads cf !! key) + 1 ≤ i64_max)%Z
        ∧ cf_versions cf !! (key, (revision_of (cf_heads cf !! key) + 1)%Z) = None
    end;
}.

Lemma save_new_Ok app scope request cf res cf' :
  let key := (app, sv_lifecycle_id request, scope) in
  Configuration.save_new app scope request (cf_heads cf !! key) cf = Ok (res, cf') →
  cf' = add_version key request cf
  ∧ sv_expected_revision request = revision_of (cf_heads cf !! key)
  ∧ sr_config_version res = (revision_of (cf_heads cf !! key) + 1)%Z
  ∧ (revision_of (cf_heads cf !! key) + 1 ≤ i64_max)%Z
  ∧ cf_versions cf !! (key, (revision_of (cf_heads cf !! key) + 1)%Z) = None.
Proof.
  intros key. unfold Configuration.save_new. fold key. intros H. peel H as u Hu.
  peel H as rev Hrev. assert (rev = revision_of (cf_heads cf !! key)) as ->.
  { destruct (cf_heads cf !! key); [|by injection Hrev]. peel Hrev as s Hs.
    apply status_Ok in Hs. by simplify_eq/=. }
  peel H as Hexp. peel H as v Hv. peel H as Hn. peel H as s Hs. injection H as <- <-. bools.
  assert (revision_of (cf_heads cf !! key) + 1 ≤ i64_max)%Z as Hmax
    by (pose proof (i64_checked_succ_bound _ _ Hv); apply i64_checked_succ_Some in Hv; lia).
  apply i64_checked_succ_Some in Hv as ->. unfold add_version. simpl.
  by split_and!.
Qed.

Lemma environment_Ok scope u : Configuration.environment scope = Ok u → scope ≠ Application.
Proof. intros H ->. done. Qed.

Lemma save_Ok app scope request cf res cf' :
  Configuration.save app scope request cf = Ok (res, cf') → save_done app scope request res cf cf'.
Proof.
  unfold Configuration.save. intros H. peel H as u Henv. apply environment_Ok in Henv. peel H as i Hi.
  peel H as pg Hpg. peel H as Hexp. peel H as a Ha. peel H as prev Hprev.
  destruct pg. apply map_err_Ok in Hi.
  unfold Configuration.head in Hprev. unbind Hprev. injection Hprev as <-.
  split; [done|intros Hq; by rewrite Hq in Hi|done|]. simpl. destruct (Configuration.find_saved _ _ _) as [[v row]|] eqn:Hfs.
  - peel H as Hsame. do 2 unbind H. by injection H as <- <-.
  - by apply save_new_Ok in H.
Qed.

Section save.
Context (cf : ConfigStore) (key : ConfigKey) (request : SaveRuntimeConfigurationRequest).
Hypothesis cf_ok : config_ok cf.
Local Abbreviation previous := (cf_heads cf !! key).
Local Abbreviation v := (revision_of previous + 1)%Z.
Local Abbreviation cf' := (add_version key request cf).

Lemma previous_saved h : previous = Some h → cg_saved_version h = cg_revision h.
Proof. intros Hp. by destruct (ch_saved _ _ _ (fo_heads _ cf_ok _ _ Hp)). Qed.
Lemma version_positive : (1 ≤ v)%Z.
Proof.
  destruct previous as [h|] eqn:Hp; simpl; [|lia].
  destruct (ch_saved _ _ _ (fo_heads _ cf_ok _ _ Hp)). lia.
Qed.

(** The head of a list only grows. *)
Lemma saved_grows k h : cf_heads cf !! k = Some h → ∃ h', cf_heads cf' !! k = Some h'
  ∧ (cg_saved_version h ≤ cg_saved_version h')%Z ∧ cg_applied_version h' = cg_applied_version h
  ∧ cg_applying_operation_id h' = cg_applying_operation_id h
  ∧ cg_applying_version h' = cg_applying_version h.
Proof.
  intros Hk. unfold add_version. simpl. destruct (decide (k = key)) as [->|Hne].
  - pose proof (previous_saved _ Hk) as Hs. rewrite lookup_insert_eq.
    eexists. split; [done|]. rewrite Hk in *. simpl in *. split_and!; try done; lia.
  - rewrite lookup_insert_ne by done. exists h. by split_and!.
Qed.

Lemma saved_head_ok : (v ≤ i64_max)%Z → config_head_ok cf' key (saved_head previous v).
Proof.
  intros Hmax. pose proof version_positive as Hpos. split.
  - destruct (saved_head_numbers previous v) as [-> ->]. lia.
  - intros n. destruct previous as [h|] eqn:Hp; simpl; [|done]. intros Hn.
    apply (ch_applied _ _ _ (fo_heads _ cf_ok _ _ Hp)) in Hn. rewrite (previous_saved _ Hp) in Hn. lia.
  - intros n Hn. unfold add_version. simpl.
    rewrite (proj1 (saved_head_numbers previous v)) in Hn.
    destruct (decide (n = v)) as [->|Hnv]; [by rewrite lookup_insert_eq|].
    rewrite lookup_insert_ne by congruence. destruct previous as [h|] eqn:Hp; simpl in *; [|exfalso; lia].
    apply (ch_versions _ _ _ (fo_heads _ cf_ok _ _ Hp)). rewrite (previous_saved _ Hp). lia.
  - destruct previous as [h|] eqn:Hp; simpl; [|done].
    exact (ch_applying _ _ _ (fo_heads _ cf_ok _ _ Hp)).
Qed.

Lemma saved_row k n row : cf_versions cf' !! (k, n) = Some row →
  (k = key ∧ n = v ∧ cv_request_id row = sv_request_id request) ∨ cf_versions cf !! (k, n) = Some row.
Proof.
  intros Hrow. unfold add_version in Hrow. simpl in Hrow.
  apply lookup_insert_Some in Hrow as [[Heq <-]|[_ Hrow]]; [left; by simplify_eq|by right].
Qed.

Lemma config_ok_save :
  key.2 ≠ Application → sv_request_id request ≠ "" → Configuration.validate_pg (sv_pg request) = Ok tt →
  Configuration.find_saved cf key (sv_request_id request) = None →
  (v ≤ i64_max)%Z → config_ok cf'.
Proof.
  intros Hsc Hreq Hpg Hfs Hmax. pose proof version_positive as Hpos.
  pose proof saved_row as Hrows.
  pose proof saved_grows as Hgrow.
  split.
  - apply cf_ok.
  - intros k n row Hrow. unfold add_version in Hrow. simpl in Hrow.
    apply lookup_insert_Some in Hrow as [[Heq <-]|[_ Hrow]].
    + injection Heq as <- <-. split; simpl; try done.
      * rewrite lookup_insert_eq. exists (saved_head previous v).
        split; [done|]. destruct (saved_head_numbers previous v) as [-> _]. lia.
      * split; [lia|done].
    + destruct (fo_versions _ cf_ok _ _ _ Hrow) as [(h & Hh & Hb) ? ? ? ?]. split; try done.
      destruct (Hgrow _ _ Hh) as (h' & Hh' & Hle & _). exists h'. split; [done|lia].
  - intros k n row n' row' Hrow Hrow' Heq.
    destruct (Hrows _ _ _ Hrow) as [(-> & -> & Hq)|Hold], (Hrows _ _ _ Hrow') as [(Hk & -> & Hq')|Hold'].
    + done.
    + exfalso. eapply find_saved_None; [exact Hfs|exact Hold'|]. congruence.
    + subst k. exfalso. eapply find_saved_None; [exact Hfs|exact Hold|]. congruence.
    + by eapply fo_requests.
  - intros k h Hh. unfold add_version in Hh. simpl in Hh.
    apply lookup_insert_Some in Hh as [[<- <-]|[Hne Hh]].
    + by apply saved_head_ok.
    + destruct (fo_heads _ cf_ok _ _ Hh) as [? ? Hvs ?]. split; try done.
      intros n Hn. unfold add_version. simpl. rewrite lookup_insert_ne by congruence. by apply Hvs.
  - intros id r Hr. destruct (fo_receipts _ cf_ok _ _ Hr) as [? ? (h & Hh & Hb) ? ? ? ?].
    split; try done. destruct (Hgrow _ _ Hh) as (h' & Hh' & Hle & _). exists h'. split; [done|lia].
  - intros id r h' Hr Hu Hh'. destruct (ro_head _ _ _ (fo_receipts _ cf_ok _ _ Hr)) as (h & Hh & _).
    destruct (Hgrow _ _ Hh) as (h2 & Hh2 & _ & _ & Hap & _). assert (h2 = h') as -> by congruence.
    rewrite Hap. by eapply fo_unresolved.
  - intros id r o h' a Hr Ho Hl Hh' Ha. destruct (ro_head _ _ _ (fo_receipts _ cf_ok _ _ Hr)) as (h & Hh & _).
    destruct (Hgrow _ _ Hh) as (h2 & Hh2 & _ & Happ & _). assert (h2 = h') as -> by congruence.
    rewrite Happ in Ha. by eapply fo_ahead.
Qed.
End save.

Lemma save_config_ok app scope request cf res cf' :
  config_ok cf → Configuration.save app scope request cf = Ok (res, cf') → config_ok cf'.
Proof.
  intros Hok H. apply save_Ok in H as [Hsc Hreq Hpg Heff]. simpl in Heff.
  destruct (Configuration.find_saved _ _ _) as [[v row]|] eqn:Hfs; [by destruct Heff as [-> _]|].
  destruct Heff as (-> & _ & _ & Hmax & _). by apply config_ok_save.
Qed.
Lemma save_ends excused app scope request cf res cf' :
  save_done app scope request res cf cf' → ends_certain excused cf → ends_certain excused cf'.
Proof.
  intros [_ _ _ Heff]. simpl in Heff.
  destruct (Configuration.find_saved _ _ _) as [[v row]|]; by destruct Heff as [-> _].
Qed.

(** ** Capturing *)

Definition add_receipt (o : UserAppOperationRecord) (version : Z) (cf : ConfigStore) : ConfigStore :=
  with_receipts (<[op_operation_id o :=
    mkOperationConfig (op_app_id o) (op_lifecycle_id o) (op_scope o) version None None
      "captured" "not_started"]> (cf_receipts cf)) cf.
Definition op_key (o : UserAppOperationRecord) : ConfigKey := (op_app_id o, op_lifecycle_id o, op_scope o).

Lemma head_Ok cf app lifecycle scope h :
  Configuration.head cf app lifecycle scope = Ok h →
  scope ≠ Application ∧ h = cf_heads cf !! (app, lifecycle, scope).
Proof.
  unfold Configuration.head. intros H. peel H as u Hu. apply environment_Ok in Hu. by injection H.
Qed.

Lemma capture_Ok o cf cf' :
  Configuration.capture o cf = Ok cf' →
  cf' = cf ∨ ∃ h v, op_scope o ≠ Application ∧ cf_heads cf !! op_key o = Some h
    ∧ cg_applying_operation_id h = None ∧ (v = cg_saved_version h ∨ cg_applied_version h = Some v)
    ∧ cf_receipts cf !! op_operation_id o = None ∧ cf' = add_receipt o v cf.
Proof.
  unfold Configuration.capture. intros H. case_match; [left; by injection H|]. peel H as found Hh.
  apply head_Ok in Hh as [Hsc ->]. fold (op_key o) in H.
  destruct (cf_heads cf !! op_key o) as [h|] eqn:Hh; [|left; by injection H].
  peel H as s Hs. apply status_Ok in Hs as ->. peel H as Hb. peel H as Hb'. simpl in *.
  case_match eqn:Hv; [|left; by injection H]. peel H as Hn. injection H as <-. bools. right.
  eexists h, _. split_and!; try done. destruct (Configuration.applied_only o); [by right|left; by simplify_eq].
Qed.

Lemma config_ok_capture o v h cf :
  config_ok cf → cs_ops (cf_base cf) !! op_operation_id o = Some o →
  op_is_terminal (op_state o) = false → op_scope o ≠ Application →
  cf_heads cf !! op_key o = Some h → (v = cg_saved_version h ∨ cg_applied_version h = Some v) →
  cf_receipts cf !! op_operation_id o = None → config_ok (add_receipt o v cf).
Proof.
  intros Hok Ho Hl Hsc Hh Hv Hnone. destruct Hok as [Hb Hvs Hq Hhs Hr Hu Ha].
  pose proof (Hhs _ _ Hh) as [[Hrs Hb1] Happ _ _].
  assert (1 ≤ v ≤ cg_saved_version h)%Z as Hbound by (destruct Hv as [->|Hv]; [lia|by apply Happ]).
  split; simpl; try done.
  - intros key n row Hrow. by destruct (Hvs _ _ _ Hrow).
  - intros key h' Hh'. destruct (Hhs _ _ Hh') as [? ? ? Hap]. split; try done. simpl.
    destruct (cg_applying_operation_id h') as [id|]; [|done]. destruct Hap as (r & Hid & ?).
    exists r. rewrite lookup_insert_ne; [done|congruence].
  - intros id r Hid. apply lookup_insert_Some in Hid as [[<- <-]|[_ Hid]]; [|by destruct (Hr _ _ Hid)].
    split; simpl; try done; [by exists o|by exists h|naive_solver|].
    exists CredCaptured, BusNotStarted. split_and!; auto.
  - intros id r h' Hid Hun Hh'. apply lookup_insert_Some in Hid as [[<- <-]|[_ Hid]].
    + by destruct Hun.
    + by eapply Hu.
  - intros id r o' h' a Hid Ho' Ht Hh' Hap.
    apply lookup_insert_Some in Hid as [[<- <-]|[_ Hid]]; [|by eapply Ha]. simpl in *.
    unfold op_key in Hh. assert (h' = h) as -> by (unfold oc_key in Hh'; simpl in Hh'; congruence).
    destruct Hv as [->|Hv]; [apply Happ in Hap; lia|]. assert (a = v) as -> by congruence. lia.
Qed.
Lemma capture_ends excused o v cf :
  cs_ops (cf_base cf) !! op_operation_id o = Some o → op_is_terminal (op_state o) = false →
  ends_certain excused cf → ends_certain excused (add_receipt o v cf).
Proof.
  intros Ho Hl He id r o' Hr Ho' Ht. simpl in *.
  apply lookup_insert_Some in Hr as [[<- <-]|[_ Hr]]; [congruence|by eapply He].
Qed.

(** ** The executor's calls *)

Lemma owned_Ok cf context o :
  Configuration.owned cf context = Ok o →
  cs_ops (cf_base cf) !! ctx_operation_id context = Some o ∧ op_state o = Running
  ∧ op_operation_id o = ctx_operation_id context
  ∧ op_lifecycle_id o = app_lifecycle_id (cs_app (cf_base cf)).
Proof.
  unfold Configuration.owned. intros H. peel H as w Hw. peel H as t Ht. destruct t as [a1 o1]. peel H as Hb.
  injection H as <-. unfold current_operation in Ht. peel Ht as a2 Ha. peel Ht as Hlf. peel Ht as o2 Ho.
  peel Ht as Hs. injection Ht as -> ->. apply find_app_Some in Ha as [-> _].
  apply find_operation_some in Ho as [Hrow _]. unfold op_owns in Hb. bools. split_and!; try done. congruence.
Qed.

Lemma bind_Ok context version target cf u cf' :
  Configuration.bind context version target cf = Ok (u, cf') →
  cf' = cf ∨ ∃ o r, Configuration.owned cf context = Ok o
    ∧ cf_receipts cf !! op_operation_id o = Some r ∧ oc_config_version r = version
    ∧ oc_physical_uid r = None ∧ oc_credential_state r = "captured"
    ∧ rt_physical_uid target ≠ "" ∧ rt_deployment_generation target ≠ ""
    ∧ cf' = with_receipts (<[op_operation_id o :=
        mkOperationConfig (oc_app_id r) (oc_lifecycle_id r) (oc_scope r) (oc_config_version r)
          (Some (rt_physical_uid target)) (Some (rt_deployment_generation target))
          (oc_credential_state r) (oc_business_state r)]> (cf_receipts cf)) cf.
Proof.
  unfold Configuration.bind. intros H. peel H as Hne. peel H as o Ho. peel H as found Hf.
  apply receipt_row in Hf as ->. peel H as r Hr. peel H as Hv. bools.
  destruct (oc_physical_uid r) eqn:Hp; [left; unbind H; by injection H|right].
  peel H as Hc. injection H as <- <-. bools. exists o, r. split_and!; try done.
  - intros Hs. by rewrite Hs in *.
  - intros Hs. by rewrite Hs in *.
Qed.

Lemma bind_config_ok context version target cf u cf' :
  config_ok cf → Configuration.bind context version target cf = Ok (u, cf') → config_ok cf'.
Proof.
  intros Hok H. apply bind_Ok in H as [->|(o & r & Hown & Hr & _ & Hp & Hc & Hu & Hg & ->)]; [done|].
  destruct Hok as [Hb Hvs Hq Hhs Hrs Hun Ha].
  assert (∀ id r', <[op_operation_id o := mkOperationConfig (oc_app_id r) (oc_lifecycle_id r) (oc_scope r)
      (oc_config_version r) (Some (rt_physical_uid target)) (Some (rt_deployment_generation target))
      (oc_credential_state r) (oc_business_state r)]> (cf_receipts cf) !! id = Some r' →
    ∃ r0, cf_receipts cf !! id = Some r0 ∧ oc_key r' = oc_key r0 ∧ oc_config_version r' = oc_config_version r0
      ∧ oc_credential_state r' = oc_credential_state r0 ∧ oc_business_state r' = oc_business_state r0) as Hold.
  { intros id r' Hid. apply lookup_insert_Some in Hid as [[<- <-]|[_ Hid]]; [by exists r|by exists r']. }
  split; simpl; try done.
  - intros key n row Hrow. by destruct (Hvs _ _ _ Hrow).
  - intros key h Hh. destruct (Hhs _ _ Hh) as [? ? ? Hap]. split; try done. simpl.
    destruct (cg_applying_operation_id h) as [id|]; [|done]. destruct Hap as (r0 & Hid & Hk & Hur & Hav).
    exists r0. rewrite lookup_insert_ne; [done|]. intros <-. unfold unresolved in Hur.
    assert (r0 = r) as -> by congruence. rewrite Hc in Hur. by destruct Hur.
  - intros id r' Hid. apply lookup_insert_Some in Hid as [[<- <-]|[_ Hid]]; [|by destruct (Hrs _ _ Hid)].
    destruct (Hrs _ _ Hr) as [? ? ? ? ? ? ?]. split; simpl; try done. naive_solver.
  - intros id r' h Hid Hur. destruct (Hold _ _ Hid) as (r0 & Hr0 & -> & _ & Hcs & _).
    apply (Hun id r0); [done|]. unfold unresolved in *. by rewrite <- Hcs.
  - intros id r' o' h a Hid Ho' Ht Hh Hap. destruct (Hold _ _ Hid) as (r0 & Hr0 & Hk & -> & _).
    rewrite Hk in Hh. by eapply Ha.
Qed.
(** The executor that binds a target or reports runs, so its operation has not
    ended. *)
Lemma bind_ends excused context version target cf u cf' :
  Configuration.bind context version target cf = Ok (u, cf') → ends_certain excused cf → ends_certain excused cf'.
Proof.
  intros H He. apply bind_Ok in H as [->|(o & r & Hown & _ & _ & _ & _ & _ & _ & ->)]; [done|].
  destruct (owned_Ok _ _ _ Hown) as (Ho & Hst & Hid & _). intros id r' o' Hr' Ho' Ht. simpl in *.
  apply lookup_insert_Some in Hr' as [[<- <-]|[_ Hr']]; [|by eapply He].
  rewrite <- Hid in Ho. assert (o' = o) as -> by congruence. by rewrite Hst in Ht.
Qed.

(** What a report does: the receipt takes the new states, and the head the
    version applied and the write in flight. *)
Definition reported (r : OperationConfig) (c : CredentialApplicationState) (b : BusinessStartupState)
    : OperationConfig :=
  mkOperationConfig (oc_app_id r) (oc_lifecycle_id r) (oc_scope r) (oc_config_version r)
    (oc_physical_uid r) (oc_deployment_generation r)
    (Configuration.credential_name c) (Configuration.business_name b).
Definition reported_head (h : RuntimeConfig) (id : string) (version : Z) (c : CredentialApplicationState)
    : RuntimeConfig :=
  mkRuntimeConfig (cg_revision h) (cg_saved_version h)
    (if bool_decide (c = CredApplied) then Some version else cg_applied_version h)
    (if Configuration.is_applying c then Some version else None)
    (if Configuration.is_applying c then Some id else None).
Definition report (o : UserAppOperationRecord) (r : OperationConfig) (h : RuntimeConfig)
    (c : CredentialApplicationState) (b : BusinessStartupState) (cf : ConfigStore) : ConfigStore :=
  mkConfigStore (cf_base cf) (cf_versions cf)
    (<[op_key o := reported_head h (op_operation_id o) (oc_config_version r) c]> (cf_heads cf))
    (<[op_operation_id o := reported r c b]> (cf_receipts cf)).

Lemma record_Ok context version target c b cf u cf' :
  Configuration.record context version target c b cf = Ok (u, cf') →
  ∃ o r h c0 b0, Configuration.owned cf context = Ok o ∧ cf_receipts cf !! op_operation_id o = Some r
    ∧ oc_config_version r = version ∧ oc_physical_uid r = Some (rt_physical_uid target)
    ∧ oc_deployment_generation r = Some (rt_deployment_generation target)
    ∧ oc_credential_state r = Configuration.credential_name c0
    ∧ oc_business_state r = Configuration.business_name b0
    ∧ Configuration.validate_transition c0 c b0 b = Ok tt
    ∧ op_scope o ≠ Application ∧ cf_heads cf !! op_key o = Some h
    ∧ (cg_applying_operation_id h = None ∨ cg_applying_operation_id h = Some (op_operation_id o))
    ∧ cf' = report o r h c b cf.
Proof.
  unfold Configuration.record. intros H. peel H as o Ho. peel H as found Hf.
  apply receipt_row in Hf as ->. peel H as r Hr. peel H as Hb. peel H as c0 Hc. peel H as b0 Hbs.
  peel H as v Hv. destruct v. peel H as fh Hh. apply head_Ok in Hh as [Hsc ->]. peel H as h Hh.
  unbind H. peel H as Hap. injection H as <- <-. bools.
  apply credentials_Ok in Hc. apply business_Ok in Hbs.
  exists o, r, h, c0, b0. split_and!; try done.
  - destruct (cg_applying_operation_id h); [right; bools; by subst|by left].
  - unfold report, reported_head. by subst version.
Qed.

Lemma transition_Ok c0 c b0 b :
  Configuration.validate_transition c0 c b0 b = Ok tt →
  Configuration.credential_moves c0 c = true ∧ Configuration.business_step b0 b = true
  ∧ (c ≠ CredApplied → b = BusNotStarted ∨ b = BusFailed).
Proof.
  unfold Configuration.validate_transition, ensure. case_match eqn:Hb; [|done]. intros _.
  apply negb_true_iff, orb_false_iff in Hb as [Hb Hb']. bools. split_and!; try done. intros Hc.
  rewrite bool_decide_eq_false_2 in Hb' by done. simpl in Hb'. bools. destruct b; auto; done.
Qed.

Lemma unresolved_reported r c b : unresolved (reported r c b) ↔ Configuration.is_applying c = true.
Proof. unfold unresolved. destruct c; simpl; naive_solver. Qed.

(** Two live operations of one application and scope are the same. *)
Lemma live_alone cs id o id' o' :
  ledger_ok cs → cs_ops cs !! id = Some o → cs_ops cs !! id' = Some o' →
  op_is_terminal (op_state o) = false → op_is_terminal (op_state o') = false →
  op_scope o = op_scope o' → id = id'.
Proof.
  intros Hok Ho Ho' Hl Hl' Hsc. destruct (lk_ops _ Hok) as [_ Hown].
  pose proof (Hown _ _ Ho (lk_app _ Hok _ _ Ho) Hl). pose proof (Hown _ _ Ho' (lk_app _ Hok _ _ Ho') Hl').
  rewrite Hsc in *. congruence.
Qed.

Section report.
Context (cf : ConfigStore) (context : UserAppExecutionContext) (o : UserAppOperationRecord).
Context (r : OperationConfig) (h : RuntimeConfig) (c : CredentialApplicationState) (b : BusinessStartupState).
Hypothesis cf_ok : config_ok cf.
Hypothesis owner : Configuration.owned cf context = Ok o.
Hypothesis has_receipt : cf_receipts cf !! op_operation_id o = Some r.
Hypothesis has_head : cf_heads cf !! op_key o = Some h.
Hypothesis not_other : cg_applying_operation_id h = None ∨ cg_applying_operation_id h = Some (op_operation_id o).
Hypothesis bound : is_Some (oc_physical_uid r).
Hypothesis consistent : c ≠ CredApplied → b = BusNotStarted ∨ b = BusFailed.
Local Abbreviation cf' := (report o r h c b cf).

Lemma owner_row : cs_ops (cf_base cf) !! op_operation_id o = Some o ∧ op_state o = Running.
Proof. destruct (owned_Ok _ _ _ owner) as (Ho & Hst & Hid & _). by rewrite Hid. Qed.
Lemma receipt_key : oc_key r = op_key o.
Proof.
  destruct (ro_op _ _ _ (fo_receipts _ cf_ok _ _ has_receipt)) as (o' & Ho' & Ha & Hl & Hs).
  destruct owner_row as [Ho _]. assert (o' = o) as -> by congruence. unfold oc_key, op_key. by rewrite Ha, Hl, Hs.
Qed.

Lemma reported_heads k h' : cf_heads cf' !! k = Some h' →
  (k = op_key o ∧ h' = reported_head h (op_operation_id o) (oc_config_version r) c)
  ∨ (k ≠ op_key o ∧ cf_heads cf !! k = Some h').
Proof. simpl. intros H. apply lookup_insert_Some in H as [[<- <-]|[Hne H]]; [by left|right; split; congruence]. Qed.
Lemma reported_receipts id r' : cf_receipts cf' !! id = Some r' →
  (id = op_operation_id o ∧ r' = reported r c b) ∨ (id ≠ op_operation_id o ∧ cf_receipts cf !! id = Some r').
Proof. simpl. intros H. apply lookup_insert_Some in H as [[<- <-]|[Hne H]]; [by left|right; split; congruence]. Qed.
Lemma reported_saved k h0 : cf_heads cf !! k = Some h0 →
  ∃ h', cf_heads cf' !! k = Some h' ∧ cg_saved_version h' = cg_saved_version h0.
Proof.
  intros Hk. simpl. destruct (decide (k = op_key o)) as [->|Hne].
  - rewrite lookup_insert_eq. eexists. split; [done|]. simpl. congruence.
  - rewrite lookup_insert_ne by done. eauto.
Qed.

Lemma reported_head_ok k h' : cf_heads cf' !! k = Some h' → config_head_ok cf' k h'.
Proof.
  intros Hh'. pose proof receipt_key as Hkey. apply reported_heads in Hh' as [[-> ->]|[Hne Hh']].
  - destruct (fo_heads _ cf_ok _ _ has_head) as [Hs Ha Hv _]. split; simpl; try done.
    + case_bool_decide; [|done]. intros n [= <-].
      destruct (ro_head _ _ _ (fo_receipts _ cf_ok _ _ has_receipt)) as (h1 & Hh1 & Hb).
      rewrite Hkey in Hh1. by assert (h1 = h) as -> by congruence.
    + destruct (Configuration.is_applying c) eqn:Happ; [|done]. exists (reported r c b).
      rewrite lookup_insert_eq. split_and!; try done. by apply unresolved_reported.
  - destruct (fo_heads _ cf_ok _ _ Hh') as [Hs Ha Hv Hap]. split; try done.
    destruct (cg_applying_operation_id h') as [id|]; [|done]. destruct Hap as (r0 & Hr0 & Hk & ? & ?).
    exists r0. split_and!; try done. simpl. rewrite lookup_insert_ne; [done|]. intros <-.
    assert (r0 = r) as -> by congruence. congruence.
Qed.

Lemma reported_receipt_ok id r' : cf_receipts cf' !! id = Some r' → receipt_ok cf' id r'.
Proof.
  intros Hr'. apply reported_receipts in Hr' as [[-> ->]|[Hne Hr']].
  - destruct (fo_receipts _ cf_ok _ _ has_receipt) as [? ? (h0 & Hh0 & Hb) ? ? ? _]. split; try done.
    + destruct (reported_saved _ _ Hh0) as (h' & Hh' & Hs). exists h'. rewrite Hs. done.
    + by exists c, b.
  - destruct (fo_receipts _ cf_ok _ _ Hr') as [? ? (h0 & Hh0 & Hb) ? ? ? ?]. split; try done.
    destruct (reported_saved _ _ Hh0) as (h' & Hh' & Hs). exists h'. rewrite Hs. done.
Qed.

Lemma config_ok_report : config_ok cf'.
Proof.
  pose proof receipt_key as Hkey. destruct owner_row as [Ho Hst].
  assert (op_is_terminal (op_state o) = false) as Hlive by (by rewrite Hst). split.
  - apply cf_ok.
  - intros k n row Hrow. destruct (fo_versions _ cf_ok _ _ _ Hrow) as [(h0 & Hh0 & Hb) ? ? ? ?]. split; try done.
    destruct (reported_saved _ _ Hh0) as (h' & Hh' & Hs). exists h'. by rewrite Hs.
  - apply cf_ok.
  - exact reported_head_ok.
  - exact reported_receipt_ok.
  - intros id r' h' Hr' Hu Hh'. apply reported_receipts in Hr' as [[-> ->]|[Hne Hr']].
    + apply unresolved_reported in Hu. apply reported_heads in Hh' as [[_ ->]|[Hk _]]; [simpl; by rewrite Hu|done].
    + apply reported_heads in Hh' as [[Hk ->]|[Hk Hh']]; [|by eapply fo_unresolved].
      assert (cg_applying_operation_id h = Some id) as Hid by (eapply fo_unresolved; [done..|by rewrite Hk]).
      exfalso. destruct not_other; congruence.
  - intros id r' o' h' a Hr' Ho' Hl' Hh' Ha. simpl in Ho'.
    apply reported_receipts in Hr' as [[-> ->]|[Hne Hr']].
    + apply reported_heads in Hh' as [[_ ->]|[Hk _]]; [|done]. simpl in *. case_bool_decide; [by simplify_eq|].
      eapply (fo_ahead _ cf_ok); try done. by rewrite Hkey.
    + apply reported_heads in Hh' as [[Hk ->]|[Hk Hh']]; [|by eapply fo_ahead]. exfalso. apply Hne.
      eapply (live_alone (cf_base cf)); try done; [apply cf_ok|].
      destruct (ro_op _ _ _ (fo_receipts _ cf_ok _ _ Hr')) as (o2 & Ho2 & _ & _ & Hsc).
      assert (o2 = o') as -> by congruence. unfold oc_key, op_key in Hk. congruence.
Qed.
End report.

Lemma record_config_ok context version target c b cf u cf' :
  config_ok cf → Configuration.record context version target c b cf = Ok (u, cf') → config_ok cf'.
Proof.
  intros Hok H. apply record_Ok in H as (o & r & h & c0 & b0 & Hown & Hr & _ & Hp & _ & _ & _ & Hv & _ & Hh & Ha & ->).
  apply transition_Ok in Hv as (_ & _ & Hc). eapply config_ok_report; try done.
Qed.
Lemma record_ends excused context version target c b cf u cf' :
  Configuration.record context version target c b cf = Ok (u, cf') → ends_certain excused cf → ends_certain excused cf'.
Proof.
  intros H He. apply record_Ok in H as (o & r & h & c0 & b0 & Hown & _ & _ & _ & _ & _ & _ & _ & _ & _ & _ & ->).
  destruct (owned_Ok _ _ _ Hown) as (Ho & Hst & Hid & _). intros id r' o' Hr' Ho' Ht. simpl in *.
  apply lookup_insert_Some in Hr' as [[<- <-]|[_ Hr']]; [|by eapply He].
  rewrite <- Hid in Ho. assert (o' = o) as -> by congruence. by rewrite Hst in Ht.
Qed.

(** ** Admission *)

Section admit_config.
Context `{CheckpointCodec, CreationCodec, ComputeCodec, Configuration.SeedHash}.

(** What seeding leaves: the saved version carries the given credentials. *)
Lemma seed_Ok o pg cf cf' :
  Configuration.seed_deployment_credentials o pg cf = Ok cf' →
  cf' = cf ∧ (∃ h row, cf_heads cf !! op_key o = Some h
      ∧ cf_versions cf !! (op_key o, cg_saved_version h) = Some row
      ∧ cv_pg_username row = pg_username pg ∧ cv_pg_password row = pg_password pg)
  ∨ cf_heads cf !! op_key o = None ∧ ∃ request res,
      sv_lifecycle_id request = op_lifecycle_id o ∧ sv_pg request = pg
      ∧ save_done (op_app_id o) (op_scope o) request res cf cf'.
Proof.
  unfold Configuration.seed_deployment_credentials. intros H'. unbind H'. peel H' as found Hf.
  apply head_Ok in Hf as [_ ->]. fold (op_key o) in H'.
  destruct (cf_heads cf !! op_key o) as [h|] eqn:Hh; [left|right].
  - peel H' as s Hs. apply status_Ok in Hs as ->. peel H' as u Hu. injection H' as <-. split; [done|].
    unfold Configuration.verify_version_credentials in Hu. unbind Hu. peel Hu as row Hrow.
    fold (op_key o) in Hrow. apply ensure_Ok in Hu as Hb. bools. by exists h, row.
  - split; [done|]. peel H' as t Ht. destruct t as [res cf1]. injection H' as <-.
    apply save_Ok in Ht. eexists _, res. split_and!; [..|exact Ht]; done.
Qed.

Lemma business_admit_Ok request input_digest now cs out cs' :
  ledger_ok cs → cs_controls cs !! adm_operation_id request = None →
  business_admit request input_digest now cs = Ok (out, cs') →
  ledger_ok cs' ∧ keeps cs cs'
  ∧ (∀ id o o', cs_ops cs !! id = Some o → cs_ops cs' !! id = Some o' →
       op_is_terminal (op_state o) = false → op_is_terminal (op_state o') = true → False)
  ∧ match out with
    | AdmAccepted o => cs_ops cs' !! op_operation_id o = Some o ∧ op_state o = Pending
        ∧ cs_ops cs !! op_operation_id o = None
    | AdmExisting o => True
    end.
Proof.
  intros Hok Hf Htx. assert (cstep (BAdmit request input_digest now) cs = cs') as Hstep
    by (simpl; unfold after; by rewrite Htx).
  pose proof (cstep_ledger_ok (BAdmit request input_digest now) cs Hok Hf) as Hok'. rewrite Hstep in Hok'.
  pose proof (cstep_steps (BAdmit request input_digest now) cs (lk_keyed _ Hok) Hf) as Hs.
  rewrite Hstep in Hs. apply steps_follow in Hs as [Hk Hend]. split_and!; [done|done|exact Hend|].
  destruct out as [o|o]; [|done]. unfold business_admit in Htx. peel Htx as t Ht. destruct t as [out st].
  injection Htx as -> <-. apply admit_tx_spec in Ht as [(records & _ & Hacc) _ Hnew Hins _ _].
  unfold cs_ops. simpl. rewrite Hins, lookup_insert_eq. split_and!; try done. apply Hacc.
Qed.

Lemma admit_config_ok request input_digest pg now cf out cf' :
  config_ok cf → cs_controls (cf_base cf) !! adm_operation_id request = None →
  Configuration.admit_with_configuration request input_digest pg now cf = Ok (out, cf') → config_ok cf'.
Proof.
  intros Hok Hf. unfold Configuration.admit_with_configuration. intros H'. peel H' as Hpg.
  peel H' as t Ht. destruct t as [out1 base'].
  destruct (business_admit_Ok _ _ _ _ _ _ (fo_base _ Hok) Hf Ht) as (Hb' & Hk & Hend & Hout).
  assert (config_ok (with_base base' cf)) as Hok1 by (by apply config_ok_base).
  destruct pg as [pg|]; [|by injection H' as <- <-].
  destruct out1 as [o|o]; [|unbind H'; by injection H' as <- <-]. destruct Hout as (Ho & Hpend & Hnew).
  peel H' as cf2 Hseed. peel H' as cf3 Hcap. injection H' as <- <-.
  assert (config_ok (with_base base' cf2)) as Hok2.
  { apply seed_Ok in Hseed as [[-> _]|(_ & req & res & _ & _ & [Hsc Hreq Hv Heff])]; [done|]. simpl in Heff.
    destruct (Configuration.find_saved _ _ _) as [[? ?]|] eqn:Hfs; [by destruct Heff as [-> _]|].
    destruct Heff as (-> & _ & _ & Hmax & _). exact (config_ok_save _ (op_app_id o, sv_lifecycle_id req, op_scope o) req Hok1 Hsc Hreq Hv Hfs Hmax). }
  apply capture_Ok in Hcap as [->|(h & v & Hsc & Hh & _ & Hv & Hn & ->)]; [done|].
  apply (config_ok_capture o v h _ Hok2); try done. by rewrite Hpend.
Qed.
Lemma admit_ends excused request input_digest pg now cf out cf' :
  config_ok cf → cs_controls (cf_base cf) !! adm_operation_id request = None →
  Configuration.admit_with_configuration request input_digest pg now cf = Ok (out, cf') →
  ends_certain excused cf → ends_certain excused cf'.
Proof.
  intros Hok Hf. unfold Configuration.admit_with_configuration. intros H' He. peel H' as Hpg.
  peel H' as t Ht. destruct t as [out1 base'].
  destruct (business_admit_Ok _ _ _ _ _ _ (fo_base _ Hok) Hf Ht) as (_ & Hk & Hend & Hout).
  assert (ends_certain excused (with_base base' cf)) as He1 by (apply ends_base; try done; intros; exfalso; eauto).
  destruct pg as [pg|]; [|by injection H' as <- <-].
  destruct out1 as [o|o]; [|unbind H'; by injection H' as <- <-]. destruct Hout as (Ho & Hpend & _).
  peel H' as cf2 Hseed. peel H' as cf3 Hcap. injection H' as <- <-.
  assert (ends_certain excused (with_base base' cf2)) as He2.
  { apply seed_Ok in Hseed as [[-> _]|(_ & req & res & _ & _ & [_ _ _ Heff])]; [done|]. simpl in Heff.
    destruct (Configuration.find_saved _ _ _) as [[? ?]|]; by destruct Heff as [-> _]. }
  apply capture_Ok in Hcap as [->|(h & v & _ & _ & _ & _ & _ & ->)]; [done|].
  apply (capture_ends excused o v (with_base base' cf2)); try done. by rewrite Hpend.
Qed.

(** ** Runs *)

Lemma fstep_config_ok op cf : config_ok cf → fresh_config op cf → config_ok (fstep op cf).
Proof.
  intros Hok Hf. destruct op as [op|request d pg now|app scope request|context v t|context v t c b]; simpl in *.
  - by apply compute_config_ok.
  - unfold committed_config. destruct (Configuration.admit_with_configuration _ _ _ _ _) as [[? ?]|] eqn:E; [|done].
    by eapply admit_config_ok.
  - unfold committed_config. destruct (Configuration.save _ _ _ _) as [[? ?]|] eqn:E; [|done]. by eapply save_config_ok.
  - unfold committed_config. destruct (Configuration.bind _ _ _ _) as [[? ?]|] eqn:E; [|done]. by eapply bind_config_ok.
  - unfold committed_config. destruct (Configuration.record _ _ _ _ _ _) as [[? ?]|] eqn:E; [|done].
    by eapply record_config_ok.
Qed.

Lemma fstep_ends excused op cf :
  config_ok cf → fresh_config op cf → ends_certain excused cf → ends_certain excused (fstep op cf).
Proof.
  intros Hok Hf He. destruct op as [op|request d pg now|app scope request|context v t|context v t c b]; cbn [fstep];
    unfold committed_config.
  - by apply compute_ends.
  - destruct (Configuration.admit_with_configuration _ _ _ _ _) as [[? ?]|] eqn:E; [|done]. by eapply admit_ends.
  - destruct (Configuration.save _ _ _ _) as [[? ?]|] eqn:E; [|done]. apply save_Ok in E. by eapply save_ends.
  - destruct (Configuration.bind _ _ _ _) as [[? ?]|] eqn:E; [|done]. by eapply bind_ends.
  - destruct (Configuration.record _ _ _ _ _ _) as [[? ?]|] eqn:E; [|done]. by eapply record_ends.
Qed.

Lemma frun_config_ok ops cf : config_ok cf → fresh_config_run ops cf → config_ok (frun ops cf).
Proof.
  revert cf. induction ops as [|op ops IH]; intros cf Hok Hf; [done|]. destruct Hf as [Hf Hfs].
  apply IH; [by apply fstep_config_ok|done].
Qed.

Lemma frun_app ops more cf : frun (ops ++ more) cf = frun more (frun ops cf).
Proof. apply foldl_app. Qed.
Lemma fresh_config_app ops more cf :
  fresh_config_run (ops ++ more) cf ↔ fresh_config_run ops cf ∧ fresh_config_run more (frun ops cf).
Proof. revert cf. induction ops as [|op ops IH]; intros cf; simpl; [naive_solver|]. rewrite IH. naive_solver. Qed.
End admit_config.
