(* ===== verification/ConfigurationTheorems.v ===== *)
(** * Theorems on runtime configuration

    What the invariant says of every sequence of calls, and what no call takes
    back. *)
From S2P Require Import Prelude Validation RuntimeControl Lifecycle Evidence LifecycleDomain LifecycleStore.
From S2P Require Import LifecycleSafety LifecycleSamples OperationLease ComputeControl ComputeStore.
From S2P Require Import ComputeAdmission ComputeExecution ComputeRecovery ComputeSpec ComputeRefine ComputeBusiness ComputeMono.
From S2P Require Import ComputeInv ComputeSamples RuntimeConfiguration ConfigurationInv.
Import Text Identifier.
Local Open Scope rust_scope.

(** ** What is kept *)

Definition not_less (v v' : option Z) : Prop := ∀ a, v = Some a → ∃ a', v' = Some a' ∧ (a ≤ a')%Z.

(** Versions stay, heads only advance, and a receipt keeps its version and, once
    bound, its target. *)
Record config_later (cf cf' : ConfigStore) : Prop := {
  cl_app : app_id (cs_app (cf_base cf')) = app_id (cs_app (cf_base cf));
  cl_versions : cf_versions cf ⊆ cf_versions cf';
  cl_heads : ∀ key h, cf_heads cf !! key = Some h → ∃ h', cf_heads cf' !! key = Some h'
    ∧ (cg_saved_version h ≤ cg_saved_version h')%Z
    ∧ not_less (cg_applied_version h) (cg_applied_version h');
  cl_receipts : ∀ id r, cf_receipts cf !! id = Some r → ∃ r', cf_receipts cf' !! id = Some r'
    ∧ oc_key r' = oc_key r ∧ oc_config_version r' = oc_config_version r
    ∧ (is_Some (oc_physical_uid r) → oc_physical_uid r' = oc_physical_uid r
        ∧ oc_deployment_generation r' = oc_deployment_generation r);
}.

Lemma not_less_refl v : not_less v v.
Proof. intros a Ha. exists a. split; [done|lia]. Qed.
#[global] Instance config_later_preorder : PreOrder config_later.
Proof.
  split.
  - intros cf. split; [done|done|..]; intros k x Hx; exists x; split_and!; try done. apply not_less_refl.
  - intros cf1 cf2 cf3 [A1 V1 H1 R1] [A2 V2 H2 R2]. split; [congruence|by etrans|..].
    + intros key h Hh. destruct (H1 _ _ Hh) as (h2 & Hh2 & Hs & Ha). destruct (H2 _ _ Hh2) as (h3 & Hh3 & Hs' & Ha').
      exists h3. split_and!; [done|lia|]. intros a Hap. apply Ha in Hap as (a2 & Hap & Hle).
      apply Ha' in Hap as (a3 & Hap & Hle'). exists a3. split; [done|lia].
    + intros id r Hr. destruct (R1 _ _ Hr) as (r2 & Hr2 & Hk & Hv & Ht). destruct (R2 _ _ Hr2) as (r3 & Hr3 & Hk' & Hv' & Ht').
      exists r3. split_and!; [done|congruence..|]. intros Hp. destruct (Ht Hp) as [Hu Hg].
      rewrite <- Hu, <- Hg. apply Ht'. by rewrite Hu.
Qed.

Lemma later_base cs' cf : keeps (cf_base cf) cs' → config_later cf (with_base cs' cf).
Proof. intros Hk. split; [apply Hk|done|..]; simpl; intros k x Hx; exists x; split_and!; try done. apply not_less_refl. Qed.

Lemma later_save cf key request :
  config_ok cf → cf_versions cf !! (key, (revision_of (cf_heads cf !! key) + 1)%Z) = None →
  config_later cf (add_version key request cf).
Proof.
  intros Hok Hn. split; [done|..].
  - by apply insert_subseteq.
  - intros k h Hh. destruct (saved_grows _ key request Hok _ _ Hh) as (h' & Hh' & Hs & Ha & _).
    exists h'. rewrite Ha. split_and!; [done|done|apply not_less_refl].
  - intros id r Hr. by exists r.
Qed.

Lemma later_capture o v cf :
  cf_receipts cf !! op_operation_id o = None → config_later cf (add_receipt o v cf).
Proof.
  intros Hn. split; [done|done|..]; simpl.
  - intros k h Hh. exists h. split_and!; try done. apply not_less_refl.
  - intros id r Hr. exists r. rewrite lookup_insert_ne; [done|congruence].
Qed.

Lemma later_report o r h c b cf context :
  config_ok cf → Configuration.owned cf context = Ok o → cf_receipts cf !! op_operation_id o = Some r →
  cf_heads cf !! op_key o = Some h → config_later cf (report o r h c b cf).
Proof.
  intros Hok Hown Hr Hh. pose proof (receipt_key _ _ _ _ Hok Hown Hr) as Hkey.
  destruct (owner_row _ _ _ Hown) as [Ho Hst]. split; [done|done|..]; simpl.
  - intros k h0 Hh0. destruct (decide (k = op_key o)) as [->|Hne].
    + assert (h0 = h) as -> by congruence. rewrite lookup_insert_eq. eexists. split_and!; [done|done|].
      simpl. case_bool_decide; [|apply not_less_refl]. intros a Ha. eexists. split; [done|].
      eapply (fo_ahead _ Hok _ _ _ _ _ Hr Ho); [by rewrite Hst|by rewrite Hkey|done].
    + rewrite lookup_insert_ne by done. exists h0. split_and!; try done. apply not_less_refl.
  - intros id r0 Hr0. destruct (decide (id = op_operation_id o)) as [->|Hne].
    + assert (r0 = r) as -> by congruence. rewrite lookup_insert_eq. eexists. by split_and!.
    + rewrite lookup_insert_ne by done. by exists r0.
Qed.

(** ** Reading back *)

Lemma status_readable cf app lifecycle scope h :
  config_ok cf → cf_heads cf !! (app, lifecycle, scope) = Some h →
  ∃ s, Configuration.status lifecycle scope h = Ok s.
Proof.
  intros Hok Hh. destruct (fo_heads _ Hok _ _ Hh) as [[Hrev Hs] Happ _ Ha].
  assert (within (cg_saved_version h) (cg_applying_version h)
          ∧ is_some (cg_applying_version h) = is_some (cg_applying_operation_id h)) as [Hw Hp].
  { destruct (cg_applying_operation_id h) as [id|].
    - destruct Ha as (r & Hr & Hk & _ & ->). split; [|done]. intros n [= <-].
      destruct (ro_head _ _ _ (fo_receipts _ Hok _ _ Hr)) as (h' & Hh' & Hb). rewrite Hk in Hh'.
      by assert (h' = h) as -> by congruence.
    - by rewrite Ha. }
  assert (∀ v, within (cg_saved_version h) v → Configuration.stray (cg_saved_version h) v = false) as Hst.
  { intros [n|] Hn; simpl; [|done]. specialize (Hn n eq_refl). lia. }
  unfold Configuration.status. rewrite (Hst _ Happ), (Hst _ Hw), Hp, eqb_reflx, Hrev, Z.eqb_refl.
  rewrite (proj2 (Z.ltb_ge _ _)) by lia. simpl. eauto.
Qed.

(** What a save answers with is stored, and its input is valid. *)
Record stored (app : string) (scope : UserAppOperationScope) (request : SaveRuntimeConfigurationRequest)
    (v : Z) (cf : ConfigStore) : Prop := {
  so_row : ∃ row, cf_versions cf !! ((app, sv_lifecycle_id request, scope), v) = Some row
    ∧ cv_request_id row = sv_request_id request ∧ Configuration.same_save row request = true;
  so_scope : scope ≠ Application;
  so_pg : Configuration.validate_pg (sv_pg request) = Ok tt;
  so_expected : (0 <=? sv_expected_revision request)%Z = true;
  so_request : is_ok (validate_identifier (sv_request_id request) "request_id") = true;
  so_app : app_id (cs_app (cf_base cf)) = app;
}.

Lemma save_stored app scope request saved cf cf' :
  config_ok cf → Configuration.save app scope request cf = Ok (saved, cf') →
  stored app scope request (sr_config_version saved) cf'.
Proof.
  intros Hok H. pose proof (save_Ok _ _ _ _ _ _ H) as [Hsc _ Hpg Heff]. simpl in Heff.
  assert (cf_base cf' = cf_base cf) as Hb
    by (destruct (Configuration.find_saved _ _ _) as [[? ?]|]; by destruct Heff as [-> _]).
  unfold Configuration.save in H. peel H as env Henv. peel H as u Hi. peel H as w Hw. peel H as Hexp. peel H as x Hcur. clear H.
  unfold Configuration.current_app in Hcur. peel Hcur as y Hy. apply find_app_Some in Hy as [_ Happ].
  apply map_err_Ok in Hi. split; try done; [|by rewrite Hi|by rewrite Hb].
  destruct (Configuration.find_saved _ _ _) as [[v row]|] eqn:Hfs.
  - destruct Heff as (-> & Hsame & ->). apply find_saved_Some in Hfs as [Hrow Hq]. by exists row.
  - destruct Heff as (-> & He & -> & _). unfold add_version. simpl. rewrite lookup_insert_eq.
    eexists. split_and!; [done|done|]. unfold Configuration.same_save. simpl.
    by rewrite He, Z.eqb_refl, !bool_decide_eq_true_2.
Qed.

Lemma save_again cf cf1 app scope request saved :
  config_ok cf → config_later cf1 cf → stored app scope request (sr_config_version saved) cf1 →
  app_id (cs_app (cf_base cf)) = app_id (cs_app (cf_base cf1)) →
  app_state (cs_app (cf_base cf)) = Active →
  app_lifecycle_id (cs_app (cf_base cf)) = sv_lifecycle_id request →
  ∃ saved', Configuration.save app scope request cf = Ok (saved', cf)
    ∧ sr_config_version saved' = sr_config_version saved
    ∧ (sr_config_version saved ≤ rs_saved_version (sr_status saved'))%Z.
Proof.
  intros Hok Hl [(row & Hrow & Hq & Hsame) Hsc Hpg Hexp Hreq Happ] Hid Hact Hlf.
  eapply lookup_weaken in Hrow; [|by apply Hl].
  destruct (vo_head _ _ _ _ (fo_versions _ Hok _ _ _ Hrow)) as (h & Hh & Hb).
  destruct (status_readable _ _ _ _ _ Hok Hh) as [s Hs].
  destruct (Configuration.find_saved cf (app, sv_lifecycle_id request, scope) (sv_request_id request))
    as [[v' row']|] eqn:Hfs; [|by eapply find_saved_None in Hfs; [..|exact Hrow]].
  pose proof (find_saved_Some _ _ _ _ _ Hfs) as [Hrow' Hq'].
  assert (v' = sr_config_version saved) as -> by (eapply fo_requests; [done..|congruence]).
  assert (row' = row) as -> by congruence.
  unfold Configuration.save, Configuration.environment, Configuration.current_app, find_app, Configuration.head,
    Configuration.environment, validate_active.
  rewrite bool_decide_eq_false_2 by done. simpl.
  destruct (validate_identifier _ _); [|done]. simpl. rewrite Hpg. simpl. rewrite Hexp. simpl.
  rewrite Hid, Happ, bool_decide_eq_true_2 by done. simpl. rewrite Hlf, bool_decide_eq_true_2 by done. simpl.
  rewrite Hact, bool_decide_eq_true_2 by done. simpl. rewrite Hfs, Hsame. simpl. rewrite Hh. simpl. rewrite Hs. simpl.
  eexists. split_and!; try done. simpl. apply status_Ok in Hs as ->. simpl. lia.
Qed.

Section theorems.
Context `{CheckpointCodec, CreationCodec, ComputeCodec, Configuration.SeedHash}.

Lemma save_later app scope request cf res cf' :
  config_ok cf → save_done app scope request res cf cf' → config_later cf cf'.
Proof.
  intros Hok [_ _ _ Heff]. simpl in Heff. destruct (Configuration.find_saved _ _ _) as [[? ?]|].
  - by destruct Heff as [-> _].
  - destruct Heff as (-> & _ & _ & _ & Hn). by apply later_save.
Qed.

Lemma bind_later context version target cf u cf' :
  Configuration.bind context version target cf = Ok (u, cf') → config_later cf cf'.
Proof.
  intros E. apply bind_Ok in E as [->|(o & r & _ & Hr & _ & Hp & _ & _ & _ & ->)]; [done|].
  split; [done|done|..]; simpl.
  - intros k h Hh. exists h. split_and!; try done. apply not_less_refl.
  - intros id r0 Hr0. destruct (decide (id = op_operation_id o)) as [->|Hne].
    + assert (r0 = r) as -> by congruence. rewrite lookup_insert_eq. eexists. split_and!; try done.
      rewrite Hp. by intros [].
    + rewrite lookup_insert_ne by done. by exists r0.
Qed.

Lemma admit_later request input_digest pg now cf out cf' :
  config_ok cf → cs_controls (cf_base cf) !! adm_operation_id request = None →
  Configuration.admit_with_configuration request input_digest pg now cf = Ok (out, cf') → config_later cf cf'.
Proof.
  intros Hok Hf. unfold Configuration.admit_with_configuration. intros H'. peel H' as Hpg.
  peel H' as t Ht. destruct t as [out1 base'].
  destruct (business_admit_Ok _ _ _ _ _ _ (fo_base _ Hok) Hf Ht) as (Hb' & Hk & Hend & Hout).
  pose proof (later_base base' cf Hk) as Hl1.
  assert (config_ok (with_base base' cf)) as Hok1 by (by apply config_ok_base).
  destruct pg as [pg|]; [|by injection H' as <- <-].
  destruct out1 as [o|o]; [|unbind H'; by injection H' as <- <-].
  peel H' as cf2 Hseed. peel H' as cf3 Hcap. injection H' as <- <-. etrans; [exact Hl1|].
  assert (config_later (with_base base' cf) (with_base base' cf2)) as Hl2.
  { apply seed_Ok in Hseed as [[-> _]|(_ & req & res & _ & _ & [_ _ _ Heff])]; [done|]. simpl in Heff.
    destruct (Configuration.find_saved _ _ _) as [[? ?]|]; [by destruct Heff as [-> _]|].
    destruct Heff as (-> & _ & _ & _ & Hn).
    exact (later_save (with_base base' cf) (op_app_id o, sv_lifecycle_id req, op_scope o) req Hok1 Hn). }
  etrans; [exact Hl2|]. apply capture_Ok in Hcap as [->|(h & v & _ & _ & _ & _ & Hn & ->)]; [done|].
  exact (later_capture o v (with_base base' cf2) Hn).
Qed.

Lemma fstep_later op cf : config_ok cf → fresh_config op cf → config_later cf (fstep op cf).
Proof.
  intros Hok Hf. destruct op as [op|request d pg now|app scope request|context v t|context v t c b]; simpl in *.
  - apply guarded_fresh in Hf. apply later_base.
    by apply steps_follow with (e := rights (guarded cf op)), cstep_steps; [apply (fo_base _ Hok)|].
  - unfold committed_config. destruct (Configuration.admit_with_configuration _ _ _ _ _) as [[? ?]|] eqn:E; [|done].
    by eapply admit_later.
  - unfold committed_config. destruct (Configuration.save _ _ _ _) as [[? ?]|] eqn:E; [|done].
    eapply save_later; [done|by apply save_Ok].
  - unfold committed_config. destruct (Configuration.bind _ _ _ _) as [[? ?]|] eqn:E; [|done]. by eapply bind_later.
  - unfold committed_config. destruct (Configuration.record _ _ _ _ _ _) as [[? ?]|] eqn:E; [|done].
    apply record_Ok in E as (o & r & h & cold & bold & Hown & Hr & _ & _ & _ & _ & _ & _ & _ & Hh & _ & ->).
    by eapply later_report.
Qed.
Lemma frun_later ops cf : config_ok cf → fresh_config_run ops cf → config_later cf (frun ops cf).
Proof.
  revert cf. induction ops as [|op ops IH]; intros cf Hok Hfs; [done|].
  destruct Hfs as [Hf Hfs]. etrans; [by apply fstep_later|]. apply IH; [by apply fstep_config_ok|done].
Qed.

Lemma config_run ops st :
  store_ok st → fresh_config_run ops (new_config_store st) → config_ok (frun ops (new_config_store st)).
Proof. intros Hst Hf. apply frun_config_ok; [by apply new_config_ok, store_ok_ledger|done]. Qed.

Lemma runs_later ops more st :
  store_ok st → fresh_config_run (ops ++ more) (new_config_store st) →
  let cf := frun ops (new_config_store st) in
  config_ok cf ∧ config_ok (frun (ops ++ more) (new_config_store st))
  ∧ config_later cf (frun (ops ++ more) (new_config_store st)).
Proof.
  intros Hst Hf. split_and!; [|by apply config_run|].
  - apply fresh_config_app in Hf as [Hf _]. by apply config_run.
  - rewrite frun_app. apply fresh_config_app in Hf as [Hf Hm]. apply frun_later; [by apply config_run|done].
Qed.

(** Only deployments are admitted with credentials, and they take the version
    that is saved. *)
Lemma deploy_kind request digest now cs o cs' pg :
  negb (is_some (Some pg : option StartPgCredential)
        && (negb (Configuration.is_deploy (adm_command request)) || is_none digest)) = true →
  business_admit request digest now cs = Ok (AdmAccepted o, cs') →
  Configuration.applies_credentials (op_kind o) = true ∧ Configuration.applied_only o = false.
Proof.
  simpl. intros Hd H'. bools. unfold business_admit in H'. peel H' as t Ht. destruct t as [out st].
  injection H' as -> <-. pose proof (admit_tx_spec _ _ _ _ _ _ _ Ht) as [(records & _ & Hacc) [Hchk _] _ _ _ _].
  unfold admission_request_checks in Hchk.
  do 2 unbind Hchk. peel Hchk as Hkind. clear Hchk. pose proof (af_request _ _ _ _ _ Hacc) as Hsame.
  unfold same_request in Hsame. bools. unfold Configuration.applied_only, Configuration.applies_credentials.
  destruct (adm_command request) as [[restart ? ?| | | | | | | | | | | | | |]|]; try done. bools.
  repeat match goal with E : op_kind o = _ |- _ => rewrite E | E : op_command o = _ |- _ => rewrite E end.
  rewrite <- Hkind. by destruct restart.
Qed.

(** What an admission with credentials has captured. *)
Lemma admit_captured request digest pg now cf o cf' :
  config_ok cf → fresh_config (FAdmit request digest (Some pg) now) cf →
  Configuration.admit_with_configuration request digest (Some pg) now cf = Ok (AdmAccepted o, cf') →
  ∃ r row, cf_receipts cf' !! op_operation_id o = Some r
    ∧ cf_versions cf' !! (oc_key r, oc_config_version r) = Some row
    ∧ cv_pg_username row = pg_username pg ∧ cv_pg_password row = pg_password pg.
Proof.
  intros Hok Hf. unfold Configuration.admit_with_configuration. intros H'. peel H' as Hpg.
  peel H' as t Ht. destruct t as [out1 base']. destruct out1 as [o1|o1]; [|by unbind H'].
  peel H' as cf2 Hseed. peel H' as cf3 Hcap. injection H' as -> <-.
  pose proof (deploy_kind _ _ _ _ _ _ _ Hpg Ht) as [Hk Hal].
  assert (∃ h row, cf_heads cf2 !! op_key o = Some h
      ∧ cf_versions cf2 !! (op_key o, cg_saved_version h) = Some row
      ∧ cv_pg_username row = pg_username pg ∧ cv_pg_password row = pg_password pg) as (h & row & Hh & Hrow & Hu & Hp).
  { apply seed_Ok in Hseed as [[-> Hex]|(Hn & req & res & Hlf & <- & [_ _ _ Heff])]; [done|].
    simpl in Heff. rewrite Hlf in Heff. destruct (Configuration.find_saved _ _ _) as [[v row]|] eqn:Hfs.
    - exfalso. apply find_saved_Some in Hfs as [Hrow _].
      destruct (vo_head _ _ _ _ (fo_versions _ Hok _ _ _ Hrow)) as (h & Hh & _).
      simpl in Hn. unfold op_key in Hn. congruence.
    - destruct Heff as (-> & _). fold (op_key o). unfold add_version. rewrite Hn. simpl. rewrite lookup_insert_eq.
      eexists _, _. split; [done|]. simpl. by rewrite lookup_insert_eq. }
  unfold Configuration.capture in Hcap. rewrite Hk in Hcap. simpl in Hcap. peel Hcap as found Hfound.
  apply head_Ok in Hfound as [_ ->]. fold (op_key o) in Hcap. rewrite Hh in Hcap.
  peel Hcap as s Hs. peel Hcap as Hb. peel Hcap as Hb'. rewrite Hal in Hcap. peel Hcap as Hnew.
  injection Hcap as <-. simpl. rewrite lookup_insert_eq. eexists _, row. split; [done|]. done.
Qed.

(** What the owner of a receipt reads. *)
Lemma read_Ok cf context o r row :
  config_ok cf → Configuration.owned cf context = Ok o → cf_receipts cf !! op_operation_id o = Some r →
  cf_versions cf !! (oc_key r, oc_config_version r) = Some row →
  ∃ cap, Configuration.read cf context = Ok (Some cap)
    ∧ cap_pg cap = {| pg_username := cv_pg_username row; pg_password := cv_pg_password row |}
    ∧ cap_operation_id cap = op_operation_id o.
Proof.
  intros Hok Hown Hr Hrow. pose proof (receipt_key _ _ _ _ Hok Hown Hr) as Hkey. unfold oc_key, op_key in Hkey.
  destruct (fo_receipts _ Hok _ _ Hr) as [_ _ (h & _ & Hb) Hpair _ _ (c & b & Hc & Hbs & _)].
  destruct (fo_versions _ Hok _ _ _ Hrow) as [_ _ _ [_ Hpay] Hpg].
  unfold Configuration.read. rewrite Hown. simpl. unfold Configuration.receipt. rewrite Hr. injection Hkey as -> -> ->.
  rewrite !bool_decide_eq_true_2, Hpair, eqb_reflx, (proj2 (Z.leb_le _ _)) by (done || lia). simpl.
  rewrite Hrow. simpl. rewrite Hpay. simpl. rewrite Hpg. simpl.
  rewrite Hc, Hbs, credentials_name, business_name_Ok. simpl. by eexists.
Qed.

(** *** The schema *)

Lemma valid_pg_nonempty pg :
  Configuration.validate_pg pg = Ok tt → pg_username pg ≠ "" ∧ pg_password pg ≠ "".
Proof.
  unfold Configuration.validate_pg. intros Hv. peel Hv as u Hu. apply map_err_Ok in Hu.
  apply ensure_Ok in Hv. split; intros E; rewrite E in *; done.
Qed.

Lemma receipt_operation cf id r :
  config_ok cf → cf_receipts cf !! id = Some r →
  ∃ o, cs_ops (cf_base cf) !! id = Some o ∧ op_key o = oc_key r.
Proof.
  intros Hok Hr. destruct (ro_op _ _ _ (fo_receipts _ Hok _ _ Hr)) as (o & Ho & Ha & Hl & Hs).
  exists o. split; [done|]. unfold op_key, oc_key. by rewrite Ha, Hl, Hs.
Qed.

Lemma receipt_version cf id r :
  config_ok cf → cf_receipts cf !! id = Some r → is_Some (cf_versions cf !! (oc_key r, oc_config_version r)).
Proof.
  intros Hok Hr. destruct (ro_head _ _ _ (fo_receipts _ Hok _ _ Hr)) as (h & Hh & Hb).
  by apply (ch_versions _ _ _ (fo_heads _ Hok _ _ Hh)).
Qed.

Lemma schema_head cf key h :
  config_ok cf → cf_heads cf !! key = Some h →
  key.2 ≠ Application ∧ (1 ≤ cg_revision h)%Z
  ∧ (∀ v, v = Some (cg_saved_version h) ∨ v = cg_applied_version h ∨ v = cg_applying_version h →
       match v with Some n => is_Some (cf_versions cf !! (key, n)) | None => True end)
  ∧ (cg_applying_version h = None ↔ cg_applying_operation_id h = None)
  ∧ ∀ id, cg_applying_operation_id h = Some id → ∃ o, cs_ops (cf_base cf) !! id = Some o ∧ op_key o = key.
Proof.
  intros Hok Hh. destruct (fo_heads _ Hok _ _ Hh) as [[Hrev Hs] Happ Hv Ha].
  destruct (Hv (cg_saved_version h)) as [row Hrow]; [lia|]. split_and!.
  - by apply (vo_scope _ _ _ _ (fo_versions _ Hok _ _ _ Hrow)).
  - lia.
  - intros [n|]; [|done]. intros [[= ->]|[Hn|Hn]]; [by rewrite Hrow|by apply Hv, Happ|].
    destruct (cg_applying_operation_id h); [|congruence]. destruct Ha as (r & Hr & <- & _ & Hav).
    rewrite Hav in Hn. injection Hn as ->. by eapply receipt_version.
  - destruct (cg_applying_operation_id h); [|done]. destruct Ha as (r & _ & _ & _ & ->). done.
  - intros id Hid. rewrite Hid in Ha. destruct Ha as (r & Hr & <- & _). by eapply receipt_operation.
Qed.

Lemma schema_receipt cf id r :
  config_ok cf → cf_receipts cf !! id = Some r →
  (∃ o, cs_ops (cf_base cf) !! id = Some o ∧ op_key o = oc_key r) ∧ oc_scope r ≠ Application
  ∧ is_Some (cf_versions cf !! (oc_key r, oc_config_version r))
  ∧ (oc_physical_uid r = None ↔ oc_deployment_generation r = None)
  ∧ oc_physical_uid r ≠ Some "" ∧ oc_deployment_generation r ≠ Some ""
  ∧ (oc_credential_state r = "captured" ∨ is_Some (oc_physical_uid r))
  ∧ is_ok (Configuration.credentials (oc_credential_state r)) = true
  ∧ is_ok (Configuration.business (oc_business_state r)) = true.
Proof.
  intros Hok Hr. destruct (fo_receipts _ Hok _ _ Hr) as [_ Hsc _ Hpair Hbound Hname (c1 & b1 & Hc & Hb & _)].
  split_and!; try done.
  - by eapply receipt_operation.
  - by eapply receipt_version.
  - destruct (oc_physical_uid r), (oc_deployment_generation r); naive_solver.
  - intros E. by apply (Hname ""); [left|].
  - intros E. by apply (Hname ""); [right|].
  - destruct (decide (oc_credential_state r = "captured")); [by left|right; by apply Hbound].
  - by rewrite Hc, credentials_name.
  - by rewrite Hb, business_name_Ok.
Qed.

(** ** Claims *)

(** the head of a configuration names exactly the unresolved credential write
    of its environment, with its version, so there is at most one; and every head
    is readable, its versions being numbered from 1 to the saved one. *)
Theorem head_names_unresolved_write ops st :
  store_ok st → fresh_config_run ops (new_config_store st) →
  let cf := frun ops (new_config_store st) in
  ∀ app lifecycle scope h, cf_heads cf !! (app, lifecycle, scope) = Some h →
  (∀ id r, cf_receipts cf !! id = Some r → oc_key r = (app, lifecycle, scope) →
     (unresolved r ↔ cg_applying_operation_id h = Some id))
  ∧ (∀ id, cg_applying_operation_id h = Some id → ∃ r, cf_receipts cf !! id = Some r
       ∧ oc_key r = (app, lifecycle, scope) ∧ cg_applying_version h = Some (oc_config_version r))
  ∧ (∃ s, Configuration.status lifecycle scope h = Ok s)
  ∧ ∀ v, is_Some (cf_versions cf !! ((app, lifecycle, scope), v)) ↔ (1 ≤ v ≤ cg_saved_version h)%Z.
Proof.
  intros Hst Hf cf app lifecycle scope h Hh. pose proof (config_run _ _ Hst Hf) as Hok. fold cf in Hok.
  destruct (fo_heads _ Hok _ _ Hh) as [[Hrev Hs] Happ Hv Ha]. split_and!.
  - intros id r Hr Hk. split; [intros Hu; eapply fo_unresolved; [done..|by rewrite Hk]|].
    intros Hid. rewrite Hid in Ha. destruct Ha as (r' & Hr' & _ & Hu & _). by assert (r' = r) as -> by congruence.
  - intros id Hid. rewrite Hid in Ha. destruct Ha as (r & Hr & Hk & _ & Hav). by exists r.
  - by eapply status_readable.
  - intros v. split; [|apply Hv]. intros [row Hrow].
    destruct (vo_head _ _ _ _ (fo_versions _ Hok _ _ _ Hrow)) as (h' & Hh' & Hb).
    by assert (h' = h) as -> by congruence.
Qed.

(** No call leaves rows the schema forbids: versions, heads and receipts
    satisfy their foreign keys, unique keys and checks, although no definition
    tests them. *)
Theorem configuration_schema_holds ops st :
  store_ok st → fresh_config_run ops (new_config_store st) →
  let cf := frun ops (new_config_store st) in
  (∀ key v row, cf_versions cf !! (key, v) = Some row →
     key.2 ≠ Application ∧ (1 ≤ v)%Z ∧ (0 ≤ cv_expected_revision row)%Z ∧ cv_payload_version row = 1%Z
     ∧ cv_request_id row ≠ "" ∧ cv_pg_username row ≠ "" ∧ cv_pg_password row ≠ ""
     ∧ ∀ v' row', cf_versions cf !! (key, v') = Some row' → cv_request_id row' = cv_request_id row → v' = v)
  ∧ (∀ key h, cf_heads cf !! key = Some h →
     key.2 ≠ Application ∧ (1 ≤ cg_revision h)%Z
     ∧ (∀ v, v = Some (cg_saved_version h) ∨ v = cg_applied_version h ∨ v = cg_applying_version h →
          match v with Some n => is_Some (cf_versions cf !! (key, n)) | None => True end)
     ∧ (cg_applying_version h = None ↔ cg_applying_operation_id h = None)
     ∧ ∀ id, cg_applying_operation_id h = Some id →
         ∃ o, cs_ops (cf_base cf) !! id = Some o ∧ op_key o = key)
  ∧ ∀ id r, cf_receipts cf !! id = Some r →
     (∃ o, cs_ops (cf_base cf) !! id = Some o ∧ op_key o = oc_key r) ∧ oc_scope r ≠ Application
     ∧ is_Some (cf_versions cf !! (oc_key r, oc_config_version r))
     ∧ (oc_physical_uid r = None ↔ oc_deployment_generation r = None)
     ∧ oc_physical_uid r ≠ Some "" ∧ oc_deployment_generation r ≠ Some ""
     ∧ (oc_credential_state r = "captured" ∨ is_Some (oc_physical_uid r))
     ∧ is_ok (Configuration.credentials (oc_credential_state r)) = true
     ∧ is_ok (Configuration.business (oc_business_state r)) = true.
Proof.
  intros Hst Hf cf. pose proof (config_run _ _ Hst Hf) as Hok. fold cf in Hok. split_and!.
  - intros key v row Hrow. destruct (fo_versions _ Hok _ _ _ Hrow) as [(h & _ & Hb) Hsc Hq [He Hp] Hpg].
    apply valid_pg_nonempty in Hpg as [Hu Hpw]. simpl in *. split_and!; try done; try lia.
    intros v' row' Hrow' Heq. by eapply fo_requests.
  - intros key h Hh. by apply schema_head.
  - intros id r Hr. by apply schema_receipt.
Qed.

(** a save can be repeated: whatever has been called since, the same request
    answers with the version it created and changes nothing, also when newer
    versions have been saved. *)
Theorem save_replays ops more st app scope request saved cf1 :
  store_ok st → fresh_config_run ((ops ++ [FSave app scope request]) ++ more) (new_config_store st) →
  Configuration.save app scope request (frun ops (new_config_store st)) = Ok (saved, cf1) →
  let cf := frun ((ops ++ [FSave app scope request]) ++ more) (new_config_store st) in
  app_state (cs_app (cf_base cf)) = Active →
  app_lifecycle_id (cs_app (cf_base cf)) = sv_lifecycle_id request →
  ∃ saved', Configuration.save app scope request cf = Ok (saved', cf)
    ∧ sr_config_version saved' = sr_config_version saved
    ∧ (sr_config_version saved ≤ rs_saved_version (sr_status saved'))%Z.
Proof.
  intros Hst Hf Hs cf Hact Hlf. destruct (runs_later _ _ _ Hst Hf) as (_ & Hok & Hl). fold cf in Hok, Hl.
  assert (frun (ops ++ [FSave app scope request]) (new_config_store st) = cf1) as Hcf1.
  { rewrite frun_app. simpl. unfold committed_config. by rewrite Hs. }
  assert (config_ok (frun ops (new_config_store st))) as Hok0.
  { apply fresh_config_app in Hf as [Hf _]. apply fresh_config_app in Hf as [Hf _]. by apply config_run. }
  rewrite Hcf1 in Hl. apply (save_again cf cf1 app scope request saved); try done.
  - by eapply save_stored.
  - apply Hl.
Qed.

(** C22: a deployment admitted with credentials has captured them: whatever is
    called afterwards, also saves of other credentials, its executor reads
    exactly those. *)
Theorem deployment_reads_its_credentials ops more st request digest pg now o cf1 context o' :
  store_ok st →
  fresh_config_run ((ops ++ [FAdmit request digest (Some pg) now]) ++ more) (new_config_store st) →
  Configuration.admit_with_configuration request digest (Some pg) now (frun ops (new_config_store st))
    = Ok (AdmAccepted o, cf1) →
  let cf := frun ((ops ++ [FAdmit request digest (Some pg) now]) ++ more) (new_config_store st) in
  Configuration.owned cf context = Ok o' → op_operation_id o' = op_operation_id o →
  ∃ cap, Configuration.read cf context = Ok (Some cap) ∧ cap_pg cap = pg
    ∧ cap_operation_id cap = op_operation_id o.
Proof.
  intros Hst Hf Hadm cf Hown Hid. destruct (runs_later _ _ _ Hst Hf) as (_ & Hok & Hl). fold cf in Hok, Hl.
  assert (frun (ops ++ [FAdmit request digest (Some pg) now]) (new_config_store st) = cf1) as Hcf1.
  { rewrite frun_app. simpl. unfold committed_config. by rewrite Hadm. }
  apply fresh_config_app in Hf as [Hf _]. apply fresh_config_app in Hf as [Hf [Hfr _]].
  rewrite Hcf1 in Hl. destruct (admit_captured _ _ _ _ _ _ _ (config_run _ _ Hst Hf) Hfr Hadm)
    as (r & row & Hr & Hrow & Hu & Hp).
  destruct (cl_receipts _ _ Hl _ _ Hr) as (r' & Hr' & Hk & Hv & _). rewrite <- Hk, <- Hv in Hrow.
  eapply lookup_weaken in Hrow; [|by apply Hl]. rewrite <- Hid in *.
  destruct (read_Ok _ _ _ _ _ Hok Hown Hr' Hrow) as (cap & Hcap & Hpg & Hop).
  exists cap. split_and!; [done| |done]. rewrite Hpg, Hu, Hp. by destruct pg.
Qed.
End theorems.

(** ** Instances *)

#[local] Existing Instances sample_codec sample_creation_codec sample_compute_codec.
Definition sample_seed_hash : Configuration.SeedHash := λ _, sample_fingerprint.
#[local] Existing Instance sample_seed_hash.

#[global] Instance fresh_config_dec op cf : Decision (fresh_config op cf).
Proof. destruct op; simpl; apply _. Defined.
#[global] Instance fresh_config_run_dec ops cf : Decision (fresh_config_run ops cf).
Proof. revert cf. induction ops as [|op ops IH]; intros cf; simpl; apply _. Defined.

Definition sample_pg (password : string) : StartPgCredential :=
  {| pg_username := "owner"; pg_password := password |}.
Definition sample_save (request : string) (revision : Z) (password : string)
    : SaveRuntimeConfigurationRequest :=
  {| sv_lifecycle_id := "life-1"; sv_request_id := request; sv_expected_revision := revision;
     sv_pg := sample_pg password |}.
Definition sample_deployment : UserAppAdmission :=
  sample_admission "op-1" StartDeployment (Some (CmdDeploy false sample_fingerprint false)).
Definition sample_container_target : RuntimeConfigurationTarget :=
  {| rt_physical_uid := "uid-1"; rt_deployment_generation := "gen-1" |}.

(** A save, a deployment that captures it, a newer save, and a credential write
    under way. *)
Definition sample_first_save : FOp := FSave "app" Prod (sample_save "save-1" 0 "secret").
Definition sample_deploy : FOp :=
  FAdmit sample_deployment (Some sample_fingerprint) (Some (sample_pg "secret")) 1.
Definition sample_writing : list FOp :=
  [FCompute (BAdvance (sample_progress "op-1" 1 Running "claimed" JNull) None);
   FSave "app" Prod (sample_save "save-2" 1 "other");
   FBind (sample_context "op-1") 1 sample_container_target;
   FRecord (sample_context "op-1") 1 sample_container_target CredApplying BusNotStarted].
Definition sample_config_calls : list FOp := [sample_first_save; sample_deploy] ++ sample_writing.
#[local] Abbreviation sample_config ops := (frun ops (new_config_store (new_store sample_app))).

Lemma sample_config_runs : fresh_config_run sample_config_calls (new_config_store (new_store sample_app)).
Proof. refine (bool_decide_eq_true_1 _ _). by vm_compute. Qed.

(** The answer of a transaction that succeeded. *)
Definition result_ok {A E} (r : result A E) : option A := match r with Ok a => Some a | Err _ => None end.
Lemma result_ok_Some {A E} (r : result A E) a : result_ok r = Some a → r = Ok a.
Proof. destruct r; naive_solver. Qed.

(** Facts about the sample, by evaluation. *)
Lemma sample_unresolved :
  oc_credential_state <$> cf_receipts (sample_config sample_config_calls) !! "op-1" = Some "applying".
Proof. refine (bool_decide_eq_true_1 _ _). by vm_compute. Qed.
Lemma sample_applying :
  cg_applying_operation_id <$> cf_heads (sample_config sample_config_calls) !! ("app", "life-1", Prod)
  = Some (Some "op-1").
Proof. refine (bool_decide_eq_true_1 _ _). by vm_compute. Qed.
Lemma sample_saved :
  cv_pg_password <$> cf_versions (sample_config [sample_first_save]) !! (("app", "life-1", Prod), 1%Z)
  = Some "secret".
Proof. refine (bool_decide_eq_true_1 _ _). by vm_compute. Qed.
Lemma sample_save_answers :
  (λ r, sr_config_version r.1) <$> result_ok (Configuration.save "app" Prod (sample_save "save-1" 0 "secret")
      (sample_config [])) = Some 1%Z.
Proof. refine (bool_decide_eq_true_1 _ _). by vm_compute. Qed.
Lemma sample_app_kept :
  app_state (cs_app (cf_base (sample_config sample_config_calls))) = Active
  ∧ app_lifecycle_id (cs_app (cf_base (sample_config sample_config_calls))) = "life-1".
Proof. split; (refine (bool_decide_eq_true_1 _ _); by vm_compute). Qed.
Lemma sample_deploys :
  (λ r, match r.1 with AdmAccepted o => Some (op_operation_id o) | AdmExisting _ => None end)
    <$> result_ok (Configuration.admit_with_configuration sample_deployment (Some sample_fingerprint)
                     (Some (sample_pg "secret")) 1 (sample_config [sample_first_save]))
  = Some (Some "op-1").
Proof. refine (bool_decide_eq_true_1 _ _). by vm_compute. Qed.
Lemma sample_owner :
  op_operation_id <$> result_ok (Configuration.owned (sample_config sample_config_calls) (sample_context "op-1"))
  = Some "op-1".
Proof. refine (bool_decide_eq_true_1 _ _). by vm_compute. Qed.

Lemma head_names_unresolved_write_witness :
  ∃ h r, cf_heads (sample_config sample_config_calls) !! ("app", "life-1", Prod) = Some h
    ∧ cf_receipts (sample_config sample_config_calls) !! "op-1" = Some r
    ∧ cg_applying_version h = Some (oc_config_version r).
Proof.
  destruct (proj1 (fmap_Some _ _ _) sample_applying) as (h & Hh & Ha).
  destruct (head_names_unresolved_write sample_config_calls (new_store sample_app) sample_store_ok
              sample_config_runs "app" "life-1" Prod h Hh) as (_ & Hnamed & _).
  destruct (Hnamed "op-1" (eq_sym Ha)) as (r & Hr & _ & Hv). exists h, r. split; [exact Hh|]. by split.
Defined.

Lemma configuration_schema_holds_witness :
  ∃ h, cf_heads (sample_config sample_config_calls) !! ("app", "life-1", Prod) = Some h
    ∧ ∃ o, cs_ops (cf_base (sample_config sample_config_calls)) !! "op-1" = Some o
        ∧ op_key o = ("app", "life-1", Prod).
Proof.
  destruct (proj1 (fmap_Some _ _ _) sample_applying) as (h & Hh & Ha). exists h. split; [exact Hh|].
  destruct (configuration_schema_holds sample_config_calls (new_store sample_app) sample_store_ok
              sample_config_runs) as (_ & Hheads & _).
  destruct (Hheads _ _ Hh) as (_ & _ & _ & _ & Hop). exact (Hop "op-1" (eq_sym Ha)).
Defined.

(** The same calls, cut after the first and after the second. *)
Lemma sample_calls_first : ([] ++ [sample_first_save]) ++ (sample_deploy :: sample_writing) = sample_config_calls.
Proof. reflexivity. Qed.
Lemma sample_calls_second : ([sample_first_save] ++ [sample_deploy]) ++ sample_writing = sample_config_calls.
Proof. reflexivity. Qed.

Lemma save_replays_witness :
  ∃ saved', Configuration.save "app" Prod (sample_save "save-1" 0 "secret") (sample_config sample_config_calls)
      = Ok (saved', sample_config sample_config_calls)
    ∧ sr_config_version saved' = 1%Z.
Proof.
  destruct (proj1 (fmap_Some _ _ _) sample_save_answers) as ([saved cf1] & Hs & Hv).
  apply result_ok_Some in Hs. destruct sample_app_kept as [Hact Hlf].
  pose proof (save_replays [] (sample_deploy :: sample_writing) (new_store sample_app) "app" Prod
                (sample_save "save-1" 0 "secret") saved cf1 sample_store_ok) as Hrep.
  cbv zeta in Hrep. change (FSave _ _ _) with sample_first_save in Hrep. rewrite sample_calls_first in Hrep.
  destruct (Hrep sample_config_runs Hs Hact Hlf) as (saved' & Hs' & Hv' & _).
  exists saved'. split; [exact Hs'|]. by rewrite Hv', Hv.
Defined.

Lemma deployment_reads_its_credentials_witness :
  ∃ cap, Configuration.read (sample_config sample_config_calls) (sample_context "op-1") = Ok (Some cap)
    ∧ cap_pg cap = sample_pg "secret".
Proof.
  destruct (proj1 (fmap_Some _ _ _) sample_deploys) as ([[o|o] cf1] & Hd & Hid); [|done].
  apply result_ok_Some in Hd. destruct (proj1 (fmap_Some _ _ _) sample_owner) as (o' & Ho & Hid').
  apply result_ok_Some in Ho. simpl in Hid.
  pose proof (deployment_reads_its_credentials [sample_first_save] sample_writing (new_store sample_app)
                sample_deployment (Some sample_fingerprint) (sample_pg "secret") 1 o cf1 (sample_context "op-1") o'
                sample_store_ok) as Hread.
  cbv zeta in Hread. change (FAdmit _ _ _ _) with sample_deploy in Hread. rewrite sample_calls_second in Hread.
  destruct (Hread sample_config_runs Hd Ho ltac:(congruence)) as (cap & Hr & Hpg & _).
  exists cap. split; [exact Hr|exact Hpg].
Defined.
