(* ===== verification/LifecycleRecovery.v ===== *)
(** * Recovery of operations
    ([rcoder-storage/src/userapp_lifecycle/common/ops/recovery.rs],
    [ops/observed.rs], [ops/deletion_recovery.rs], [ops/hot_recovery.rs],
    [ops/deployment_update.rs], [ops/operation.rs])

    What the recovery scanner and a restarted server write about operations
    whose executor is gone.  Every transaction but one takes the record its
    caller has observed, and does nothing unless the stored record is still
    exactly that one.  Most end the operation; some take an uncertain record
    out of the reach of its old executor, or record what has been observed of
    its effects.

    The store is that of [RuntimeConfiguration.v] with the private inputs and
    the deadlines of operations and the bindings of adopted resources.  As
    there, a statement that updates the row the transaction has just read finds
    it, and a transaction that fails changes nothing; a panic fails it too. *)
From stdpp Require Import sorting countable.
From S2P Require Import Prelude Validation RuntimeControl Lifecycle Evidence LifecycleDomain LifecycleStore.
From S2P Require Import OperationLease ComputeControl ComputeStore ComputeAdmission ComputeExecution.
From S2P Require Import ComputeRecovery ComputeSpec RuntimeConfiguration Ordered.
Import Text Identifier.
Local Open Scope rust_scope.

(** ** Evidence of a deployment's own password write ([userapp/db_password.rs]) *)

Record ExplicitDeploymentPasswordEvidence := {
  xp_receipt_protocol : option Z;
  xp_context : UserAppExecutionContext;
  xp_username : string;
  xp_explicit_pg_target : RuntimeConfigurationTarget;
  xp_stage : DatabasePasswordStage;
}.

Definition explicit_validate_operation (e : ExplicitDeploymentPasswordEvidence)
    (o : UserAppOperationRecord) : result unit string :=
  let? _ := validate_identity (xp_context e) (op_app_id o) in
  let? _ := ensure (match xp_receipt_protocol e with Some v => (v =? 1)%Z | None => true end)
              "Unknown deployment password receipt protocol" in
  let? _ := ensure (context_owns (xp_context e) o)
              "Deployment password evidence has a different execution identity" in
  let? _ := Pg.validate_pg_identifier (xp_username e) in
  match op_command o with
  | Some (CmdDeploy restart digest serving) =>
      let? _ := ensure (match op_kind o with StartDeployment | RestartDeployment => true | _ => false end
                        && bool_decide (op_kind o = command_kind (CmdDeploy restart digest serving))
                        && bool_decide (op_scope o = Prod))
                  "Deployment password evidence differs from admission" in
      ensure (negb (str_is_empty (rt_physical_uid (xp_explicit_pg_target e))
                    || str_is_empty (rt_deployment_generation (xp_explicit_pg_target e))))
        "Deployment password target requires a physical identity and generation"
  | _ => Err "Deployment password evidence requires its original command"
  end.

(** ** Evidence of a hot deployment ([app_cli_deploy.rs])

    The operation its owner reports is that of [RuntimeControl.v]. *)

Record HotDeploymentFailureEvidence := {
  hf_target : RuntimeConfigurationTarget;
  hf_protocol_version : Z;
  hf_server_phase : AppCliDeployPhase;
  hf_operation : AppDeploymentOperation;
}.

Definition APP_CLI_UNIFIED_DEPLOY_PROTOCOL : Z := 4.

(** ** Rejections ([runtime_request_failure.rs]) *)

Record RuntimeRequestRejection := { rj_status : Z; rj_message : string }.

Definition rejection_from_status (status : Z) (message : string) : option RuntimeRequestRejection :=
  if ((400 <=? status) && (status <? 500) && negb ((status =? 408) || (status =? 499)))%Z
  then Some {| rj_status := status; rj_message := message |} else None.

Definition rejection_to_string (r : RuntimeRequestRejection) : string :=
  rj_message r +:+ " (HTTP " +:+ pretty (rj_status r) +:+ ")".

(** ** Codecs

    The derived (de)serialisers of the evidence types. *)
Class RecoveryCodec := {
  decode_context : Json → option UserAppExecutionContext;
  decode_configuration_target : Json → option RuntimeConfigurationTarget;
  decode_explicit : Json → option ExplicitDeploymentPasswordEvidence;
  decode_predecessor : Json → option BuilderCreationPredecessor;
  decode_credential : Json → option StartPgCredential;
  (** [serde_json::from_str] at [Value]. *)
  decode_text : string → option Json;
  encode_password : DatabasePasswordEvidence → Json;
  encode_explicit : ExplicitDeploymentPasswordEvidence → Json;
  encode_preparation : DatabasePreparationEvidence → Json;
  encode_creation : BuilderCreationEvidence → Json;
  encode_predecessor : option BuilderCreationPredecessor → Json;
  encode_hot : HotDeploymentFailureEvidence → Json;
}.

(** ** Records and values *)

(** [op.state = ..]. *)
Definition with_state (s : UserAppOperationState) (o : UserAppOperationRecord)
    : UserAppOperationRecord :=
  Compute.op_set o s (op_revision o) (op_step o) (op_checkpoint o) (op_error_code o) (op_error_message o).

Definition succ_revision (o : UserAppOperationRecord) : result Z UserAppStoreError :=
  ok_or (i64_checked_succ (op_revision o)) (InvalidOperation "Operation revision exhausted").

(** [value[key] = field]: null becomes an object, any other value panics. *)
Definition json_index_set (key : string) (field v : Json) : result Json UserAppStoreError :=
  match v with
  | JObj fields => Ok (JObj (obj_insert key field fields))
  | JNull => Ok (JObj [(key, field)])
  | _ => Err (StorageFailure "cannot access key in JSON value")
  end.

Definition json_as_u64 (v : Json) : option Z :=
  match v with JNum n => if (0 <=? n)%Z then Some n else None | _ => None end.

(** Which records need the receipt of a creation ([userapp/operation_lease.rs]). *)
Definition creation_step (step : string) : bool :=
  bool_decide (step ∈ ["claimed"; "creation_source_captured"; "creation_confirmation_timed_out";
                       "worker_interrupted"; "creation_result"]).

Definition is_interrupted (s : UserAppOperationState) : bool :=
  match s with Running | RecoveryRequired => true | _ => false end.

(** ** Tables *)

Record OperationInput := {
  oi_app_id : string;
  oi_lifecycle_id : string;
  oi_payload_version : Z;
  oi_payload : string;
  oi_payload_digest : string;
}.

Record OperationDeadline := {
  od_app_id : string;
  od_lifecycle_id : string;
  od_deadline_ms : Z;
}.

#[global] Instance ServiceType_countable : Countable ServiceType.
Proof.
  refine (inj_countable'
    (λ s, match s with WebAgentRunner => 0 | ComputerAgentRunner => 1 | ComputerNormalProject => 2
          | Userapp => 3 | UserappBuilder => 4 end)
    (λ n, match n with 0 => WebAgentRunner | 1 => ComputerAgentRunner | 2 => ComputerNormalProject
          | 3 => Userapp | _ => UserappBuilder end) _).
  by intros [].
Defined.

(** A binding is keyed by the family and the identity of the resource. *)
Record RecoveryStore := mkRecoveryStore {
  rv_config : ConfigStore;
  rv_inputs : gmap string OperationInput;
  rv_deadlines : gmap string OperationDeadline;
  rv_bindings : gmap (ServiceType * string) UserAppResourceBinding;
}.
Definition with_config (cf : ConfigStore) (rv : RecoveryStore) : RecoveryStore :=
  mkRecoveryStore cf (rv_inputs rv) (rv_deadlines rv) (rv_bindings rv).
Definition with_inputs (m : gmap string OperationInput) (rv : RecoveryStore) : RecoveryStore :=
  mkRecoveryStore (rv_config rv) m (rv_deadlines rv) (rv_bindings rv).
Definition with_operation_deadlines (m : gmap string OperationDeadline) (rv : RecoveryStore)
    : RecoveryStore :=
  mkRecoveryStore (rv_config rv) (rv_inputs rv) m (rv_bindings rv).
Definition with_bindings (m : gmap (ServiceType * string) UserAppResourceBinding) (rv : RecoveryStore)
    : RecoveryStore :=
  mkRecoveryStore (rv_config rv) (rv_inputs rv) (rv_deadlines rv) m.
Definition rv_compute (rv : RecoveryStore) : ComputeStore := cf_base (rv_config rv).
Definition with_compute (cs : ComputeStore) (rv : RecoveryStore) : RecoveryStore :=
  with_config (with_base cs (rv_config rv)) rv.

Abbreviation RvTx A := (RecoveryStore → result (A * RecoveryStore) UserAppStoreError).

Section predicates.
Context `{CheckpointCodec, CreationCodec, ComputeCodec, RecoveryCodec}.

Definition predecessor_only (o : UserAppOperationRecord) : bool :=
  match op_checkpoint o with
  | JObj [(key, value)] =>
      bool_decide (key = "builder_creation_predecessor")
      && match decode_predecessor value with
         | Some source => is_ok (predecessor_validate_operation source o)
         | None => false
         end
  | _ => false
  end.

Definition userapp_builder_creation_needs_runtime_receipt (o : UserAppOperationRecord) : bool :=
  bool_decide (op_kind o = EnsureBuilder)
  && is_interrupted (op_state o)
  && is_some (op_executor_id o)
  && (json_is_null (op_checkpoint o) || predecessor_only o)
  && creation_step (op_step o).

(** The target a checkpoint names, if it names this execution. *)
Definition update_target_ok (o : UserAppOperationRecord) (target : UserAppMutationTarget) : bool :=
  bool_decide (ctx_app_id (mt_context target) = op_app_id o)
  && is_ok (validate_identity (mt_context target) (op_app_id o))
  && context_owns (mt_context target) o
  && bool_decide (res_kind (mt_resource target) = Deployment)
  && negb (str_is_empty (res_name (mt_resource target)))
  && negb (str_is_empty (res_uid (mt_resource target)))
  && negb (opt_str_empty (res_version (mt_resource target)))
  && opt_is (checkpoint_str ["resource"; "project_id"] o) (op_app_id o)
  && opt_is (checkpoint_str ["resource"; "container_id"] o) (res_name (mt_resource target)).

Definition userapp_operation_has_deployment_update_receipt (o : UserAppOperationRecord) : bool :=
  match op_command o with
  | Some (CmdDeploy restart digest serving) =>
      bool_decide (command_kind (CmdDeploy restart digest serving) = op_kind o)
      && bool_decide (op_scope o = Prod)
      && bool_decide (op_step o = "runtime_updated")
      && bool_decide (json_get "storage_target" (op_checkpoint o) = Some JNull)
      && bool_decide (json_get "requested_storage_size" (op_checkpoint o) = Some JNull)
      && match json_get "target" (op_checkpoint o) ≫= decode_mutation_target with
         | Some target => update_target_ok o target
         | None => false
         end
  | _ => false
  end.

Context `{Configuration.SeedHash}.

(** [input.digest()]: SHA-256 of the encoded text. *)
Definition input_digest (input : string) : string := Configuration.seed_hash input.

Definition userapp_deployment_update_precedes_credentials (o : UserAppOperationRecord)
    (input : string) : bool :=
  userapp_operation_has_deployment_update_receipt o
  && match op_command o with
     | Some (CmdDeploy restart digest _) =>
         bool_decide (digest = input_digest input)
         && match decode_text input with
            | Some value =>
                opt_is (json_get "version" value ≫= json_as_u64) 1%Z
                && opt_is (json_get "restart" value ≫= json_as_bool) restart
                && match json_get "params" value with Some v => json_is_object v | None => false end
                && match json_get "previous" value with Some v => json_is_object v | None => false end
                && match json_pointer ["request"; "pg"] value ≫= decode_credential with
                   | Some pg => negb (str_is_empty (pg_username pg)) && negb (str_is_empty (pg_password pg))
                   | None => false
                   end
            | None => false
            end
     | _ => false
     end.

(** The outcome of a hot deployment, as its owner reports it. *)
Definition validate_outcome (e : HotDeploymentFailureEvidence) (o : UserAppOperationRecord)
    (checkpoint_phase : string) (owner_phase : AppCliDeployPhase) : result unit string :=
  let? hot := ok_or (json_get "hot_execution" (op_checkpoint o)) "Hot deployment checkpoint missing" in
  let? raw := ok_or (json_get "context" hot) "Hot execution context missing" in
  let? context := ok_or (decode_context raw) "Invalid hot execution context" in
  let? raw := ok_or (json_get "target" hot) "Hot physical target missing" in
  let? target := ok_or (decode_configuration_target raw) "Invalid hot physical target" in
  let reported := hf_operation e in
  ensure (opt_is (json_get "receipt_protocol" hot ≫= json_as_u64) 1%Z
          && opt_is (json_get "phase" hot ≫= json_as_str) checkpoint_phase
          && opt_is (json_get "release_id" hot ≫= json_as_str) (ado_request_release_id reported)
          && bool_decide (op_scope o = Prod)
          && bool_decide (ctx_app_id context = op_app_id o)
          && context_owns context o
          && bool_decide (target = hf_target e)
          && negb (str_is_empty (rt_physical_uid target))
          && negb (str_is_empty (rt_deployment_generation target))
          && (hf_protocol_version e =? APP_CLI_UNIFIED_DEPLOY_PROTOCOL)%Z
          && bool_decide (ado_operation_id reported = op_operation_id o)
          && bool_decide (ado_deployment_generation_id reported = rt_deployment_generation target)
          && bool_decide (ado_phase reported = owner_phase)
          && ado_persisted reported
          && match hf_server_phase e with PhaseFailed | PhaseRunning => true | _ => false end
          && match ado_recovery reported with
             | Some r => bool_decide (adr_status r ∈ ["restored"; "failed"])
             | None => true
             end)
    "Hot deployment evidence does not confirm the original write".

Definition hot_validate (e : HotDeploymentFailureEvidence) (o : UserAppOperationRecord)
    : result unit string := validate_outcome e o "submit" PhaseFailed.
Definition hot_validate_success (e : HotDeploymentFailureEvidence) (o : UserAppOperationRecord)
    : result unit string :=
  match validate_outcome e o "converging" PhaseRunning with
  | Ok _ => Ok tt
  | Err _ => validate_outcome e o "submit" PhaseRunning
  end.
End predicates.

(** ** Transactions *)

Module Reconcile.
Section transactions.
Context `{CheckpointCodec, CreationCodec, ComputeCodec, RecoveryCodec, Configuration.SeedHash}.

(** [current] at the record a caller has observed. *)
Definition current (rv : RecoveryStore) (snapshot : UserAppOperationRecord)
    : result (UserAppLifecycleRecord * UserAppOperationRecord) UserAppStoreError :=
  current_operation (rv_compute rv) (op_app_id snapshot) (op_operation_id snapshot)
    (op_lifecycle_id snapshot).

(** [repo::save_operation] alone. *)
Definition save_operation (o : UserAppOperationRecord) (rv : RecoveryStore) : RecoveryStore :=
  let cs := rv_compute rv in
  with_compute (with_store (mkAppStore (cs_app cs) (<[op_operation_id o := o]> (cs_ops cs))
                              (st_requests (cs_store cs))) cs) rv.

(** [domain::advance] on the pair a transaction holds. *)
Definition run_advance (p : UserAppOperationProgress) (s : Pair) : result Pair UserAppStoreError :=
  let '(r, s') := advance p s in let? _ := r in Ok s'.

(** [repo::save_operation], [save_app] and [save_slots]. *)
Definition save (s : Pair) (rv : RecoveryStore) : RecoveryStore :=
  let cs := rv_compute rv in
  with_compute (with_store (mkAppStore s.1 (<[op_operation_id s.2 := s.2]> (cs_ops cs))
                              (st_requests (cs_store cs))) cs) rv.

Definition delete_input (id : string) (rv : RecoveryStore) : RecoveryStore :=
  with_inputs (delete id (rv_inputs rv)) rv.

(** The report a transaction makes in the executor's name. *)
Definition report_of (o : UserAppOperationRecord) (executor : string) (state : UserAppOperationState)
    (step : string) (checkpoint : Json) (code message : option string) : UserAppOperationProgress :=
  {| pr_app_id := op_app_id o; pr_operation_id := op_operation_id o;
     pr_lifecycle_id := op_lifecycle_id o; pr_expected_revision := op_revision o;
     pr_executor_id := executor; pr_state := state; pr_step := step; pr_checkpoint := checkpoint;
     pr_error_code := code; pr_error_message := message |}.

(** *** Password writes *)

(** The same write, with its outcome. *)
Definition password_outcome_kept (before after : DatabasePasswordEvidence) : bool :=
  opt_is (pw_receipt_protocol before) 1%Z && opt_is (pw_receipt_protocol after) 1%Z
  && bool_decide (pw_context before = pw_context after)
  && bool_decide (pw_target before = pw_target after)
  && bool_decide (pw_username before = pw_username after)
  && match pw_stage before with PwWriteSubmitted | PwVerified | PwCancelled => true | PwCaptured => false end
  && match pw_stage after with PwVerified | PwCancelled => true | _ => false end
  && (bool_decide (pw_stage before = PwWriteSubmitted) || bool_decide (pw_stage before = pw_stage after)).

(** The lease under which the evidence was produced is still recorded. *)
Definition same_lease (rv : RecoveryStore) (context : UserAppExecutionContext)
    (o : UserAppOperationRecord) : result unit UserAppStoreError :=
  let? found := get_operation_lease (rv_compute rv) (op_app_id o) (op_operation_id o) in
  let? lease := ok_or found NotFound in
  ensure (bool_decide (lb_context lease = context) && op_owns (lb_context lease) o) VersionConflict.

(** Two reports in one transaction: the outcome, then the end. *)
Definition finalize_password_recovery (snapshot : UserAppOperationRecord)
    (evidence : DatabasePasswordEvidence) : RvTx UserAppOperationRecord := λ rv,
  let? (app, op) := current rv snapshot in
  let? _ := ensure (bool_decide (op = snapshot) && is_interrupted (op_state op)) VersionConflict in
  let? _ := checked (password_validate_operation evidence op) in
  let? before := ok_or (decode_password (op_checkpoint op)) (StorageFailure "password evidence") in
  let? _ := checked (password_validate_operation before op) in
  let? _ := ensure (password_outcome_kept before evidence)
              (InvalidOperation "Password recovery evidence changed identity or outcome") in
  let? _ := same_lease rv (pw_context evidence) op in
  let executor := ctx_executor_id (pw_context evidence) in
  let checkpoint := encode_password evidence in
  let op := with_state Running op in
  let? (app, op) := run_advance (report_of op executor Running (op_step op) checkpoint None None) (app, op) in
  let state := if bool_decide (pw_stage evidence = PwVerified) then Succeeded else Failed in
  let? (app, op) := run_advance (report_of op executor state (op_step op) checkpoint None None) (app, op) in
  let? _ := Configuration.validate_terminal (rv_config rv) op state in
  Ok (op, save (app, op) rv).

Definition explicit_outcome_kept (before after : ExplicitDeploymentPasswordEvidence) : bool :=
  opt_is (xp_receipt_protocol before) 1%Z && opt_is (xp_receipt_protocol after) 1%Z
  && bool_decide (xp_context before = xp_context after)
  && bool_decide (xp_explicit_pg_target before = xp_explicit_pg_target after)
  && bool_decide (xp_username before = xp_username after)
  && match xp_stage before with PwWriteSubmitted | PwVerified | PwCancelled => true | PwCaptured => false end
  && match xp_stage after with PwVerified | PwCancelled => true | _ => false end
  && (bool_decide (xp_stage before = PwWriteSubmitted) || bool_decide (xp_stage before = xp_stage after)).

Definition deploy_failure_message (stage : DatabasePasswordStage) : string :=
  if bool_decide (stage = PwVerified)
  then "Explicit deployment password committed and verified; deployment completion was not recorded; re-issue the deployment"
  else "Explicit deployment password write was cancelled; deployment did not complete".

Definition finalize_deploy_pg_recovery (snapshot : UserAppOperationRecord)
    (evidence : ExplicitDeploymentPasswordEvidence) : RvTx UserAppOperationRecord := λ rv,
  let? (app, op) := current rv snapshot in
  let? _ := ensure (bool_decide (op = snapshot) && bool_decide (op_state op = RecoveryRequired))
              VersionConflict in
  let? _ := checked (explicit_validate_operation evidence op) in
  let? before := ok_or (decode_explicit (op_checkpoint op)) (StorageFailure "password evidence") in
  let? _ := checked (explicit_validate_operation before op) in
  let? _ := ensure (explicit_outcome_kept before evidence)
              (InvalidOperation "Deployment password recovery evidence changed identity or outcome") in
  let? _ := same_lease rv (xp_context evidence) op in
  let executor := ctx_executor_id (xp_context evidence) in
  let checkpoint := encode_explicit evidence in
  let op := with_state Running op in
  let? (app, op) := run_advance (report_of op executor Running (op_step op) checkpoint None None) (app, op) in
  let? (app, op) := run_advance (report_of op executor Failed "deploy_pg_reconciled" checkpoint
                                   (Some "ERR_BACKEND_ERROR")
                                   (Some (deploy_failure_message (xp_stage evidence)))) (app, op) in
  let? _ := Configuration.validate_terminal (rv_config rv) op Failed in
  Ok (op, save (app, op) rv).

(** *** A prepared database *)

Definition confirm_database_preparation_recovery (snapshot : UserAppOperationRecord)
    (evidence : DatabasePreparationEvidence) : RvTx UserAppOperationRecord := λ rv,
  let? (app, op) := current rv snapshot in
  let? _ := ensure (bool_decide (op = snapshot) && is_interrupted (op_state op)) VersionConflict in
  let? _ := validate_active app in
  let? before := ok_or (decode_preparation (op_checkpoint op)) (StorageFailure "preparation evidence") in
  let? _ := checked (preparation_validate_operation before op) in
  let? _ := checked (preparation_validate_operation evidence op) in
  let? _ := ensure (bool_decide (prep_stage before = PrepStartSubmitted)
                    && bool_decide (prep_stage evidence = PrepManagementReady)
                    && bool_decide (prep_target before = prep_target evidence)
                    && bool_decide (prep_deployment_generation before = prep_deployment_generation evidence))
              (InvalidOperation "Management recovery evidence changed identity or stage") in
  let context := mt_context (prep_target evidence) in
  let? _ := same_lease rv context op in
  let op := with_state Running op in
  let? (app, op) := run_advance (report_of op (ctx_executor_id context) Running "database_management"
                                   (encode_preparation evidence) None None) (app, op) in
  Ok (op, save (app, op) rv).

(** *** Creations of a builder *)

(** [None] is a cancellation the runtime has acknowledged. *)
Definition rejection_applies (o : UserAppOperationRecord) (rejection : option RuntimeRequestRejection)
    : bool :=
  match rejection with
  | Some r => bool_decide (op_state o = RecoveryRequired)
              && bool_decide (op_step o = "creation_confirmation_timed_out")
              && is_some (rejection_from_status (rj_status r) "")
  | None => userapp_builder_creation_needs_runtime_receipt o
  end.

Definition finalize_builder_creation_rejection (snapshot : UserAppOperationRecord)
    (rejection : option RuntimeRequestRejection) : RvTx UserAppOperationRecord := λ rv,
  let? (app, op) := current rv snapshot in
  let? _ := ensure (bool_decide (op = snapshot) && bool_decide (op_kind op = EnsureBuilder)
                    && rejection_applies op rejection && json_is_null (op_checkpoint op))
              VersionConflict in
  let op := with_state Running op in
  let? executor := ok_or (op_executor_id op) VersionConflict in
  let? (app, op) := run_advance
    (report_of op executor Failed "creation_result"
       (if is_none rejection then JObj [("creation_cancelled", JBool true)] else JNull)
       (Some "ERR_BACKEND_ERROR")
       (Some match rejection with
             | Some r => rejection_to_string r
             | None => "Builder creation cancelled after acknowledged writes"
             end)) (app, op) in
  Ok (op, delete_input (op_operation_id op) (save (app, op) rv)).

Definition confirm_builder_creation_recovery (snapshot : UserAppOperationRecord)
    (evidence : BuilderCreationEvidence) (management_ready : bool)
    : RvTx UserAppOperationRecord := λ rv,
  let? (app, op) := current rv snapshot in
  let? _ := validate_active app in
  let? _ := ensure (bool_decide (op = snapshot)) VersionConflict in
  let? _ := checked (creation_validate_operation evidence op) in
  let? _ :=
    if management_ready then
      let? _ := ensure (bool_decide (op_state op = RecoveryRequired)
                        && bool_decide (op_step op = "builder_created_observed")) VersionConflict in
      let? before := ok_or (decode_creation (op_checkpoint op)) (StorageFailure "creation evidence") in
      let? _ := checked (creation_validate_operation before op) in
      ensure (bool_decide (bce_target before = bce_target evidence)
              && bool_decide (encode_predecessor (bce_registration_predecessor before)
                              = encode_predecessor (bce_registration_predecessor evidence)))
        VersionConflict
    else ensure (userapp_builder_creation_needs_runtime_receipt op) VersionConflict in
  let? revision := succ_revision op in
  let op := Compute.op_set op RecoveryRequired revision
              (if management_ready then "builder_ready_confirmed" else "builder_created_observed")
              (encode_creation evidence) (op_error_code op) (op_error_message op) in
  Ok (op, save_operation op rv).

(** *** Completed work *)

Definition reserve_completed_operation (snapshot : UserAppOperationRecord)
    : RvTx UserAppOperationRecord := λ rv,
  let? (app, op) := current rv snapshot in
  let? _ := check_business_authority (rv_compute rv) op in
  let? _ := ensure (bool_decide (op = snapshot) && is_interrupted (op_state op)
                    && userapp_operation_has_final_evidence op) VersionConflict in
  let? _ :=
    if bool_decide (op_kind op = EnsureBuilder) then
      let? _ := ok_or (decode_creation (op_checkpoint op)) (StorageFailure "creation evidence") in
      validate_active app
    else
      let? found := get_operation_lease (rv_compute rv) (op_app_id op) (op_operation_id op) in
      let? lease := ok_or found NotFound in
      ensure (op_owns (lb_context lease) op) VersionConflict in
  let? revision := succ_revision op in
  let op := Compute.op_set op Running revision (op_step op) (op_checkpoint op) (op_error_code op)
              (op_error_message op) in
  Ok (op, save_operation op rv).

(** *** Observed outcomes *)

(** The wake whose container start is confirmed, by its own target. *)
Definition observed_wake (o snapshot : UserAppOperationRecord) (target : UserAppMutationTarget) : bool :=
  bool_decide (o = snapshot) && bool_decide (op_kind o = Start)
  && bool_decide (op_state o = RecoveryRequired)
  && bool_decide (op_step o = "traffic_wake_observing")
  && bool_decide (ctx_app_id (mt_context target) = op_app_id o)
  && context_owns (mt_context target) o.

Definition wake_target (o : UserAppOperationRecord) : result UserAppMutationTarget UserAppStoreError :=
  ok_or (json_get "target" (op_checkpoint o) ≫= decode_mutation_target) VersionConflict.

(** The end of [finalize_observed_wake] and of its legacy variant. *)
Definition wake_failed (checkpoint : Json) (message : string) (app : UserAppLifecycleRecord)
    (op : UserAppOperationRecord) : RvTx UserAppOperationRecord := λ rv,
  let op := with_state Running op in
  let? executor := ok_or (op_executor_id op) VersionConflict in
  let? (app, op) := run_advance
    (report_of op executor Failed "traffic_wake_observation_failed" checkpoint
       (opt_or (op_error_code op) (Some "ERR_BACKEND_ERROR"))
       (opt_or (op_error_message op) (Some message))) (app, op) in
  Ok (op, delete_input (op_operation_id op) (save (app, op) rv)).

Definition finalize_observed_wake (snapshot : UserAppOperationRecord)
    : RvTx UserAppOperationRecord := λ rv,
  let? (app, op) := current rv snapshot in
  let? target := wake_target op in
  let? _ := ensure (observed_wake op snapshot target
                    && bool_decide (json_get "start_write_acknowledged" (op_checkpoint op)
                                    = Some (JBool true))) VersionConflict in
  wake_failed (op_checkpoint op) "Wake readiness observation did not complete" app op rv.

Definition finalize_legacy_observed_wake (snapshot : UserAppOperationRecord) (evidence : Json)
    : RvTx UserAppOperationRecord := λ rv,
  let? (app, op) := current rv snapshot in
  let? target := wake_target op in
  let? _ := ensure (observed_wake op snapshot target
                    && is_none (json_get "start_write_acknowledged" (op_checkpoint op)))
              VersionConflict in
  let? checkpoint := json_index_set "legacy_start_write_verified" evidence (op_checkpoint op) in
  wake_failed checkpoint
    "Wake readiness observation did not complete (legacy record; start write verified by runtime receipt)"
    app op rv.

Definition settle_fenced_operation (snapshot : UserAppOperationRecord) (evidence : Json)
    (release_note : string) : RvTx UserAppOperationRecord := λ rv,
  let? (app, op) := current rv snapshot in
  let? _ := ensure (bool_decide (op = snapshot) && bool_decide (op_state op = RecoveryRequired)
                    && is_some (op_executor_id op)) VersionConflict in
  let? checkpoint := json_index_set "fence_released_evidence" evidence (op_checkpoint op) in
  let op := with_state Running op in
  let? executor := ok_or (op_executor_id op) VersionConflict in
  let? (app, op) := run_advance
    (report_of op executor Failed (op_step op) checkpoint
       (opt_or (op_error_code op) (Some "ERR_CONFLICT"))
       (Some (default "operation fenced" (op_error_message op) +:+ "; fence released: " +:+ release_note)))
    (app, op) in
  Ok (op, delete_input (op_operation_id op) (save (app, op) rv)).

Definition settle_stale_running_builder (snapshot : UserAppOperationRecord) (evidence : Json)
    (release_note : string) : RvTx UserAppOperationRecord := λ rv,
  let? (app, op) := current rv snapshot in
  let? _ := ensure (bool_decide (op = snapshot) && bool_decide (op_kind op = EnsureBuilder)
                    && bool_decide (op_state op = Running) && is_some (op_executor_id op)
                    && userapp_builder_creation_needs_runtime_receipt op) VersionConflict in
  let? checkpoint := json_index_set FENCE_RELEASED_EVIDENCE_KEY evidence (op_checkpoint op) in
  let? executor := ok_or (op_executor_id op) VersionConflict in
  let? (app, op) := run_advance
    (report_of op executor Failed (op_step op) checkpoint
       (opt_or (op_error_code op) (Some "ERR_OPERATION_RECOVERY"))
       (Some (default "builder creation executor stopped without a receipt" (op_error_message op)
              +:+ "; stale running released: " +:+ release_note))) (app, op) in
  Ok (op, delete_input (op_operation_id op) (save (app, op) rv)).

Definition finalize_observed_hot_success (snapshot : UserAppOperationRecord) (evidence : Json)
    : RvTx UserAppOperationRecord := λ rv,
  let? (app, op) := current rv snapshot in
  let? _ := ensure (bool_decide (op = snapshot) && bool_decide (op_state op = RecoveryRequired)
                    && bool_decide (op_step op ∈ ["hot_execution"; "hot_converging"])
                    && supports_hot_deployment (op_kind op)) VersionConflict in
  let? checkpoint := json_index_set "hot_success_observed" evidence (op_checkpoint op) in
  let op := with_state Running op in
  let? executor := ok_or (op_executor_id op) VersionConflict in
  let? (app, op) := run_advance
    (report_of op executor Succeeded "hot_execution_succeeded" checkpoint None None) (app, op) in
  Ok (op, delete_input (op_operation_id op) (save (app, op) rv)).

Definition finalize_observed_hot_failure (snapshot : UserAppOperationRecord)
    (evidence : HotDeploymentFailureEvidence) : RvTx UserAppOperationRecord := λ rv,
  let? (app, op) := current rv snapshot in
  let? _ := ensure (bool_decide (op = snapshot) && bool_decide (op_state op = RecoveryRequired)
                    && bool_decide (op_step op = "hot_execution")
                    && supports_hot_deployment (op_kind op)) VersionConflict in
  let? _ := checked (hot_validate evidence op) in
  let? checkpoint := json_index_set "hot_failure_observed" (encode_hot evidence) (op_checkpoint op) in
  let op := with_state Running op in
  let? executor := ok_or (op_executor_id op) VersionConflict in
  let? (app, op) := run_advance
    (report_of op executor Failed "hot_execution_failed" checkpoint (Some "ERR_BACKEND_ERROR")
       (Some (default "Hot deployment failed on the original runtime owner"
                (ado_error (hf_operation evidence))))) (app, op) in
  Ok (op, delete_input (op_operation_id op) (save (app, op) rv)).

(** *** Interrupted deletions *)

Definition deletion_snapshot (rv : RecoveryStore) (snapshot : UserAppOperationRecord)
    : result UserAppOperationRecord UserAppStoreError :=
  let? (_, op) := current rv snapshot in
  let? _ := ensure (bool_decide (op = snapshot) && bool_decide (op_scope op = kind_scope (op_kind op))
                    && is_deletion_kind (op_kind op) && is_interrupted (op_state op)) VersionConflict in
  let? checkpoint := ok_or (decode_deletion (op_checkpoint op))
                       (InvalidOperation "Deletion recovery requires its original captured targets") in
  let? _ := checked (deletion_validate_operation checkpoint op) in
  let? found := get_operation_lease (rv_compute rv) (op_app_id op) (op_operation_id op) in
  let? binding := ok_or found (InvalidOperation "Deletion recovery lease receipt is missing") in
  let? _ := ensure (bool_decide (lb_context binding = dc_context checkpoint)
                    && op_owns (lb_context binding) op) VersionConflict in
  Ok op.

Definition reserve_interrupted_deletion (snapshot : UserAppOperationRecord)
    : RvTx UserAppOperationRecord := λ rv,
  let? op := deletion_snapshot rv snapshot in
  let? revision := succ_revision op in
  let op := Compute.op_set op RecoveryRequired revision (op_step op) (op_checkpoint op)
              (Some "ERR_DELETION_INSPECTION")
              (Some "Inspecting the original captured deletion; resource writes are not replayed") in
  Ok (op, save_operation op rv).

Definition record_deletion_recovery_problem (snapshot : UserAppOperationRecord) (message : string)
    : RvTx UserAppOperationRecord := λ rv,
  let? op := deletion_snapshot rv snapshot in
  let? _ := ensure (bool_decide (op_state op = RecoveryRequired) && negb (str_is_empty message))
              VersionConflict in
  if opt_is (op_error_message op) message then Ok (op, rv) else
  let? revision := succ_revision op in
  let op := Compute.op_set op (op_state op) revision (op_step op) (op_checkpoint op)
              (Some "ERR_DELETION_INSPECTION") (Some message) in
  Ok (op, save_operation op rv).

Definition finalize_interrupted_deletion (snapshot : UserAppOperationRecord) (evidence : Json)
    : RvTx UserAppOperationRecord := λ rv,
  let? op := deletion_snapshot rv snapshot in
  let? _ := ensure (bool_decide (op_state op = RecoveryRequired)
                    && match op_kind op with DeleteCompute | PurgeResources => true | _ => false end
                    && bool_decide (json_get "execution_quiescent" evidence = Some (JBool true))
                    && bool_decide (json_get "captured_checkpoint" evidence = Some (op_checkpoint op))
                    && bool_decide (json_get "context" evidence = json_get "context" (op_checkpoint op)))
              (InvalidOperation "Deletion finalization requires all original write scopes to be retired; lifecycle deletion remains protected") in
  settle_fenced_operation op evidence
    "original deletion execution retired; incomplete deletion was not replayed" rv.

(** *** Interrupted hot deployments *)

Definition hot_phase (step : string) : option string :=
  if bool_decide (step = "hot_execution") then Some "submit"
  else if bool_decide (step = "hot_converging") then Some "converging"
  else None.

Definition reserve_interrupted_hot (snapshot : UserAppOperationRecord)
    (expected_binding : UserAppOperationLeaseBinding) : RvTx UserAppOperationRecord := λ rv,
  let? (_, op) := current rv snapshot in
  let? _ := ensure (bool_decide (op = snapshot) && bool_decide (op_state op = Running)
                    && supports_hot_deployment (op_kind op) && bool_decide (op_scope op = Prod))
              VersionConflict in
  let? app := ok_or (find_app (rv_compute rv) (op_app_id op)) NotFound in
  let? _ := validate_active app in
  let? _ := check_business_authority (rv_compute rv) op in
  let? hot := ok_or (json_get "hot_execution" (op_checkpoint op)) VersionConflict in
  let? phase := ok_or (hot_phase (op_step op)) VersionConflict in
  let? context := ok_or (json_get "context" hot ≫= decode_context) VersionConflict in
  let? target := ok_or (json_get "target" hot ≫= decode_configuration_target) VersionConflict in
  let? found := get_operation_lease (rv_compute rv) (op_app_id op) (op_operation_id op) in
  let? binding := ok_or found VersionConflict in
  let? _ := ensure (bool_decide (binding = expected_binding)
                    && bool_decide (lb_context binding = context)
                    && op_owns context op
                    && bool_decide (lease_service_type (lb_receipt binding) = Userapp)
                    && opt_is (json_get "receipt_protocol" hot ≫= json_as_u64) 1%Z
                    && opt_is (json_get "phase" hot ≫= json_as_str) phase
                    && negb (str_is_empty (rt_physical_uid target))
                    && negb (str_is_empty (rt_deployment_generation target))) VersionConflict in
  let? revision := succ_revision op in
  let op := Compute.op_set op RecoveryRequired revision (op_step op) (op_checkpoint op)
              (Some "ERR_HOT_INSPECTION")
              (Some "Inspecting the original hot deployment after its coordinator lease expired; writes are not replayed") in
  Ok (op, save_operation op rv).

(** *** Private inputs and deadlines *)

Definition validated_execution_input (rv : RecoveryStore) (o : UserAppOperationRecord)
    : result string UserAppStoreError :=
  let? row := ok_or (rv_inputs rv !! op_operation_id o) (StorageFailure "record not found") in
  let? _ := ensure (bool_decide (oi_app_id row = op_app_id o)
                    && bool_decide (oi_lifecycle_id row = op_lifecycle_id o)
                    && (oi_payload_version row =? 1)%Z) LifecycleConflict in
  let digest := input_digest (oi_payload row) in
  let? _ := ensure (bool_decide (oi_payload_digest row = digest))
              (InvalidOperation "Stored execution input digest mismatch") in
  let? _ := validate_input (op_kind o) (op_request_fingerprint o) (op_command o) (Some digest) in
  Ok (oi_payload row).

Definition read_execution_input (rv : RecoveryStore) (context : UserAppExecutionContext)
    : result string UserAppStoreError :=
  let? _ := checked (validate_identity context (ctx_app_id context)) in
  let? (_, op) := current_operation (rv_compute rv) (ctx_app_id context) (ctx_operation_id context)
                    (ctx_lifecycle_id context) in
  let? _ := ensure (op_owns context op && bool_decide (op_state op = Running)) VersionConflict in
  let? _ := check_business_authority (rv_compute rv) op in
  validated_execution_input rv op.

Definition read_recovery_execution_input (rv : RecoveryStore) (snapshot : UserAppOperationRecord)
    : result string UserAppStoreError :=
  let? (app, op) := current rv snapshot in
  let? _ := validate_active app in
  let? _ := ensure (bool_decide (op = snapshot) && bool_decide (op_state op = RecoveryRequired)
                    && bool_decide (op_step op = "creating_runtime")
                    && bool_decide (op_kind op = StartDeployment) && is_some (op_executor_id op)
                    && match op_command op with Some (CmdDeploy false _ _) => true | _ => false end)
              VersionConflict in
  let? _ := check_business_authority (rv_compute rv) op in
  validated_execution_input rv op.

(** The first deadline stays. *)
Definition bind_operation_deadline (app id lifecycle : string) (deadline : Z) : RvTx Z := λ rv,
  let? _ := ensure (0 <? deadline)%Z (InvalidOperation "Operation deadline must be positive") in
  let? (_, op) := current_operation (rv_compute rv) app id lifecycle in
  let? _ := ensure (bool_decide (op_lifecycle_id op = lifecycle) && negb (op_is_terminal (op_state op)))
              VersionConflict in
  match rv_deadlines rv !! id with
  | Some row =>
      let? _ := ensure (bool_decide (od_app_id row = app) && bool_decide (od_lifecycle_id row = lifecycle))
                  LifecycleConflict in
      Ok (od_deadline_ms row, rv)
  | None =>
      let row := {| od_app_id := app; od_lifecycle_id := lifecycle; od_deadline_ms := deadline |} in
      Ok (deadline, with_operation_deadlines (<[id := row]> (rv_deadlines rv)) rv)
  end.

Definition operation_deadline (rv : RecoveryStore) (app id : string) : option Z :=
  match rv_deadlines rv !! id with
  | Some row => if bool_decide (od_app_id row = app) then Some (od_deadline_ms row) else None
  | None => None
  end.

(** Admission, with the private input stored beside the operation. *)
Definition admit_with_input (request : UserAppAdmission) (input : option string)
    (pg : option StartPgCredential) (now : Z) : RvTx UserAppAdmissionOutcome := λ rv,
  let? (out, cf) := Configuration.admit_with_configuration request (input_digest <$> input) pg now
                      (rv_config rv) in
  let rv' := with_config cf rv in
  match out, input with
  | AdmAccepted o, Some text =>
      let? _ := ensure (is_none (rv_inputs rv !! op_operation_id o)) (StorageFailure "duplicate operation input") in
      let row := {| oi_app_id := op_app_id o; oi_lifecycle_id := op_lifecycle_id o; oi_payload_version := 1;
                    oi_payload := text; oi_payload_digest := input_digest text |} in
      Ok (out, with_inputs (<[op_operation_id o := row]> (rv_inputs rv)) rv')
  | _, _ => Ok (out, rv')
  end.

(** An ordinary report; an end deletes the input. *)
Definition advance_operation (p : UserAppOperationProgress) : RvTx UserAppOperationRecord := λ rv,
  let? _ := ok_or (find_app (rv_compute rv) (pr_app_id p)) NotFound in
  let uncertain := Configuration.terminal_verdict (rv_config rv) (pr_state p) (pr_operation_id p) in
  let? (op, cs) := business_advance p uncertain (rv_compute rv) in
  let rv := with_compute cs rv in
  Ok (op, if op_is_terminal (op_state op) then delete_input (op_operation_id op) rv else rv).

(** *** An update whose deadline has passed *)

Definition deadline_passed (rv : RecoveryStore) (o : UserAppOperationRecord) (now : Z)
    : result Z UserAppStoreError :=
  let? row := ok_or (rv_deadlines rv !! op_operation_id o) VersionConflict in
  let? _ := ensure (bool_decide (od_app_id row = op_app_id o)
                    && bool_decide (od_lifecycle_id row = op_lifecycle_id o)
                    && (0 <? od_deadline_ms row)%Z && (od_deadline_ms row <=? now)%Z) VersionConflict in
  Ok (od_deadline_ms row).

Definition expire_deployment_update (snapshot : UserAppOperationRecord) (now : Z)
    : RvTx UserAppOperationRecord := λ rv,
  let? op := ok_or (find_operation (cs_ops (rv_compute rv)) (op_app_id snapshot) (op_operation_id snapshot))
               NotFound in
  let? _ := ensure (bool_decide (op = snapshot) && is_interrupted (op_state op)
                    && userapp_operation_has_deployment_update_receipt op) VersionConflict in
  let? deadline := deadline_passed rv op now in
  let? input := validated_execution_input rv op in
  let? _ := ensure (userapp_deployment_update_precedes_credentials op input) VersionConflict in
  let? (op, rv) :=
    if bool_decide (op_state op = RecoveryRequired) then
      let? revision := succ_revision op in
      let op := Compute.op_set op Running revision (op_step op) (op_checkpoint op) (op_error_code op)
                  (op_error_message op) in
      Ok (op, save_operation op rv)
    else Ok (op, rv) in
  let? checkpoint := json_index_set "deployment_update_expiry"
    (JObj [("deadline_ms", JNum deadline); ("deployment_completed", JBool false);
           ("input_digest", JStr (input_digest input));
           ("next_write_intent", JStr "explicit_pg_applying")]) (op_checkpoint op) in
  let? executor := ok_or (op_executor_id op) VersionConflict in
  advance_operation
    (report_of op executor Failed "deployment_update_expired" checkpoint (Some "ERR_DEADLINE_EXCEEDED")
       (Some "Deployment deadline expired after the configuration update returned and before the credential write intent; remaining deployment writes were not replayed"))
    rv.

(** *** Adopted resources *)

Definition get_resource_binding (rv : RecoveryStore) (service : ServiceType) (physical_uid : string)
    : result (option UserAppResourceBinding) UserAppStoreError :=
  match rv_bindings rv !! (service, physical_uid) with
  | Some row =>
      let? _ := ensure (bool_decide (bind_service_type row = UserappBuilder))
                  (InvalidOperation "Unsupported physical binding family") in
      Ok (Some row)
  | None => Ok None
  end.

(** [INSERT .. ON CONFLICT DO NOTHING], over all applications. *)
Definition insert_binding (b : UserAppResourceBinding) (rv : RecoveryStore) : RecoveryStore :=
  let key := (bind_service_type b, bind_physical_uid b) in
  match rv_bindings rv !! key with
  | Some _ => rv
  | None => with_bindings (<[key := b]> (rv_bindings rv)) rv
  end.

Definition commit_resource_binding (b : UserAppResourceBinding) (p : UserAppOperationProgress)
    : RvTx UserAppOperationRecord := λ rv,
  let? _ := ensure (bool_decide (pr_app_id p = bind_app_id b)
                    && bool_decide (pr_lifecycle_id p = bind_lifecycle_id b)
                    && bool_decide (pr_state p = Succeeded)
                    && bool_decide (bind_adopted_by_operation b = pr_operation_id p))
              (InvalidOperation "Binding requires its successful adoption operation") in
  let? app := ok_or (find_app (rv_compute rv) (bind_app_id b)) NotFound in
  let? _ := validate_active app in
  let? _ := ensure (bool_decide (app_lifecycle_id app = bind_lifecycle_id b)) LifecycleConflict in
  let? op := ok_or (find_operation (cs_ops (rv_compute rv)) (bind_app_id b) (pr_operation_id p)) NotFound in
  let? _ := ensure (bool_decide (op_kind op = AdoptBuilder))
              (InvalidOperation "Binding requires explicit adoption admission") in
  let context := {| ctx_app_id := app_id app; ctx_lifecycle_id := app_lifecycle_id app;
                    ctx_operation_id := op_operation_id op; ctx_executor_id := pr_executor_id p;
                    ctx_request_fingerprint := op_request_fingerprint op |} in
  let? _ := checked (binding_validate b context (bind_physical_uid b)) in
  let rv := insert_binding b rv in
  let? found := get_resource_binding rv (bind_service_type b) (bind_physical_uid b) in
  let? previous := ok_or found NotFound in
  let? _ := ensure (bool_decide (previous = b)) LifecycleConflict in
  advance_operation p rv.
End transactions.

(** *** After a restart of the local server *)

Definition may_be_running (s : UserAppOperationState) : bool :=
  match s with Running | WaitingRetry => true | _ => false end.

(** [SELECT operation_id .. WHERE state IN (..) AND operation_id>$1 ORDER BY
    operation_id LIMIT 256]. *)
Definition quarantine_page (ops : OperationTable) (after : string) : list string :=
  take 256 (List.filter (λ id, String.ltb after id
                           && match ops !! id with Some o => may_be_running (op_state o) | None => false end)
              (btree_keys ops)).

Definition quarantined (o : UserAppOperationRecord) (revision : Z) : UserAppOperationRecord :=
  Compute.op_set o RecoveryRequired revision (op_step o) (op_checkpoint o) (Some "ERR_BACKEND_ERROR")
    (Some "Previous local executor stopped; remote outcome requires verification").

Definition quarantine_one (apps : gmap string UserAppLifecycleRecord) (ops : OperationTable)
    (id : string) : result OperationTable UserAppStoreError :=
  let? o := ok_or (ops !! id) (StorageFailure "record not found") in
  let? app := ok_or (apps !! op_app_id o) NotFound in
  let? _ := ensure (bool_decide (app_lifecycle_id app = op_lifecycle_id o) && slot_matches_operation app o)
              LifecycleConflict in
  let? revision := ok_or (i64_checked_succ (op_revision o))
                     (InvalidOperation "Operation revision exhausted during restart") in
  Ok (<[id := quarantined o revision]> ops).

(** One page; the cursor is its last id. *)
Fixpoint quarantine_ids (apps : gmap string UserAppLifecycleRecord) (ids : list string)
    (after : string) (ops : OperationTable) : result (string * OperationTable) UserAppStoreError :=
  match ids with
  | [] => Ok (after, ops)
  | id :: rest => let? ops := quarantine_one apps ops id in quarantine_ids apps rest id ops
  end.

(** The loop over pages; [None] is a loop that has not ended. *)
Fixpoint quarantine_pages (fuel : nat) (apps : gmap string UserAppLifecycleRecord) (after : string)
    (ops : OperationTable) : option (result OperationTable UserAppStoreError) :=
  match fuel with
  | O => None
  | S fuel =>
      match quarantine_page ops after with
      | [] => Some (Ok ops)
      | ids => match quarantine_ids apps ids after ops with
               | Ok (after, ops) => quarantine_pages fuel apps after ops
               | Err e => Some (Err e)
               end
      end
  end.

(** A page removes at least one operation from those left. *)
Definition quarantine_local_restart (apps : gmap string UserAppLifecycleRecord) (ops : OperationTable)
    : option (result OperationTable UserAppStoreError) :=
  quarantine_pages (S (size ops)) apps "" ops.
End Reconcile.

(** ** Calls and runs *)

(** The calls of [RuntimeConfiguration.v] and those above.  A restart of the
    local server calls [Restart]. *)
Inductive ROp :=
  | RConfig (op : FOp)
  | RAdmit (request : UserAppAdmission) (input : option string) (pg : option StartPgCredential) (now : Z)
  | RBindDeadline (app id lifecycle : string) (deadline : Z)
  | RPassword (snapshot : UserAppOperationRecord) (evidence : DatabasePasswordEvidence)
  | RDeployPg (snapshot : UserAppOperationRecord) (evidence : ExplicitDeploymentPasswordEvidence)
  | RPrepared (snapshot : UserAppOperationRecord) (evidence : DatabasePreparationEvidence)
  | RCreationRejected (snapshot : UserAppOperationRecord) (rejection : option RuntimeRequestRejection)
  | RCreationConfirmed (snapshot : UserAppOperationRecord) (evidence : BuilderCreationEvidence)
      (management_ready : bool)
  | RReserveCompleted (snapshot : UserAppOperationRecord)
  | RWake (snapshot : UserAppOperationRecord)
  | RLegacyWake (snapshot : UserAppOperationRecord) (evidence : Json)
  | RSettleFenced (snapshot : UserAppOperationRecord) (evidence : Json) (note : string)
  | RSettleStale (snapshot : UserAppOperationRecord) (evidence : Json) (note : string)
  | RHotSuccess (snapshot : UserAppOperationRecord) (evidence : Json)
  | RHotFailure (snapshot : UserAppOperationRecord) (evidence : HotDeploymentFailureEvidence)
  | RReserveDeletion (snapshot : UserAppOperationRecord)
  | RDeletionProblem (snapshot : UserAppOperationRecord) (message : string)
  | RDeletionRetired (snapshot : UserAppOperationRecord) (evidence : Json)
  | RReserveHot (snapshot : UserAppOperationRecord) (binding : UserAppOperationLeaseBinding)
  | RExpireUpdate (snapshot : UserAppOperationRecord) (now : Z)
  | RCommitBinding (binding : UserAppResourceBinding) (p : UserAppOperationProgress)
  | RRestart.

Definition committed_recovery {A} (tx : RvTx A) (rv : RecoveryStore) : RecoveryStore :=
  match tx rv with Ok (_, rv') => rv' | Err _ => rv end.

(** The inputs of operations that a call has ended go with them. *)
Definition ended_between (before after : OperationTable) (id : string) : bool :=
  match before !! id, after !! id with
  | Some o, Some o' => negb (op_is_terminal (op_state o)) && op_is_terminal (op_state o')
  | _, _ => false
  end.
Definition prune_inputs (before after : OperationTable) (inputs : gmap string OperationInput)
    : gmap string OperationInput :=
  filter (λ kv, ended_between before after kv.1 = false) inputs.

Section rrun.
Context `{CheckpointCodec, CreationCodec, ComputeCodec, RecoveryCodec, Configuration.SeedHash}.

Definition config_step (op : FOp) (rv : RecoveryStore) : RecoveryStore :=
  let cf := fstep op (rv_config rv) in
  with_inputs (prune_inputs (cs_ops (rv_compute rv)) (cs_ops (cf_base cf)) (rv_inputs rv)) (with_config cf rv).

Definition restart_step (rv : RecoveryStore) : RecoveryStore :=
  let cs := rv_compute rv in
  match Reconcile.quarantine_local_restart {[app_id (cs_app cs) := cs_app cs]} (cs_ops cs) with
  | Some (Ok ops) => with_compute (with_store (mkAppStore (cs_app cs) ops (st_requests (cs_store cs))) cs) rv
  | _ => rv
  end.

Definition rstep (op : ROp) (rv : RecoveryStore) : RecoveryStore :=
  match op with
  | RConfig op => config_step op rv
  | RAdmit request input pg now => committed_recovery (Reconcile.admit_with_input request input pg now) rv
  | RBindDeadline app id lifecycle deadline =>
      committed_recovery (Reconcile.bind_operation_deadline app id lifecycle deadline) rv
  | RPassword s e => committed_recovery (Reconcile.finalize_password_recovery s e) rv
  | RDeployPg s e => committed_recovery (Reconcile.finalize_deploy_pg_recovery s e) rv
  | RPrepared s e => committed_recovery (Reconcile.confirm_database_preparation_recovery s e) rv
  | RCreationRejected s r => committed_recovery (Reconcile.finalize_builder_creation_rejection s r) rv
  | RCreationConfirmed s e ready =>
      committed_recovery (Reconcile.confirm_builder_creation_recovery s e ready) rv
  | RReserveCompleted s => committed_recovery (Reconcile.reserve_completed_operation s) rv
  | RWake s => committed_recovery (Reconcile.finalize_observed_wake s) rv
  | RLegacyWake s e => committed_recovery (Reconcile.finalize_legacy_observed_wake s e) rv
  | RSettleFenced s e note => committed_recovery (Reconcile.settle_fenced_operation s e note) rv
  | RSettleStale s e note => committed_recovery (Reconcile.settle_stale_running_builder s e note) rv
  | RHotSuccess s e => committed_recovery (Reconcile.finalize_observed_hot_success s e) rv
  | RHotFailure s e => committed_recovery (Reconcile.finalize_observed_hot_failure s e) rv
  | RReserveDeletion s => committed_recovery (Reconcile.reserve_interrupted_deletion s) rv
  | RDeletionProblem s m => committed_recovery (Reconcile.record_deletion_recovery_problem s m) rv
  | RDeletionRetired s e => committed_recovery (Reconcile.finalize_interrupted_deletion s e) rv
  | RReserveHot s b => committed_recovery (Reconcile.reserve_interrupted_hot s b) rv
  | RExpireUpdate s now => committed_recovery (Reconcile.expire_deployment_update s now) rv
  | RCommitBinding b p => committed_recovery (Reconcile.commit_resource_binding b p) rv
  | RRestart => restart_step rv
  end.

Definition rrun (ops : list ROp) (rv : RecoveryStore) : RecoveryStore := foldl (λ rv op, rstep op rv) rv ops.

Definition fresh_recovery (op : ROp) (rv : RecoveryStore) : Prop :=
  match op with
  | RConfig op => fresh_config op (rv_config rv)
  | RAdmit request input pg now =>
      fresh_config (FAdmit request (input_digest <$> input) pg now) (rv_config rv)
  | _ => True
  end.
Fixpoint fresh_recovery_run (ops : list ROp) (rv : RecoveryStore) : Prop :=
  match ops with
  | [] => True
  | op :: rest => fresh_recovery op rv ∧ fresh_recovery_run rest (rstep op rv)
  end.
End rrun.

Definition new_recovery_store (st : AppStore) : RecoveryStore :=
  mkRecoveryStore (new_config_store st) ∅ ∅ ∅.
