(* ===== verification/RecoveryRestart.v ===== *)
(** * Quarantine after a restart

    The loop over pages of operations that may have been running visits each
    of them once and ends; its result is the table with each of them put under
    recovery. *)
From stdpp Require Import sorting.
From S2P Require Import Prelude Validation Lifecycle Evidence LifecycleDomain ComputeAdmission LifecycleRecovery Ordered.
Import Reconcile.
Local Open Scope rust_scope.

(** ** Sorted keys *)

Lemma ltb_spec a b : String.ltb a b = true ↔ String.le a b ∧ a ≠ b.
Proof.
  unfold String.le, String.leb, String.ltb. destruct (String.compare a b) eqn:Hc; simpl.
  - apply String.compare_eq_iff in Hc. naive_solver.
  - split; [|done]. intros _. split; [done|]. intros ->. pose proof (String.compare_antisym b b) as Ha. by rewrite Hc in Ha.
  - naive_solver.
Qed.
Lemma btree_keys_sorted {V} (m : gmap string V) : StronglySorted String.le (btree_keys m).
Proof. apply StronglySorted_merge_sort; apply _. Qed.
Lemma StronglySorted_filter {A} (R : relation A) f l :
  StronglySorted R l → StronglySorted R (List.filter f l).
Proof.
  induction 1 as [|x l _ IH Hx]; simpl; [constructor|]. destruct (f x); [|done]. constructor; [done|].
  rewrite Forall_forall in *. intros y Hy. apply Hx. apply list_elem_of_In, filter_In in Hy as [Hy _].
  by apply list_elem_of_In.
Qed.
Lemma NoDup_lfilter {A} f (l : list A) : NoDup l → NoDup (List.filter f l).
Proof.
  induction 1 as [|x l Hx _ IH]; simpl; [constructor|]. destruct (f x); [|done]. constructor; [|done].
  intros Hin. apply Hx. apply list_elem_of_In, filter_In in Hin as [Hin _]. by apply list_elem_of_In.
Qed.

(** Dropping the first matches is filtering without them. *)
Lemma filter_without {A} `{EqDecision A} (f g : A → bool) (l : list A) k :
  NoDup l → (∀ x, x ∈ l → g x = f x && bool_decide (x ∉ take k (List.filter f l))) →
  List.filter g l = drop k (List.filter f l).
Proof.
  intros Hnd. revert k. induction Hnd as [|x l Hx Hl IH]; intros k Hg; [by destruct k|].
  pose proof (Hg x ltac:(left)) as Hgx. cbn [List.filter] in *. rewrite Hgx. clear Hgx. destruct (f x) eqn:Hf.
  - destruct k as [|k]; cbn [take drop andb] in *.
    + rewrite bool_decide_eq_true_2 by set_solver. f_equal. rewrite (IH 0); [done|].
      intros y Hy. by apply Hg; right.
    + rewrite bool_decide_eq_false_2 by set_solver. apply IH. intros y Hy. rewrite (Hg y) by by right. f_equal.
      apply bool_decide_ext. assert (y ≠ x) by (intros ->; done). set_solver.
  - apply IH. intros y Hy. by apply Hg; right.
Qed.

(** ** The reference *)

Definition quarantine_row (o : UserAppOperationRecord) : UserAppOperationRecord :=
  if may_be_running (op_state o) then quarantined o (op_revision o + 1) else o.

(** The row belongs to a slot of its application, and its revision has a next. *)
Definition quarantinable (apps : gmap string UserAppLifecycleRecord) (o : UserAppOperationRecord) : Prop :=
  (∃ app, apps !! op_app_id o = Some app ∧ app_lifecycle_id app = op_lifecycle_id o
     ∧ slot_matches_operation app o = true) ∧ is_Some (i64_checked_succ (op_revision o)).

Definition running_at (ops : OperationTable) (id : string) : bool :=
  match ops !! id with Some o => may_be_running (op_state o) | None => false end.
(** What is left to do. *)
Definition pending_ids (ops : OperationTable) : list string := List.filter (running_at ops) (btree_keys ops).

Lemma elem_of_pending ops id :
  id ∈ pending_ids ops ↔ ∃ o, ops !! id = Some o ∧ may_be_running (op_state o) = true.
Proof.
  unfold pending_ids, running_at. rewrite list_elem_of_In, filter_In, <- list_elem_of_In, elem_of_btree_keys.
  split.
  - intros [[o Ho] Hr]. rewrite Ho in Hr. eauto.
  - intros (o & Ho & Hr). rewrite Ho. eauto.
Qed.
Lemma pending_sorted ops : StronglySorted String.le (pending_ids ops) ∧ NoDup (pending_ids ops).
Proof.
  split; [apply StronglySorted_filter, btree_keys_sorted|apply NoDup_lfilter, NoDup_btree_keys].
Qed.

(** ** One operation and one page *)

Lemma quarantine_one_Ok apps ops id o ops' :
  ops !! id = Some o →
  quarantine_one apps ops id = Ok ops' ↔
  quarantinable apps o ∧ ops' = <[id := quarantined o (op_revision o + 1)]> ops.
Proof.
  intros Ho. unfold quarantine_one, quarantinable. rewrite Ho. simpl. split.
  - intros H. peel H as app Happ. peel H as Hb. peel H as rev Hrev. injection H as <-. bools.
    split; [split; [by exists app|by rewrite Hrev]|]. by apply i64_checked_succ_Some in Hrev as ->.
  - intros [[(app & -> & Hl & Hs) [rev Hrev]] ->]. simpl. rewrite Hl, Hs, bool_decide_eq_true_2 by done. simpl.
    rewrite Hrev. simpl. by apply i64_checked_succ_Some in Hrev as ->.
Qed.

(** After a page: its operations are quarantined, the others as before. *)
Definition page_done (ids : list string) (ops ops' : OperationTable) : Prop :=
  ∀ id, ops' !! id = if bool_decide (id ∈ ids) then quarantine_row <$> ops !! id else ops !! id.

Lemma quarantine_ids_Ok apps ids after ops after' ops' :
  NoDup ids → (∀ id, id ∈ ids → id ∈ pending_ids ops) →
  quarantine_ids apps ids after ops = Ok (after', ops') →
  after' = default after (last ids) ∧ page_done ids ops ops'
  ∧ ∀ id o, id ∈ ids → ops !! id = Some o → quarantinable apps o.
Proof.
  intros Hnd. revert after ops. induction Hnd as [|id ids Hid Hnd IH]; intros after ops Hp H; simpl in H.
  { injection H as <- <-. split_and!; [done| |set_solver]. intros id. by rewrite bool_decide_eq_false_2 by set_solver. }
  peel H as ops1 H1. pose proof (Hp id ltac:(left)) as (o & Ho & Hr)%elem_of_pending.
  apply (quarantine_one_Ok _ _ _ o) in H1 as [Hq ->]; [|done]. set (o1 := quarantined o _) in *.
  apply IH in H as (-> & Hd & Hqs).
  - split_and!.
    + rewrite last_cons. by destruct (last ids).
    + intros i. rewrite (Hd i). destruct (decide (i = id)) as [->|Hne].
      * rewrite bool_decide_eq_false_2, bool_decide_eq_true_2, lookup_insert_eq, Ho by (set_solver || done).
        simpl. unfold quarantine_row. by rewrite Hr.
      * rewrite lookup_insert_ne by done. rewrite (bool_decide_ext (i ∈ ids) (i ∈ id :: ids)) by set_solver. done.
    + intros i o2 [->|Hi]%elem_of_cons Ho2; [congruence|]. eapply Hqs; [done|].
      rewrite lookup_insert_ne by set_solver. done.
  - intros i Hi. apply elem_of_pending. rewrite lookup_insert_ne by set_solver. by apply elem_of_pending, Hp; right.
Qed.

Lemma quarantine_ids_total apps ids after ops :
  NoDup ids → (∀ id, id ∈ ids → ∃ o, ops !! id = Some o ∧ quarantinable apps o) →
  ∃ r, quarantine_ids apps ids after ops = Ok r.
Proof.
  intros Hnd. revert after ops. induction Hnd as [|id ids Hid Hnd IH]; intros after ops Hp; simpl; [eauto|].
  destruct (Hp id ltac:(left)) as (o & Ho & Hq).
  rewrite (proj2 (quarantine_one_Ok apps ops id o _ Ho) (conj Hq eq_refl)). simpl. apply IH.
  intros i Hi. rewrite lookup_insert_ne by set_solver. by apply Hp; right.
Qed.

(** The page, when nothing up to the cursor is left. *)
Lemma quarantine_page_pending ops after :
  (∀ id, id ∈ pending_ids ops → String.ltb after id = true) →
  quarantine_page ops after = take 256 (pending_ids ops).
Proof.
  intros Hc. unfold quarantine_page, pending_ids. f_equal.
  assert (∀ l, (∀ id, id ∈ l → running_at ops id = true → String.ltb after id = true) →
    List.filter (λ id, String.ltb after id && running_at ops id) l = List.filter (running_at ops) l) as Hf.
  { induction l as [|x l IH]; intros Hl; simpl; [done|].
    rewrite IH by (intros; apply Hl; [by right|done]). destruct (running_at ops x) eqn:Hr.
    - by rewrite Hl by (done || left).
    - by rewrite andb_false_r. }
  apply Hf. intros id Hid Hr. apply Hc. apply list_elem_of_In, filter_In. by rewrite <- list_elem_of_In.
Qed.

Lemma page_done_dom ids ops ops' : page_done ids ops ops' → btree_keys ops' = btree_keys ops.
Proof.
  intros Hd. unfold btree_keys. do 2 f_equal. apply set_eq. intros id. rewrite !elem_of_dom, (Hd id).
  destruct (bool_decide _); [by rewrite fmap_is_Some|done].
Qed.
Lemma quarantine_row_stops o : may_be_running (op_state (quarantine_row o)) = false.
Proof. unfold quarantine_row. by destruct (may_be_running (op_state o)) eqn:Hr. Qed.

Lemma pending_after k ops ops' :
  page_done (take k (pending_ids ops)) ops ops' → pending_ids ops' = drop k (pending_ids ops).
Proof.
  intros Hd. unfold pending_ids at 1. rewrite (page_done_dom _ _ _ Hd).
  apply filter_without; [apply NoDup_btree_keys|]. intros x _. fold (pending_ids ops). unfold running_at at 1.
  rewrite (Hd x). case_bool_decide as Hin.
  - rewrite (bool_decide_eq_false_2 (x ∉ _)) by naive_solver. rewrite andb_false_r.
    destruct (ops !! x) as [o|]; simpl; [apply quarantine_row_stops|done].
  - rewrite (bool_decide_eq_true_2 (x ∉ _)) by done. by rewrite andb_true_r.
Qed.

(** ** The loop *)

(** What is left after a page lies behind its last id. *)
Lemma beyond_last (l : list string) k after :
  StronglySorted String.le l → NoDup l → (∀ id, id ∈ l → String.ltb after id = true) →
  ∀ id, id ∈ drop k l → String.ltb (default after (last (take k l))) id = true.
Proof.
  intros Hs Hnd Ha id Hid. destruct (last (take k l)) as [x|] eqn:Hx; simpl.
  - apply last_Some_elem_of in Hx. rewrite <- (take_drop k l) in Hs, Hnd. apply ltb_spec. split.
    + by eapply StronglySorted_app_1_elem_of.
    + intros ->. apply NoDup_app in Hnd as (_ & Hd & _). by eapply Hd.
  - apply Ha. rewrite <- (take_drop k l). apply elem_of_app. by right.
Qed.

Lemma page_reference ids ops ops' :
  page_done ids ops ops' → quarantine_row <$> ops' = quarantine_row <$> ops.
Proof.
  intros Hd. apply map_eq. intros id. rewrite !lookup_fmap, (Hd id). case_bool_decide; [|done].
  destruct (ops !! id) as [o|]; [|done]. simpl. f_equal. unfold quarantine_row at 1. by rewrite quarantine_row_stops.
Qed.
Lemma page_running ids ops ops' id o :
  page_done ids ops ops' → ops' !! id = Some o → may_be_running (op_state o) = true →
  ops !! id = Some o ∧ id ∉ ids.
Proof.
  intros Hd Ho Hr. rewrite (Hd id) in Ho. case_bool_decide; [|done].
  destruct (ops !! id) as [o0|]; [|done]. injection Ho as <-. by rewrite quarantine_row_stops in Hr.
Qed.

Lemma quarantine_pages_step fuel apps after ops ids :
  quarantine_page ops after = ids → ids ≠ [] →
  quarantine_pages (S fuel) apps after ops
  = match quarantine_ids apps ids after ops with
    | Ok (after, ops) => quarantine_pages fuel apps after ops
    | Err e => Some (Err e)
    end.
Proof. intros <- Hne. simpl. by destruct (quarantine_page ops after). Qed.

Lemma quarantine_pages_spec apps fuel after ops :
  (length (pending_ids ops) < fuel)%nat → (∀ id, id ∈ pending_ids ops → String.ltb after id = true) →
  ∃ r, quarantine_pages fuel apps after ops = Some r
    ∧ (∀ ops', r = Ok ops' → ops' = quarantine_row <$> ops
         ∧ ∀ id o, ops !! id = Some o → may_be_running (op_state o) = true → quarantinable apps o)
    ∧ ((∀ id o, ops !! id = Some o → may_be_running (op_state o) = true → quarantinable apps o) → is_ok r = true).
Proof.
  revert after ops. induction fuel as [|fuel IH]; intros after ops Hlen Hc; [lia|].
  pose proof (quarantine_page_pending ops after Hc) as Hpage. destruct (pending_sorted ops) as [Hs Hnd].
  destruct (pending_ids ops) as [|x l] eqn:Hp; [|rewrite <- Hp in *].
  - cbn [quarantine_pages]. rewrite Hpage. change (take 256 []) with (@nil string).
    exists (Ok ops). split_and!; [done| |done]. intros ops' [= <-].
    assert (∀ id o, ops !! id = Some o → may_be_running (op_state o) = false) as Hnone.
    { intros id o Ho. destruct (may_be_running (op_state o)) eqn:Hr; [|done].
      assert (id ∈ pending_ids ops) as Hin by (apply elem_of_pending; eauto). rewrite Hp in Hin. set_solver. }
    split; [|intros id o Ho Hr; by rewrite (Hnone _ _ Ho) in Hr].
    apply map_eq. intros id. rewrite lookup_fmap. destruct (ops !! id) as [o|] eqn:Ho; [|done]. simpl.
    unfold quarantine_row. by rewrite (Hnone _ _ Ho).
  - set (ids := take 256 (pending_ids ops)).
    assert (NoDup ids) as Hnd' by (unfold ids; rewrite <- (take_drop 256 (pending_ids ops)) in Hnd; by apply NoDup_app in Hnd as [? _]).
    assert (∀ id, id ∈ ids → id ∈ pending_ids ops) as Hsub
      by (intros id Hid; rewrite <- (take_drop 256 (pending_ids ops)); apply elem_of_app; by left).
    assert (ids ≠ []) as Hne by (unfold ids; by rewrite Hp).
    rewrite (quarantine_pages_step _ _ _ _ ids) by done.
    destruct (quarantine_ids apps ids after ops) as [[after1 ops1]|e] eqn:Hq.
    + destruct (quarantine_ids_Ok _ _ _ _ _ _ Hnd' Hsub Hq) as (-> & Hd & Hqs).
      pose proof (pending_after _ _ _ Hd) as Hleft.
      destruct (IH (default after (last ids)) ops1) as (r & Hr & Hres & Htot).
      { rewrite Hleft, length_drop. rewrite Hp in *. simpl in *. lia. }
      { rewrite Hleft. by apply beyond_last. }
      exists r. split_and!.
      * done.
      * intros ops' Hok. destruct (Hres _ Hok) as [-> Hrun]. split; [by eapply page_reference|].
        intros id o Ho Hro. destruct (decide (id ∈ ids)) as [Hin|Hin]; [by eapply Hqs|].
        eapply Hrun; [|done]. by rewrite (Hd id), bool_decide_eq_false_2.
      * intros Hall. apply Htot. intros id o Ho Hro. destruct (page_running _ _ _ _ _ Hd Ho Hro). by eapply Hall.
    + exists (Err e). split_and!; [done|done|]. intros Hall. exfalso.
      destruct (quarantine_ids_total apps ids after ops Hnd') as [r Hr]; [|congruence].
      intros id Hid. apply Hsub, elem_of_pending in Hid as (o & Ho & Hro). eauto.
Qed.

(** The whole loop: with a page more than there are operations it ends, and
    leaves the reference. *)
Lemma quarantine_spec apps ops :
  ops !! EmptyString = None →
  ∃ r, quarantine_local_restart apps ops = Some r
    ∧ (∀ ops', r = Ok ops' → ops' = quarantine_row <$> ops
         ∧ ∀ id o, ops !! id = Some o → may_be_running (op_state o) = true → quarantinable apps o)
    ∧ ((∀ id o, ops !! id = Some o → may_be_running (op_state o) = true → quarantinable apps o) → is_ok r = true).
Proof.
  intros He. apply quarantine_pages_spec.
  - assert (length (pending_ids ops) ≤ length (btree_keys ops))%nat as Hle by apply filter_length_le.
    assert (length (btree_keys ops) = size ops) as Hsz; [|lia].
    unfold btree_keys. rewrite (Permutation_length (merge_sort_Permutation String.le _)). apply size_dom.
  - intros id (o & Ho & _)%elem_of_pending. apply ltb_spec. split.
    + by destruct id.
    + congruence.
Qed.

(** Whatever the ids are, rows are only marked. *)
Definition marks (ops ops' : OperationTable) : Prop :=
  ∀ id, ops' !! id = ops !! id
    ∨ ∃ o, ops !! id = Some o ∧ may_be_running (op_state o) = true ∧ ops' !! id = Some (quarantine_row o).

Lemma page_pending ops after :
  NoDup (quarantine_page ops after) ∧ ∀ id, id ∈ quarantine_page ops after → id ∈ pending_ids ops.
Proof.
  unfold quarantine_page. set (f := λ id, _). set (l := List.filter f (btree_keys ops)).
  assert (NoDup l) as Hnd by (apply NoDup_lfilter, NoDup_btree_keys). rewrite <- (take_drop 256 l) in Hnd. split.
  - by apply NoDup_app in Hnd as [? _].
  - intros id Hid. assert (id ∈ l) as Hl by (rewrite <- (take_drop 256 l); apply elem_of_app; by left).
    apply list_elem_of_In, filter_In in Hl as [Hk Hf]. apply list_elem_of_In, filter_In. split; [done|].
    unfold f in Hf. by apply andb_true_iff in Hf as [_ ?].
Qed.

Lemma quarantine_pages_marks apps fuel after ops ops' :
  quarantine_pages fuel apps after ops = Some (Ok ops') → marks ops ops'.
Proof.
  revert after ops. induction fuel as [|fuel IH]; intros after ops H; [done|].
  destruct (page_pending ops after) as [Hnd Hsub].
  destruct (decide (quarantine_page ops after = [])) as [Hnil|Hne].
  { cbn [quarantine_pages] in H. rewrite Hnil in H. injection H as <-. intros id. by left. }
  rewrite (quarantine_pages_step _ _ _ _ _ eq_refl Hne) in H.
  destruct (quarantine_ids apps _ after ops) as [[after1 ops1]|e] eqn:Hq; [|done].
  destruct (quarantine_ids_Ok _ _ _ _ _ _ Hnd Hsub Hq) as (_ & Hd & _). specialize (IH _ _ H). intros id.
  destruct (IH id) as [Heq|(o & Ho & Hr & Ho')].
  - rewrite Heq, (Hd id). case_bool_decide as Hin; [right|by left].
    apply Hsub, elem_of_pending in Hin as (o & Ho & Hr). exists o. by rewrite Ho.
  - right. destruct (page_running _ _ _ _ _ Hd Ho Hr) as [Ho0 _]. by exists o.
Qed.
