(* ===== verification/RecoveryInv.v ===== *)
(** * What recovery does to the store

    Every call on an observed record changes that record only, if it is still
    the stored one, on its way forward; and the ledger of [ComputeSpec.v]
    allows it.  Only two calls can record a success, and these do so also when a
    stop or restart has interrupted the operation. *)
From S2P Require Import Prelude Validation RuntimeControl Lifecycle Evidence LifecycleDomain LifecycleStore.
From S2P Require Import LifecycleSafety OperationLease ComputeControl ComputeStore ComputeAdmission.
From S2P Require Import ComputeExecution ComputeRecovery ComputeSpec ComputeRefine ComputeBusiness ComputeMono ComputeInv.
From S2P Require Import RuntimeConfiguration ConfigurationInv LifecycleRecovery RecoveryRestart.
Import Text Identifier.
Local Open Scope rust_scope.

(** ** The effect of a call on an observed record *)

(** The columns of an operation that no progress changes. *)
Definition op_identity (o : UserAppOperationRecord) :=
  (op_runtime_policy_on_success o, op_command o, op_admitted_metadata o, op_operation_id o, op_app_id o,
   op_lifecycle_id o, op_request_id o, op_request_fingerprint o, op_kind o, op_scope o, op_created_at o).

(** The application after one of its operations has moved to [o']. *)
Record app_follows (s o' : UserAppOperationRecord) (a a' : UserAppLifecycleRecord) : Prop := {
  fa_ids : app_id a' = app_id a ∧ app_lifecycle_id a' = app_lifecycle_id a
           ∧ lifecycle_epoch a' = lifecycle_epoch a;
  fa_slots : active_operations a' = if op_is_terminal (op_state o')
                                    then slot_set (op_scope s) None (active_operations a)
                                    else active_operations a;
  fa_state : app_state a' = if op_is_terminal (op_state o') && ends_lifecycle (op_kind s)
                            then (if bool_decide (op_state o' = Succeeded) then Deleted else Active)
                            else app_state a;
}.

(** The stored record is the observed one, in its slot and alive. *)
Record held (s : UserAppOperationRecord) (cs : ComputeStore) : Prop := {
  hd_row : cs_ops cs !! op_operation_id s = Some s;
  hd_app : op_app_id s = app_id (cs_app cs);
  hd_lifecycle : op_lifecycle_id s = app_lifecycle_id (cs_app cs);
  hd_slot : slot (active_operations (cs_app cs)) (op_scope s) = Some (op_operation_id s);
  hd_live : op_is_terminal (op_state s) = false;
}.

Record moved (s o' : UserAppOperationRecord) (a a' : UserAppLifecycleRecord) : Prop := {
  mv_identity : op_identity o' = op_identity s;
  mv_executor : op_executor_id o' = op_executor_id s;
  mv_revision : (op_revision s < op_revision o')%Z;
  mv_app : app_follows s o' a a';
}.

Definition with_move (a' : UserAppLifecycleRecord) (o' : UserAppOperationRecord) (cs : ComputeStore)
    : ComputeStore :=
  with_store (mkAppStore a' (<[op_operation_id o' := o']> (cs_ops cs)) (st_requests (cs_store cs))) cs.

(** The whole effect: the record, its application, and at most its input. *)
Definition recovers (s o' : UserAppOperationRecord) (rv rv' : RecoveryStore) : Prop :=
  held s (rv_compute rv)
  ∧ ∃ a' m, moved s o' (cs_app (rv_compute rv)) a'
      ∧ rv' = with_inputs m (with_compute (with_move a' o' (rv_compute rv)) rv)
      ∧ (m = rv_inputs rv ∨ m = delete (op_operation_id s) (rv_inputs rv)
         ∧ op_is_terminal (op_state o') = true).

(** ** The pieces *)

Lemma snapshot_current_Ok rv s a o :
  Reconcile.current rv s = Ok (a, o) → o = s → op_is_terminal (op_state s) = false →
  a = cs_app (rv_compute rv) ∧ held s (rv_compute rv).
Proof.
  unfold Reconcile.current, current_operation. intros H -> Hl. peel H as a0 Ha. apply find_app_Some in Ha as [-> Happ].
  peel H as Hb. peel H as o0 Ho. peel H as Hs. injection H as <- ->. apply find_operation_some in Ho as [Hrow _].
  unfold slot_matches_operation in Hs. bools. split; [done|]. by split.
Qed.

Section pieces.
Context `{CheckpointCodec, CreationCodec, ComputeCodec, RecoveryCodec, Configuration.SeedHash}.

Lemma run_advance_Ok p a o a' o' :
  Reconcile.run_advance p (a, o) = Ok (a', o') → advanced_from p a o a' o'.
Proof.
  unfold Reconcile.run_advance. intros H'. pose proof (advance_spec p a o) as Hs. unfold wp in Hs.
  destruct (advance p (a, o)) as [[u|] [a1 o1]]; [|done]. simpl in H'. by injection H' as <- <-.
Qed.

(** The executor of a running operation stays. *)
Lemma advanced_moved p a s o a' o' :
  advanced_from p a o a' o' → op_state o = Running → op_identity o = op_identity s →
  op_executor_id o = op_executor_id s → (op_revision s ≤ op_revision o)%Z →
  moved s o' a a' ∧ op_state o' = pr_state p ∧ op_step o' = pr_step p ∧ op_checkpoint o' = pr_checkpoint p.
Proof.
  intros [_ _ _ _ Hclaim _ -> _ Hids Hslots Hst] Hr Hi He Hrev. unfold authorize_userapp_progress_claim in Hclaim.
  rewrite Hr in Hclaim. destruct (opt_is _ _) eqn:Hex; [|by destruct (pr_state p)]. bools.
  split; [|done]. unfold op_identity in Hi. injection Hi as ? ? ? ? ? ? ? ? Hk Hsc ?. split; simpl.
  - unfold op_identity. simpl. congruence.
  - congruence.
  - lia.
  - split; simpl; [done|by rewrite <- Hsc|by rewrite <- Hk].
Qed.
End pieces.

(** ** Writing the record back *)

Lemma save_recovers s a' o' rv :
  held s (rv_compute rv) → moved s o' (cs_app (rv_compute rv)) a' →
  recovers s o' rv (Reconcile.save (a', o') rv).
Proof. intros Hh Hm. split; [done|]. exists a', (rv_inputs rv). split_and!; [done|done|by left]. Qed.
Lemma save_delete_recovers s a' o' rv :
  held s (rv_compute rv) → moved s o' (cs_app (rv_compute rv)) a' → op_is_terminal (op_state o') = true →
  recovers s o' rv (Reconcile.delete_input (op_operation_id o') (Reconcile.save (a', o') rv)).
Proof.
  intros Hh Hm Ht. split; [done|]. exists a', (delete (op_operation_id s) (rv_inputs rv)).
  assert (op_operation_id o' = op_operation_id s) as Hid by (pose proof (mv_identity _ _ _ _ Hm); unfold op_identity in *; congruence).
  split_and!; [done| |by right]. unfold Reconcile.delete_input. by rewrite Hid.
Qed.
(** A note leaves the operation in its slot. *)
Lemma note_recovers s o' rv :
  held s (rv_compute rv) → op_identity o' = op_identity s → op_executor_id o' = op_executor_id s →
  (op_revision s < op_revision o')%Z → op_is_terminal (op_state o') = false →
  recovers s o' rv (Reconcile.save_operation o' rv).
Proof.
  intros Hh Hi He Hr Ht. split; [done|]. exists (cs_app (rv_compute rv)), (rv_inputs rv).
  split_and!; [|done|by left]. split; try done. split; [done|by rewrite Ht..].
Qed.

Lemma succ_revision_Ok o r : succ_revision o = Ok r → r = (op_revision o + 1)%Z.
Proof.
  unfold succ_revision, ok_or. case_match eqn:Hr; [|done]. intros [= <-].
  by apply i64_checked_succ_Some in Hr.
Qed.

(** ** The calls *)

Section calls.
Context `{CheckpointCodec, CreationCodec, ComputeCodec, RecoveryCodec, Configuration.SeedHash}.

(** One report in the executor's name, from the record held running. *)
Definition reports (s o' : UserAppOperationRecord) (a a' : UserAppLifecycleRecord) : Prop :=
  ∃ p, advanced_from p a (with_state Running s) a' o'.

Lemma report_moved s p a a' o' :
  Reconcile.run_advance p (a, with_state Running s) = Ok (a', o') →
  moved s o' a a' ∧ op_state o' = pr_state p ∧ op_checkpoint o' = pr_checkpoint p ∧ reports s o' a a'.
Proof.
  intros H'. apply run_advance_Ok in H'. pose proof (advanced_moved p a s _ a' o' H' eq_refl eq_refl eq_refl ltac:(simpl; lia))
    as (Hm & Hst & _ & Hc). split_and!; try done. by exists p.
Qed.

(** What a call leaves of the observed record: an end or a return to its
    executor, reported; a note on the record; or two reports at once.  The evidence
    is that of a recovered password write. *)
Inductive outcome (s o' : UserAppOperationRecord) (rv : RecoveryStore) : option DatabasePasswordEvidence → Prop :=
  | out_report a' : reports s o' (cs_app (rv_compute rv)) a' →
      op_state o' = Failed ∨ op_state o' = Running → outcome s o' rv None
  | out_success a' : reports s o' (cs_app (rv_compute rv)) a' → op_state o' = Succeeded →
      supports_hot_deployment (op_kind s) = true → outcome s o' rv None
  | out_note : op_state o' = RecoveryRequired ∨ op_state o' = Running → outcome s o' rv None
  | out_password before evidence :
      decode_password (op_checkpoint s) = Some before →
      Reconcile.password_outcome_kept before evidence = true →
      op_checkpoint o' = encode_password evidence →
      op_state o' = (if bool_decide (pw_stage evidence = PwVerified) then Succeeded else Failed) →
      Configuration.validate_terminal (rv_config rv) o' (op_state o') = Ok tt →
      is_password_kind (op_kind s) = true → outcome s o' rv (Some evidence)
  | out_explicit before evidence :
      decode_explicit (op_checkpoint s) = Some before →
      Reconcile.explicit_outcome_kept before evidence = true →
      op_checkpoint o' = encode_explicit evidence → op_state o' = Failed →
      Configuration.validate_terminal (rv_config rv) o' Failed = Ok tt →
      supports_hot_deployment (op_kind s) = true → outcome s o' rv None
  | out_expired : op_state o' = Failed →
      Configuration.validate_terminal (rv_config rv) s Failed = Ok tt →
      supports_hot_deployment (op_kind s) = true → outcome s o' rv None.

(** Two reports, the second an end. *)
Lemma two_reports s p1 p2 a a1 o1 a2 o2 :
  Reconcile.run_advance p1 (a, with_state Running s) = Ok (a1, o1) → pr_state p1 = Running →
  Reconcile.run_advance p2 (a1, o1) = Ok (a2, o2) →
  moved s o2 a a2 ∧ op_state o2 = pr_state p2 ∧ op_checkpoint o2 = pr_checkpoint p2.
Proof.
  intros HA Hr HB. apply report_moved in HA as ([Hi1 He1 Hr1 [Ha1 Hs1 Hst1]] & Ho1 & _ & _).
  apply run_advance_Ok in HB. rewrite Hr in Ho1.
  pose proof (advanced_moved p2 a1 s o1 a2 o2 HB Ho1 Hi1 He1 ltac:(lia)) as ([Hi2 He2 Hr2 [Ha2 Hs2 Hst2]] & Ho2 & _ & Hc2).
  rewrite Ho1 in Hs1, Hst1. simpl in *. split_and!; try done. split; try done. split.
  - destruct Ha1 as (? & ? & ?), Ha2 as (? & ? & ?). split_and!; congruence.
  - by rewrite Hs2, Hs1.
  - by rewrite Hst2, Hst1.
Qed.

(** A call that has reported once and written the record back. *)
Lemma report_outcome s p a' o' rv :
  held s (rv_compute rv) →
  Reconcile.run_advance p (cs_app (rv_compute rv), with_state Running s) = Ok (a', o') →
  pr_state p = Failed ∨ pr_state p = Running →
  recovers s o' rv (Reconcile.save (a', o') rv)
  ∧ (pr_state p = Failed → recovers s o' rv (Reconcile.delete_input (op_operation_id o') (Reconcile.save (a', o') rv)))
  ∧ outcome s o' rv None ∧ op_state o' = pr_state p.
Proof.
  intros Hh Hadv Hst. apply report_moved in Hadv as (Hm & Hs & _ & Hrep). rewrite <- Hs in Hst.
  split_and!; [by apply save_recovers| |by eapply out_report|done].
  intros Hf. apply save_delete_recovers; try done. by rewrite Hs, Hf.
Qed.

Lemma password_Ok s e rv o' rv' :
  Reconcile.finalize_password_recovery s e rv = Ok (o', rv') → recovers s o' rv rv' ∧ outcome s o' rv (Some e).
Proof.
  unfold Reconcile.finalize_password_recovery. intros H'. peel H' as t Ht. destruct t as [a o].
  peel H' as Hb. bools. subst o. peel H' as u Hu. peel H' as before Hbef. peel H' as v Hv. peel H' as Hk.
  unbind H'. peel H' as t1 Hadv1. destruct t1 as [a1 o1]. peel H' as t2 Hadv2. destruct t2 as [a2 o2].
  peel H' as w Hw. injection H' as <- <-. destruct w.
  apply snapshot_current_Ok in Ht as [-> Hh]; [|done|by destruct (op_state s)].
  pose proof (two_reports _ _ _ _ _ _ _ _ Hadv1 eq_refl Hadv2) as (Hm & Hst & Hc).
  split; [by apply save_recovers|]. eapply out_password; try done; [by rewrite Hst|].
  apply map_err_Ok in Hv. unfold password_validate_operation in Hv. do 3 unbind Hv.
  destruct (op_command s) as [[]|]; try done. unbind Hv. peel Hv as Hkind. bools. by rewrite Hkind0; destruct production.
Qed.

Lemma deploy_pg_Ok s e rv o' rv' :
  Reconcile.finalize_deploy_pg_recovery s e rv = Ok (o', rv') →
  recovers s o' rv rv' ∧ outcome s o' rv None ∧ op_state o' = Failed
  ∧ Configuration.validate_terminal (rv_config rv) o' Failed = Ok tt.
Proof.
  unfold Reconcile.finalize_deploy_pg_recovery. intros H'. peel H' as t Ht. destruct t as [a o].
  peel H' as Hb. bools. subst o. peel H' as u Hu. peel H' as before Hbef. peel H' as v Hv. peel H' as Hk.
  unbind H'. peel H' as t1 Hadv1. destruct t1 as [a1 o1]. peel H' as t2 Hadv2. destruct t2 as [a2 o2].
  peel H' as w Hw. injection H' as <- <-. destruct w.
  apply snapshot_current_Ok in Ht as [-> Hh]; [|done|by destruct (op_state s)].
  pose proof (two_reports _ _ _ _ _ _ _ _ Hadv1 eq_refl Hadv2) as (Hm & Hst & Hc).
  split_and!; [by apply save_recovers| |done|done]. eapply out_explicit; try done.
  apply map_err_Ok in Hv. unfold explicit_validate_operation in Hv. do 4 unbind Hv.
  destruct (op_command s) as [[]|]; try done. peel Hv as Hkind. bools. by destruct (op_kind s).
Qed.

Lemma preparation_confirmed_Ok s e rv o' rv' :
  Reconcile.confirm_database_preparation_recovery s e rv = Ok (o', rv') →
  recovers s o' rv rv' ∧ outcome s o' rv None ∧ op_state o' = Running.
Proof.
  unfold Reconcile.confirm_database_preparation_recovery. intros H'. peel H' as t Ht. destruct t as [a o].
  peel H' as Hb. bools. subst o. do 6 unbind H'. peel H' as t1 Hadv. destruct t1 as [ax ox]. injection H' as <- <-.
  apply snapshot_current_Ok in Ht as [-> Hh]; [|done|by destruct (op_state s)].
  eapply report_outcome in Hadv as (? & _ & ? & ?); [|done|by right]. done.
Qed.

Lemma creation_rejected_Ok s r rv o' rv' :
  Reconcile.finalize_builder_creation_rejection s r rv = Ok (o', rv') →
  recovers s o' rv rv' ∧ outcome s o' rv None ∧ op_state o' = Failed.
Proof.
  unfold Reconcile.finalize_builder_creation_rejection. intros H'. peel H' as t Ht. destruct t as [a o].
  peel H' as Hb. bools. subst o. unbind H'. peel H' as t1 Hadv. destruct t1 as [ax ox]. injection H' as <- <-.
  assert (op_is_terminal (op_state s) = false) as Hlive.
  { unfold Reconcile.rejection_applies, userapp_builder_creation_needs_runtime_receipt in *.
    destruct r; bools; by destruct (op_state s). }
  apply snapshot_current_Ok in Ht as [-> Hh]; [|done|done].
  eapply report_outcome in Hadv as (_ & ? & ? & ?); [|done|by left]. auto.
Qed.

Lemma creation_confirmed_Ok s e ready rv o' rv' :
  Reconcile.confirm_builder_creation_recovery s e ready rv = Ok (o', rv') →
  recovers s o' rv rv' ∧ outcome s o' rv None ∧ op_state o' = RecoveryRequired.
Proof.
  unfold Reconcile.confirm_builder_creation_recovery. intros H'. peel H' as t Ht. destruct t as [a o].
  unbind H'. peel H' as Hb. bools. subst o. unbind H'. peel H' as u Hu. peel H' as rev Hrev. injection H' as <- <-.
  assert (op_is_terminal (op_state s) = false) as Hlive.
  { destruct ready; [peel Hu as Hb; bools; by rewrite Hb|]. apply ensure_Ok in Hu.
    unfold userapp_builder_creation_needs_runtime_receipt in Hu. bools. by destruct (op_state s). }
  apply snapshot_current_Ok in Ht as [_ Hh]; [|done|done]. apply succ_revision_Ok in Hrev as ->.
  split_and!; [apply note_recovers; try done; simpl; lia|apply out_note; by left|done].
Qed.

Lemma reserve_completed_Ok s rv o' rv' :
  Reconcile.reserve_completed_operation s rv = Ok (o', rv') →
  recovers s o' rv rv' ∧ outcome s o' rv None ∧ op_state o' = Running
  ∧ check_business_authority (rv_compute rv) s = Ok tt ∧ userapp_operation_has_final_evidence s = true.
Proof.
  unfold Reconcile.reserve_completed_operation. intros H'. peel H' as t Ht. destruct t as [a o].
  peel H' as w Hw. peel H' as Hb. bools. subst o. unbind H'. peel H' as rev Hrev. injection H' as <- <-.
  apply snapshot_current_Ok in Ht as [_ Hh]; [|done|by destruct (op_state s)]. apply succ_revision_Ok in Hrev as ->.
  destruct w. split_and!; [apply note_recovers; try done; simpl; lia|apply out_note; by right|done|done|done].
Qed.

Lemma wake_failed_Ok s checkpoint message a rv o' rv' :
  held s (rv_compute rv) → a = cs_app (rv_compute rv) →
  Reconcile.wake_failed checkpoint message a s rv = Ok (o', rv') →
  recovers s o' rv rv' ∧ outcome s o' rv None ∧ op_state o' = Failed.
Proof.
  unfold Reconcile.wake_failed. intros Hh -> H'. unbind H'. peel H' as t1 Hadv. destruct t1 as [ax ox].
  injection H' as <- <-. eapply report_outcome in Hadv as (_ & ? & ? & ?); [|done|by left]. auto.
Qed.

Lemma wake_Ok s rv o' rv' :
  Reconcile.finalize_observed_wake s rv = Ok (o', rv') →
  recovers s o' rv rv' ∧ outcome s o' rv None ∧ op_state o' = Failed.
Proof.
  unfold Reconcile.finalize_observed_wake. intros H'. peel H' as t Ht. destruct t as [a o]. unbind H'.
  peel H' as Hb. unfold Reconcile.observed_wake in Hb. bools. subst o.
  apply snapshot_current_Ok in Ht as [-> Hh]; [|done|by destruct (op_state s)]. by eapply wake_failed_Ok.
Qed.
Lemma legacy_wake_Ok s e rv o' rv' :
  Reconcile.finalize_legacy_observed_wake s e rv = Ok (o', rv') →
  recovers s o' rv rv' ∧ outcome s o' rv None ∧ op_state o' = Failed.
Proof.
  unfold Reconcile.finalize_legacy_observed_wake. intros H'. peel H' as t Ht. destruct t as [a o]. unbind H'.
  peel H' as Hb. unfold Reconcile.observed_wake in Hb. bools. subst o. unbind H'.
  apply snapshot_current_Ok in Ht as [-> Hh]; [|done|by destruct (op_state s)]. by eapply wake_failed_Ok.
Qed.

Lemma settle_fenced_Ok s e note rv o' rv' :
  Reconcile.settle_fenced_operation s e note rv = Ok (o', rv') →
  recovers s o' rv rv' ∧ outcome s o' rv None ∧ op_state o' = Failed.
Proof.
  unfold Reconcile.settle_fenced_operation. intros H'. peel H' as t Ht. destruct t as [a o].
  peel H' as Hb. bools. subst o. do 2 unbind H'. peel H' as t1 Hadv. destruct t1 as [ax ox]. injection H' as <- <-.
  apply snapshot_current_Ok in Ht as [-> Hh]; [|done|by destruct (op_state s)].
  eapply report_outcome in Hadv as (_ & ? & ? & ?); [|done|by left]. auto.
Qed.

Lemma with_state_same s r : op_state s = r → with_state r s = s.
Proof. intros <-. by destruct s. Qed.

Lemma settle_stale_Ok s e note rv o' rv' :
  Reconcile.settle_stale_running_builder s e note rv = Ok (o', rv') →
  recovers s o' rv rv' ∧ outcome s o' rv None ∧ op_state o' = Failed.
Proof.
  unfold Reconcile.settle_stale_running_builder. intros H'. peel H' as t Ht. destruct t as [a o].
  peel H' as Hb. bools. subst o. do 2 unbind H'. peel H' as t1 Hadv. destruct t1 as [ax ox]. injection H' as <- <-.
  apply snapshot_current_Ok in Ht as [-> Hh]; [|done|by destruct (op_state s)].
  set (p := Reconcile.report_of _ _ _ _ _ _ _) in Hadv.
  assert (Reconcile.run_advance p (cs_app (rv_compute rv), with_state Running s) = Ok (ax, ox)) as Hadv'
    by (by rewrite (with_state_same s Running)). clear Hadv. rename Hadv' into Hadv.
  eapply report_outcome in Hadv as (_ & ? & ? & ?); [|done|by left]. auto.
Qed.

Lemma hot_success_Ok s e rv o' rv' :
  Reconcile.finalize_observed_hot_success s e rv = Ok (o', rv') →
  recovers s o' rv rv' ∧ outcome s o' rv None ∧ op_state o' = Succeeded.
Proof.
  unfold Reconcile.finalize_observed_hot_success. intros H'. peel H' as t Ht. destruct t as [a o].
  peel H' as Hb. bools. subst o. do 2 unbind H'. peel H' as t1 Hadv. destruct t1 as [ax ox]. injection H' as <- <-.
  apply snapshot_current_Ok in Ht as [-> Hh]; [|done|by destruct (op_state s)].
  apply report_moved in Hadv as (Hm & Hs & _ & Hrep).
  split_and!; [apply save_delete_recovers; try done; by rewrite Hs|by eapply out_success|done].
Qed.

Lemma hot_failure_Ok s e rv o' rv' :
  Reconcile.finalize_observed_hot_failure s e rv = Ok (o', rv') →
  recovers s o' rv rv' ∧ outcome s o' rv None ∧ op_state o' = Failed.
Proof.
  unfold Reconcile.finalize_observed_hot_failure. intros H'. peel H' as t Ht. destruct t as [a o].
  peel H' as Hb. bools. subst o. do 3 unbind H'. peel H' as t1 Hadv. destruct t1 as [ax ox]. injection H' as <- <-.
  apply snapshot_current_Ok in Ht as [-> Hh]; [|done|by destruct (op_state s)].
  eapply report_outcome in Hadv as (_ & ? & ? & ?); [|done|by left]. auto.
Qed.

Lemma deletion_snapshot_Ok s rv o :
  Reconcile.deletion_snapshot rv s = Ok o →
  o = s ∧ held s (rv_compute rv) ∧ is_deletion_kind (op_kind s) = true
  ∧ is_Some (decode_deletion (op_checkpoint s)).
Proof.
  unfold Reconcile.deletion_snapshot. intros H'. peel H' as t Ht. destruct t as [a o0]. peel H' as Hb. bools. subst o0.
  peel H' as cp Hcp. do 3 unbind H'. unbind H'. injection H' as <-.
  apply snapshot_current_Ok in Ht as [-> Hh]; [|done|by destruct (op_state s)]. by split_and!.
Qed.

Lemma reserve_deletion_Ok s rv o' rv' :
  Reconcile.reserve_interrupted_deletion s rv = Ok (o', rv') →
  recovers s o' rv rv' ∧ outcome s o' rv None ∧ op_state o' = RecoveryRequired.
Proof.
  unfold Reconcile.reserve_interrupted_deletion. intros H'. peel H' as o Ho.
  apply deletion_snapshot_Ok in Ho as (-> & Hh & _). peel H' as rev Hrev. injection H' as <- <-.
  apply succ_revision_Ok in Hrev as ->.
  split_and!; [apply note_recovers; try done; simpl; lia|apply out_note; by left|done].
Qed.

Lemma deletion_problem_Ok s message rv o' rv' :
  Reconcile.record_deletion_recovery_problem s message rv = Ok (o', rv') →
  o' = s ∧ rv' = rv ∧ held s (rv_compute rv)
  ∨ recovers s o' rv rv' ∧ outcome s o' rv None ∧ op_state o' = RecoveryRequired.
Proof.
  unfold Reconcile.record_deletion_recovery_problem. intros H'. peel H' as o Ho.
  apply deletion_snapshot_Ok in Ho as (-> & Hh & _). peel H' as Hb. bools.
  destruct (opt_is (op_error_message s) message); [injection H' as <- <-; by left|right].
  peel H' as rev Hrev. injection H' as <- <-. apply succ_revision_Ok in Hrev as ->.
  split_and!; [apply note_recovers; try done; [simpl; lia|simpl; by rewrite Hb]|apply out_note; by left|done].
Qed.

Lemma deletion_retired_Ok s e rv o' rv' :
  Reconcile.finalize_interrupted_deletion s e rv = Ok (o', rv') →
  recovers s o' rv rv' ∧ outcome s o' rv None ∧ op_state o' = Failed ∧ ends_lifecycle (op_kind s) = false.
Proof.
  unfold Reconcile.finalize_interrupted_deletion. intros H'. peel H' as o Ho.
  apply deletion_snapshot_Ok in Ho as (-> & Hh & _). peel H' as Hb. bools.
  apply settle_fenced_Ok in H' as (? & ? & ?). split_and!; try done. by destruct (op_kind s).
Qed.

Lemma reserve_hot_Ok s b rv o' rv' :
  Reconcile.reserve_interrupted_hot s b rv = Ok (o', rv') →
  recovers s o' rv rv' ∧ outcome s o' rv None ∧ op_state o' = RecoveryRequired
  ∧ check_business_authority (rv_compute rv) s = Ok tt.
Proof.
  unfold Reconcile.reserve_interrupted_hot. intros H'. peel H' as t Ht. destruct t as [a o].
  peel H' as Hb. bools. subst o. do 2 unbind H'. peel H' as w Hw. do 6 unbind H'. unbind H'.
  peel H' as rev Hrev. injection H' as <- <-.
  apply snapshot_current_Ok in Ht as [_ Hh]; [|done|by destruct (op_state s)]. apply succ_revision_Ok in Hrev as ->.
  destruct w. split_and!; [apply note_recovers; try done; simpl; lia|apply out_note; by left|done|done].
Qed.

(** *** An ordinary report *)

Lemma advance_operation_Ok p rv o' rv' :
  Reconcile.advance_operation p rv = Ok (o', rv') →
  ∃ o a', cs_ops (rv_compute rv) !! pr_operation_id p = Some o ∧ op_app_id o = app_id (cs_app (rv_compute rv))
    ∧ advanced_from p (cs_app (rv_compute rv)) o a' o'
    ∧ (needs_authority p o = true → check_business_authority (rv_compute rv) o = Ok tt)
    ∧ (op_is_terminal (pr_state p) = true → Configuration.validate_terminal (rv_config rv) o (pr_state p) = Ok tt)
    ∧ rv' = (if op_is_terminal (op_state o') then Reconcile.delete_input (op_operation_id o') else id)
              (with_compute (with_store (mkAppStore a' (<[pr_operation_id p := o']> (cs_ops (rv_compute rv)))
                 (st_requests (cs_store (rv_compute rv)))) (rv_compute rv)) rv).
Proof.
  unfold Reconcile.advance_operation, business_advance. intros H'. unbind H'. peel H' as t Ht. destruct t as [op cs'].
  injection H' as <- <-. peel Ht as t Htx. destruct t as [op' st]. injection Ht as <- <-.
  pose proof (advance_tx_spec _ _ _ _ _ _ Htx) as (o0 & Hrow & Hadv & Hops & Hreq).
  unfold advance_tx in Htx. peel Htx as o1 Hf. pose proof (find_operation_some _ _ _ _ Hf) as [Hrow' Happ].
  assert (o1 = o0) as -> by (unfold cs_ops in *; congruence).
  unfold Configuration.terminal_verdict in Htx. unfold rv_compute, cs_ops, cs_app in *. rewrite Hf in Htx.
  peel Htx as v Hauth. destruct (advance p _) as [r [a1 o1]]. unbind Htx. peel Htx as w Hw. clear Htx.
  exists o0, (st_app st). split_and!; try done.
  - intros Hn. rewrite ?Hf, Hn in Hauth. by destruct (check_business_authority _ _) as [[]|].
  - intros Ht. rewrite Ht in Hw. by destruct (Configuration.validate_terminal _ _ _) as [[]|].
  - destruct st. simpl in *. subst. by destruct (op_is_terminal (op_state op')).
Qed.

(** What the verdict on an end looks at. *)
Lemma validate_terminal_same cf o o' s :
  op_identity o' = op_identity o →
  Configuration.validate_terminal cf o' s = Configuration.validate_terminal cf o s.
Proof.
  intros Hi. unfold op_identity in Hi. injection Hi as _ _ _ Hid Ha Hl _ _ _ Hs _.
  unfold Configuration.validate_terminal, Configuration.receipt. by rewrite Hid, Ha, Hl, Hs.
Qed.

Lemma expire_update_Ok s now rv o' rv' :
  keyed_ops (cs_ops (rv_compute rv)) →
  Reconcile.expire_deployment_update s now rv = Ok (o', rv') →
  recovers s o' rv rv' ∧ outcome s o' rv None ∧ op_state o' = Failed
  ∧ Configuration.validate_terminal (rv_config rv) s Failed = Ok tt.
Proof.
  intros Hkey. unfold Reconcile.expire_deployment_update. intros H'. peel H' as o Ho.
  apply find_operation_some in Ho as [Hrow Happ]. peel H' as Hb. bools. subst o. do 3 unbind H'.
  peel H' as t Ht. destruct t as [op rv1]. unbind H'. peel H' as ex Hex.
  apply advance_operation_Ok in H' as (o1 & a' & Ho1 & Happ0 & Hadv & _ & Hvt & ->).
  specialize (Hvt eq_refl). simpl in Ho1, Hvt.
  assert (op_state op = Running ∧ op_identity op = op_identity s ∧ op_executor_id op = op_executor_id s
    ∧ (op_revision s ≤ op_revision op)%Z ∧ o1 = op ∧ rv_config rv1 = with_base (rv_compute rv1) (rv_config rv)
    ∧ cs_app (rv_compute rv1) = cs_app (rv_compute rv)
    ∧ (∀ x, <[op_operation_id s := x]> (cs_ops (rv_compute rv1)) = <[op_operation_id s := x]> (cs_ops (rv_compute rv)))
    ∧ ∀ st, with_compute (with_store st (rv_compute rv1)) rv1 = with_compute (with_store st (rv_compute rv)) rv
        ∧ st_requests (cs_store (rv_compute rv1)) = st_requests (cs_store (rv_compute rv)))
    as (Hst & Hi & He & Hr & -> & Hcf & Happ1 & Hins & Hw).
  { case_bool_decide as Hrec.
    - peel Ht as rev Hrev. injection Ht as <- <-. apply succ_revision_Ok in Hrev as ->. simpl in *.
      unfold Reconcile.save_operation in *. unfold cs_ops in Ho1. simpl in Ho1. rewrite lookup_insert_eq in Ho1.
      injection Ho1 as <-. split_and!; try done; [simpl; lia|]. intros x. unfold cs_ops. simpl. by rewrite insert_insert_eq.
    - injection Ht as <- <-. assert (op_state s = Running) by (by destruct (op_state s)).
      unfold cs_ops in *. split_and!; try done; [congruence|]. unfold rv_compute. by destruct (rv_config rv). }
  assert (op_operation_id op = op_operation_id s) as Hid by (unfold op_identity in Hi; congruence).
  rewrite Happ1 in Hadv, Happ0. pose proof (advanced_moved _ _ s op _ _ Hadv Hst Hi He Hr) as (Hm & Hs' & _ & _).
  simpl in Hs'. assert (op_operation_id o' = op_operation_id s) as Hid'
    by (pose proof (mv_identity _ _ _ _ Hm); unfold op_identity in *; congruence).
  assert (op_scope op = op_scope s ∧ op_app_id op = op_app_id s ∧ op_lifecycle_id op = op_lifecycle_id s
          ∧ op_kind op = op_kind s ∧ op_command op = op_command s) as (Hsc & Hao & Hlo & Hko & Hco)
    by (unfold op_identity in Hi; split_and!; congruence).
  assert (Configuration.validate_terminal (rv_config rv) s Failed = Ok tt) as Hvt'
    by (rewrite (validate_terminal_same _ s op) in Hvt by done; rewrite Hcf in Hvt; exact Hvt).
  split_and!; [|apply out_expired; [done|done|]|done|done].
  - split.
    + destruct Hadv as [Hslot [Hl1 Hl2] _ _ _ _ _ _ _ _ _]. simpl in *. split; try done; try congruence.
      by destruct (op_state s).
    + exists a', (delete (op_operation_id s) (rv_inputs rv)). split_and!; [done| |right; by rewrite Hs'].
      rewrite Hs'. simpl. unfold Reconcile.delete_input, with_move. rewrite Hid', Hid, Hins.
      destruct (Hw (mkAppStore a' (<[op_operation_id s := o']> (cs_ops (rv_compute rv)))
                 (st_requests (cs_store (rv_compute rv1))))) as [Heq Hreq]. rewrite Heq, Hreq. done.
  - match goal with E : userapp_operation_has_deployment_update_receipt s = true |- _ =>
      unfold userapp_operation_has_deployment_update_receipt in E; destruct (op_command s) as [[restart ? ?| | | | | | | | | | | | | |]|]; try done; bools;
      rewrite <- E; by destruct restart end.
Qed.
End calls.

(** ** Within the ledger *)

(** Ends of one operation, and how. *)
Definition ends_only (id : string) (how : UserAppOperationState → Prop) : HeadRights :=
  mkRights false None false (λ id' st, id' = id ∧ how st) of_none.
Definition no_rights : HeadRights := mkRights false None false (λ _ _, False) of_none.
(** The end of an operation whose success may have been observed: such a call
    does not ask whether the operation has been interrupted. *)
Definition ends_observed (cs : ComputeStore) (s : UserAppOperationRecord) (how : UserAppOperationState → Prop)
    : HeadRights :=
  mkRights false None false (λ id st, id = op_operation_id s ∧ how st)
    (λ id, id = op_operation_id s ∧ how Succeeded ∧ check_business_authority cs s ≠ Ok tt).

Definition config_rights (cf : ConfigStore) (op : FOp) : HeadRights :=
  match op with FCompute op => rights (guarded cf op) | _ => no_rights end.

(** The record a call is about, and the ends it may give it. *)
Definition recovery_rights (rv : RecoveryStore) (op : ROp) : HeadRights :=
  match op with
  | RConfig op => config_rights (rv_config rv) op
  | RPassword s e => ends_observed (rv_compute rv) s
      (λ st, st = if bool_decide (pw_stage e = PwVerified) then Succeeded else Failed)
  | RHotSuccess s _ => ends_observed (rv_compute rv) s (λ st, st = Succeeded)
  | RDeployPg s _ | RCreationRejected s _ | RWake s | RLegacyWake s _ | RSettleFenced s _ _
  | RSettleStale s _ _ | RHotFailure s _ | RDeletionRetired s _ | RExpireUpdate s _ =>
      ends_only (op_operation_id s) (λ st, st = Failed)
  | RCommitBinding _ p => ends_only (pr_operation_id p) (λ st, st = Succeeded)
  | _ => no_rights
  end.

Lemma recovers_step e s o' rv rv' :
  recovers s o' rv rv' →
  (op_state o' ≠ Succeeded ∨ check_business_authority (rv_compute rv) s = Ok tt
   ∨ hr_observed e (op_operation_id s)) →
  (op_is_terminal (op_state o') = true → hr_end e (op_operation_id s) (op_state o')) →
  spec_steps e (rv_compute rv) (rv_compute rv').
Proof.
  intros [[Hrow Ha Hl Hslot Hlive] (a' & m & [Hi He Hr [Hids Hslots Hst]] & -> & _)] Hsucc Hend.
  unfold op_identity in Hi. simpl. unfold with_move.
  assert (op_operation_id o' = op_operation_id s) as -> by congruence.
  apply rtc_once, (refine_business_move e _ _ s o' a'); try done.
  - split; try done; [split_and!; congruence| |congruence]. destruct Hsucc as [?|[?|?]]; [by left|right; by left|by right; right].
  - split; try done; [by destruct (op_is_terminal (op_state o'))|]. rewrite Hst.
    destruct (_ && _) eqn:Hb; [right; by bools|by left].
Qed.
(** The same, for the calls that do not ask. *)
Lemma observed_step s o' how rv rv' :
  recovers s o' rv rv' → (op_is_terminal (op_state o') = true → how (op_state o')) →
  spec_steps (ends_observed (rv_compute rv) s how) (rv_compute rv) (rv_compute rv').
Proof.
  intros Hrec Hend. eapply recovers_step; [done| |by intros ?; split; auto].
  destruct (decide (op_state o' = Succeeded)) as [Hs|]; [|by left].
  destruct (check_business_authority (rv_compute rv) s) as [[]|e] eqn:Ha; [by right; left|].
  right; right. simpl. rewrite Ha. rewrite Hs in Hend. auto.
Qed.

Section ledger.
Context `{CheckpointCodec, CreationCodec, ComputeCodec, RecoveryCodec, Configuration.SeedHash}.

Lemma admit_steps e request d pg now cf out cf' :
  cs_controls (cf_base cf) !! adm_operation_id request = None →
  Configuration.admit_with_configuration request d pg now cf = Ok (out, cf') →
  spec_steps e (cf_base cf) (cf_base cf').
Proof.
  intros Hf. unfold Configuration.admit_with_configuration. intros H'. unbind H'. peel H' as t Ht.
  destruct t as [out1 base']. apply refine_business_admit with (e := e) in Ht; [|done].
  destruct pg as [pg|], out1 as [o|o]; repeat unbind H'; by injection H' as <- <-.
Qed.

Lemma save_base app scope request cf res cf' :
  Configuration.save app scope request cf = Ok (res, cf') → cf_base cf' = cf_base cf.
Proof.
  intros H'. apply save_Ok in H' as [_ _ _ Heff]. simpl in Heff.
  destruct (Configuration.find_saved _ _ _) as [[? ?]|]; by destruct Heff as [-> _].
Qed.

Lemma fstep_steps op cf :
  keyed (cf_base cf) → fresh_config op cf →
  spec_steps (config_rights cf op) (cf_base cf) (cf_base (fstep op cf)).
Proof.
  intros Hk Hf. destruct op as [op|request d pg now|app scope request|context v t|context v t c b]; simpl in *.
  - apply cstep_steps; [done|by apply guarded_fresh].
  - unfold committed_config. destruct (Configuration.admit_with_configuration _ _ _ _ _) as [[? ?]|] eqn:E; [|done].
    by eapply admit_steps.
  - unfold committed_config. destruct (Configuration.save _ _ _ _) as [[? ?]|] eqn:E; [|done].
    by rewrite (save_base _ _ _ _ _ _ E).
  - unfold committed_config. destruct (Configuration.bind _ _ _ _) as [[? ?]|] eqn:E; [|done].
    by apply bind_Ok in E as [->|(o & r & _ & _ & _ & _ & _ & _ & _ & ->)].
  - unfold committed_config. destruct (Configuration.record _ _ _ _ _ _) as [[? ?]|] eqn:E; [|done].
    by apply record_Ok in E as (o & r & h & cx & bx & _ & _ & _ & _ & _ & _ & _ & _ & _ & _ & _ & ->).
Qed.

(** *** Adopting a resource *)

Lemma insert_binding_row b rv :
  let key := (bind_service_type b, bind_physical_uid b) in
  ∃ b0, rv_bindings (Reconcile.insert_binding b rv) = <[key := b0]> (rv_bindings rv)
    ∧ rv_bindings rv ⊆ <[key := b0]> (rv_bindings rv)
    ∧ rv_config (Reconcile.insert_binding b rv) = rv_config rv.
Proof.
  unfold Reconcile.insert_binding. simpl. destruct (rv_bindings rv !! _) as [b0|] eqn:Hb.
  - exists b0. by rewrite insert_id.
  - exists b. split_and!; try done. by apply insert_subseteq.
Qed.

Lemma commit_binding_Ok b p rv o' rv' :
  Reconcile.commit_resource_binding b p rv = Ok (o', rv') →
  pr_state p = Succeeded ∧ pr_lifecycle_id p = bind_lifecycle_id b ∧ bind_adopted_by_operation b = pr_operation_id p
  ∧ bind_service_type b = UserappBuilder
  ∧ (∃ o, cs_ops (rv_compute rv) !! pr_operation_id p = Some o ∧ op_kind o = AdoptBuilder ∧ op_app_id o = bind_app_id b)
  ∧ rv_bindings rv' = <[(bind_service_type b, bind_physical_uid b) := b]> (rv_bindings rv)
  ∧ rv_bindings rv ⊆ rv_bindings rv'
  ∧ ∃ rv1, rv_config rv1 = rv_config rv ∧ Reconcile.advance_operation p rv1 = Ok (o', rv').
Proof.
  unfold Reconcile.commit_resource_binding. intros H'. peel H' as Hb. do 3 unbind H'.
  peel H' as o1 Ho1. apply find_operation_some in Ho1 as [Ho1 Ha1]. peel H' as Hk1. unbind H'.
  destruct (insert_binding_row b rv) as (bz & Hbz & Hsub & Hcf). set (rv1 := Reconcile.insert_binding b rv) in *.
  peel H' as found Hf. peel H' as prev Hp. subst found. peel H' as Heq. bools. subst prev.
  unfold Reconcile.get_resource_binding in Hf. rewrite Hbz, lookup_insert_eq in Hf. peel Hf as Hfam. bools. injection Hf as ->.
  pose proof (advance_operation_Ok _ _ _ _ H') as (o & a' & _ & _ & _ & _ & _ & Hrv').
  assert (rv_bindings rv' = rv_bindings rv1) as ->
    by (rewrite Hrv'; by destruct (op_is_terminal (op_state o'))).
  rewrite Hbz. split_and!; try done; [|by exists rv1]. exists o1. by split_and!.
Qed.

Lemma advance_operation_steps e p rv o' rv' :
  hr_end e (pr_operation_id p) (pr_state p) →
  Reconcile.advance_operation p rv = Ok (o', rv') → spec_steps e (rv_compute rv) (rv_compute rv').
Proof.
  intros He. unfold Reconcile.advance_operation. intros H'. unbind H'. peel H' as t Ht. destruct t as [op cs'].
  injection H' as <- <-. apply refine_business_advance with (e := e) in Ht; [|done].
  by destruct (op_is_terminal (op_state op)).
Qed.

(** *** A restart *)

Lemma quarantine_row_moves o :
  op_identity (quarantine_row o) = op_identity o ∧ op_executor_id (quarantine_row o) = op_executor_id o
  ∧ (Reconcile.may_be_running (op_state o) = true →
     op_state (quarantine_row o) = RecoveryRequired ∧ op_revision (quarantine_row o) = (op_revision o + 1)%Z).
Proof. unfold quarantine_row. by destruct (Reconcile.may_be_running (op_state o)). Qed.

Lemma marks_step e cs ops' :
  marks (cs_ops cs) ops' →
  spec_steps e cs (with_store (mkAppStore (cs_app cs) ops' (st_requests (cs_store cs))) cs).
Proof.
  intros Hm. apply rtc_once, sp_business.
  - split; simpl; [done|..].
    + intros id o Ho. destruct (Hm id) as [Heq|(o0 & Ho0 & Hr & Ho')].
      * exists o. rewrite Heq. split_and!; auto.
      * assert (o0 = o) as -> by congruence. exists (quarantine_row o).
        destruct (quarantine_row_moves o) as (Hi & _ & Hst). destruct (Hst Hr) as [Hs _]. unfold op_identity in Hi.
        split_and!; try congruence; [intros Ht; by destruct (op_state o)|]. right. left. by rewrite Hs.
    + intros id o' Ho' Hn. destruct (Hm id) as [Heq|(o0 & Ho0 & _)]; congruence.
    + intros _ Hown id o' Ho' Ha Hl. simpl in *. destruct (Hm id) as [Heq|(o0 & Ho0 & Hr & Ho1)].
      * apply Hown; [unfold cs_ops in Heq; by rewrite <- Heq|done|done].
      * assert (o' = quarantine_row o0) as -> by congruence.
        destruct (quarantine_row_moves o0) as (Hi & _). unfold op_identity in Hi.
        assert (op_scope (quarantine_row o0) = op_scope o0) as -> by congruence.
        apply Hown; [done|unfold cs_app in *; congruence|by destruct (op_state o0)].
    + intros id o o' Ho Ho'. destruct (Hm id) as [Heq|(o0 & Ho0 & Hr & Ho1)]; [left; congruence|].
      right. assert (o' = quarantine_row o) as -> by congruence.
      destruct (quarantine_row_moves o) as (_ & _ & Hst).
      destruct Hst as [_ ->]; [congruence|lia].
    + done.
    + intros [Hs Hx Hd]. split; [split; simpl; [|done..]|split; [done|]].
      * intros id o' Ho'. destruct (Hm id) as [Heq|(o0 & Ho0 & _ & Ho1)]; [eapply Hs; by rewrite Heq in Ho'|].
        assert (o' = quarantine_row o0) as -> by congruence.
        destruct (quarantine_row_moves o0) as (Hi & _). unfold op_identity in Hi.
        pose proof (Hs _ _ Ho0). congruence.
      * intros id Hn. destruct (Hm id) as [Heq|(o0 & Ho0 & _)]; [by rewrite Heq|congruence].
  - simpl. intros id o o' Ho Ho' Hl Ht. exfalso. destruct (Hm id) as [Heq|(o0 & Ho0 & Hr & Ho1)]; [congruence|].
    assert (o' = quarantine_row o0) as -> by congruence.
    destruct (quarantine_row_moves o0) as (_ & _ & Hst). destruct (Hst Hr) as [Hs _]. by rewrite Hs in Ht.
Qed.

(** *** Every call *)

Lemma committed_steps {A} e (tx : RvTx A) rv :
  (∀ x rv', tx rv = Ok (x, rv') → spec_steps e (rv_compute rv) (rv_compute rv')) →
  spec_steps e (rv_compute rv) (rv_compute (committed_recovery tx rv)).
Proof. intros Htx. unfold committed_recovery. destruct (tx rv) as [[x rv']|] eqn:E; [by eapply Htx|done]. Qed.

(** A failure or a note, and the end that goes with it. *)
Lemma failing_steps e s o' rv rv' :
  recovers s o' rv rv' → op_state o' ≠ Succeeded →
  (op_state o' = Failed → hr_end e (op_operation_id s) Failed) →
  spec_steps e (rv_compute rv) (rv_compute rv').
Proof.
  intros Hrec Hs He. eapply recovers_step; [done|by left|].
  destruct (op_state o'); try done. by intros _; apply He.
Qed.

Lemma rstep_steps op rv :
  keyed (rv_compute rv) → keyed_ops (cs_ops (rv_compute rv)) → fresh_recovery op rv →
  spec_steps (recovery_rights rv op) (rv_compute rv) (rv_compute (rstep op rv)).
Proof.
  intros Hk Hko Hf.
  destruct op; simpl in *; try (apply committed_steps; intros x rv' Htx).
  - apply (fstep_steps op (rv_config rv) Hk Hf).
  - unfold Reconcile.admit_with_input in Htx. peel Htx as t Ht. destruct t as [out cf].
    apply admit_steps with (e := no_rights) in Ht; [|done].
    destruct out, input; repeat unbind Htx; injection Htx as _ <-; exact Ht.
  - unfold Reconcile.bind_operation_deadline in Htx. unbind Htx. peel Htx as t Ht. destruct t. unbind Htx.
    destruct (rv_deadlines rv !! id); [unbind Htx|]; by injection Htx as _ <-.
  - apply password_Ok in Htx as [Hrec Hout]. apply (observed_step _ x); [done|].
    by inversion Hout.
  - apply deploy_pg_Ok in Htx as (Hrec & _ & Hst & _). eapply failing_steps; [done|by rewrite Hst|done].
  - apply preparation_confirmed_Ok in Htx as (Hrec & _ & Hst). by eapply failing_steps; [done|by rewrite Hst..].
  - apply creation_rejected_Ok in Htx as (Hrec & _ & Hst). by eapply failing_steps; [done|by rewrite Hst|].
  - apply creation_confirmed_Ok in Htx as (Hrec & _ & Hst). by eapply failing_steps; [done|by rewrite Hst..].
  - apply reserve_completed_Ok in Htx as (Hrec & _ & Hst & _). by eapply failing_steps; [done|by rewrite Hst..].
  - apply wake_Ok in Htx as (Hrec & _ & Hst). by eapply failing_steps; [done|by rewrite Hst|].
  - apply legacy_wake_Ok in Htx as (Hrec & _ & Hst). by eapply failing_steps; [done|by rewrite Hst|].
  - apply settle_fenced_Ok in Htx as (Hrec & _ & Hst). by eapply failing_steps; [done|by rewrite Hst|].
  - apply settle_stale_Ok in Htx as (Hrec & _ & Hst). by eapply failing_steps; [done|by rewrite Hst|].
  - apply hot_success_Ok in Htx as (Hrec & _ & Hst). by apply (observed_step _ x).
  - apply hot_failure_Ok in Htx as (Hrec & _ & Hst). by eapply failing_steps; [done|by rewrite Hst|].
  - apply reserve_deletion_Ok in Htx as (Hrec & _ & Hst). by eapply failing_steps; [done|by rewrite Hst..].
  - apply deletion_problem_Ok in Htx as [(_ & -> & _)|(Hrec & _ & Hst)]; [done|].
    by eapply failing_steps; [done|by rewrite Hst..].
  - apply deletion_retired_Ok in Htx as (Hrec & _ & Hst & _). by eapply failing_steps; [done|by rewrite Hst|].
  - apply reserve_hot_Ok in Htx as (Hrec & _ & Hst & _). by eapply failing_steps; [done|by rewrite Hst..].
  - apply expire_update_Ok in Htx as (Hrec & _ & Hst & _); [|done]. by eapply failing_steps; [done|by rewrite Hst|].
  - apply commit_binding_Ok in Htx as (Hst & _ & _ & _ & _ & _ & _ & rv1 & Hcf & Htx).
    assert (rv_compute rv1 = rv_compute rv) as <- by (unfold rv_compute; by rewrite Hcf).
    by eapply advance_operation_steps.
  - unfold restart_step. destruct (Reconcile.quarantine_local_restart _ _) as [[ops|]|] eqn:Hq; [|done..].
    by apply marks_step, (quarantine_pages_marks _ _ _ _ _ Hq).
Qed.

(** ** Runs *)

Lemma rstep_ledger_ok op rv :
  ledger_ok (rv_compute rv) → fresh_recovery op rv → ledger_ok (rv_compute (rstep op rv)).
Proof.
  intros Hok Hf. eapply ledger_ok_steps; [done|]. by apply rstep_steps; [apply lk_keyed|apply lk_ops|..].
Qed.
Lemma rrun_ledger_ok ops rv :
  ledger_ok (rv_compute rv) → fresh_recovery_run ops rv →
  ledger_ok (rv_compute (rrun ops rv)).
Proof.
  revert rv. induction ops as [|op ops IH]; intros rv Hok Hf; [done|]. destruct Hf as [Hf Hfs].
  by apply IH; [apply rstep_ledger_ok|..].
Qed.
Lemma rstep_keeps op rv :
  ledger_ok (rv_compute rv) → fresh_recovery op rv →
  keeps (rv_compute rv) (rv_compute (rstep op rv)).
Proof.
  intros Hok Hf. eapply rtc_preorder; [apply keeps_preorder|apply step_keeps|].
  by apply rstep_steps; [apply lk_keyed|apply lk_ops|..].
Qed.
Lemma rrun_keeps ops rv :
  ledger_ok (rv_compute rv) → fresh_recovery_run ops rv →
  keeps (rv_compute rv) (rv_compute (rrun ops rv)).
Proof.
  revert rv. induction ops as [|op ops IH]; intros rv Hok Hf; [done|]. destruct Hf as [Hf Hfs].
  etrans; [by apply rstep_keeps|by apply IH; [apply rstep_ledger_ok|..]].
Qed.
End ledger.
