(* ===== verification/RecoverySamples.v ===== *)
(** * Interrupted operations of the sample application

    Histories on which the theorems on recovery are evaluated: a deployment
    interrupted in its credential write, a password reset whose write was
    submitted, an adoption, and a hot deployment that a stop interrupts. *)
From S2P Require Import Prelude Validation Lifecycle Evidence LifecycleDomain LifecycleStore.
From S2P Require Import LifecycleSafety LifecycleSamples OperationLease ComputeControl ComputeStore ComputeAdmission.
From S2P Require Import ComputeExecution ComputeRecovery ComputeSpec ComputeBusiness ComputeInv ComputeSamples.
From S2P Require Import RuntimeConfiguration ConfigurationTheorems LifecycleRecovery RecoveryRestart RecoveryInv.
Local Open Scope rust_scope.

Definition password_stage_json (s : DatabasePasswordStage) : Json :=
  stage_json match s with
             | PwCaptured => "captured" | PwWriteSubmitted => "write_submitted"
             | PwVerified => "verified" | PwCancelled => "cancelled"
             end.

(** Password evidence is known by its stage; the rest is not used. *)
Definition sample_recovery_codec : RecoveryCodec :=
  {| decode_context := λ _, None; decode_configuration_target := λ _, None; decode_explicit := λ _, None;
     decode_predecessor := λ _, None; decode_credential := λ _, None; decode_text := λ _, None;
     encode_password := λ e, password_stage_json (pw_stage e); encode_explicit := λ _, JNull;
     encode_preparation := λ _, JNull; encode_creation := λ _, JNull; encode_predecessor := λ _, JNull;
     encode_hot := λ _, JNull |}.

#[local] Existing Instances sample_codec sample_creation_codec sample_compute_codec sample_seed_hash
  sample_recovery_codec.

Definition sample_new : RecoveryStore := new_recovery_store (new_store sample_app).
(** The operation [op-1] as it is in the store; some record else. *)
Definition sample_operation (rv : RecoveryStore) : UserAppOperationRecord :=
  default (admitted_record sample_app (sample_admission "op-1" Start None) 0) (cs_ops (rv_compute rv) !! "op-1").

Definition sample_business (op : COp) : ROp := RConfig (FCompute op).
Definition sample_advance (revision : Z) (state : UserAppOperationState) (step : string) (checkpoint : Json) : ROp :=
  sample_business (BAdvance (sample_progress "op-1" revision state step checkpoint) None).

(** A deployment whose executor is lost in its credential write, and whose fence
    is settled. *)
Definition sample_stuck_calls : list ROp :=
  (RConfig <$> sample_config_calls) ++ [sample_advance 2 RecoveryRequired "claimed" JNull].
Definition sample_stuck : RecoveryStore := rrun sample_stuck_calls sample_new.
Definition sample_settle : ROp :=
  RSettleFenced (sample_operation sample_stuck) (JObj [("kind", JStr "holder_expired")]) "holder expired".

(** A password reset whose write was submitted. *)
Definition sample_reset_calls : list ROp :=
  sample_business (BAdmit (sample_admission "op-1" ResetProdDatabasePassword
                             (Some (CmdResetDatabasePassword true "owner"))) None 7)
  :: (sample_business <$> [BAdvance (sample_progress "op-1" 1 Running "claimed" JNull) None;
                           BBindLease (sample_context "op-1") (sample_lease "token-1")])
  ++ [sample_advance 2 Running "captured" (stage_json "captured");
      sample_advance 3 Running "write_submitted" (stage_json "write_submitted");
      sample_advance 4 RecoveryRequired "write_submitted" (stage_json "write_submitted")].
Definition sample_reset : RecoveryStore := rrun sample_reset_calls sample_new.
Definition sample_verified : ROp := RPassword (sample_operation sample_reset) (sample_password PwVerified).

(** The adoption of a builder. *)
Definition sample_binding : UserAppResourceBinding :=
  {| bind_app_id := "app"; bind_lifecycle_id := "life-1"; bind_service_type := UserappBuilder;
     bind_physical_uid := "uid-1"; bind_adopted_by_operation := "op-1" |}.
Definition sample_adoption_calls : list ROp :=
  [RAdmit (sample_admission "op-1" AdoptBuilder None) (Some "input") None 7;
   sample_advance 1 Running "claimed" JNull;
   RCommitBinding sample_binding (sample_progress "op-1" 2 Succeeded "adopted" JNull)].

(** A hot deployment is under way when a stop is asked for; its owner reports
    that it has converged. *)
Definition sample_hot_calls : list ROp :=
  [sample_business (BAdmit (sample_admission "op-1" HotDeploy None) None 7);
   sample_advance 1 Running "claimed" JNull;
   sample_advance 2 RecoveryRequired "hot_execution" (JObj []);
   sample_business (CAdmit (sample_control "ctl-1" "req-1" CStop) false 8)].
Definition sample_hot : RecoveryStore := rrun sample_hot_calls sample_new.
Definition sample_converged : ROp := RHotSuccess (sample_operation sample_hot) (JObj []).

Definition sample_converged_calls : list ROp := sample_hot_calls ++ [sample_converged].

(** The application is deleted, recreated, and starts again. *)
Definition sample_deleted_calls : list ROp :=
  sample_business (BAdmit (sample_admission "op-1" DeleteApplication None) None 1)
  :: ((λ p, sample_business (BAdvance p None)) <$> sample_deletion_reports).
Definition sample_reborn_calls : list ROp :=
  [sample_business (BAdmit (sample_admission "op-2" Start (Some (CmdStart false))) None 2);
   sample_business (BRecreate "app" "life-1" "req-9" "life-2" 9)].

(** ** Evaluation *)

#[global] Instance fresh_recovery_dec op rv : Decision (fresh_recovery op rv).
Proof. destruct op; simpl; apply _. Defined.
#[global] Instance fresh_recovery_run_dec ops rv : Decision (fresh_recovery_run ops rv).
Proof. revert rv. induction ops as [|op ops IH]; intros rv; simpl; apply _. Defined.
#[global] Instance is_Ok_dec {E} (r : result unit E) : Decision (r = Ok tt).
Proof. by destruct r as [[]|]; [left|right]. Defined.

(** What the samples show of [op-1]. *)
Definition sample_progress_of (rv : RecoveryStore) : option (UserAppOperationState * string) :=
  (λ o, (op_state o, op_step o)) <$> cs_ops (rv_compute rv) !! "op-1".
Lemma sample_operation_found rv v :
  sample_progress_of rv = Some v → cs_ops (rv_compute rv) !! "op-1" = Some (sample_operation rv).
Proof. unfold sample_progress_of, sample_operation. by destruct (cs_ops (rv_compute rv) !! "op-1"). Qed.

Lemma sample_settled_runs :
  fresh_recovery_run (sample_stuck_calls ++ [sample_settle]) sample_new.
Proof. refine (bool_decide_eq_true_1 _ _); by vm_compute. Qed.
Lemma sample_adoption_runs :
  fresh_recovery_run sample_adoption_calls sample_new.
Proof. refine (bool_decide_eq_true_1 _ _); by vm_compute. Qed.
Lemma sample_reset_runs :
  fresh_recovery_run sample_reset_calls sample_new.
Proof. refine (bool_decide_eq_true_1 _ _); by vm_compute. Qed.

Lemma sample_stuck_state : sample_progress_of sample_stuck = Some (RecoveryRequired, "claimed").
Proof. refine (bool_decide_eq_true_1 _ _). by vm_compute. Qed.
Lemma sample_settled_state :
  sample_progress_of (rrun (sample_stuck_calls ++ [sample_settle]) sample_new) = Some (Failed, "claimed").
Proof. refine (bool_decide_eq_true_1 _ _). by vm_compute. Qed.
Lemma sample_settled_head :
  cg_applying_operation_id
    <$> cf_heads (rv_config (rrun (sample_stuck_calls ++ [sample_settle]) sample_new)) !! ("app", "life-1", Prod)
  = Some (Some "op-1").
Proof. refine (bool_decide_eq_true_1 _ _). by vm_compute. Qed.
Lemma sample_reset_state : sample_progress_of sample_reset = Some (RecoveryRequired, "write_submitted").
Proof. refine (bool_decide_eq_true_1 _ _). by vm_compute. Qed.
Lemma sample_reset_row :
  op_kind (sample_operation sample_reset) = ResetProdDatabasePassword
  ∧ op_checkpoint (sample_operation sample_reset) = stage_json "write_submitted".
Proof. split; (refine (bool_decide_eq_true_1 _ _); by vm_compute). Qed.
Lemma sample_verified_state :
  sample_progress_of (rstep sample_verified sample_reset) = Some (Succeeded, "write_submitted").
Proof. refine (bool_decide_eq_true_1 _ _). by vm_compute. Qed.
Lemma sample_adopted :
  rv_bindings (rrun sample_adoption_calls sample_new) !! (UserappBuilder, "uid-1") = Some sample_binding.
Proof. refine (bool_decide_eq_true_1 _ _). by vm_compute. Qed.
Lemma sample_reset_states :
  op_state (sample_operation sample_reset) = RecoveryRequired
  ∧ op_state (sample_operation (rstep sample_verified sample_reset)) = Succeeded.
Proof. split; (refine (bool_decide_eq_true_1 _ _); by vm_compute). Qed.
Lemma sample_restarted_runs :
  fresh_recovery_run ((sample_stuck_calls ++ [sample_settle]) ++ [RRestart]) sample_new.
Proof. refine (bool_decide_eq_true_1 _ _); by vm_compute. Qed.
Lemma sample_settled_terminal :
  (λ o, op_is_terminal (op_state o))
    <$> cs_ops (rv_compute (rrun (sample_stuck_calls ++ [sample_settle]) sample_new)) !! "op-1" = Some true.
Proof. refine (bool_decide_eq_true_1 _ _). by vm_compute. Qed.

(** The stop has interrupted the hot deployment, which has succeeded. *)
Definition sample_stopped : ComputeStore := rv_compute (rrun sample_converged_calls sample_new).
Lemma sample_converged_runs : fresh_recovery_run sample_converged_calls sample_new.
Proof. refine (bool_decide_eq_true_1 _ _); by vm_compute. Qed.
Lemma sample_stopped_head :
  (λ h, ci_control_operation_id h) <$> cs_intents sample_stopped !! Prod = Some (Some "ctl-1").
Proof. refine (bool_decide_eq_true_1 _ _). by vm_compute. Qed.
Lemma sample_stopped_control :
  cc_interrupted_operations <$> cs_controls sample_stopped !! "ctl-1" = Some ["op-1"].
Proof. refine (bool_decide_eq_true_1 _ _). by vm_compute. Qed.
Lemma sample_stopped_operation : op_state <$> cs_ops sample_stopped !! "op-1" = Some Succeeded.
Proof. refine (bool_decide_eq_true_1 _ _). by vm_compute. Qed.

(** The application is deleted, and lives again under a new identity. *)
Lemma sample_deleted_runs : fresh_recovery_run (sample_deleted_calls ++ sample_reborn_calls) sample_new.
Proof. refine (bool_decide_eq_true_1 _ _); by vm_compute. Qed.
Lemma sample_deleted_state : app_state (cs_app (rv_compute (rrun sample_deleted_calls sample_new))) = Deleted.
Proof. refine (bool_decide_eq_true_1 _ _). by vm_compute. Qed.
Lemma sample_reborn_state :
  app_state (cs_app (rv_compute (rrun (sample_deleted_calls ++ sample_reborn_calls) sample_new))) = Active.
Proof. refine (bool_decide_eq_true_1 _ _). by vm_compute. Qed.
