(* ===== verification/RecoveryTheorems.v ===== *)
(** * Theorems on the recovery of operations

    Over histories of all calls.  Recovery stays within the ledger of
    [ComputeSpec.v], commits at most once per observation, and changes nothing but
    the observed record.  An observed success does not wait for the stop that has
    interrupted it, and nothing else succeeds once it is interrupted; a deleted
    application changes only by being recreated. *)
From S2P Require Import Prelude Validation RuntimeControl Lifecycle Evidence LifecycleDomain LifecycleStore.
From S2P Require Import LifecycleSafety LifecycleSamples LifecycleGuards OperationLease ComputeControl ComputeStore ComputeAdmission.
From S2P Require Import ComputeExecution ComputeRecovery ComputeSpec ComputeRefine ComputeBusiness ComputeMono ComputeInv.
From S2P Require Import ComputeSamples RuntimeConfiguration ConfigurationInv ConfigurationTheorems.
From S2P Require Import LifecycleRecovery RecoveryRestart RecoveryInv RecoverySamples.
Import Text Identifier.
Local Open Scope rust_scope.

(** The record a call has observed. *)
Definition observed (op : ROp) : option UserAppOperationRecord :=
  match op with
  | RPassword s _ | RDeployPg s _ | RPrepared s _ | RCreationRejected s _ | RCreationConfirmed s _ _
  | RReserveCompleted s | RWake s | RLegacyWake s _ | RSettleFenced s _ _ | RSettleStale s _ _
  | RHotSuccess s _ | RHotFailure s _ | RReserveDeletion s | RDeletionProblem s _ | RDeletionRetired s _
  | RReserveHot s _ | RExpireUpdate s _ => Some s
  | _ => None
  end.
(** The evidence of a password recovery. *)
Definition password_evidence (op : ROp) : option DatabasePasswordEvidence :=
  match op with RPassword _ e => Some e | _ => None end.

Section theorems.
Context `{CheckpointCodec, CreationCodec, ComputeCodec, RecoveryCodec, Configuration.SeedHash}.

(** A call on an observed record: nothing, or the record moves. *)
Lemma observed_moves op s rv :
  keyed_ops (cs_ops (rv_compute rv)) → observed op = Some s →
  rstep op rv = rv ∨ ∃ o', recovers s o' rv (rstep op rv) ∧ outcome s o' rv (password_evidence op).
Proof.
  intros Hk Hobs. destruct op; simpl in Hobs; try done; injection Hobs as ->; cbn [rstep password_evidence];
    unfold committed_recovery;
    match goal with |- context [match ?tx with Ok _ => _ | Err _ => _ end] =>
      destruct tx as [[o' rv']|] eqn:Htx; [|by left] end.
  - right. exists o'. by apply password_Ok.
  - right. exists o'. by apply deploy_pg_Ok in Htx as (? & ? & _).
  - right. exists o'. by apply preparation_confirmed_Ok in Htx as (? & ? & _).
  - right. exists o'. by apply creation_rejected_Ok in Htx as (? & ? & _).
  - right. exists o'. by apply creation_confirmed_Ok in Htx as (? & ? & _).
  - right. exists o'. by apply reserve_completed_Ok in Htx as (? & ? & _).
  - right. exists o'. by apply wake_Ok in Htx as (? & ? & _).
  - right. exists o'. by apply legacy_wake_Ok in Htx as (? & ? & _).
  - right. exists o'. by apply settle_fenced_Ok in Htx as (? & ? & _).
  - right. exists o'. by apply settle_stale_Ok in Htx as (? & ? & _).
  - right. exists o'. by apply hot_success_Ok in Htx as (? & ? & _).
  - right. exists o'. by apply hot_failure_Ok in Htx as (? & ? & _).
  - right. exists o'. by apply reserve_deletion_Ok in Htx as (? & ? & _).
  - apply deletion_problem_Ok in Htx as [(_ & -> & _)|(? & ? & _)]; [by left|right]. by exists o'.
  - right. exists o'. by apply deletion_retired_Ok in Htx as (? & ? & _).
  - right. exists o'. by apply reserve_hot_Ok in Htx as (? & ? & _).
  - right. exists o'. by apply expire_update_Ok in Htx as (? & ? & _).
Qed.

(** *** Histories *)

Lemma rrun_app ops more rv : rrun (ops ++ more) rv = rrun more (rrun ops rv).
Proof. apply foldl_app. Qed.
Lemma fresh_recovery_app ops more rv :
  fresh_recovery_run (ops ++ more) rv ↔ fresh_recovery_run ops rv ∧ fresh_recovery_run more (rrun ops rv).
Proof. revert rv. induction ops as [|op ops IH]; intros rv; simpl; [naive_solver|]. rewrite IH. naive_solver. Qed.

Lemma new_recovery_ok st : store_ok st → ledger_ok (rv_compute (new_recovery_store st)).
Proof. apply store_ok_ledger. Qed.
Lemma recovery_run_ok ops st :
  store_ok st → fresh_recovery_run ops (new_recovery_store st) →
  ledger_ok (rv_compute (rrun ops (new_recovery_store st))).
Proof. intros Hst Hf. by apply rrun_ledger_ok; [apply new_recovery_ok|..]. Qed.

(** C4: in every history, each call, a failed one too, is a sequence of steps of
    the abstract ledger; a recovery call ends at most the operation it has
    observed, with the outcome it is there for. *)
Theorem recovery_refines_ledger ops op st :
  store_ok st → fresh_recovery_run (ops ++ [op]) (new_recovery_store st) →
  let rv := rrun ops (new_recovery_store st) in
  spec_steps (recovery_rights rv op) (rv_compute rv) (rv_compute (rrun (ops ++ [op]) (new_recovery_store st))).
Proof.
  intros Hst Hf rv. apply fresh_recovery_app in Hf as [Hf [Hfo _]].
  pose proof (recovery_run_ok _ _ Hst Hf) as Hok. rewrite rrun_app.
  exact (rstep_steps op rv (lk_keyed _ Hok) (proj1 (lk_ops _ Hok)) Hfo).
Qed.

(** C5: in every history, an observation of an operation is acted upon at most
    once: when a recovery call has changed the store, no recovery call with the
    same observation changes it later, whatever happens in between. *)
Theorem observation_commits_once ops op more op' s st :
  store_ok st → fresh_recovery_run (ops ++ op :: more) (new_recovery_store st) →
  observed op = Some s → observed op' = Some s →
  rrun (ops ++ [op]) (new_recovery_store st) ≠ rrun ops (new_recovery_store st) →
  let rv := rrun (ops ++ op :: more) (new_recovery_store st) in rstep op' rv = rv.
Proof.
  intros Hst Hf Hobs Hobs' Hch rv. pose proof (recovery_run_ok _ _ Hst Hf) as Hok. fold rv in Hok.
  destruct (observed_moves op' s rv (proj1 (lk_ops _ Hok)) Hobs') as [?|(o2 & [[Hrow _ _ _ _] _] & _)]; [done|].
  exfalso. apply fresh_recovery_app in Hf as [Hf1 [Hf Hf2]].
  unfold rv in Hrow. rewrite rrun_app in Hrow, Hch. simpl in Hrow, Hch. clear Hok rv.
  set (rv := rrun ops _) in *. pose proof (recovery_run_ok _ _ Hst Hf1) as Hok. fold rv in Hok.
  destruct (observed_moves op s rv (proj1 (lk_ops _ Hok)) Hobs) as [?|(o' & [_ (a' & m & Hm & Heq & _)] & _)]; [done|].
  pose proof (rrun_keeps more _ (rstep_ledger_ok _ _ Hok Hf) Hf2) as Hk.
  assert (op_operation_id o' = op_operation_id s) as Hid
    by (pose proof (mv_identity _ _ _ _ Hm); unfold op_identity in *; congruence).
  assert (cs_ops (rv_compute (rstep op rv)) !! op_operation_id s = Some o') as Ho'.
  { rewrite Heq. unfold cs_ops. simpl. by rewrite Hid, lookup_insert_eq. }
  pose proof (mv_revision _ _ _ _ Hm).
  destruct (kp_revision _ _ Hk _ _ _ Ho' Hrow) as [->|?]; lia.
Qed.

(** *** Interrupted work *)

(** The record whose success a call reports from an observation. *)
Definition observed_success (op : ROp) : option UserAppOperationRecord :=
  match op with
  | RPassword s e => if bool_decide (pw_stage e = PwVerified) then Some s else None
  | RHotSuccess s _ => Some s
  | _ => None
  end.

(** The operation became a success by a call of the history that had observed it,
    while it was live and interrupted. *)
Definition reported_success (ops : list ROp) (rv : RecoveryStore) (id : string) : Prop :=
  ∃ before op later s o', ops = before ++ op :: later ∧ observed_success op = Some s ∧ op_operation_id s = id
    ∧ check_business_authority (rv_compute (rrun before rv)) s ≠ Ok tt
    ∧ held s (rv_compute (rrun before rv))
    ∧ cs_ops (rv_compute (rrun (before ++ [op]) rv)) !! id = Some o' ∧ op_state o' = Succeeded.

Lemma observed_rights rv op id :
  hr_observed (recovery_rights rv op) id →
  ∃ s, observed_success op = Some s ∧ op_operation_id s = id ∧ check_business_authority (rv_compute rv) s ≠ Ok tt.
Proof.
  destruct op as [op| | |s e| | | | | | | | | |s e| | | | | | | |]; simpl; try done.
  - by destruct op as [[]| | | |].
  - intros (-> & Hv & Ha). case_bool_decide; [by exists s|done].
  - intros (-> & _ & Ha). by exists s.
Qed.

Lemma observed_success_observed op s : observed_success op = Some s → observed op = Some s.
Proof. destruct op; simpl; try done. by case_bool_decide. Qed.
(** A call on an observation changes nothing, or has found it current. *)
Lemma observed_held op s rv :
  keyed_ops (cs_ops (rv_compute rv)) → observed op = Some s →
  rstep op rv = rv ∨ held s (rv_compute rv).
Proof. intros Hk Hobs. destruct (observed_moves op s rv Hk Hobs) as [?|(o' & [? _] & _)]; auto. Qed.

Lemma rstep_interrupted (allowed : string → Prop) op rv :
  ledger_ok (rv_compute rv) → fresh_recovery op rv → interrupted_success allowed (rv_compute rv) →
  (∀ id, reported_success [op] rv id → allowed id) → interrupted_success allowed (rv_compute (rstep op rv)).
Proof.
  intros Hok Hf Hi Hall. pose proof (proj1 (lk_ops _ Hok)) as Hk.
  assert (rstep op rv = rv ∨ ∀ s, observed op = Some s → held s (rv_compute rv)) as [->|Hheld]; [|done|].
  { destruct (observed op) as [s|] eqn:Hobs; [|by right].
    destruct (observed_held op s rv Hk Hobs); [by left|right]. by intros ? [= <-]. }
  set (cs' := rv_compute (rstep op rv)).
  assert (interrupted_success (λ i, ∀ o, cs_ops cs' !! i = Some o → op_state o = Succeeded → allowed i) cs') as Hs.
  { eapply steps_interrupted; [exact Hok|exact (rstep_steps op rv (lk_keyed _ Hok) Hk Hf)|..].
    - intros s h id c oid o Hh Hn Hc Hin Ho Hs o' _ _. by eapply Hi.
    - intros id (s & Hobs & Hid & Ha)%observed_rights o' Ho' Hs'. apply Hall.
      exists [], op, [], s, o'. split_and!; try done. by apply Hheld, observed_success_observed. }
  intros s h id c oid o Hh Hn Hc Hin Ho Hsucc. by eapply Hs.
Qed.

Lemma rrun_interrupted (allowed : string → Prop) ops rv :
  ledger_ok (rv_compute rv) → fresh_recovery_run ops rv → interrupted_success allowed (rv_compute rv) →
  (∀ id, reported_success ops rv id → allowed id) → interrupted_success allowed (rv_compute (rrun ops rv)).
Proof.
  revert rv. induction ops as [|op ops IH]; intros rv Hok Hf Hi Hall; [done|]. destruct Hf as [Hf Hfs].
  apply IH; [by apply rstep_ledger_ok|done| |].
  - apply rstep_interrupted; try done. intros id (before & op' & later & s & o' & Heq & Hrest).
    destruct before as [|x [|]]; simplify_eq/=. apply Hall. by exists [], op', ops, s, o'.
  - intros id (before & op' & later & s & o' & -> & Hrest). apply Hall. by exists (op :: before), op', later, s, o'.
Qed.

(** C12: in every history, an operation that the control named by a head has
    interrupted belongs to that scope and lifecycle; and if it has succeeded, what
    made it a success is a recovery call that reported a success it had observed, a
    verified password write or a converged hot deployment, of the record as it was
    stored, live and already interrupted.  These two calls do not ask whether the
    operation still has authority; every other way to succeed does. *)
Theorem interrupted_success_was_observed ops st :
  store_ok st → fresh_recovery_run ops (new_recovery_store st) →
  let cs := rv_compute (rrun ops (new_recovery_store st)) in
  ∀ s h c oid o, cs_intents cs !! s = Some h → named_by cs h c →
    oid ∈ cc_interrupted_operations c → cs_ops cs !! oid = Some o →
    touches o s ∧ op_lifecycle_id o = ci_lifecycle_id h
    ∧ (op_state o = Succeeded → reported_success ops (new_recovery_store st) oid).
Proof.
  intros Hst Hf cs s h c oid o Hh (id & Hn & Hc) Hin Ho.
  destruct (lk_stopped _ (recovery_run_ok _ _ Hst Hf) _ _ _ _ _ _ Hh Hn Hc Hin Ho) as [Ht Hl]. split_and!; [done..|].
  intros Hs. eapply (rrun_interrupted (reported_success ops (new_recovery_store st)) ops (new_recovery_store st)
    (new_recovery_ok _ Hst) Hf); [| |done..].
  - by intros ? ? ? ? ? ?.
  - done.
Qed.

(** *** Deleted applications *)

(** The call that starts a new life. *)
Definition is_recreate (op : ROp) : bool :=
  match op with RConfig (FCompute (BRecreate _ _ _ _ _)) => true | _ => false end.
Lemma retire_rights rv op : hr_retire (recovery_rights rv op) = true → is_recreate op = true.
Proof. destruct op as [op| | | | | | | | | | | | | | | | | | | | |]; try done. by destruct op as [[]| | | |]. Qed.

Lemma rrun_life ops rv :
  ledger_ok (rv_compute rv) → fresh_recovery_run ops rv → life_ok (cs_store (rv_compute rv)) →
  life_ok (cs_store (rv_compute (rrun ops rv))).
Proof.
  revert rv. induction ops as [|op ops IH]; intros rv Hok Hf Hli; [done|]. destruct Hf as [Hf Hfs].
  apply IH; [by apply rstep_ledger_ok|done|].
  eapply life_steps; [|done]. by apply (rstep_steps op rv (lk_keyed _ Hok) (proj1 (lk_ops _ Hok)) Hf).
Qed.

Lemma deleted_rrun ops rv :
  ledger_ok (rv_compute rv) → life_ok (cs_store (rv_compute rv)) → fresh_recovery_run ops rv →
  app_state (cs_app (rv_compute rv)) = Deleted →
  let cs := rv_compute rv in let cs' := rv_compute (rrun ops rv) in
  (cs_app cs' = cs_app cs ∧ cs_ops cs' = cs_ops cs)
  ∨ Exists (λ op, is_recreate op = true) ops ∧ (lifecycle_epoch (cs_app cs) < lifecycle_epoch (cs_app cs'))%Z.
Proof.
  revert rv. induction ops as [|op ops IH]; intros rv Hok Hli Hf Hdel; [by left|]. destruct Hf as [Hf Hfs].
  pose proof (rstep_steps op rv (lk_keyed _ Hok) (proj1 (lk_ops _ Hok)) Hf) as Hs.
  destruct (deleted_steps _ _ _ Hok Hli Hdel Hs) as [[Ha Ho]|[Hr Hep]].
  - destruct (IH (rstep op rv)) as [[Ha' Ho']|[Hx Hep]];
      [by apply rstep_ledger_ok|by eapply life_steps|done|by rewrite Ha|left; simpl; split; congruence|].
    right. split; [by right|]. by rewrite <- Ha.
  - right. split; [left; by eapply retire_rights|].
    pose proof (kp_epoch _ _ (rrun_keeps ops _ (rstep_ledger_ok _ _ Hok Hf) Hfs)). simpl. lia.
Qed.

(** C18: deletion is final.  Once an application is deleted, all of its operations
    have ended, and whatever is called later they stay as they are; so does the
    application, and no operation is added, unless it is recreated, which starts
    a later life. *)
Theorem deleted_is_final ops more st :
  store_ok st → fresh_recovery_run (ops ++ more) (new_recovery_store st) →
  let cs := rv_compute (rrun ops (new_recovery_store st)) in
  let cs' := rv_compute (rrun (ops ++ more) (new_recovery_store st)) in
  app_state (cs_app cs) = Deleted →
  map_Forall (λ _ o, op_is_terminal (op_state o) = true) (cs_ops cs)
  ∧ cs_ops cs ⊆ cs_ops cs'
  ∧ ((cs_app cs' = cs_app cs ∧ cs_ops cs' = cs_ops cs)
     ∨ Exists (λ op, is_recreate op = true) more
       ∧ (lifecycle_epoch (cs_app cs) < lifecycle_epoch (cs_app cs'))%Z).
Proof.
  intros Hst Hf cs cs' Hdel. unfold cs'. rewrite rrun_app. apply fresh_recovery_app in Hf as [Hf Hm].
  pose proof (recovery_run_ok _ _ Hst Hf) as Hok. fold cs in Hok.
  assert (life_ok (cs_store cs)) as Hli by (apply rrun_life; [by apply new_recovery_ok|done|by apply store_ok_life]).
  assert (map_Forall (λ _ o, op_is_terminal (op_state o) = true) (cs_ops cs)) as Hidle
    by (intros id o Ho; by eapply deleted_idle).
  split_and!; [done| |by apply deleted_rrun]. apply map_subseteq_spec. intros id o Ho.
  destruct (kp_operation _ _ (rrun_keeps more _ Hok Hm) _ _ Ho) as (o' & Ho' & _ & _ & _ & _ & Hend).
  by rewrite (Hend (Hidle _ _ Ho)) in Ho'.
Qed.

(** *** Password writes *)

(** Where a call finds a record, it has not moved it, or it has observed it. *)
Lemma observed_row op s rv id o o' :
  keyed_ops (cs_ops (rv_compute rv)) → observed op = Some s →
  cs_ops (rv_compute rv) !! id = Some o → cs_ops (rv_compute (rstep op rv)) !! id = Some o' →
  o' = o ∨ s = o ∧ held o (rv_compute rv) ∧ outcome o o' rv (password_evidence op).
Proof.
  intros Hk Hobs Ho Ho'. destruct (observed_moves op s rv Hk Hobs) as [Heq|(o1 & [Hh (a' & m & Hm & Heq & _)] & Hout)].
  - left. rewrite Heq in Ho'. congruence.
  - assert (op_operation_id o1 = op_operation_id s) as Hid
      by (pose proof (mv_identity _ _ _ _ Hm); unfold op_identity in *; congruence).
    rewrite Heq in Ho'. unfold cs_ops in Ho'. simpl in Ho'. rewrite Hid in Ho'.
    destruct (decide (id = op_operation_id s)) as [->|Hne].
    + rewrite lookup_insert_eq in Ho'. injection Ho' as <-. right.
      assert (s = o) as -> by (pose proof (hd_row _ _ Hh); congruence). done.
    + rewrite lookup_insert_ne in Ho' by done. left. change (cs_ops (rv_compute rv) !! id = Some o') in Ho'. congruence.
Qed.

(** C23: a password reset whose write was submitted is never given up for lost:
    the only recovery call that ends it has the receipt of that same write, and
    the end it records is the receipt's. *)
Theorem submitted_password_write_needs_its_receipt op s rv id o before o' :
  (∀ j, failure_checkpoint_preserved JNull j = true → decode_password j = None) →
  keyed_ops (cs_ops (rv_compute rv)) → observed op = Some s →
  cs_ops (rv_compute rv) !! id = Some o → is_password_kind (op_kind o) = true →
  op_is_terminal (op_state o) = false →
  decode_password (op_checkpoint o) = Some before → pw_stage before = PwWriteSubmitted →
  cs_ops (rv_compute (rstep op rv)) !! id = Some o' → op_is_terminal (op_state o') = true →
  ∃ e, op = RPassword o e ∧ pw_context e = pw_context before ∧ pw_target e = pw_target before
    ∧ pw_username e = pw_username before
    ∧ (pw_stage e = PwVerified ∧ op_state o' = Succeeded ∨ pw_stage e = PwCancelled ∧ op_state o' = Failed).
Proof.
  intros Hbare Hk Hobs Ho Hpw Hlive Hbef Hsub Ho' Hend.
  destruct (observed_row _ _ _ _ _ _ Hk Hobs Ho Ho') as [->|(-> & Hh & Hout)]; [congruence|].
  remember (password_evidence op) as pe eqn:Hpe.
  destruct Hout as [a' [p Hrep] Hst|a' _ _ Hhot|Hst|b e Hb Hkept _ Hst _ _|b e _ _ _ _ _ Hhot|_ _ Hhot];
    try (by destruct (op_kind o)).
  - destruct Hst as [Hst|Hst]; [|by rewrite Hst in Hend].
    pose proof (validate_progress_password _ _ _ (adv_evidence _ _ _ _ _ Hrep)) as Hval.
    rewrite (adv_record _ _ _ _ _ Hrep) in Hst. simpl in Hst.
    apply password_progress_cases in Hval; [|done|done]. unfold password_stage_of in Hval. simpl in Hval.
    rewrite Hbef in Hval. destruct Hval as [[? _]|(b & e & Hb & _ & Ht)]; [done|].
    injection Hb as Hb. apply password_transition_cases in Ht.
    rewrite Hst in Ht. destruct Ht as [[? _]|[(_ & _ & [?|?])|[[? _]|[? _]]]]; congruence.
  - by destruct Hst as [Hst|Hst]; rewrite Hst in Hend.
  - assert (b = before) as -> by congruence. unfold Reconcile.password_outcome_kept in Hkept. bools.
    destruct op; try done. injection Hpe as <-. injection Hobs as ->. exists e. split_and!; try done.
    rewrite Hst. destruct (pw_stage e); try done; [by left|by right].
Qed.
(** *** Deletions *)

(** Recovery never deletes an application: a call on an observed record
    keeps the identity of the application, and its state too, unless it gives up
    a deletion of the whole application that had not begun; that one is active
    again. *)
Theorem recovery_never_deletes op s rv :
  keyed_ops (cs_ops (rv_compute rv)) → observed op = Some s →
  let a := cs_app (rv_compute rv) in let a' := cs_app (rv_compute (rstep op rv)) in
  app_id a' = app_id a ∧ app_lifecycle_id a' = app_lifecycle_id a ∧ lifecycle_epoch a' = lifecycle_epoch a
  ∧ (app_state a' = app_state a
     ∨ app_state a' = Active ∧ op_kind s = DeleteApplication
       ∧ op_step s = "claimed" ∧ op_checkpoint s = JNull).
Proof.
  intros Hk Hobs a a'. unfold a'.
  destruct (observed_moves op s rv Hk Hobs) as [->|(o1 & [_ (a1 & m & [_ _ _ [(Hi & Hl & He) _ Hst]] & -> & _)] & Hout)].
  { split_and!; auto. }
  change (cs_app (rv_compute (with_inputs m (with_compute (with_move a1 o1 (rv_compute rv)) rv)))) with a1.
  split_and!; try done. rewrite Hst. destruct (op_is_terminal (op_state o1) && ends_lifecycle (op_kind s)) eqn:Hend; [|by left].
  bools. destruct (op_kind s) eqn:Hkind; try done. right.
  destruct Hout as [ax [p Hrep] Hr|ax _ _ Hh|Hr|b e _ _ _ _ _ Hh|b e _ _ _ _ _ Hh|_ _ Hh];
    try (by rewrite Hkind in Hh).
  - destruct Hr as [Hr|Hr]; rewrite Hr in *; [|done]. split_and!; try done; apply (adv_not_early _ _ _ _ _ Hrep).
    all: rewrite (adv_record _ _ _ _ _ Hrep) in Hr; simpl in *; try done. all: by rewrite Hkind.
  - by destruct Hr as [Hr|Hr]; rewrite Hr in *.
Qed.

(** *** Adopted resources *)

(** A binding is the work of an adoption that has succeeded. *)
Definition adopted (rv : RecoveryStore) (key : ServiceType * string) (b : UserAppResourceBinding) : Prop :=
  key = (bind_service_type b, bind_physical_uid b)
  ∧ ∃ o, cs_ops (rv_compute rv) !! bind_adopted_by_operation b = Some o ∧ op_state o = Succeeded
      ∧ op_kind o = AdoptBuilder ∧ op_app_id o = bind_app_id b ∧ op_lifecycle_id o = bind_lifecycle_id b.
Lemma adopted_keeps rv rv' key b :
  keeps (rv_compute rv) (rv_compute rv') → adopted rv key b → adopted rv' key b.
Proof.
  intros Hk (Hkey & o & Ho & Hst & Hrest). split; [done|].
  destruct (kp_operation _ _ Hk _ _ Ho) as (o' & Ho' & _ & _ & _ & _ & Hend).
  rewrite (Hend ltac:(by rewrite Hst)) in Ho'. by exists o.
Qed.

(** What a call on an observed record leaves alone. *)
Lemma observed_frame op s rv :
  keyed_ops (cs_ops (rv_compute rv)) → observed op = Some s →
  rv_bindings (rstep op rv) = rv_bindings rv ∧ cf_heads (rv_config (rstep op rv)) = cf_heads (rv_config rv).
Proof.
  intros Hk Hobs. by destruct (observed_moves op s rv Hk Hobs) as [->|(o' & [_ (a' & m & _ & -> & _)] & _)].
Qed.

Lemma restart_frame rv :
  rv_bindings (restart_step rv) = rv_bindings rv ∧ cf_heads (rv_config (restart_step rv)) = cf_heads (rv_config rv).
Proof. unfold restart_step. by destruct (Reconcile.quarantine_local_restart _ _) as [[?|]|]. Qed.

(** One call adds at most the binding it commits. *)
Lemma rstep_bindings op rv :
  keyed_ops (cs_ops (rv_compute rv)) →
  rv_bindings (rstep op rv) = rv_bindings rv
  ∨ ∃ b p o', op = RCommitBinding b p ∧ Reconcile.commit_resource_binding b p rv = Ok (o', rstep op rv).
Proof.
  intros Hk. destruct (observed op) as [s|] eqn:Hobs; [left; by apply (observed_frame op s)|].
  destruct op; try done; cbn [rstep]; unfold committed_recovery.
  - by left.
  - left. destruct (Reconcile.admit_with_input _ _ _ _ _) as [[out rv']|] eqn:E; [|done].
    unfold Reconcile.admit_with_input in E. peel E as t Ht. destruct t as [out1 cf1].
    destruct out1, input; repeat unbind E; by injection E as _ <-.
  - left. destruct (Reconcile.bind_operation_deadline _ _ _ _ _) as [[d rv']|] eqn:E; [|done].
    unfold Reconcile.bind_operation_deadline in E. unbind E. peel E as t Ht. destruct t. unbind E.
    destruct (rv_deadlines rv !! id); [unbind E|]; by injection E as _ <-.
  - destruct (Reconcile.commit_resource_binding _ _ _) as [[o' rv']|] eqn:E; [|by left]. right. eauto 10.
  - left. apply restart_frame.
Qed.

Lemma rstep_adopted op rv :
  ledger_ok (rv_compute rv) → fresh_recovery op rv →
  rv_bindings rv ⊆ rv_bindings (rstep op rv)
  ∧ (map_Forall (adopted rv) (rv_bindings rv) → map_Forall (adopted (rstep op rv)) (rv_bindings (rstep op rv))).
Proof.
  intros Hok Hf. pose proof (rstep_keeps op rv Hok Hf) as Hkeep.
  destruct (rstep_bindings op rv (proj1 (lk_ops _ Hok))) as [Heq|(b & p & o' & -> & Hc)].
  { rewrite Heq. split; [done|]. intros Hall key b Hb. eapply adopted_keeps; [done|by apply Hall]. }
  pose proof Hc as Hcommit.
  apply commit_binding_Ok in Hc as (Hst & Hl & Hid & _ & (o & Ho & Hkind & Happ) & Hb & Hsub & rv1 & Hcf & Hadv).
  split; [done|]. intros Hall key b0 Hb0. rewrite Hb in Hb0. apply lookup_insert_Some in Hb0 as [[<- <-]|[_ Hb0]].
  - split; [done|]. apply advance_operation_Ok in Hadv as (o1 & a' & Ho1 & _ & Hadv & _ & _ & ->).
    unfold rv_compute in Ho, Ho1. rewrite Hcf in Ho1. assert (o1 = o) as -> by congruence.
    pose proof (adv_record _ _ _ _ _ Hadv) as ->. pose proof (adv_lifecycle _ _ _ _ _ Hadv) as [Hlo _].
    exists (progressed (op_revision o + 1) p (with_executor (Some (pr_executor_id p)) o)).
    simpl. rewrite Hst, Hid. simpl. unfold cs_ops. simpl. rewrite lookup_insert_eq. split_and!; try done. congruence.
  - eapply adopted_keeps; [done|by apply Hall].
Qed.

Lemma rrun_adopted ops rv :
  ledger_ok (rv_compute rv) → fresh_recovery_run ops rv →
  rv_bindings rv ⊆ rv_bindings (rrun ops rv)
  ∧ (map_Forall (adopted rv) (rv_bindings rv) → map_Forall (adopted (rrun ops rv)) (rv_bindings (rrun ops rv))).
Proof.
  revert rv. induction ops as [|op ops IH]; intros rv Hok Hf; [done|]. destruct Hf as [Hf Hfs].
  destruct (rstep_adopted op rv Hok Hf) as [Hs1 Ha1].
  destruct (IH _ (rstep_ledger_ok _ _ Hok Hf) Hfs) as [Hs2 Ha2]. split; [by etrans|auto].
Qed.


(** *** Restarts *)

(** Operations have an identity, and live ones are of the application's present
    life. *)
Record placed (cs : ComputeStore) : Prop := {
  pl_named : cs_ops cs !! EmptyString = None;
  pl_lifecycle : ∀ id o, cs_ops cs !! id = Some o → op_is_terminal (op_state o) = false →
    op_lifecycle_id o = app_lifecycle_id (cs_app cs);
}.

Lemma step_placed e cs cs' : ledger_ok cs → spec_step e cs cs' → placed cs → placed cs'.
Proof.
  intros Hok Hs [Hn Hl]. destruct Hs as [| | | |st [[_ Hlf] Hold Hnew _ _] _| | | |a rows Happ Hnone _ _ _ _]; try done.
  - split; unfold cs_ops in *; simpl.
    + destruct (st_ops st !! EmptyString) as [o|] eqn:Ho; [|done].
      by destruct (Hnew _ _ Ho Hn) as (_ & _ & _ & _ & _ & _ & ?).
    + intros id o' Ho' Hlive. change (cs_app _) with (st_app st). rewrite Hlf.
      destruct (st_ops (cs_store cs) !! id) as [o|] eqn:Ho; [|by destruct (Hnew _ _ Ho' Ho) as (_ & _ & -> & _)].
      destruct (Hold _ _ Ho) as (o2 & Ho2 & _ & _ & Hlo & _ & Hend & _). assert (o2 = o') as -> by congruence.
      rewrite Hlo. apply (Hl id o Ho). destruct (op_is_terminal (op_state o)) eqn:Ht; [|done].
      rewrite (Hend eq_refl) in Hlive. congruence.
  - split; [done|]. simpl. intros id o Ho Hlive. exfalso.
    pose proof (proj2 (lk_ops _ Hok) id o Ho (lk_app _ Hok _ _ Ho) Hlive) as Hs.
    unfold cs_app in Hnone. by rewrite Hnone in Hs.
Qed.

Lemma steps_placed e cs cs' : ledger_ok cs → spec_steps e cs cs' → placed cs → placed cs'.
Proof.
  intros Hok Hs Hp. induction Hs as [|x y z Hxy _ IH]; [done|].
  apply IH; [by eapply ledger_ok_step|by eapply step_placed].
Qed.

Lemma rrun_placed ops rv :
  ledger_ok (rv_compute rv) → fresh_recovery_run ops rv →
  placed (rv_compute rv) → placed (rv_compute (rrun ops rv)).
Proof.
  revert rv. induction ops as [|op ops IH]; intros rv Hok Hf Hp; [done|]. destruct Hf as [Hf Hfs].
  apply IH; [by apply rstep_ledger_ok|done|].
  eapply steps_placed; [done| |done]. by apply rstep_steps; [apply lk_keyed|apply lk_ops|..].
Qed.

(** C25: in every history, a restart of the local server ends, and puts exactly
    the operations that may have been running under recovery, however many pages
    of them there are, unless one has the last revision an integer can hold.  No
    operation has the empty id, given that none had it at the start. *)
Theorem restart_quarantines_running ops st :
  store_ok st → st_ops st !! EmptyString = None →
  fresh_recovery_run ops (new_recovery_store st) →
  let rv := rrun ops (new_recovery_store st) in let cs := rv_compute rv in
  (∀ id o, cs_ops cs !! id = Some o → Reconcile.may_be_running (op_state o) = true → (op_revision o < i64_max)%Z) →
  Reconcile.quarantine_local_restart {[app_id (cs_app cs) := cs_app cs]} (cs_ops cs)
    = Some (Ok (quarantine_row <$> cs_ops cs))
  ∧ rstep RRestart rv = with_compute (with_store (mkAppStore (cs_app cs) (quarantine_row <$> cs_ops cs)
                                        (st_requests (cs_store cs))) cs) rv.
Proof.
  intros Hst Hn Hf rv cs Hrev. pose proof (recovery_run_ok _ _ Hst Hf) as Hok. fold rv cs in Hok.
  assert (placed cs) as [Hnamed Hlf].
  { apply rrun_placed; [by apply new_recovery_ok|done..|]. split; [done|]. intros id o Ho _.
    by destruct (ok_key _ Hst _ _ Ho) as (_ & _ & _ & ?). }
  destruct (quarantine_spec {[app_id (cs_app cs) := cs_app cs]} (cs_ops cs) Hnamed) as (r & Hq & Hres & Htot).
  destruct r as [ops'|e]; cycle 1.
  { exfalso. assert (is_ok (@Err OperationTable _ e) = true); [|done]. apply Htot. intros id o Ho Hr.
    assert (op_is_terminal (op_state o) = false) as Hlive by (by destruct (op_state o)).
    pose proof (lk_app _ Hok _ _ Ho) as Happ. split.
    - exists (cs_app cs). rewrite Happ, lookup_singleton_eq. split_and!; [done|by rewrite (Hlf _ _ Ho)|].
      unfold slot_matches_operation. rewrite (proj1 (lk_ops _ Hok) _ _ Ho).
      unfold cs_app. rewrite (proj2 (lk_ops _ Hok) _ _ Ho Happ Hlive). by apply opt_is_true.
    - unfold i64_checked_succ. specialize (Hrev _ _ Ho Hr). rewrite (proj2 (Z.leb_le _ _)) by lia. eauto. }
  destruct (Hres ops' eq_refl) as [-> _]. split; [done|].
  cbn [rstep]. unfold restart_step. fold cs. by rewrite Hq.
Qed.
End theorems.

(** ** Instances *)

#[local] Existing Instances sample_codec sample_creation_codec sample_compute_codec sample_seed_hash
  sample_recovery_codec.

Lemma sample_stuck_ok : ledger_ok (rv_compute sample_stuck).
Proof.
  pose proof sample_settled_runs as Hf. apply fresh_recovery_app in Hf as [Hf _].
  exact (recovery_run_ok _ _ sample_store_ok Hf).
Qed.
Lemma sample_reset_ok : ledger_ok (rv_compute sample_reset).
Proof. pose proof sample_reset_runs as Hf. exact (recovery_run_ok _ _ sample_store_ok Hf). Qed.
Lemma sample_operations_found :
  cs_ops (rv_compute sample_stuck) !! "op-1" = Some (sample_operation sample_stuck)
  ∧ cs_ops (rv_compute sample_reset) !! "op-1" = Some (sample_operation sample_reset)
  ∧ cs_ops (rv_compute (rstep sample_verified sample_reset)) !! "op-1"
    = Some (sample_operation (rstep sample_verified sample_reset)).
Proof.
  split_and!; eapply sample_operation_found; [exact sample_stuck_state|exact sample_reset_state|exact sample_verified_state].
Qed.

Lemma recovery_refines_ledger_witness :
  spec_steps (ends_only (op_operation_id (sample_operation sample_stuck)) (λ st, st = Failed))
    (rv_compute sample_stuck) (rv_compute (rrun (sample_stuck_calls ++ [sample_settle]) sample_new)).
Proof.
  pose proof sample_settled_runs as Hf.
  exact (recovery_refines_ledger sample_stuck_calls sample_settle _ sample_store_ok Hf).
Defined.

Lemma observation_commits_once_witness :
  let rv := rrun (sample_stuck_calls ++ [sample_settle]) sample_new in rstep sample_settle rv = rv.
Proof.
  pose proof sample_settled_runs as Hf.
  apply (observation_commits_once sample_stuck_calls sample_settle [] sample_settle (sample_operation sample_stuck) _
           sample_store_ok Hf eq_refl eq_refl).
  intros Heq. pose proof (eq_trans (eq_sym sample_stuck_state)
    (eq_trans (f_equal sample_progress_of (eq_sym Heq)) sample_settled_state)) as Hs. discriminate Hs.
Defined.

(** The hot deployment that a stop had interrupted has succeeded: the observed
    success is the call that did it. *)
Lemma interrupted_success_was_observed_witness : reported_success sample_converged_calls sample_new "op-1".
Proof.
  destruct (proj1 (fmap_Some _ _ _) sample_stopped_head) as (h & Hh & Hn).
  destruct (proj1 (fmap_Some _ _ _) sample_stopped_control) as (c & Hc & Hl).
  destruct (proj1 (fmap_Some _ _ _) sample_stopped_operation) as (o & Ho & Hs).
  assert ("op-1" ∈ cc_interrupted_operations c) as Hin by (rewrite <- Hl; left).
  destruct (interrupted_success_was_observed sample_converged_calls (new_store sample_app) sample_store_ok
              sample_converged_runs Prod h c "op-1" o Hh (ex_intro _ "ctl-1" (conj (eq_sym Hn) Hc)) Hin Ho)
    as (_ & _ & Hrep).
  exact (Hrep (eq_sym Hs)).
Defined.

(** The deleted application is recreated: it is a later life, and the records of
    the first are still there. *)
Lemma deleted_is_final_witness :
  let cs := rv_compute (rrun sample_deleted_calls sample_new) in
  let cs' := rv_compute (rrun (sample_deleted_calls ++ sample_reborn_calls) sample_new) in
  cs_ops cs ⊆ cs_ops cs' ∧ (lifecycle_epoch (cs_app cs) < lifecycle_epoch (cs_app cs'))%Z.
Proof.
  intros cs cs'.
  destruct (deleted_is_final sample_deleted_calls sample_reborn_calls (new_store sample_app) sample_store_ok
              sample_deleted_runs sample_deleted_state) as (_ & Hsub & [[Happ _]|[_ Hep]]).
  - exfalso. pose proof (eq_trans (eq_sym sample_reborn_state) (eq_trans (f_equal app_state Happ) sample_deleted_state)) as E.
    discriminate E.
  - split; [exact Hsub|exact Hep].
Defined.

Lemma submitted_password_write_needs_its_receipt_witness :
  ∃ e, sample_verified = RPassword (sample_operation sample_reset) e ∧ pw_stage e = PwVerified.
Proof.
  destruct sample_operations_found as (_ & Ho & Ho'). destruct sample_reset_row as [Hk Hc].
  destruct sample_reset_states as [Hst Hst'].
  assert (decode_password (op_checkpoint (sample_operation sample_reset)) = Some (sample_password PwWriteSubmitted)) as Hd
    by (rewrite Hc; reflexivity).
  assert (∀ j, failure_checkpoint_preserved JNull j = true → decode_password j = None) as Hb.
  { intros j Hj. cbn. by rewrite (bare_has_no_stage j Hj). }
  destruct (submitted_password_write_needs_its_receipt sample_verified (sample_operation sample_reset) sample_reset "op-1"
              (sample_operation sample_reset) (sample_password PwWriteSubmitted) _ Hb
              (proj1 (lk_ops _ sample_reset_ok)) eq_refl Ho ltac:(by rewrite Hk) ltac:(by rewrite Hst) Hd eq_refl Ho'
              ltac:(by rewrite Hst')) as (e & He & _ & _ & _ & [[Hv _]|[_ Hf]]).
  - exists e. by split.
  - rewrite Hst' in Hf. discriminate Hf.
Defined.

Lemma recovery_never_deletes_witness :
  app_lifecycle_id (cs_app (rv_compute (rstep sample_settle sample_stuck)))
  = app_lifecycle_id (cs_app (rv_compute sample_stuck)).
Proof.
  destruct (recovery_never_deletes sample_settle (sample_operation sample_stuck) sample_stuck
              (proj1 (lk_ops _ sample_stuck_ok)) eq_refl) as (_ & Hl & _). exact Hl.
Defined.


Lemma sample_config_runs_too : fresh_recovery_run (RConfig <$> sample_config_calls) sample_new.
Proof. refine (bool_decide_eq_true_1 _ _); by vm_compute. Qed.

(** No revision of the sample is the last. *)
Lemma sample_revisions :
  map_Forall (λ _ o, (op_revision o < i64_max)%Z)
    (cs_ops (rv_compute (rrun (RConfig <$> sample_config_calls) sample_new))).
Proof. refine (bool_decide_eq_true_1 _ _). by vm_compute. Qed.

Lemma restart_quarantines_running_witness :
  let cs := rv_compute (rrun (RConfig <$> sample_config_calls) sample_new) in
  Reconcile.quarantine_local_restart {[app_id (cs_app cs) := cs_app cs]} (cs_ops cs)
  = Some (Ok (quarantine_row <$> cs_ops cs)).
Proof.
  pose proof sample_config_runs_too as Hf.
  destruct (restart_quarantines_running (RConfig <$> sample_config_calls) _ sample_store_ok eq_refl Hf) as [Hq _].
  - intros id o Ho _. exact (sample_revisions id o Ho).
  - exact Hq.
Defined.

(** ** What recovery does not ask *)

(** A stop has interrupted the hot deployment, so that its executor can no longer
    report a success; the observed success is recorded nevertheless. *)
Lemma observed_success_ignores_the_stop :
  fresh_recovery_run sample_hot_calls sample_new
  ∧ check_business_authority (rv_compute sample_hot) (sample_operation sample_hot) = Err VersionConflict
  ∧ sample_progress_of (rstep sample_converged sample_hot) = Some (Succeeded, "hot_execution_succeeded").
Proof. split_and!; [refine (bool_decide_eq_true_1 _ _); by vm_compute|by vm_compute|by vm_compute]. Qed.
