(* ===== verification/RecoveryConfig.v ===== *)
(** * Runtime configurations under recovery

    Recovery ends operations too.  Three of its calls ask the receipt of the
    operation's credentials first, as every other end does; the rest do not.  The
    invariant of [ConfigurationInv.v] holds in every history nevertheless, what is
    configured only advances, and an operation with an unresolved credential write
    is live unless one of those calls has ended it, in which case the write blocks
    deployments with credentials for good. *)
From S2P Require Import Prelude Validation RuntimeControl Lifecycle Evidence LifecycleDomain LifecycleStore.
From S2P Require Import LifecycleSafety LifecycleSamples LifecycleGuards OperationLease ComputeControl ComputeStore ComputeAdmission.
From S2P Require Import ComputeExecution ComputeRecovery ComputeSpec ComputeRefine ComputeBusiness ComputeMono ComputeInv.
From S2P Require Import ComputeSamples RuntimeConfiguration ConfigurationInv ConfigurationTheorems.
From S2P Require Import LifecycleRecovery RecoveryRestart RecoveryInv RecoverySamples RecoveryTheorems.
Import Text Identifier.
Local Open Scope rust_scope.

(** The calls that end the operation they have observed without asking its
    receipt. *)
Definition unasked (op : ROp) : option UserAppOperationRecord :=
  match op with
  | RCreationRejected s _ | RWake s | RLegacyWake s _ | RSettleFenced s _ _ | RSettleStale s _ _
  | RHotSuccess s _ | RHotFailure s _ | RDeletionRetired s _ => Some s
  | _ => None
  end.
Definition op_live (id : string) (cs : ComputeStore) : Prop :=
  ∃ o, cs_ops cs !! id = Some o ∧ op_is_terminal (op_state o) = false.
Definition op_ended (id : string) (cs : ComputeStore) : Prop :=
  ∃ o, cs_ops cs !! id = Some o ∧ op_is_terminal (op_state o) = true.
(** The calls that change more than the operations. *)
Definition configures (op : ROp) : bool :=
  match op with RConfig _ | RAdmit _ _ _ _ => true | _ => false end.

Section config.
Context `{CheckpointCodec, CreationCodec, ComputeCodec, RecoveryCodec, Configuration.SeedHash}.

(** The call of the history that ended the operation is one of those. *)
Definition ended_unasked (ops : list ROp) (rv : RecoveryStore) (id : string) : Prop :=
  ∃ before op later, ops = before ++ op :: later ∧ op_operation_id <$> unasked op = Some id
    ∧ op_live id (rv_compute (rrun before rv)) ∧ op_ended id (rv_compute (rrun (before ++ [op]) rv)).
Lemma ended_unasked_called ops rv id :
  ended_unasked ops rv id → Exists (λ op, op_operation_id <$> unasked op = Some id) ops.
Proof using Type. intros (before & op & later & -> & Hid & _). apply Exists_app. right. by left. Qed.

(** *** The invariant *)

(** The other calls leave versions, heads and receipts alone. *)
Lemma rstep_base op rv :
  keyed_ops (cs_ops (rv_compute rv)) → configures op = false →
  rv_config (rstep op rv) = with_base (rv_compute (rstep op rv)) (rv_config rv).
Proof.
  intros Hk Hc. assert (rv_config rv = with_base (rv_compute rv) (rv_config rv)) as Heta
    by (unfold rv_compute; by destruct (rv_config rv)).
  destruct (observed op) as [s|] eqn:Hobs.
  { by destruct (observed_moves op s rv Hk Hobs) as [->|(o' & [_ (a' & m & _ & -> & _)] & _)]. }
  destruct op; try done; cbn [rstep]; unfold committed_recovery.
  - destruct (Reconcile.bind_operation_deadline _ _ _ _ _) as [[d rv']|] eqn:E; [|done].
    unfold Reconcile.bind_operation_deadline in E. unbind E. peel E as t Ht. destruct t. unbind E.
    destruct (rv_deadlines rv !! _); [unbind E|]; by injection E as _ <-.
  - destruct (Reconcile.commit_resource_binding _ _ _) as [[o' rv']|] eqn:E; [|done].
    apply commit_binding_Ok in E as (_ & _ & _ & _ & _ & _ & _ & rv1 & Hcf & Hadv).
    apply advance_operation_Ok in Hadv as (? & ? & _ & _ & _ & _ & _ & ->).
    rewrite <- Hcf. by destruct (op_is_terminal (op_state o')).
  - unfold restart_step. by destruct (Reconcile.quarantine_local_restart _ _) as [[?|]|].
Qed.

Lemma admit_input_Ok request input pg now rv out rv' :
  Reconcile.admit_with_input request input pg now rv = Ok (out, rv') →
  Configuration.admit_with_configuration request (input_digest <$> input) pg now (rv_config rv) = Ok (out, rv_config rv').
Proof.
  unfold Reconcile.admit_with_input. intros H'. peel H' as t Ht. destruct t as [out1 cf].
  destruct out1, input; repeat unbind H'; by injection H' as <- <-.
Qed.

(** A call that ends an operation has asked its receipt, or is one of those. *)
Lemma rstep_certain op rv id o o' r :
  config_ok (rv_config rv) → fresh_recovery op rv → configures op = false →
  cs_ops (rv_compute rv) !! id = Some o → cs_ops (rv_compute (rstep op rv)) !! id = Some o' →
  op_is_terminal (op_state o) = false → op_is_terminal (op_state o') = true →
  cf_receipts (rv_config rv) !! id = Some r →
  op_operation_id <$> unasked op = Some id ∨ certain r (op_state o').
Proof.
  intros Hok Hf Hc Ho Ho' Hl Ht Hr. pose proof (fo_base _ Hok) as Hb. pose proof (proj1 (lk_ops _ Hb)) as Hk.
  pose proof (fw_end _ _ _ (steps_follow _ _ _ (rstep_steps op rv (lk_keyed _ Hb) Hk Hf)) _ _ _ Ho Ho' Hl Ht) as Hend.
  destruct op; try done; simpl in Hend; try (left; simpl; f_equal; by destruct Hend as [-> _]); right;
    destruct Hend as [-> Hend]; cbn [rstep] in Ho'; unfold committed_recovery in Ho'.
  - destruct (Reconcile.finalize_password_recovery _ _ _) as [[o1 rv']|] eqn:E; [|congruence].
    apply password_Ok in E as [[_ (a' & m & Hm & -> & _)] Hout].
    assert (op_operation_id o1 = op_operation_id snapshot) as Hid
      by (pose proof (mv_identity _ _ _ _ Hm); unfold op_identity in *; congruence).
    unfold cs_ops in Ho'. simpl in Ho'. rewrite Hid, lookup_insert_eq in Ho'. injection Ho' as ->.
    inversion Hout as [| | |before e0 _ _ _ _ Hvt _| |]. eapply validate_terminal_Ok; [done|exact Hvt|by rewrite Hid].
  - destruct (Reconcile.finalize_deploy_pg_recovery _ _ _) as [[o1 rv']|] eqn:E; [|congruence].
    apply deploy_pg_Ok in E as ([_ (a' & m & Hm & -> & _)] & _ & Hst & Hvt).
    assert (op_operation_id o1 = op_operation_id snapshot) as Hid
      by (pose proof (mv_identity _ _ _ _ Hm); unfold op_identity in *; congruence).
    unfold cs_ops in Ho'. simpl in Ho'. rewrite Hid, lookup_insert_eq in Ho'. injection Ho' as ->.
    rewrite Hst. eapply validate_terminal_Ok; [done|exact Hvt|by rewrite Hid].
  - destruct (Reconcile.expire_deployment_update _ _ _) as [[o1 rv']|] eqn:E; [|congruence].
    apply expire_update_Ok in E as (_ & _ & _ & Hvt); [|done]. rewrite Hend. by eapply validate_terminal_Ok.
  - destruct (Reconcile.commit_resource_binding _ _ _) as [[o1 rv']|] eqn:E; [|congruence].
    apply commit_binding_Ok in E as (Hst & _ & _ & _ & _ & _ & _ & rv1 & Hcf & Hadv).
    apply advance_operation_Ok in Hadv as (o0 & a' & Ho0 & _ & _ & _ & Hvt & _). rewrite Hst in Hvt.
    rewrite Hend. specialize (Hvt eq_refl). rewrite Hcf in Hvt. unfold rv_compute in Ho, Ho0. rewrite Hcf in Ho0.
    assert (o0 = o) as -> by congruence. eapply validate_terminal_Ok; [done|exact Hvt|]. by rewrite (Hk _ _ Ho).
Qed.

(** What one call keeps. *)
Lemma rstep_config op rv :
  config_ok (rv_config rv) → fresh_recovery op rv →
  config_ok (rv_config (rstep op rv)) ∧ config_later (rv_config rv) (rv_config (rstep op rv))
  ∧ ∀ excused : string → Prop, ends_certain excused (rv_config rv) →
      (∀ id, op_operation_id <$> unasked op = Some id → op_live id (rv_compute rv) →
         op_ended id (rv_compute (rstep op rv)) → excused id) →
      ends_certain excused (rv_config (rstep op rv)).
Proof.
  intros Hok Hf. pose proof (fo_base _ Hok) as Hb. destruct (configures op) eqn:Hc.
  - destruct op as [op|request input pg now| | | | | | | | | | | | | | | | | | | |]; try done; cbn [rstep].
    + split_and!; [by apply fstep_config_ok|by apply fstep_later|]. intros excused He _. by apply fstep_ends.
    + unfold committed_recovery. destruct (Reconcile.admit_with_input _ _ _ _ _) as [[out rv']|] eqn:E; [|by split_and!].
      apply admit_input_Ok in E. simpl in Hf.
      split_and!; [by eapply admit_config_ok|by eapply admit_later|]. intros excused He _. by eapply admit_ends.
  - pose proof (rstep_keeps op rv Hb Hf) as Hk. rewrite (rstep_base op rv (proj1 (lk_ops _ Hb)) Hc).
    split_and!; [by apply config_ok_base; [|apply rstep_ledger_ok|]|by apply later_base|].
    intros excused He Hun. apply ends_base; try done. intros id o o' r Ho Ho' Hl Ht Hr.
    destruct (rstep_certain op rv id o o' r) as [Hu|?]; auto. left. apply (Hun id Hu); [by exists o|by exists o'].
Qed.

Lemma rrun_config ops rv :
  config_ok (rv_config rv) → fresh_recovery_run ops rv →
  config_ok (rv_config (rrun ops rv)) ∧ config_later (rv_config rv) (rv_config (rrun ops rv))
  ∧ (ends_certain (λ _, False) (rv_config rv) → ends_certain (ended_unasked ops rv) (rv_config (rrun ops rv))).
Proof.
  intros Hok Hf.
  assert (config_ok (rv_config (rrun ops rv)) ∧ config_later (rv_config rv) (rv_config (rrun ops rv))
    ∧ ∀ excused, ends_certain excused (rv_config rv) → (∀ id, ended_unasked ops rv id → excused id) →
        ends_certain excused (rv_config (rrun ops rv))) as (Hfin & Hlat & Hex).
  { revert rv Hok Hf. induction ops as [|op ops IH]; intros rv Hok Hf; [by split_and!|]. destruct Hf as [Hf Hfs].
    destruct (rstep_config op rv Hok Hf) as (Hok1 & Hl1 & He1). destruct (IH _ Hok1 Hfs) as (Hok2 & Hl2 & He2).
    split_and!; [done|by etrans|]. intros excused He Hall. apply He2; [apply He1; [done|]|];
      intros id Hid; [intros Hl He'; apply Hall; by exists [], op, ops|].
    apply Hall. destruct Hid as (before & op' & later & -> & Hid). by exists (op :: before), op', later. }
  split_and!; try done. intros He. apply Hex; [|done]. intros id r o Hr Ho Ht. right. by destruct (He _ _ _ Hr Ho Ht).
Qed.

Lemma recovery_config ops st :
  store_ok st → fresh_recovery_run ops (new_recovery_store st) →
  let cf := rv_config (rrun ops (new_recovery_store st)) in config_ok cf ∧ ends_certain (ended_unasked ops (new_recovery_store st)) cf.
Proof.
  intros Hst Hf. destruct (rrun_config ops (new_recovery_store st) (new_config_ok _ (store_ok_ledger _ Hst)) Hf) as (? & _ & He).
  split; [done|]. apply He. by intros ? ? ? ?.
Qed.

(** C20: in every history, an operation whose credential write or business start
    is unresolved is live and holds the slot of its environment, and one that
    succeeded has applied its credentials and reported the business ready, unless
    the operation was ended by one of the recovery calls that do not ask its
    receipt. *)
Theorem unresolved_write_holds_scope ops st :
  store_ok st → fresh_recovery_run ops (new_recovery_store st) →
  let cf := rv_config (rrun ops (new_recovery_store st)) in
  ∀ id r, cf_receipts cf !! id = Some r →
  ∃ o, cs_ops (cf_base cf) !! id = Some o
    ∧ (unresolved r ∨ unsettled_start r →
       op_is_terminal (op_state o) = false
         ∧ slot (active_operations (cs_app (cf_base cf))) (oc_scope r) = Some id
       ∨ op_is_terminal (op_state o) = true ∧ ended_unasked ops (new_recovery_store st) id)
    ∧ (op_state o = Succeeded →
       oc_credential_state r = "applied" ∧ oc_business_state r = "ready"
       ∨ ended_unasked ops (new_recovery_store st) id).
Proof.
  intros Hst Hf cf id r Hr. destruct (recovery_config _ _ Hst Hf) as [Hok Hend]. fold cf in Hok, Hend.
  destruct (ro_op _ _ _ (fo_receipts _ Hok _ _ Hr)) as (o & Ho & _ & _ & Hsc).
  pose proof (Hend _ _ _ Hr Ho) as He. exists o. split_and!; [done|..].
  - intros Hu. destruct (op_is_terminal (op_state o)) eqn:Ht.
    { right. destruct (He eq_refl) as [?|(? & ? & _)]; [done|naive_solver]. }
    left. split; [done|]. rewrite <- Hsc. destruct (lk_ops _ (fo_base _ Hok)) as [_ Hown].
    apply (Hown _ _ Ho); [|done]. by apply (lk_app _ (fo_base _ Hok) _ _ Ho).
  - intros Hs. rewrite Hs in He. destruct (He eq_refl) as [?|(_ & _ & ?)]; auto.
Qed.

(** C21: whatever is called later, saved credentials are never changed, the saved
    and the applied version of an environment never go back, and a captured
    version stays what it is; so does a bound target, the container and the
    deployment generation both. *)
Theorem configuration_only_advances ops more st :
  store_ok st → fresh_recovery_run (ops ++ more) (new_recovery_store st) →
  let cf := rv_config (rrun ops (new_recovery_store st)) in
  let cf' := rv_config (rrun (ops ++ more) (new_recovery_store st)) in
  (∀ key v row, cf_versions cf !! (key, v) = Some row → cf_versions cf' !! (key, v) = Some row)
  ∧ (∀ key h, cf_heads cf !! key = Some h → ∃ h', cf_heads cf' !! key = Some h'
       ∧ (cg_saved_version h ≤ cg_saved_version h')%Z
       ∧ ∀ a, cg_applied_version h = Some a → ∃ a', cg_applied_version h' = Some a' ∧ (a ≤ a')%Z)
  ∧ ∀ id r, cf_receipts cf !! id = Some r → ∃ r', cf_receipts cf' !! id = Some r'
      ∧ oc_key r' = oc_key r ∧ oc_config_version r' = oc_config_version r
      ∧ (is_Some (oc_physical_uid r) ∨ is_Some (oc_deployment_generation r) →
         oc_physical_uid r' = oc_physical_uid r ∧ oc_deployment_generation r' = oc_deployment_generation r).
Proof.
  intros Hst Hf. rewrite rrun_app. apply fresh_recovery_app in Hf as [Hf Hm].
  destruct (recovery_config _ _ Hst Hf) as [Hok _]. destruct (rrun_config more _ Hok Hm) as (_ & [_ Hv Hh Hr] & _).
  split_and!.
  - intros key v row Hrow. by eapply lookup_weaken.
  - exact Hh.
  - intros id r Hid. destruct (Hr _ _ Hid) as (r' & Hr' & Hk & Hver & Ht). exists r'. split_and!; try done.
    pose proof (ro_pair _ _ _ (fo_receipts _ Hok _ _ Hid)) as Hp. intros Hb. apply Ht.
    destruct (oc_physical_uid r), (oc_deployment_generation r); try done. by destruct Hb as [[]|[]].
Qed.

(** *** Credential writes that recovery has ended *)

Definition applying (id : string) (key : ConfigKey) (cf : ConfigStore) : Prop :=
  ∃ h, cf_heads cf !! key = Some h ∧ cg_applying_operation_id h = Some id.
Lemma ended_keeps id cs cs' : keeps cs cs' → op_ended id cs → op_ended id cs'.
Proof.
  intros Hk (o & Ho & Ht). destruct (kp_operation _ _ Hk _ _ Ho) as (o' & Ho' & _ & _ & _ & _ & Hend).
  rewrite (Hend Ht) in Ho'. by exists o.
Qed.

Lemma applying_save id key app scope request cf res cf' :
  applying id key cf → save_done app scope request res cf cf' → applying id key cf'.
Proof.
  intros (h & Hh & Ha) [_ _ _ Heff]. simpl in Heff. destruct (Configuration.find_saved _ _ _) as [[? ?]|].
  - destruct Heff as [-> _]. by exists h.
  - destruct Heff as [-> _]. unfold applying, add_version. simpl.
    destruct (decide (key = (app, sv_lifecycle_id request, scope))) as [->|Hne].
    + rewrite lookup_insert_eq, Hh. by eexists.
    + rewrite lookup_insert_ne by done. by exists h.
Qed.

Lemma applying_capture id key o cf cf' :
  applying id key cf → Configuration.capture o cf = Ok cf' →
  applying id key cf' ∧ (Configuration.applies_credentials (op_kind o) = true → op_key o ≠ key).
Proof.
  intros (h & Hh & Ha) Hcap. split.
  - apply capture_Ok in Hcap as [->|(h' & v & _ & _ & _ & _ & _ & ->)]; by exists h.
  - intros Hk <-. unfold Configuration.capture in Hcap. rewrite Hk in Hcap. peel Hcap as found Hf.
    apply head_Ok in Hf as [_ ->]. change (cf_heads cf !! _) with (cf_heads cf !! op_key o) in Hcap. rewrite Hh in Hcap.
    peel Hcap as s Hs. apply status_Ok in Hs as ->. peel Hcap as Hb. simpl in Hb. by rewrite Ha in Hb.
Qed.

(** An admission seeds a key that has no head, and captures none that is applying. *)
Lemma applying_admit id key request digest pg now cf out cf' :
  applying id key cf → Configuration.admit_with_configuration request digest pg now cf = Ok (out, cf') →
  applying id key cf' ∧ ∀ o, is_some pg = true → out = AdmAccepted o → op_key o ≠ key.
Proof.
  intros Hap. unfold Configuration.admit_with_configuration. intros H'. peel H' as Hpg. peel H' as t Ht.
  destruct t as [out1 base']. destruct pg as [pg|]; [|by injection H' as _ <-].
  destruct out1 as [o|o]; [|unbind H'; injection H' as <- <-; by split].
  peel H' as cf2 Hseed. peel H' as cf3 Hcap. injection H' as <- <-.
  assert (applying id key cf2) as Hap2.
  { apply seed_Ok in Hseed as [[-> _]|(_ & req & res & _ & _ & Hs)]; [done|]. by eapply applying_save in Hs. }
  destruct (applying_capture _ _ _ _ _ Hap2 Hcap) as [Hap3 Hne]. split; [done|].
  intros o1 _ [= <-]. apply Hne. by destruct (deploy_kind _ _ _ _ _ _ _ Hpg Ht).
Qed.

Lemma applying_fstep id key op cf : op_ended id (cf_base cf) → applying id key cf → applying id key (fstep op cf).
Proof.
  intros (o & Ho & Ht) Hap. destruct op as [op|request d pg now|app scope request|context v t|context v t c b];
    cbn [fstep]; unfold committed_config; try done.
  - destruct (Configuration.admit_with_configuration _ _ _ _ _) as [[? ?]|] eqn:E; [|done].
    by apply (applying_admit id key) in E as [? _].
  - destruct (Configuration.save _ _ _ _) as [[? ?]|] eqn:E; [|done]. apply save_Ok in E. by eapply applying_save.
  - destruct (Configuration.bind _ _ _ _) as [[? ?]|] eqn:E; [|done].
    by apply bind_Ok in E as [->|(? & ? & _ & _ & _ & _ & _ & _ & _ & ->)].
  - destruct (Configuration.record _ _ _ _ _ _) as [[? ?]|] eqn:E; [|done].
    apply record_Ok in E as (o' & r & h & ? & ? & Hown & _ & _ & _ & _ & _ & _ & _ & _ & Hh & Hnot & ->).
    destruct Hap as (h0 & Hh0 & Ha0). destruct (owner_row _ _ _ Hown) as [Ho' Hst].
    exists h0. split; [|done]. simpl. rewrite lookup_insert_ne; [done|]. intros <-.
    assert (h0 = h) as -> by congruence. destruct Hnot as [?|Hid]; [congruence|].
    assert (id = op_operation_id o') as -> by congruence. assert (o' = o) as -> by congruence. by rewrite Hst in Ht.
Qed.

Lemma applying_rstep id key op rv :
  ledger_ok (rv_compute rv) → op_ended id (rv_compute rv) →
  applying id key (rv_config rv) → applying id key (rv_config (rstep op rv)).
Proof.
  intros Hok He Hap. destruct (observed op) as [s|] eqn:Hobs.
  { destruct (observed_frame op s rv (proj1 (lk_ops _ Hok)) Hobs) as [_ Hh]. unfold applying. by rewrite Hh. }
  destruct op; try done; cbn [rstep]; unfold committed_recovery.
  - by apply applying_fstep.
  - destruct (Reconcile.admit_with_input _ _ _ _ _) as [[out rv']|] eqn:E; [|done].
    unfold Reconcile.admit_with_input in E. peel E as t Ht. destruct t as [out1 cf1].
    apply (applying_admit id key) in Ht as [? _]; [|done].
    destruct out1, input; repeat unbind E; by injection E as _ <-.
  - destruct (Reconcile.bind_operation_deadline _ _ _ _ _) as [[d rv']|] eqn:E; [|done].
    unfold Reconcile.bind_operation_deadline in E. unbind E. peel E as t Ht. destruct t. unbind E.
    destruct (rv_deadlines rv !! _); [unbind E|]; by injection E as _ <-.
  - destruct (Reconcile.commit_resource_binding _ _ _) as [[o' rv']|] eqn:E; [|done].
    apply commit_binding_Ok in E as (_ & _ & _ & _ & _ & _ & _ & rv1 & Hcf & Hadv).
    apply advance_operation_Ok in Hadv as (? & ? & _ & _ & _ & _ & _ & ->).
    unfold applying in *. rewrite <- Hcf in Hap. by destruct (op_is_terminal (op_state o')).
  - unfold applying. by rewrite (proj2 (restart_frame rv)).
Qed.

Lemma applying_rrun id key ops rv :
  ledger_ok (rv_compute rv) → fresh_recovery_run ops rv →
  op_ended id (rv_compute rv) → applying id key (rv_config rv) → applying id key (rv_config (rrun ops rv)).
Proof.
  revert rv. induction ops as [|op ops IH]; intros rv Hok Hf He Hap; [done|]. destruct Hf as [Hf Hfs].
  apply IH; try done; [by apply rstep_ledger_ok|by eapply ended_keeps; [apply rstep_keeps|]|by apply applying_rstep].
Qed.

(** C26: when recovery has ended an operation whose credential write was still
    unresolved, the write stays unresolved for good, and no deployment that brings
    its own credentials is ever accepted again for that environment. *)
Theorem ended_write_blocks_deployments ops more st id key request input pg now :
  store_ok st → fresh_recovery_run (ops ++ more) (new_recovery_store st) →
  op_ended id (rv_compute (rrun ops (new_recovery_store st))) →
  applying id key (rv_config (rrun ops (new_recovery_store st))) →
  let rv := rrun (ops ++ more) (new_recovery_store st) in
  applying id key (rv_config rv)
  ∧ ¬ ∃ o rv', Reconcile.admit_with_input request input (Some pg) now rv = Ok (AdmAccepted o, rv') ∧ op_key o = key.
Proof.
  intros Hst Hf He Hap. rewrite rrun_app. apply fresh_recovery_app in Hf as [Hf1 Hf2].
  pose proof (recovery_run_ok _ _ Hst Hf1) as Hok. simpl.
  pose proof (applying_rrun id key more _ Hok Hf2 He Hap) as Hap'. split; [done|].
  intros (o & rv' & Hadm & Hkey). unfold Reconcile.admit_with_input in Hadm. peel Hadm as t Ht. destruct t as [out cf].
  apply (applying_admit id key) in Ht as [_ Hne]; [|done].
  assert (out = AdmAccepted o) as -> by (destruct out, input; repeat unbind Hadm; by injection Hadm as -> _).
  by apply (Hne o eq_refl eq_refl).
Qed.
End config.

(** ** Instances *)

#[local] Existing Instances sample_codec sample_creation_codec sample_compute_codec sample_seed_hash
  sample_recovery_codec.

(** The write of the sample is under way. *)
Lemma sample_writes :
  oc_credential_state <$> cf_receipts (rv_config sample_stuck) !! "op-1" = Some "applying".
Proof. refine (bool_decide_eq_true_1 _ _); by vm_compute. Qed.
Lemma sample_not_unasked : ¬ ended_unasked sample_stuck_calls sample_new "op-1".
Proof.
  intros H%ended_unasked_called. revert H. refine (bool_decide_eq_true_1 (¬ _) _). by vm_compute.
Qed.

Lemma unresolved_write_holds_scope_witness :
  ∃ r, cf_receipts (rv_config sample_stuck) !! "op-1" = Some r ∧ unresolved r
    ∧ slot (active_operations (cs_app (rv_compute sample_stuck))) (oc_scope r) = Some "op-1".
Proof.
  destruct (proj1 (fmap_Some _ _ _) sample_writes) as (r & Hr & Hs).
  assert (unresolved r) as Hu by (left; by rewrite Hs). exists r. split; [exact Hr|]. split; [exact Hu|].
  assert (fresh_recovery_run sample_stuck_calls sample_new) as Hf
    by (pose proof sample_settled_runs as Hf; by apply fresh_recovery_app in Hf as [? _]).
  destruct (unresolved_write_holds_scope sample_stuck_calls (new_store sample_app) sample_store_ok Hf "op-1" r Hr)
    as (o & _ & Hh & _).
  destruct (Hh (or_introl Hu)) as [[_ Hslot]|[_ Hun]]; [exact Hslot|by destruct sample_not_unasked].
Defined.

(** The first save, and what follows it. *)
Definition sample_saved_calls : list ROp := RConfig <$> [sample_first_save; sample_deploy].
Definition sample_bound_calls : list ROp := RConfig <$> take 3 sample_writing.
Definition sample_report_calls : list ROp :=
  (RConfig <$> drop 3 sample_writing) ++ [sample_advance 2 RecoveryRequired "claimed" JNull; sample_settle].
Lemma sample_bound_runs :
  fresh_recovery_run ((sample_saved_calls ++ sample_bound_calls) ++ sample_report_calls) sample_new.
Proof. refine (bool_decide_eq_true_1 _ _). by vm_compute. Qed.
Lemma sample_bound_target :
  (λ r, (oc_physical_uid r, oc_deployment_generation r))
    <$> cf_receipts (rv_config (rrun (sample_saved_calls ++ sample_bound_calls) sample_new)) !! "op-1"
  = Some (Some "uid-1", Some "gen-1").
Proof. refine (bool_decide_eq_true_1 _ _). by vm_compute. Qed.

Lemma configuration_only_advances_witness :
  ∃ r, cf_receipts (rv_config (rrun ((sample_saved_calls ++ sample_bound_calls) ++ sample_report_calls) sample_new)) !! "op-1"
      = Some r
    ∧ oc_physical_uid r = Some "uid-1" ∧ oc_deployment_generation r = Some "gen-1".
Proof.
  destruct (proj1 (fmap_Some _ _ _) sample_bound_target) as (r & Hr & Ht). injection Ht as Hu Hg.
  destruct (configuration_only_advances (sample_saved_calls ++ sample_bound_calls) sample_report_calls
              (new_store sample_app) sample_store_ok sample_bound_runs) as (_ & _ & Hall).
  destruct (Hall _ _ Hr) as (r' & Hr' & _ & _ & Hkept). exists r'. split; [exact Hr'|].
  destruct Hkept as [Hu' Hg']; [left; exists "uid-1"; exact (eq_sym Hu)|].
  split; [exact (eq_trans Hu' (eq_sym Hu))|exact (eq_trans Hg' (eq_sym Hg))].
Defined.

Lemma sample_settled_ended :
  op_ended "op-1" (rv_compute (rrun (sample_stuck_calls ++ [sample_settle]) sample_new)).
Proof.
  destruct (proj1 (fmap_Some _ _ _) sample_settled_terminal) as (o & Ho & Hst). exists o. split; [exact Ho|].
  symmetry. exact Hst.
Qed.
Lemma sample_settled_applying :
  applying "op-1" ("app", "life-1", Prod) (rv_config (rrun (sample_stuck_calls ++ [sample_settle]) sample_new)).
Proof. destruct (proj1 (fmap_Some _ _ _) sample_settled_head) as (h & Hh & Hap). exists h. by split. Qed.

Lemma ended_write_blocks_deployments_witness :
  ¬ ∃ o rv', Reconcile.admit_with_input (sample_admission "op-2" StartDeployment (Some (CmdDeploy false sample_fingerprint false)))
      (Some "input") (Some (sample_pg "other")) 9
      (rrun ((sample_stuck_calls ++ [sample_settle]) ++ [RRestart]) (new_recovery_store (new_store sample_app)))
    = Ok (AdmAccepted o, rv') ∧ op_key o = ("app", "life-1", Prod).
Proof.
  pose proof sample_restarted_runs as Hf.
  exact (proj2 (ended_write_blocks_deployments (sample_stuck_calls ++ [sample_settle]) [RRestart] (new_store sample_app)
    "op-1" ("app", "life-1", Prod) (sample_admission "op-2" StartDeployment (Some (CmdDeploy false sample_fingerprint false)))
    (Some "input") (sample_pg "other") 9 sample_store_ok Hf sample_settled_ended sample_settled_applying)).
Defined.
